(* ===== verification/_CoqProject ===== *)
-Q . S2P
Prelude.v
GoStrings.v
Http.v
NetIP.v
ClientIP.v
ProxyProto.v
Sha256.v
Compiled.v
Tables.v
Matching.v
Precedence.v
Balancing.v
Build.v
DataPlane.v
Process.v
Ports.v
RateLimit.v
Filters.v
Auth.v
Waf.v
ReverseProxy.v
Handler.v
GatewayTypes.v
References.v
Listeners.v
BackendTLS.v
AuthDoc.v
WafDoc.v
Extensions.v
Compile.v
Attach.v
Params.v
Publish.v
Status.v
Frontend.v
Topology.v
Engine.v
Base64.v
Jwt.v
Ldap.v
Oidc.v
Saml.v
Login.v
Sealing.v
Providers.v
Datagrams.v
Streams.v
TlsStreams.v
ControlPlane.v
EndToEnd.v
Dashboard.v
DashboardServer.v
Servers.v
Gateway.v
