(* ===== verification/Prelude.v ===== *)
(** * krouter: a verification library for the Kubernetes router

    krouter implements the Kubernetes Gateway API.  A control plane compiles
    Gateways and routes into content-addressed generations of ConfigMaps and
    Secrets; a data plane watches them, loads the desired generation of each
    gateway into routing tables, runs one server per internal port and
    forwards requests to ready endpoints.  This library models both
    planes, from the reconciliation pass to the path of a request, a login, a
    stream and a datagram, as pure functions, state machines and small monads over the Go sources
    under [internal/], and proves what makes them correct.

    ** Files, in dependency order

    - [Prelude]: errors as values ([result]), folds with early return,
      machine integers with their wrap-around, the loop that keeps the best
      candidate ([select]), Go's sorting contracts, lists.
    - [GoStrings], [Http], [NetIP], [Sha256]: what the sources use of
      [strings], [strconv], [net/http], [net/url], [net/netip] and
      [crypto/sha256], all executable.
    - [ClientIP]: [lib/transports/http/clientip], the trusted-proxy walk.
    - [ProxyProto]: [lib/transports/proxyproto], both PROXY headers and the
      connection wrapper as a state machine.
    - [Compiled]: [lib/k8s/compiled], the records of a generation, its
      names, labels, checksums and content address.
    - [Tables]: [http/routing/types.go], the runtime tables.  Pointers that
      are compared or shared carry an address; the atomic round-robin
      counters live in a store indexed by it.
    - [Matching], [Balancing]: [http/routing/match.go], request matching and
      precedence, misdirection, certificates and reserved endpoints; weighted
      round robin, endpoints, TCP, UDP and TLS selection.
    - [Precedence]: the order of rules as the documentation gives it, and that
      the search of [Matching] follows it.
    - [Build]: [http/routing/build.go] and [load.go], from verified objects
      to tables with transport reuse, merging, the SAN verifier.
    - [DataPlane]: the actors [configwatcher], [loader], [resolver] and
      [listeners] of [app/dataplane], one function per message.
    - [Process]: [app/dataplane/supervisor.go] and the [DoWork] loops, the
      data-plane actors and their mailboxes as one interleaved process.
    - [Ports]: [lib/k8s/gatewayapi/ports.go], internal port allocation.
    - [RateLimit]: [extensions/ratelimiting], documents and token buckets.
    - [Filters]: the filters, redirects, forwarding headers and CORS of
      [http/proxy], and the responses of [lib/transports/grpc].
    - [Auth]: [extensions/auth/session.go] and [enforcer.go].
    - [Waf]: [extensions/waf/engine.go] over a Coraza transaction.
    - [ReverseProxy]: what [httputil.ReverseProxy] does around its hooks,
      cookies and redirects of [net/http].
    - [Handler]: [http/proxy/handler.go] and [extensions.go], the request
      path [Serve] composed from the components above.
    - [GatewayTypes]: [lib/k8s/gatewayapi/types.go] and the Gateway API
      objects as the engine reads them; the following files model the other
      files of that directory.
    - [References]: the helpers of [compile.go] on grants, namespaces,
      hostnames and CA bundles.
    - [Listeners]: [validateListeners] to [resolveCertificates] and the
      listener sets, the effective listeners of a Gateway.
    - [BackendTLS]: [backendtls.go], policies, claims and their lookup.
    - [AuthDoc], [WafDoc]: [extensions/auth/auth.go] and [merge.go],
      [extensions/waf/waf.go], the extension documents and their merge.
    - [Extensions]: [extensions.go], the ExtensionRefs of a rule.
    - [Compile]: the rules of [compile.go], matches, filters, backends.
    - [Attach]: the attachment of routes in [compile.go], with the route
      counters the listeners share.
    - [Params]: [config/hclparams], the operator's parameters.
    - [Publish]: [publish.go], generations written to an API server whose
      calls may fail, and their collection.
    - [Status]: [status.go] with the statuses of [listenersets.go] and
      [backendtls.go], conditions and writers against an API server in which
      other clients write between a read and an update.
    - [Frontend]: [frontend.go], the Service and EndpointSlice of a Gateway.
    - [Topology]: [topology.go], the projection the dashboard shows.
    - [Engine]: [engine.go], the snapshot, the reconciliation of a Gateway
      and the pass over all of them, composed from the files above.
    - [Base64]: the unpadded encoding of [encoding/base64].
    - [Jwt], [Ldap], [Oidc], [Saml]: [extensions/auth/jwt.go], [ldap.go],
      [oidc.go] and [saml.go], the identity providers with their caches.
    - [Login]: [extensions/auth/endpoints.go], [page.go], the state cookie
      and the endpoints of each provider.
    - [Sealing]: [seal] and [open] of [session.go], the implementation of the
      interfaces [Auth] and [Login] seal their cookies with.
    - [Providers]: the interface [Auth] decides against, implemented by the
      providers above.
    - [Datagrams], [Streams], [TlsStreams]: [lib/transports/udp], [tcp] and
      [tls], the forwarders as machines whose steps interleave.
    - [ControlPlane]: [config/config.go] and [app/controlplane], the poller
      of acknowledgements and the reconciler as one process.
    - [EndToEnd]: the path of a generation from [Publish] through [Process]
      to the poll of [ControlPlane].
    - [Dashboard], [DashboardServer]: [internal/dashboard], what its tables,
      graph, manifests and notification stream contain, and which request
      gets which of them.
    - [Servers]: the port servers of [app/dataplane/listeners] and
      [app/mgmt].
    - [Gateway]: [Handler] with the providers and login endpoints plugged in.

    ** What the theorems show

    - Request path: nothing reaches a transport before every check passed;
      identity headers upstream are the gateway's, as the operator's filters
      edit them; a backend with a TLS policy
      is never reached otherwise; unusable backends get the required answers;
      the logged status is the written one; inspection leaves requests intact.
    - Routing: the matched rule serves the request and no other precedes it in
      the documented order, absence is exact, listener and route hostnames
      intersect exactly when the data plane serves a common name, the outcome is independent of iteration order, SNI and authority
      agree on the owner.
    - Balancing: a full turn of the counters follows the weights and visits
      every endpoint once; L4 and TLS selection follow their precedence.
    - Construction: a table that builds implements its configuration, fails
      closed and keeps only transports that describe their policy; loading
      verifies every object; merging is independent of order.
    - Actors: the loader keeps the last valid generation and publishes only
      verified ones in every reachable state; listeners converge; in every
      interleaving the process comes to rest in a state of the sequential
      data plane.
    - Extensions: rate limits hold between any two instants, allowed requests are vouched for,
      rejections have the documented shape, sessions survive the round trip.
    - Authentication: a request sent upstream behind an enforcer carried a
      token signed under a key its issuer served, a session or directory
      credentials, and goes out with that identity; the issuer's keys are fetched a
      bounded number of times; a directory login binds as the one entry the
      escaped search found and reports every failure as what it is; a session is minted only at the end of a login
      whose state this gateway sealed, and such a login completes and lasts.
    - Streams and datagrams, for every interleaving: the bytes a peer sends
      arrive in order and the splice ends; the ClientHello that was read for
      its name reaches the backend; every use of a flow keeps its client on
      its backend for another minute, and stopping drains every flow.
    - Listeners and attachment: a valid listener has what its protocol
      needs, conflicts are resolved in favour of the first, a route attaches
      exactly to the listeners that admit it, an accepted route keeps all its
      rules, matches, filters and backends, references across namespaces need a grant, and the
      order of attachments does not matter.
    - Backends and extensions: the oldest policy that names a Service port is
      the one its backends get; every extension of a rule is enforced in order
      or makes its rule fail closed; merged authentication documents give the
      configuration they ask for, which is valid and builds.
    - Publishing: a published generation is the one a data plane loads; a
      failed publication leaves what the current one needs, and so does the
      collection.
    - Reconciliation: the stored status of a Gateway says programmed exactly
      when every healthy pod applied what was just published (and no listener
      allows an insecure fallback); its frontend leads every valid listener's
      port to it over its transport; statuses and frontends settle; a pass
      leaves the objects of other controllers alone, and a status write keeps
      their entries, whatever interleaves.
    - Across both planes: what is published is acknowledged by every process
      that caught up, and a Gateway reported as programmed is served by every
      pod that answered.
    - The dashboard's graph shows exactly the topology, its manifest links
      resolve, and the servers stop within their grace period.
    - Wire formats: PROXY headers and persisted port maps round-trip, content
      addresses determine the content, client addresses cannot be spoofed.

    ** Conventions, parameters and bounds

    Go functions returning an error become functions into [result]; panics
    are [None] or a constructor.  Integers keep their width where the code
    can overflow.  Code outside the repository is a type class or an
    argument, with what is documented of it as the class's laws: X.509 and
    JSON decoding ([Libraries]), authenticated encryption ([Sealer]), identity
    providers ([Providers]), Coraza ([Coraza]), HCL decoding, unstable sorting
    ([GoSort]), float arithmetic ([FloatOps]), backends, clock and randomness
    ([Outside]), cluster reads, label selectors, PEM and durations
    ([Kubernetes]), the HCL decoders ([HCL], [ParamsHCL]), JSON encoding
    ([Encoding], [PortMapJSON]) and the API server's faults with the order of
    map iteration ([Environment]), the status subresources, feature names
    and the frontend's server ([StatusServer], [StatusTexts],
    [FrontendAPI]), rendering, iteration order and the lists of a snapshot
    ([Rendering], [EngineOrder], [ClusterLists]), identity
    providers, signatures and token documents ([Web], [Signatures],
    [TokenJSON], [OidcJSON], [SamlLib]), directories ([Directory],
    [Escaping]), pages, forms and the state cookie's cipher ([Pages],
    [Forms], [StateSealer]) and TLS sessions ([TLSServer]), mailboxes ([Mailbox]), the
    cipher and JSON behind cookies ([AEAD], [Payload], [Nonces]), and the
    dashboard's templates and files ([Assets]); each has a
    concrete instance in its file.  Loops are
    structural recursions or folds; the fuelled ones ([trimSpace], [fields],
    [chunk], address parsing, the CA scan) take the length of their input or
    the number of chunks that fit, which they never exceed; a status write
    retries as often as client-go's default backoff, five times.  A request reads one clock
    value.  Times are nanoseconds in [Z].

    Some steps are coarser than the code's.  A call to the API server that
    fails has no effect: a response lost after the write was applied is not
    represented.  A rate limiter reads the clock and takes its lock in one
    step, a datagram forwarder reads the clock and sets the deadline in one;
    the first can run out of order in Go, with the effect
    [stale_clock_grants_extra_capacity] shows.  The objects a data plane lists
    are those of the store, all taken to carry the label the watcher selects
    by.  Only the panics the definitions name are represented;
    every other expression is total.

    ** Not modelled

    The HTML templates and static files, which only render the values
    modelled here; dependency injection and the entry point; metrics and
    logs; the tickers and the Kubernetes clients, which choose when an actor
    polls and what it sees, both inputs of the steps; the load generator and
    the mocks of the tests. *)

From Stdlib Require Export Ascii.
From stdpp Require Export base list gmap strings pretty sorting numbers.
From stdpp Require Import options.
Export ListNotations.

(** ** Notations *)

Declare Scope go_scope.
Delimit Scope go_scope with go.

(** Go's [==] on comparable values, as a boolean. *)
Notation "a == b" := (bool_decide (a = b))
  (at level 70, no associativity) : go_scope.
Notation "a != b" := (negb (bool_decide (a = b)))
  (at level 70, no associativity) : go_scope.
#[global] Open Scope go_scope.

(** ** Errors as values

    A Go function returning [(T, error)] becomes a function into
    [result E T]; [E] is the component's own error type. *)

Inductive result (E A : Type) : Type :=
  | Ok (a : A)
  | Err (e : E).
Arguments Ok {E A} a.
Arguments Err {E A} e.

#[global] Instance result_ret {E} : MRet (result E) := λ A a, Ok a.
#[global] Instance result_bind {E} : MBind (result E) := λ A B f r,
  match r with Ok a => f a | Err e => Err e end.
#[global] Instance result_fmap {E} : FMap (result E) := λ A B f r,
  match r with Ok a => Ok (f a) | Err e => Err e end.
#[global] Instance result_eq_dec {E A} `{EqDecision E, EqDecision A} :
  EqDecision (result E A).
Proof. solve_decision. Defined.

(** [guard_err c e]: the early return [if !c { return e }]. *)
Definition guard_err {E} (c : bool) (e : E) : result E unit :=
  if c then Ok tt else Err e.

Definition of_option {E A} (e : E) (o : option A) : result E A :=
  match o with Some a => Ok a | None => Err e end.

(** Wrapping the error of a call. *)
Definition map_err {E F A} (f : E → F) (r : result E A) : result F A :=
  match r with Ok a => Ok a | Err e => Err (f e) end.

#[global] Instance Ok_inj {E A} : Inj (=) (=) (@Ok E A).
Proof. by intros a b [= ->]. Qed.

Lemma bind_Ok {E A B} (r : result E A) (f : A → result E B) b :
  r ≫= f = Ok b ↔ ∃ a, r = Ok a ∧ f a = Ok b.
Proof. destruct r; naive_solver. Qed.

Lemma guard_err_Ok {E} c (e : E) u : guard_err c e = Ok u ↔ c = true.
Proof. destruct c, u; unfold guard_err; naive_solver. Qed.

Lemma of_option_Ok {E A} (e : E) (o : option A) a :
  of_option e o = Ok a ↔ o = Some a.
Proof. destruct o; naive_solver. Qed.

(** A loop that may return early with an error: [for _, x := range l]. *)
Fixpoint foldM {E S A} (f : S → A → result E S) (s : S) (l : list A) : result E S :=
  match l with
  | [] => Ok s
  | a :: l => s' ← f s a; foldM f s' l
  end.

Lemma foldM_inv {E S A} (P : S → Prop) (f : S → A → result E S) l s s' :
  P s →
  (∀ s a s', a ∈ l → P s → f s a = Ok s' → P s') →
  foldM f s l = Ok s' → P s'.
Proof.
  revert s; induction l as [|a l IH]; intros s Hs Hstep; simpl; [naive_solver|].
  rewrite bind_Ok; intros (s1 & H1 & H2).
  eapply IH; [|by eauto using list_elem_of_further|exact H2].
  eapply Hstep; [left|done|done].
Qed.

(** A loop that ran to its end executed every iteration successfully. *)
Lemma foldM_steps {E S A} (f : S → A → result E S) l s s' a :
  foldM f s l = Ok s' → a ∈ l → ∃ s1 s2, f s1 a = Ok s2.
Proof.
  revert s; induction l as [|x l IH]; intros s; simpl; [by intros _ ?%elem_of_nil|].
  rewrite bind_Ok. intros (s1 & H1 & H2) [->|Ha]%elem_of_cons; eauto.
Qed.

Lemma foldM_app {E S A} (f : S → A → result E S) s l1 l2 :
  foldM f s (l1 ++ l2) = foldM f s l1 ≫= λ s', foldM f s' l2.
Proof.
  revert s; induction l1 as [|a l1 IH]; intros s; [done|].
  simpl. destruct (f s a); simpl; [apply IH|done].
Qed.

Lemma foldM_snoc {E S A} (f : S → A → result E S) s l a s' :
  foldM f s (l ++ [a]) = Ok s' ↔ ∃ s1, foldM f s l = Ok s1 ∧ f s1 a = Ok s'.
Proof.
  rewrite foldM_app, bind_Ok. simpl. setoid_rewrite bind_Ok. naive_solver.
Qed.

(** ** Machine integers

    Go's [int32], [int64] and [int] (64-bit on every supported platform)
    are integers with two's complement wrap-around. *)

Definition int32_wrap (z : Z) : Z := (z + 2 ^ 31) `mod` 2 ^ 32 - 2 ^ 31.
Definition int64_wrap (z : Z) : Z := (z + 2 ^ 63) `mod` 2 ^ 64 - 2 ^ 63.
Definition uint16_wrap (z : Z) : Z := z `mod` 2 ^ 16.

Lemma int64_wrap_id z : (-(2 ^ 63) ≤ z < 2 ^ 63)%Z → int64_wrap z = z.
Proof. intros. unfold int64_wrap. rewrite Z.mod_small; lia. Qed.

Lemma int32_wrap_id z : (-(2 ^ 31) ≤ z < 2 ^ 31)%Z → int32_wrap z = z.
Proof. intros. unfold int32_wrap. rewrite Z.mod_small; lia. Qed.

Lemma int64_wrap_add_l a b : int64_wrap (int64_wrap a + b) = int64_wrap (a + b).
Proof.
  unfold int64_wrap.
  replace ((a + 2 ^ 63) `mod` 2 ^ 64 - 2 ^ 63 + b + 2 ^ 63)%Z with ((a + 2 ^ 63) `mod` 2 ^ 64 + b)%Z by lia.
  rewrite Zplus_mod_idemp_l. do 2 f_equal. lia.
Qed.

Lemma int64_wrap_range z : (-(2 ^ 63) ≤ int64_wrap z < 2 ^ 63)%Z.
Proof.
  unfold int64_wrap. pose proof (Z.mod_pos_bound (z + 2 ^ 63) (2 ^ 64)). lia.
Qed.

(** Go's [%] truncates towards zero. *)
Abbreviation go_rem := Z.rem.

(** ** Selecting the best candidate

    Several loops of the program keep the best candidate seen so far and
    replace it only when a later one strictly beats it.  [select] is that
    loop over an explicit candidate list. *)

Section select.
Context {A S : Type} (beats : S → S → bool).

Definition better (best : option (A * S)) (c : A * S) : option (A * S) :=
  match best with
  | None => Some c
  | Some b => if beats c.2 b.2 then Some c else Some b
  end.

Definition select (l : list (A * S)) : option (A * S) := fold_left better l None.

Lemma select_from_elem l b c :
  fold_left better l b = Some c → b = Some c ∨ c ∈ l.
Proof.
  revert b; induction l as [|x l IH]; intros b; simpl; [auto|].
  intros [Hb|?]%IH; [|right; by right].
  destruct b as [b|]; simpl in Hb; [destruct (beats _ _)|]; simplify_eq;
    auto; right; left.
Qed.

Lemma select_elem l c : select l = Some c → c ∈ l.
Proof. by intros [?|?]%select_from_elem. Qed.

Lemma select_from_Some l b : is_Some (fold_left better l (Some b)).
Proof.
  revert b; induction l as [|x l IH]; intros b; simpl; [eauto|].
  destruct (beats _ _); apply IH.
Qed.

Lemma select_None l : select l = None ↔ l = [].
Proof.
  split; [|by intros ->]. destruct l as [|x l]; [done|].
  unfold select; simpl. intros H. destruct (select_from_Some l x); congruence.
Qed.

(** The order facts the optimality of [select] rests on: [beats] is a
    strict weak order. *)
Class StrictWeak := {
  beats_irrefl s : beats s s = false;
  beats_trans s t u : beats s t = true → beats t u = true → beats s u = true;
  beats_ntrans s t u : beats s t = false → beats t u = false → beats s u = false;
}.

Context `{!StrictWeak}.

Lemma select_from_optimal l b c d :
  fold_left better l b = Some c →
  (b = Some d ∨ d ∈ l) → beats d.2 c.2 = false.
Proof using All.
  revert b d; induction l as [|x l IH]; intros b d; simpl.
  { intros -> [[= ->]|?%elem_of_nil]; [apply beats_irrefl|done]. }
  intros Hf. destruct b as [b|]; simpl in Hf.
  - destruct (beats x.2 b.2) eqn:Hxb.
    + intros [[= ->]|[->|?]%elem_of_cons]; [|by eapply IH; eauto..].
      assert (Hxc : beats x.2 c.2 = false) by (eapply IH; eauto).
      destruct (beats d.2 c.2) eqn:?; [|done].
      by rewrite (beats_trans x.2 d.2 c.2) in Hxc.
    + intros [[= ->]|[->|?]%elem_of_cons]; [by eapply IH; eauto| |by eapply IH; eauto].
      eapply beats_ntrans; [done|]. by eapply IH; eauto.
  - intros [?|[->|?]%elem_of_cons]; [done|by eapply IH; eauto..].
Qed.

Lemma select_optimal l c d : select l = Some c → d ∈ l → beats d.2 c.2 = false.
Proof using All. intros ??. eapply select_from_optimal; eauto. Qed.

(** Ties go to the first candidate: everything before the chosen one is
    strictly beaten by it. *)
Lemma select_first l c :
  select l = Some c →
  ∃ l1 l2, l = l1 ++ c :: l2 ∧ (∀ d, d ∈ l1 → beats c.2 d.2 = true) ∧
           (∀ d, d ∈ l2 → beats d.2 c.2 = false).
Proof using All.
  revert c; induction l as [|x l IH] using rev_ind; intros c; [done|].
  unfold select. rewrite fold_left_app. fold (select l). simpl.
  destruct (select l) as [b|] eqn:Hl; simpl.
  - destruct (IH b eq_refl) as (l1 & l2 & -> & H1 & H2).
    destruct (beats x.2 b.2) eqn:Hxb; intros [= <-].
    + exists (l1 ++ b :: l2), []. split; [done|]. split; [|by intros ? ?%elem_of_nil].
      intros d [Hd|[->|Hd]%elem_of_cons]%elem_of_app; [eauto using beats_trans|done|].
      apply H2 in Hd. destruct (beats x.2 d.2) eqn:Hxd; [done|].
      by rewrite (beats_ntrans _ _ _ Hxd Hd) in Hxb.
    + exists l1, (l2 ++ [x]). split; [by rewrite <-app_assoc|]. split; [done|].
      intros d [?|?%list_elem_of_singleton]%elem_of_app; [auto|by subst].
  - apply select_None in Hl as ->. intros [= <-]. exists [], [].
    split; [done|]. split; by intros ? ?%elem_of_nil.
Qed.
End select.
Arguments StrictWeak {S} beats.
#[global] Hint Mode StrictWeak + ! : typeclass_instances.

(** *** Building strict weak orders *)

Lemma strict_weak_ext {S} (b c : S → S → bool) :
  (∀ s t, b s t = c s t) → StrictWeak b → StrictWeak c.
Proof.
  intros H [H1 H2 H3]. split; intros *; rewrite <-!H; eauto.
Qed.

Lemma strict_weak_proj {S T} (f : S → T) (b : T → T → bool) :
  StrictWeak b → StrictWeak (λ s t, b (f s) (f t)).
Proof. intros [H1 H2 H3]. split; intros *; eauto. Qed.

#[global] Instance Zltb_strict : StrictWeak Z.ltb.
Proof. split; intros *; rewrite ?Z.ltb_lt, ?Z.ltb_ge; lia. Qed.

#[global] Instance Zgtb_strict : StrictWeak (λ x y, (y <? x)%Z).
Proof. split; intros *; rewrite ?Z.ltb_lt, ?Z.ltb_ge; lia. Qed.

(** Compare by [b]; break its ties by [c]. *)
Definition lex {S} (b c : S → S → bool) (s t : S) : bool :=
  b s t || (negb (b t s) && c s t).

Lemma lex_true {S} (b c : S → S → bool) s t :
  lex b c s t = true ↔ b s t = true ∨ (b t s = false ∧ c s t = true).
Proof. unfold lex. by rewrite orb_true_iff, andb_true_iff, negb_true_iff. Qed.

Lemma lex_false {S} (b c : S → S → bool) s t :
  lex b c s t = false ↔ b s t = false ∧ (b t s = true ∨ c s t = false).
Proof. unfold lex. by rewrite orb_false_iff, andb_false_iff, negb_false_iff. Qed.

Lemma lex_strict {S} (b c : S → S → bool) :
  StrictWeak b → StrictWeak c → StrictWeak (lex b c).
Proof.
  intros [B1 B2 B3] [C1 C2 C3]. split.
  - intros s. apply lex_false. auto.
  - intros s t u. rewrite !lex_true.
    intros [Hst|[Hts Hc]] [Htu|[Hut Hd]]; [left; by eapply B2|left|left|right].
    + apply not_false_iff_true. intros Hsu. by rewrite (B3 _ _ _ Hsu Hut) in Hst.
    + apply not_false_iff_true. intros Hsu. by rewrite (B3 _ _ _ Hts Hsu) in Htu.
    + eauto.
  - intros s t u. rewrite !lex_false.
    intros [Hst Ht] [Htu Hu]. split; [by eapply B3|].
    destruct (b u s) eqn:Hus; [by left|right].
    destruct Ht as [Ht|Ht]; [by rewrite (B3 _ _ _ Htu Hus) in Ht|].
    destruct Hu as [Hu|Hu]; [by rewrite (B3 _ _ _ Hus Hst) in Hu|eauto].
Qed.

Lemma fold_left_inv {A S} (P : S → Prop) (f : S → A → S) l s :
  P s → (∀ s a, a ∈ l → P s → P (f s a)) → P (fold_left f l s).
Proof.
  revert s; induction l as [|a l IH]; intros s Hs H; simpl; [done|].
  apply IH; [apply H; [left|done]|]. intros. apply H; [by right|done].
Qed.

(** Nested [range] loops folding one accumulator are one loop over the
    flattened list. *)
Lemma fold_left_bind {A B S} (f : S → B → S) (g : A → list B) l s :
  fold_left (λ s a, fold_left f (g a) s) l s = fold_left f (l ≫= g) s.
Proof.
  revert s; induction l as [|a l IH]; intros s; [done|].
  simpl. by rewrite IH, fold_left_app.
Qed.

Lemma fold_left_ext {A S} (f g : S → A → S) l s :
  (∀ s a, a ∈ l → f s a = g s a) → fold_left f l s = fold_left g l s.
Proof.
  revert s; induction l as [|a l IH]; intros s H; [done|]. simpl.
  rewrite H by left. apply IH. intros. apply H. by right.
Qed.

(** ** Sorting

    [sort.SliceStable(l, less)]: the result is sorted and keeps the input
    order of incomparable elements; this determines it, so an insertion
    sort is as good as Go's merge sort.  [sort.Slice] promises only a
    sorted permutation. *)

Section stable_sort.
Context {A : Type} (less : A → A → bool).

Fixpoint sort_insert (x : A) (l : list A) : list A :=
  match l with
  | [] => [x]
  | y :: l' => if less y x then y :: sort_insert x l' else x :: l
  end.

Definition sliceStable (l : list A) : list A := foldr sort_insert [] l.

(** No later element is less than an earlier one. *)
Definition sorted_by (l : list A) : Prop :=
  StronglySorted (λ x y, less y x = false) l.

Lemma sort_insert_Permutation x l : sort_insert x l ≡ₚ x :: l.
Proof.
  induction l as [|y l IH]; simpl; [done|].
  destruct (less y x); [|done]. rewrite IH. constructor.
Qed.

Lemma sliceStable_Permutation l : sliceStable l ≡ₚ l.
Proof.
  induction l as [|x l IH]; simpl; [done|].
  by rewrite sort_insert_Permutation, IH.
Qed.

Lemma sort_insert_stable (P : A → Prop) `{∀ x, Decision (P x)} x l :
  (∀ y, y ∈ l → P y → P x → less y x = false) →
  filter P (sort_insert x l) = filter P (x :: l).
Proof.
  induction l as [|y l IH]; intros HP; simpl; [done|].
  destruct (less y x) eqn:Hyx; [|done].
  assert (HPxy : ¬ (P x ∧ P y)).
  { intros [Hx Hy]. rewrite HP in Hyx; [done|left|done|done]. }
  rewrite !filter_cons. rewrite IH by (intros; apply HP; [by right|done|done]).
  rewrite filter_cons. repeat case_decide; naive_solver.
Qed.

Lemma sliceStable_stable (P : A → Prop) `{∀ x, Decision (P x)} l :
  (∀ x y, P x → P y → less x y = false) →
  filter P (sliceStable l) = filter P l.
Proof.
  intros HP. induction l as [|x l IH]; simpl; [done|].
  rewrite sort_insert_stable by auto. rewrite !filter_cons, IH. done.
Qed.

Context `{!StrictWeak less}.

Lemma sort_insert_sorted x l : sorted_by l → sorted_by (sort_insert x l).
Proof using All.
  unfold sorted_by. induction 1 as [|y l Hl IH Hy]; simpl.
  { repeat constructor. }
  destruct (less y x) eqn:Hyx.
  - constructor; [done|]. rewrite sort_insert_Permutation. constructor; [|done].
    destruct (less x y) eqn:Hxy; [|done].
    pose proof (beats_trans less _ _ _ Hyx Hxy) as Hyy.
    by rewrite beats_irrefl in Hyy.
  - constructor; [by constructor|]. constructor; [done|].
    revert Hy. apply Forall_impl; simpl. intros z Hzy.
    by eapply (beats_ntrans less).
Qed.

Lemma sliceStable_sorted l : sorted_by (sliceStable l).
Proof using All.
  induction l as [|x l IH]; simpl; [constructor|by apply sort_insert_sorted].
Qed.
End stable_sort.

(** [sort.Slice] and [sort.Strings] promise a sorted permutation and
    nothing about ties: the components that call them are proved against
    this interface.  The stable sort is one implementation. *)
Class GoSort := {
  sortSlice {A} (less : A → A → bool) : list A → list A;
  sortSlice_Permutation {A} (less : A → A → bool) l : sortSlice less l ≡ₚ l;
  sortSlice_sorted {A} (less : A → A → bool) `{!StrictWeak less} l :
    sorted_by less (sortSlice less l);
}.

#[global, refine] Instance stable_GoSort : GoSort | 100 :=
  { sortSlice A less := sliceStable less }.
Proof.
  - intros. apply sliceStable_Permutation.
  - intros. by apply sliceStable_sorted.
Defined.

(** ** Round robin

    Reading a list at consecutive counters modulo its length visits every
    position once per turn. *)

Lemma rotate_Permutation {A} n (l : list A) : rotate n l ≡ₚ l.
Proof. unfold rotate. by rewrite Permutation_app_comm, take_drop. Qed.

Lemma round_robin_rotate {A} (l : list A) (c : Z) :
  (0 ≤ c)%Z →
  (λ i : nat, l !! Z.to_nat (Z.rem (c + Z.of_nat i) (Z.of_nat (length l)))) <$>
    seq 0 (length l) = Some <$> rotate (Z.to_nat c) l.
Proof.
  intros Hc. apply list_eq. intros i. rewrite !list_lookup_fmap.
  destruct (decide (i < length l)) as [Hi|Hi].
  - rewrite lookup_seq_lt by done. simpl.
    destruct (lookup_lt_is_Some_2 (rotate (Z.to_nat c) l) i) as [x Hx];
      [by rewrite length_rotate|].
    rewrite Hx. simpl. f_equal. rewrite <-Hx, lookup_rotate_r by done.
    unfold rotate_nat_add. f_equal. rewrite Z.rem_mod_nonneg by lia. f_equal. f_equal. lia.
  - rewrite (lookup_ge_None_2 (seq _ _)) by (rewrite length_seq; lia).
    rewrite (lookup_ge_None_2 (rotate _ _)) by (rewrite length_rotate; lia). done.
Qed.

(** ** Filters and searches *)

Lemma list_filter_all {A} (P : A → Prop) `{!∀ x, Decision (P x)} (l : list A) : Forall P l → filter P l = l.
Proof. induction 1 as [|x l Hx _ IH]; [done|]. by rewrite list.filter_cons_True, IH. Qed.

Lemma filter_none {A} (P : A → Prop) `{!∀ x, Decision (P x)} (l : list A) :
  Forall (λ x, ¬ P x) l → filter P l = [].
Proof. induction 1 as [|x l Hx _ IH]; [done|]. by rewrite list.filter_cons_False. Qed.

Lemma find_nth {A} (P : A → Prop) `{!∀ x, Decision (P x)} (l : list A) i x :
  l !! i = Some x → P x → (∀ j y, l !! j = Some y → P y → j = i) → list_find P l = Some (i, x).
Proof.
  intros Hi Hx Hu. apply list_find_Some. split_and!; [done..|].
  intros j y Hj Hlt Hy. specialize (Hu j y Hj Hy). lia.
Qed.

(** ** Pairwise comparison *)

(** Two lists of the same length whose elements agree pairwise. *)
Fixpoint all_pairs {A B} (f : A → B → bool) (xs : list A) (ys : list B) : bool :=
  match xs, ys with
  | [], [] => true
  | x :: xs, y :: ys => f x y && all_pairs f xs ys
  | _, _ => false
  end.

Lemma all_pairs_Forall2 {A B} (f : A → B → bool) xs ys :
  all_pairs f xs ys = true ↔ Forall2 (λ x y, f x y = true) xs ys.
Proof.
  revert ys; induction xs as [|x xs IH]; intros [|y ys]; simpl.
  - split; [constructor|done].
  - split; [done|inversion 1].
  - split; [done|inversion 1].
  - rewrite andb_true_iff, IH. split; [intros []; by constructor|by inversion 1].
Qed.

Lemma all_pairs_shape {A T} (f : A → A → bool) (shape : A → T) xs ys :
  (∀ x y, f x y = true ↔ shape x = shape y) → all_pairs f xs ys = true ↔ shape <$> xs = shape <$> ys.
Proof.
  intros Hf. rewrite all_pairs_Forall2. revert ys. induction xs as [|x xs IH]; intros [|y ys]; simpl.
  - split; [done|constructor].
  - split; [inversion 1|done].
  - split; [inversion 1|done].
  - split; [inversion 1; subst; f_equal; [by apply Hf|by apply IH]|].
    intros [= H1 H2]. constructor; [by apply Hf|by apply IH].
Qed.

(** ** Automation *)

Create HintDb krouter.
Create Rewrite HintDb krouter.

Lemma bool_decide_eqb_refl {A} `{EqDecision A} (x : A) : (x == x) = true.
Proof. by apply bool_decide_eq_true. Qed.

#[global] Hint Rewrite @bool_decide_eqb_refl : krouter.

(** [destr_all]: split every boolean test and option match of the goal,
    keeping the equations. *)
Ltac destr_match :=
  match goal with
  | |- context [match ?x with _ => _ end] =>
      lazymatch x with
      | context [match _ with _ => _ end] => fail
      | _ => destruct x eqn:?
      end
  | H : context [match ?x with _ => _ end] |- _ =>
      lazymatch x with
      | context [match _ with _ => _ end] => fail
      | _ => destruct x eqn:?
      end
  end.

(** Turn boolean facts of the context into propositions. *)
Ltac bool_to_prop :=
  repeat match goal with
  | H : (_ && _) = true |- _ => apply andb_true_iff in H as [??]
  | H : (_ || _) = false |- _ => apply orb_false_iff in H as [??]
  | H : negb _ = true |- _ => apply negb_true_iff in H
  | H : negb _ = false |- _ => apply negb_false_iff in H
  | H : bool_decide _ = true |- _ => apply bool_decide_eq_true in H
  | H : bool_decide _ = false |- _ => apply bool_decide_eq_false in H
  | H : (_ =? _)%Z = true |- _ => apply Z.eqb_eq in H
  | H : (_ =? _)%Z = false |- _ => apply Z.eqb_neq in H
  | H : (_ <? _)%Z = true |- _ => apply Z.ltb_lt in H
  | H : (_ <? _)%Z = false |- _ => apply Z.ltb_ge in H
  | H : (_ <=? _)%Z = true |- _ => apply Z.leb_le in H
  | H : (_ <=? _)%Z = false |- _ => apply Z.leb_gt in H
  end.
