(* ===== verification/GoStrings.v ===== *)
(** * Go strings

    The parts of Go's [strings] and [strconv] packages the program uses, on
    byte strings ([string] is a sequence of 8-bit characters, like Go's).
    Each function comes with the lemma that characterises it. *)

From S2P Require Import Prelude.
From Stdlib Require Import Ascii.
From stdpp Require Import options.

#[global] Open Scope string_scope.
#[global] Open Scope list_scope.
#[global] Open Scope nat_scope.


Abbreviation len := String.length.

(** ** Append *)

Lemma app_cons c s t : String c s +:+ t = String c (s +:+ t).
Proof. done. Qed.

Lemma app_empty_l s : "" +:+ s = s.
Proof. done. Qed.

Lemma app_empty_r s : s +:+ "" = s.
Proof. induction s as [|c s IH]; [done|]. by rewrite app_cons, IH. Qed.

Lemma sapp_assoc s t u : s +:+ (t +:+ u) = (s +:+ t) +:+ u.
Proof. induction s as [|c s IH]; [done|]. by rewrite !app_cons, IH. Qed.

Lemma sapp_inj s t u : s +:+ t = s +:+ u → t = u.
Proof. induction s as [|c s IH]; [done|]. rewrite !app_cons. intros [= ?]. auto. Qed.

Lemma len_app s t : len (s +:+ t) = len s + len t.
Proof. induction s as [|c s IH]; [done|]. rewrite app_cons; simpl. by rewrite IH. Qed.

Lemma len_zero s : len s = 0 ↔ s = "".
Proof. by destruct s. Qed.

#[global] Hint Rewrite app_empty_l app_empty_r len_app : krouter.

(** ** Prefixes and suffixes *)

Fixpoint sdrop (n : nat) (s : string) : string :=
  match n, s with
  | O, _ => s
  | S n, String _ s => sdrop n s
  | S _, EmptyString => ""
  end.

Fixpoint stake (n : nat) (s : string) : string :=
  match n, s with
  | S n, String c s => String c (stake n s)
  | _, _ => ""
  end.

Lemma sdrop_app s t : sdrop (len s) (s +:+ t) = t.
Proof. induction s; [done|]. by rewrite app_cons. Qed.

Lemma sdrop_S_app s c t : sdrop (S (len s)) (s +:+ String c t) = t.
Proof.
  replace (s +:+ String c t) with ((s +:+ String c "") +:+ t) by by rewrite <-sapp_assoc.
  replace (S (len s)) with (len (s +:+ String c "")) by (rewrite len_app; simpl; lia).
  apply sdrop_app.
Qed.

Lemma stake_app s t : stake (len s) (s +:+ t) = s.
Proof. induction s as [|c s IH]; [by destruct t|]. rewrite app_cons; simpl. by rewrite IH. Qed.

Lemma stake_sdrop n s : stake n s +:+ sdrop n s = s.
Proof.
  revert n; induction s as [|c s IH]; intros [|n]; [done..|].
  simpl. by rewrite app_cons, IH.
Qed.

Lemma len_stake n s : len (stake n s) = n `min` len s.
Proof. revert n; induction s as [|c s IH]; intros [|n]; simpl; auto. Qed.

Lemma len_sdrop n s : len (sdrop n s) = len s - n.
Proof. revert n; induction s as [|c s IH]; intros [|n]; simpl; auto. Qed.

(** [strings.HasPrefix], [strings.HasSuffix]. *)
Definition hasPrefix (s p : string) : bool := String.prefix p s.
Definition hasSuffix (s p : string) : bool :=
  (len p <=? len s) && (sdrop (len s - len p) s == p).

Lemma hasPrefix_spec s p : hasPrefix s p = true ↔ ∃ t, s = p +:+ t.
Proof.
  unfold hasPrefix. revert s; induction p as [|c p IH]; intros s; simpl.
  { split; [intros _; by exists s|]. by destruct s. }
  destruct s as [|d s]; [split; [done|intros [t Ht]; by rewrite app_cons in Ht]|].
  simpl. destruct (ascii_dec c d) as [<-|Hne].
  - rewrite IH. split; intros [t Ht]; exists t; rewrite app_cons in *; by simplify_eq.
  - split; [done|]. intros [t Ht]. rewrite app_cons in Ht. by simplify_eq.
Qed.

Lemma hasSuffix_spec s p : hasSuffix s p = true ↔ ∃ t, s = t +:+ p.
Proof.
  unfold hasSuffix. rewrite andb_true_iff, Nat.leb_le, bool_decide_eq_true. split.
  - intros [Hlen Hd]. exists (stake (len s - len p) s).
    by rewrite <-Hd at 2; rewrite stake_sdrop.
  - intros [t ->]. rewrite len_app. split; [lia|].
    replace (len t + len p - len p) with (len t) by lia. apply sdrop_app.
Qed.

Lemma hasPrefix_app s t : hasPrefix (s +:+ t) s = true.
Proof. apply hasPrefix_spec. by exists t. Qed.

Lemma hasSuffix_app s t : hasSuffix (s +:+ t) t = true.
Proof. apply hasSuffix_spec. by exists s. Qed.

#[global] Hint Resolve hasPrefix_app hasSuffix_app : krouter.

(** [strings.TrimPrefix], [strings.TrimSuffix], [strings.CutPrefix]. *)
Definition trimPrefix (s p : string) : string :=
  if hasPrefix s p then sdrop (len p) s else s.
Definition trimSuffix (s p : string) : string :=
  if hasSuffix s p then stake (len s - len p) s else s.
Definition cutPrefix (s p : string) : option string :=
  if hasPrefix s p then Some (sdrop (len p) s) else None.

Lemma trimPrefix_app s t : trimPrefix (s +:+ t) s = t.
Proof. unfold trimPrefix. by rewrite hasPrefix_app, sdrop_app. Qed.

Lemma cutPrefix_app s t : cutPrefix (s +:+ t) s = Some t.
Proof. unfold cutPrefix. by rewrite hasPrefix_app, sdrop_app. Qed.

Lemma trimSuffix_app s t : trimSuffix (s +:+ t) t = s.
Proof.
  unfold trimSuffix. rewrite hasSuffix_app, len_app.
  replace (len s + len t - len t) with (len s) by lia. apply stake_app.
Qed.

Lemma trimSuffix_id s p : hasSuffix s p = false → trimSuffix s p = s.
Proof. unfold trimSuffix. by intros ->. Qed.

Lemma trimPrefix_id s p : hasPrefix s p = false → trimPrefix s p = s.
Proof. unfold trimPrefix. by intros ->. Qed.

Lemma trimSuffix_cases s p :
  s = trimSuffix s p +:+ p ∨ (trimSuffix s p = s ∧ hasSuffix s p = false).
Proof.
  destruct (hasSuffix s p) eqn:Hs; [left|right; eauto using trimSuffix_id].
  apply hasSuffix_spec in Hs as [t ->]. by rewrite trimSuffix_app.
Qed.

(** [strings.Cut]: around the first occurrence of [sep]. *)
Fixpoint cut (s sep : string) : option (string * string) :=
  if hasPrefix s sep then Some ("", sdrop (len sep) s)
  else match s with
       | EmptyString => None
       | String c s' =>
           match cut s' sep with
           | Some (a, b) => Some (String c a, b)
           | None => None
           end
       end.

Lemma cut_Some s sep a b : cut s sep = Some (a, b) → s = a +:+ sep +:+ b.
Proof.
  revert a b; induction s as [|c s IH]; intros a b; cbn [cut].
  - destruct (hasPrefix "" sep) eqn:Hp; [|done]. intros [= <- <-].
    by destruct sep.
  - destruct (hasPrefix (String c s) sep) eqn:Hp.
    + intros [= <- <-]. apply hasPrefix_spec in Hp as [t Ht].
      rewrite Ht, sdrop_app. done.
    + destruct (cut s sep) as [[a' b']|] eqn:Hc; [|done]. intros [= <- <-].
      rewrite app_cons. by rewrite <-(IH a' b').
Qed.

(** [strings.Contains]. *)
Definition contains (s sub : string) : bool := bool_decide (is_Some (cut s sub)).

(** [strings.Join]. *)
Fixpoint joinWith (sep : string) (l : list string) : string :=
  match l with
  | [] => ""
  | [s] => s
  | s :: l => s +:+ sep +:+ joinWith sep l
  end.

(** [strings.Split] on a one-byte separator: never empty. *)
Fixpoint splitOn (sep : ascii) (s : string) : list string :=
  match s with
  | EmptyString => [""]
  | String c s' =>
      if ascii_dec c sep then "" :: splitOn sep s'
      else match splitOn sep s' with
           | [] => [String c ""]
           | f :: fs => String c f :: fs
           end
  end.

(** Does the byte occur in the string? *)
Fixpoint has_byte (c : ascii) (s : string) : bool :=
  match s with
  | EmptyString => false
  | String d s => (d == c) || has_byte c s
  end.

Lemma has_byte_app c s t : has_byte c (s +:+ t) = has_byte c s || has_byte c t.
Proof.
  induction s as [|d s IH]; [done|]. rewrite app_cons; simpl. by rewrite IH, orb_assoc.
Qed.

Lemma splitOn_nonempty sep s : splitOn sep s ≠ [].
Proof.
  induction s as [|c s IH]; simpl; [done|].
  destruct (ascii_dec c sep); [done|]. by destruct (splitOn sep s).
Qed.

Lemma splitOn_app sep s t :
  has_byte sep s = false → splitOn sep (s +:+ String sep t) = s :: splitOn sep t.
Proof.
  induction s as [|c s IH]; intros Hs.
  - rewrite app_empty_l. simpl. by destruct (ascii_dec sep sep).
  - rewrite app_cons. simpl in *. bool_to_prop. destruct (ascii_dec c sep); [done|].
    by rewrite IH.
Qed.

Lemma splitOn_app_sep sep s t :
  has_byte sep s = false → splitOn sep (s +:+ String sep "" +:+ t) = s :: splitOn sep t.
Proof. apply splitOn_app. Qed.

Lemma splitOn_join sep s t :
  splitOn sep (s +:+ String sep t) = splitOn sep s ++ splitOn sep t.
Proof.
  induction s as [|c s IH].
  - rewrite app_empty_l. simpl. by destruct (ascii_dec sep sep).
  - rewrite app_cons. simpl. rewrite IH. destruct (ascii_dec c sep); [done|].
    by destruct (splitOn sep s) eqn:E; [by apply splitOn_nonempty in E|].
Qed.

Lemma splitOn_snoc sep s t :
  has_byte sep t = false → splitOn sep (s +:+ String sep t) = splitOn sep s ++ [t].
Proof.
  intros Ht. induction s as [|c s IH].
  - rewrite app_empty_l. simpl. destruct (ascii_dec sep sep); [|done].
    f_equal. clear -Ht. induction t as [|c t IH]; [done|]. simpl in *. bool_to_prop.
    destruct (ascii_dec c sep); [done|]. by rewrite IH.
  - rewrite app_cons. simpl. rewrite IH. destruct (ascii_dec c sep); [done|].
    by destruct (splitOn sep s) eqn:E; [by apply splitOn_nonempty in E|].
Qed.

Lemma joinWith_cons sep x l : l ≠ [] → joinWith sep (x :: l) = x +:+ sep +:+ joinWith sep l.
Proof. by destruct l. Qed.

Lemma join_splitOn sep s : joinWith (String sep "") (splitOn sep s) = s.
Proof.
  induction s as [|c s IH]; [done|]. cbn [splitOn].
  destruct (ascii_dec c sep) as [->|_].
  { rewrite joinWith_cons by apply splitOn_nonempty. by rewrite IH. }
  destruct (splitOn sep s) as [|f fs] eqn:E; [by apply splitOn_nonempty in E|].
  destruct fs as [|g fs]; [simpl in *; by f_equal|].
  rewrite joinWith_cons in IH |- * by done. rewrite app_cons. by f_equal.
Qed.

Lemma splitOn_single sep s : has_byte sep s = false → splitOn sep s = [s].
Proof.
  induction s as [|c s IH]; simpl; intros Hs; [done|]. bool_to_prop.
  destruct (ascii_dec c sep); [done|]. by rewrite IH.
Qed.

(** ** Order

    Go compares strings bytewise. *)

Definition sless (s t : string) : bool := String.ltb s t.

Lemma sless_leb s t : sless s t = negb (String.leb t s).
Proof.
  unfold sless, String.ltb, String.leb. rewrite String.compare_antisym.
  by destruct (t ?= s)%string.
Qed.

Lemma sleb_refl s : String.leb s s = true.
Proof. apply Is_true_true. change (String.le s s). reflexivity. Qed.

Lemma sleb_trans s t u :
  String.leb s t = true → String.leb t u = true → String.leb s u = true.
Proof. rewrite <-!Is_true_true. apply (transitivity (R := String.le)). Qed.

Lemma sless_false s t : sless s t = false ↔ String.leb t s = true.
Proof. rewrite sless_leb, negb_false_iff. done. Qed.

Lemma sleb_total s t : String.leb s t = true ∨ String.leb t s = true.
Proof. apply String.leb_total. Qed.

Lemma sless_trichotomy s t : sless s t = true ∨ s = t ∨ sless t s = true.
Proof.
  rewrite !sless_leb. destruct (String.leb t s) eqn:?, (String.leb s t) eqn:?;
    simpl; auto. right; left. by apply String.leb_antisym.
Qed.

#[global] Instance sless_strict : StrictWeak sless.
Proof.
  assert (Ht : ∀ s t u, sless s t = false → sless t u = false → sless s u = false).
  { intros s t u. rewrite !sless_false. intros. by eapply sleb_trans. }
  split; [|intros s t u|exact Ht].
  - intros s. rewrite sless_false. apply sleb_refl.
  - rewrite !sless_leb, !negb_true_iff. intros Hst Htu.
    destruct (String.leb u s) eqn:Hus; [|done].
    destruct (sleb_total s t) as [H|H]; [|congruence].
    pose proof (sleb_trans u s t Hus H). congruence.
Qed.

Lemma sless_asym s t : sless s t = true → sless t s = false.
Proof.
  intros H. destruct (sless t s) eqn:Hts; [|done].
  pose proof (beats_trans sless _ _ _ H Hts) as Hss. by rewrite (beats_irrefl sless) in Hss.
Qed.

(** ** Bytes *)

Definition byte_val (c : ascii) : Z := Z.of_N (N_of_ascii c).
Definition byte_of (z : Z) : ascii := ascii_of_N (Z.to_N (z `mod` 256)).

Lemma byte_val_range c : (0 ≤ byte_val c < 256)%Z.
Proof. unfold byte_val. pose proof (N_ascii_bounded c). lia. Qed.

Lemma byte_of_val c : byte_of (byte_val c) = c.
Proof.
  unfold byte_of. rewrite Z.mod_small by apply byte_val_range.
  unfold byte_val. by rewrite N2Z.id, ascii_N_embedding.
Qed.

Lemma byte_val_of z : (0 ≤ z < 256)%Z → byte_val (byte_of z) = z.
Proof.
  intros. unfold byte_val, byte_of. rewrite Z.mod_small by lia.
  rewrite N_ascii_embedding; lia.
Qed.

Definition in_range (lo hi : Z) (c : ascii) : bool :=
  (lo <=? byte_val c)%Z && (byte_val c <=? hi)%Z.

Definition is_digit : ascii → bool := in_range 48 57.
Definition is_upper : ascii → bool := in_range 65 90.
Definition is_lower : ascii → bool := in_range 97 122.
Definition to_lower (c : ascii) : ascii :=
  if is_upper c then byte_of (byte_val c + 32) else c.
Definition to_upper (c : ascii) : ascii :=
  if is_lower c then byte_of (byte_val c - 32) else c.

Fixpoint smap (f : ascii → ascii) (s : string) : string :=
  match s with
  | EmptyString => ""
  | String c s => String (f c) (smap f s)
  end.

Fixpoint sforall (f : ascii → bool) (s : string) : bool :=
  match s with
  | EmptyString => true
  | String c s => f c && sforall f s
  end.

(** [strings.ToLower] on the ASCII letters; bytes of other runes are kept.
    Its one use searches the result for an ASCII word containing neither
    [k] nor [i], the only ASCII letters some other rune lowers to. *)
Definition toLower (s : string) : string := smap to_lower s.

(** [strings.EqualFold]: simple case folding.  Besides the ASCII letters,
    the long s (bytes C5 BF) folds with [s] and the Kelvin sign (bytes
    E2 84 AA) with [k].  No other rune folds with an ASCII one, so this is
    Go's answer whenever one of the two strings is ASCII; the patterns the
    program compares are hostnames, which the API server requires to be. *)
Fixpoint fold_units (s : string) : list Z :=
  match s with
  | EmptyString => []
  | String c r =>
      match byte_val c, r with
      | 197%Z, String d r' =>
          if (byte_val d =? 191)%Z then 115%Z :: fold_units r'
          else 197%Z :: fold_units r
      | 226%Z, String d (String e r') =>
          if ((byte_val d =? 132) && (byte_val e =? 170))%Z then 107%Z :: fold_units r'
          else 226%Z :: fold_units r
      | _, _ => byte_val (to_lower c) :: fold_units r
      end
  end.

Definition equalFold (s t : string) : bool := fold_units s == fold_units t.

Lemma equalFold_refl s : equalFold s s = true.
Proof. unfold equalFold. by rewrite bool_decide_eqb_refl. Qed.

Lemma equalFold_sym s t : equalFold s t = equalFold t s.
Proof. unfold equalFold. apply bool_decide_ext. naive_solver. Qed.

(** ** White space

    The encodings of the runes for which [unicode.IsSpace] holds.  None is
    a prefix of another, and their first bytes are never continuation
    bytes, so scanning bytes finds exactly the spaces Go finds. *)

Definition bytes (l : list Z) : string :=
  foldr (λ z s, String (byte_of z) s) "" l.

Definition space_encodings : list string :=
  (bytes <$> [[9]; [10]; [11]; [12]; [13]; [32]; [194; 133]; [194; 160];
              [225; 154; 128]; [226; 128; 168]; [226; 128; 169];
              [226; 128; 175]; [226; 129; 159]; [227; 128; 128]]%Z) ++
  ((λ i, bytes [226; 128; i]%Z) <$> seqZ 128 11).

(** Length of the space starting (ending) the string, if any. *)
Definition leading_space (s : string) : option nat :=
  head (len <$> filter (λ e, hasPrefix s e = true) space_encodings).
Definition trailing_space (s : string) : option nat :=
  head (len <$> filter (λ e, hasSuffix s e = true) space_encodings).

Fixpoint trim_left (fuel : nat) (s : string) : string :=
  match fuel, leading_space s with
  | S fuel, Some n => trim_left fuel (sdrop n s)
  | _, _ => s
  end.
Fixpoint trim_right (fuel : nat) (s : string) : string :=
  match fuel, trailing_space s with
  | S fuel, Some n => trim_right fuel (stake (len s - n) s)
  | _, _ => s
  end.

(** [strings.TrimSpace]; each round removes at least one byte, so the
    length is enough fuel. *)
Definition trimSpace (s : string) : string :=
  let l := trim_left (len s) s in trim_right (len l) l.

Lemma trimSpace_blank s : trimSpace (String " " s) = trimSpace s.
Proof.
  unfold trimSpace. cbn [String.length trim_left].
  assert (leading_space (String " " s) = Some 1) as -> by (vm_compute; by destruct s).
  done.
Qed.

(** [strings.Fields]: maximal runs of non-space bytes. *)
Definition emit_field (cur : string) : list string :=
  if (cur == "") then [] else [cur].

Fixpoint fields_go (fuel : nat) (cur s : string) : list string :=
  match fuel, s with
  | S fuel, String c s' =>
      match leading_space s with
      | Some n => emit_field cur ++ fields_go fuel "" (sdrop n s)
      | None => fields_go fuel (cur +:+ String c "") s'
      end
  | _, _ => emit_field cur
  end.
Definition fields (s : string) : list string := fields_go (len s) "" s.

Example fields_words : fields "PROXY TCP4  1.2.3.4" = ["PROXY"; "TCP4"; "1.2.3.4"].
Proof. vm_compute. reflexivity. Qed.
Example trimSpace_ex : trimSpace "  10.0.0.1 " = "10.0.0.1".
Proof. vm_compute. reflexivity. Qed.

(** ** Decimal numbers *)

Fixpoint digits_value (acc : Z) (s : string) : option Z :=
  match s with
  | EmptyString => Some acc
  | String c s =>
      if is_digit c then digits_value (acc * 10 + (byte_val c - 48))%Z s else None
  end.

(** [strconv.ParseUint(s, 10, bits)]. *)
Definition parseUint (bits : Z) (s : string) : option Z :=
  if (s == "") then None
  else v ← digits_value 0 s; if (v <? 2 ^ bits)%Z then Some v else None.

(** An optional sign and the rest. *)
Definition split_sign (s : string) : bool * string :=
  match s with
  | String "-" r => (true, r)
  | String "+" r => (false, r)
  | _ => (false, s)
  end.

(** [strconv.Atoi], on the 64-bit [int]. *)
Definition atoi (s : string) : option Z :=
  let '(neg, digits) := split_sign s in
  if (digits == "") then None
  else v ← digits_value 0 digits;
       let z := if neg : bool then (- v)%Z else v in
       if ((- 2 ^ 63 <=? z) && (z <? 2 ^ 63))%Z then Some z else None.

Lemma parseUint_range bits s v : parseUint bits s = Some v → (v < 2 ^ bits)%Z.
Proof.
  unfold parseUint. case_bool_decide; [done|].
  destruct (digits_value 0 s) as [w|]; cbn; [|done].
  destruct (Z.ltb_spec w (2 ^ bits)); naive_solver.
Qed.

Lemma atoi_range s v : atoi s = Some v → (- 2 ^ 63 ≤ v < 2 ^ 63)%Z.
Proof.
  unfold atoi.
  destruct (split_sign s) as [neg digits]. case_bool_decide; [done|].
  destruct (digits_value 0 digits) as [w|]; cbn; [|done].
  destruct (_ && _)%Z eqn:Hb; [|done]. intros [= <-]. bool_to_prop. lia.
Qed.

(** *** Splitting what was joined with spaces *)

(** Printable non-space ASCII. *)
Definition plain : ascii → bool := in_range 33 126.

Lemma sforall_app f s t : sforall f (s +:+ t) = sforall f s && sforall f t.
Proof.
  induction s as [|c s IH]; [done|]. rewrite app_cons. simpl. by rewrite IH, andb_assoc.
Qed.

Lemma leading_space_plain c s : plain c = true → leading_space (String c s) = None.
Proof.
  intros Hc. unfold leading_space.
  enough (filter (λ e, hasPrefix (String c s) e = true) space_encodings = []) as -> by done.
  assert (Hall : Forall (λ e, ∃ d r, e = String d r ∧ plain d = false) space_encodings).
  { apply Forall_forall. intros e He.
    assert (Hb : forallb (λ e, match e with String d _ => negb (plain d) | _ => false end)
              space_encodings = true) by (vm_compute; reflexivity).
    rewrite forallb_forall in Hb. apply Hb in He.
    destruct e as [|d r]; [done|]. apply negb_true_iff in He. eauto. }
  induction Hall as [|e es (d & r & -> & Hd) _ IH]; [done|].
  rewrite filter_cons_False; [done|]. intros (t & Ht)%hasPrefix_spec.
  rewrite app_cons in Ht. simplify_eq. congruence.
Qed.

Lemma leading_space_sp s : leading_space (String " " s) = Some 1.
Proof. vm_compute. by destruct s. Qed.

Lemma fields_go_word w cur s fuel :
  sforall plain w = true → len w ≤ fuel →
  fields_go fuel cur (w +:+ s) = fields_go (fuel - len w) (cur +:+ w) s.
Proof.
  revert cur fuel. induction w as [|c w IH]; intros cur fuel Hw Hf.
  { rewrite app_empty_l, app_empty_r. simpl. by rewrite Nat.sub_0_r. }
  simpl in Hw, Hf. bool_to_prop. destruct fuel as [|fuel]; [lia|].
  rewrite app_cons. cbn [fields_go]. rewrite leading_space_plain by done.
  rewrite IH by (done || lia). simpl. by rewrite <-sapp_assoc, app_cons.
Qed.

(** [strings.Fields] undoes joining with single spaces. *)
Lemma fields_joinWith ws :
  Forall (λ w, w ≠ "" ∧ sforall plain w = true) ws → fields (joinWith " " ws) = ws.
Proof.
  unfold fields. intros Hws.
  enough (∀ fuel, len (joinWith " " ws) ≤ fuel → fields_go fuel "" (joinWith " " ws) = ws)
    as H by by apply H.
  induction Hws as [|w ws [Hne Hw] Hws IH]; intros fuel Hf.
  { by destruct fuel. }
  destruct ws as [|w' ws].
  - simpl in *. rewrite <-(app_empty_r w), fields_go_word by done.
    rewrite app_empty_l, app_empty_r. unfold fields_go, emit_field.
    destruct (fuel - len w); by rewrite bool_decide_eq_false_2.
  - cbn [joinWith] in *. rewrite fields_go_word by (done || (rewrite !len_app in Hf; lia)).
    rewrite !len_app in Hf. simpl in Hf. rewrite app_empty_l.
    destruct (fuel - len w) as [|f] eqn:E; [lia|].
    rewrite app_cons, app_empty_l. cbn [fields_go]. rewrite leading_space_sp. unfold emit_field.
    rewrite bool_decide_eq_false_2 by done. cbn [sdrop app]. f_equal.
    apply IH. cbn [joinWith]. lia.
Qed.

(** *** Decimal text of numbers *)

Lemma sforall_impl (f g : ascii → bool) s :
  (∀ c, f c = true → g c = true) → sforall f s = true → sforall g s = true.
Proof.
  intros H. induction s as [|c s IH]; simpl; [done|].
  intros [Hc Hs]%andb_true_iff. apply andb_true_iff. auto.
Qed.

Lemma pretty_N_char_digit d :
  (d < 10)%N → is_digit (pretty_N_char d) = true ∧ byte_val (pretty_N_char d) = (48 + Z.of_N d)%Z.
Proof.
  intros. assert (d = 0 ∨ d = 1 ∨ d = 2 ∨ d = 3 ∨ d = 4 ∨ d = 5 ∨ d = 6 ∨ d = 7 ∨ d = 8 ∨ d = 9)%N
    as Hd by lia.
  repeat destruct Hd as [->|Hd]; subst; by vm_compute.
Qed.

(** The digits [pretty_N_go] prepends denote the number. *)
Lemma pretty_N_go_digits x s :
  ∃ w, pretty_N_go x s = w +:+ s ∧ sforall is_digit w = true ∧
       (x = 0%N → w = "") ∧
       ((0 < x)%N → (10 ^ (Z.of_nat (len w) - 1) ≤ Z.of_N x)%Z ∧ w ≠ "") ∧
       ∀ acc t, digits_value acc (w +:+ t) =
                digits_value (acc * 10 ^ Z.of_nat (len w) + Z.of_N x)%Z t.
Proof.
  revert s. induction (N.lt_wf_0 x) as [x _ IH]; intros s.
  destruct (decide (x = 0)%N) as [->|Hx].
  { exists "". rewrite pretty_N_go_0. repeat split; [lia|lia|].
    intros acc t. rewrite app_empty_l. f_equal. simpl. lia. }
  rewrite pretty_N_go_step by lia.
  destruct (pretty_N_char_digit (x `mod` 10)) as [Hd Hv]; [by apply N.mod_lt|].
  destruct (IH (x `div` 10)%N ltac:(apply N.div_lt; lia)
    (String (pretty_N_char (x `mod` 10)) s)) as (w & -> & Hw & Hzero & Hlen & Hval).
  pose proof (N.div_mod x 10 ltac:(done)) as Hdm.
  exists (w +:+ String (pretty_N_char (x `mod` 10)) "").
  rewrite len_app. cbn [len]. split; [by rewrite <-sapp_assoc|].
  split; [rewrite sforall_app; simpl; by rewrite Hw, Hd|]. split; [done|]. split.
  - intros _. split; [|by destruct w].
    destruct (decide (x `div` 10 = 0)%N) as [Hz|Hz]; [rewrite Hzero by done; simpl; lia|].
    destruct (Hlen (proj1 (N.neq_0_lt_0 _) Hz)) as [Hle Hne].
    replace (Z.of_nat (len w + 1) - 1)%Z with (Z.succ (Z.of_nat (len w) - 1)) by lia.
    assert (len w ≠ 0) by by rewrite len_zero.
    rewrite Z.pow_succ_r by lia. revert Hle Hdm. clear.
    generalize (x `div` 10)%N, (x `mod` 10)%N. intros. lia.
  - intros acc t. rewrite <-sapp_assoc, Hval, app_cons, app_empty_l. cbn [digits_value].
    rewrite Hd, Hv. f_equal. rewrite Nat2Z.inj_add. change (Z.of_nat 1) with 1%Z.
    rewrite Z.pow_add_r by lia. revert Hdm. clear.
    generalize (x `div` 10)%N, (x `mod` 10)%N. intros. lia.
Qed.

(** [strconv.Itoa] prints digits that read back. *)
Lemma pretty_Z_digits v :
  (0 ≤ v)%Z →
  sforall is_digit (pretty v) = true ∧ pretty v ≠ "" ∧
  digits_value 0 (pretty v) = Some v ∧
  ((0 < v)%Z → (10 ^ (Z.of_nat (len (pretty v)) - 1) ≤ v)%Z).
Proof.
  intros Hv. destruct v as [|p|p]; [by vm_compute| |lia].
  change (pretty (Z.pos p)) with (pretty_N_go (N.pos p) "").
  destruct (pretty_N_go_digits (N.pos p) "") as (w & -> & Hw & _ & Hlen & Hval).
  rewrite app_empty_r in *. destruct (Hlen ltac:(lia)) as [Hle Hne].
  split; [done|]. split; [done|]. split; [|done].
  specialize (Hval 0%Z ""). rewrite app_empty_r in Hval. by rewrite Hval.
Qed.

Lemma is_digit_plain c : is_digit c = true → plain c = true.
Proof.
  unfold is_digit, plain, in_range. intros [H1 H2]%andb_true_iff. bool_to_prop.
  apply andb_true_iff. split; apply Z.leb_le; lia.
Qed.

Lemma pretty_plain v : (0 ≤ v)%Z → pretty v ≠ "" ∧ sforall plain (pretty v) = true.
Proof.
  intros (Hw & Hne & _)%pretty_Z_digits.
  split; [done|]. eapply sforall_impl; [|exact Hw]. apply is_digit_plain.
Qed.

Lemma parseUint_pretty bits v : (0 ≤ v < 2 ^ bits)%Z → parseUint bits (pretty v) = Some v.
Proof.
  intros [Hv Hb]. destruct (pretty_Z_digits v Hv) as (_ & Hne & Hval & _).
  unfold parseUint. rewrite bool_decide_eq_false_2, Hval by done. cbn.
  by rewrite (proj2 (Z.ltb_lt v _)).
Qed.

Lemma len_pretty v (k : nat) : (0 ≤ v < 10 ^ Z.of_nat k)%Z → 1 ≤ k → len (pretty v) ≤ k.
Proof.
  intros [Hv Hb] Hk. destruct (decide (v = 0)%Z) as [->|]; [vm_compute; lia|].
  destruct (pretty_Z_digits v Hv) as (_ & _ & _ & Hlen). specialize (Hlen ltac:(lia)).
  destruct (decide (len (pretty v) ≤ k)) as [|Hgt]; [done|].
  pose proof (Z.pow_le_mono_r 10 (Z.of_nat k) (Z.of_nat (len (pretty v)) - 1)). lia.
Qed.

Lemma sforall_has_byte (f : ascii → bool) c s :
  f c = false → sforall f s = true → has_byte c s = false.
Proof.
  intros Hc. induction s as [|d s IH]; simpl; [done|].
  intros [Hd Hs]%andb_true_iff. rewrite IH, orb_false_r by done.
  apply bool_decide_eq_false. congruence.
Qed.

(** *** Case folding of ASCII text *)

Definition ascii_text (s : string) : bool := sforall (λ c, byte_val c <? 128)%Z s.

(** Text without upper-case letters. *)
Definition lower_text (s : string) : bool :=
  sforall (λ c, (byte_val c <? 128)%Z && negb (is_upper c)) s.

Lemma lower_text_ascii s : lower_text s = true → ascii_text s = true.
Proof. apply sforall_impl. by intros c [??]%andb_true_iff. Qed.

Lemma toLower_lower s : lower_text s = true → toLower s = s.
Proof.
  unfold lower_text, toLower. induction s as [|c s IH]; simpl; [done|].
  intros [[_ Hc%negb_true_iff]%andb_true_iff Hs]%andb_true_iff.
  rewrite IH by done. unfold to_lower. by rewrite Hc.
Qed.

Lemma toLower_app s t : toLower (s +:+ t) = toLower s +:+ toLower t.
Proof.
  induction s as [|c s IH]; [done|]. rewrite app_cons. unfold toLower in *. simpl.
  by rewrite IH, app_cons.
Qed.

Lemma len_toLower s : len (toLower s) = len s.
Proof. unfold toLower. induction s as [|c s IH]; [done|]. simpl. by rewrite IH. Qed.

Fixpoint byte_vals (s : string) : list Z :=
  match s with EmptyString => [] | String c s => byte_val c :: byte_vals s end.

Lemma byte_vals_inj s t : byte_vals s = byte_vals t → s = t.
Proof.
  revert t; induction s as [|c s IH]; intros [|d t]; simpl; try done.
  intros H. injection H as H1 H2. f_equal; [|by apply IH].
  by rewrite <-(byte_of_val c), H1, byte_of_val.
Qed.

Lemma fold_units_ascii s : ascii_text s = true → fold_units s = byte_vals (toLower s).
Proof.
  unfold ascii_text, toLower. induction s as [|c s IH]; [done|]. cbn [sforall smap byte_vals].
  intros [Hc%Z.ltb_lt Hs]%andb_true_iff. rewrite <-IH by done. cbn [fold_units].
  destruct (decide (byte_val c = 197)%Z); [lia|]. destruct (decide (byte_val c = 226)%Z); [lia|].
  repeat (case_match; try done; try lia).
Qed.

Lemma equalFold_ascii s t :
  ascii_text s = true → ascii_text t = true → equalFold s t = (toLower s == toLower t).
Proof.
  intros Hs Ht. unfold equalFold. rewrite !fold_units_ascii by done.
  apply bool_decide_ext. split; [apply byte_vals_inj|by intros ->].
Qed.

(** Countable data as a string: the bits of the number it is counted by.
    The concrete encodings that instantiate serialisation classes use it. *)
Fixpoint pos_bits (p : positive) : string :=
  match p with
  | xI p => String "1" (pos_bits p)
  | xO p => String "0" (pos_bits p)
  | xH => "."
  end.
Fixpoint bits_pos (s : string) : option positive :=
  match s with
  | EmptyString => None
  | String c s =>
      if (c == "1"%char) then xI <$> bits_pos s
      else if (c == "0"%char) then xO <$> bits_pos s
      else Some xH
  end.

Lemma bits_pos_bits p : bits_pos (pos_bits p) = Some p.
Proof. induction p as [p IH|p IH|]; simpl; by rewrite ?IH. Qed.
