(* ===== verification/Http.v ===== *)
(** * HTTP messages

    The pieces of [net], [net/url], [net/textproto] and [net/http] the
    request path reads and writes: headers with canonical keys, host and
    port splitting, query strings, requests and responses. *)

From S2P Require Import Prelude GoStrings.
From Stdlib Require Import Ascii.
From stdpp Require Import options.

(** ** Byte positions *)

Fixpoint index_byte (c : ascii) (s : string) : option nat :=
  match s with
  | EmptyString => None
  | String d s => if (d == c) then Some 0 else S <$> index_byte c s
  end.

Fixpoint last_index_byte (c : ascii) (s : string) : option nat :=
  match s with
  | EmptyString => None
  | String d s =>
      match last_index_byte c s with
      | Some i => Some (S i)
      | None => if (d == c) then Some 0 else None
      end
  end.

Fixpoint byte_at (i : nat) (s : string) : option ascii :=
  match i, s with
  | _, EmptyString => None
  | O, String c _ => Some c
  | S i, String _ s => byte_at i s
  end.

Lemma byte_at_app s t : byte_at (len s) (s +:+ t) = byte_at 0 t.
Proof. induction s as [|c s IH]; [done|]. by rewrite app_cons. Qed.

(** ** [net.SplitHostPort] *)

Definition splitHostPort (hostport : string) : option (string * string) :=
  i ← last_index_byte ":" hostport;
  '(host, j, k) ←
    (if (byte_at 0 hostport == Some "["%char) then
       end_ ← index_byte "]" hostport;
       if (S end_ == i) then Some (stake (end_ - 1) (sdrop 1 hostport), 1, S end_)
       else None
     else
       let host := stake i hostport in
       if has_byte ":" host then None else Some (host, 0, 0));
  if has_byte "[" (sdrop j hostport) then None
  else if has_byte "]" (sdrop k hostport) then None
  else Some (host, sdrop (S i) hostport).

Example splitHostPort_v4 : splitHostPort "10.0.0.1:8080" = Some ("10.0.0.1", "8080").
Proof. vm_compute. reflexivity. Qed.
Example splitHostPort_v6 : splitHostPort "[::1]:8080" = Some ("::1", "8080").
Proof. vm_compute. reflexivity. Qed.
Example splitHostPort_bare : splitHostPort "::1" = None ∧ splitHostPort "example.com" = None.
Proof. vm_compute. auto. Qed.

Lemma last_index_byte_app c s t :
  has_byte c t = false → last_index_byte c (s +:+ String c t) = Some (len s).
Proof.
  intros Ht. assert (Hnone : last_index_byte c t = None).
  { revert Ht. induction t as [|d t IH]; simpl; intros; bool_to_prop; [done|].
    rewrite IH by done. by case_bool_decide. }
  induction s as [|d s IH].
  - rewrite app_empty_l; simpl. rewrite Hnone. by case_bool_decide.
  - rewrite app_cons; simpl. by rewrite IH.
Qed.

(** A host without brackets or colons and a port without them split back. *)
Lemma splitHostPort_join host port :
  has_byte ":" host = false → has_byte "[" host = false → has_byte "]" host = false →
  has_byte ":" port = false → has_byte "[" port = false → has_byte "]" port = false →
  splitHostPort (host +:+ ":" +:+ port) = Some (host, port).
Proof.
  intros H1 H2 H3 H4 H5 H6. unfold splitHostPort.
  change (":" +:+ port) with (String ":" port).
  rewrite (last_index_byte_app ":" host port H4). cbn [mbind option_bind].
  replace (byte_at 0 (host +:+ String ":" port) == Some "["%char) with false.
  2:{ symmetry. apply bool_decide_eq_false. destruct host as [|c h]; simpl; [done|].
      simpl in H2. bool_to_prop. by intros [= ->]. }
  rewrite stake_app, H1, sdrop_S_app. cbn [mbind option_bind sdrop].
  rewrite !has_byte_app, H2, H3. cbn [has_byte orb]. by rewrite H5, H6.
Qed.

(** ** Headers

    [http.Header] is a map from canonical keys to value lists. *)

Abbreviation Header := (gmap string (list string)).

(** Token bytes of RFC 7230. *)
Definition valid_header_byte (c : ascii) : bool :=
  is_digit c || is_upper c || is_lower c ||
  has_byte c "!#$%&'*+-.^_`|~".

Fixpoint canonical_from (upper : bool) (s : string) : string :=
  match s with
  | EmptyString => ""
  | String c s =>
      let c' := if upper then to_upper c else to_lower c in
      String c' (canonical_from (c' == "-"%char) s)
  end.

(** [textproto.CanonicalMIMEHeaderKey]. *)
Definition canonicalKey (s : string) : string :=
  if sforall valid_header_byte s then canonical_from true s else s.

Example canonicalKey_ex :
  canonicalKey "x-forwarded-FOR" = "X-Forwarded-For" ∧ canonicalKey "bad key" = "bad key".
Proof. vm_compute. auto. Qed.

Definition hValues (h : Header) (key : string) : list string :=
  default [] (h !! canonicalKey key).
Definition hGet (h : Header) (key : string) : string := default "" (head (hValues h key)).
Definition hSet (h : Header) (key value : string) : Header := <[canonicalKey key := [value]]> h.
Definition hAdd (h : Header) (key value : string) : Header :=
  <[canonicalKey key := hValues h key ++ [value]]> h.
Definition hDel (h : Header) (key : string) : Header := delete (canonicalKey key) h.

Lemma hGet_hSet h key value : hGet (hSet h key value) key = value.
Proof. unfold hGet, hValues, hSet. by rewrite lookup_insert_eq. Qed.

Lemma hValues_hSet h key value : hValues (hSet h key value) key = [value].
Proof. unfold hValues, hSet. by rewrite lookup_insert_eq. Qed.

Lemma hValues_hSet_ne h k1 k2 v :
  canonicalKey k1 ≠ canonicalKey k2 → hValues (hSet h k1 v) k2 = hValues h k2.
Proof. intros. unfold hValues, hSet. by rewrite lookup_insert_ne. Qed.

Lemma hGet_hSet_ne h k1 k2 v :
  canonicalKey k1 ≠ canonicalKey k2 → hGet (hSet h k1 v) k2 = hGet h k2.
Proof. intros. unfold hGet. by rewrite hValues_hSet_ne. Qed.

Lemma hValues_hAdd h key value : hValues (hAdd h key value) key = hValues h key ++ [value].
Proof. unfold hValues, hAdd. by rewrite lookup_insert_eq. Qed.

Lemma hValues_hAdd_ne h k1 k2 v :
  canonicalKey k1 ≠ canonicalKey k2 → hValues (hAdd h k1 v) k2 = hValues h k2.
Proof. intros. unfold hValues, hAdd. by rewrite lookup_insert_ne. Qed.

Lemma hValues_hDel h key : hValues (hDel h key) key = [].
Proof. unfold hValues, hDel. by rewrite lookup_delete_eq. Qed.

Lemma hValues_hDel_ne h k1 k2 :
  canonicalKey k1 ≠ canonicalKey k2 → hValues (hDel h k1) k2 = hValues h k2.
Proof. intros. unfold hValues, hDel. by rewrite lookup_delete_ne. Qed.

#[global] Hint Rewrite hGet_hSet hValues_hSet hValues_hAdd hValues_hDel : krouter.

(** ** Query strings: [url.ParseQuery], keeping the pairs that parse *)

Definition hex_value (c : ascii) : option Z :=
  if is_digit c then Some (byte_val c - 48)%Z
  else if in_range 97 102 c then Some (byte_val c - 87)%Z
  else if in_range 65 70 c then Some (byte_val c - 55)%Z
  else None.

(** [url.QueryUnescape]. *)
Fixpoint queryUnescape (s : string) : option string :=
  match s with
  | EmptyString => Some ""
  | String "%" r =>
      match r with
      | String a (String b r') =>
          x ← hex_value a; y ← hex_value b; t ← queryUnescape r';
          Some (String (byte_of (16 * x + y)) t)
      | _ => None
      end
  | String "+" r => t ← queryUnescape r; Some (String " " t)
  | String c r => t ← queryUnescape r; Some (String c t)
  end.

Definition parse_pair (m : gmap string (list string)) (pair : string) :
    gmap string (list string) :=
  if has_byte ";" pair then m
  else if (pair == "") then m
  else
    let '(key, value) := default (pair, "") (cut pair "=") in
    match queryUnescape key, queryUnescape value with
    | Some k, Some v => <[k := default [] (m !! k) ++ [v]]> m
    | _, _ => m
    end.

Definition parseQuery (raw : string) : gmap string (list string) :=
  fold_left parse_pair (splitOn "&" raw) ∅.

Example parseQuery_ex :
  parseQuery "a=1&b=x%20y&a=2&c;d=1" !! "a" = Some ["1"; "2"] ∧
  parseQuery "a=1&b=x%20y&a=2&c;d=1" !! "b" = Some ["x y"] ∧
  parseQuery "a=1&b=x%20y&a=2&c;d=1" !! "c" = None.
Proof. vm_compute. auto. Qed.

(** ** Requests and responses *)

Record Request := mkRequest {
  rqMethod : string;
  rqPath : string;             (** [r.URL.Path] *)
  rqRawQuery : string;         (** [r.URL.RawQuery] *)
  rqHost : string;
  rqHeader : Header;
  rqRemoteAddr : string;
  rqTLS : option string;       (** [r.TLS.ServerName] when [r.TLS != nil] *)
  rqBody : option string;      (** [r.Body]; [None] is a nil body *)
  rqContentLength : Z;
}.

#[global] Instance Request_eq_dec : EqDecision Request.
Proof. solve_decision. Defined.

(** What a handler wrote: the header map, the status line and the body. *)
Record Response := mkResponse {
  rsHeader : Header;
  rsStatus : option Z;         (** [WriteHeader] *)
  rsBody : string;
}.

Definition newResponse : Response := mkResponse ∅ None "".
Definition rsSetHeader (w : Response) (h : Header) : Response :=
  mkResponse h (rsStatus w) (rsBody w).
Definition writeHeader (w : Response) (code : Z) : Response :=
  mkResponse (rsHeader w) (match rsStatus w with Some c => Some c | None => Some code end)
    (rsBody w).
Definition rsWrite (w : Response) (body : string) : Response :=
  mkResponse (rsHeader w) (match rsStatus w with Some c => Some c | None => Some 200%Z end)
    (rsBody w +:+ body).

Definition newline : string := String "010" "".

(** [http.Error]: drops the length of the abandoned body, sets the
    plain-text headers, writes the status and the message line. *)
Definition httpError (w : Response) (message : string) (code : Z) : Response :=
  let h := hDel (rsHeader w) "Content-Length" in
  let h := hSet h "Content-Type" "text/plain; charset=utf-8" in
  let h := hSet h "X-Content-Type-Options" "nosniff" in
  rsWrite (writeHeader (rsSetHeader w h) code) (message +:+ newline).

Lemma httpError_status w m c : rsStatus w = None → rsStatus (httpError w m c) = Some c.
Proof. by intros; simpl; destruct (rsStatus w). Qed.
