(* ===== verification/NetIP.v ===== *)
(** * IP addresses

    Go's [net/netip] as far as the program uses it: addresses of 32 or 128
    bits, their text forms, and prefixes. *)

From S2P Require Import Prelude GoStrings Http.
From Stdlib Require Import Ascii.
From stdpp Require Import options.

(** [netip.Addr]; the zero (invalid) [Addr] is [None] where it can occur. *)
Inductive Addr :=
  | V4 (a : Z)
  | V6 (a : Z) (zone : string).

#[global] Instance Addr_eq_dec : EqDecision Addr.
Proof. solve_decision. Defined.

Definition addr_ok (a : Addr) : Prop :=
  match a with
  | V4 x => (0 ≤ x < 2 ^ 32)%Z
  | V6 x _ => (0 ≤ x < 2 ^ 128)%Z
  end.

Definition is4 (a : Addr) : bool := match a with V4 _ => true | V6 _ _ => false end.
Definition is6 (a : Addr) : bool := negb (is4 a).
Definition is4In6 (a : Addr) : bool :=
  match a with V4 _ => false | V6 x _ => (Z.shiftr x 32 =? 65535)%Z end.
Definition unmap (a : Addr) : Addr :=
  match a with
  | V6 x z => if is4In6 (V6 x z) then V4 (Z.land x (2 ^ 32 - 1)) else V6 x z
  | V4 x => V4 x
  end.
Definition withoutZone (a : Addr) : Addr :=
  match a with V4 x => V4 x | V6 x _ => V6 x "" end.
Definition hasZone (a : Addr) : bool :=
  match a with V4 _ => false | V6 _ z => (z != "") end.

(** ** Text forms *)

(** One decimal octet: digits, at most 255, no leading zero. *)
Definition parse_octet (s : string) : option Z :=
  if (s == "") then None
  else if (1 <? len s) && (byte_at 0 s == Some "0"%char) then None
  else v ← digits_value 0 s; if (v <=? 255)%Z then Some v else None.

Definition parseIPv4Fields (s : string) : option Z :=
  match splitOn "." s with
  | [a; b; c; d] =>
      a ← parse_octet a; b ← parse_octet b; c ← parse_octet c; d ← parse_octet d;
      Some (((a * 256 + b) * 256 + c) * 256 + d)%Z
  | _ => None
  end.

(** The hex digits starting the string: their value, their number, the rest. *)
Fixpoint hex_run (acc : Z) (n : nat) (s : string) : Z * nat * string :=
  match s with
  | String c r =>
      match hex_value c with
      | Some v => hex_run (16 * acc + v)%Z (S n) r
      | None => (acc, n, s)
      end
  | EmptyString => (acc, n, s)
  end.

(** The loop of [parseIPv6]: [groups] holds the 16-bit fields read so far
    and [ellipsis] how many preceded the [::].  An address has at most
    eight fields, so eight rounds always suffice. *)
Fixpoint v6_loop (fuel : nat) (groups : list Z) (ellipsis : option nat) (s : string) :
    option (list Z * option nat * string) :=
  match fuel with
  | O => Some (groups, ellipsis, s)
  | S fuel =>
      if (8 <=? length groups) then Some (groups, ellipsis, s) else
      let '(acc, n, rest) := hex_run 0 0 s in
      if (n =? 0) || (4 <? n) then None
      else if (byte_at 0 rest == Some "."%char) then
        if (ellipsis == None) && negb (length groups =? 6) then None
        else if 8 <? length groups + 2 then None
        else a ← parseIPv4Fields s;
             Some (groups ++ [Z.shiftr a 16; Z.land a 65535], ellipsis, "")
      else
        let groups := groups ++ [acc] in
        match rest with
        | EmptyString => Some (groups, ellipsis, "")
        | String ":" (String ":" r) =>
            match ellipsis with
            | Some _ => None
            | None =>
                if (r == "") then Some (groups, Some (length groups), "")
                else v6_loop fuel groups (Some (length groups)) r
            end
        | String ":" EmptyString => None
        | String ":" r => v6_loop fuel groups ellipsis r
        | _ => None
        end
  end.

Definition groups_value (l : list Z) : Z := fold_left (λ acc g, acc * 65536 + g)%Z l 0%Z.

Definition expand_groups (groups : list Z) (ellipsis : option nat) : option (list Z) :=
  let i := length groups in
  if (i <? 8) then
    e ← ellipsis;
    Some (take e groups ++ replicate (8 - i) 0%Z ++ drop e groups)
  else match ellipsis with Some _ => None | None => Some groups end.

Definition parseIPv6 (input : string) : option Addr :=
  '(s, zone) ←
    match cut input "%" with
    | Some (s, z) => if (z == "") then None else Some (s, z)
    | None => Some (input, "")
    end;
  let '(ellipsis, s) :=
    if hasPrefix s "::" then (Some 0, sdrop 2 s) else (None, s) in
  if (ellipsis == Some 0) && (s == "") then Some (V6 0 zone)
  else
    '(groups, ellipsis, rest) ← v6_loop 8 [] ellipsis s;
    if (rest == "") then
      groups ← expand_groups groups ellipsis;
      Some (V6 (groups_value groups) zone)
    else None.

(** [netip.ParseAddr]: the first of [.], [:] and [%] decides the form. *)
Fixpoint addr_form (s : string) : option bool :=
  match s with
  | EmptyString => None
  | String c s =>
      if (c == "."%char) then Some true
      else if (c == ":"%char) then Some false
      else if (c == "%"%char) then None
      else addr_form s
  end.

Definition parseAddr (s : string) : option Addr :=
  match addr_form s with
  | Some true => V4 <$> parseIPv4Fields s
  | Some false => parseIPv6 s
  | None => None
  end.

(** [Addr.String]. *)
Definition octet (a : Z) (i : Z) : Z := Z.land (Z.shiftr a (8 * i)) 255.
Definition string4 (a : Z) : string :=
  pretty (octet a 3) +:+ "." +:+ pretty (octet a 2) +:+ "." +:+
  pretty (octet a 1) +:+ "." +:+ pretty (octet a 0).

Definition hex_digit (v : Z) : ascii :=
  byte_of (if (v <? 10)%Z then 48 + v else 87 + v)%Z.
Fixpoint hex_digits (n : nat) (v : Z) : string :=
  match n with
  | O => ""
  | S n => hex_digits n (Z.shiftr v 4) +:+ String (hex_digit (Z.land v 15)) ""
  end.
Definition hex_len (v : Z) : nat :=
  if (4096 <=? v)%Z then 4 else if (256 <=? v)%Z then 3 else if (16 <=? v)%Z then 2 else 1.
Definition group (a : Z) (i : nat) : Z := Z.land (Z.shiftr a (16 * (7 - Z.of_nat i))) 65535.

(** Length of the run of zero groups starting at [i]. *)
Fixpoint zero_run (l : list Z) : nat :=
  match l with 0%Z :: l => S (zero_run l) | _ => 0 end.
(** The longest run of at least two zero groups, the first among equals. *)
Definition longest_zeros (gs : list Z) : option (nat * nat) :=
  fold_left (λ best i,
    let l := zero_run (drop i gs) in
    if (2 <=? l) && (match best with Some (s, e) => e - s | None => 0 end <? l)
    then Some (i, i + l) else best) (seq 0 8) None.

Definition hex_group (v : Z) : string := hex_digits (hex_len v) v.
Definition string6 (a : Z) : string :=
  let gs := group a <$> seq 0 8 in
  match longest_zeros gs with
  | Some (s, e) =>
      joinWith ":" (hex_group <$> take s gs) +:+ "::" +:+
      joinWith ":" (hex_group <$> drop e gs)
  | None => joinWith ":" (hex_group <$> gs)
  end.

Definition with_zone_suffix (s zone : string) : string :=
  if (zone == "") then s else s +:+ "%" +:+ zone.

Definition addrString (a : Addr) : string :=
  match a with
  | V4 x => string4 x
  | V6 x z =>
      if is4In6 a then with_zone_suffix ("::ffff:" +:+ string4 (Z.land x (2 ^ 32 - 1))) z
      else with_zone_suffix (string6 x) z
  end.

Example parseAddr_ex :
  parseAddr "10.1.2.3" = Some (V4 167838211) ∧
  parseAddr "10.01.2.3" = None ∧ parseAddr "10.1.2" = None ∧
  parseAddr "::1" = Some (V6 1 "") ∧ parseAddr "fe80::1%eth0" = Some (V6 (0xfe80 * 2 ^ 112 + 1) "eth0") ∧
  parseAddr "::ffff:10.1.2.3" = Some (V6 (0xffff * 2 ^ 32 + 167838211) "") ∧
  parseAddr "1:2:3:4:5:6:7::8" = None ∧ parseAddr "1::2::3" = None ∧ parseAddr ":1" = None.
Proof. vm_compute. auto 20. Qed.
Example addrString_ex :
  addrString (V6 (0x20010db8 * 2 ^ 96 + 1) "") = "2001:db8::1" ∧
  addrString (V6 0 "") = "::" ∧ addrString (V4 167838211) = "10.1.2.3".
Proof. vm_compute. auto. Qed.

(** ** Prefixes *)

Record Prefix := mkPrefix { pfAddr : Addr; pfBits : Z }.

#[global] Instance Prefix_eq_dec : EqDecision Prefix.
Proof. solve_decision. Defined.

Definition bitLen (a : Addr) : Z := match a with V4 _ => 32 | V6 _ _ => 128 end.
Definition addr_bits (a : Addr) : Z := match a with V4 x => x | V6 x _ => x end.

(** [netip.ParsePrefix]. *)
Definition parsePrefix (s : string) : option Prefix :=
  i ← last_index_byte "/" s;
  ip ← parseAddr (stake i s);
  if hasZone ip then None else
  let bitsStr := sdrop (S i) s in
  if (1 <? len bitsStr) && negb (default false (in_range 49 57 <$> byte_at 0 bitsStr))
  then None
  else bits ← atoi bitsStr;
       if ((bits <? 0) || (bitLen ip <? bits))%Z then None else Some (mkPrefix ip bits).

(** [Prefix.Masked]: host bits cleared. *)
Definition mask_bits (width bits a : Z) : Z :=
  Z.shiftl (Z.shiftr a (width - bits)) (width - bits).
Definition masked (p : Prefix) : Prefix :=
  mkPrefix (match pfAddr p with
            | V4 x => V4 (mask_bits 32 (pfBits p) x)
            | V6 x z => V6 (mask_bits 128 (pfBits p) x) z
            end) (pfBits p).

(** [Prefix.Contains]: same family, no zone, equal leading bits. *)
Definition pfContains (p : Prefix) (a : Addr) : bool :=
  if hasZone a then false
  else if negb (bitLen (pfAddr p) =? bitLen a)%Z then false
  else (Z.shiftr (Z.lxor (addr_bits a) (addr_bits (pfAddr p)))
          (bitLen a - pfBits p) =? 0)%Z.

(** Two 128-bit (or 32-bit) values agree on their leading bits exactly when
    the quotients by the host part agree. *)
Lemma shiftr_lxor_zero a b n :
  (Z.shiftr (Z.lxor a b) n =? 0)%Z = (Z.shiftr a n =? Z.shiftr b n)%Z.
Proof.
  rewrite Z.shiftr_lxor. apply eq_true_iff_eq. rewrite !Z.eqb_eq. apply Z.lxor_eq_0_iff.
Qed.

Lemma mask_bits_shiftr width bits a :
  (bits ≤ width)%Z →
  Z.shiftr (mask_bits width bits a) (width - bits) = Z.shiftr a (width - bits).
Proof.
  intros. unfold mask_bits. rewrite Z.shiftr_shiftl_l by lia.
  by rewrite Z.sub_diag, Z.shiftl_0_r.
Qed.

(** Clearing the host bits never changes which addresses a prefix holds. *)
Lemma pfContains_masked p a :
  (pfBits p ≤ bitLen (pfAddr p))%Z → pfContains (masked p) a = pfContains p a.
Proof.
  destruct p as [[x|x z] bits], a as [y|y zy]; intros Hb; unfold pfContains;
    cbn [pfAddr pfBits masked bitLen addr_bits hasZone] in *; try done.
  - rewrite !shiftr_lxor_zero, mask_bits_shiftr by lia. done.
  - destruct (zy != ""); [done|].
    cbn. rewrite !shiftr_lxor_zero, mask_bits_shiftr by lia. done.
Qed.

Lemma pfContains_v4 x y bits :
  (0 ≤ bits ≤ 32)%Z →
  pfContains (mkPrefix (V4 x) bits) (V4 y) = (y `div` 2 ^ (32 - bits) =? x `div` 2 ^ (32 - bits))%Z.
Proof.
  intros. unfold pfContains. cbn. rewrite shiftr_lxor_zero.
  by rewrite !Z.shiftr_div_pow2 by lia.
Qed.

(** ** Round trip of IPv4 text *)

Lemma parse_octet_pretty v :
  (0 ≤ v < 256)%Z → parse_octet (pretty v) = Some v ∧ has_byte "." (pretty v) = false.
Proof.
  assert (Hall : forallb (λ v, (parse_octet (pretty v) == Some v) &&
                               negb (has_byte "." (pretty v))) (seqZ 0 256) = true)
    by (vm_compute; reflexivity).
  intros Hv. rewrite forallb_forall in Hall. specialize (Hall v).
  rewrite <-list_elem_of_In, elem_of_seqZ in Hall.
  specialize (Hall ltac:(lia)). by bool_to_prop.
Qed.

Lemma octet_range a i : (0 ≤ i)%Z → (0 ≤ octet a i < 256)%Z.
Proof.
  intros. unfold octet. change 255%Z with (Z.ones 8).
  rewrite Z.land_ones by lia. apply Z.mod_pos_bound. lia.
Qed.

Lemma octets_value a :
  (0 ≤ a < 2 ^ 32)%Z →
  (((octet a 3 * 256 + octet a 2) * 256 + octet a 1) * 256 + octet a 0 = a)%Z.
Proof.
  intros. unfold octet. change 255%Z with (Z.ones 8). rewrite !Z.land_ones by lia.
  rewrite !Z.shiftr_div_pow2 by lia.
  change (2 ^ (8 * 3))%Z with 16777216%Z. change (2 ^ (8 * 2))%Z with 65536%Z.
  change (2 ^ (8 * 1))%Z with 256%Z. change (2 ^ (8 * 0))%Z with 1%Z.
  change (2 ^ 8)%Z with 256%Z. rewrite Z.div_1_r.
  Z.div_mod_to_equations. lia.
Qed.

Lemma parseIPv4_string4 a : (0 ≤ a < 2 ^ 32)%Z → parseIPv4Fields (string4 a) = Some a.
Proof.
  intros Ha. unfold parseIPv4Fields, string4.
  destruct (parse_octet_pretty (octet a 3)) as [E3 D3]; [apply octet_range; lia|].
  destruct (parse_octet_pretty (octet a 2)) as [E2 D2]; [apply octet_range; lia|].
  destruct (parse_octet_pretty (octet a 1)) as [E1 D1]; [apply octet_range; lia|].
  destruct (parse_octet_pretty (octet a 0)) as [E0 D0]; [apply octet_range; lia|].
  rewrite !splitOn_app_sep by done. rewrite splitOn_single by done.
  rewrite E3, E2, E1, E0. cbn. by rewrite octets_value.
Qed.

Lemma addr_form_v4 s t : parse_octet s ≠ None → addr_form (s +:+ "." +:+ t) = Some true.
Proof.
  intros Hs. assert (Hd : digits_value 0 s ≠ None).
  { unfold parse_octet in Hs. case_bool_decide; [done|].
    destruct (_ && _); [done|]. by destruct (digits_value 0 s). }
  clear Hs. revert Hd. generalize 0%Z. induction s as [|c s IH]; intros z Hd; [done|].
  rewrite app_cons. simpl in *. destruct (is_digit c) eqn:Hc; [|done].
  repeat case_bool_decide; subst; try done. by eapply IH.
Qed.

Lemma parseAddr_string4 a : (0 ≤ a < 2 ^ 32)%Z → parseAddr (addrString (V4 a)) = Some (V4 a).
Proof.
  intros Ha. unfold parseAddr. cbn [addrString]. unfold string4 at 1.
  rewrite addr_form_v4.
  2:{ destruct (parse_octet_pretty (octet a 3)) as [-> _]; [apply octet_range; lia|done]. }
  by rewrite parseIPv4_string4.
Qed.

Lemma string4_text a :
  string4 a ≠ "" ∧ sforall plain (string4 a) = true ∧ len (string4 a) ≤ 15.
Proof.
  assert (Ho : ∀ i, (0 ≤ i)%Z → pretty (octet a i) ≠ "" ∧ sforall plain (pretty (octet a i)) = true ∧
                    len (pretty (octet a i)) ≤ 3).
  { intros i Hi. pose proof (octet_range a i Hi).
    destruct (pretty_plain (octet a i)) as [??]; [lia|].
    split; [done|]. split; [done|]. apply (len_pretty _ 3); simpl; lia. }
  destruct (Ho 3%Z) as (N3 & P3 & L3); [lia|]. destruct (Ho 2%Z) as (_ & P2 & L2); [lia|].
  destruct (Ho 1%Z) as (_ & P1 & L1); [lia|]. destruct (Ho 0%Z) as (_ & P0 & L0); [lia|].
  unfold string4. rewrite !sforall_app, !len_app, P3, P2, P1, P0. cbn [len]. split.
  - destruct (pretty (octet a 3)); done.
  - split; [done|lia].
Qed.
