(* ===== verification/ClientIP.v ===== *)
(** * Client IP resolution

    Models [internal/lib/transports/http/clientip/clientip.go]: which
    address a request is attributed to, given the peer that carried it, the
    Gateway's trusted networks and the [X-Forwarded-For] chain.  The state
    is the immutable [Trust]; the operations are [New], [Contains], [chain]
    and [Resolve]. *)

From S2P Require Import Prelude GoStrings Http NetIP.
From Stdlib Require Import Ascii.
From stdpp Require Import options.

Module clientip.

Definition MaxHops : nat := 32.
Definition forwardedForHeader : string := "X-Forwarded-For".

(** [*Trust]; the nil pointer trusts no peer. *)
Record Trust := mkTrust { prefixes : list Prefix }.

#[global] Instance Trust_eq_dec : EqDecision Trust.
Proof. solve_decision. Defined.

(** The entry the error names. *)
Inductive error := InvalidTrustedProxy (cidr : string).

Definition New_step (acc : list Prefix) (cidr : string) : result error (list Prefix) :=
  p ← of_option (InvalidTrustedProxy cidr) (parsePrefix cidr);
  Ok (acc ++ [masked p]).

Definition New (cidrs : list string) : result error (option Trust) :=
  if (length cidrs =? 0) then Ok None
  else ps ← foldM New_step [] cidrs; Ok (Some (mkTrust ps)).

(** [Trust.Contains] on the pointer. *)
Definition Contains (t : option Trust) (addr : Addr) : bool :=
  match t with
  | None => false
  | Some t => existsb (λ p, pfContains p addr) (prefixes t)
  end.

(** The chain from right to left; repeated header lines form one chain. *)
Definition chain_entries (values : list string) : list string :=
  values ≫= λ value, trimSpace <$> splitOn "," value.
Definition chain (header : Header) : list string :=
  rev (chain_entries (hValues header forwardedForHeader)).

Definition hostOf (remoteAddr : string) : string :=
  match splitHostPort remoteAddr with Some (h, _) => h | None => remoteAddr end.

Definition normalize (a : Addr) : Addr := withoutZone (unmap a).

(** The loop of [Resolve]: [i] counts the entries read. *)
Fixpoint walk (t : option Trust) (i : nat) (resolved : Addr) (entries : list string) :
    string * bool :=
  match entries with
  | [] => (addrString resolved, true)
  | entry :: entries =>
      if (i =? MaxHops) then (addrString resolved, true)
      else match parseAddr entry with
           | None => (addrString resolved, true)
           | Some addr =>
               let addr := normalize addr in
               if negb (Contains t addr) then (addrString addr, true)
               else walk t (S i) addr entries
           end
  end.

Definition Resolve (t : option Trust) (remoteAddr : string) (header : Header) :
    string * bool :=
  let host := hostOf remoteAddr in
  match parseAddr host with
  | None => (host, false)
  | Some peer =>
      let peer := normalize peer in
      if negb (Contains t peer) then (addrString peer, false)
      else walk t 0 peer (chain header)
  end.

(** ** Lemmas *)

(** An entry a trusted hop wrote: an address of a trusted network. *)
Definition trusted_entry (t : option Trust) (entry : string) : Prop :=
  ∃ a, parseAddr entry = Some a ∧ Contains t (normalize a) = true.

Lemma walk_app t i resolved trusted entry a rest :
  Forall (trusted_entry t) trusted →
  parseAddr entry = Some a → Contains t (normalize a) = false →
  i + length trusted < MaxHops →
  walk t i resolved (trusted ++ entry :: rest) = (addrString (normalize a), true).
Proof.
  intros Ht Ha Hn. revert i resolved. induction Ht as [|e es (b & Hb & Hc) Hes IH];
    intros i resolved Hi; simpl in *.
  - rewrite (proj2 (Nat.eqb_neq i MaxHops)) by lia. by rewrite Ha, Hn.
  - rewrite (proj2 (Nat.eqb_neq i MaxHops)) by lia. rewrite Hb, Hc. simpl.
    apply IH. lia.
Qed.

Lemma walk_take t i resolved entries :
  i ≤ MaxHops →
  walk t i resolved entries = walk t i resolved (take (MaxHops - i) entries).
Proof.
  revert i resolved. induction entries as [|e es IH]; intros i resolved Hi.
  { by rewrite take_nil. }
  destruct (decide (i = MaxHops)) as [->|Hne].
  - rewrite Nat.sub_diag. simpl. done.
  - replace (MaxHops - i) with (S (MaxHops - S i)) by lia. simpl.
    rewrite (proj2 (Nat.eqb_neq i MaxHops)) by lia.
    destruct (parseAddr e); [|done]. destruct (negb _); [done|]. apply IH. lia.
Qed.

Lemma chain_entries_app v w : chain_entries (v ++ w) = chain_entries v ++ chain_entries w.
Proof. unfold chain_entries. by rewrite bind_app. Qed.

(** Joining header values with [", "] keeps the chain they form. *)
Lemma chain_entries_comma a b :
  chain_entries [a +:+ ", " +:+ b] = chain_entries [a] ++ chain_entries [b].
Proof.
  unfold chain_entries. cbn [mbind list_bind]. rewrite !app_nil_r.
  change (a +:+ ", " +:+ b) with (a +:+ String "," (String " " b)).
  rewrite splitOn_join, fmap_app. f_equal. simpl.
  destruct (splitOn "," b) as [|f fs] eqn:E; [by apply splitOn_nonempty in E|].
  cbn [fmap list_fmap]. by rewrite trimSpace_blank.
Qed.

Lemma chain_entries_joined values :
  values ≠ [] → chain_entries [joinWith ", " values] = chain_entries values.
Proof.
  induction values as [|v [|w ws] IH]; intros Hne; [done|done|].
  change (joinWith ", " (v :: w :: ws)) with (v +:+ ", " +:+ joinWith ", " (w :: ws)).
  rewrite chain_entries_comma, IH by done. by rewrite <-chain_entries_app.
Qed.

Lemma New_Contains cidrs t a :
  New cidrs = Ok t →
  Contains t a = existsb (λ c, match parsePrefix c with
                               | Some p => pfContains (masked p) a | None => false end) cidrs.
Proof.
  unfold New. destruct (Nat.eqb_spec (length cidrs) 0) as [Hl|Hl].
  { intros [= <-]. by destruct cidrs. }
  rewrite bind_Ok. intros (ps & Hps & [= <-]). simpl.
  enough (∀ acc, foldM New_step acc cidrs = Ok ps →
    existsb (λ p, pfContains p a) ps =
    existsb (λ p, pfContains p a) acc || existsb (λ c, match parsePrefix c with
        | Some p => pfContains (masked p) a | None => false end) cidrs) as H
    by by rewrite (H [] Hps).
  clear. induction cidrs as [|c cs IH]; intros acc; simpl.
  { intros [= ->]. by rewrite orb_false_r. }
  intros (acc' & (p & Hp%of_option_Ok & [= <-])%bind_Ok & ->%IH)%bind_Ok.
  rewrite Hp, existsb_app. simpl. by rewrite orb_false_r, orb_assoc.
Qed.

(** Hops add what they write to the lines of the header one after the other,
    each on the last line after a comma or on a line of its own. *)
Inductive extended : list string → list string → list string → Prop :=
  | ex_done lines : extended lines [] lines
  | ex_line lines w ws lines' :
      has_byte "," w = false → extended (lines ++ [w]) ws lines' → extended lines (w :: ws) lines'
  | ex_comma lines last w ws lines' :
      has_byte "," w = false → extended (lines ++ [last +:+ "," +:+ w]) ws lines' →
      extended (lines ++ [last]) (w :: ws) lines'.

Lemma chain_entries_one w : has_byte "," w = false → chain_entries [w] = [trimSpace w].
Proof. intros Hw. unfold chain_entries. cbn [mbind list_bind]. by rewrite splitOn_single. Qed.

Lemma chain_entries_extended lines ws lines' :
  extended lines ws lines' → chain_entries lines' = chain_entries lines ++ (trimSpace <$> ws).
Proof.
  induction 1 as [lines|lines w ws lines' Hw _ IH|lines last w ws lines' Hw _ IH].
  - by rewrite app_nil_r.
  - rewrite IH, chain_entries_app, chain_entries_one, <-(assoc_L app) by done. done.
  - rewrite IH, !chain_entries_app, <-!(assoc_L app). f_equal.
    unfold chain_entries. cbn [mbind list_bind]. rewrite !app_nil_r.
    change (last +:+ "," +:+ w) with (last +:+ String "," w).
    rewrite splitOn_join, (splitOn_single "," w), fmap_app, <-(assoc_L app) by done. done.
Qed.

(** ** Properties *)

(** An untrusted peer is the client, whatever headers it sends. *)
Theorem resolve_untrusted_peer t remoteAddr peer header :
  parseAddr (hostOf remoteAddr) = Some peer →
  Contains t (normalize peer) = false →
  Resolve t remoteAddr header = (addrString (normalize peer), false).
Proof. intros Hp Hc. unfold Resolve. by rewrite Hp, Hc. Qed.

(** A Gateway trusting 10.0.0.0/8, and a request that carries a chain. *)
Definition example_trust : option Trust := Some (mkTrust [mkPrefix (V4 167772160) 8]).
Definition example_header (v : string) : Header := hAdd ∅ forwardedForHeader v.

Lemma resolve_untrusted_peer_witness :
  Resolve example_trust "203.0.113.7:4242" (example_header "1.2.3.4") =
    (addrString (normalize (V4 3405803783)), false).
Proof. apply resolve_untrusted_peer; vm_compute; reflexivity. Defined.

(** C38: Behind a trusted peer the client is the nearest untrusted address of
    the forwarding chain, whatever entries the client put in front of it, on
    lines of their own or on the very line the first hop extends, each hop
    adding its entry to the last line or on a new one; with fewer than 32
    trusted hops behind it, the bound the code walks. *)
Theorem resolve_no_spoofing t remoteAddr peer header sent client a hops :
  parseAddr (hostOf remoteAddr) = Some peer → Contains t (normalize peer) = true →
  extended sent (client :: hops) (hValues header forwardedForHeader) →
  parseAddr (trimSpace client) = Some a → Contains t (normalize a) = false →
  Forall (λ w, trusted_entry t (trimSpace w)) hops → length hops < 32 →
  Resolve t remoteAddr header = (addrString (normalize a), true).
Proof.
  intros Hp Hc Hx Ha Hn Ht Hl. unfold Resolve, chain. rewrite Hp, Hc. cbn [negb].
  rewrite (chain_entries_extended _ _ _ Hx), fmap_cons, rev_app_distr. cbn [rev].
  rewrite <-(assoc_L app). apply walk_app; [|done|done|].
  - apply Forall_rev. by apply Forall_fmap.
  - rewrite length_rev, length_fmap. exact Hl.
Qed.

(** Spoofed entries on the line the first hop extends, and on one before. *)
Lemma resolve_no_spoofing_witness :
  Resolve example_trust "10.0.0.1:4242"
    (hAdd (example_header "7.7.7.7") forwardedForHeader "6.6.6.6, 203.0.113.7, 10.0.0.2") =
    (addrString (normalize (V4 3405803783)), true).
Proof.
  apply (resolve_no_spoofing example_trust "10.0.0.1:4242" (V4 167772161) _ ["7.7.7.7"; "6.6.6.6"]
    " 203.0.113.7" (V4 3405803783) [" 10.0.0.2"]).
  - vm_compute. reflexivity.
  - vm_compute. reflexivity.
  - apply (ex_comma ["7.7.7.7"] "6.6.6.6"); [reflexivity|].
    apply (ex_comma ["7.7.7.7"] "6.6.6.6, 203.0.113.7"); [reflexivity|]. apply ex_done.
  - vm_compute. reflexivity.
  - vm_compute. reflexivity.
  - constructor; [|constructor]. exists (V4 167772162). split; vm_compute; reflexivity.
  - simpl. lia.
Defined.

(** Only the nearest [MaxHops] entries of the chain matter. *)
Theorem resolve_bounded t remoteAddr h1 h2 :
  take MaxHops (chain h1) = take MaxHops (chain h2) →
  Resolve t remoteAddr h1 = Resolve t remoteAddr h2.
Proof.
  intros Hc. unfold Resolve. destruct (parseAddr _); [|done]. destruct (negb _); [done|].
  rewrite (walk_take _ _ _ (chain h1)), (walk_take _ _ _ (chain h2)) by lia.
  by rewrite Nat.sub_0_r, Hc.
Qed.

Lemma resolve_bounded_witness :
  Resolve example_trust "10.0.0.1:4242"
    (hAdd (example_header "1.2.3.4") forwardedForHeader
       (joinWith "," (replicate MaxHops "10.0.0.2"))) =
  Resolve example_trust "10.0.0.1:4242"
    (example_header (joinWith "," (replicate MaxHops "10.0.0.2"))).
Proof. apply resolve_bounded. vm_compute. reflexivity. Defined.

End clientip.
