(* ===== verification/ProxyProto.v ===== *)
(** * PROXY protocol preambles

    Models [internal/lib/transports/proxyproto/proxyproto.go]: the two
    preamble parsers over the bytes a connection delivers, and the wrapped
    connection that reads its preamble once, on first use.

    A [bufio.Reader] is the string of bytes the peer delivers before it
    closes or its deadline expires; a read past that end is the I/O error. *)

From S2P Require Import Prelude GoStrings Http NetIP.
From stdpp Require Import options.

Module proxyproto.

Definition MaxLineLength : nat := 107.

Definition signature : string :=
  bytes [0x0D; 0x0A; 0x0D; 0x0A; 0x00; 0x0D; 0x0A; 0x51; 0x55; 0x49; 0x54; 0x0A]%Z.

Definition cmdLocal : Z := 0x20.
Definition cmdProxy : Z := 0x21.
Definition famUnspec : Z := 0x00.
Definition famTCP4 : Z := 0x11.
Definition famTCP6 : Z := 0x21.

Inductive error :=
  | ErrNoPreamble
  | ErrUntrusted
  | ErrPeer (addr : string)
  | ErrTruncated
  | ErrTooLong
  | ErrMalformed (line : string)
  | ErrSource (field : string)
  | ErrNotIPv4 (field : string)
  | ErrNotIPv6 (field : string)
  | ErrTransport (field : string)
  | ErrPort (field : string)
  | ErrCommand (command : Z)
  | ErrFamily (family : Z)
  | ErrShortBlock (family : Z)
  | ErrAddress.

#[global] Instance error_eq_dec : EqDecision error.
Proof. solve_decision. Defined.

(** A valid [netip.AddrPort]; the invalid one is [None]. *)
Record AddrPort := mkAddrPort { apAddr : Addr; apPort : Z }.

#[global] Instance AddrPort_eq_dec : EqDecision AddrPort.
Proof. solve_decision. Defined.

(** ** Reading bytes *)

(** [io.ReadFull] of [n] bytes. *)
Definition readFull (n : nat) (s : string) : option (string * string) :=
  if (n <=? len s) then Some (stake n s, sdrop n s) else None.

(** [ReadString('\n')]: the line with its newline, and the rest. *)
Fixpoint readLine (s : string) : option (string * string) :=
  match s with
  | EmptyString => None
  | String c s =>
      if (c == "010"%char) then Some (String c "", s)
      else '(l, r) ← readLine s; Some (String c l, r)
  end.

Definition nth_byte (i : nat) (s : string) : Z := default 0%Z (byte_val <$> byte_at i s).

(** [netip.AddrFromSlice] on 4 or 16 bytes, big endian. *)
Fixpoint be_value (acc : Z) (s : string) : Z :=
  match s with
  | EmptyString => acc
  | String c s => be_value (acc * 256 + byte_val c)%Z s
  end.
Definition addrFromSlice (s : string) : option Addr :=
  match len s with
  | 4 => Some (V4 (be_value 0 s))
  | 16 => Some (V6 (be_value 0 s) "")
  | _ => None
  end.

(** ** The text form *)

Definition trim_eol (line : string) : string :=
  trimSuffix (trimSuffix line newline) (String "013" "").

Definition readV1_fields (line : string) (fs : list string) :
    result error (option AddrPort) :=
  if (2 <=? length fs) && (nth 1 fs "" == "UNKNOWN") then Ok None
  else match fs with
  | [_; transport; src; _; sport; _] =>
      source ← of_option (ErrSource src) (parseAddr src);
      _ ← (if (transport == "TCP4") then guard_err (is4 source) (ErrNotIPv4 src)
           else if (transport == "TCP6") then
             guard_err (negb (negb (is6 source) || is4In6 source)) (ErrNotIPv6 src)
           else Err (ErrTransport transport));
      port ← of_option (ErrPort sport) (parseUint 16 sport);
      Ok (Some (mkAddrPort source (uint16_wrap port)))
  | _ => Err (ErrMalformed line)
  end.

Definition readV1 (r : string) : result error (option AddrPort * string) :=
  '(line, rest) ← of_option ErrTruncated (readLine r);
  _ ← guard_err (len line <=? MaxLineLength) ErrTooLong;
  ap ← readV1_fields line (fields (trim_eol line));
  Ok (ap, rest).

(** ** The binary form *)

Definition readV2_body (command family : Z) (length_ : nat) (body : string) :
    result error (option AddrPort) :=
  if (command =? cmdLocal)%Z then Ok None
  else if negb (command =? cmdProxy)%Z then Err (ErrCommand command)
  else
    let address (size : nat) :=
      _ ← guard_err (size * 2 + 4 <=? length_) (ErrShortBlock family);
      source ← of_option ErrAddress (addrFromSlice (stake size body));
      let port := Z.lor (Z.shiftl (nth_byte (size * 2) body) 8)
                        (nth_byte (size * 2 + 1) body) in
      Ok (Some (mkAddrPort source (uint16_wrap port))) in
    if (family =? famTCP4)%Z then address 4
    else if (family =? famTCP6)%Z then address 16
    else if (family =? famUnspec)%Z then Ok None
    else Err (ErrFamily family).

Definition readV2 (r : string) : result error (option AddrPort * string) :=
  '(header, rest) ← of_option ErrTruncated (readFull (len signature + 4) r);
  let command := nth_byte (len signature) header in
  let family := nth_byte (len signature + 1) header in
  let length_ := Z.to_nat (Z.lor (Z.shiftl (nth_byte (len signature + 2) header) 8)
                                 (nth_byte (len signature + 3) header)) in
  '(body, rest) ← of_option ErrTruncated (readFull length_ rest);
  ap ← readV2_body command family length_ body;
  Ok (ap, rest).

Definition Read (r : string) : result error (option AddrPort * string) :=
  '(prefix, _) ← of_option ErrNoPreamble (readFull (len signature) r);
  if (prefix == signature) then readV2 r
  else if (stake 6 prefix != "PROXY ") then Err ErrNoPreamble
  else readV1 r.

(** ** Wrapped connections *)

Inductive cause := no_preamble | untrusted_peer | malformed.

#[global] Instance cause_eq_dec : EqDecision cause.
Proof. solve_decision. Defined.

(** [Conn]: [cnRemote] is the text of the underlying peer address, [cnIn]
    the unread bytes, [cnRejected] the [connectionsRejected] increments. *)
Record Conn := mkConn {
  cnRemote : string;
  cnTrusted : option (Addr → bool);
  cnIn : string;
  cnOnce : bool;
  cnSource : option AddrPort;
  cnErr : option error;
  cnClosed : bool;
  cnRejected : list cause;
}.

(** [listener.Accept]. *)
Definition accept (remote : string) (trusted : option (Addr → bool)) (input : string) : Conn :=
  mkConn remote trusted input false None None false [].

Definition peerAddr (addr : string) : result error Addr :=
  '(host, _) ← of_option (ErrPeer addr) (splitHostPort addr);
  peer ← of_option (ErrPeer addr) (parseAddr host);
  Ok (withoutZone (unmap peer)).

Definition reject (c : Conn) (why : cause) (e : error) : Conn :=
  mkConn (cnRemote c) (cnTrusted c) (cnIn c) (cnOnce c) (cnSource c)
    (Some e) true (cnRejected c ++ [why]).

Definition preamble_once (c : Conn) : Conn :=
  match peerAddr (cnRemote c) with
  | Err e => reject c malformed e
  | Ok peer =>
      if negb (match cnTrusted c with None => false | Some f => f peer end)
      then reject c untrusted_peer ErrUntrusted
      else match Read (cnIn c) with
           | Err e => reject c (if (e == ErrNoPreamble) then no_preamble else malformed) e
           | Ok (source, rest) =>
               mkConn (cnRemote c) (cnTrusted c) rest (cnOnce c) source
                 (cnErr c) (cnClosed c) (cnRejected c)
           end
  end.

(** [Conn.preamble]: the body of [once.Do], then the recorded error. *)
Definition preamble (c : Conn) : Conn * option error :=
  if cnOnce c then (c, cnErr c)
  else
    let c' := preamble_once c in
    let c' := mkConn (cnRemote c') (cnTrusted c') (cnIn c') true (cnSource c')
                (cnErr c') (cnClosed c') (cnRejected c') in
    (c', cnErr c').

(** [Conn.Read] of up to [n] bytes. *)
Definition connRead (c : Conn) (n : nat) : Conn * result error string :=
  let '(c, err) := preamble c in
  match err with
  | Some e => (c, Err e)
  | None =>
      (mkConn (cnRemote c) (cnTrusted c) (sdrop n (cnIn c)) (cnOnce c) (cnSource c)
         (cnErr c) (cnClosed c) (cnRejected c), Ok (stake n (cnIn c)))
  end.

(** [Conn.Write]: the bytes handed to the underlying connection. *)
Definition connWrite (c : Conn) (b : string) : Conn * result error string :=
  let '(c, err) := preamble c in
  match err with Some e => (c, Err e) | None => (c, Ok b) end.

(** [Conn.RemoteAddr]: the named client, or the peer. *)
Definition connRemoteAddr (c : Conn) : Conn * (AddrPort + string) :=
  let '(c, err) := preamble c in
  match err, cnSource c with
  | None, Some ap => (c, inl ap)
  | _, _ => (c, inr (cnRemote c))
  end.

(** ** Lemmas on the readers *)

Lemma readFull_app a b : readFull (len a) (a +:+ b) = Some (a, b).
Proof.
  unfold readFull. rewrite (proj2 (Nat.leb_le _ _)) by (rewrite len_app; lia).
  by rewrite stake_app, sdrop_app.
Qed.

Lemma readFull_Some n s a b : readFull n s = Some (a, b) → s = a +:+ b ∧ len a = n.
Proof.
  unfold readFull. destruct (Nat.leb_spec n (len s)); [|done]. intros [= <- <-].
  by rewrite stake_sdrop, len_stake, Nat.min_l.
Qed.

Lemma readLine_Some s l r : readLine s = Some (l, r) → s = l +:+ r.
Proof.
  revert l r; induction s as [|c s IH]; intros l r; simpl; [done|].
  case_bool_decide; [by intros [= <- <-]|].
  destruct (readLine s) as [[l' r']|]; simpl; [|done]. intros [= <- <-].
  rewrite app_cons. by rewrite <-(IH l' r').
Qed.

Lemma readLine_app l r :
  has_byte "010" l = false → readLine (l +:+ newline +:+ r) = Some (l +:+ newline, r).
Proof.
  induction l as [|c l IH]; intros Hl; [done|]. simpl in Hl. bool_to_prop.
  rewrite !app_cons. simpl. rewrite bool_decide_eq_false_2 by done. by rewrite IH.
Qed.

Lemma readLine_nonempty s l r : readLine s = Some (l, r) → 0 < len l.
Proof.
  destruct s as [|c s]; simpl; [done|]. case_bool_decide; [intros [= <- _]; simpl; lia|].
  destruct (readLine s) as [[l' r']|]; simpl; [|done]. intros [= <- _]. simpl. lia.
Qed.

Lemma readV1_suffix r ap rest :
  readV1 r = Ok (ap, rest) → ∃ pre, r = pre +:+ rest ∧ 0 < len pre ≤ MaxLineLength.
Proof.
  unfold readV1. intros ([l r'] & Hl%of_option_Ok & H)%bind_Ok.
  apply bind_Ok in H as (_ & Hlen%guard_err_Ok%Nat.leb_le & (ap' & _ & [= <- <-])%bind_Ok).
  exists l. eauto using readLine_Some, readLine_nonempty.
Qed.

Lemma readV2_suffix r ap rest :
  readV2 r = Ok (ap, rest) → ∃ pre, r = pre +:+ rest ∧ len signature + 4 ≤ len pre.
Proof.
  unfold readV2. intros ([h r'] & [-> Hh]%of_option_Ok%readFull_Some & H)%bind_Ok.
  apply bind_Ok in H as ([b r''] & [-> _]%of_option_Ok%readFull_Some &
    (ap' & _ & [= <- <-])%bind_Ok).
  eexists. rewrite sapp_assoc. split; [done|]. rewrite len_app. lia.
Qed.

(** *** Big-endian encodings *)

Fixpoint be_bytes (n : nat) (a : Z) : string :=
  match n with
  | O => ""
  | S n => be_bytes n (a / 256) +:+ String (byte_of a) ""
  end.

Lemma len_be_bytes n a : len (be_bytes n a) = n.
Proof.
  revert a; induction n as [|n IH]; intros a; simpl; [done|].
  rewrite len_app, IH. simpl. lia.
Qed.

Lemma be_value_app acc s t : be_value acc (s +:+ t) = be_value (be_value acc s) t.
Proof. revert acc; induction s as [|c s IH]; intros acc; [done|]. apply IH. Qed.

Lemma byte_val_of_mod a : byte_val (byte_of a) = (a `mod` 256)%Z.
Proof.
  pose proof (Z.mod_pos_bound a 256).
  replace (byte_of a) with (byte_of (a `mod` 256)).
  - apply byte_val_of. lia.
  - unfold byte_of. by rewrite Z.mod_mod.
Qed.

Lemma be_value_be_bytes n a : be_value 0 (be_bytes n a) = (a `mod` 256 ^ Z.of_nat n)%Z.
Proof.
  revert a; induction n as [|n IH]; intros a.
  { simpl. by rewrite Z.mod_1_r. }
  cbn [be_bytes]. rewrite be_value_app, IH. cbn [be_value]. rewrite byte_val_of_mod.
  rewrite Nat2Z.inj_succ, Z.pow_succ_r by lia. rewrite Z.rem_mul_r by lia. lia.
Qed.

Lemma be16 hi lo : (0 ≤ lo < 256)%Z → Z.lor (Z.shiftl hi 8) lo = (hi * 256 + lo)%Z.
Proof.
  intros. assert (Hland : Z.land (Z.shiftl hi 8) lo = 0%Z).
  { apply Z.bits_inj'. intros n Hn. rewrite Z.land_spec, Z.bits_0.
    destruct (Z.ltb_spec n 8); [by rewrite Z.shiftl_spec_low|].
    rewrite (Z.bits_above_log2 lo n), andb_false_r; [done|lia|].
    destruct (decide (lo = 0%Z)) as [->|]; [simpl; lia|].
    apply Z.log2_lt_pow2; [lia|]. apply Z.lt_le_trans with (2 ^ 8)%Z; [lia|].
    apply Z.pow_le_mono_r; lia. }
  rewrite <-Z.lxor_lor, <-Z.add_nocarry_lxor by done.
  by rewrite Z.shiftl_mul_pow2.
Qed.

(** *** A version 2 sender *)

Definition addr_size (a : Addr) : nat := match a with V4 _ => 4 | V6 _ _ => 16 end.
Definition addr_family (a : Addr) : Z := match a with V4 _ => famTCP4 | V6 _ _ => famTCP6 end.

Definition bodyV2 (src dst : Addr) (sport dport : Z) (tlvs : string) : string :=
  be_bytes (addr_size src) (addr_bits src) +:+ be_bytes (addr_size src) (addr_bits dst) +:+
  be_bytes 2 sport +:+ be_bytes 2 dport +:+ tlvs.

Definition headerV2 (command family : Z) (n : nat) : string :=
  signature +:+ bytes [command; family] +:+ be_bytes 2 (Z.of_nat n).

Definition encodeV2 (src dst : Addr) (sport dport : Z) (tlvs : string) : string :=
  let body := bodyV2 src dst sport dport tlvs in
  headerV2 cmdProxy (addr_family src) (len body) +:+ body.

Lemma headerV2_bytes command family n :
  len (headerV2 command family n) = len signature + 4 ∧
  nth_byte (len signature) (headerV2 command family n) = byte_val (byte_of command) ∧
  nth_byte (len signature + 1) (headerV2 command family n) = byte_val (byte_of family) ∧
  nth_byte (len signature + 2) (headerV2 command family n)
    = byte_val (byte_of (Z.of_nat n / 256)) ∧
  nth_byte (len signature + 3) (headerV2 command family n) = byte_val (byte_of (Z.of_nat n)).
Proof. repeat split. Qed.

Lemma be_pair n :
  (0 ≤ n < 65536)%Z →
  Z.lor (Z.shiftl (byte_val (byte_of (n / 256))) 8) (byte_val (byte_of n)) = n.
Proof.
  intros. rewrite !byte_val_of_mod, be16 by (apply Z.mod_pos_bound; lia).
  Z.div_mod_to_equations. lia.
Qed.

(** A version 2 preamble hands [readV2_body] its command, family and body. *)
Lemma Read_headerV2 command family body payload :
  (0 ≤ command < 256)%Z → (0 ≤ family < 256)%Z → (Z.of_nat (len body) < 65536)%Z →
  Read (headerV2 command family (len body) +:+ body +:+ payload) =
    ap ← readV2_body command family (len body) body; Ok (ap, payload).
Proof.
  intros Hc Hf Hn.
  destruct (headerV2_bytes command family (len body)) as (Hlen & H0 & H1 & H2 & H3).
  assert (Hpre : readFull (len signature)
      (headerV2 command family (len body) +:+ body +:+ payload) =
    Some (signature, bytes [command; family] +:+ be_bytes 2 (Z.of_nat (len body)) +:+
                     body +:+ payload)).
  { unfold headerV2. rewrite <-!sapp_assoc. apply readFull_app. }
  unfold Read. rewrite Hpre. cbn [of_option mbind result_bind].
  rewrite bool_decide_eqb_refl. unfold readV2. rewrite <-Hlen, readFull_app.
  cbn [of_option mbind result_bind]. rewrite H0, H1, H2, H3, be_pair by lia.
  rewrite Nat2Z.id, readFull_app. cbn [of_option mbind result_bind].
  by rewrite !byte_val_of by done.
Qed.

Lemma nth_byte_app s t i : nth_byte (len s + i) (s +:+ t) = nth_byte i t.
Proof.
  induction s as [|c s IH]; [done|]. rewrite app_cons. exact IH.
Qed.

Lemma addrFromSlice_be_bytes a :
  addr_ok a → withoutZone a = a →
  addrFromSlice (be_bytes (addr_size a) (addr_bits a)) = Some a.
Proof.
  intros Ha Hz. unfold addrFromSlice. rewrite len_be_bytes.
  destruct a as [x|x z]; cbn [addr_size addr_bits addr_ok] in *;
    rewrite be_value_be_bytes, Z.mod_small by (simpl; lia); [done|].
  unfold withoutZone in Hz. congruence.
Qed.

Lemma readV2_body_bodyV2 src dst sport dport tlvs :
  addr_ok src → withoutZone src = src → (0 ≤ sport < 65536)%Z →
  readV2_body cmdProxy (addr_family src) (len (bodyV2 src dst sport dport tlvs))
    (bodyV2 src dst sport dport tlvs) = Ok (Some (mkAddrPort src sport)).
Proof.
  intros Hs Hz Hp. set (size := addr_size src).
  assert (Hlen : size * 2 + 4 <= len (bodyV2 src dst sport dport tlvs)).
  { unfold bodyV2. rewrite !len_app, !len_be_bytes. fold size. lia. }
  assert (Htake : stake size (bodyV2 src dst sport dport tlvs) =
                  be_bytes size (addr_bits src)).
  { unfold bodyV2. fold size. rewrite <-(len_be_bytes size (addr_bits src)) at 1.
    apply stake_app. }
  assert (Hport : ∀ i, nth_byte (size * 2 + i) (bodyV2 src dst sport dport tlvs) =
                       nth_byte i (be_bytes 2 sport +:+ be_bytes 2 dport +:+ tlvs)).
  { intros i. unfold bodyV2. fold size. rewrite sapp_assoc.
    replace (size * 2 + i) with
      (len (be_bytes size (addr_bits src) +:+ be_bytes size (addr_bits dst)) + i)
      by (rewrite len_app, !len_be_bytes; lia).
    apply nth_byte_app. }
  pose proof (Hport 0) as Hp0. pose proof (Hport 1) as Hp1. rewrite Nat.add_0_r in Hp0.
  pose proof (addrFromSlice_be_bytes src Hs Hz) as Ha. fold size in Ha.
  unfold readV2_body. cbn [Z.eqb].
  destruct src as [x|x z]; cbn [addr_family addr_size] in *; subst size;
    cbn -[Nat.leb bodyV2 nth_byte stake addrFromSlice be_bytes].
  all: rewrite (proj2 (Nat.leb_le _ _)) by lia; rewrite Htake, Ha; cbn [guard_err of_option mbind result_bind].
  all: cbn [Nat.mul Nat.add] in Hp0, Hp1; rewrite Hp0, Hp1.
  all: repeat f_equal; unfold uint16_wrap; change (2 ^ 16)%Z with 65536%Z.
  all: change (nth_byte 0 _) with (byte_val (byte_of (sport / 256)));
       change (nth_byte 1 _) with (byte_val (byte_of sport)).
  all: by rewrite be_pair, Z.mod_small by lia.
Qed.

(** *** A version 1 sender, over IPv4 *)

Definition lineV1 (src dst sport dport : Z) : string :=
  joinWith " " ["PROXY"; "TCP4"; string4 src; string4 dst; pretty sport; pretty dport].
Definition encodeV1 (src dst sport dport : Z) : string :=
  lineV1 src dst sport dport +:+ String "013" "" +:+ newline.

Lemma lineV1_words src dst sport dport :
  (0 ≤ sport < 65536)%Z → (0 ≤ dport < 65536)%Z →
  Forall (λ w, w ≠ "" ∧ sforall plain w = true)
    ["PROXY"; "TCP4"; string4 src; string4 dst; pretty sport; pretty dport].
Proof.
  intros. destruct (string4_text src) as (?&?&_). destruct (string4_text dst) as (?&?&_).
  repeat constructor; try done; apply pretty_plain; lia.
Qed.

Lemma lineV1_len src dst sport dport :
  (0 ≤ sport < 65536)%Z → (0 ≤ dport < 65536)%Z →
  12 ≤ len (lineV1 src dst sport dport) ≤ 54.
Proof.
  intros. destruct (string4_text src) as (Hne&_&?). destruct (string4_text dst) as (_&_&?).
  pose proof (len_pretty sport 5). pose proof (len_pretty dport 5).
  unfold lineV1. cbn [joinWith]. rewrite !len_app. cbn [len].
  change (10 ^ Z.of_nat 5)%Z with 100000%Z in *.
  assert (len (string4 src) ≠ 0) by by rewrite len_zero. lia.
Qed.

Lemma readLine_lineV1 src dst sport dport payload :
  (0 ≤ sport < 65536)%Z → (0 ≤ dport < 65536)%Z →
  readLine (encodeV1 src dst sport dport +:+ payload) =
    Some (encodeV1 src dst sport dport, payload).
Proof.
  intros. unfold encodeV1. rewrite <-!sapp_assoc, (sapp_assoc (lineV1 _ _ _ _)).
  rewrite readLine_app; [by rewrite <-!sapp_assoc|].
  rewrite has_byte_app, orb_false_iff. split; [|done].
  assert (Hsp : ∀ w, sforall plain w = true → has_byte "010" w = false)
    by (intros w; by apply sforall_has_byte).
  destruct (string4_text src) as (_&Hs%Hsp&_). destruct (string4_text dst) as (_&Hd%Hsp&_).
  destruct (pretty_plain sport) as [_ H1%Hsp]; [lia|].
  destruct (pretty_plain dport) as [_ H2%Hsp]; [lia|].
  unfold lineV1. cbn [joinWith]. rewrite !has_byte_app, Hs, Hd, H1, H2. done.
Qed.

Lemma readV1_encodeV1 src dst sport dport payload :
  (0 ≤ src < 2 ^ 32)%Z → (0 ≤ sport < 65536)%Z → (0 ≤ dport < 65536)%Z →
  readV1 (encodeV1 src dst sport dport +:+ payload) =
    Ok (Some (mkAddrPort (V4 src) sport), payload).
Proof.
  intros Hs Hp Hq. unfold readV1. rewrite readLine_lineV1 by done.
  cbn [of_option mbind result_bind].
  replace (len (encodeV1 src dst sport dport) <=? MaxLineLength) with true.
  2:{ symmetry. apply Nat.leb_le. unfold encodeV1, MaxLineLength. rewrite !len_app.
      pose proof (lineV1_len src dst sport dport Hp Hq). change (len newline) with 1.
      cbn [len]. lia. }
  cbn [guard_err mbind result_bind].
  assert (Ht : trim_eol (encodeV1 src dst sport dport) = lineV1 src dst sport dport).
  { unfold trim_eol, encodeV1. by rewrite sapp_assoc, !trimSuffix_app. }
  rewrite Ht. unfold lineV1. rewrite fields_joinWith by by apply lineV1_words.
  unfold readV1_fields. cbn [length nth].
  change (parseAddr (string4 src)) with (parseAddr (addrString (V4 src))).
  rewrite parseAddr_string4 by done.
  cbn [Nat.leb andb of_option mbind result_bind is4].
  change ("TCP4" == "UNKNOWN") with false. change ("TCP4" == "TCP4") with true.
  cbn [andb guard_err mbind result_bind].
  rewrite (parseUint_pretty 16) by done. cbn [of_option mbind result_bind].
  unfold uint16_wrap. by rewrite Z.mod_small.
Qed.

Lemma Read_dispatch_v1 x : 6 ≤ len x → Read ("PROXY " +:+ x) = readV1 ("PROXY " +:+ x).
Proof.
  intros Hx. unfold Read, readFull.
  rewrite (proj2 (Nat.leb_le _ _)) by (rewrite len_app; change (len signature) with 12; simpl; lia).
  cbn [of_option mbind result_bind].
  rewrite bool_decide_eq_false_2 by done.
  by change (stake 6 (stake (len signature) ("PROXY " +:+ x))) with "PROXY ".
Qed.

Lemma preamble_idempotent c : let c' := (preamble c).1 in preamble c' = (c', (preamble c).2).
Proof. unfold preamble. by destruct (cnOnce c) eqn:E; simpl; rewrite ?E. Qed.

(** ** Properties *)

(** Reading a well-formed PROXY v2 header yields its source address and leaves
    the payload untouched. *)
Theorem read_encodeV2 src dst sport dport tlvs payload :
  addr_ok src → withoutZone src = src → (0 ≤ sport < 65536)%Z →
  (Z.of_nat (len (bodyV2 src dst sport dport tlvs)) < 65536)%Z →
  Read (encodeV2 src dst sport dport tlvs +:+ payload) =
    Ok (Some (mkAddrPort src sport), payload).
Proof.
  intros. unfold encodeV2. rewrite <-sapp_assoc.
  rewrite Read_headerV2 by (done || by destruct src).
  by rewrite readV2_body_bodyV2.
Qed.

Lemma read_encodeV2_witness :
  Read (encodeV2 (V6 1 "") (V6 2 "") 4242 443 "tlv" +:+ "GET / HTTP/1.1") =
    Ok (Some (mkAddrPort (V6 1 "") 4242), "GET / HTTP/1.1").
Proof. apply read_encodeV2; vm_compute; done || (split; congruence). Defined.

(** Reading a well-formed PROXY v1 TCP4 line yields its source address and
    leaves the payload untouched. *)
Theorem read_encodeV1 src dst sport dport payload :
  (0 ≤ src < 2 ^ 32)%Z → (0 ≤ sport < 65536)%Z → (0 ≤ dport < 65536)%Z →
  Read (encodeV1 src dst sport dport +:+ payload) =
    Ok (Some (mkAddrPort (V4 src) sport), payload).
Proof.
  intros Hs Hp Hq. pose proof (lineV1_len src dst sport dport Hp Hq) as Hlen.
  rewrite <-(readV1_encodeV1 src dst sport dport payload Hs Hp Hq).
  unfold encodeV1, lineV1 in *. cbn [joinWith] in *.
  rewrite <-!sapp_assoc, (sapp_assoc "PROXY" " "). apply Read_dispatch_v1.
  rewrite !len_app in *. cbn [len] in *. lia.
Qed.

Lemma read_encodeV1_witness :
  Read (encodeV1 167838211 167838212 4242 443 +:+ "hello") =
    Ok (Some (mkAddrPort (V4 167838211) 4242), "hello").
Proof. apply read_encodeV1; lia. Defined.

(** A header is read off the front of the stream and nothing else is. *)
Theorem read_keeps_payload r ap rest :
  Read r = Ok (ap, rest) → ∃ pre, r = pre +:+ rest ∧ 0 < len pre.
Proof.
  unfold Read. intros ([p q] & _ & H)%bind_Ok.
  destruct (p == signature).
  - apply readV2_suffix in H as (pre & -> & ?). exists pre. split; [done|].
    change (len signature) with 12 in *. lia.
  - destruct (_ != _); [done|]. apply readV1_suffix in H as (pre & -> & ?).
    exists pre. split; [done|lia].
Qed.

Lemma read_keeps_payload_witness :
  ∃ pre, "PROXY UNKNOWN" +:+ newline +:+ "rest" = pre +:+ "rest" ∧ 0 < len pre.
Proof. apply (read_keeps_payload _ None "rest"). vm_compute. reflexivity. Defined.

(** C39: A connection from a peer that is not trusted fails its first read
    before any byte is consumed, is closed and counted once, and never takes an
    address from the wire. *)
Theorem untrusted_peer_rejected remote trusted input peer n b :
  peerAddr remote = Ok peer →
  match trusted with None => true | Some f => negb (f peer) end = true →
  let c := (preamble (accept remote trusted input)).1 in
  connRead (accept remote trusted input) n = (c, Err ErrUntrusted) ∧
  connWrite c b = (c, Err ErrUntrusted) ∧ connRemoteAddr c = (c, inr remote) ∧
  cnIn c = input ∧ cnClosed c = true ∧ cnRejected c = [untrusted_peer].
Proof.
  intros Hp Ht. unfold connRead, connWrite, connRemoteAddr.
  unfold preamble, preamble_once. cbn. rewrite Hp.
  destruct trusted as [f|]; [|by cbn]. rewrite Ht. by cbn.
Qed.

Lemma untrusted_peer_rejected_witness :
  let c := (preamble (accept "203.0.113.9:5000" (Some (λ _, false)) "PROXY UNKNOWN")).1 in
  connRead (accept "203.0.113.9:5000" (Some (λ _, false)) "PROXY UNKNOWN") 4096 =
    (c, Err ErrUntrusted) ∧
  connWrite c "x" = (c, Err ErrUntrusted) ∧ connRemoteAddr c = (c, inr "203.0.113.9:5000") ∧
  cnIn c = "PROXY UNKNOWN" ∧ cnClosed c = true ∧ cnRejected c = [untrusted_peer].
Proof.
  apply (untrusted_peer_rejected _ _ _ (V4 3405803785)); vm_compute; reflexivity.
Defined.

(** Behind a trusted peer the bytes after the header arrive in order, and the
    remote address is the header's. *)
Theorem trusted_stream_intact remote f input peer source rest n m :
  peerAddr remote = Ok peer → f peer = true → Read input = Ok (source, rest) →
  let '(c1, r1) := connRead (accept remote (Some f) input) n in
  let '(c2, r2) := connRead c1 m in
  r1 = Ok (stake n rest) ∧ r2 = Ok (stake m (sdrop n rest)) ∧
  cnIn c2 = sdrop m (sdrop n rest) ∧
  (connRemoteAddr c2).2 = match source with Some ap => inl ap | None => inr remote end.
Proof.
  intros Hp Hf Hr. unfold connRead, preamble, preamble_once. cbn. rewrite Hp. cbn.
  rewrite Hf. cbn. rewrite Hr. cbn. unfold connRemoteAddr, preamble. cbn.
  by destruct source.
Qed.

Lemma trusted_stream_intact_witness :
  let '(c1, r1) := connRead (accept "10.0.0.1:5000" (Some (λ _, true))
                     (encodeV1 167838211 167838212 4242 443 +:+ "hello")) 2 in
  let '(c2, r2) := connRead c1 10 in
  r1 = Ok "he" ∧ r2 = Ok "llo" ∧ cnIn c2 = "" ∧
  (connRemoteAddr c2).2 = inl (mkAddrPort (V4 167838211) 4242).
Proof.
  apply (trusted_stream_intact "10.0.0.1:5000" (λ _, true) _ (V4 167772161)
    (Some (mkAddrPort (V4 167838211) 4242)) "hello" 2 10); vm_compute; reflexivity.
Defined.

End proxyproto.
