(* ===== verification/Sha256.v ===== *)
(** * SHA-256

    [crypto/sha256] and [encoding/hex], which the program uses to address
    generated configuration by content.  Words are integers modulo 2^32. *)

From S2P Require Import Prelude GoStrings NetIP.
From stdpp Require Import options.

#[local] Open Scope Z_scope.

Definition w32 (z : Z) : Z := z `mod` 2 ^ 32.
Definition rotr (n x : Z) : Z := Z.lor (Z.shiftr x n) (w32 (Z.shiftl x (32 - n))).

(** The constants of the standard: the first 32 fractional bits of the cube
    roots of the first 64 primes, and of the square roots of the first 8. *)
Definition is_prime (n : Z) : bool :=
  forallb (λ d, negb (n `mod` Z.of_nat d =? 0)) (seq 2 (Z.to_nat (Z.sqrt n) - 1)).
Definition primes (count : nat) : list Z :=
  take count (filter (λ n, is_prime n) (Z.of_nat <$> seq 2 400)).

(** The integer cube root of [n], bit by bit from the top. *)
Fixpoint cube_root (bits : nat) (r n : Z) : Z :=
  match bits with
  | O => r
  | S bits => let r' := r + 2 ^ Z.of_nat bits in cube_root bits (if r' ^ 3 <=? n then r' else r) n
  end.

Definition K256 : list Z :=
  Eval vm_compute in (λ p, cube_root 40 0 (p * 2 ^ 96) `mod` 2 ^ 32) <$> primes 64.

Definition H256 : list Z :=
  Eval vm_compute in (λ p, Z.sqrt (p * 2 ^ 64) `mod` 2 ^ 32) <$> primes 8.

(** The message schedule, as the sixteen most recent words, oldest first. *)
Definition next_word (w : list Z) : Z :=
  let w15 := nth 1 w 0 in
  let w2 := nth 14 w 0 in
  let s0 := Z.lxor (Z.lxor (rotr 7 w15) (rotr 18 w15)) (Z.shiftr w15 3) in
  let s1 := Z.lxor (Z.lxor (rotr 17 w2) (rotr 19 w2)) (Z.shiftr w2 10) in
  w32 (nth 0 w 0 + s0 + nth 9 w 0 + s1).

Definition sha_round (h : list Z) (k w : Z) : list Z :=
  match h with
  | [a; b; c; d; e; f; g; hh] =>
      let S1 := Z.lxor (Z.lxor (rotr 6 e) (rotr 11 e)) (rotr 25 e) in
      let ch := Z.lxor (Z.land e f) (Z.land (Z.lxor e (2 ^ 32 - 1)) g) in
      let t1 := w32 (hh + S1 + ch + k + w) in
      let S0 := Z.lxor (Z.lxor (rotr 2 a) (rotr 13 a)) (rotr 22 a) in
      let maj := Z.lxor (Z.lxor (Z.land a b) (Z.land a c)) (Z.land b c) in
      let t2 := w32 (S0 + maj) in
      [w32 (t1 + t2); a; b; c; w32 (d + t1); e; f; g]
  | _ => h
  end.

Fixpoint sha_rounds (ks : list Z) (w h : list Z) : list Z :=
  match ks with
  | [] => h
  | k :: ks => sha_rounds ks (tail w ++ [next_word w]) (sha_round h k (nth 0 w 0))
  end.

Definition sha_block (h w : list Z) : list Z :=
  zip_with (λ x y, w32 (x + y)) h (sha_rounds K256 w h).

(** Big-endian words of a list of bytes. *)
Fixpoint words (l : list Z) : list Z :=
  match l with
  | a :: b :: c :: d :: l => ((a * 256 + b) * 256 + c) * 256 + d :: words l
  | _ => []
  end.

Fixpoint sha_blocks (fuel : nat) (h ws : list Z) : list Z :=
  match fuel, ws with
  | S fuel, _ :: _ => sha_blocks fuel (sha_block h (take 16 ws)) (drop 16 ws)
  | _, _ => h
  end.

Fixpoint byte_list (s : string) : list Z :=
  match s with EmptyString => [] | String c s => byte_val c :: byte_list s end.

Definition sha_pad (l : list Z) : list Z :=
  let n := Z.of_nat (length l) in
  let bits := 8 * n in
  l ++ [128] ++ replicate (Z.to_nat ((55 - n) `mod` 64)) 0 ++
  ((λ i, Z.land (Z.shiftr bits (8 * i)) 255) <$> [7; 6; 5; 4; 3; 2; 1; 0]).

(** The digest in lower-case hexadecimal: [hex.EncodeToString(sha256(...))]. *)
Definition sha256_hex (s : string) : string :=
  let ws := words (sha_pad (byte_list s)) in
  foldr (λ w t, hex_digits 8 w +:+ t) "" (sha_blocks (length ws) H256 ws).

Example sha256_empty :
  sha256_hex "" = "e3b0c44298fc1c149afbf4c8996fb92427ae41e4649b934ca495991b7852b855".
Proof. vm_compute. reflexivity. Qed.
Example sha256_abc :
  sha256_hex "abc" = "ba7816bf8f01cfea414140de5dae2223b00361a396177a9cb410ff61f20015ad".
Proof. vm_compute. reflexivity. Qed.
Example sha256_two_blocks :
  sha256_hex "abcdbcdecdefdefgefghfghighijhijkijkljklmklmnlmnomnopnopq" =
  "248d6a61d20638b8e5c026930c3e6039a33ce45964ff2167f6ecedd419db06c1".
Proof. vm_compute. reflexivity. Qed.

Lemma len_hex_digits n v : len (hex_digits n v) = n.
Proof.
  revert v; induction n as [|n IH]; intros v; [done|].
  cbn [hex_digits]. rewrite len_app, IH. simpl. lia.
Qed.

Lemma length_sha_round h k w : length h = 8%nat → length (sha_round h k w) = 8%nat.
Proof. destruct h as [|a [|b [|c [|d [|e [|f [|g [|x [|y h]]]]]]]]]; done. Qed.

Lemma length_sha_rounds ks w h : length h = 8%nat → length (sha_rounds ks w h) = 8%nat.
Proof.
  revert w h. induction ks as [|k ks IH]; intros w h Hh; [done|].
  simpl. apply IH. by apply length_sha_round.
Qed.

Lemma length_sha_blocks n h ws : length h = 8%nat → length (sha_blocks n h ws) = 8%nat.
Proof.
  revert h ws. induction n as [|n IH]; intros h ws Hh; [done|].
  destruct ws as [|w ws]; [done|]. simpl. apply IH. unfold sha_block.
  rewrite length_zip_with, length_sha_rounds by done. lia.
Qed.

(** A digest prints as 64 characters. *)
Lemma len_sha256_hex s : len (sha256_hex s) = 64%nat.
Proof.
  unfold sha256_hex. set (ws := words _).
  pose proof (length_sha_blocks (length ws) H256 ws eq_refl) as Hl.
  assert (Hf : ∀ l, len (foldr (λ w t, hex_digits 8 w +:+ t) "" l) = (8 * length l)%nat).
  { induction l as [|w l IH]; [done|]. cbn [foldr]. rewrite len_app, len_hex_digits, IH.
    simpl. lia. }
  by rewrite Hf, Hl.
Qed.

(** A digest is hexadecimal: it contains no separator. *)
Lemma hex_digits_bar n v : has_byte "|" (hex_digits n v) = false.
Proof.
  revert v; induction n as [|n IH]; intros v; [done|]. cbn [hex_digits].
  rewrite has_byte_app, IH. simpl. rewrite orb_false_r. apply bool_decide_eq_false.
  assert (0 ≤ Z.land v 15 < 16)%Z as Hr.
  { change 15%Z with (Z.ones 4). rewrite Z.land_ones by lia. apply Z.mod_pos_bound. lia. }
  revert Hr. generalize (Z.land v 15). intros d Hd.
  assert (d = 0 ∨ d = 1 ∨ d = 2 ∨ d = 3 ∨ d = 4 ∨ d = 5 ∨ d = 6 ∨ d = 7 ∨ d = 8 ∨ d = 9 ∨
          d = 10 ∨ d = 11 ∨ d = 12 ∨ d = 13 ∨ d = 14 ∨ d = 15)%Z as Hcases by lia.
  repeat (destruct Hcases as [->|Hcases]; [vm_compute; discriminate|]). subst d.
  vm_compute; discriminate.
Qed.

Lemma sha256_hex_bar s : has_byte "|" (sha256_hex s) = false.
Proof.
  unfold sha256_hex. induction (sha_blocks _ _ _) as [|w l IH]; [done|].
  cbn [foldr]. by rewrite has_byte_app, hex_digits_bar, IH.
Qed.
