(* ===== verification/Compiled.v ===== *)
(** * Compiled configuration

    Models [internal/lib/k8s/compiled/compiled.go]: the data exchanged
    between the control plane and the data plane, its content-addressed
    names and its checksums.  Record fields are the Go fields, in order. *)

From S2P Require Import Prelude GoStrings Sha256.
From Stdlib Require Import QArith.QArith_base.
From stdpp Require Import options.

#[local] Open Scope nat_scope.

Module compiled.

(** ** Names *)

Definition DataKey := "config.json".
Definition ManifestKey := "manifest.json".
Definition LabelManagedBy := "app.kubernetes.io/managed-by".
Definition ManagedByValue := "krouter".
Definition LabelGatewayUID := "krouter.link-society.com/gateway-uid".
Definition LabelSourceUID := "krouter.link-society.com/source-uid".
Definition LabelGeneration := "krouter.link-society.com/generation".
Definition LabelRole := "krouter.link-society.com/role".
Definition RoleManifest := "manifest".
Definition RoleGatewayCfg := "gateway-config".
Definition RoleAttachment := "attachment".
Definition RoleTLS := "tls".
Definition EndpointSliceManagedBy := "controller.krouter.link-society.com".
Definition PortMapAnnotation := "krouter.link-society.com/port-map".
Definition ObjectKindConfigMap := "ConfigMap".
Definition ObjectKindSecret := "Secret".
Definition BackendClientCertKey := "_backend-client.tls.crt".
Definition BackendClientKeyKey := "_backend-client.tls.key".
Definition RateLimitKey := "ratelimit.hcl".
Definition WAFKey := "waf.hcl".
Definition AuthKey := "auth.hcl".
Definition AppProtocolH2C := "kubernetes.io/h2c".
Definition FilterRequestHeaderModifier := "RequestHeaderModifier".
Definition FilterResponseHeaderModifier := "ResponseHeaderModifier".
Definition FilterRequestRedirect := "RequestRedirect".
Definition FilterURLRewrite := "URLRewrite".
Definition FilterRequestMirror := "RequestMirror".
Definition FilterCORS := "CORS".

(** ** Gateway payload *)

Record Listener := mkListener {
  lName : string;
  lPort : Z;
  lInternalPort : Z;
  lProtocol : string;
  lHostname : string;
  lHasTLS : bool;
  lClientCAMode : string;
  lProxyProtocol : bool;
}.

Record GatewayConfig := mkGatewayConfig {
  gcUID : string;
  gcNamespace : string;
  gcName : string;
  gcListeners : list Listener;
  gcBackendClientCert : bool;
  gcTrustedProxies : list string;
}.

(** ** Route payload *)

Record HeaderMatch := mkHeaderMatch { hmName : string; hmValue : string }.
Record QueryParamMatch := mkQueryParamMatch { qmName : string; qmValue : string }.

Record Match := mkMatch {
  mPathType : string;
  mPathValue : string;
  mMethod : string;
  mHeaders : list HeaderMatch;
  mQueryParams : list QueryParamMatch;
}.

Record CORS := mkCORS {
  corsAllowOrigins : list string;
  corsAllowMethods : list string;
  corsAllowHeaders : list string;
  corsExposeHeaders : list string;
  corsAllowCredentials : bool;
  corsMaxAgeSeconds : Z;
}.

Record SubjectAltName := mkSubjectAltName { sanType : string; sanValue : string }.

Record BackendTLS := mkBackendTLS {
  btHostname : string;
  btCAPem : string;
  btSystemCAs : bool;
  btInvalid : bool;
  btSubjectAltNames : list SubjectAltName;
}.

(** A filter may carry a mirror backend, a backend its own filters.  The
    percentage of [MirrorPercent] is kept as a rational. *)
Inductive Filter := mkFilter {
  fType : string;
  fSetHeaders : gmap string string;
  fAddHeaders : gmap string string;
  fRemoveHeaders : list string;
  fCORS : option CORS;
  fScheme : string;
  fHostname : string;
  fPort : Z;
  fStatusCode : Z;
  fPathRewriteType : string;
  fPathRewriteValue : string;
  fPathPrefix : string;
  fMirror : option Backend;
  fMirrorPercent : option Q;
}
with Backend := mkBackend {
  bNamespace : string;
  bName : string;
  bPort : Z;
  bWeight : Z;
  bValid : bool;
  bInvalidReason : string;
  bAppProtocol : string;
  bFilters : list Filter;
  bTLS : option BackendTLS;
}.

Record RateLimit := mkRateLimit {
  rlRequests : Z;
  rlWindowMillis : Z;
  rlBurst : Z;
  rlKey : string;
  rlStatus : Z;
}.

Record Rule := mkRule {
  ruMatches : list Match;
  ruFilters : list Filter;
  ruBackends : list Backend;
  ruRequestTimeoutMillis : Z;
  ruBackendTimeoutMillis : Z;
  ruRateLimit : option RateLimit;
  ruWAF : string;
  ruExtensionsInvalid : bool;
  ruAuth : string;
}.

Record RouteConfig := mkRouteConfig {
  rcUID : string;
  rcNamespace : string;
  rcName : string;
  rcListeners : list string;
  rcHostnames : list string;
  rcCreated : Z;
  rcGRPC : bool;
  rcRules : list Rule;
}.

(** ** Authentication payload *)

Record AuthSession := mkAuthSession { asSecret : string; asLifetimeMillis : Z }.

Record AuthOIDC := mkAuthOIDC {
  aoIssuer : string;
  aoClientID : string;
  aoClientSecret : string;
  aoScopes : list string;
  aoDisplayName : string;
}.

Record AuthSAML := mkAuthSAML {
  asmEntityID : string;
  asmIDPMetadataURL : string;
  asmIDPMetadata : string;
  asmSPKeyPEM : string;
  asmSPCertPEM : string;
  asmAttributes : gmap string string;
  asmDisplayName : string;
}.

Record AuthGroupSearch := mkAuthGroupSearch {
  agBaseDN : string;
  agFilter : string;
  agAttribute : string;
}.

Record AuthLDAP := mkAuthLDAP {
  alURL : string;
  alStartTLS : bool;
  alCA : string;
  alBindDN : string;
  alBindPassword : string;
  alUserBaseDN : string;
  alUserFilter : string;
  alRealm : string;
  alAttributes : gmap string string;
  alGroupSearch : option AuthGroupSearch;
  alDisplayName : string;
}.

Record AuthJWT := mkAuthJWT {
  ajIssuer : string;
  ajAudiences : list string;
  ajJWKSURL : string;
}.

Record AuthRequire := mkAuthRequire { arClaim : string; arValues : list string }.

Record Auth := mkAuth {
  auIdentity : string;
  auPathPrefix : string;
  auSession : option AuthSession;
  auOIDC : option AuthOIDC;
  auSAML : option AuthSAML;
  auLDAP : option AuthLDAP;
  auJWT : option AuthJWT;
  auAuthorization : list AuthRequire;
}.

Definition AuthSecretKey (identity : string) : string := "auth-" +:+ identity +:+ ".json".

(** ** Manifest *)

Record ObjectRef := mkObjectRef { orKind : string; orName : string; orChecksum : string }.

Record Manifest := mkManifest {
  mfGatewayUID : string;
  mfGeneration : string;
  mfPrevious : string;
  mfObjects : list ObjectRef;
}.

(** ** Checksums *)

Definition ChecksumBytes (data : string) : string := sha256_hex data.

(** [sort.Strings] of the keys of a map. *)
Definition sorted_keys {V} (m : gmap string V) : list string :=
  sliceStable sless (map_to_list m).*1.

Definition ChecksumSecret (data : gmap string string) : string :=
  sha256_hex (foldr (λ key t,
    key +:+ "=" +:+ sha256_hex (default "" (data !! key)) +:+ String "010" "" +:+ t) "" (sorted_keys data)).

Definition nul : string := String "000" "".

(** The bytes the generation identifier digests. *)
Definition generation_preimage (gatewayPayload : string) (attachments : gmap string string)
    (secretChecksum : string) : string :=
  gatewayPayload +:+
  foldr (λ uid t, nul +:+ uid +:+ nul +:+ default "" (attachments !! uid) +:+ t)
    (nul +:+ secretChecksum) (sorted_keys attachments).

Definition GenerationID (gatewayPayload : string) (attachments : gmap string string)
    (secretChecksum : string) : string :=
  stake 12 (sha256_hex (generation_preimage gatewayPayload attachments secretChecksum)).

Definition AuthIdentity (secretUIDs : list string) : string :=
  stake 12 (sha256_hex (foldr (λ uid t, uid +:+ nul +:+ t) "" secretUIDs)).

(** ** Object names and labels *)

Definition ManifestName (gatewayUID : string) : string := "krouter-manifest-" +:+ gatewayUID.
Definition GatewayConfigName (gatewayUID generation : string) : string :=
  "krouter-gwcfg-" +:+ gatewayUID +:+ "-" +:+ generation.
Definition AttachmentName (gatewayUID routeUID generation : string) : string :=
  "krouter-att-" +:+ gatewayUID +:+ "-" +:+ routeUID +:+ "-" +:+ generation.
Definition TLSSecretName (gatewayUID generation : string) : string :=
  "krouter-tls-" +:+ gatewayUID +:+ "-" +:+ generation.

Definition BaseLabels (gatewayUID : string) : gmap string string :=
  <[LabelManagedBy := ManagedByValue]> (<[LabelGatewayUID := gatewayUID]> ∅).
Definition ObjectLabels (gatewayUID generation role : string) : gmap string string :=
  <[LabelRole := role]> (<[LabelGeneration := generation]> (BaseLabels gatewayUID)).

(** ** Lemmas *)

Lemma elem_of_sorted_keys {V} (m : gmap string V) k : k ∈ sorted_keys m ↔ is_Some (m !! k).
Proof.
  unfold sorted_keys. rewrite sliceStable_Permutation, list_elem_of_fmap. split.
  - intros ([k' v] & -> & Hkv%elem_of_map_to_list). eauto.
  - intros [v Hv]. exists (k, v). split; [done|]. by apply elem_of_map_to_list.
Qed.

(** The entries of a map in key order. *)
Definition sorted_entries (m : gmap string string) : list (string * string) :=
  (λ k, (k, default "" (m !! k))) <$> sorted_keys m.

Lemma sorted_entries_inj m1 m2 : sorted_entries m1 = sorted_entries m2 → m1 = m2.
Proof.
  intros H. assert (Hs : ∀ m k v, m !! k = Some v ↔ (k, v) ∈ sorted_entries m).
  { intros m k v. unfold sorted_entries. rewrite list_elem_of_fmap. split.
    - intros Hk. exists k. by rewrite Hk, elem_of_sorted_keys, Hk.
    - intros (k' & [= -> ->] & [w Hw]%elem_of_sorted_keys). by rewrite Hw. }
  apply map_eq. intros k. apply option_eq. intros v. by rewrite !Hs, H.
Qed.

(** The fields a preimage consists of. *)
Definition preimage_fields (gw : string) (entries : list (string * string)) (sum : string) :
    list string :=
  gw :: foldr (λ e t, e.1 :: e.2 :: t) [sum] entries.

Definition no_nul (s : string) : Prop := has_byte "000" s = false.

Lemma split_preimage gw attachments sum :
  no_nul gw → no_nul sum → map_Forall (λ uid p, no_nul uid ∧ no_nul p) attachments →
  splitOn "000" (generation_preimage gw attachments sum) =
    preimage_fields gw (sorted_entries attachments) sum.
Proof.
  intros Hgw Hsum Hall. unfold generation_preimage, preimage_fields, sorted_entries.
  assert (Hk : ∀ k, k ∈ sorted_keys attachments →
                    no_nul k ∧ no_nul (default "" (attachments !! k))).
  { intros k [v Hv]%elem_of_sorted_keys. rewrite Hv. by apply (Hall k v). }
  revert gw Hgw. induction (sorted_keys attachments) as [|k ks IH]; intros gw Hgw; simpl.
  - rewrite splitOn_app_sep by done. by rewrite splitOn_single.
  - destruct (Hk k) as [H1 H2]; [by left|].
    rewrite !splitOn_app_sep by done. rewrite IH by set_solver. done.
Qed.

Lemma preimage_fields_inj g1 e1 s1 g2 e2 s2 :
  preimage_fields g1 e1 s1 = preimage_fields g2 e2 s2 → g1 = g2 ∧ e1 = e2 ∧ s1 = s2.
Proof.
  unfold preimage_fields. intros [= -> H]. split; [done|]. revert e2 H.
  induction e1 as [|[u p] e1 IH]; intros [|[v q] e2]; simpl; intros H; simplify_eq; [done|].
  by destruct (IH e2) as [-> ->].
Qed.

(** ** Properties *)

(** The text a generation name is hashed from determines the gateway, the routes
    and the secret: distinct contents have distinct preimages. *)
Theorem generation_preimage_inj g1 m1 s1 g2 m2 s2 :
  no_nul g1 → no_nul s1 → map_Forall (λ uid p, no_nul uid ∧ no_nul p) m1 →
  no_nul g2 → no_nul s2 → map_Forall (λ uid p, no_nul uid ∧ no_nul p) m2 →
  generation_preimage g1 m1 s1 = generation_preimage g2 m2 s2 →
  g1 = g2 ∧ m1 = m2 ∧ s1 = s2.
Proof.
  intros ? ? H1 ? ? H2 Heq. apply (f_equal (splitOn "000")) in Heq.
  rewrite !split_preimage in Heq by done.
  apply preimage_fields_inj in Heq as (-> & Heq & ->).
  by rewrite (sorted_entries_inj _ _ Heq).
Qed.

Lemma generation_preimage_inj_witness :
  "gw" = "gw" ∧ ({[ "uid" := "payload" ]} : gmap string string) = {[ "uid" := "payload" ]} ∧
  "sum" = "sum".
Proof.
  apply (generation_preimage_inj "gw" {[ "uid" := "payload" ]} "sum"
           "gw" {[ "uid" := "payload" ]} "sum"); try reflexivity;
    intros k v [<- <-]%lookup_singleton_Some; split; reflexivity.
Defined.

End compiled.
