(* ===== verification/Tables.v ===== *)
(** * Routing tables: the data-plane domain model

    Models the types of [internal/lib/transports/http/routing/types.go]
    and [internal/lib/snapshot/snapshot.go], with the accessors the request
    path uses.

    Go pointers that are compared, shared or mutated get an identity: a
    listener, rule or backend carries the address it was allocated at.  The
    tables are immutable once built except for the atomic round-robin
    counters, so those live in a [Store] indexed by address; rules and
    backends reached through several listeners share their counter. *)

From S2P Require Import Prelude GoStrings Http NetIP ClientIP Compiled.
From Stdlib Require Import QArith.QArith_base.
From stdpp Require Import options.

#[local] Open Scope nat_scope.

Module routing.

(** ** Cryptographic material

    A certificate is the pair of PEM blocks it was parsed from, a pool the
    bundle it was filled from; whether they parse is a parameter of the
    build. *)

Record Certificate := mkCertificate { certPem : string; keyPem : string }.
Definition CertPool := string.
Inductive ClientAuthType :=
  NoClientCert | RequestClientCert | RequireAndVerifyClientCert.

#[global] Instance ClientAuthType_eq_dec : EqDecision ClientAuthType.
Proof. solve_decision. Defined.

(** The TLS client side of an [http.Transport]: [trAddr] is its identity,
    [trRootCAs] is [None] for the system trust store; a non-empty SAN list
    means hostname verification is replaced by [sanVerifier]. *)
Record Transport := mkTransport {
  trAddr : nat;
  trServerName : string;
  trCertificate : option Certificate;
  trRootCAs : option CertPool;
  trSANs : list compiled.SubjectAltName;
}.

(** [auth.Enforcer], as far as routing looks into it. *)
Record Enforcer := mkEnforcer { enCfg : compiled.Auth }.
Definition Identity (e : Enforcer) : string := compiled.auIdentity (enCfg e).
Definition PathPrefix (e : Enforcer) : string := compiled.auPathPrefix (enCfg e).
Definition HasCookieProvider (e : Enforcer) : bool :=
  bool_decide (is_Some (compiled.auOIDC (enCfg e))) ||
  bool_decide (is_Some (compiled.auSAML (enCfg e))) ||
  bool_decide (is_Some (compiled.auLDAP (enCfg e))).

(** ** Tables *)

Record BackendTable := mkBackendTable {
  bkAddr : nat;
  bkNamespace : string;
  bkName : string;
  bkPort : Z;
  bkWeight : Z;
  bkValid : bool;
  bkH2C : bool;
  bkFilters : list compiled.Filter;
  bkTLSKey : string;
  bkTLSTransport : option Transport;
  bkTLSInvalid : bool;
}.

Record MirrorTable := mkMirrorTable { miBackend : BackendTable; miPercent : Q }.

Record RuleTable := mkRuleTable {
  ruAddr : nat;
  ruMatches : list compiled.Match;
  ruFilters : list compiled.Filter;
  ruBackends : list BackendTable;
  ruMirrors : list MirrorTable;
  ruCORS : option compiled.CORS;
  ruGRPC : bool;
  ruRequestTimeout : Z;    (** nanoseconds; zero means none *)
  ruBackendTimeout : Z;
  ruTotal : Z;
  ruLimiter : option compiled.RateLimit;
  ruWAFEngine : option string;
  ruAuthEnforcer : option Enforcer;
  ruExtensionsInvalid : bool;
}.

Record RouteTable := mkRouteTable {
  rtNamespace : string;
  rtName : string;
  rtHostnames : list string;
  rtCreated : Z;
  rtRules : list RuleTable;
}.

Record ListenerTable := mkListenerTable {
  liAddr : nat;
  liName : string;
  liHostname : string;
  liCert : option Certificate;
  liTerminate : bool;
  liClientCAs : option CertPool;
  liClientAuth : ClientAuthType;
  liRoutes : list RouteTable;
}.

Record PortTable := mkPortTable {
  ptGatewayUID : string;
  ptGatewayName : string;
  ptTLS : bool;
  ptTCP : bool;
  ptUDP : bool;
  ptTLSPassthrough : bool;
  ptProxyProtocol : bool;
  ptListeners : list ListenerTable;
  ptTrust : option clientip.Trust;
}.

Record Tables := mkTables {
  tByPort : gmap Z PortTable;
  tBackends : gset string;
}.

Definition EmptyTables : Tables := mkTables ∅ ∅.
Definition Port (t : Tables) (port : Z) : option PortTable := tByPort t !! port.

Record GatewayTable := mkGatewayTable {
  gtGeneration : string;
  gtByPort : gmap Z PortTable;
  gtNamespaces : gset string;
}.

Definition Key (r : RouteTable) : string := rtNamespace r +:+ "/" +:+ rtName r.

(** [Tables.ClientIP]. *)
Definition ClientIP (t : Tables) (port : Z) (r : Request) : string * bool :=
  let trust := match Port t port with Some table => ptTrust table | None => None end in
  clientip.Resolve trust (rqRemoteAddr r) (rqHeader r).

Definition TrustsPeer (t : Tables) (port : Z) (addr : Addr) : bool :=
  match Port t port with
  | None => false
  | Some table => clientip.Contains (ptTrust table) addr
  end.

Record PortSpec := mkPortSpec {
  psTLS : bool;
  psTCP : bool;
  psUDP : bool;
  psTLSPassthrough : bool;
  psProxyProtocol : bool;
}.

#[global] Instance PortSpec_eq_dec : EqDecision PortSpec.
Proof. solve_decision. Defined.

Definition port_spec (table : PortTable) : PortSpec :=
  mkPortSpec (ptTLS table) (ptTCP table) (ptUDP table) (ptTLSPassthrough table)
    (ptProxyProtocol table).
Definition Ports (t : Tables) : gmap Z PortSpec := port_spec <$> tByPort t.
Definition Backends (t : Tables) : gset string := tBackends t.

(** The methods that accept a nil listener. *)
Definition ClientValidation (l : option ListenerTable) : option CertPool * ClientAuthType :=
  match l with None => (None, NoClientCert) | Some l => (liClientCAs l, liClientAuth l) end.
Definition ListenerCertificate (l : option ListenerTable) : option Certificate := l ≫= liCert.

(** [RuleTable.Timeout]: the effective deadline, zero for none. *)
Definition Timeout (r : RuleTable) : Z :=
  if (ruRequestTimeout r =? 0)%Z then ruBackendTimeout r
  else if ((ruBackendTimeout r =? 0) || (ruRequestTimeout r <? ruBackendTimeout r))%Z
  then ruRequestTimeout r
  else ruBackendTimeout r.

(** ** Endpoints *)

Record ServicePort := mkServicePort { spName : string; spPort : Z }.
Record Service := mkService { svPorts : list ServicePort }.
Record EndpointPort := mkEndpointPort { epName : option string; epPort : option Z }.
Record SliceEndpoint := mkSliceEndpoint {
  seAddresses : list string;
  seReady : option bool;
  seTerminating : option bool;
}.
Record EndpointSlice := mkEndpointSlice {
  slAddressType : string;
  slPorts : list EndpointPort;
  slEndpoints : list SliceEndpoint;
}.

Record EndpointsIndex := mkEndpointsIndex {
  eiServices : gmap string Service;
  eiSlices : gmap string (list EndpointSlice);
}.
Definition NewEndpointsIndex : EndpointsIndex := mkEndpointsIndex ∅ ∅.

Record Endpoint := mkEndpoint { enAddress : string; enPort : Z }.

#[global] Instance Endpoint_eq_dec : EqDecision Endpoint.
Proof. solve_decision. Defined.

(** ** Counters

    The [atomic.Int64] of a rule or backend; an absent entry is the zero
    value.  [fetch_add] is [counter.Add(1)-1]. *)

Abbreviation Store := (gmap nat Z).
Definition counter (s : Store) (addr : nat) : Z := default 0%Z (s !! addr).
Definition fetch_add (s : Store) (addr : nat) : Z * Store :=
  let v := int64_wrap (counter s addr + 1) in
  (int64_wrap (v - 1), <[addr := v]> s).

Lemma fetch_add_small s addr :
  (0 ≤ counter s addr < 2 ^ 63 - 1)%Z →
  fetch_add s addr = (counter s addr, <[addr := (counter s addr + 1)%Z]> s).
Proof.
  intros. unfold fetch_add. rewrite (int64_wrap_id (counter s addr + 1)) by lia.
  rewrite int64_wrap_id by lia. f_equal. lia.
Qed.

Lemma counter_insert s addr v : counter (<[addr := v]> s) addr = v.
Proof. unfold counter. by rewrite lookup_insert_eq. Qed.

(** ** Published state

    [routing.State]: each [snapshot.Store] holds the latest published
    value. *)

Record GatewayStatus := mkGatewayStatus {
  gsDesiredGeneration : string;
  gsAppliedGeneration : string;
  gsLastError : option string;
}.

Record State := mkState {
  stTables : Tables;
  stStatuses : gmap string GatewayStatus;
  stEndpoints : EndpointsIndex;
}.
Definition NewState : State := mkState EmptyTables ∅ NewEndpointsIndex.

(** ** Properties *)

(** The deadline of a rule is the smaller of its timeouts that are set. *)
Theorem timeout_is_tightest r :
  (0 ≤ ruRequestTimeout r)%Z → (0 ≤ ruBackendTimeout r)%Z →
  (Timeout r = 0%Z ↔ ruRequestTimeout r = 0%Z ∧ ruBackendTimeout r = 0%Z) ∧
  (∀ d, d = ruRequestTimeout r ∨ d = ruBackendTimeout r → (0 < d)%Z → (0 < Timeout r ≤ d)%Z).
Proof.
  intros H1 H2. unfold Timeout.
  destruct (Z.eqb_spec (ruRequestTimeout r) 0), (Z.eqb_spec (ruBackendTimeout r) 0),
    (Z.ltb_spec (ruRequestTimeout r) (ruBackendTimeout r)); simpl; split; lia.
Qed.

End routing.
