(* ===== verification/Matching.v ===== *)
(** * Request matching

    Models the matching half of
    [internal/lib/transports/http/routing/match.go] and the request
    detection of [internal/lib/transports/grpc/grpc.go]: hostname and path
    predicates, the precedence order of the Gateway API, the search for the
    rule serving a request, listener ownership and certificate selection.

    The search keeps the best candidate of three nested loops; the
    abstract specification is the list of candidates the Gateway API
    defines and the order [beats] on their scores.  The refinement lemma
    [match_select] says the loops compute the first best candidate. *)

From S2P Require Import Prelude GoStrings Http Compiled Tables.
From stdpp Require Import options.

#[local] Open Scope nat_scope.
Import routing.

Module matching.

(** ** gRPC detection *)

(** [grpc.IsRequest]. *)
Definition IsRequest (r : Request) : bool :=
  hasPrefix (hGet (rqHeader r) "Content-Type") "application/grpc".

(** ** Hostnames *)

(** [hostnameScore]: exact beats wildcard beats none, longer beats shorter. *)
Definition hostnameScore (hostname : string) : Z :=
  if (hostname == "") then 0
  else if hasPrefix hostname "*." then Z.of_nat (len hostname)
  else (2 ^ 16 + Z.of_nat (len hostname))%Z.

Definition hostnameSpecificity (hostname : string) : Z :=
  if (hostname == "") then 0
  else if hasPrefix hostname "*." then 1
  else 2.

Definition hostnameMatches (pattern host : string) : bool :=
  if (pattern == "") then true
  else if hasPrefix pattern "*." then
    let suffix := sdrop 1 pattern in
    (len suffix <? len host) && hasSuffix host suffix
  else equalFold pattern host.

Definition routeHostnameMatches (hostnames : list string) (host : string) : bool :=
  if (length hostnames =? 0) then true
  else existsb (λ pattern, hostnameMatches pattern host) hostnames.

Definition routeHostnameScore (listener : ListenerTable) (route : RouteTable) (host : string) : Z :=
  if (length (rtHostnames route) =? 0) then hostnameScore (liHostname listener)
  else fold_left (λ best pattern,
         if negb (hostnameMatches pattern host) then best
         else if (best <? hostnameScore pattern)%Z then hostnameScore pattern else best)
       (rtHostnames route) 0%Z.

(** ** Rule matches *)

Definition pathPrefixMatches (prefix path : string) : bool :=
  let prefix := trimSuffix prefix "/" in
  if (prefix == "") then true
  else if negb (hasPrefix path prefix) then false
  else (len path =? len prefix) || (byte_at (len prefix) path == Some "/"%char).

Definition header_applies (h : Header) (m : compiled.HeaderMatch) : bool :=
  (hGet h (compiled.hmName m) == compiled.hmValue m).

(** Only the first value of a repeated parameter is considered. *)
Definition query_applies (query : gmap string (list string)) (m : compiled.QueryParamMatch) : bool :=
  match query !! compiled.qmName m with
  | Some (v :: _) => (v == compiled.qmValue m)
  | _ => false
  end.

Definition path_applies (m : compiled.Match) (path : string) : bool :=
  if (compiled.mPathType m == "") || (compiled.mPathType m == "PathPrefix") then
    (compiled.mPathValue m == "") || pathPrefixMatches (compiled.mPathValue m) path
  else if (compiled.mPathType m == "Exact") then (path == compiled.mPathValue m)
  else false.

Definition matchApplies (m : compiled.Match) (r : Request) : bool :=
  if negb (path_applies m (rqPath r)) then false
  else if (compiled.mMethod m != "") && (rqMethod r != compiled.mMethod m) then false
  else if negb (forallb (header_applies (rqHeader r)) (compiled.mHeaders m)) then false
  else (length (compiled.mQueryParams m) =? 0) ||
       forallb (query_applies (parseQuery (rqRawQuery r))) (compiled.mQueryParams m).

Definition pathScore (m : compiled.Match) : Z :=
  if (compiled.mPathType m == "Exact") then (2 ^ 16 + Z.of_nat (len (compiled.mPathValue m)))%Z
  else if (compiled.mPathType m == "") || (compiled.mPathType m == "PathPrefix") then
    Z.of_nat (len (trimSuffix (compiled.mPathValue m) "/"))
  else 0.

(** ** Scores *)

Record ruleSpecificity := mkSpecificity {
  rsPath : Z;
  rsMethod : Z;
  rsHeaders : Z;
  rsQueryParams : Z;
}.

#[global] Instance ruleSpecificity_eq_dec : EqDecision ruleSpecificity.
Proof. solve_decision. Defined.

Definition zeroSpecificity : ruleSpecificity := mkSpecificity 0 0 0 0.

Definition specificity_beats (s other : ruleSpecificity) : bool :=
  if negb (rsPath s =? rsPath other)%Z then (rsPath other <? rsPath s)%Z
  else if negb (rsMethod s =? rsMethod other)%Z then (rsMethod other <? rsMethod s)%Z
  else if negb (rsHeaders s =? rsHeaders other)%Z then (rsHeaders other <? rsHeaders s)%Z
  else (rsQueryParams other <? rsQueryParams s)%Z.

Record matchScore := mkScore {
  msListenerHostname : Z;
  msRouteHostname : Z;
  msSpecificity : ruleSpecificity;
  msCreated : Z;
  msName : string;
}.

#[global] Instance matchScore_eq_dec : EqDecision matchScore.
Proof. solve_decision. Defined.

Definition beats (s other : matchScore) : bool :=
  if negb (msListenerHostname s =? msListenerHostname other)%Z then
    (msListenerHostname other <? msListenerHostname s)%Z
  else if negb (msRouteHostname s =? msRouteHostname other)%Z then
    (msRouteHostname other <? msRouteHostname s)%Z
  else if (msSpecificity s != msSpecificity other) then
    specificity_beats (msSpecificity s) (msSpecificity other)
  else if negb (msCreated s =? msCreated other)%Z then (msCreated s <? msCreated other)%Z
  else sless (msName s) (msName other).

Definition match_specificity (m : compiled.Match) : ruleSpecificity :=
  mkSpecificity (pathScore m) (if (compiled.mMethod m != "") then 1 else 0)
    (Z.of_nat (length (compiled.mHeaders m))) (Z.of_nat (length (compiled.mQueryParams m))).

(** [ruleBestMatch]: does the rule match, and how specifically at best. *)
Definition ruleBestMatch (rule : RuleTable) (r : Request) : bool * ruleSpecificity :=
  if (length (ruMatches rule) =? 0) then (true, zeroSpecificity)
  else fold_left (λ acc m,
         let '(matched, best) := acc in
         if negb (matchApplies m r) then acc
         else
           let specificity := match_specificity m in
           (true, if negb matched || specificity_beats specificity best
                  then specificity else best))
       (ruMatches rule) (false, zeroSpecificity).

(** ** The search *)

Definition Triple := (RuleTable * ListenerTable * RouteTable)%type.

Definition rule_score (listener : ListenerTable) (route : RouteTable) (host : string)
    (s : ruleSpecificity) : matchScore :=
  mkScore (hostnameScore (liHostname listener)) (routeHostnameScore listener route host)
    s (rtCreated route) (Key route).

(** The score of the most specific listener owning the host; [-1] if none. *)
Definition winning_score (listeners : list ListenerTable) (host : string) : Z :=
  fold_left (λ winning listener,
    if negb (hostnameMatches (liHostname listener) host) then winning
    else let score := hostnameScore (liHostname listener) in
         if (winning <? score)%Z then score else winning) listeners (-1)%Z.

Definition match_ (t : Tables) (port : Z) (host : string) (r : Request) (wantGRPC : bool) :
    option Triple :=
  table ← Port t port;
  let winning := winning_score (ptListeners table) host in
  let best :=
    fold_left (λ best listener,
      if negb (hostnameMatches (liHostname listener) host) ||
         negb (hostnameScore (liHostname listener) =? winning)%Z then best
      else fold_left (λ best route,
        if negb (routeHostnameMatches (rtHostnames route) host) then best
        else fold_left (λ best rule,
          if negb (eqb (ruGRPC rule) wantGRPC) then best
          else
            let '(matched, specificity) := ruleBestMatch rule r in
            if negb matched then best
            else better beats best ((rule, listener, route),
                                    rule_score listener route host specificity))
          (rtRules route) best)
        (liRoutes listener) best)
      (ptListeners table) None in
  fst <$> best.

(** [Tables.Match]: gRPC requests prefer GRPCRoute rules. *)
Definition Match (t : Tables) (port : Z) (host : string) (r : Request) : option Triple :=
  match (if IsRequest r then match_ t port host r true else None) with
  | Some found => Some found
  | None => match_ t port host r false
  end.

(** ** Listener ownership and certificates *)

Definition bestListenerFor (table : PortTable) (host : string) : option ListenerTable :=
  fst (fold_left (λ acc listener,
    let '(best, bestScore) := acc in
    if negb (hostnameMatches (liHostname listener) host) then acc
    else let score := hostnameScore (liHostname listener) in
         if (bestScore <? score)%Z then (Some listener, score) else acc)
    (ptListeners table) (None, (-1)%Z)).

(** [Tables.Misdirected]; listeners are compared by identity. *)
Definition Misdirected (t : Tables) (port : Z) (serverName host : string) : bool :=
  match Port t port with
  | None => false
  | Some table =>
      match bestListenerFor table serverName with
      | None => false
      | Some selected =>
          (liAddr <$> bestListenerFor table host) != Some (liAddr selected)
      end
  end.

(** [Tables.CertificateFor]: the first certificate whose hostname matches,
    else the first certificate. *)
Fixpoint certificate_scan (listeners : list ListenerTable) (serverName : string)
    (fallback : option ListenerTable) : option ListenerTable :=
  match listeners with
  | [] => fallback
  | lst :: rest =>
      if bool_decide (liCert lst = None) then certificate_scan rest serverName fallback
      else
        let fallback := match fallback with None => Some lst | Some f => Some f end in
        if (serverName != "") && hostnameMatches (liHostname lst) serverName then Some lst
        else certificate_scan rest serverName fallback
  end.

Definition CertificateFor (t : Tables) (port : Z) (serverName : string) : option ListenerTable :=
  table ← Port t port; certificate_scan (ptListeners table) serverName None.

(** ** Reserved authentication endpoints *)

Definition intercepts (path : string) (e : Enforcer) : bool :=
  (path == PathPrefix e) || hasPrefix path (PathPrefix e +:+ "/").

(** One rule of the loop: the enforcers found and the identities seen. *)
Definition auth_step (path : string) (acc : list Enforcer * gset string) (rule : RuleTable) :
    list Enforcer * gset string :=
  match ruAuthEnforcer rule with
  | None => acc
  | Some enforcer =>
      if negb (HasCookieProvider enforcer) then acc
      else if bool_decide (Identity enforcer ∈ acc.2) then acc
      else if negb (intercepts path enforcer) then acc
      else (acc.1 ++ [enforcer], {[Identity enforcer]} ∪ acc.2)
  end.

Definition AuthEndpoint (t : Tables) (port : Z) (host path : string) : list Enforcer :=
  match Port t port with
  | None => []
  | Some table =>
      fst (fold_left (λ acc listener,
        if negb (hostnameMatches (liHostname listener) host) then acc
        else fold_left (λ acc route,
          if negb (routeHostnameMatches (rtHostnames route) host) then acc
          else fold_left (auth_step path) (rtRules route) acc)
          (liRoutes listener) acc)
        (ptListeners table) ([], ∅))
  end.

(** ** The precedence order *)

Lemma specificity_beats_lex s t :
  lex (λ a b, rsPath b <? rsPath a)%Z
    (lex (λ a b, rsMethod b <? rsMethod a)%Z
      (lex (λ a b, rsHeaders b <? rsHeaders a)%Z
        (λ a b, rsQueryParams b <? rsQueryParams a)%Z)) s t = specificity_beats s t.
Proof.
  unfold lex, specificity_beats.
  destruct (Z.eqb_spec (rsPath s) (rsPath t)), (Z.eqb_spec (rsMethod s) (rsMethod t)),
    (Z.eqb_spec (rsHeaders s) (rsHeaders t)); simpl; lia.
Qed.

#[global] Instance specificity_strict : StrictWeak specificity_beats.
Proof.
  eapply strict_weak_ext; [apply specificity_beats_lex|].
  repeat apply lex_strict;
    [apply (strict_weak_proj rsPath (λ a b, b <? a)%Z)
    |apply (strict_weak_proj rsMethod (λ a b, b <? a)%Z)
    |apply (strict_weak_proj rsHeaders (λ a b, b <? a)%Z)
    |apply (strict_weak_proj rsQueryParams (λ a b, b <? a)%Z)]; apply _.
Qed.

Lemma specificity_trichotomy s t :
  specificity_beats s t = false → specificity_beats t s = false → s = t.
Proof.
  unfold specificity_beats. rewrite !(Z.eqb_sym (rsPath t)), !(Z.eqb_sym (rsMethod t)),
    !(Z.eqb_sym (rsHeaders t)).
  destruct s, t; simpl. repeat (case_match; simpl in *; try lia); intros; f_equal; lia.
Qed.

Lemma beats_lex s t :
  lex (λ a b, msListenerHostname b <? msListenerHostname a)%Z
    (lex (λ a b, msRouteHostname b <? msRouteHostname a)%Z
      (lex (λ a b, specificity_beats (msSpecificity a) (msSpecificity b))
        (lex (λ a b, msCreated a <? msCreated b)%Z
          (λ a b, sless (msName a) (msName b))))) s t = beats s t.
Proof.
  unfold beats.
  destruct (Z.eqb_spec (msListenerHostname s) (msListenerHostname t)); unfold lex at 1; simpl.
  2:{ destruct (Z.ltb_spec (msListenerHostname t) (msListenerHostname s)),
        (Z.ltb_spec (msListenerHostname s) (msListenerHostname t)); simpl; try done; lia. }
  rewrite e, Z.ltb_irrefl; simpl.
  destruct (Z.eqb_spec (msRouteHostname s) (msRouteHostname t)); unfold lex at 1; simpl.
  2:{ destruct (Z.ltb_spec (msRouteHostname t) (msRouteHostname s)),
        (Z.ltb_spec (msRouteHostname s) (msRouteHostname t)); simpl; try done; lia. }
  rewrite e0, Z.ltb_irrefl; simpl. unfold lex at 1; simpl. case_bool_decide as Hs; simpl.
  2:{ destruct (specificity_beats (msSpecificity s) (msSpecificity t)) eqn:E1; [done|].
      destruct (specificity_beats (msSpecificity t) (msSpecificity s)) eqn:E2; [done|].
      by destruct Hs; apply specificity_trichotomy. }
  rewrite Hs, (beats_irrefl specificity_beats). simpl. unfold lex.
  destruct (Z.eqb_spec (msCreated s) (msCreated t)); simpl.
  - rewrite e1, Z.ltb_irrefl. done.
  - destruct (Z.ltb_spec (msCreated s) (msCreated t)),
      (Z.ltb_spec (msCreated t) (msCreated s)); simpl; try done; lia.
Qed.

#[global] Instance beats_strict : StrictWeak beats.
Proof.
  eapply strict_weak_ext; [apply beats_lex|].
  repeat apply lex_strict;
    [apply (strict_weak_proj msListenerHostname (λ a b, b <? a)%Z)
    |apply (strict_weak_proj msRouteHostname (λ a b, b <? a)%Z)
    |apply (strict_weak_proj msSpecificity specificity_beats)
    |apply (strict_weak_proj msCreated Z.ltb)
    |apply (strict_weak_proj msName sless)]; apply _.
Qed.

(** Two scores neither of which beats the other are equal. *)
Lemma beats_trichotomy s t : beats s t = false → beats t s = false → s = t.
Proof.
  rewrite <-!beats_lex, !lex_false, !Z.ltb_lt, !Z.ltb_ge.
  intros (? & [?|(? & [?|(Hb & [Hb'|(? & [?|Hn])])])]) (? & [?|(? & [?|(Hc & [Hc'|(? & [?|Hm])])])]);
    try lia; try congruence.
  destruct s as [a b c d e], t as [a' b' c' d' e']; simpl in *.
  pose proof (specificity_trichotomy _ _ Hb Hc).
  destruct (sless_trichotomy e e') as [?|[?|?]]; try congruence. f_equal; auto; lia.
Qed.

(** ** What the loops compute *)

(** The applying matches of a rule, with their specificity. *)
Definition applying (rule : RuleTable) (r : Request) : list (compiled.Match * ruleSpecificity) :=
  (λ m, (m, match_specificity m)) <$> filter (λ m, matchApplies m r = true) (ruMatches rule).

Lemma ruleBestMatch_select rule r :
  ruMatches rule ≠ [] →
  ruleBestMatch rule r =
    match select specificity_beats (applying rule r) with
    | Some (_, s) => (true, s)
    | None => (false, zeroSpecificity)
    end.
Proof.
  intros Hne. unfold ruleBestMatch.
  destruct (Nat.eqb_spec (length (ruMatches rule)) 0) as [E|_];
    [by destruct (ruMatches rule)|].
  unfold applying, select.
  set (view := λ b : option (compiled.Match * ruleSpecificity),
    match b with Some (_, s) => (true, s) | None => (false, zeroSpecificity) end).
  change (false, zeroSpecificity) with (view None) at 1.
  generalize (@None (compiled.Match * ruleSpecificity)) as b. clear Hne.
  induction (ruMatches rule) as [|m ms IH]; intros b; [done|].
  rewrite filter_cons. simpl. destruct (matchApplies m r) eqn:Hm; simpl.
  - rewrite <-IH. f_equal. destruct b as [[m' s']|]; simpl; [|done].
    by destruct (specificity_beats _ _).
  - rewrite <-IH. by destruct (view b).
Qed.

(** A rule matches when it has no matches or one of them applies, and its
    specificity is that of an applying match no other applying match beats. *)
Lemma ruleBestMatch_spec rule r s :
  ruleBestMatch rule r = (true, s) →
  (ruMatches rule = [] ∧ s = zeroSpecificity) ∨
  (∃ m, m ∈ ruMatches rule ∧ matchApplies m r = true ∧ s = match_specificity m ∧
        ∀ m', m' ∈ ruMatches rule → matchApplies m' r = true →
              specificity_beats (match_specificity m') s = false).
Proof.
  destruct (decide (ruMatches rule = [])) as [He|Hne].
  { unfold ruleBestMatch. rewrite He. simpl. intros [= <-]. by left. }
  rewrite ruleBestMatch_select by done.
  destruct (select specificity_beats (applying rule r)) as [[m s']|] eqn:Hs; [|done].
  intros [= ->]. right.
  pose proof (select_elem _ _ _ Hs) as (m' & [= -> ->] & [??]%list_elem_of_filter)%list_elem_of_fmap.
  exists m'. do 3 (split; [done|]). intros m'' Hin Happ.
  apply (select_optimal specificity_beats _ _ (m'', match_specificity m'') Hs).
  apply list_elem_of_fmap. exists m''. split; [done|]. by apply list_elem_of_filter.
Qed.

Lemma ruleBestMatch_false rule r :
  (ruleBestMatch rule r).1 = false ↔
  ruMatches rule ≠ [] ∧ ∀ m, m ∈ ruMatches rule → matchApplies m r = false.
Proof.
  destruct (decide (ruMatches rule = [])) as [He|Hne].
  { unfold ruleBestMatch. rewrite He. simpl. naive_solver. }
  rewrite ruleBestMatch_select by done.
  destruct (select specificity_beats (applying rule r)) as [[m s']|] eqn:Hs; simpl.
  - pose proof (select_elem _ _ _ Hs) as (m' & [= -> ->] & [??]%list_elem_of_filter)%list_elem_of_fmap.
    split; [done|]. intros [_ H]. rewrite H in *; done.
  - apply select_None, fmap_nil_inv in Hs. split; [|done]. intros _. split; [done|].
    intros m Hm. apply not_true_iff_false. intros Ha.
    assert (m ∈ filter (λ m, matchApplies m r = true) (ruMatches rule)) as Hin
      by by apply list_elem_of_filter.
    rewrite Hs in Hin. by apply elem_of_nil in Hin.
Qed.

Lemma winning_score_spec listeners host :
  (∀ l, l ∈ listeners → hostnameMatches (liHostname l) host = true →
        (hostnameScore (liHostname l) ≤ winning_score listeners host)%Z) ∧
  (winning_score listeners host = (-1)%Z ∨
   ∃ l, l ∈ listeners ∧ hostnameMatches (liHostname l) host = true ∧
        hostnameScore (liHostname l) = winning_score listeners host).
Proof.
  unfold winning_score. induction listeners as [|l ls [IH1 IH2]] using rev_ind; simpl.
  { split; [by intros ? ?%elem_of_nil|by left]. }
  rewrite fold_left_app. simpl. set (w := fold_left _ ls _) in *.
  destruct (hostnameMatches (liHostname l) host) eqn:Hm; simpl.
  - destruct (Z.ltb_spec w (hostnameScore (liHostname l))).
    + split; [|right; exists l; set_solver].
      intros l' [Hl'| ->%list_elem_of_singleton]%elem_of_app Hm'; [|done].
      specialize (IH1 l' Hl' Hm'). lia.
    + split; [|set_solver].
      intros l' [Hl'| ->%list_elem_of_singleton]%elem_of_app Hm'; [auto|done].
  - split; [|set_solver].
    intros l' [Hl'| ->%list_elem_of_singleton]%elem_of_app Hm'; [auto|congruence].
Qed.

(** The candidates of the Gateway API precedence, in table order. *)
Definition rule_candidate (listener : ListenerTable) (route : RouteTable) (host : string)
    (r : Request) (g : bool) (rule : RuleTable) : list (Triple * matchScore) :=
  if eqb (ruGRPC rule) g then
    match ruleBestMatch rule r with
    | (true, s) => [((rule, listener, route), rule_score listener route host s)]
    | (false, _) => []
    end
  else [].

Definition candidates (table : PortTable) (host : string) (r : Request) (g : bool) :
    list (Triple * matchScore) :=
  ptListeners table ≫= λ listener,
    if hostnameMatches (liHostname listener) host &&
       (hostnameScore (liHostname listener) =? winning_score (ptListeners table) host)%Z
    then liRoutes listener ≫= λ route,
      if routeHostnameMatches (rtHostnames route) host
      then rtRules route ≫= rule_candidate listener route host r g
      else []
    else [].

(** The three loops compute the first best candidate. *)
Lemma match_select t port host r g :
  match_ t port host r g =
    table ← Port t port; fst <$> select beats (candidates table host r g).
Proof.
  unfold match_. destruct (Port t port) as [table|]; [|done]. cbn [mbind option_bind].
  f_equal. unfold select, candidates. rewrite <-fold_left_bind.
  apply fold_left_ext. intros best l _.
  destruct (hostnameMatches (liHostname l) host); [|done].
  destruct (_ =? _)%Z; [|done]. simpl. rewrite <-fold_left_bind.
  apply fold_left_ext. intros best' route _.
  destruct (routeHostnameMatches _ _); [|done]. simpl. rewrite <-fold_left_bind.
  apply fold_left_ext. intros best'' rule _. unfold rule_candidate.
  destruct (eqb (ruGRPC rule) g); [|done]. simpl.
  by destruct (ruleBestMatch rule r) as [[] s].
Qed.

(** Membership in the candidate list, spelled out. *)
Record Serves (table : PortTable) (host : string) (r : Request) (g : bool)
    (rule : RuleTable) (l : ListenerTable) (route : RouteTable) (s : ruleSpecificity) : Prop := {
  sv_listener : l ∈ ptListeners table;
  sv_hostname : hostnameMatches (liHostname l) host = true;
  sv_isolated : ∀ l', l' ∈ ptListeners table → hostnameMatches (liHostname l') host = true →
                      (hostnameScore (liHostname l') ≤ hostnameScore (liHostname l))%Z;
  sv_route : route ∈ liRoutes l;
  sv_route_hostname : routeHostnameMatches (rtHostnames route) host = true;
  sv_rule : rule ∈ rtRules route;
  sv_grpc : ruGRPC rule = g;
  sv_match : ruleBestMatch rule r = (true, s);
}.

Lemma isolated_winning table host l :
  l ∈ ptListeners table → hostnameMatches (liHostname l) host = true →
  ((hostnameScore (liHostname l) =? winning_score (ptListeners table) host)%Z = true ↔
   ∀ l', l' ∈ ptListeners table → hostnameMatches (liHostname l') host = true →
         (hostnameScore (liHostname l') ≤ hostnameScore (liHostname l))%Z).
Proof.
  intros Hl Hm. destruct (winning_score_spec (ptListeners table) host) as [H1 H2].
  rewrite Z.eqb_eq. split.
  - intros ->. done.
  - intros Hall. specialize (H1 l Hl Hm).
    destruct H2 as [H2|(l' & Hl' & Hm' & Heq)]; [|specialize (Hall l' Hl' Hm'); lia].
    assert (0 ≤ hostnameScore (liHostname l))%Z; [|lia].
    unfold hostnameScore. repeat case_match; lia.
Qed.

Lemma elem_of_candidates table host r g rule l route score :
  ((rule, l, route), score) ∈ candidates table host r g ↔
  ∃ s, Serves table host r g rule l route s ∧ score = rule_score l route host s.
Proof.
  unfold candidates. rewrite list_elem_of_bind. split.
  - intros (l' & Hin & Hl'). destruct (hostnameMatches (liHostname l') host) eqn:Hm;
      [|by apply elem_of_nil in Hin]. destruct (_ =? _)%Z eqn:Hw; [|by apply elem_of_nil in Hin].
    simpl in Hin. apply list_elem_of_bind in Hin as (route' & Hin & Hr').
    destruct (routeHostnameMatches _ _) eqn:Hrm; [|by apply elem_of_nil in Hin].
    apply list_elem_of_bind in Hin as (rule' & Hin & Hru). unfold rule_candidate in Hin.
    destruct (eqb (ruGRPC rule') g) eqn:Hg; [|by apply elem_of_nil in Hin].
    destruct (ruleBestMatch rule' r) as [[] s] eqn:Hb; [|by apply elem_of_nil in Hin].
    apply list_elem_of_singleton in Hin as [= -> -> -> ->].
    exists s. split; [|done]. split; try done; [by apply isolated_winning|by apply eqb_prop].
  - intros (s & [H1 H2 H3 H4 H5 H6 H7 H8] & ->). exists l. split; [|done].
    rewrite H2. rewrite (proj2 (isolated_winning table host l H1 H2) H3). simpl.
    apply list_elem_of_bind. exists route. rewrite H5. split; [|done].
    apply list_elem_of_bind. exists rule. split; [|done]. unfold rule_candidate.
    rewrite H7, eqb_reflx, H8. by apply list_elem_of_singleton.
Qed.

(** ** Hostname and path predicates *)

Lemma hasPrefix_star d : hasPrefix ("*." +:+ d) "*." = true.
Proof. apply hasPrefix_app. Qed.

(** A wildcard matches exactly the names with at least one more byte in
    front of its suffix. *)
Lemma wildcard_matches d host :
  hostnameMatches ("*." +:+ d) host = true ↔
  ∃ label, label ≠ "" ∧ host = label +:+ "." +:+ d.
Proof.
  unfold hostnameMatches. rewrite hasPrefix_star. rewrite bool_decide_eq_false_2 by done.
  change (sdrop 1 ("*." +:+ d)) with ("." +:+ d).
  rewrite andb_true_iff, Nat.ltb_lt, hasSuffix_spec. split.
  - intros [Hlen [t ->]]. exists t. split; [|done]. intros ->.
    rewrite app_empty_l in Hlen. lia.
  - intros (t & Ht & ->). split; [|by exists t]. rewrite (len_app t).
    destruct t; [done|simpl; lia].
Qed.

Lemma pathPrefix_trimmed prefix path p :
  trimSuffix prefix "/" = p → p ≠ "" →
  pathPrefixMatches prefix path = true ↔ path = p ∨ ∃ rest, path = p +:+ "/" +:+ rest.
Proof.
  intros Hp Hne. unfold pathPrefixMatches. rewrite Hp, bool_decide_eq_false_2 by done.
  destruct (hasPrefix path p) eqn:Hpre; simpl.
  - apply hasPrefix_spec in Hpre as [t ->].
    rewrite orb_true_iff, Nat.eqb_eq, bool_decide_eq_true, byte_at_app.
    rewrite len_app. split.
    + intros [Hl|Hb]; [left|right].
      * assert (t = "") as -> by (apply len_zero; lia). apply app_empty_r.
      * destruct t as [|c t]; simplify_eq/=. exists t. done.
    + intros [He|[rest He]].
      * left. apply (f_equal len) in He. rewrite len_app in He. lia.
      * right. apply (sapp_inj p) in He. by subst t.
  - split; [done|]. apply not_true_iff_false in Hpre. intros [->|[rest ->]]; destruct Hpre.
    + apply hasPrefix_spec. exists "". by rewrite app_empty_r.
    + apply hasPrefix_app.
Qed.

(** ** Ownership *)

(** The listeners whose hostname matches, with their score. *)
Definition owners (listeners : list ListenerTable) (host : string) : list (ListenerTable * Z) :=
  (λ l, (l, hostnameScore (liHostname l))) <$>
    filter (λ l, hostnameMatches (liHostname l) host = true) listeners.

Lemma hostnameScore_nonneg h : (0 ≤ hostnameScore h)%Z.
Proof. unfold hostnameScore. repeat case_match; lia. Qed.

Lemma bestListenerFor_select table host :
  bestListenerFor table host =
    fst <$> select (λ a b, (b <? a)%Z) (owners (ptListeners table) host).
Proof.
  unfold bestListenerFor, select, owners.
  set (view := λ b : option (ListenerTable * Z),
    match b with Some (l, s) => (Some l, s) | None => (None, (-1)%Z) end).
  change (None, (-1)%Z) with (view None).
  transitivity (fst (view (fold_left (better (λ a b, (b <? a)%Z))
    (owners (ptListeners table) host) None))); [|by destruct (fold_left _ _ None) as [[]|]].
  f_equal. unfold owners. generalize (@None (ListenerTable * Z)) as b.
  induction (ptListeners table) as [|l ls IH]; intros b; [done|].
  rewrite filter_cons. simpl. destruct (hostnameMatches (liHostname l) host); simpl.
  - rewrite <-IH. f_equal. destruct b as [[l' s']|]; simpl.
    + by destruct (_ <? _)%Z.
    + pose proof (hostnameScore_nonneg (liHostname l)).
      by destruct (Z.ltb_spec (-1) (hostnameScore (liHostname l))); [|lia].
  - rewrite <-IH. by destruct (view b).
Qed.

(** The owner of a host matches it and no matching listener is more
    specific. *)
Lemma bestListenerFor_spec table host l :
  bestListenerFor table host = Some l →
  l ∈ ptListeners table ∧ hostnameMatches (liHostname l) host = true ∧
  ∀ l', l' ∈ ptListeners table → hostnameMatches (liHostname l') host = true →
        (hostnameScore (liHostname l') ≤ hostnameScore (liHostname l))%Z.
Proof.
  rewrite bestListenerFor_select.
  destruct (select _ _) as [[l0 s]|] eqn:Hs; [|done]. intros [= ->].
  pose proof (select_elem _ _ _ Hs)
    as (l' & [= -> ->] & [Hm Hin]%list_elem_of_filter)%list_elem_of_fmap.
  do 2 (split; [done|]). intros l'' Hl'' Hm''.
  assert ((l'', hostnameScore (liHostname l'')) ∈ owners (ptListeners table) host) as Ho.
  { apply list_elem_of_fmap. exists l''. split; [done|]. by apply list_elem_of_filter. }
  pose proof (select_optimal (λ a b, (b <? a)%Z) _ _ _ Hs Ho) as Hle.
  apply Z.ltb_ge in Hle. done.
Qed.

(** *** Certificates *)

Lemma certificate_scan_spec listeners sn fb l :
  certificate_scan listeners sn fb = Some l →
  (fb = Some l ∨ (l ∈ listeners ∧ liCert l ≠ None)) ∧
  (sn ≠ "" →
   (∃ l', l' ∈ listeners ∧ liCert l' ≠ None ∧ hostnameMatches (liHostname l') sn = true) →
   l ∈ listeners ∧ hostnameMatches (liHostname l) sn = true).
Proof.
  revert fb. induction listeners as [|x xs IH]; intros fb; simpl.
  { intros ->. split; [by left|]. by intros _ (? & ?%elem_of_nil & _). }
  case_bool_decide as Hc.
  { intros [H1 H2]%IH. split; [set_solver|]. intros Hne (l' & [->|?]%elem_of_cons & ? & ?); [done|].
    destruct H2; [done|eauto|]. split; [by right|done]. }
  destruct (hostnameMatches (liHostname x) sn) eqn:Hm, (bool_decide_reflect (sn = ""));
    cbn [negb andb].
  1,3,4: intros [H1 H2]%IH; split; [destruct fb; set_solver|].
  - done.
  - done.
  - intros Hne (l' & [->|?]%elem_of_cons & ? & ?); [congruence|].
    destruct H2; [done|eauto|]. split; [by right|done].
  - intros [= ->]. split; [right; split; [left|done]|]. intros _ _. split; [left|done].
Qed.

Lemma certificate_scan_None listeners sn :
  certificate_scan listeners sn None = None ↔ ∀ l, l ∈ listeners → liCert l = None.
Proof.
  assert (∀ ls l0, is_Some (certificate_scan ls sn (Some l0))) as Hsome.
  { induction ls as [|x xs IH]; intros l0; simpl; [eauto|]. repeat case_match; eauto. }
  induction listeners as [|x xs IH]; simpl; [split; [by intros _ ? ?%elem_of_nil|done]|].
  case_bool_decide as Hc.
  - rewrite IH. set_solver.
  - split; [|intros H; destruct Hc; apply H; left].
    destruct (_ && _); [done|]. intros Hn. destruct (Hsome xs x); congruence.
Qed.

(** *** Authentication endpoints *)

(** The rules reachable for a host, in table order. *)
Definition host_rules (table : PortTable) (host : string) : list RuleTable :=
  ptListeners table ≫= λ listener,
    if hostnameMatches (liHostname listener) host
    then liRoutes listener ≫= λ route,
      if routeHostnameMatches (rtHostnames route) host then rtRules route else []
    else [].

Lemma AuthEndpoint_rules t port host path table :
  Port t port = Some table →
  AuthEndpoint t port host path = fst (fold_left (auth_step path) (host_rules table host) ([], ∅)).
Proof.
  intros Ht. unfold AuthEndpoint, host_rules. rewrite Ht, <-fold_left_bind. f_equal.
  apply fold_left_ext. intros acc l _. destruct (hostnameMatches _ _); [|done]. simpl.
  rewrite <-fold_left_bind. apply fold_left_ext. intros acc' route _.
  by destruct (routeHostnameMatches _ _).
Qed.

(** An enforcer the path belongs to. *)
Definition answers (path : string) (e : Enforcer) : Prop :=
  HasCookieProvider e = true ∧ (path = PathPrefix e ∨ ∃ rest, path = PathPrefix e +:+ "/" +:+ rest).

Lemma answers_iff path e : answers path e ↔ HasCookieProvider e = true ∧ intercepts path e = true.
Proof.
  unfold answers, intercepts. rewrite orb_true_iff, bool_decide_eq_true, hasPrefix_spec.
  by setoid_rewrite <-sapp_assoc.
Qed.

Lemma auth_fold_spec path rules acc :
  (∀ i, i ∈ acc.2 ↔ i ∈ (Identity <$> acc.1)) → NoDup (Identity <$> acc.1) →
  let out := fold_left (auth_step path) rules acc in
  NoDup (Identity <$> out.1) ∧
  (∀ e, e ∈ out.1 → e ∈ acc.1 ∨
        (answers path e ∧ ∃ rule, rule ∈ rules ∧ ruAuthEnforcer rule = Some e)) ∧
  (∀ i, i ∈ (Identity <$> acc.1) → i ∈ (Identity <$> out.1)) ∧
  (∀ rule e, rule ∈ rules → ruAuthEnforcer rule = Some e → answers path e →
        Identity e ∈ (Identity <$> out.1)).
Proof.
  revert acc. induction rules as [|rule rules IH]; intros acc Hset Hnd; simpl.
  { split; [done|]. split; [auto|]. split; [auto|]. by intros ? ? ?%elem_of_nil. }
  assert (∀ e, ruAuthEnforcer rule = Some e → answers path e →
               Identity e ∈ (Identity <$> (auth_step path acc rule).1)) as Hnew.
  { intros e He [Ha Hb]%answers_iff. unfold auth_step. rewrite He, Ha, Hb. simpl.
    case_bool_decide as Hi; simpl; [by apply Hset|]. rewrite fmap_app. set_solver. }
  assert ((∀ i, i ∈ (auth_step path acc rule).2 ↔ i ∈ (Identity <$> (auth_step path acc rule).1)) ∧
          NoDup (Identity <$> (auth_step path acc rule).1) ∧
          (∀ e, e ∈ (auth_step path acc rule).1 → e ∈ acc.1 ∨
             (answers path e ∧ ruAuthEnforcer rule = Some e)) ∧
          (∀ i, i ∈ (Identity <$> acc.1) → i ∈ (Identity <$> (auth_step path acc rule).1)))
    as (S1 & S2 & S3 & S4).
  { setoid_rewrite answers_iff. unfold auth_step. destruct (ruAuthEnforcer rule) as [e|]; [|by eauto].
    destruct (HasCookieProvider e) eqn:Hc; simpl; [|by eauto].
    case_bool_decide as Hi; simpl; [by eauto|].
    destruct (intercepts path e) eqn:Hp; simpl; [|by eauto].
    rewrite fmap_app. split; [intros i; set_solver|]. split; [|set_solver].
    apply list.NoDup_app. split; [done|]. rewrite Hset in Hi.
    split; [set_solver|apply NoDup_singleton]. }
  destruct (IH _ S1 S2) as (I1 & I2 & I3 & I4). split; [done|].
  split; [|split; [auto|]].
  - intros e [He|(Ha & rule' & ? & ?)]%I2; [|right; split; [done|]; exists rule'; set_solver].
    apply S3 in He as [?|[? ?]]; [by left|right]. split; [done|]. exists rule. set_solver.
  - intros rule' e [->|Hr]%elem_of_cons He Ha; [auto|eauto].
Qed.

(** ** Properties *)

(** The score [Match] gives a serving rule. *)
Abbreviation score_of l route host s := (rule_score l route host s).

(** No other serving rule has a better score than the one a request is routed
    to. *)
Theorem match_optimal t port host r g rule l route :
  match_ t port host r g = Some (rule, l, route) →
  ∃ table s, Port t port = Some table ∧ Serves table host r g rule l route s ∧
    ∀ rule' l' route' s', Serves table host r g rule' l' route' s' →
      beats (score_of l' route' host s') (score_of l route host s) = false.
Proof.
  rewrite match_select. destruct (Port t port) as [table|]; [|done]. cbn [mbind option_bind].
  destruct (select beats _) as [[tr sc]|] eqn:Hs; [|done]. intros [= ->].
  pose proof (select_elem _ _ _ Hs) as (s & Hserve & ->)%elem_of_candidates.
  exists table, s. do 2 (split; [done|]). intros rule' l' route' s' Hserve'.
  apply (select_optimal beats _ _ ((rule', l', route'), score_of l' route' host s') Hs).
  apply elem_of_candidates. eauto.
Qed.

(** A port refuses a request exactly when no rule of any of its listeners serves
    it. *)
Theorem match_none t port host r g table :
  Port t port = Some table →
  match_ t port host r g = None ↔
  ¬ ∃ rule l route s, Serves table host r g rule l route s.
Proof.
  intros Ht. rewrite match_select, Ht. cbn [mbind option_bind].
  rewrite fmap_None, select_None. split.
  - intros Hc (rule & l & route & s & H).
    assert (((rule, l, route), score_of l route host s) ∈ candidates table host r g) as Hin
      by (apply elem_of_candidates; eauto).
    rewrite Hc in Hin. by apply elem_of_nil in Hin.
  - intros Hno. destruct (candidates table host r g) as [|[[[rule l] route] sc] cs] eqn:Hc; [done|].
    destruct Hno. assert (((rule, l, route), sc) ∈ candidates table host r g) as Hin
      by (rewrite Hc; left).
    apply elem_of_candidates in Hin as (s & ? & _). eauto 6.
Qed.

(** Membership in a table does not depend on the order of its lists. *)
Lemma serves_permutation table table' host r g rule l route s :
  ptListeners table ≡ₚ ptListeners table' →
  Serves table host r g rule l route s → Serves table' host r g rule l route s.
Proof.
  intros Hp [H1 H2 H3 H4 H5 H6 H7 H8]. split; auto; [by rewrite <-Hp|].
  intros l'. rewrite <-Hp. auto.
Qed.

(** Two ports holding the same listeners in different orders route a request to
    routes with one key and age under equally specific listeners: the outcome
    does not depend on the order of iteration. *)
Theorem match_order_independent t t' port host r g table table' rule l route rule' l' route' :
  Port t port = Some table → Port t' port = Some table' →
  ptListeners table ≡ₚ ptListeners table' →
  match_ t port host r g = Some (rule, l, route) →
  match_ t' port host r g = Some (rule', l', route') →
  hostnameScore (liHostname l) = hostnameScore (liHostname l') ∧
  rtCreated route = rtCreated route' ∧ Key route = Key route'.
Proof.
  intros Ht Ht' Hp H H'.
  rewrite match_select, Ht in H. rewrite match_select, Ht' in H'. cbn [mbind option_bind] in *.
  destruct (select beats (candidates table _ _ _)) as [[? sc]|] eqn:Hs; [|done].
  destruct (select beats (candidates table' _ _ _)) as [[? sc']|] eqn:Hs'; [|done].
  simplify_eq/=.
  pose proof (select_elem _ _ _ Hs) as (s & Hv & ->)%elem_of_candidates.
  pose proof (select_elem _ _ _ Hs') as (s' & Hv' & ->)%elem_of_candidates.
  assert (rule_score l route host s = rule_score l' route' host s') as Heq; [|by injection Heq].
  apply beats_trichotomy.
  - apply (select_optimal beats _ _ ((rule, l, route), rule_score l route host s) Hs').
    apply elem_of_candidates. eauto using serves_permutation.
  - apply (select_optimal beats _ _ ((rule', l', route'), rule_score l' route' host s') Hs).
    apply elem_of_candidates. symmetry in Hp. eauto using serves_permutation.
Qed.

(** A request that is not gRPC never reaches a gRPC rule, and a gRPC request
    reaches an HTTP rule only when no gRPC rule serves it. *)
Theorem match_grpc_preference t port host r rule l route :
  Match t port host r = Some (rule, l, route) →
  (IsRequest r = false → ruGRPC rule = false) ∧
  (ruGRPC rule = false → IsRequest r = true → match_ t port host r true = None).
Proof.
  assert (∀ g, match_ t port host r g = Some (rule, l, route) → ruGRPC rule = g) as Hg.
  { intros g. rewrite match_select. destruct (Port t port) as [table|]; [|done].
    cbn [mbind option_bind]. destruct (select beats _) as [[tr sc]|] eqn:Hs; [|done].
    intros [= ->]. apply select_elem, elem_of_candidates in Hs as (s & [] & _). done. }
  unfold Match. destruct (IsRequest r).
  - destruct (match_ t port host r true) as [found|] eqn:Ht; [|done].
    intros [= ->]. apply Hg in Ht. split; congruence.
  - intros H%Hg. split; done.
Qed.

(** Wildcard hostnames match one or more labels in front of the domain; path
    prefixes match whole segments. *)
Theorem host_and_path_predicates :
  (∀ d host, hostnameMatches ("*." +:+ d) host = true ↔
     ∃ label, label ≠ "" ∧ host = label +:+ "." +:+ d) ∧
  (∀ prefix path, pathPrefixMatches prefix path = true ↔
     trimSuffix prefix "/" = "" ∨ path = trimSuffix prefix "/" ∨
     ∃ rest, path = trimSuffix prefix "/" +:+ "/" +:+ rest).
Proof.
  split; [apply wildcard_matches|]. intros prefix path.
  destruct (decide (trimSuffix prefix "/" = "")) as [He|Hne].
  - unfold pathPrefixMatches. rewrite He, bool_decide_eq_true_2 by done. tauto.
  - rewrite pathPrefix_trimmed by done. tauto.
Qed.

(** When a connection is not misdirected, the listener its SNI selected covers
    the authority, and the request is served by a listener of the same hostname
    score. *)
Theorem not_misdirected_same_owner t port sn host r g table sel rule l route :
  Port t port = Some table → bestListenerFor table sn = Some sel →
  NoDup (liAddr <$> ptListeners table) →
  Misdirected t port sn host = false →
  match_ t port host r g = Some (rule, l, route) →
  hostnameMatches (liHostname sel) host = true ∧
  hostnameScore (liHostname l) = hostnameScore (liHostname sel).
Proof.
  intros Ht Hsel Hnd Hmis Hmatch. unfold Misdirected in Hmis. rewrite Ht, Hsel in Hmis.
  apply negb_false_iff, bool_decide_eq_true in Hmis.
  destruct (bestListenerFor table host) as [own|] eqn:Hown; [|done]. injection Hmis as Haddr.
  pose proof (bestListenerFor_spec _ _ _ Hsel) as (Hin & _).
  pose proof (bestListenerFor_spec _ _ _ Hown) as (Hin' & Hm' & Hbest).
  assert (own = sel) as ->.
  { apply list_elem_of_lookup in Hin as [i Hi], Hin' as [j Hj].
    assert (i = j) as ->; [|congruence].
    eapply NoDup_lookup; [exact Hnd|rewrite list_lookup_fmap, Hi; done|].
    rewrite list_lookup_fmap, Hj. simpl. by rewrite Haddr. }
  split; [done|]. rewrite match_select, Ht in Hmatch. cbn [mbind option_bind] in Hmatch.
  destruct (select beats _) as [[tr sc]|] eqn:Hs; [|done]. simplify_eq/=.
  apply select_elem, elem_of_candidates in Hs as (s & [] & _).
  apply Z.le_antisymm; auto.
Qed.

(** The certificate for an SNI value is of a listener covering it whenever one
    with a certificate does. *)
Theorem certificate_for_spec t port sn table :
  Port t port = Some table →
  (CertificateFor t port sn = None ↔ ∀ l, l ∈ ptListeners table → liCert l = None) ∧
  (∀ l, CertificateFor t port sn = Some l →
     l ∈ ptListeners table ∧ liCert l ≠ None ∧
     (sn ≠ "" →
      (∃ l', l' ∈ ptListeners table ∧ liCert l' ≠ None ∧
             hostnameMatches (liHostname l') sn = true) →
      hostnameMatches (liHostname l) sn = true)).
Proof.
  intros Ht. unfold CertificateFor. rewrite Ht. cbn [mbind option_bind].
  split; [apply certificate_scan_None|].
  intros l [H1 H2]%certificate_scan_spec. destruct H1 as [|[Hin Hc]]; [done|].
  split; [done|]. split; [done|]. intros Hne Hex. by destruct (H2 Hne Hex).
Qed.

(** The enforcers intercepting a reserved path are those of the rules serving
    the hostname that mint sessions and own the prefix, one per extension
    identity. *)
Theorem auth_endpoint_spec t port host path table :
  Port t port = Some table →
  NoDup (Identity <$> AuthEndpoint t port host path) ∧
  (∀ e, e ∈ AuthEndpoint t port host path →
     answers path e ∧ ∃ rule, rule ∈ host_rules table host ∧ ruAuthEnforcer rule = Some e) ∧
  (∀ rule e, rule ∈ host_rules table host → ruAuthEnforcer rule = Some e → answers path e →
     Identity e ∈ (Identity <$> AuthEndpoint t port host path)).
Proof.
  intros Ht. rewrite (AuthEndpoint_rules _ _ _ _ _ Ht).
  destruct (auth_fold_spec path (host_rules table host) ([], ∅)) as (H1 & H2 & _ & H4);
    [set_solver|constructor|].
  split; [done|]. split; [|done]. intros e [He|?]%H2; [by apply elem_of_nil in He|done].
Qed.

(** ** Concrete tables *)

Definition ex_backend (a : nat) (name : string) (w : Z) : BackendTable :=
  mkBackendTable a "default" name 80 w true false [] "" None false.
Definition ex_rule (a : nat) (ms : list compiled.Match) (bs : list BackendTable) (grpc : bool) :
    RuleTable :=
  mkRuleTable a ms [] bs [] None grpc 0 0
    (foldr (λ b n, bkWeight b + n)%Z 0%Z bs) None None None false.
Definition ex_route (name : string) (hosts : list string) (rules : list RuleTable) : RouteTable :=
  mkRouteTable "default" name hosts 100 rules.
Definition ex_listener (a : nat) (name host : string) (rts : list RouteTable) : ListenerTable :=
  mkListenerTable a name host (Some (mkCertificate name name)) false None NoClientCert rts.
Definition ex_port (ls : list ListenerTable) : PortTable :=
  mkPortTable "uid" "gw" true false false false false ls None.
Definition ex_tables (ls : list ListenerTable) : Tables := mkTables {[ 443%Z := ex_port ls ]} ∅.
Definition ex_match (kind path : string) : compiled.Match := compiled.mkMatch kind path "" [] [].
Definition ex_request (path : string) : Request :=
  mkRequest "GET" path "" "a.example.com" ∅ "192.0.2.1:4000" None None 0.

Definition ex_prefix_rule : RuleTable := ex_rule 1 [ex_match "PathPrefix" "/api"] [ex_backend 2 "b" 1] false.
Definition ex_exact_rule : RuleTable := ex_rule 3 [ex_match "Exact" "/api/x"] [ex_backend 4 "c" 1] false.
Definition ex_routes : RouteTable := ex_route "r" [] [ex_prefix_rule; ex_exact_rule].
Definition ex_wide : ListenerTable := ex_listener 10 "wide" "*.com" [ex_routes].
Definition ex_narrow : ListenerTable := ex_listener 11 "narrow" "*.example.com" [ex_routes].
Definition ex_t : Tables := ex_tables [ex_wide; ex_narrow].

(** The listener whose certificate answers a handshake need not be the listener
    that owns the name: certificates go by the coarse specificity order,
    ownership by the longest wildcard. *)
Theorem certificate_is_not_owner's :
  ∃ t port table sn l own,
    Port t port = Some table ∧
    sorted_by (λ x y, hostnameSpecificity (liHostname y) <? hostnameSpecificity (liHostname x))%Z
      (ptListeners table) ∧
    CertificateFor t port sn = Some l ∧ bestListenerFor table sn = Some own ∧
    liName l ≠ liName own.
Proof.
  exists ex_t, 443%Z, (ex_port [ex_wide; ex_narrow]), "a.example.com", ex_wide, ex_narrow.
  split; [reflexivity|]. split; [|split; [vm_compute; reflexivity|split; [vm_compute; reflexivity|done]]].
  repeat constructor.
Qed.

Lemma match_none_witness :
  ¬ ∃ rule l route s,
    Serves (ex_port [ex_wide; ex_narrow]) "a.example.com" (ex_request "/apix") false rule l route s.
Proof.
  apply (proj1 (match_none ex_t 443 "a.example.com" (ex_request "/apix") false
    (ex_port [ex_wide; ex_narrow]) eq_refl)). vm_compute; reflexivity.
Defined.

Lemma match_order_independent_witness :
  hostnameScore (liHostname ex_narrow) = hostnameScore (liHostname ex_narrow) ∧
  rtCreated ex_routes = rtCreated ex_routes ∧ Key ex_routes = Key ex_routes.
Proof.
  apply (match_order_independent ex_t (ex_tables [ex_narrow; ex_wide]) 443 "a.example.com"
    (ex_request "/api/x") false (ex_port [ex_wide; ex_narrow]) (ex_port [ex_narrow; ex_wide])
    ex_exact_rule ex_narrow ex_routes ex_exact_rule ex_narrow ex_routes);
    [reflexivity|reflexivity|constructor|vm_compute; reflexivity|vm_compute; reflexivity].
Defined.

Definition ex_grpc_rule : RuleTable := ex_rule 7 [] [ex_backend 2 "b" 1] true.
Definition ex_grpc_t : Tables :=
  ex_tables [ex_listener 10 "l" "" [ex_route "r" [] [ex_prefix_rule; ex_grpc_rule]]].

Lemma match_grpc_preference_witness :
  (IsRequest (ex_request "/api") = false → ruGRPC ex_prefix_rule = false) ∧
  (ruGRPC ex_prefix_rule = false → IsRequest (ex_request "/api") = true →
   match_ ex_grpc_t 443 "h" (ex_request "/api") true = None).
Proof.
  apply (match_grpc_preference ex_grpc_t 443 "h" (ex_request "/api") ex_prefix_rule
    (ex_listener 10 "l" "" [ex_route "r" [] [ex_prefix_rule; ex_grpc_rule]])
    (ex_route "r" [] [ex_prefix_rule; ex_grpc_rule])).
  vm_compute; reflexivity.
Defined.

Lemma not_misdirected_same_owner_witness :
  hostnameMatches (liHostname ex_narrow) "b.example.com" = true ∧
  hostnameScore (liHostname ex_narrow) = hostnameScore (liHostname ex_narrow).
Proof.
  apply (not_misdirected_same_owner ex_t 443 "a.example.com" "b.example.com"
    (ex_request "/api/x") false (ex_port [ex_wide; ex_narrow]) ex_narrow
    ex_exact_rule ex_narrow ex_routes);
    [reflexivity|vm_compute; reflexivity|apply (bool_decide_unpack _); vm_compute; exact I
    |vm_compute; reflexivity|vm_compute; reflexivity].
Defined.

Lemma certificate_for_spec_witness :
  liCert ex_narrow ≠ None ∧ CertificateFor ex_t 443 "" = Some ex_wide.
Proof.
  split; [|vm_compute; reflexivity].
  destruct (certificate_for_spec (ex_tables [ex_narrow; ex_wide]) 443 "a.example.com"
    (ex_port [ex_narrow; ex_wide]) eq_refl) as [_ H].
  apply (H ex_narrow). vm_compute; reflexivity.
Defined.

Definition ex_enforcer : Enforcer :=
  mkEnforcer (compiled.mkAuth "id1" "/.auth" None None None
    (Some (compiled.mkAuthLDAP "ldap://d" true "" "" "" "" "" "r" ∅ None "")) None []).
Definition ex_auth_rule (a : nat) : RuleTable :=
  mkRuleTable a [] [] [] [] None false 0 0 0 None None (Some ex_enforcer) false.
Definition ex_auth_t : Tables :=
  ex_tables [ex_listener 10 "l" "" [ex_route "r" [] [ex_auth_rule 1; ex_auth_rule 2]]].

Lemma auth_endpoint_spec_witness :
  AuthEndpoint ex_auth_t 443 "h" "/.auth/login" = [ex_enforcer] ∧
  AuthEndpoint ex_auth_t 443 "h" "/.authx" = [] ∧
  NoDup (Identity <$> AuthEndpoint ex_auth_t 443 "h" "/.auth/login").
Proof.
  split; [vm_compute; reflexivity|]. split; [vm_compute; reflexivity|].
  apply (auth_endpoint_spec ex_auth_t 443 "h" "/.auth/login"
    (ex_port [ex_listener 10 "l" "" [ex_route "r" [] [ex_auth_rule 1; ex_auth_rule 2]]]) eq_refl).
Defined.

End matching.
