(* ===== verification/Precedence.v ===== *)
(** * The precedence of routing rules

    An order on serving rules written from the Gateway API precedence that
    [docs/spec/traffic.md] and the comments of
    [internal/lib/transports/http/routing/match.go] give, without the scores
    the code computes: the hostname a route matched under, the path, the
    method, the number of headers and of query parameters, the age and the name
    of the route.  The search of [Matching] is proved to find the rule this
    order puts first.

    The code folds an exact name or path and its length into one integer with
    an offset of [2^16], so names and paths are below that length here;
    Kubernetes admits 253 and 1024 bytes. *)

From S2P Require Import Prelude GoStrings Http Compiled Tables Matching.
From stdpp Require Import options.

#[local] Open Scope nat_scope.
Import routing matching.

Module precedence.

(** ** The order *)

(** No hostname, a wildcard, an exact name. *)
Definition host_kind (h : string) : nat :=
  if decide (h = "") then 0 else if hasPrefix h "*." then 1 else 2.

Definition host_above (a b : string) : Prop :=
  host_kind b < host_kind a ∨ (host_kind a = host_kind b ∧ len b < len a).
Definition host_level (a b : string) : Prop := host_kind a = host_kind b ∧ len a = len b.

Definition exact (m : compiled.Match) : Prop := compiled.mPathType m = "Exact".

(** The length a path counts with: a prefix does not count its final slash. *)
Definition path_length (m : compiled.Match) : nat :=
  if decide (exact m) then len (compiled.mPathValue m) else len (trimSuffix (compiled.mPathValue m) "/").

Definition path_above (a b : compiled.Match) : Prop :=
  (exact a ∧ ¬ exact b) ∨ ((exact a ↔ exact b) ∧ path_length b < path_length a).
Definition path_level (a b : compiled.Match) : Prop :=
  (exact a ↔ exact b) ∧ path_length a = path_length b.

Definition with_method (m : compiled.Match) : Prop := compiled.mMethod m ≠ "".
Definition headers (m : compiled.Match) : nat := length (compiled.mHeaders m).
Definition params (m : compiled.Match) : nat := length (compiled.mQueryParams m).

(** A way a route serves a request: the hostname and the match it does so by. *)
Record Way := mkWay { wyHostname : string; wyMatch : compiled.Match; wyRoute : RouteTable }.

Definition then_by (above level rest : Prop) : Prop := above ∨ (level ∧ rest).

#[global] Instance then_by_proper : Proper (iff ==> iff ==> iff ==> iff) then_by.
Proof. unfold then_by. intros a a' Ha b b' Hb c c' Hc. by rewrite Ha, Hb, Hc. Qed.

Definition precedes (x y : Way) : Prop :=
  let '(mkWay hx mx rx) := x in
  let '(mkWay hy my ry) := y in
  then_by (host_above hx hy) (host_level hx hy)
  (then_by (path_above mx my) (path_level mx my)
  (then_by (with_method mx ∧ ¬ with_method my) (with_method mx ↔ with_method my)
  (then_by (headers my < headers mx) (headers mx = headers my)
  (then_by (params my < params mx) (params mx = params my)
  (then_by (rtCreated rx < rtCreated ry)%Z (rtCreated rx = rtCreated ry)
    (sless (Key rx) (Key ry) = true)))))).

(** ** Who serves a request *)

(** A rule without matches matches every path. *)
Definition any_match : compiled.Match := compiled.mkMatch "PathPrefix" "/" "" [] [].

Definition matched_by (rule : RuleTable) (r : Request) (m : compiled.Match) : Prop :=
  (ruMatches rule = [] ∧ m = any_match) ∨ (m ∈ ruMatches rule ∧ matchApplies m r = true).

(** A route without hostnames serves those of its listener. *)
Definition named_by (l : ListenerTable) (route : RouteTable) (host h : string) : Prop :=
  (rtHostnames route = [] ∧ h = liHostname l) ∨ (h ∈ rtHostnames route ∧ hostnameMatches h host = true).

(** The rule serves the request in that way: its listener owns the host and no
    listener of the port that matches the host is more specific. *)
Record serves (table : PortTable) (host : string) (r : Request) (g : bool)
    (rule : RuleTable) (l : ListenerTable) (x : Way) : Prop := {
  se_listener : l ∈ ptListeners table;
  se_hostname : hostnameMatches (liHostname l) host = true;
  se_isolated : ∀ l', l' ∈ ptListeners table → hostnameMatches (liHostname l') host = true →
                      ¬ host_above (liHostname l') (liHostname l);
  se_route : wyRoute x ∈ liRoutes l;
  se_rule : rule ∈ rtRules (wyRoute x);
  se_grpc : ruGRPC rule = g;
  se_named : named_by l (wyRoute x) host (wyHostname x);
  se_matched : matched_by rule r (wyMatch x);
}.

(** Hostnames and paths below the offset of the scores. *)
Definition short (s : string) : Prop := (Z.of_nat (len s) < 2 ^ 16)%Z.
Definition short_rule (rule : RuleTable) : Prop := Forall (λ m, short (compiled.mPathValue m)) (ruMatches rule).
Definition short_route (route : RouteTable) : Prop :=
  Forall short (rtHostnames route) ∧ Forall short_rule (rtRules route).
Definition short_listener (l : ListenerTable) : Prop :=
  short (liHostname l) ∧ Forall short_route (liRoutes l).
Definition short_table (table : PortTable) : Prop := Forall short_listener (ptListeners table).

(** ** The scores compute the order *)

Lemma host_score s :
  (host_kind s = 0 ∧ len s = 0 ∧ hostnameScore s = 0%Z) ∨
  (host_kind s = 1 ∧ 0 < len s ∧ hostnameScore s = Z.of_nat (len s)) ∨
  (host_kind s = 2 ∧ 0 < len s ∧ hostnameScore s = (2 ^ 16 + Z.of_nat (len s))%Z).
Proof.
  unfold host_kind, hostnameScore. case_bool_decide as He; [left; by rewrite decide_True, He by done|].
  rewrite decide_False by done. assert (0 < len s) by (destruct s; simpl; [done|lia]). right.
  destruct (hasPrefix s "*."); auto.
Qed.

Lemma host_above_score a b :
  short a → short b → (host_above a b ↔ (hostnameScore b < hostnameScore a)%Z).
Proof. unfold short, host_above. pose proof (host_score a). pose proof (host_score b). lia. Qed.

Lemma host_level_score a b :
  short a → short b → (host_level a b ↔ hostnameScore a = hostnameScore b).
Proof.
  intros Ha Hb. pose proof (host_above_score a b Ha Hb) as H1. pose proof (host_above_score b a Hb Ha) as H2.
  unfold host_level. unfold host_above in *. lia.
Qed.

Definition applicable (m : compiled.Match) : Prop :=
  exact m ∨ compiled.mPathType m = "" ∨ compiled.mPathType m = "PathPrefix".

Lemma matchApplies_applicable m r : matchApplies m r = true → applicable m.
Proof.
  unfold matchApplies. destruct (path_applies m (rqPath r)) eqn:Hp; simpl; [intros _|done].
  unfold path_applies, applicable, exact in *. revert Hp.
  repeat case_bool_decide; simpl; auto; done.
Qed.

Lemma len_trimSuffix s t : len (trimSuffix s t) ≤ len s.
Proof.
  unfold trimSuffix. destruct (hasSuffix s t) eqn:E; [|done].
  rewrite len_stake. lia.
Qed.

Lemma path_score m : applicable m →
  pathScore m = ((if decide (exact m) then 2 ^ 16 else 0) + Z.of_nat (path_length m))%Z.
Proof.
  unfold applicable, pathScore, path_length, exact. intros H. case_bool_decide as He.
  - by rewrite !decide_True.
  - rewrite !decide_False by done. destruct H as [|[H|H]]; [done| |]; rewrite H; simpl; lia.
Qed.

Lemma path_above_score a b :
  applicable a → applicable b → short (compiled.mPathValue a) → short (compiled.mPathValue b) →
  (path_above a b ↔ (pathScore b < pathScore a)%Z) ∧ (path_level a b ↔ pathScore a = pathScore b).
Proof.
  unfold short. intros Ha Hb Hsa Hsb. rewrite (path_score a), (path_score b) by done.
  unfold path_above, path_level.
  assert (∀ m, (Z.of_nat (len (compiled.mPathValue m)) < 2 ^ 16)%Z → (Z.of_nat (path_length m) < 2 ^ 16)%Z) as Hl.
  { intros m Hm. unfold path_length. case_decide; [done|].
    pose proof (len_trimSuffix (compiled.mPathValue m) "/"). lia. }
  apply Hl in Hsa, Hsb. destruct (decide (exact a)), (decide (exact b)); split; split; intros; intuition lia.
Qed.

Lemma method_score m : with_method m ↔ rsMethod (match_specificity m) = 1%Z.
Proof. unfold with_method, match_specificity. simpl. case_bool_decide; split; simpl; congruence. Qed.

(** The score of a way through a listener. *)
Definition score (l : ListenerTable) (x : Way) : matchScore :=
  mkScore (hostnameScore (liHostname l)) (hostnameScore (wyHostname x)) (match_specificity (wyMatch x))
    (rtCreated (wyRoute x)) (Key (wyRoute x)).

(** A way whose hostname and path are short and whose match can apply. *)
Definition scored (x : Way) : Prop :=
  short (wyHostname x) ∧ short (compiled.mPathValue (wyMatch x)) ∧ applicable (wyMatch x).

Lemma specificity_then a b :
  applicable a → applicable b → short (compiled.mPathValue a) → short (compiled.mPathValue b) →
  ∀ rest : Prop,
  then_by (path_above a b) (path_level a b)
    (then_by (with_method a ∧ ¬ with_method b) (with_method a ↔ with_method b)
    (then_by (headers b < headers a) (headers a = headers b)
    (then_by (params b < params a) (params a = params b) rest))) ↔
  specificity_beats (match_specificity a) (match_specificity b) = true ∨
  (match_specificity a = match_specificity b ∧ rest).
Proof.
  intros Ha Hb Hsa Hsb rest. destruct (path_above_score a b Ha Hb Hsa Hsb) as [-> ->].
  assert (rsMethod (match_specificity a) = 0%Z ∨ rsMethod (match_specificity a) = 1%Z)
    by (unfold match_specificity; simpl; case_bool_decide; auto).
  assert (rsMethod (match_specificity b) = 0%Z ∨ rsMethod (match_specificity b) = 1%Z)
    by (unfold match_specificity; simpl; case_bool_decide; auto).
  rewrite !method_score. unfold then_by, headers, params.
  change (pathScore a) with (rsPath (match_specificity a)). change (pathScore b) with (rsPath (match_specificity b)).
  assert (∀ m, Z.of_nat (length (compiled.mHeaders m)) = rsHeaders (match_specificity m)) as Hh by done.
  assert (∀ m, Z.of_nat (length (compiled.mQueryParams m)) = rsQueryParams (match_specificity m)) as Hq by done.
  rewrite !Nat2Z.inj_lt, <-!Nat2Z.inj_iff, !Hh, !Hq.
  destruct (match_specificity a) as [p1 m1 h1 q1], (match_specificity b) as [p2 m2 h2 q2]. simpl in *.
  unfold specificity_beats. simpl.
  destruct (Z.eqb_spec p1 p2), (Z.eqb_spec m1 m2), (Z.eqb_spec h1 h2); simpl; rewrite Z.ltb_lt;
    split; intros; simplify_eq; try lia; intuition (try lia); simplify_eq; intuition lia.
Qed.
Lemma precedes_score l l' x y :
  hostnameScore (liHostname l) = hostnameScore (liHostname l') → scored x → scored y →
  (precedes x y ↔ beats (score l x) (score l' y) = true).
Proof.
  destruct x as [hx mx rx], y as [hy my ry]. intros Hl (Hx1 & Hx2 & Hx3) (Hy1 & Hy2 & Hy3). simpl in *.
  unfold precedes. rewrite specificity_then by done.
  rewrite host_above_score, host_level_score by done. unfold then_by, beats, score. cbn [msListenerHostname
    msRouteHostname msSpecificity msCreated msName wyHostname wyMatch wyRoute]. rewrite Hl, Z.eqb_refl. cbn [negb].
  destruct (Z.eqb_spec (hostnameScore hx) (hostnameScore hy)) as [Hh|Hh]; cbn [negb]; [|rewrite Z.ltb_lt; lia].
  case_bool_decide as Hs; cbn [negb]; [|intuition (auto with lia)].
  rewrite Hs, (beats_irrefl specificity_beats).
  destruct (Z.eqb_spec (rtCreated rx) (rtCreated ry)) as [Hc|Hc]; cbn [negb].
  - rewrite Hh, Hc. intuition (lia || done).
  - rewrite Z.ltb_lt. intuition (lia || done).
Qed.

(** The hostname score of a route is the best of the names it serves the host
    under. *)
Lemma route_score l route host :
  routeHostnameMatches (rtHostnames route) host = true →
  (∃ h, named_by l route host h ∧ routeHostnameScore l route host = hostnameScore h) ∧
  (∀ h, named_by l route host h → (hostnameScore h ≤ routeHostnameScore l route host)%Z).
Proof.
  unfold routeHostnameMatches, routeHostnameScore, named_by.
  destruct (Nat.eqb_spec (length (rtHostnames route)) 0) as [He|Hne].
  { apply length_zero_iff_nil in He. rewrite He. intros _. split; [exists (liHostname l); auto|].
    intros h [[_ ->]|[?%elem_of_nil _]]; [lia|done]. }
  assert (rtHostnames route ≠ []) as Hn by (intros E; rewrite E in Hne; done). clear Hne.
  assert (∀ s, 0 ≤ hostnameScore s)%Z as Hpos by (intros s; pose proof (host_score s); lia).
  set (step := λ best pattern, _).
  assert (∀ hs best, (best ≤ fold_left step hs best)%Z ∧
    (∀ h, h ∈ hs → hostnameMatches h host = true → (hostnameScore h ≤ fold_left step hs best)%Z) ∧
    (fold_left step hs best = best ∨
     ∃ h, h ∈ hs ∧ hostnameMatches h host = true ∧ fold_left step hs best = hostnameScore h)) as Hf.
  { induction hs as [|h hs IH]; intros best; [split; [done|split; [by intros ? ?%elem_of_nil|by left]]|].
    cbn [fold_left]. destruct (IH (step best h)) as (I1 & I2 & I3).
    assert (best ≤ step best h ∧ (hostnameMatches h host = true → hostnameScore h ≤ step best h))%Z as [S1 S2].
    { subst step. cbn beta. destruct (hostnameMatches h host); [|done]. cbn [negb].
      destruct (Z.ltb_spec best (hostnameScore h)); lia. }
    assert (step best h = best ∨ hostnameMatches h host = true ∧ step best h = hostnameScore h) as S3.
    { subst step. cbn beta. destruct (hostnameMatches h host); [|by left]. cbn [negb].
      destruct (Z.ltb_spec best (hostnameScore h)); auto. }
    split; [lia|]. split.
    - intros h' [->|Hin]%elem_of_cons Hm; [specialize (S2 Hm); lia|by apply I2].
    - destruct I3 as [->|(h' & ? & ? & ?)]; [|right; exists h'; set_solver].
      destruct S3 as [?|[? ?]]; [by left|right; exists h; set_solver]. }
  intros (p & Hp & Hm)%existsb_exists. apply list_elem_of_In in Hp.
  destruct (Hf (rtHostnames route) 0%Z) as (H1 & H2 & H3). split.
  - destruct H3 as [H3|(h & Hh & Hhm & ->)]; [|exists h; auto].
    exists p. split; [by right|]. specialize (H2 p Hp Hm). specialize (Hpos p). lia.
  - intros h [[E _]|[Hh Hhm]]; [done|]. by apply H2.
Qed.

(** The specificity of a rule is the best of the matches that apply. *)
Lemma rule_specificity rule r s :
  ruleBestMatch rule r = (true, s) →
  (∃ m, matched_by rule r m ∧ s = match_specificity m) ∧
  (∀ m, matched_by rule r m → specificity_beats (match_specificity m) s = false).
Proof.
  intros [[He ->]|(m & Hm & Ha & -> & Hb)]%ruleBestMatch_spec.
  - split; [exists any_match; by split; [left|]|]. intros m [[_ ->]|[Hm _]]; [done|].
    rewrite He in Hm. by apply elem_of_nil in Hm.
  - split; [exists m; by split; [right|]|]. intros m' [[He _]|[Hm' Ha']]; [|by apply Hb].
    rewrite He in Hm. by apply elem_of_nil in Hm.
Qed.

(** Ways of serving rules, and the candidates of the search. *)
Lemma short_named table l route host h :
  short_table table → l ∈ ptListeners table → route ∈ liRoutes l → named_by l route host h → short h.
Proof.
  unfold short_table. rewrite list.Forall_forall. intros Ht Hl Hr.
  destruct (Ht _ Hl) as [Hs Hrs]. rewrite list.Forall_forall in Hrs.
  destruct (Hrs _ Hr) as [Hh _]. rewrite list.Forall_forall in Hh.
  intros [[_ ->]|[Hin _]]; auto.
Qed.

Lemma short_matched table l route rule r m :
  short_table table → l ∈ ptListeners table → route ∈ liRoutes l → rule ∈ rtRules route → matched_by rule r m →
  short (compiled.mPathValue m) ∧ applicable m.
Proof.
  unfold short_table. rewrite list.Forall_forall. intros Ht Hl Hr Hru.
  destruct (Ht _ Hl) as [_ Hrs]. rewrite list.Forall_forall in Hrs.
  destruct (Hrs _ Hr) as [_ Hrr]. rewrite list.Forall_forall in Hrr.
  pose proof (Hrr _ Hru) as Hm. unfold short_rule in Hm. rewrite list.Forall_forall in Hm.
  intros [[_ ->]|[Hin Ha]]; [by split; [|right; right]|]. split; [auto|by eapply matchApplies_applicable].
Qed.

Lemma serves_scored table host r g rule l x :
  short_table table → serves table host r g rule l x → scored x.
Proof.
  intros Ht Hs. split; [|by apply (short_matched table l (wyRoute x) rule r); try apply Hs].
  apply (short_named table l (wyRoute x) host); try done; apply Hs.
Qed.

Lemma isolated_scores table host l :
  short_table table → l ∈ ptListeners table →
  (∀ l', l' ∈ ptListeners table → hostnameMatches (liHostname l') host = true →
     ¬ host_above (liHostname l') (liHostname l)) ↔
  (∀ l', l' ∈ ptListeners table → hostnameMatches (liHostname l') host = true →
     (hostnameScore (liHostname l') ≤ hostnameScore (liHostname l))%Z).
Proof.
  unfold short_table. rewrite list.Forall_forall. intros Ht Hl.
  split; intros H l' Hl' Hm; specialize (H l' Hl' Hm); destruct (Ht _ Hl) as [? _], (Ht _ Hl') as [? _];
    rewrite host_above_score in *; [lia|done..|lia|done|done].
Qed.

Lemma served_candidate table host r g rule l x :
  short_table table → serves table host r g rule l x →
  ∃ s, Serves table host r g rule l (wyRoute x) s ∧ beats (score l x) (rule_score l (wyRoute x) host s) = false.
Proof.
  intros Ht [H1 H2 H3 H4 H5 H6 H7 H8]. destruct (ruleBestMatch rule r) as [b s] eqn:Hb.
  assert (b = true) as ->.
  { destruct b; [done|]. apply (f_equal fst), ruleBestMatch_false in Hb as [Hn Hf].
    destruct H8 as [[? _]|[Hin Ha]]; [done|]. by rewrite (Hf _ Hin) in Ha. }
  assert (routeHostnameMatches (rtHostnames (wyRoute x)) host = true) as Hrm.
  { unfold routeHostnameMatches. destruct H7 as [[-> _]|[Hin Hm]]; [done|]. destruct (_ =? _); [done|].
    apply existsb_exists. exists (wyHostname x). by rewrite <-list_elem_of_In. }
  exists s. split; [split; try done; by apply (isolated_scores table host l Ht H1)|].
  apply rule_specificity in Hb as [_ Hs]. apply Hs in H8.
  apply (route_score l) in Hrm as [_ Hh]. apply Hh in H7.
  unfold beats, score, rule_score. cbn [msListenerHostname msRouteHostname msSpecificity msCreated msName].
  rewrite Z.eqb_refl. cbn [negb].
  destruct (Z.eqb_spec (hostnameScore (wyHostname x)) (routeHostnameScore l (wyRoute x) host)); cbn [negb];
    [|apply Z.ltb_ge; lia].
  case_bool_decide; cbn [negb]; [|done]. rewrite Z.eqb_refl. cbn [negb]. apply (beats_irrefl sless).
Qed.

Lemma candidate_served table host r g rule l route s :
  short_table table → Serves table host r g rule l route s →
  ∃ x, serves table host r g rule l x ∧ wyRoute x = route ∧ rule_score l route host s = score l x.
Proof.
  intros Ht [H1 H2 H3 H4 H5 H6 H7 H8].
  apply (route_score l) in H5 as [(h & Hn & Hh) _]. apply rule_specificity in H8 as [(m & Hm & ->) _].
  exists (mkWay h m route). split; [|split; [done|by unfold rule_score; rewrite Hh]].
  split; try done. by apply (isolated_scores table host l Ht H1).
Qed.

Lemma serving_listeners table host r g rule l x rule' l' x' :
  short_table table → serves table host r g rule l x → serves table host r g rule' l' x' →
  hostnameScore (liHostname l) = hostnameScore (liHostname l').
Proof.
  intros Ht [H1 H2 H3] [H1' H2' H3'].
  pose proof (proj1 (isolated_scores table host l Ht H1) H3 l' H1' H2').
  pose proof (proj1 (isolated_scores table host l' Ht H1') H3' l H1 H2). lia.
Qed.

(** ** First come first served within a route *)

Lemma bind_split {A B} (f : A → list B) l pre x post :
  l ≫= f = pre ++ x :: post →
  ∃ l1 a l2 p q, l = l1 ++ a :: l2 ∧ f a = p ++ x :: q ∧ pre = (l1 ≫= f) ++ p.
Proof.
  revert pre. induction l as [|a l IH]; intros pre H; [by destruct pre|]. cbn in H.
  apply app_eq_inv in H as [(k & Hk & H)|(k & -> & H)].
  - destruct k as [|y k]; simplify_list_eq.
    + destruct (IH [] (eq_sym H)) as (l1 & b & l2 & p & q & -> & Hb & Hpre).
      exists (a :: l1), b, l2, p, q. split; [done|]. split; [done|]. cbn. by rewrite <-app_assoc, <-Hpre, app_nil_r.
    + exists [], a, l, pre, k. done.
  - destruct (IH k H) as (l1 & b & l2 & p & q & -> & Hb & ->).
    exists (a :: l1), b, l2, p, q. split; [done|]. split; [done|]. cbn. by rewrite <-app_assoc.
Qed.

(** Where a candidate stands: the candidates of the earlier rules of its route
    come before it. *)
Lemma candidate_position table host r g pre rule l route sc post :
  candidates table host r g = pre ++ ((rule, l, route), sc) :: post →
  ∃ before after, rtRules route = before ++ rule :: after ∧
    ∀ c, c ∈ (before ≫= rule_candidate l route host r g) → c ∈ pre.
Proof.
  unfold candidates. intros (ls & l0 & ls2 & p & q & _ & H & ->)%bind_split.
  destruct (_ && _) in H; [|by destruct p].
  apply bind_split in H as (rs & route0 & rs2 & p' & q' & _ & H & ->).
  destruct (routeHostnameMatches _ _) in H; [|by destruct p'].
  apply bind_split in H as (before & rule0 & after & p'' & q'' & Hr & H & ->).
  assert (rule0 = rule ∧ l0 = l ∧ route0 = route) as (-> & -> & ->).
  { unfold rule_candidate in H. destruct (eqb _ _); [|by destruct p'']. destruct (ruleBestMatch rule0 r) as [[] s];
      [|by destruct p'']. destruct p'' as [|? [|]]; by simplify_eq/=. }
  exists before, after. split; [done|]. set_solver.
Qed.

(** ** Properties *)

(** C8: The rule a request is routed to serves it (listener and route hostnames,
    listener isolation, the rule's matches, the protocol) and no other serving
    rule precedes it in an order written out from the documentation (hostname a
    route matched under, exact over prefix over longer path, method, number of
    headers, number of query parameters, age, name), the first of equal rules of
    one route wins, and a request is refused only when no rule serves it; host
    names and paths are shorter than 2^16 bytes. *)
Theorem match_precedence t port host r g table :
  Port t port = Some table → short_table table →
  match match_ t port host r g with
  | Some (rule, l, route) =>
      ∃ x, serves table host r g rule l x ∧ wyRoute x = route ∧
        (∀ rule' l' x', serves table host r g rule' l' x' → ¬ precedes x' x) ∧
        (∃ before after, rtRules route = before ++ rule :: after ∧
           ∀ rule' x', rule' ∈ before → serves table host r g rule' l x' → wyRoute x' = route → precedes x x')
  | None => ∀ rule l x, ¬ serves table host r g rule l x
  end.
Proof.
  intros Hp Ht. rewrite match_select, Hp. cbn [mbind option_bind].
  destruct (select beats _) as [[[[rule l] route] sc]|] eqn:Hsel; cbn [fmap option_fmap option_map fst].
  2:{ intros rule l x Hs. apply select_None in Hsel. destruct (served_candidate _ _ _ _ _ _ _ Ht Hs) as (s & HS & _).
      assert (((rule, l, wyRoute x), rule_score l (wyRoute x) host s) ∈ candidates table host r g) as Hin
        by (apply elem_of_candidates; eauto).
      rewrite Hsel in Hin. by apply elem_of_nil in Hin. }
  pose proof (select_elem _ _ _ Hsel) as (s & HS & Hsc)%elem_of_candidates.
  destruct (candidate_served _ _ _ _ _ _ _ _ Ht HS) as (x & Hx & Hroute & Hscore). rewrite Hscore in Hsc.
  exists x. split; [done|]. split; [done|]. split.
  - intros rule' l' x' Hx'.
    rewrite (precedes_score l' l) by eauto using serving_listeners, serves_scored.
    destruct (served_candidate _ _ _ _ _ _ _ Ht Hx') as (s' & HS' & Hle).
    assert (beats (rule_score l' (wyRoute x') host s') sc = false) as Hopt.
    { apply (select_optimal beats _ _ ((rule', l', wyRoute x'), rule_score l' (wyRoute x') host s') Hsel).
      apply elem_of_candidates. eauto. }
    rewrite Hsc in Hopt. by rewrite (beats_ntrans beats _ _ _ Hle Hopt).
  - destruct (select_first beats _ _ Hsel) as (pre & post & Hcand & Hpre & _).
    destruct (candidate_position _ _ _ _ _ _ _ _ _ _ Hcand) as (before & after & Hr & Hbefore).
    exists before, after. split; [done|]. intros rule' x' Hin Hx' Hroute'.
    rewrite (precedes_score l l) by eauto using serves_scored.
    destruct (served_candidate _ _ _ _ _ _ _ Ht Hx') as (s' & HS' & Hle). rewrite Hroute' in *.
    assert (beats sc (rule_score l route host s') = true) as Hb.
    { apply (Hpre ((rule', l, route), rule_score l route host s')), Hbefore, list_elem_of_bind. exists rule'. split; [|done].
      unfold rule_candidate. rewrite (sv_grpc _ _ _ _ _ _ _ _ HS'), eqb_reflx, (sv_match _ _ _ _ _ _ _ _ HS').
      by apply list_elem_of_singleton. }
    rewrite Hsc in Hb. destruct (beats (score l x) (score l x')) eqn:E; [done|].
    by rewrite (beats_ntrans beats _ _ _ E Hle) in Hb.
Qed.

Lemma match_precedence_witness :
  match_ ex_t 443 "a.example.com" (ex_request "/api/x") false = Some (ex_exact_rule, ex_narrow, ex_routes) ∧
  ∃ x, serves (ex_port [ex_wide; ex_narrow]) "a.example.com" (ex_request "/api/x") false ex_exact_rule ex_narrow x ∧
    wyRoute x = ex_routes ∧
    (∀ rule' l' x', serves (ex_port [ex_wide; ex_narrow]) "a.example.com" (ex_request "/api/x") false rule' l' x' →
       ¬ precedes x' x).
Proof.
  split; [vm_compute; reflexivity|].
  destruct (match_precedence ex_t 443 "a.example.com" (ex_request "/api/x") false (ex_port [ex_wide; ex_narrow]))
    as (x & H1 & H2 & H3 & _).
  - reflexivity.
  - unfold short_table, short_listener, short_route, short_rule, short. repeat constructor.
  - exists x. split; [exact H1|]. split; [exact H2|exact H3].
Defined.

End precedence.
