(* ===== verification/Balancing.v ===== *)
(** * Backend and endpoint selection

    Models the selection half of
    [internal/lib/transports/http/routing/match.go]: weighted round-robin
    over the backends of a rule, round-robin over the ready endpoints of a
    Service port, and the L4 pickers built on them.

    Counters are read and advanced through the [Store]; a pick that finds
    no endpoint does not advance the backend's counter.  The counter is a
    64-bit integer: after [2^63] picks it is negative, Go's [%] keeps the
    sign and indexing panics, which [PickError] makes visible. *)

From S2P Require Import Prelude GoStrings Http Compiled Tables Matching.
From stdpp Require Import options.

#[local] Open Scope nat_scope.
Import routing matching.

Module balancing.

(** ** Weighted round robin *)

(** The loop of [pickBucket]: subtract weights until the slot is negative. *)
Fixpoint bucket_loop (slot : Z) (backends : list BackendTable) : option BackendTable :=
  match backends with
  | [] => None
  | backend :: rest =>
      let slot := int64_wrap (slot - bkWeight backend) in
      if (slot <? 0)%Z then Some backend else bucket_loop slot rest
  end.

Definition pickBucket (cnt : Z) (backends : list BackendTable) (total : Z) :
    option BackendTable :=
  if (total <=? 0)%Z then None else bucket_loop (go_rem cnt total) backends.

Definition PickBackend (r : RuleTable) (s : Store) : option BackendTable * Store :=
  let '(cnt, s) := fetch_add s (ruAddr r) in
  (pickBucket cnt (ruBackends r) (ruTotal r), s).

(** ** Endpoints *)

Definition service_port (svc : Service) (servicePort : Z) : option string :=
  spName <$> head (filter (λ p, spPort p = servicePort) (svPorts svc)).

Definition names (portName : string) (p : EndpointPort) : bool :=
  match epName p with None => (portName == "") | Some n => (n == portName) end.

(** The first port of a slice with that name and a number. *)
Fixpoint slice_port (ports : list EndpointPort) (portName : string) : option Z :=
  match ports with
  | [] => None
  | p :: rest =>
      if names portName p then
        match epPort p with Some n => Some n | None => slice_port rest portName end
      else slice_port rest portName
  end.

Definition eligible (ep : SliceEndpoint) : bool :=
  negb (bool_decide (seReady ep = Some false)) && negb (bool_decide (seTerminating ep = Some true)).

Definition slice_endpoints (portName : string) (slice : EndpointSlice) : list Endpoint :=
  if (slAddressType slice != "IPv4") then []
  else match slice_port (slPorts slice) portName with
       | None => []
       | Some targetPort =>
           slEndpoints slice ≫= λ ep,
             if eligible ep then (λ a, mkEndpoint a targetPort) <$> seAddresses ep else []
       end.

Definition endpoint_less (a b : Endpoint) : bool := sless (enAddress a) (enAddress b).

Section pick.
Context `{!GoSort}.

Definition Endpoints (idx : EndpointsIndex) (namespace name : string) (servicePort : Z) :
    list Endpoint :=
  let key := namespace +:+ "/" +:+ name in
  match eiServices idx !! key with
  | None => []
  | Some svc =>
      match service_port svc servicePort with
      | None => []
      | Some portName =>
          sortSlice endpoint_less
            (default [] (eiSlices idx !! key) ≫= slice_endpoints portName)
      end
  end.

Inductive PickError := NoEndpoint | IndexPanic.

Definition Pick (b : BackendTable) (idx : EndpointsIndex) (s : Store) :
    result PickError Endpoint * Store :=
  let endpoints := Endpoints idx (bkNamespace b) (bkName b) (bkPort b) in
  if (length endpoints =? 0) then (Err NoEndpoint, s)
  else
    let '(cnt, s) := fetch_add s (bkAddr b) in
    let i := go_rem cnt (Z.of_nat (length endpoints)) in
    if (i <? 0)%Z then (Err IndexPanic, s)
    else (of_option IndexPanic (endpoints !! Z.to_nat i), s).

(** ** L4 selection *)

Record L4Selection := mkL4Selection {
  lsEndpoint : string;
  lsGateway : string;
  lsRoute : string;
  lsBackend : string;
}.

Definition l4_less (route best : RouteTable) : bool :=
  (rtCreated route <? rtCreated best)%Z ||
  ((rtCreated route =? rtCreated best)%Z && sless (Key route) (Key best)).

Definition l4Route (table : PortTable) : option RouteTable :=
  fold_left (λ best listener,
    fold_left (λ best route,
      if (length (rtRules route) =? 0) then best
      else match best with
           | None => Some route
           | Some b => if l4_less route b then Some route else best
           end) (liRoutes listener) best)
    (ptListeners table) None.

Definition endpoint_text (e : Endpoint) : string :=
  enAddress e +:+ ":" +:+ pretty (enPort e).
Definition backend_text (b : BackendTable) : string :=
  bkNamespace b +:+ "/" +:+ bkName b +:+ ":" +:+ pretty (bkPort b).

(** Pick a backend of the rule, then an endpoint of it. *)
Definition pick_rule (rule : RuleTable) (idx : EndpointsIndex) (s : Store) :
    result PickError (BackendTable * Endpoint) * Store :=
  let '(picked, s) := PickBackend rule s in
  match picked with
  | None => (Err NoEndpoint, s)
  | Some backend =>
      if negb (bkValid backend) then (Err NoEndpoint, s)
      else let '(target, s) := Pick backend idx s in ((λ e, (backend, e)) <$> target, s)
  end.

Definition l4Selection (table : PortTable) (idx : EndpointsIndex) (s : Store) :
    result PickError (string * string * string) * Store :=
  match l4Route table with
  | None => (Err NoEndpoint, s)
  | Some rt =>
      match rtRules rt with
      | [] => (Err IndexPanic, s)
      | rule :: _ =>
          let '(picked, s) := pick_rule rule idx s in
          ((λ p, (endpoint_text p.2, Key rt, backend_text p.1)) <$> picked, s)
      end
  end.

Definition l4_pick (serves : PortTable → bool) (t : Tables) (port : Z)
    (idx : EndpointsIndex) (s : Store) : result PickError L4Selection * Store :=
  match Port t port with
  | None => (Err NoEndpoint, s)
  | Some table =>
      if negb (serves table) then (Err NoEndpoint, s)
      else let '(sel, s) := l4Selection table idx s in
           ((λ x, mkL4Selection x.1.1 (ptGatewayName table) x.1.2 x.2) <$> sel, s)
  end.

Definition PickTCP := l4_pick ptTCP.
Definition PickUDP := l4_pick ptUDP.

(** ** TLS selection *)

Record TLSSelection := mkTLSSelection {
  tsEndpoint : string;
  tsGateway : string;
  tsRoute : string;
  tsBackend : string;
  tsTerminate : bool;
  tsCertificate : option Certificate;
}.

Definition tls_score (listener : ListenerTable) (route : RouteTable) (sni : string) : matchScore :=
  rule_score listener route sni zeroSpecificity.

Definition tls_best (table : PortTable) (sni : string) : option (Triple * matchScore) :=
  fold_left (λ best listener,
    if negb (hostnameMatches (liHostname listener) sni) then best
    else fold_left (λ best route,
      if negb (routeHostnameMatches (rtHostnames route) sni) then best
      else fold_left (λ best rule,
             better beats best ((rule, listener, route), tls_score listener route sni))
           (rtRules route) best)
      (liRoutes listener) best)
    (ptListeners table) None.

Definition PickTLS (t : Tables) (port : Z) (sni : string) (idx : EndpointsIndex) (s : Store) :
    result PickError TLSSelection * Store :=
  match Port t port with
  | None => (Err NoEndpoint, s)
  | Some table =>
      if negb (ptTLSPassthrough table) then (Err NoEndpoint, s)
      else match tls_best table sni with
      | None => (Err NoEndpoint, s)
      | Some ((rule, listener, route), _) =>
          let '(picked, s) := pick_rule rule idx s in
          ((λ p, mkTLSSelection (endpoint_text p.2) (ptGatewayName table) (Key route)
                   (backend_text p.1) (liTerminate listener) (liCert listener)) <$> picked, s)
      end
  end.
End pick.

(** ** Weighted shares *)

(** A rule the table builder produces: non-negative 32-bit weights, their
    sum recorded. *)
Definition weight_sum (bs : list BackendTable) : Z := foldr (λ b n, bkWeight b + n)%Z 0%Z bs.

Record weights_ok (r : RuleTable) : Prop := {
  wo_range : Forall (λ b, 0 ≤ bkWeight b < 2 ^ 31)%Z (ruBackends r);
  wo_total : ruTotal r = weight_sum (ruBackends r);
  wo_small : (ruTotal r < 2 ^ 62)%Z;
}.

(** Each backend repeated as often as its weight. *)
Definition expand (bs : list BackendTable) : list BackendTable :=
  bs ≫= λ b, replicate (Z.to_nat (bkWeight b)) b.

Lemma expand_length bs :
  Forall (λ b, 0 ≤ bkWeight b < 2 ^ 31)%Z bs → Z.of_nat (length (expand bs)) = weight_sum bs.
Proof.
  induction 1 as [|b bs Hb _ IH]; [done|]. cbn [expand mbind list_bind].
  rewrite length_app, length_replicate. unfold expand in IH. simpl. lia.
Qed.

Lemma bucket_loop_expand slot bs :
  Forall (λ b, 0 ≤ bkWeight b < 2 ^ 31)%Z bs → (0 ≤ slot < 2 ^ 63)%Z →
  bucket_loop slot bs = expand bs !! Z.to_nat slot.
Proof.
  intros Hbs. revert slot. induction Hbs as [|b bs Hb _ IH]; intros slot Hs; [done|].
  cbn [bucket_loop expand mbind list_bind]. rewrite int64_wrap_id by lia.
  destruct (Z.ltb_spec (slot - bkWeight b) 0).
  - rewrite lookup_app_l by (rewrite length_replicate; lia).
    symmetry. apply lookup_replicate. split; [done|lia].
  - rewrite IH by lia. unfold expand. rewrite lookup_app_r by (rewrite length_replicate; lia).
    rewrite length_replicate. f_equal. lia.
Qed.

Lemma pickBucket_expand r c :
  weights_ok r → (0 < ruTotal r)%Z → (0 ≤ c)%Z →
  pickBucket c (ruBackends r) (ruTotal r) =
    expand (ruBackends r) !! Z.to_nat (Z.rem c (Z.of_nat (length (expand (ruBackends r))))).
Proof.
  intros [Hw Ht Hsm] Hpos Hc. unfold pickBucket.
  destruct (Z.leb_spec (ruTotal r) 0); [lia|].
  rewrite expand_length, <-Ht by done. apply bucket_loop_expand; [done|].
  pose proof (Z.rem_bound_pos c (ruTotal r)). lia.
Qed.

(** [n] consecutive picks. *)
Fixpoint pick_backends (n : nat) (r : RuleTable) (s : Store) : list (option BackendTable) * Store :=
  match n with
  | O => ([], s)
  | S n =>
      let '(b, s) := PickBackend r s in
      let '(bs, s) := pick_backends n r s in (b :: bs, s)
  end.

Lemma pick_backends_counters n r s :
  (0 ≤ counter s (ruAddr r))%Z → (counter s (ruAddr r) + Z.of_nat n < 2 ^ 63)%Z →
  (pick_backends n r s).1 =
    (λ i : nat, pickBucket (counter s (ruAddr r) + Z.of_nat i) (ruBackends r) (ruTotal r)) <$> seq 0 n.
Proof.
  revert s. induction n as [|n IH]; intros s H0 Hn; [done|].
  cbn [pick_backends]. unfold PickBackend at 1. rewrite fetch_add_small by lia.
  destruct (pick_backends n r _) as [bs s'] eqn:Hp. cbn [fst seq fmap list_fmap].
  rewrite Z.add_0_r. f_equal.
  assert (bs = (pick_backends n r (<[ruAddr r := (counter s (ruAddr r) + 1)%Z]> s)).1) as ->
    by by rewrite Hp.
  rewrite IH by (rewrite counter_insert; lia). rewrite counter_insert.
  rewrite <-seq_shift, <-list_fmap_compose. apply list_fmap_ext. intros ? i _. simpl. f_equal. lia.
Qed.

(** ** Ready endpoints *)

#[global] Instance endpoint_less_strict : StrictWeak endpoint_less.
Proof. apply (strict_weak_proj enAddress sless). apply _. Qed.

(** The first port with the name and a number wins. *)
Lemma slice_port_spec ports n z :
  slice_port ports n = Some z →
  ∃ p, p ∈ ports ∧ names n p = true ∧ epPort p = Some z.
Proof.
  induction ports as [|p ports IH]; simpl; [done|].
  destruct (names n p) eqn:Hn; [destruct (epPort p) as [m|] eqn:Hp|].
  - intros [= ->]. exists p. split; [left|done].
  - intros (q & ? & ?)%IH. exists q. split; [by right|done].
  - intros (q & ? & ?)%IH. exists q. split; [by right|done].
Qed.

Lemma elem_of_slice_endpoints n slice e :
  e ∈ slice_endpoints n slice ↔
  slAddressType slice = "IPv4" ∧ slice_port (slPorts slice) n = Some (enPort e) ∧
  ∃ ep, ep ∈ slEndpoints slice ∧ eligible ep = true ∧ enAddress e ∈ seAddresses ep.
Proof.
  unfold slice_endpoints. case_bool_decide as Ht; simpl.
  2:{ split; [by intros ?%elem_of_nil|naive_solver]. }
  destruct (slice_port (slPorts slice) n) as [tp|].
  2:{ split; [by intros ?%elem_of_nil|naive_solver]. }
  rewrite list_elem_of_bind. split.
  - intros (ep & Hin & Hep). destruct (eligible ep) eqn:He; [|by apply elem_of_nil in Hin].
    apply list_elem_of_fmap in Hin as (a & -> & Ha). simpl. eauto 8.
  - intros (_ & [= ->] & ep & Hep & He & Ha). exists ep. rewrite He. split; [|done].
    apply list_elem_of_fmap. exists (enAddress e). by destruct e.
Qed.

Section endpoints.
Context `{!GoSort}.

(** [n] consecutive endpoint picks of a backend against one index. *)
Fixpoint pick_endpoints (n : nat) (b : BackendTable) (idx : EndpointsIndex) (s : Store) :
    list (result PickError Endpoint) * Store :=
  match n with
  | O => ([], s)
  | S n =>
      let '(e, s) := Pick b idx s in
      let '(es, s) := pick_endpoints n b idx s in (e :: es, s)
  end.

Abbreviation eps b idx := (Endpoints idx (bkNamespace b) (bkName b) (bkPort b)).

Lemma Pick_small b idx s :
  eps b idx ≠ [] → (0 ≤ counter s (bkAddr b) < 2 ^ 63 - 1)%Z →
  Pick b idx s =
    (of_option IndexPanic (eps b idx !!
       Z.to_nat (Z.rem (counter s (bkAddr b)) (Z.of_nat (length (eps b idx))))),
     <[bkAddr b := (counter s (bkAddr b) + 1)%Z]> s).
Proof.
  intros Hne Hc. unfold Pick.
  assert (length (eps b idx) ≠ 0) as Hlen by (by rewrite length_zero_iff_nil).
  destruct (Nat.eqb_spec (length (eps b idx)) 0); [done|].
  rewrite fetch_add_small by done.
  pose proof (Z.rem_bound_pos (counter s (bkAddr b)) (Z.of_nat (length (eps b idx)))).
  destruct (Z.ltb_spec (Z.rem (counter s (bkAddr b)) (Z.of_nat (length (eps b idx)))) 0);
    [lia|done].
Qed.

Lemma pick_endpoints_counters n b idx s :
  eps b idx ≠ [] → (0 ≤ counter s (bkAddr b))%Z →
  (counter s (bkAddr b) + Z.of_nat n < 2 ^ 63)%Z →
  (pick_endpoints n b idx s).1 =
    of_option IndexPanic <$> ((λ i : nat, eps b idx !!
       Z.to_nat (Z.rem (counter s (bkAddr b) + Z.of_nat i) (Z.of_nat (length (eps b idx))))) <$> seq 0 n).
Proof.
  intros Hne. revert s. induction n as [|n IH]; intros s H0 Hn; [done|].
  cbn [pick_endpoints]. rewrite Pick_small by (done || lia).
  destruct (pick_endpoints n b idx _) as [es s'] eqn:Hp. cbn [fst seq fmap list_fmap].
  rewrite Z.add_0_r. f_equal.
  assert (es = (pick_endpoints n b idx (<[bkAddr b := (counter s (bkAddr b) + 1)%Z]> s)).1)
    as -> by by rewrite Hp.
  rewrite IH by (rewrite counter_insert; lia). rewrite counter_insert.
  rewrite <-seq_shift, <-!list_fmap_compose. apply list_fmap_ext. intros ? i _. simpl.
  do 4 f_equal. lia.
Qed.
End endpoints.

(** ** Route precedence of the L4 pickers *)

Definition l4_order (a b : Z * string) : bool :=
  (a.1 <? b.1)%Z || ((a.1 =? b.1)%Z && sless a.2 b.2).

Definition l4_rank (route : RouteTable) : Z * string := (rtCreated route, Key route).

Lemma l4_order_lex a b :
  lex (λ a b : Z * string, a.1 <? b.1)%Z (λ a b, sless a.2 b.2) a b = l4_order a b.
Proof.
  unfold lex, l4_order.
  destruct (Z.ltb_spec a.1 b.1), (Z.ltb_spec b.1 a.1), (Z.eqb_spec a.1 b.1); simpl; lia || done.
Qed.

#[global] Instance l4_order_strict : StrictWeak l4_order.
Proof.
  eapply strict_weak_ext; [apply l4_order_lex|]. apply lex_strict;
    [apply (strict_weak_proj fst Z.ltb)|apply (strict_weak_proj snd sless)]; apply _.
Qed.

(** The routes with at least one rule, with their rank. *)
Definition populated (table : PortTable) : list (RouteTable * (Z * string)) :=
  ptListeners table ≫= λ listener,
    liRoutes listener ≫= λ route,
      if (length (rtRules route) =? 0) then [] else [(route, l4_rank route)].

Lemma l4Route_select table : l4Route table = fst <$> select l4_order (populated table).
Proof.
  unfold l4Route, select, populated.
  set (step := λ (best : option RouteTable) (c : RouteTable * (Z * string)),
    match best with None => Some c.1 | Some b => if l4_less c.1 b then Some c.1 else best end).
  transitivity (fold_left step (populated table) None).
  - unfold populated. rewrite <-fold_left_bind. apply fold_left_ext. intros best l _.
    rewrite <-fold_left_bind. apply fold_left_ext. intros best' route _.
    by destruct (length (rtRules route) =? 0).
  - assert (Forall (λ c, c.2 = l4_rank c.1) (populated table)) as Hall.
    { apply Forall_forall. intros c Hc%list_elem_of_In. unfold populated in Hc.
      apply list_elem_of_bind in Hc as (l & Hc & _).
      apply list_elem_of_bind in Hc as (route & Hc & _).
      destruct (_ =? _); [by apply elem_of_nil in Hc|].
      by apply list_elem_of_singleton in Hc as ->. }
    fold (populated table).
    assert (∀ b : option (RouteTable * (Z * string)),
      (∀ c, b = Some c → c.2 = l4_rank c.1) →
      fold_left step (populated table) (fst <$> b) =
        fst <$> fold_left (better l4_order) (populated table) b) as H; [|by apply (H None)].
    induction Hall as [|c cs Hc _ IH]; intros b Hb; [done|]. simpl. rewrite <-IH.
    + f_equal. destruct b as [b|]; [|done]. simpl. rewrite Hc, (Hb b eq_refl).
      change (l4_order (l4_rank c.1) (l4_rank b.1)) with (l4_less c.1 b.1).
      by destruct (l4_less c.1 b.1).
    + intros d. destruct b as [b|]; simpl; [destruct (l4_order _ _)|]; intros [= <-]; auto.
Qed.

Lemma elem_of_populated table route rank :
  (route, rank) ∈ populated table ↔
  rank = l4_rank route ∧ rtRules route ≠ [] ∧
  ∃ l, l ∈ ptListeners table ∧ route ∈ liRoutes l.
Proof.
  unfold populated. rewrite list_elem_of_bind. setoid_rewrite list_elem_of_bind. split.
  - intros (l & (route' & Hin & Hr) & Hl).
    destruct (Nat.eqb_spec (length (rtRules route')) 0); [by apply elem_of_nil in Hin|].
    apply list_elem_of_singleton in Hin as [= -> ->]. split; [done|].
    split; [by destruct (rtRules route')|eauto].
  - intros (-> & Hne & l & Hl & Hr). exists l. split; [|done]. exists route. split; [|done].
    destruct (rtRules route); [done|]. by apply list_elem_of_singleton.
Qed.

(** The candidates of a server name, in table order. *)
Definition tls_candidates (table : PortTable) (sni : string) : list (Triple * matchScore) :=
  ptListeners table ≫= λ listener,
    if hostnameMatches (liHostname listener) sni then
      liRoutes listener ≫= λ route,
        if routeHostnameMatches (rtHostnames route) sni then
          (λ rule, ((rule, listener, route), tls_score listener route sni)) <$> rtRules route
        else []
    else [].

Lemma fold_left_fmap {A B S} (f : S → B → S) (g : A → B) l s :
  fold_left f (g <$> l) s = fold_left (λ s a, f s (g a)) l s.
Proof. revert s; induction l as [|a l IH]; intros s; [done|apply IH]. Qed.

Lemma tls_best_select table sni : tls_best table sni = select beats (tls_candidates table sni).
Proof.
  unfold tls_best, select, tls_candidates. rewrite <-fold_left_bind.
  apply fold_left_ext. intros best l _. destruct (hostnameMatches _ _); [|done]. simpl.
  rewrite <-fold_left_bind. apply fold_left_ext. intros best' route _.
  destruct (routeHostnameMatches _ _); [|done]. simpl. by rewrite fold_left_fmap.
Qed.

(** A rule the passthrough port may forward a server name to. *)
Record TLSServes (table : PortTable) (sni : string)
    (rule : RuleTable) (l : ListenerTable) (route : RouteTable) : Prop := {
  ts_listener : l ∈ ptListeners table;
  ts_hostname : hostnameMatches (liHostname l) sni = true;
  ts_route : route ∈ liRoutes l;
  ts_route_hostname : routeHostnameMatches (rtHostnames route) sni = true;
  ts_rule : rule ∈ rtRules route;
}.

Lemma elem_of_tls_candidates table sni rule l route score :
  ((rule, l, route), score) ∈ tls_candidates table sni ↔
  TLSServes table sni rule l route ∧ score = tls_score l route sni.
Proof.
  unfold tls_candidates. rewrite list_elem_of_bind. split.
  - intros (l' & Hin & Hl). destruct (hostnameMatches (liHostname l') sni) eqn:Hm;
      [|by apply elem_of_nil in Hin].
    apply list_elem_of_bind in Hin as (route' & Hin & Hr).
    destruct (routeHostnameMatches (rtHostnames route') sni) eqn:Hrm; [|by apply elem_of_nil in Hin].
    apply list_elem_of_fmap in Hin as (rule' & [= -> -> -> ->] & Hru). by repeat split.
  - intros ([] & ->). exists l. split; [|done]. rewrite ts_hostname0.
    apply list_elem_of_bind. exists route. split; [|done]. rewrite ts_route_hostname0.
    apply list_elem_of_fmap. by exists rule.
Qed.

(** *** What a pick returns *)

Lemma bucket_loop_elem slot bs b : bucket_loop slot bs = Some b → b ∈ bs.
Proof.
  revert slot. induction bs as [|x bs IH]; intros slot; simpl; [done|].
  destruct (_ <? _)%Z; [intros [= ->]; left|intros ?%IH; by right].
Qed.

Lemma Pick_elem `{!GoSort} b idx s e s' :
  Pick b idx s = (Ok e, s') → e ∈ Endpoints idx (bkNamespace b) (bkName b) (bkPort b).
Proof.
  unfold Pick. destruct (_ =? 0); [done|]. destruct (fetch_add _ _) as [c s1].
  destruct (_ <? 0)%Z; [done|]. intros [= Ho _]. apply of_option_Ok in Ho.
  by eapply list_elem_of_lookup_2.
Qed.

Lemma pick_rule_spec `{!GoSort} rule idx s b e s' :
  pick_rule rule idx s = (Ok (b, e), s') →
  b ∈ ruBackends rule ∧ bkValid b = true ∧
  e ∈ Endpoints idx (bkNamespace b) (bkName b) (bkPort b).
Proof.
  unfold pick_rule, PickBackend, pickBucket. destruct (fetch_add _ _) as [c s1].
  destruct (_ <=? _)%Z; [done|].
  destruct (bucket_loop _ _) as [b'|] eqn:Hb; [|done].
  destruct (bkValid b') eqn:Hv; simpl; [|done].
  destruct (Pick b' idx s1) as [[e'|err] s2] eqn:Hp; [|done]. intros [= <- <- _].
  eauto using bucket_loop_elem, Pick_elem.
Qed.

(** A rule with backends always picks one. *)
Lemma PickBackend_total r s :
  weights_ok r → Forall (λ b, 0 < bkWeight b)%Z (ruBackends r) → ruBackends r ≠ [] →
  (0 ≤ counter s (ruAddr r) < 2 ^ 63 - 1)%Z →
  ∃ b, (PickBackend r s).1 = Some b ∧ b ∈ ruBackends r.
Proof.
  intros Hw Hpos Hne Hc. unfold PickBackend. rewrite fetch_add_small by lia. simpl.
  assert (0 < ruTotal r)%Z as Ht.
  { destruct Hw as [Hr -> _]. destruct (ruBackends r) as [|b bs]; [done|].
    apply Forall_cons_iff in Hpos as [? _]. apply Forall_cons_iff in Hr as [_ Hr].
    pose proof (expand_length bs Hr). simpl. lia. }
  rewrite pickBucket_expand by (done || lia).
  assert (Z.of_nat (length (expand (ruBackends r))) = ruTotal r) as Hlen.
  { destruct Hw. rewrite expand_length; auto. }
  destruct (lookup_lt_is_Some_2 (expand (ruBackends r))
    (Z.to_nat (Z.rem (counter s (ruAddr r)) (Z.of_nat (length (expand (ruBackends r))))))) as [b Hb].
  { rewrite Hlen. pose proof (Z.rem_bound_pos (counter s (ruAddr r)) (ruTotal r)). lia. }
  exists b. split; [done|]. apply list_elem_of_lookup_2, list_elem_of_bind in Hb as (b' & Hb & ?).
  by apply elem_of_replicate in Hb as [-> _].
Qed.

(** ** Properties *)

(** C29: Over one full turn of a rule's counter every backend is picked exactly
    as often as its weight. *)
Theorem weighted_round_robin_fair r s :
  weights_ok r → (0 < ruTotal r)%Z →
  (0 ≤ counter s (ruAddr r))%Z → (counter s (ruAddr r) + ruTotal r < 2 ^ 63)%Z →
  (pick_backends (Z.to_nat (ruTotal r)) r s).1 ≡ₚ
    Some <$> (ruBackends r ≫= λ b, replicate (Z.to_nat (bkWeight b)) b).
Proof.
  intros Hw Hpos Hc Hmax. rewrite pick_backends_counters by lia.
  assert (Z.of_nat (length (expand (ruBackends r))) = ruTotal r) as Hlen.
  { destruct Hw. rewrite expand_length; auto. }
  replace (Z.to_nat (ruTotal r)) with (length (expand (ruBackends r))) by lia.
  rewrite (list_fmap_ext _ (λ i : nat, expand (ruBackends r) !!
    Z.to_nat (Z.rem (counter s (ruAddr r) + Z.of_nat i) (Z.of_nat (length (expand (ruBackends r)))))))
    by (intros; apply pickBucket_expand; done || lia).
  rewrite round_robin_rotate by done. by rewrite rotate_Permutation.
Qed.

(** The endpoints of a service port are the addresses of its ready, non-
    terminating IPv4 endpoints, in address order. *)
Theorem endpoints_ready `{!GoSort} idx ns name port :
  sorted_by endpoint_less (Endpoints idx ns name port) ∧
  ∀ e, e ∈ Endpoints idx ns name port ↔
    ∃ svc portName slices slice ep,
      eiServices idx !! (ns +:+ "/" +:+ name) = Some svc ∧
      service_port svc port = Some portName ∧
      eiSlices idx !! (ns +:+ "/" +:+ name) = Some slices ∧ slice ∈ slices ∧
      slAddressType slice = "IPv4" ∧ slice_port (slPorts slice) portName = Some (enPort e) ∧
      ep ∈ slEndpoints slice ∧ seReady ep ≠ Some false ∧ seTerminating ep ≠ Some true ∧
      enAddress e ∈ seAddresses ep.
Proof.
  unfold Endpoints. destruct (eiServices idx !! _) as [svc|];
    [|split; [constructor|intros e; split; [by intros ?%elem_of_nil|naive_solver]]].
  destruct (service_port svc port) as [pn|] eqn:Hsp;
    [|split; [constructor|intros e; split; [by intros ?%elem_of_nil|naive_solver]]].
  split; [apply sortSlice_sorted, _|]. intros e.
  rewrite sortSlice_Permutation, list_elem_of_bind. setoid_rewrite elem_of_slice_endpoints.
  unfold eligible. setoid_rewrite andb_true_iff. setoid_rewrite negb_true_iff.
  setoid_rewrite bool_decide_eq_false.
  destruct (eiSlices idx !! _) as [slices|]; simpl; [naive_solver|].
  split; [by intros (? & _ & ?%elem_of_nil)|naive_solver].
Qed.

(** As many consecutive picks as a backend has eligible endpoints visit each of
    them exactly once. *)
Theorem endpoint_round_robin `{!GoSort} b idx s endpoints :
  Endpoints idx (bkNamespace b) (bkName b) (bkPort b) = endpoints →
  endpoints ≠ [] → (0 ≤ counter s (bkAddr b))%Z →
  (counter s (bkAddr b) + Z.of_nat (length endpoints) < 2 ^ 63)%Z →
  (pick_endpoints (length endpoints) b idx s).1 ≡ₚ Ok <$> endpoints.
Proof.
  intros <- Hne Hc Hmax. rewrite pick_endpoints_counters, round_robin_rotate by done.
  rewrite <-list_fmap_compose. rewrite rotate_Permutation. done.
Qed.

(** TCP and UDP ports serve the oldest attached route that has a rule, ties
    broken by the least key. *)
Theorem l4_route_oldest table route :
  l4Route table = Some route →
  rtRules route ≠ [] ∧ (∃ l, l ∈ ptListeners table ∧ route ∈ liRoutes l) ∧
  ∀ l' route', l' ∈ ptListeners table → route' ∈ liRoutes l' → rtRules route' ≠ [] →
    (rtCreated route < rtCreated route')%Z ∨
    (rtCreated route = rtCreated route' ∧ sless (Key route') (Key route) = false).
Proof.
  rewrite l4Route_select. destruct (select _ _) as [[r0 rank]|] eqn:Hs; [|done]. intros [= ->].
  pose proof (select_elem _ _ _ Hs) as (-> & Hne & Hin)%elem_of_populated.
  do 2 (split; [done|]). intros l' route' Hl' Hr' Hne'.
  pose proof (select_optimal l4_order _ _ (route', l4_rank route') Hs) as Ho.
  specialize (Ho ltac:(apply elem_of_populated; eauto)).
  unfold l4_order, l4_rank in Ho. simpl in Ho.
  apply orb_false_iff in Ho as [H1 H2]. bool_to_prop.
  destruct (Z.eqb_spec (rtCreated route') (rtCreated route)); [right|left]; [|lia].
  simpl in H2. done.
Qed.

(** A TCP or UDP pick is a ready endpoint of a valid backend of that route. *)
Lemma l4_pick_ready `{!GoSort} serves t port idx s sel s' :
  l4_pick serves t port idx s = (Ok sel, s') →
  ∃ table route rule b e, Port t port = Some table ∧ serves table = true ∧
    l4Route table = Some route ∧ head (rtRules route) = Some rule ∧ b ∈ ruBackends rule ∧ bkValid b = true ∧
    e ∈ Endpoints idx (bkNamespace b) (bkName b) (bkPort b) ∧
    sel = mkL4Selection (endpoint_text e) (ptGatewayName table) (Key route) (backend_text b).
Proof.
  unfold l4_pick, l4Selection. destruct (Port t port) as [table|]; [|done].
  destruct (serves table) eqn:Hs; simpl; [|done]. destruct (l4Route table) as [route|] eqn:Hr; [|done].
  destruct (rtRules route) as [|rule rules] eqn:Hrules; [done|].
  destruct (pick_rule rule idx s) as [[[b e]|err] s1] eqn:Hp; [|done]. intros [= <- <-].
  apply pick_rule_spec in Hp as (? & ? & ?).
  exists table, route, rule, b, e. by rewrite Hrules.
Qed.

(** TLS passthrough selection takes a rule serving the SNI that no other serving
    rule beats, a valid backend of it and a ready endpoint of that backend, and
    reports the listener's own termination mode and certificate. *)
Theorem pick_tls_precedence `{!GoSort} t port sni idx s sel s' :
  PickTLS t port sni idx s = (Ok sel, s') →
  ∃ table rule l route, Port t port = Some table ∧ ptTLSPassthrough table = true ∧
    TLSServes table sni rule l route ∧
    tsRoute sel = Key route ∧ tsGateway sel = ptGatewayName table ∧
    tsTerminate sel = liTerminate l ∧ tsCertificate sel = liCert l ∧
    (∃ b e, b ∈ ruBackends rule ∧ bkValid b = true ∧ tsBackend sel = backend_text b ∧
            e ∈ Endpoints idx (bkNamespace b) (bkName b) (bkPort b) ∧
            tsEndpoint sel = endpoint_text e) ∧
    ∀ rule' l' route', TLSServes table sni rule' l' route' →
      beats (tls_score l' route' sni) (tls_score l route sni) = false.
Proof.
  unfold PickTLS. destruct (Port t port) as [table|]; [|done].
  destruct (ptTLSPassthrough table) eqn:Hpt; simpl; [|done].
  rewrite tls_best_select. destruct (select _ _) as [[[[rule l] route] sc]|] eqn:Hs; [|done].
  destruct (pick_rule rule idx s) as [[[b e]|err] s1] eqn:Hp; [|done]. intros [= <- <-].
  pose proof (select_elem _ _ _ Hs) as [Hserve ->]%elem_of_tls_candidates.
  apply pick_rule_spec in Hp as (? & ? & ?).
  exists table, rule, l, route. do 7 (split; [done|]). split; [by exists b, e|].
  intros rule' l' route' Hserve'.
  apply (select_optimal beats _ _ ((rule', l', route'), tls_score l' route' sni) Hs).
  by apply elem_of_tls_candidates.
Qed.

(** ** Concrete picks *)

Definition ex_wrr : RuleTable := ex_rule 1 [] [ex_backend 2 "a" 2; ex_backend 3 "b" 0; ex_backend 4 "c" 1] false.

Lemma ex_wrr_ok : weights_ok ex_wrr.
Proof. split; [repeat constructor; vm_compute; done|reflexivity|vm_compute; reflexivity]. Qed.

Lemma weighted_round_robin_fair_witness :
  (pick_backends 3 ex_wrr {[ 1 := 7%Z ]}).1 ≡ₚ
    [Some (ex_backend 2 "a" 2); Some (ex_backend 2 "a" 2); Some (ex_backend 4 "c" 1)].
Proof.
  apply (weighted_round_robin_fair ex_wrr {[ 1 := 7%Z ]} ex_wrr_ok);
    vm_compute; first [reflexivity|discriminate].
Defined.

Definition ex_slice (eps : list SliceEndpoint) : EndpointSlice :=
  mkEndpointSlice "IPv4" [mkEndpointPort (Some "http") (Some 8080%Z)] eps.
Definition ex_index : EndpointsIndex :=
  mkEndpointsIndex {[ "default/a" := mkService [mkServicePort "http" 80] ]}
    {[ "default/a" := [ex_slice [mkSliceEndpoint ["10.0.0.2"] (Some true) None;
                                 mkSliceEndpoint ["10.0.0.9"] (Some false) None];
                       ex_slice [mkSliceEndpoint ["10.0.0.1"] None (Some false)]] ]}.

Lemma endpoint_round_robin_witness :
  (pick_endpoints 2 (ex_backend 2 "a" 2) ex_index {[ 2 := 5%Z ]}).1 ≡ₚ
    [Ok (mkEndpoint "10.0.0.1" 8080); Ok (mkEndpoint "10.0.0.2" 8080)].
Proof.
  apply (endpoint_round_robin (ex_backend 2 "a" 2) ex_index {[ 2 := 5%Z ]}
    [mkEndpoint "10.0.0.1" 8080; mkEndpoint "10.0.0.2" 8080]);
    [vm_compute; reflexivity|discriminate|vm_compute; discriminate|vm_compute; reflexivity].
Defined.

Definition ex_l4_table : PortTable :=
  ex_port [ex_listener 10 "l" "" [ex_route "z" [] [ex_wrr]; ex_route "y" [] [ex_wrr];
                                  ex_route "a" [] []]].

Lemma l4_route_oldest_witness :
  l4Route ex_l4_table = Some (ex_route "y" [] [ex_wrr]) ∧ rtRules (ex_route "y" [] [ex_wrr]) ≠ [].
Proof.
  split; [vm_compute; reflexivity|].
  apply (l4_route_oldest ex_l4_table). vm_compute; reflexivity.
Defined.

Definition ex_tls_table : PortTable :=
  mkPortTable "uid" "gw" false false false true false
    [ex_listener 10 "wide" "*.com" [ex_route "w" [] [ex_wrr]];
     ex_listener 11 "narrow" "*.example.com" [ex_route "n" [] [ex_wrr]]] None.
Definition ex_tls_tables : Tables := mkTables {[ 443%Z := ex_tls_table ]} ∅.
Definition ex_tls_selection : TLSSelection :=
  mkTLSSelection "10.0.0.1:8080" "gw" "default/n" "default/a:80" false
    (Some (mkCertificate "narrow" "narrow")).

Lemma pick_tls_precedence_witness :
  (PickTLS ex_tls_tables 443 "a.example.com" ex_index ∅).1 = Ok ex_tls_selection ∧
  ∃ table rule l route, Port ex_tls_tables 443 = Some table ∧
    TLSServes table "a.example.com" rule l route ∧
    tsRoute ex_tls_selection = Key route ∧ tsCertificate ex_tls_selection = liCert l.
Proof.
  split; [vm_compute; reflexivity|].
  destruct (pick_tls_precedence ex_tls_tables 443 "a.example.com" ex_index ∅ ex_tls_selection
    (PickTLS ex_tls_tables 443 "a.example.com" ex_index ∅).2)
    as (table & rule & l & route & H1 & _ & H2 & H3 & _ & _ & H4 & _);
    [vm_compute; reflexivity|].
  exists table, rule, l, route. auto.
Defined.

End balancing.
