(* ===== verification/Build.v ===== *)
(** * Building routing tables from a verified generation

    Models [internal/lib/transports/http/routing/build.go] and [load.go],
    with the constructors of [internal/extensions/auth] and
    [internal/extensions/waf] they call.

    Certificate parsing, JSON decoding, Coraza and SAML metadata parsing
    are the fields of [Libraries]; every theorem holds for any of them.
    Allocation is explicit: [bsNext] is the next free address, so entries
    of two tables never share a counter, while a transport adopted from the
    previous table keeps its address and with it its connection pool. *)

From S2P Require Import Prelude GoStrings Http NetIP ClientIP Compiled Sha256 Tables Matching Balancing.
From Stdlib Require QArith.QArith_base.
From stdpp Require Import options.

#[local] Open Scope nat_scope.
Import routing matching.

Module build.

(** ** The libraries the build calls *)

(** A parsed certificate, as far as the build looks into it. *)
Record X509 := mkX509 { xRaw : string; xURIs : list string }.

Class Libraries := {
  (** [tls.X509KeyPair] on certificate and key PEM *)
  x509KeyPair : string → string → result string unit;
  (** the SAML key pair parses to a certificate and a signer *)
  samlSigner : string → string → result string unit;
  (** [CertPool.AppendCertsFromPEM] *)
  appendCertsFromPEM : string → bool;
  (** [x509.ParseCertificate], [Certificate.Verify] for server
      authentication against roots and intermediates, and
      [Certificate.VerifyHostname] *)
  parseCertificate : string → result string X509;
  verifyChain : option CertPool → list X509 → X509 → result string unit;
  verifyHostname : X509 → string → bool;
  (** [coraza.NewWAF] with the directives *)
  newWAF : string → result string unit;
  (** [samlsp.ParseMetadata] *)
  parseMetadata : string → result string unit;
  (** [json.Unmarshal] into the payload types *)
  decodeAuth : string → result string compiled.Auth;
  decodeGatewayConfig : string → result string compiled.GatewayConfig;
  decodeRouteConfig : string → result string compiled.RouteConfig;
}.

(** ** Kubernetes objects *)

Record ConfigMap := mkConfigMap { cmLabels : gmap string string; cmData : gmap string string }.
Record Secret := mkSecret { scLabels : gmap string string; scData : gmap string string }.

(** Indexing a nil or missing map entry yields the zero value. *)
Definition at_key (m : gmap string string) (k : string) : string := default "" (m !! k).

Inductive BuildError :=
  | InvalidTrustedProxies (err : clientip.error)
  | MissingTLSSecret (listener : string)
  | InvalidCertificate (listener : string) (err : string)
  | InvalidClientCABundle (listener : string)
  | InvalidBackendClientCertificate (err : string)
  | MissingObject (name : string)
  | UnexpectedIdentity (name : string)
  | ChecksumMismatch (name : string)
  | InvalidGatewayConfig (name err : string)
  | InvalidAttachment (name err : string)
  | UnexpectedRole (name : string)
  | MissingSecret (name : string)
  | SecretUnexpectedIdentity (name : string)
  | SecretChecksumMismatch (name : string)
  | UnknownObjectKind (kind : string)
  | NoGatewayConfiguration.

Section build.
Context {libs : Libraries}.

(** ** Authentication enforcers *)

(** [NewCodec] derives a 32-byte key, for which AES and GCM never fail;
    [NewJWTValidator] and [NewOIDCProvider] cannot fail either. *)
Definition NewLDAPProvider (cfg : compiled.AuthLDAP) : result string unit :=
  if (compiled.alCA cfg != "") && negb (appendCertsFromPEM (compiled.alCA cfg))
  then Err "ldap ca holds no certificate" else Ok tt.

Definition NewSAMLProvider (cfg : compiled.AuthSAML) : result string unit :=
  _ ← map_err (λ e, "sp key material: " +:+ e)
        (x509KeyPair (compiled.asmSPCertPEM cfg) (compiled.asmSPKeyPEM cfg));
  _ ← samlSigner (compiled.asmSPCertPEM cfg) (compiled.asmSPKeyPEM cfg);
  if (compiled.asmIDPMetadata cfg != "")
  then map_err (λ e, "inline idp metadata: " +:+ e) (parseMetadata (compiled.asmIDPMetadata cfg))
  else Ok tt.

(** [auth.NewEnforcer]. *)
Definition NewEnforcer (cfg : compiled.Auth) : result string Enforcer :=
  _ ← match compiled.auLDAP cfg with
      | Some ldap => map_err (λ e, "ldap provider: " +:+ e) (NewLDAPProvider ldap)
      | None => Ok tt
      end;
  _ ← match compiled.auSAML cfg with
      | Some saml => map_err (λ e, "saml provider: " +:+ e) (NewSAMLProvider saml)
      | None => Ok tt
      end;
  Ok (mkEnforcer cfg).

(** [waf.NewEngine]: the engine is its directives. *)
Definition NewEngine (directives : string) : result string string :=
  _ ← newWAF directives; Ok directives.

Definition buildAuthEnforcer (identity : string) (secret : option Secret) :
    result string Enforcer :=
  secret ← of_option ("no generated secret for auth extension " +:+ identity) secret;
  payload ← of_option ("generated secret misses auth extension " +:+ identity)
              (scData secret !! compiled.AuthSecretKey identity);
  config ← map_err (λ e, "auth extension " +:+ identity +:+ ": " +:+ e) (decodeAuth payload);
  NewEnforcer config.

(** ** Backends *)

(** What the route loop threads through: the address allocator, the
    transport cache and the namespaces seen. *)
Record BuildState := mkBuildState {
  bsNext : nat;
  bsTransports : gmap string Transport;
  bsNamespaces : gset string;
}.

Definition backendTLSFingerprint (t : compiled.BackendTLS) (clientCertSum : string) : string :=
  let key := compiled.btHostname t +:+ "|" +:+ clientCertSum +:+ "|" +:+
    (if compiled.btSystemCAs t then "system" else compiled.ChecksumBytes (compiled.btCAPem t)) in
  fold_left (λ key san, key +:+ "|" +:+ compiled.sanType san +:+ ":" +:+ compiled.sanValue san)
    (compiled.btSubjectAltNames t) key.

(** The backend entry with the outcome of its TLS policy. *)
Definition backend_entry (addr : nat) (b : compiled.Backend) (key : string)
    (transport : option Transport) (invalid : bool) : BackendTable :=
  mkBackendTable addr (compiled.bNamespace b) (compiled.bName b) (compiled.bPort b)
    (compiled.bWeight b) (compiled.bValid b)
    (compiled.bAppProtocol b == compiled.AppProtocolH2C) (compiled.bFilters b)
    key transport invalid.

Definition buildBackendTable (b : compiled.Backend) (clientCert : option Certificate)
    (clientCertSum : string) (st : BuildState) : BackendTable * BuildState :=
  let addr := bsNext st in
  let st := mkBuildState (S addr) (bsTransports st) (bsNamespaces st) in
  match compiled.bTLS b with
  | None => (backend_entry addr b "" None false, st)
  | Some policy =>
      if compiled.btInvalid policy then (backend_entry addr b "" None true, st)
      else
        let key := backendTLSFingerprint policy clientCertSum in
        match bsTransports st !! key with
        | Some transport => (backend_entry addr b key (Some transport) false, st)
        | None =>
            if negb (compiled.btSystemCAs policy) && negb (appendCertsFromPEM (compiled.btCAPem policy))
            then (backend_entry addr b key None true, st)
            else
              let transport := mkTransport (bsNext st) (compiled.btHostname policy) clientCert
                (if compiled.btSystemCAs policy then None else Some (compiled.btCAPem policy))
                (compiled.btSubjectAltNames policy) in
              (backend_entry addr b key (Some transport) false,
               mkBuildState (S (bsNext st)) (<[key := transport]> (bsTransports st))
                 (bsNamespaces st))
        end
  end.

(** Every backend of a table, in iteration order. *)
Definition table_backends (t : GatewayTable) : list BackendTable :=
  map_to_list (gtByPort t) ≫= λ p, ptListeners p.2 ≫= λ l, liRoutes l ≫= λ rt,
    rtRules rt ≫= λ rule, ruBackends rule ++ (miBackend <$> ruMirrors rule).

Definition adopt (cache : gmap string Transport) (b : BackendTable) : gmap string Transport :=
  match bkTLSTransport b with
  | Some transport => if (bkTLSKey b != "") then <[bkTLSKey b := transport]> cache else cache
  | None => cache
  end.

Definition previousTransports (previous : option GatewayTable) : gmap string Transport :=
  match previous with
  | None => ∅
  | Some t => fold_left adopt (table_backends t) ∅
  end.

(** ** Rules *)

Definition note_namespace (valid : bool) (ns : string) (st : BuildState) : BuildState :=
  if valid then mkBuildState (bsNext st) (bsTransports st) ({[ns]} ∪ bsNamespaces st) else st.

(** One iteration of the filter loop. *)
Definition build_filter (clientCert : option Certificate) (sum : string)
    (acc : option compiled.CORS * list MirrorTable * BuildState) (filter : compiled.Filter) :
    option compiled.CORS * list MirrorTable * BuildState :=
  let '(cors, mirrors, st) := acc in
  let cors := if (compiled.fType filter == compiled.FilterCORS) then compiled.fCORS filter else cors in
  match compiled.fMirror filter with
  | Some target =>
      if (compiled.fType filter != compiled.FilterRequestMirror) then (cors, mirrors, st)
      else
        let percent := default (QArith_base.Qmake 100 1) (compiled.fMirrorPercent filter) in
        let '(backend, st) := buildBackendTable target clientCert sum st in
        (cors, mirrors ++ [mkMirrorTable backend percent],
         note_namespace (compiled.bValid target) (compiled.bNamespace target) st)
  | None => (cors, mirrors, st)
  end.

(** One iteration of the backend loop. *)
Definition build_backend (clientCert : option Certificate) (sum : string)
    (acc : list BackendTable * Z * BuildState) (b : compiled.Backend) :
    list BackendTable * Z * BuildState :=
  let '(backends, total, st) := acc in
  if (compiled.bWeight b <=? 0)%Z then acc
  else
    let '(backend, st) := buildBackendTable b clientCert sum st in
    (backends ++ [backend], int64_wrap (total + compiled.bWeight b),
     note_namespace (compiled.bValid b) (compiled.bNamespace b) st).

Definition millis (ms : Z) : Z := int64_wrap (ms * 1000000).

Definition build_rule (grpc : bool) (secret : option Secret) (clientCert : option Certificate)
    (sum : string) (rule : compiled.Rule) (st : BuildState) : RuleTable * BuildState :=
  let addr := bsNext st in
  let st := mkBuildState (S addr) (bsTransports st) (bsNamespaces st) in
  let '(engine, wafInvalid) :=
    if (compiled.ruWAF rule != "") then
      match NewEngine (compiled.ruWAF rule) with
      | Ok e => (Some e, false)
      | Err _ => (None, true)
      end
    else (None, false) in
  let '(enforcer, authInvalid) :=
    if (compiled.ruAuth rule != "") then
      match buildAuthEnforcer (compiled.ruAuth rule) secret with
      | Ok e => (Some e, false)
      | Err _ => (None, true)
      end
    else (None, false) in
  let '(cors, mirrors, st) :=
    fold_left (build_filter clientCert sum) (compiled.ruFilters rule) (None, [], st) in
  let '(backends, total, st) :=
    fold_left (build_backend clientCert sum) (compiled.ruBackends rule) ([], 0%Z, st) in
  (mkRuleTable addr (compiled.ruMatches rule) (compiled.ruFilters rule) backends mirrors cors grpc
     (millis (compiled.ruRequestTimeoutMillis rule)) (millis (compiled.ruBackendTimeoutMillis rule))
     total (compiled.ruRateLimit rule) engine enforcer
     (compiled.ruExtensionsInvalid rule || wafInvalid || authInvalid), st).

Definition build_rules (grpc : bool) (secret : option Secret) (clientCert : option Certificate)
    (sum : string) (rules : list compiled.Rule) (st : BuildState) : list RuleTable * BuildState :=
  fold_left (λ '(acc, st) rule,
    let '(entry, st) := build_rule grpc secret clientCert sum rule st in (acc ++ [entry], st))
    rules ([], st).

Definition build_route (secret : option Secret) (clientCert : option Certificate)
    (sum : string) (route : compiled.RouteConfig) (st : BuildState) : RouteTable * BuildState :=
  let '(rules, st) := build_rules (compiled.rcGRPC route) secret clientCert sum (compiled.rcRules route) st in
  (mkRouteTable (compiled.rcNamespace route) (compiled.rcName route)
     (compiled.rcHostnames route) (compiled.rcCreated route) rules, st).

(** ** Listeners

    Listener entries are heap objects: the port lists and the name index
    both point to them and routes are appended later.  [leEntries] is the
    heap, positions are the pointers. *)

Record ListenerEnv := mkListenerEnv {
  leEntries : list ListenerTable;
  leNames : gmap string nat;
  lePorts : gmap Z (PortTable * list nat);
}.

Definition secret_at (secret : Secret) (k : string) : string := at_key (scData secret) k.

Definition listener_certificate (secret : option Secret) (lst : compiled.Listener) :
    result BuildError (option Certificate) :=
  if negb (compiled.lHasTLS lst) then Ok None
  else
    secret ← of_option (MissingTLSSecret (compiled.lName lst)) secret;
    let cert := secret_at secret (compiled.lName lst +:+ ".tls.crt") in
    let key := secret_at secret (compiled.lName lst +:+ ".tls.key") in
    _ ← map_err (InvalidCertificate (compiled.lName lst)) (x509KeyPair cert key);
    Ok (Some (mkCertificate cert key)).

Definition listener_client_auth (secret : option Secret) (lst : compiled.Listener) :
    result BuildError (option CertPool * ClientAuthType) :=
  if (compiled.lClientCAMode lst == "") then Ok (None, NoClientCert)
  else
    secret ← of_option (MissingTLSSecret (compiled.lName lst)) secret;
    let bundle := secret_at secret (compiled.lName lst +:+ ".client-ca.crt") in
    _ ← guard_err (appendCertsFromPEM bundle) (InvalidClientCABundle (compiled.lName lst));
    Ok (Some bundle,
        if (compiled.lClientCAMode lst == "AllowInsecureFallback")
        then RequestClientCert else RequireAndVerifyClientCert).

Definition new_port (gateway : compiled.GatewayConfig) (trust : option clientip.Trust)
    (lst : compiled.Listener) : PortTable :=
  mkPortTable (compiled.gcUID gateway)
    (compiled.gcNamespace gateway +:+ "/" +:+ compiled.gcName gateway)
    (compiled.lHasTLS lst && (compiled.lProtocol lst != "TLS"))
    (compiled.lProtocol lst == "TCP") (compiled.lProtocol lst == "UDP")
    (compiled.lProtocol lst == "TLS") false [] trust.

Definition with_proxy_protocol (b : bool) (p : PortTable) : PortTable :=
  mkPortTable (ptGatewayUID p) (ptGatewayName p) (ptTLS p) (ptTCP p) (ptUDP p)
    (ptTLSPassthrough p) (ptProxyProtocol p || b) (ptListeners p) (ptTrust p).

Definition build_listener (gateway : compiled.GatewayConfig) (trust : option clientip.Trust)
    (secret : option Secret) (base : nat) (env : ListenerEnv) (lst : compiled.Listener) :
    result BuildError ListenerEnv :=
  cert ← listener_certificate secret lst;
  auth ← listener_client_auth secret lst;
  let i := length (leEntries env) in
  let entry := mkListenerTable (base + i) (compiled.lName lst) (compiled.lHostname lst) cert
    ((compiled.lProtocol lst == "TLS") && compiled.lHasTLS lst) auth.1 auth.2 [] in
  let '(port, members) := default (new_port gateway trust lst, [])
    (lePorts env !! compiled.lInternalPort lst) in
  Ok (mkListenerEnv (leEntries env ++ [entry]) (<[compiled.lName lst := i]> (leNames env))
       (<[compiled.lInternalPort lst :=
          (with_proxy_protocol (compiled.lProxyProtocol lst) port, members ++ [i])]> (lePorts env))).

(** ** The gateway table *)

Definition add_route (rt : RouteTable) (l : ListenerTable) : ListenerTable :=
  mkListenerTable (liAddr l) (liName l) (liHostname l) (liCert l) (liTerminate l)
    (liClientCAs l) (liClientAuth l) (liRoutes l ++ [rt]).

(** Append the route to every listener it names. *)
Definition attach_route (names : gmap string nat) (rt : RouteTable) (listeners : list string)
    (entries : list ListenerTable) : list ListenerTable :=
  fold_left (λ entries name,
    match names !! name with
    | Some i => alter (add_route rt) i entries
    | None => entries
    end) listeners entries.

Definition build_routes (secret : option Secret) (clientCert : option Certificate) (sum : string)
    (names : gmap string nat) (routes : list compiled.RouteConfig)
    (entries : list ListenerTable) (st : BuildState) : list ListenerTable * BuildState :=
  fold_left (λ '(entries, st) route,
    let '(rt, st) := build_route secret clientCert sum route st in
    (attach_route names rt (compiled.rcListeners route) entries, st)) routes (entries, st).

Definition listener_less (a b : ListenerTable) : bool :=
  (hostnameSpecificity (liHostname b) <? hostnameSpecificity (liHostname a))%Z.

Definition finish_port (entries : list ListenerTable) (p : PortTable * list nat) : PortTable :=
  mkPortTable (ptGatewayUID p.1) (ptGatewayName p.1) (ptTLS p.1) (ptTCP p.1) (ptUDP p.1)
    (ptTLSPassthrough p.1) (ptProxyProtocol p.1)
    (sliceStable listener_less (omap (λ i, entries !! i) p.2)) (ptTrust p.1).

Definition backend_client_cert (gateway : compiled.GatewayConfig) (secret : option Secret) :
    result BuildError (option Certificate * string) :=
  match secret with
  | Some secret =>
      if compiled.gcBackendClientCert gateway then
        let certPem := secret_at secret compiled.BackendClientCertKey in
        let keyPem := secret_at secret compiled.BackendClientKeyKey in
        _ ← map_err InvalidBackendClientCertificate (x509KeyPair certPem keyPem);
        Ok (Some (mkCertificate certPem keyPem), compiled.ChecksumBytes (certPem +:+ keyPem))
      else Ok (None, "")
  | None => Ok (None, "")
  end.

(** [next] is the first free address; the result carries the new one. *)
Definition BuildGatewayTable (generation : string) (gateway : compiled.GatewayConfig)
    (routes : list compiled.RouteConfig) (secret : option Secret)
    (previous : option GatewayTable) (next : nat) : result BuildError (GatewayTable * nat) :=
  trust ← map_err InvalidTrustedProxies (clientip.New (compiled.gcTrustedProxies gateway));
  env ← foldM (build_listener gateway trust secret next) (mkListenerEnv [] ∅ ∅)
          (compiled.gcListeners gateway);
  client ← backend_client_cert gateway secret;
  let '(clientCert, sum) := client in
  let st := mkBuildState (next + length (leEntries env)) (previousTransports previous) ∅ in
  let '(entries, st) :=
    build_routes secret clientCert sum (leNames env) routes (leEntries env) st in
  Ok (mkGatewayTable generation (finish_port entries <$> lePorts env) (bsNamespaces st), bsNext st).

(** ** Backend certificate verification *)

Inductive VerifyError := NoCertificate | BadCertificate | BadChain | NoSANMatch.

Definition san_matches (leaf : X509) (san : compiled.SubjectAltName) : bool :=
  if (compiled.sanType san == "Hostname") then verifyHostname leaf (compiled.sanValue san)
  else if (compiled.sanType san == "URI") then existsb (λ uri, uri == compiled.sanValue san) (xURIs leaf)
  else false.

Definition sanVerifier (pool : option CertPool) (sans : list compiled.SubjectAltName)
    (rawCerts : list string) : result VerifyError unit :=
  certs ← foldM (λ acc raw, cert ← map_err (λ _, BadCertificate) (parseCertificate raw);
                            Ok (acc ++ [cert])) [] rawCerts;
  match certs with
  | [] => Err NoCertificate
  | leaf :: intermediates =>
      _ ← map_err (λ _, BadChain) (verifyChain pool intermediates leaf);
      guard_err (existsb (san_matches leaf) sans) NoSANMatch
  end.

(** ** Loading a generation *)

Record LoadState := mkLoadState {
  ldGateway : option compiled.GatewayConfig;
  ldRoutes : list compiled.RouteConfig;
  ldSecret : option Secret;
}.

Definition load_configmap (uid : string) (cm : ConfigMap) (ref : compiled.ObjectRef) (st : LoadState) :
    result BuildError LoadState :=
  let name := compiled.orName ref in
  _ ← guard_err (at_key (cmLabels cm) compiled.LabelGatewayUID == uid) (UnexpectedIdentity name);
  let payload := at_key (cmData cm) compiled.DataKey in
  _ ← guard_err (compiled.ChecksumBytes payload == compiled.orChecksum ref) (ChecksumMismatch name);
  let role := at_key (cmLabels cm) compiled.LabelRole in
  if (role == compiled.RoleGatewayCfg) then
    config ← map_err (InvalidGatewayConfig name) (decodeGatewayConfig payload);
    Ok (mkLoadState (Some config) (ldRoutes st) (ldSecret st))
  else if (role == compiled.RoleAttachment) then
    route ← map_err (InvalidAttachment name) (decodeRouteConfig payload);
    Ok (mkLoadState (ldGateway st) (ldRoutes st ++ [route]) (ldSecret st))
  else Err (UnexpectedRole name).

Definition load_secret (uid : string) (obj : Secret) (ref : compiled.ObjectRef) (st : LoadState) :
    result BuildError LoadState :=
  let name := compiled.orName ref in
  _ ← guard_err (at_key (scLabels obj) compiled.LabelGatewayUID == uid) (SecretUnexpectedIdentity name);
  _ ← guard_err (compiled.ChecksumSecret (scData obj) == compiled.orChecksum ref) (SecretChecksumMismatch name);
  Ok (mkLoadState (ldGateway st) (ldRoutes st) (Some obj)).

Definition load_object (uid : string) (configMaps : gmap string ConfigMap)
    (secrets : gmap string Secret) (st : LoadState) (ref : compiled.ObjectRef) :
    result BuildError LoadState :=
  if (compiled.orKind ref == compiled.ObjectKindConfigMap) then
    cm ← of_option (MissingObject (compiled.orName ref)) (configMaps !! compiled.orName ref);
    load_configmap uid cm ref st
  else if (compiled.orKind ref == compiled.ObjectKindSecret) then
    obj ← of_option (MissingSecret (compiled.orName ref)) (secrets !! compiled.orName ref);
    load_secret uid obj ref st
  else Err (UnknownObjectKind (compiled.orKind ref)).

Definition LoadGeneration (manifest : compiled.Manifest) (configMaps : gmap string ConfigMap)
    (secrets : gmap string Secret) (previous : option GatewayTable) (next : nat) :
    result BuildError (GatewayTable * nat) :=
  st ← foldM (load_object (compiled.mfGatewayUID manifest) configMaps secrets)
         (mkLoadState None [] None) (compiled.mfObjects manifest);
  gateway ← of_option NoGatewayConfiguration (ldGateway st);
  BuildGatewayTable (compiled.mfGeneration manifest) gateway (ldRoutes st) (ldSecret st)
    previous next.

End build.

(** ** Merging

    The gateways arrive in the order Go iterates over the map: any
    permutation of its values. *)

Definition merge_one (merged : Tables) (gw : GatewayTable) : Tables :=
  mkTables (gtByPort gw ∪ tByPort merged) (tBackends merged ∪ gtNamespaces gw).

Definition MergeTables (gateways : list GatewayTable) : Tables :=
  fold_left merge_one gateways EmptyTables.

(** ** Fingerprints *)

(** No field of the policy can be mistaken for a separator. *)
Record policy_wf (t : compiled.BackendTLS) : Prop := {
  pw_hostname : has_byte "|" (compiled.btHostname t) = false;
  pw_sans : Forall (λ san, has_byte "|" (compiled.sanType san) = false ∧
                           has_byte ":" (compiled.sanType san) = false ∧
                           has_byte "|" (compiled.sanValue san) = false)
              (compiled.btSubjectAltNames t);
}.

Definition ca_text (t : compiled.BackendTLS) : string :=
  if compiled.btSystemCAs t then "system" else compiled.ChecksumBytes (compiled.btCAPem t).
Definition san_text (san : compiled.SubjectAltName) : string :=
  compiled.sanType san +:+ ":" +:+ compiled.sanValue san.

Lemma ca_text_bar t : has_byte "|" (ca_text t) = false.
Proof. unfold ca_text. destruct (compiled.btSystemCAs t); [done|]. apply sha256_hex_bar. Qed.

Lemma san_fold_split sans key :
  Forall (λ san, has_byte "|" (san_text san) = false) sans →
  splitOn "|" (fold_left (λ key san, key +:+ "|" +:+ compiled.sanType san +:+ ":" +:+
                                    compiled.sanValue san) sans key) =
  splitOn "|" key ++ (san_text <$> sans).
Proof.
  intros H. revert key. induction H as [|san sans Hs _ IH]; intros key; cbn [fold_left].
  - by rewrite app_nil_r.
  - rewrite IH.
    trans ((splitOn "|" key ++ [san_text san]) ++ (san_text <$> sans));
      [f_equal; by apply splitOn_snoc|by rewrite <-app_assoc].
Qed.

Lemma san_text_inj s1 s2 :
  has_byte ":" (compiled.sanType s1) = false → has_byte ":" (compiled.sanType s2) = false →
  san_text s1 = san_text s2 → s1 = s2.
Proof.
  destruct s1 as [t1 v1], s2 as [t2 v2]. unfold san_text; simpl. revert t2.
  induction t1 as [|c t1 IH]; intros [|d t2]; rewrite ?app_empty_l, ?app_cons;
    cbn [has_byte]; intros H1 H2 Heq; bool_to_prop; simplify_eq; [done|].
  assert (compiled.mkSubjectAltName t1 v1 = compiled.mkSubjectAltName t2 v2) by auto.
  by simplify_eq.
Qed.

Lemma fingerprint_fields t sum :
  policy_wf t → has_byte "|" sum = false →
  splitOn "|" (backendTLSFingerprint t sum) =
    compiled.btHostname t :: sum :: ca_text t :: (san_text <$> compiled.btSubjectAltNames t).
Proof.
  intros [Hh Hs] Hsum. unfold backendTLSFingerprint. rewrite san_fold_split.
  - rewrite !splitOn_app_sep by done. fold (ca_text t).
    by rewrite splitOn_single by apply ca_text_bar.
  - eapply Forall_impl; [|exact Hs]. intros san (H1 & _ & H2). unfold san_text.
    by rewrite !has_byte_app, H1, H2.
Qed.

(** Equal fingerprints come from interchangeable policies. *)
Lemma fingerprint_inj t1 sum1 t2 sum2 :
  policy_wf t1 → policy_wf t2 → has_byte "|" sum1 = false → has_byte "|" sum2 = false →
  backendTLSFingerprint t1 sum1 = backendTLSFingerprint t2 sum2 →
  compiled.btHostname t1 = compiled.btHostname t2 ∧ sum1 = sum2 ∧
  compiled.btSystemCAs t1 = compiled.btSystemCAs t2 ∧ ca_text t1 = ca_text t2 ∧
  compiled.btSubjectAltNames t1 = compiled.btSubjectAltNames t2.
Proof.
  intros W1 W2 B1 B2 Heq. apply (f_equal (splitOn "|")) in Heq.
  rewrite !fingerprint_fields in Heq by done. injection Heq as -> -> Hca Hsans.
  do 2 (split; [done|]). split; [|split; [done|]].
  - unfold ca_text in Hca. apply (f_equal len) in Hca. unfold compiled.ChecksumBytes in Hca.
    destruct (compiled.btSystemCAs t1), (compiled.btSystemCAs t2); try done;
      rewrite len_sha256_hex in Hca; done.
  - destruct W1 as [_ S1], W2 as [_ S2]. revert Hsans S1 S2.
    generalize (compiled.btSubjectAltNames t1) (compiled.btSubjectAltNames t2).
    induction l as [|s1 l1 IH]; intros [|s2 l2]; [done..|]. cbn [fmap list_fmap].
    intros [= Hs Hl] [(_ & H1 & _) F1]%Forall_cons_iff [(_ & H2 & _) F2]%Forall_cons_iff.
    f_equal; [by apply san_text_inj|auto].
Qed.

(** ** What the build establishes *)

Section sound.
Context {libs : Libraries}.

Definition cert_sum (c : option Certificate) : string :=
  match c with None => "" | Some c => compiled.ChecksumBytes (certPem c +:+ keyPem c) end.

Lemma cert_sum_bar c : has_byte "|" (cert_sum c) = false.
Proof. destruct c; [apply sha256_hex_bar|done]. Qed.

(** The transport is the one a policy with this fingerprint asks for. *)
Definition describes (key : string) (tr : Transport) : Prop :=
  ∃ policy, policy_wf policy ∧
    key = backendTLSFingerprint policy (cert_sum (trCertificate tr)) ∧
    trServerName tr = compiled.btHostname policy ∧
    trSANs tr = compiled.btSubjectAltNames policy ∧
    trRootCAs tr = (if compiled.btSystemCAs policy then None else Some (compiled.btCAPem policy)).

(** What a transport owes a policy; certificate bundles and the client
    certificate are told apart by their checksums. *)
Definition tls_fits (policy : compiled.BackendTLS) (cc : option Certificate) (tr : Transport) : Prop :=
  trServerName tr = compiled.btHostname policy ∧ trSANs tr = compiled.btSubjectAltNames policy ∧
  (trRootCAs tr = None ↔ compiled.btSystemCAs policy = true) ∧
  (∀ pool, trRootCAs tr = Some pool →
     compiled.ChecksumBytes pool = compiled.ChecksumBytes (compiled.btCAPem policy)) ∧
  cert_sum (trCertificate tr) = cert_sum cc.

Lemma describes_policy policy cc key tr :
  policy_wf policy → key = backendTLSFingerprint policy (cert_sum cc) → describes key tr →
  tls_fits policy cc tr.
Proof.
  unfold tls_fits. intros Hwf -> (p0 & Hwf0 & Heq & -> & -> & ->).
  apply fingerprint_inj in Heq as (<- & Hsum & Hsys & Hca & <-);
    [|done|done|apply cert_sum_bar|apply cert_sum_bar].
  rewrite Hsys in *. unfold ca_text in Hca. rewrite Hsys in Hca.
  destruct (compiled.btSystemCAs p0) eqn:Hs.
  - repeat split; done.
  - do 2 (split; [done|]). split; [done|]. split; [|done]. by intros pool [= <-].
Qed.

Definition cache_ok (cache : gmap string Transport) : Prop := map_Forall describes cache.

Definition backend_wf (b : compiled.Backend) : Prop :=
  match compiled.bTLS b with Some policy => policy_wf policy | None => True end.

(** The TLS side of a built backend: policies that were rejected or whose
    bundle does not parse fail closed, others get a transport fitting the
    policy. *)
Definition tls_sound (cc : option Certificate) (policy : option compiled.BackendTLS)
    (e : BackendTable) : Prop :=
  match policy, bkTLSTransport e with
  | None, tr => tr = None ∧ bkTLSInvalid e = false
  | Some policy, None =>
      bkTLSInvalid e = true ∧
      (compiled.btInvalid policy = true ∨
       (compiled.btSystemCAs policy = false ∧ appendCertsFromPEM (compiled.btCAPem policy) = false))
  | Some policy, Some tr =>
      bkTLSInvalid e = false ∧ compiled.btInvalid policy = false ∧
      bkTLSKey e = backendTLSFingerprint policy (cert_sum cc) ∧ describes (bkTLSKey e) tr ∧
      tls_fits policy cc tr
  end.

Definition backend_sound (cc : option Certificate) (b : compiled.Backend) (e : BackendTable) : Prop :=
  bkNamespace e = compiled.bNamespace b ∧ bkName e = compiled.bName b ∧
  bkPort e = compiled.bPort b ∧ bkWeight e = compiled.bWeight b ∧
  bkValid e = compiled.bValid b ∧ bkFilters e = compiled.bFilters b ∧
  (bkH2C e = true ↔ compiled.bAppProtocol b = "kubernetes.io/h2c") ∧
  tls_sound cc (compiled.bTLS b) e.

Lemma buildBackendTable_sound b cc st e st' :
  backend_wf b → cache_ok (bsTransports st) →
  buildBackendTable b cc (cert_sum cc) st = (e, st') →
  backend_sound cc b e ∧ cache_ok (bsTransports st').
Proof.
  unfold backend_wf, buildBackendTable, backend_sound, tls_sound. simpl. intros Hwf Hc.
  assert ((compiled.bAppProtocol b == compiled.AppProtocolH2C) = true ↔
    compiled.bAppProtocol b = "kubernetes.io/h2c") as Hh by apply bool_decide_eq_true.
  destruct (compiled.bTLS b) as [policy|]; [|intros [= <- <-]; simpl; auto 12].
  destruct (compiled.btInvalid policy) eqn:Hi; [intros [= <- <-]; simpl; auto 12|].
  destruct (bsTransports st !! _) as [tr|] eqn:Hl.
  { intros [= <- <-]; simpl. pose proof (Hc _ _ Hl) as Hd.
    pose proof (describes_policy _ cc _ _ Hwf eq_refl Hd). auto 16. }
  destruct (negb (compiled.btSystemCAs policy) && _) eqn:Hpool.
  { apply andb_true_iff in Hpool as [?%negb_true_iff ?%negb_true_iff]. intros [= <- <-]; simpl; auto 12. }
  intros [= <- <-]; simpl.
  assert (describes (backendTLSFingerprint policy (cert_sum cc))
    (mkTransport (S (bsNext st)) (compiled.btHostname policy) cc
       (if compiled.btSystemCAs policy then None else Some (compiled.btCAPem policy))
       (compiled.btSubjectAltNames policy))) as Hd by (by exists policy).
  pose proof (describes_policy _ cc _ _ Hwf eq_refl Hd).
  split; [auto 16|]. by apply map_Forall_insert_2.
Qed.

(** *** Rules *)

Definition kept (rule : compiled.Rule) : list compiled.Backend :=
  filter (λ b, 0 < compiled.bWeight b)%Z (compiled.ruBackends rule).

Definition mirror_targets (rule : compiled.Rule) : list compiled.Backend :=
  omap compiled.fMirror (compiled.ruFilters rule).

(** The mirrors a rule asks for, with their percentage, and its CORS policy:
    that of its last CORS filter. *)
Definition wanted_mirror (f : compiled.Filter) : option (compiled.Backend * QArith_base.Q) :=
  if decide (compiled.fType f = "RequestMirror")
  then (λ target, (target, default (QArith_base.Qmake 100 1) (compiled.fMirrorPercent f))) <$> compiled.fMirror f
  else None.
Definition wanted_mirrors (rule : compiled.Rule) : list (compiled.Backend * QArith_base.Q) :=
  omap wanted_mirror (compiled.ruFilters rule).
Definition wanted_cors (fs : list compiled.Filter) : list (option compiled.CORS) :=
  compiled.fCORS <$> filter (λ f, compiled.fType f = "CORS") fs.

Definition mirror_sound (cc : option Certificate) (wanted : compiled.Backend * QArith_base.Q) (m : MirrorTable) : Prop :=
  backend_sound cc wanted.1 (miBackend m) ∧ miPercent m = wanted.2.

Definition rule_wf (rule : compiled.Rule) : Prop :=
  Forall backend_wf (compiled.ruBackends rule) ∧ Forall backend_wf (mirror_targets rule).

Lemma build_backend_loop cc bs acc total st out total' st' :
  Forall backend_wf bs → cache_ok (bsTransports st) →
  fold_left (build_backend cc (cert_sum cc)) bs (acc, total, st) = (out, total', st') →
  cache_ok (bsTransports st') ∧
  total' = fold_left (λ t b, int64_wrap (t + compiled.bWeight b))
             (filter (λ b, 0 < compiled.bWeight b)%Z bs) total ∧
  ∃ new, out = acc ++ new ∧
         Forall2 (backend_sound cc) (filter (λ b, 0 < compiled.bWeight b)%Z bs) new.
Proof.
  intros Hwf. revert acc total st.
  induction Hwf as [|b bs Hb _ IH]; intros acc total st Hc; cbn [fold_left].
  { intros [= <- <- <-]. do 2 (split; [done|]). exists []. by rewrite app_nil_r. }
  rewrite filter_cons. unfold build_backend at 2.
  destruct (Z.leb_spec (compiled.bWeight b) 0); [rewrite decide_False by lia; by apply IH|].
  rewrite decide_True by lia.
  destruct (buildBackendTable b cc (cert_sum cc) st) as [e st1] eqn:Hbt.
  destruct (buildBackendTable_sound _ _ _ _ _ Hb Hc Hbt) as [Hs Hc1].
  intros (H1 & H2 & new & -> & H3)%IH; [|by destruct (compiled.bValid b)].
  split; [done|]. split; [done|]. exists (e :: new). split; [by rewrite <-app_assoc|].
  by constructor.
Qed.

Lemma build_filter_loop cc fs cors mirrors st cors' out st' :
  Forall backend_wf (omap compiled.fMirror fs) → cache_ok (bsTransports st) →
  fold_left (build_filter cc (cert_sum cc)) fs (cors, mirrors, st) = (cors', out, st') →
  cache_ok (bsTransports st') ∧ cors' = default cors (list.last (wanted_cors fs)) ∧
  ∃ new, out = mirrors ++ new ∧ Forall2 (mirror_sound cc) (omap wanted_mirror fs) new.
Proof.
  revert cors mirrors st. induction fs as [|f fs IH]; intros cors mirrors st Hwf Hc; cbn [fold_left].
  { intros [= <- <- <-]. do 2 (split; [done|]). exists []. by rewrite app_nil_r. }
  assert (∀ c, default (if compiled.fType f == compiled.FilterCORS then compiled.fCORS f else c)
      (list.last (wanted_cors fs)) = default c (list.last (wanted_cors (f :: fs)))) as Hcors.
  { intros c. unfold wanted_cors. rewrite filter_cons. case_bool_decide as Ht; [rewrite decide_True by done|rewrite decide_False by done; done].
    rewrite fmap_cons, last_cons. by destruct (list.last _). }
  cbn [omap list_omap] in *. unfold build_filter at 2. unfold wanted_mirror at 1.
  destruct (compiled.fMirror f) as [target|].
  2:{ intros (H1 & -> & H2)%IH; [|done..]. rewrite Hcors. by destruct (decide _). }
  apply Forall_cons_iff in Hwf as [Hb Hwf].
  destruct (bool_decide_reflect (compiled.fType f = compiled.FilterRequestMirror)) as [Ht|Ht]; cbn [negb];
    [rewrite decide_True by done|rewrite decide_False by done].
  2:{ intros (H1 & -> & H2)%IH; [|done..]. by rewrite Hcors. }
  destruct (buildBackendTable target cc (cert_sum cc) st) as [e st1] eqn:Hbt.
  destruct (buildBackendTable_sound _ _ _ _ _ Hb Hc Hbt) as [Hs Hc1].
  intros (H1 & -> & new & -> & H2)%IH; [|done|by destruct (compiled.bValid target)].
  split; [done|]. split; [by rewrite Hcors|].
  exists (mkMirrorTable e (default (QArith_base.Qmake 100 1) (compiled.fMirrorPercent f)) :: new).
  split; [by rewrite <-app_assoc|]. by constructor.
Qed.

(** The enforcer configured by the generated Secret. *)
Definition enforcer_of (secret : option Secret) (identity : string) (e : Enforcer) : Prop :=
  ∃ s payload, secret = Some s ∧ scData s !! ("auth-" +:+ identity +:+ ".json") = Some payload ∧
    decodeAuth payload = Ok (enCfg e).

(** A rule entry against the compiled rule it was built from. *)
Record rule_sound (grpc : bool) (secret : option Secret) (cc : option Certificate)
    (rule : compiled.Rule) (r : RuleTable) : Prop := {
  rs_matches : routing.ruMatches r = compiled.ruMatches rule;
  rs_filters : routing.ruFilters r = compiled.ruFilters rule;
  rs_grpc : ruGRPC r = grpc;
  rs_backends : Forall2 (backend_sound cc) (kept rule) (ruBackends r);
  rs_total : ruTotal r = fold_left (λ t b, int64_wrap (t + compiled.bWeight b)) (kept rule) 0%Z;
  rs_mirrors : Forall2 (mirror_sound cc) (wanted_mirrors rule) (ruMirrors r);
  rs_cors : ruCORS r = default None (list.last (wanted_cors (compiled.ruFilters rule)));
  rs_timeouts : ruRequestTimeout r = int64_wrap (compiled.ruRequestTimeoutMillis rule * 1000000) ∧
                ruBackendTimeout r = int64_wrap (compiled.ruBackendTimeoutMillis rule * 1000000);
  rs_limiter : ruLimiter r = compiled.ruRateLimit rule;
  rs_closed : ruExtensionsInvalid r = false →
    compiled.ruExtensionsInvalid rule = false ∧
    (compiled.ruWAF rule ≠ "" → ruWAFEngine r = Some (compiled.ruWAF rule)) ∧
    (compiled.ruAuth rule ≠ "" → ∃ e, ruAuthEnforcer r = Some e ∧ enforcer_of secret (compiled.ruAuth rule) e);
  rs_open : ruExtensionsInvalid r = true →
    compiled.ruExtensionsInvalid rule = true ∨
    (compiled.ruWAF rule ≠ "" ∧ ∃ err, newWAF (compiled.ruWAF rule) = Err err) ∨
    (compiled.ruAuth rule ≠ "" ∧ ∃ err, buildAuthEnforcer (compiled.ruAuth rule) secret = Err err);
  rs_plain : (compiled.ruWAF rule = "" → ruWAFEngine r = None) ∧
             (compiled.ruAuth rule = "" → ruAuthEnforcer r = None);
}.

Lemma buildAuthEnforcer_of identity secret e :
  buildAuthEnforcer identity secret = Ok e → enforcer_of secret identity e.
Proof.
  unfold buildAuthEnforcer. rewrite bind_Ok. intros (s & Hs%of_option_Ok & H).
  rewrite bind_Ok in H. destruct H as (payload & Hp%of_option_Ok & H).
  destruct (decodeAuth payload) as [cfg|] eqn:Hc; [|done]. cbn [map_err mbind result_bind] in H.
  exists s, payload. do 2 (split; [done|]). unfold NewEnforcer in H.
  rewrite bind_Ok in H. destruct H as (_ & _ & H). rewrite bind_Ok in H. destruct H as (_ & _ & [= <-]). done.
Qed.

Lemma build_rule_sound grpc secret cc rule st r st' :
  rule_wf rule → cache_ok (bsTransports st) →
  build_rule grpc secret cc (cert_sum cc) rule st = (r, st') →
  rule_sound grpc secret cc rule r ∧ cache_ok (bsTransports st').
Proof.
  intros [Hwb Hwm] Hc. unfold build_rule.
  destruct (if compiled.ruWAF rule != "" then _ else _) as [engine wi] eqn:Hw.
  destruct (if compiled.ruAuth rule != "" then _ else _) as [enforcer ai] eqn:Ha.
  destruct (fold_left (build_filter _ _) _ _) as [[cors mirrors] st1] eqn:Hf.
  destruct (fold_left (build_backend _ _) _ _) as [[backends total] st2] eqn:Hb.
  intros [= <- <-].
  apply build_filter_loop in Hf as (Hc1 & -> & new & -> & Hm); [|done|done].
  apply build_backend_loop in Hb as (Hc2 & Ht & new' & -> & Hbs); [|done|done].
  assert ((compiled.ruWAF rule = "" ∧ engine = None ∧ wi = false) ∨
    (compiled.ruWAF rule ≠ "" ∧ ((engine = Some (compiled.ruWAF rule) ∧ wi = false) ∨
     ((∃ err, newWAF (compiled.ruWAF rule) = Err err) ∧ wi = true)))) as Hw'.
  { destruct (decide (compiled.ruWAF rule = "")) as [Hn|Hn];
      [rewrite bool_decide_eq_true_2 in Hw by done|rewrite bool_decide_eq_false_2 in Hw by done]; cbn in Hw;
      [injection Hw as <- <-; auto|].
    unfold NewEngine in Hw. destruct (newWAF (compiled.ruWAF rule)) as [u|err] eqn:Hu; cbn in Hw; injection Hw as <- <-; eauto 10. }
  assert ((compiled.ruAuth rule = "" ∧ enforcer = None ∧ ai = false) ∨
    (compiled.ruAuth rule ≠ "" ∧ ((∃ e, enforcer = Some e ∧ enforcer_of secret (compiled.ruAuth rule) e ∧ ai = false) ∨
     ((∃ err, buildAuthEnforcer (compiled.ruAuth rule) secret = Err err) ∧ ai = true)))) as Ha'.
  { destruct (decide (compiled.ruAuth rule = "")) as [Hn|Hn];
      [rewrite bool_decide_eq_true_2 in Ha by done|rewrite bool_decide_eq_false_2 in Ha by done]; cbn in Ha;
      [injection Ha as <- <-; auto|].
    destruct (buildAuthEnforcer (compiled.ruAuth rule) secret) as [e|err] eqn:He; injection Ha as <- <-;
      [apply buildAuthEnforcer_of in He|]; eauto 10. }
  clear Hw Ha. split; [|done]. split; try done; simpl.
  - rewrite !orb_false_iff. intros [[? ->] ->].
    split; [done|]. split; intros Hne; [destruct Hw' as [?|[_ [[? _]|[_ ?]]]]|destruct Ha' as [?|[_ [(e & ? & ? & _)|[_ ?]]]]];
      naive_solver.
  - rewrite !orb_true_iff. intros [[?| ->]| ->]; [by left|right; left|right; right]; naive_solver.
  - split; intros He; [destruct Hw' as [?|[? _]]|destruct Ha' as [?|[? _]]]; naive_solver.
Qed.

(** *** Listeners *)

(** The material of the generated Secret a listener is configured with. *)
Definition certificate_of (secret : option Secret) (lst : compiled.Listener) (cert : option Certificate) : Prop :=
  if compiled.lHasTLS lst then
    ∃ s, secret = Some s ∧
      cert = Some (mkCertificate (default "" (scData s !! (compiled.lName lst +:+ ".tls.crt")))
                                 (default "" (scData s !! (compiled.lName lst +:+ ".tls.key"))))
  else cert = None.

Definition client_auth_of (secret : option Secret) (lst : compiled.Listener)
    (cas : option CertPool) (auth : ClientAuthType) : Prop :=
  if decide (compiled.lClientCAMode lst = "") then cas = None ∧ auth = NoClientCert
  else ∃ s, secret = Some s ∧ cas = Some (default "" (scData s !! (compiled.lName lst +:+ ".client-ca.crt"))) ∧
         auth = if decide (compiled.lClientCAMode lst = "AllowInsecureFallback")
                then RequestClientCert else RequireAndVerifyClientCert.

Definition listener_sound (secret : option Secret) (lst : compiled.Listener) (l : ListenerTable) : Prop :=
  liName l = compiled.lName lst ∧ liHostname l = compiled.lHostname lst ∧
  certificate_of secret lst (liCert l) ∧ client_auth_of secret lst (liClientCAs l) (liClientAuth l) ∧
  (liTerminate l = true ↔ compiled.lProtocol lst = "TLS" ∧ compiled.lHasTLS lst = true).

Lemma listener_certificate_of secret lst cert :
  listener_certificate secret lst = Ok cert → certificate_of secret lst cert.
Proof.
  unfold listener_certificate, certificate_of. destruct (compiled.lHasTLS lst); cbn [negb]; [|by intros [= <-]].
  rewrite bind_Ok. intros (s & Hs%of_option_Ok & H). rewrite bind_Ok in H. destruct H as (_ & _ & [= <-]).
  by exists s.
Qed.

Lemma listener_client_auth_of secret lst cas auth :
  listener_client_auth secret lst = Ok (cas, auth) → client_auth_of secret lst cas auth.
Proof.
  unfold listener_client_auth, client_auth_of. case_bool_decide as Hm;
    [rewrite decide_True by done; by intros [= <- <-]|rewrite decide_False by done].
  rewrite bind_Ok. intros (s & Hs%of_option_Ok & H). rewrite bind_Ok in H. destruct H as (_ & _ & [= <- <-]).
  exists s. do 2 (split; [done|]). by case_bool_decide; case_decide.
Qed.

(** A port against the listeners configured on it, in order: its kind is that
    of the first, the PROXY protocol is expected when any of them says so. *)
Definition port_sound (gateway : compiled.GatewayConfig) (trust : option clientip.Trust)
    (ls : list compiled.Listener) (tbl : PortTable) : Prop :=
  ∃ first rest, ls = first :: rest ∧
    ptGatewayUID tbl = compiled.gcUID gateway ∧
    ptGatewayName tbl = compiled.gcNamespace gateway +:+ "/" +:+ compiled.gcName gateway ∧
    (ptTLS tbl = true ↔ compiled.lHasTLS first = true ∧ compiled.lProtocol first ≠ "TLS") ∧
    (ptTCP tbl = true ↔ compiled.lProtocol first = "TCP") ∧
    (ptUDP tbl = true ↔ compiled.lProtocol first = "UDP") ∧
    (ptTLSPassthrough tbl = true ↔ compiled.lProtocol first = "TLS") ∧
    (ptProxyProtocol tbl = true ↔ ∃ l, l ∈ ls ∧ compiled.lProxyProtocol l = true) ∧
    ptTrust tbl = trust.

Definition on_port (p : Z) (ls : list compiled.Listener) : list compiled.Listener :=
  filter (λ l, compiled.lInternalPort l = p) ls.

Lemma new_port_sound gateway trust lst :
  port_sound gateway trust [lst] (with_proxy_protocol (compiled.lProxyProtocol lst) (new_port gateway trust lst)).
Proof.
  exists lst, []. simpl. rewrite andb_true_iff, negb_true_iff, bool_decide_eq_false, !bool_decide_eq_true.
  split_and!; try done. split; [intros ?; exists lst; by split; [left|]|].
  intros (l & ->%list_elem_of_singleton & ?). done.
Qed.

Lemma more_port_sound gateway trust ls lst tbl :
  port_sound gateway trust ls tbl →
  port_sound gateway trust (ls ++ [lst]) (with_proxy_protocol (compiled.lProxyProtocol lst) tbl).
Proof.
  intros (first & rest & -> & ? & ? & ? & ? & ? & ? & Hpp & ?). exists first, (rest ++ [lst]).
  split; [done|]. unfold with_proxy_protocol. cbn. split_and!; try done. rewrite orb_true_iff, Hpp.
  setoid_rewrite (elem_of_app (first :: rest) [lst]). setoid_rewrite list_elem_of_singleton. naive_solver.
Qed.

(** The environment after the listeners [done]. *)
Record env_ok (gateway : compiled.GatewayConfig) (trust : option clientip.Trust) (secret : option Secret) (done : list compiled.Listener) (env : ListenerEnv) : Prop := {
  eo_entries : Forall2 (λ lst l, listener_sound secret lst l ∧ liRoutes l = []) done (leEntries env);
  eo_names : ∀ n i, leNames env !! n = Some i → ∃ lst, done !! i = Some lst ∧ compiled.lName lst = n;
  eo_ports : ∀ p tbl ms i, lePorts env !! p = Some (tbl, ms) → i ∈ ms →
    ∃ lst, done !! i = Some lst ∧ compiled.lInternalPort lst = p;
  eo_members : ∀ i lst, done !! i = Some lst →
    ∃ tbl ms, lePorts env !! compiled.lInternalPort lst = Some (tbl, ms) ∧ i ∈ ms;
  eo_named : ∀ i lst, done !! i = Some lst → is_Some (leNames env !! compiled.lName lst);
  eo_tables : ∀ p, match lePorts env !! p with
                   | Some (tbl, _) => port_sound gateway trust (on_port p done) tbl
                   | None => on_port p done = []
                   end;
}.

Lemma env_ok_step gateway trust secret base done env lst env' :
  env_ok gateway trust secret done env → build_listener gateway trust secret base env lst = Ok env' →
  env_ok gateway trust secret (done ++ [lst]) env'.
Proof.
  intros [He Hn Hp Hm Hd Ht]. unfold build_listener. rewrite bind_Ok. intros (cert & Hcert & Hrest).
  rewrite bind_Ok in Hrest. destruct Hrest as ([cas auth] & Hauth & Hrest).
  set (slot := lePorts env !! _) in Hrest.
  destruct (default _ slot) as [port members] eqn:Hslot.
  injection Hrest as <-. pose proof (Forall2_length He) as Hlen.
  assert (∀ i lst', done !! i = Some lst' → (done ++ [lst]) !! i = Some lst') as Hl
    by (intros; by apply lookup_app_l_Some).
  assert ((done ++ [lst]) !! length (leEntries env) = Some lst) as Hlast
    by (rewrite <-Hlen; apply list_lookup_middle; done).
  split; simpl.
  - apply Forall2_app; [done|]. constructor; [|constructor]. split; [|done].
    split_and!; [done|done|by apply listener_certificate_of|by apply listener_client_auth_of|].
    simpl. by rewrite andb_true_iff, bool_decide_eq_true.
  - intros n i. rewrite lookup_insert_Some. intros [[<- <-]|[_ (lst' & ? & ?)%Hn]]; eauto.
  - intros p tbl ms i. rewrite lookup_insert_Some. intros [[<- [= <- <-]]|[_ Hlp]] Hi.
    + apply elem_of_app in Hi as [Hi|Hi%list_elem_of_singleton]; [|subst; eauto].
      unfold slot in *. destruct (lePorts env !! _) as [[tbl0 ms0]|] eqn:Hs; simplify_eq/=;
        [|by apply elem_of_nil in Hi].
      destruct (Hp _ _ _ _ Hs Hi) as (lst' & ? & ?). eauto.
    + destruct (Hp _ _ _ _ Hlp Hi) as (lst' & ? & ?). eauto.
  - intros i lst' [Hi|[? Hi]]%lookup_app_Some.
    + destruct (Hm _ _ Hi) as (tbl & ms & Hlk & Hin).
      destruct (decide (compiled.lInternalPort lst' = compiled.lInternalPort lst)) as [Heq|Hne].
      * rewrite Heq in *. unfold slot in Hslot. rewrite Hlk in Hslot. injection Hslot as <- <-.
        rewrite lookup_insert_eq. eexists _, _. split; [done|]. apply elem_of_app. by left.
      * rewrite lookup_insert_ne by done. eauto.
    + apply list_lookup_singleton_Some in Hi as [Hz ->]. rewrite lookup_insert_eq.
      eexists _, _. split; [done|]. apply elem_of_app. right. apply list_elem_of_singleton. lia.
  - intros i lst' [Hi|[? Hi]]%lookup_app_Some.
    + rewrite lookup_insert_is_Some'. eauto.
    + apply list_lookup_singleton_Some in Hi as [_ ->]. rewrite lookup_insert_eq. eauto.
  - intros p. unfold on_port in *. rewrite list.filter_app.
    destruct (decide (compiled.lInternalPort lst = p)) as [<-|Hne].
    + rewrite lookup_insert_eq, (filter_cons_True _ lst), filter_nil by done.
      specialize (Ht (compiled.lInternalPort lst)). fold slot in Ht. clearbody slot. destruct slot as [[tbl ms]|]; injection Hslot as <- <-.
      * by apply more_port_sound.
      * rewrite Ht. apply new_port_sound.
    + rewrite lookup_insert_ne, (filter_cons_False _ lst), filter_nil, app_nil_r by done. apply Ht.
Qed.

Lemma env_ok_foldM gateway trust secret base ls env :
  foldM (build_listener gateway trust secret base) (mkListenerEnv [] ∅ ∅) ls = Ok env →
  env_ok gateway trust secret ls env.
Proof.
  revert env. induction ls as [|lst ls IH] using rev_ind; intros env; [|rewrite foldM_snoc].
  - intros [= <-]. split; simpl; naive_solver.
  - intros (env1 & H1 & H2). eapply env_ok_step; eauto.
Qed.

(** *** Routes *)

Record route_sound (secret : option Secret) (cc : option Certificate)
    (route : compiled.RouteConfig) (rt : RouteTable) : Prop := {
  ro_namespace : rtNamespace rt = compiled.rcNamespace route;
  ro_name : rtName rt = compiled.rcName route;
  ro_hostnames : rtHostnames rt = compiled.rcHostnames route;
  ro_created : rtCreated rt = compiled.rcCreated route;
  ro_rules : Forall2 (rule_sound (compiled.rcGRPC route) secret cc) (compiled.rcRules route) (rtRules rt);
}.

Lemma build_rules_loop grpc secret cc rules acc st out st' :
  Forall rule_wf rules → cache_ok (bsTransports st) →
  fold_left (λ '(acc, st) rule,
    let '(entry, st) := build_rule grpc secret cc (cert_sum cc) rule st in (acc ++ [entry], st))
    rules (acc, st) = (out, st') →
  cache_ok (bsTransports st') ∧
  ∃ new, out = acc ++ new ∧ Forall2 (rule_sound grpc secret cc) rules new.
Proof.
  intros Hwf. revert acc st. induction Hwf as [|rule rules Hr _ IH]; intros acc st Hc; cbn [fold_left].
  { intros [= <- <-]. split; [done|]. exists []. by rewrite app_nil_r. }
  destruct (build_rule _ _ _ _ _ _) as [entry st1] eqn:Hb.
  apply build_rule_sound in Hb as [Hs Hc1]; [|done|done].
  intros (H1 & new & -> & H2)%IH; [|done]. split; [done|].
  exists (entry :: new). split; [by rewrite <-app_assoc|]. by constructor.
Qed.

Lemma build_route_sound secret cc route st rt st' :
  Forall rule_wf (compiled.rcRules route) → cache_ok (bsTransports st) →
  build_route secret cc (cert_sum cc) route st = (rt, st') →
  route_sound secret cc route rt ∧ cache_ok (bsTransports st').
Proof.
  unfold build_route, build_rules. intros Hwf Hc.
  destruct (fold_left _ _ _) as [rules st1] eqn:Hf.
  apply build_rules_loop in Hf as (? & new & -> & ?); [|done|done].
  intros [= <- <-]. split; [|done]. by split.
Qed.

Lemma add_route_sound secret lst rt l :
  listener_sound secret lst l → listener_sound secret lst (add_route rt l).
Proof. by destruct l. Qed.

(** Attaching one route appends it to the entries its names point to and
    changes nothing else. *)
Lemma attach_route_lookup names rt ls entries i :
  attach_route names rt ls entries !! i =
    (λ l, Nat.iter (length (filter (λ n, names !! n = Some i) ls)) (add_route rt) l) <$> entries !! i.
Proof.
  unfold attach_route. revert entries. induction ls as [|n ls IH]; intros entries; simpl.
  { by destruct (entries !! i). }
  rewrite IH, filter_cons. destruct (names !! n) as [j|] eqn:Hn.
  - destruct (decide (i = j)) as [->|Hne].
    + rewrite list_lookup_alter_eq, decide_True by done. destruct (entries !! j); [|done]. simpl.
      f_equal. by rewrite <-Nat.iter_succ_r.
    + rewrite list_lookup_alter_ne by done. by rewrite decide_False by congruence.
  - by rewrite decide_False by congruence.
Qed.

Lemma iter_add_route n rt l :
  liRoutes (Nat.iter n (add_route rt) l) = liRoutes l ++ replicate n rt ∧
  ∀ secret lst, listener_sound secret lst l → listener_sound secret lst (Nat.iter n (add_route rt) l).
Proof.
  induction n as [|n [IH1 IH2]]; simpl; [by rewrite app_nil_r|]. split.
  - rewrite IH1, <-app_assoc. f_equal. by rewrite <-replicate_S_end.
  - intros. by apply add_route_sound, IH2.
Qed.

Definition routes_wf (routes : list compiled.RouteConfig) : Prop :=
  Forall (λ route, Forall rule_wf (compiled.rcRules route)) routes.

(** The listener heap after the routes [done] were attached. *)
Record heap_ok (secret : option Secret) (cc : option Certificate) (ls : list compiled.Listener)
    (names : gmap string nat) (done : list compiled.RouteConfig) (entries : list ListenerTable) : Prop := {
  ho_static : Forall2 (listener_sound secret) ls entries;
  ho_only : ∀ i l rt, entries !! i = Some l → rt ∈ liRoutes l →
    ∃ route name, route ∈ done ∧ route_sound secret cc route rt ∧
      name ∈ compiled.rcListeners route ∧ names !! name = Some i;
  ho_all : ∀ route name i l, route ∈ done → name ∈ compiled.rcListeners route →
    names !! name = Some i → entries !! i = Some l →
    ∃ rt, rt ∈ liRoutes l ∧ route_sound secret cc route rt;
}.

Lemma heap_ok_step secret cc ls names done entries route rt :
  heap_ok secret cc ls names done entries → route_sound secret cc route rt →
  heap_ok secret cc ls names (done ++ [route])
    (attach_route names rt (compiled.rcListeners route) entries).
Proof.
  intros [Hst Honly Hall] Hrt.
  assert (∀ n i, n ∈ compiled.rcListeners route → names !! n = Some i →
    length (filter (λ n, names !! n = Some i) (compiled.rcListeners route)) ≠ 0) as Hpos.
  { intros n i Hn Hi Hz%length_zero_iff_nil.
    assert (n ∈ filter (λ n, names !! n = Some i) (compiled.rcListeners route)) as Hin
      by by apply list_elem_of_filter.
    rewrite Hz in Hin. by apply elem_of_nil in Hin. }
  split.
  - apply Forall2_lookup. intros i. rewrite attach_route_lookup.
    rewrite Forall2_lookup in Hst. specialize (Hst i).
    inversion Hst as [lst l Hl Hlst Hent|]; simpl; constructor. by apply iter_add_route.
  - intros i l rt' Hl Hin. rewrite attach_route_lookup in Hl.
    destruct (entries !! i) as [l0|] eqn:Hl0; simplify_eq/=.
    rewrite (proj1 (iter_add_route _ _ _)) in Hin. apply elem_of_app in Hin as [Hin|Hin].
    + destruct (Honly _ _ _ Hl0 Hin) as (route' & name & ? & ? & ? & ?).
      exists route', name. rewrite elem_of_app. auto.
    + apply elem_of_replicate in Hin as [-> Hnz].
      destruct (filter (λ n, names !! n = Some i) (compiled.rcListeners route)) as [|n ns] eqn:Hf;
        [done|].
      assert (n ∈ filter (λ n, names !! n = Some i) (compiled.rcListeners route)) as Hin
        by (rewrite Hf; left).
      apply list_elem_of_filter in Hin as [? ?]. exists route, n.
      rewrite elem_of_app, list_elem_of_singleton. auto.
  - intros route' name i l Hr Hn Hi Hl. rewrite attach_route_lookup in Hl.
    destruct (entries !! i) as [l0|] eqn:Hl0; simplify_eq/=.
    rewrite (proj1 (iter_add_route _ _ _)). setoid_rewrite elem_of_app.
    apply elem_of_app in Hr as [Hr| ->%list_elem_of_singleton].
    + destruct (Hall _ _ _ _ Hr Hn Hi Hl0) as (rt' & ? & ?). eauto.
    + exists rt. split; [|done]. right. apply elem_of_replicate. eauto.
Qed.

Lemma build_routes_sound secret cc ls names routes entries st entries' st' :
  routes_wf routes → cache_ok (bsTransports st) → heap_ok secret cc ls names [] entries →
  build_routes secret cc (cert_sum cc) names routes entries st = (entries', st') →
  heap_ok secret cc ls names routes entries' ∧ cache_ok (bsTransports st').
Proof.
  intros Hwf Hc Hh. revert entries' st'.
  induction routes as [|route routes IH] using rev_ind; intros entries' st'.
  { intros [= <- <-]. done. }
  apply Forall_app in Hwf as [Hwf Hr]. apply Forall_cons_iff in Hr as [Hr _].
  unfold build_routes in *. rewrite fold_left_app. simpl.
  destruct (fold_left _ routes _) as [entries1 st1].
  destruct (IH Hwf _ _ eq_refl) as [Hh1 Hc1].
  destruct (build_route _ _ _ _ _) as [rt st2] eqn:Hb. intros [= <- <-].
  apply build_route_sound in Hb as [Hs Hc2]; [|done|done].
  split; [by apply heap_ok_step|done].
Qed.

(** *** The table *)

Definition served_by (t : GatewayTable) (port : Z) (l : ListenerTable) : Prop :=
  ∃ table, gtByPort t !! port = Some table ∧ l ∈ ptListeners table.

(** A table whose transports are what their keys say: what the build
    leaves behind and what it needs of the previous table. *)
Definition transports_ok (t : GatewayTable) : Prop :=
  Forall (λ b, ∀ tr, bkTLSTransport b = Some tr → describes (bkTLSKey b) tr) (table_backends t).

Lemma adopt_ok bs cache :
  Forall (λ b, ∀ tr, bkTLSTransport b = Some tr → describes (bkTLSKey b) tr) bs →
  cache_ok cache → cache_ok (fold_left adopt bs cache).
Proof.
  intros H. revert cache. induction H as [|b bs Hb _ IH]; intros cache Hc; [done|].
  simpl. apply IH. unfold adopt. destruct (bkTLSTransport b) as [tr|] eqn:Ht; [|done].
  case_match; [|done]. apply map_Forall_insert_2; auto.
Qed.

Lemma previousTransports_ok previous :
  (∀ t, previous = Some t → transports_ok t) → cache_ok (previousTransports previous).
Proof.
  intros H. destruct previous as [t|]; [|done]. apply adopt_ok; [by apply H|done].
Qed.

Lemma backend_client_cert_sum gateway secret cc sum :
  backend_client_cert gateway secret = Ok (cc, sum) → sum = cert_sum cc.
Proof.
  unfold backend_client_cert. destruct secret as [secret|]; [|by intros [= <- <-]].
  destruct (compiled.gcBackendClientCert gateway); [|by intros [= <- <-]].
  rewrite bind_Ok. intros (_ & _ & [= <- <-]). done.
Qed.

(** The namespaces a rule has endpoints in. *)
Definition contributes (rule : compiled.Rule) (ns : string) : Prop :=
  ∃ b, (b ∈ kept rule ∨ b ∈ (wanted_mirrors rule).*1) ∧ compiled.bValid b = true ∧ compiled.bNamespace b = ns.

Lemma buildBackendTable_namespaces b cc sum st e st' :
  buildBackendTable b cc sum st = (e, st') → bsNamespaces st' = bsNamespaces st.
Proof.
  unfold buildBackendTable. destruct (compiled.bTLS b) as [policy|]; [|by intros [= _ <-]].
  destruct (compiled.btInvalid policy); [by intros [= _ <-]|].
  destruct (bsTransports _ !! _); [by intros [= _ <-]|]. destruct (_ && _); by intros [= _ <-].
Qed.

Lemma note_namespace_elem (valid : bool) ns0 st ns :
  ns ∈ bsNamespaces (note_namespace valid ns0 st) ↔ ns ∈ bsNamespaces st ∨ (valid = true ∧ ns0 = ns).
Proof. destruct valid; simpl; set_solver. Qed.

Lemma build_backend_namespaces cc sum bs acc total st out total' st' ns :
  fold_left (build_backend cc sum) bs (acc, total, st) = (out, total', st') →
  ns ∈ bsNamespaces st' ↔ ns ∈ bsNamespaces st ∨
    ∃ b, b ∈ filter (λ b, 0 < compiled.bWeight b)%Z bs ∧ compiled.bValid b = true ∧ compiled.bNamespace b = ns.
Proof.
  revert acc total st. induction bs as [|b bs IH]; intros acc total st; cbn [fold_left].
  { intros [= _ _ <-]. set_solver. }
  rewrite filter_cons. unfold build_backend at 2.
  destruct (Z.leb_spec (compiled.bWeight b) 0); [rewrite decide_False by lia; by apply IH|].
  rewrite decide_True by lia. destruct (buildBackendTable b cc sum st) as [e st1] eqn:Hb.
  intros ->%IH. rewrite note_namespace_elem, (buildBackendTable_namespaces _ _ _ _ _ _ Hb).
  setoid_rewrite elem_of_cons. naive_solver.
Qed.

Lemma build_filter_namespaces cc sum fs cors mirrors st cors' out st' ns :
  fold_left (build_filter cc sum) fs (cors, mirrors, st) = (cors', out, st') →
  ns ∈ bsNamespaces st' ↔ ns ∈ bsNamespaces st ∨
    ∃ b, b ∈ (omap wanted_mirror fs).*1 ∧ compiled.bValid b = true ∧ compiled.bNamespace b = ns.
Proof.
  revert cors mirrors st. induction fs as [|f fs IH]; intros cors mirrors st; cbn [fold_left].
  { intros [= _ _ <-]. set_solver. }
  unfold build_filter at 2. cbn [omap list_omap]. unfold wanted_mirror at 1.
  destruct (compiled.fMirror f) as [target|]; [|intros ->%IH; by destruct (decide _)].
  destruct (bool_decide_reflect (compiled.fType f = compiled.FilterRequestMirror)) as [Ht|Ht]; cbn [negb];
    [rewrite decide_True by done|rewrite decide_False by done; by apply IH].
  destruct (buildBackendTable target cc sum st) as [e st1] eqn:Hb. cbn [fmap option_fmap option_map list_fmap fst].
  intros ->%IH. rewrite note_namespace_elem, (buildBackendTable_namespaces _ _ _ _ _ _ Hb).
  setoid_rewrite elem_of_cons. naive_solver.
Qed.

Lemma build_rule_namespaces grpc secret cc sum rule st r st' ns :
  build_rule grpc secret cc sum rule st = (r, st') →
  ns ∈ bsNamespaces st' ↔ ns ∈ bsNamespaces st ∨ contributes rule ns.
Proof.
  unfold build_rule. destruct (if compiled.ruWAF rule != "" then _ else _) as [engine wi].
  destruct (if compiled.ruAuth rule != "" then _ else _) as [enforcer ai].
  destruct (fold_left (build_filter _ _) _ _) as [[cors mirrors] st1] eqn:Hf.
  destruct (fold_left (build_backend _ _) _ _) as [[backends total] st2] eqn:Hb.
  intros [= _ <-]. rewrite (build_backend_namespaces _ _ _ _ _ _ _ _ _ ns Hb).
  rewrite (build_filter_namespaces _ _ _ _ _ _ _ _ _ ns Hf). unfold contributes, kept, wanted_mirrors. simpl. naive_solver.
Qed.

Lemma build_rules_namespaces grpc secret cc sum rules acc st out st' ns :
  fold_left (λ '(acc, st) rule,
    let '(entry, st) := build_rule grpc secret cc sum rule st in (acc ++ [entry], st)) rules (acc, st) = (out, st') →
  ns ∈ bsNamespaces st' ↔ ns ∈ bsNamespaces st ∨ ∃ rule, rule ∈ rules ∧ contributes rule ns.
Proof.
  revert acc st. induction rules as [|rule l IH]; intros acc st; cbn [fold_left].
  { intros [= _ <-]. set_solver. }
  destruct (build_rule _ _ _ _ _ _) as [entry st2] eqn:Hb. intros ->%IH.
  rewrite (build_rule_namespaces _ _ _ _ _ _ _ _ ns Hb). setoid_rewrite elem_of_cons. naive_solver.
Qed.

Lemma build_routes_namespaces secret cc sum names routes entries st entries' st' ns :
  build_routes secret cc sum names routes entries st = (entries', st') →
  ns ∈ bsNamespaces st' ↔ ns ∈ bsNamespaces st ∨
    ∃ route rule, route ∈ routes ∧ rule ∈ compiled.rcRules route ∧ contributes rule ns.
Proof.
  unfold build_routes. revert entries st. induction routes as [|route routes IH]; intros entries st; cbn [fold_left].
  { intros [= _ <-]. set_solver. }
  unfold build_route, build_rules. destruct (fold_left _ (compiled.rcRules route) _) as [rules st1] eqn:Hr.
  intros ->%IH. setoid_rewrite elem_of_cons.
  rewrite (build_rules_namespaces _ _ _ _ _ _ _ _ _ ns Hr). naive_solver.
Qed.

(** Everything the build guarantees, in one place. *)
Record table_sound (gateway : compiled.GatewayConfig) (routes : list compiled.RouteConfig)
    (secret : option Secret) (cc : option Certificate) (trust : option clientip.Trust) (t : GatewayTable) : Prop := {
  to_sorted : ∀ port table, gtByPort t !! port = Some table →
    sorted_by listener_less (ptListeners table);
  to_listeners : ∀ port l, served_by t port l →
    ∃ lst, lst ∈ compiled.gcListeners gateway ∧ compiled.lInternalPort lst = port ∧
           listener_sound secret lst l;
  to_complete : ∀ lst, lst ∈ compiled.gcListeners gateway →
    ∃ l, served_by t (compiled.lInternalPort lst) l ∧ listener_sound secret lst l;
  to_routes : ∀ port l rt, served_by t port l → rt ∈ liRoutes l →
    ∃ route, route ∈ routes ∧ route_sound secret cc route rt ∧
             liName l ∈ compiled.rcListeners route;
  to_attached : ∀ route name, route ∈ routes → name ∈ compiled.rcListeners route →
    name ∈ (compiled.lName <$> compiled.gcListeners gateway) →
    ∃ port l rt, served_by t port l ∧ liName l = name ∧ rt ∈ liRoutes l ∧
                 route_sound secret cc route rt;
  to_ports : ∀ port table, gtByPort t !! port = Some table →
    port_sound gateway trust (on_port port (compiled.gcListeners gateway)) table;
  to_namespaces : ∀ ns, ns ∈ gtNamespaces t ↔
    ∃ route rule, route ∈ routes ∧ rule ∈ compiled.rcRules route ∧ contributes rule ns;
}.

#[local] Instance listener_less_strict : StrictWeak listener_less.
Proof.
  apply (strict_weak_proj (λ l, hostnameSpecificity (liHostname l)) (λ a b, b <? a)%Z). apply _.
Qed.

Lemma finish_port_elem entries p l :
  l ∈ ptListeners (finish_port entries p) ↔ ∃ i, i ∈ p.2 ∧ entries !! i = Some l.
Proof. simpl. rewrite sliceStable_Permutation, list_elem_of_omap. done. Qed.

(** The gateway's client certificate towards its backends. *)
Definition client_cert_of (gateway : compiled.GatewayConfig) (secret : option Secret) (cc : option Certificate) : Prop :=
  cc = (s ← secret;
        if compiled.gcBackendClientCert gateway
        then Some (mkCertificate (default "" (scData s !! "_backend-client.tls.crt"))
                                 (default "" (scData s !! "_backend-client.tls.key")))
        else None).

Lemma backend_client_cert_of gateway secret cc sum :
  backend_client_cert gateway secret = Ok (cc, sum) → client_cert_of gateway secret cc.
Proof.
  unfold backend_client_cert, client_cert_of. destruct secret as [s|]; [|by intros [= <- _]].
  cbn [mbind option_bind]. destruct (compiled.gcBackendClientCert gateway); [|by intros [= <- _]].
  rewrite bind_Ok. by intros (_ & _ & [= <- _]).
Qed.

Lemma BuildGatewayTable_sound generation gateway routes secret previous next t next' :
  routes_wf routes → (∀ p, previous = Some p → transports_ok p) →
  BuildGatewayTable generation gateway routes secret previous next = Ok (t, next') →
  gtGeneration t = generation ∧
  ∃ cc trust, client_cert_of gateway secret cc ∧ clientip.New (compiled.gcTrustedProxies gateway) = Ok trust ∧
        table_sound gateway routes secret cc trust t.
Proof.
  intros Hwf Hprev. unfold BuildGatewayTable. rewrite bind_Ok. intros (trust & Htrust & H).
  rewrite bind_Ok in H. destruct H as (env & Henv & H).
  rewrite bind_Ok in H. destruct H as ([cc sum] & Hcc & H).
  pose proof (backend_client_cert_sum _ _ _ _ Hcc) as ->.
  apply env_ok_foldM in Henv as [He Hn Hp Hm Hd Htab].
  destruct (build_routes _ _ _ _ _ _ _) as [entries st] eqn:Hb. injection H as <- <-.
  assert (∀ ns, ns ∈ bsNamespaces st ↔ ∃ route rule, route ∈ routes ∧ rule ∈ compiled.rcRules route ∧ contributes rule ns)
    as Hns by (intros ns; rewrite (build_routes_namespaces _ _ _ _ _ _ _ _ _ ns Hb); set_solver).
  split; [done|]. exists cc, trust. split; [by eapply backend_client_cert_of|].
  split; [by destruct (clientip.New _); simplify_eq/=|].
  apply (build_routes_sound _ _ (compiled.gcListeners gateway)) in Hb as [[Hst Honly Hall] _];
    [|done|by apply previousTransports_ok|].
  2:{ split.
      - eapply Forall2_impl; [|exact He]. naive_solver.
      - intros i l rt Hl Hrt. destruct (Forall2_lookup_r _ _ _ _ _ He Hl) as (? & ? & ? & Hnil).
        rewrite Hnil in Hrt. by apply elem_of_nil in Hrt.
      - by intros ? ? ? ? ?%elem_of_nil. }
  assert (∀ port l, served_by (mkGatewayTable generation (finish_port entries <$> lePorts env)
      (bsNamespaces st)) port l → ∃ i lst, compiled.gcListeners gateway !! i = Some lst ∧
      compiled.lInternalPort lst = port ∧ entries !! i = Some l ∧ listener_sound secret lst l) as Hserved.
  { intros port l (table & Ht & Hl). simpl in Ht. rewrite lookup_fmap in Ht.
    destruct (lePorts env !! port) as [[tbl ms]|] eqn:Hlp; simplify_eq/=.
    apply (finish_port_elem entries (tbl, ms)) in Hl as (i & Hi & Hl).
    destruct (Hp _ _ _ _ Hlp Hi) as (lst & Hlst & Hport). exists i, lst.
    pose proof (Forall2_lookup_lr _ _ _ _ _ _ Hst Hlst Hl). done. }
  split.
  - intros port table. simpl. rewrite lookup_fmap.
    destruct (lePorts env !! port); intros; simplify_eq/=. apply sliceStable_sorted, _.
  - intros port l (i & lst & ? & ? & _ & ?)%Hserved. exists lst.
    split; [by eapply list_elem_of_lookup_2|done].
  - intros lst [i Hi]%list_elem_of_lookup. destruct (Hm _ _ Hi) as (tbl & ms & Hlp & Hin).
    destruct (Forall2_lookup_l _ _ _ _ _ Hst Hi) as (l & Hl & Hs).
    exists l. split; [|done]. exists (finish_port entries (tbl, ms)). simpl.
    rewrite lookup_fmap, Hlp. split; [done|]. apply (finish_port_elem entries (tbl, ms)). eauto.
  - intros port l rt (i & lst & Hi & _ & Hl & (Hname & _))%Hserved Hrt.
    destruct (Honly _ _ _ Hl Hrt) as (route & name & ? & ? & Hin & Hna).
    destruct (Hn _ _ Hna) as (lst' & Hi' & <-). simplify_eq.
    exists route. split; [done|]. split; [done|]. by rewrite Hname.
  - intros route name Hr Hin (lst & -> & [i Hi]%list_elem_of_lookup)%list_elem_of_fmap.
    destruct (Hd _ _ Hi) as [j Hj]. destruct (Hn _ _ Hj) as (lst' & Hj' & Hname).
    destruct (Forall2_lookup_l _ _ _ _ _ Hst Hj') as (l & Hl & Hs).
    destruct (Hall _ _ _ _ Hr Hin Hj Hl) as (rt & ? & ?).
    destruct (Hm _ _ Hj') as (tbl & ms & Hlp & Hmem).
    exists (compiled.lInternalPort lst'), l, rt.
    split; [|by rewrite (proj1 Hs)]. exists (finish_port entries (tbl, ms)). simpl.
    rewrite lookup_fmap, Hlp. split; [done|]. apply (finish_port_elem entries (tbl, ms)). eauto.
  - intros port table. simpl. rewrite lookup_fmap. specialize (Htab port).
    destruct (lePorts env !! port) as [[tbl ms]|]; [|done]. by intros [= <-].
  - exact Hns.
Qed.

(** *** Consequences *)

Definition rule_of (t : GatewayTable) (rule : RuleTable) : Prop :=
  ∃ port l rt, served_by t port l ∧ rt ∈ liRoutes l ∧ rule ∈ rtRules rt.

Lemma table_rule_sound gateway routes secret cc trust t rule :
  table_sound gateway routes secret cc trust t → rule_of t rule →
  ∃ route crule, route ∈ routes ∧ crule ∈ compiled.rcRules route ∧
    rule_sound (compiled.rcGRPC route) secret cc crule rule.
Proof.
  intros [_ _ _ Hr _ _ _] (port & l & rt & Hs & Hrt & Hrule).
  destruct (Hr _ _ _ Hs Hrt) as (route & Hin & [_ _ _ _ Hrules] & _).
  apply list_elem_of_lookup in Hrule as [i Hi].
  destruct (Forall2_lookup_r _ _ _ _ _ Hrules Hi) as (crule & Hc & Hsound).
  exists route, crule. split; [done|]. split; [by eapply list_elem_of_lookup_2|done].
Qed.

Lemma elem_of_table_backends t b :
  b ∈ table_backends t ↔ ∃ rule, rule_of t rule ∧
    (b ∈ ruBackends rule ∨ b ∈ (miBackend <$> ruMirrors rule)).
Proof.
  unfold table_backends, rule_of, served_by. rewrite list_elem_of_bind.
  setoid_rewrite list_elem_of_bind. setoid_rewrite list_elem_of_bind.
  setoid_rewrite list_elem_of_bind. setoid_rewrite elem_of_app. split.
  - intros ([port table] & (l & (rt & (rule & Hb & ?) & ?) & ?) & ?%elem_of_map_to_list).
    exists rule. split; [|done]. exists port, l, rt. eauto.
  - intros (rule & (port & l & rt & (table & ? & ?) & ? & ?) & Hb).
    exists (port, table). split; [|by apply elem_of_map_to_list]. eauto 10.
Qed.

(** A backend of a sound rule comes from a compiled backend. *)
Lemma rule_backend_sound grpc secret cc crule rule b :
  rule_sound grpc secret cc crule rule →
  (b ∈ ruBackends rule ∨ b ∈ (miBackend <$> ruMirrors rule)) →
  ∃ cb, (cb ∈ compiled.ruBackends crule ∨ cb ∈ mirror_targets crule) ∧ backend_sound cc cb b.
Proof.
  intros Hr [[i Hi]%list_elem_of_lookup|(m & -> & [i Hi]%list_elem_of_lookup)%list_elem_of_fmap].
  - destruct (Forall2_lookup_r _ _ _ _ _ (rs_backends _ _ _ _ _ Hr) Hi) as (cb & Hcb & Hs).
    exists cb. split; [|done]. left. apply list_elem_of_lookup_2 in Hcb.
    by apply list_elem_of_filter in Hcb as [_ ?].
  - destruct (Forall2_lookup_r _ _ _ _ _ (rs_mirrors _ _ _ _ _ Hr) Hi) as ([cb q] & Hcb & Hs & _).
    exists cb. split; [|done]. right. apply list_elem_of_lookup_2, list_elem_of_omap in Hcb as (f & Hf & Hw).
    apply list_elem_of_omap. exists f. split; [done|]. unfold wanted_mirror in Hw.
    destruct (decide _); [|done]. by apply fmap_Some in Hw as (target & -> & [= <- _]).
Qed.

(** The invariant the next build relies on. *)
Lemma table_sound_transports gateway routes secret cc trust t :
  table_sound gateway routes secret cc trust t → transports_ok t.
Proof.
  intros Ht. apply Forall_forall. intros b Hb%list_elem_of_In tr Htr.
  apply elem_of_table_backends in Hb as (rule & Hrule & Hb).
  destruct (table_rule_sound _ _ _ _ _ _ _ Ht Hrule) as (route & crule & _ & _ & Hs).
  destruct (rule_backend_sound _ _ _ _ _ _ Hs Hb) as (cb & _ & (_ & _ & _ & _ & _ & _ & _ & Htls)).
  unfold tls_sound in Htls. rewrite Htr in Htls.
  destruct (compiled.bTLS cb); [naive_solver|]. by destruct Htls.
Qed.

Lemma wrapped_sum bs (t : Z) :
  Forall (λ b, 0 < compiled.bWeight b < 2 ^ 31)%Z bs →
  (0 ≤ t)%Z → (t + 2 ^ 31 * Z.of_nat (length bs) < 2 ^ 62)%Z →
  fold_left (λ t b, int64_wrap (t + compiled.bWeight b)) bs t =
    (t + foldr (λ b n, compiled.bWeight b + n) 0 bs)%Z ∧
  (foldr (λ b n, compiled.bWeight b + n) 0 bs ≤ 2 ^ 31 * Z.of_nat (length bs))%Z.
Proof.
  intros H. revert t. induction H as [|b bs Hb _ IH]; intros t Ht Hmax; simpl; [lia|].
  simpl in Hmax. rewrite int64_wrap_id by lia.
  destruct (IH (t + compiled.bWeight b)%Z) as [-> ?]; lia.
Qed.

Lemma rule_sound_weights grpc secret cc crule rule :
  rule_sound grpc secret cc crule rule →
  Forall (λ b, compiled.bWeight b < 2 ^ 31)%Z (compiled.ruBackends crule) →
  (Z.of_nat (length (compiled.ruBackends crule)) < 2 ^ 31)%Z →
  balancing.weights_ok rule ∧ Forall (λ b, 0 < bkWeight b)%Z (ruBackends rule).
Proof.
  intros Hrs Hw Hlen. pose proof (rs_backends _ _ _ _ _ Hrs) as Hb. pose proof (rs_total _ _ _ _ _ Hrs) as Ht.
  assert (Forall (λ b, 0 < compiled.bWeight b < 2 ^ 31)%Z (kept crule)) as Hk.
  { apply Forall_forall. intros b [? ?]%list_elem_of_In%list_elem_of_filter.
    rewrite Forall_forall in Hw. split; [done|]. apply Hw. by apply list_elem_of_In. }
  pose proof (length_filter (λ b, 0 < compiled.bWeight b)%Z (compiled.ruBackends crule)) as Hle.
  fold (kept crule) in Hle.
  destruct (wrapped_sum (kept crule) 0 Hk) as [Hsum Hbound]; [lia|lia|].
  assert (balancing.weight_sum (ruBackends rule) =
          foldr (λ b n, compiled.bWeight b + n)%Z 0%Z (kept crule)) as Hws.
  { clear -Hb. induction Hb as [|cb b ? ? Hs _ IH]; [done|]. simpl. rewrite <-IH.
    by destruct Hs as (_ & _ & _ & -> & _). }
  assert (Forall (λ b, 0 < bkWeight b < 2 ^ 31)%Z (ruBackends rule)) as Hr.
  { clear -Hb Hk. induction Hb as [|cb b ? ? Hs _ IH]; [constructor|].
    apply Forall_cons_iff in Hk as [? ?]. constructor; [|auto].
    destruct Hs as (_ & _ & _ & -> & _). done. }
  split; [split|].
  - eapply Forall_impl; [|exact Hr]. simpl. lia.
  - rewrite Ht, Hsum, Hws. lia.
  - rewrite Ht, Hsum. lia.
  - eapply Forall_impl; [|exact Hr]. simpl. lia.
Qed.

End sound.

(** ** Properties *)

(** C9: A gateway table that builds implements its compiled configuration: the
    ports, with their protocol flags, proxy protocol, trusted proxies and
    identity, hold every listener and attached route and nothing else, listeners
    in specificity order; certificates, client authentication, backends,
    weights, filters, mirrors in order with their percentages, timeouts, CORS,
    extensions and HTTP/2 settings are the configured ones; rules fail closed
    only for an extension that cannot be built or a mark that asks for it; and
    the transports it keeps describe their policies. Host names and subject
    alternative names of the policies are assumed free of the separators of the
    transport key, and the transports of a previous table to describe their
    policies. *)
Theorem build_table_sound {libs : Libraries} generation gateway routes secret previous next t next' :
  routes_wf routes → (∀ p, previous = Some p → transports_ok p) →
  BuildGatewayTable generation gateway routes secret previous next = Ok (t, next') →
  gtGeneration t = generation ∧ transports_ok t ∧
  ∃ cc trust, client_cert_of gateway secret cc ∧
    clientip.New (compiled.gcTrustedProxies gateway) = Ok trust ∧ table_sound gateway routes secret cc trust t.
Proof.
  intros Hwf Hp Hb. destruct (BuildGatewayTable_sound _ _ _ _ _ _ _ _ Hwf Hp Hb) as (-> & cc & trust & ? & ? & Hs).
  split; [done|]. split; [by eapply table_sound_transports|]. by exists cc, trust.
Qed.

(** A rule of a built table that is not marked invalid has every extension its
    configuration asks for: the limiter, a WAF engine for its directives and an
    enforcer hydrated from the Secret. *)
Theorem extensions_fail_closed {libs : Libraries} generation gateway routes secret previous next t next' rule :
  routes_wf routes → (∀ p, previous = Some p → transports_ok p) →
  BuildGatewayTable generation gateway routes secret previous next = Ok (t, next') →
  rule_of t rule → ruExtensionsInvalid rule = false →
  ∃ route crule, route ∈ routes ∧ crule ∈ compiled.rcRules route ∧
    compiled.ruExtensionsInvalid crule = false ∧
    routing.ruMatches rule = compiled.ruMatches crule ∧
    ruLimiter rule = compiled.ruRateLimit crule ∧
    (compiled.ruWAF crule ≠ "" → ruWAFEngine rule = Some (compiled.ruWAF crule)) ∧
    (compiled.ruAuth crule ≠ "" → ∃ e, ruAuthEnforcer rule = Some e ∧
       enforcer_of secret (compiled.ruAuth crule) e).
Proof.
  intros Hwf Hp Hb Hrule Hinv.
  destruct (BuildGatewayTable_sound _ _ _ _ _ _ _ _ Hwf Hp Hb) as (_ & cc & trust & _ & _ & Hs).
  destruct (table_rule_sound _ _ _ _ _ _ _ Hs Hrule) as (route & crule & ? & ? & Hrs).
  destruct (rs_closed _ _ _ _ _ Hrs Hinv) as (? & ? & ?). pose proof (rs_matches _ _ _ _ _ Hrs).
  pose proof (rs_limiter _ _ _ _ _ Hrs). exists route, crule. auto 10.
Qed.

(** Each backend with a TLS policy is either marked invalid or has a transport
    with the policy's server name, SAN list, trust anchors and the gateway's
    client certificate, also when the transport was reused from the previous
    table. *)
Theorem transport_matches_policy {libs : Libraries} generation gateway routes secret previous next t next' rule b :
  routes_wf routes → (∀ p, previous = Some p → transports_ok p) →
  BuildGatewayTable generation gateway routes secret previous next = Ok (t, next') →
  rule_of t rule → b ∈ ruBackends rule →
  ∃ cc route crule cb, client_cert_of gateway secret cc ∧
    route ∈ routes ∧ crule ∈ compiled.rcRules route ∧ cb ∈ compiled.ruBackends crule ∧
    bkNamespace b = compiled.bNamespace cb ∧ bkName b = compiled.bName cb ∧
    (∀ policy, compiled.bTLS cb = Some policy →
       bkTLSInvalid b = true ∨
       ∃ tr, bkTLSTransport b = Some tr ∧ tls_fits policy cc tr).
Proof.
  intros Hwf Hp Hb Hrule Hin.
  destruct (BuildGatewayTable_sound _ _ _ _ _ _ _ _ Hwf Hp Hb) as (_ & cc & trust & Hcc & _ & Hs).
  destruct (table_rule_sound _ _ _ _ _ _ _ Hs Hrule) as (route & crule & Hr & Hc & Hrs).
  pose proof (rs_backends _ _ _ _ _ Hrs) as Hbs.
  apply list_elem_of_lookup in Hin as [i Hi].
  destruct (Forall2_lookup_r _ _ _ _ _ Hbs Hi) as (cb & Hcb & (H1 & H2 & _ & _ & _ & _ & _ & Htls)).
  apply list_elem_of_lookup_2, list_elem_of_filter in Hcb as [_ Hcb].
  exists cc, route, crule, cb. do 6 (split; [done|]). intros policy Hpol.
  unfold tls_sound in Htls. rewrite Hpol in Htls.
  destruct (bkTLSTransport b) as [tr|]; [right|by left; destruct Htls].
  exists tr. split; [done|]. apply Htls.
Qed.

(** Weights of a built rule are positive and their total is exact, so a rule
    with backends always picks one. *)
Theorem built_weights_ok {libs : Libraries} generation gateway routes secret previous next t next' rule :
  routes_wf routes → (∀ p, previous = Some p → transports_ok p) →
  BuildGatewayTable generation gateway routes secret previous next = Ok (t, next') →
  Forall (λ route, Forall (λ crule,
    Forall (λ b, compiled.bWeight b < 2 ^ 31)%Z (compiled.ruBackends crule) ∧
    (Z.of_nat (length (compiled.ruBackends crule)) < 2 ^ 31)%Z) (compiled.rcRules route)) routes →
  rule_of t rule →
  balancing.weights_ok rule ∧ Forall (λ b, 0 < bkWeight b)%Z (ruBackends rule) ∧
  (ruBackends rule ≠ [] → ∀ s, (0 ≤ counter s (ruAddr rule) < 2 ^ 63 - 1)%Z →
     ∃ b, (balancing.PickBackend rule s).1 = Some b ∧ b ∈ ruBackends rule).
Proof.
  intros Hwf Hp Hb Hbound Hrule.
  destruct (BuildGatewayTable_sound _ _ _ _ _ _ _ _ Hwf Hp Hb) as (_ & cc & trust & _ & _ & Hs).
  destruct (table_rule_sound _ _ _ _ _ _ _ Hs Hrule) as (route & crule & Hr & Hc & Hrs).
  rewrite Forall_forall in Hbound. specialize (Hbound route ltac:(by apply list_elem_of_In)).
  rewrite Forall_forall in Hbound. destruct (Hbound crule ltac:(by apply list_elem_of_In)).
  destruct (rule_sound_weights _ _ _ _ _ Hrs) as [Hok Hpos]; [done|done|].
  split; [done|]. split; [done|]. intros Hne s Hcnt. by apply balancing.PickBackend_total.
Qed.

(** What a manifest entry promises about the object it names. *)
Definition verified (uid : string) (configMaps : gmap string ConfigMap)
    (secrets : gmap string Secret) (ref : compiled.ObjectRef) : Prop :=
  (compiled.orKind ref = compiled.ObjectKindConfigMap ∧
   ∃ cm, configMaps !! compiled.orName ref = Some cm ∧
     at_key (cmLabels cm) compiled.LabelGatewayUID = uid ∧
     compiled.ChecksumBytes (at_key (cmData cm) compiled.DataKey) = compiled.orChecksum ref ∧
     at_key (cmLabels cm) compiled.LabelRole ∈ [compiled.RoleGatewayCfg; compiled.RoleAttachment]) ∨
  (compiled.orKind ref = compiled.ObjectKindSecret ∧
   ∃ obj, secrets !! compiled.orName ref = Some obj ∧
     at_key (scLabels obj) compiled.LabelGatewayUID = uid ∧
     compiled.ChecksumSecret (scData obj) = compiled.orChecksum ref).

Lemma load_object_verified {libs : Libraries} uid configMaps secrets st ref st' :
  load_object uid configMaps secrets st ref = Ok st' → verified uid configMaps secrets ref.
Proof.
  unfold load_object, verified. intros H. case_bool_decide as Hk; [left|].
  - apply bind_Ok in H as (cm & Hcm & H). apply of_option_Ok in Hcm. split; [done|].
    exists cm. split; [done|]. unfold load_configmap in H.
    rewrite bind_Ok in H. destruct H as ([] & H1 & H). rewrite bind_Ok in H. destruct H as ([] & H2 & H).
    apply guard_err_Ok, bool_decide_eq_true in H1, H2. split; [done|]. split; [done|].
    case_bool_decide as R1; [rewrite R1; left|]. case_bool_decide as R2; [|done].
    rewrite R2. right. left.
  - case_bool_decide as Hs; [right|done]. apply bind_Ok in H as (obj & Hobj & H).
    apply of_option_Ok in Hobj. split; [done|]. exists obj. split; [done|]. unfold load_secret in H.
    rewrite bind_Ok in H. destruct H as ([] & H1 & H). rewrite bind_Ok in H. destruct H as ([] & H2 & H).
    by apply guard_err_Ok, bool_decide_eq_true in H1, H2.
Qed.

(** A generation that loads had every object of its manifest present, labelled
    for the gateway and of the recorded checksum, and its table is the build of
    the gateway object it names. *)
Theorem load_generation_verified {libs : Libraries} manifest configMaps secrets previous next t next' :
  LoadGeneration manifest configMaps secrets previous next = Ok (t, next') →
  gtGeneration t = compiled.mfGeneration manifest ∧
  Forall (verified (compiled.mfGatewayUID manifest) configMaps secrets) (compiled.mfObjects manifest) ∧
  ∃ ref cm gateway, ref ∈ compiled.mfObjects manifest ∧
    configMaps !! compiled.orName ref = Some cm ∧
    decodeGatewayConfig (at_key (cmData cm) compiled.DataKey) = Ok gateway ∧
    ∃ routes secret, BuildGatewayTable (compiled.mfGeneration manifest) gateway routes secret
                       previous next = Ok (t, next').
Proof.
  unfold LoadGeneration. rewrite bind_Ok. intros (st & Hst & H).
  rewrite bind_Ok in H. destruct H as (gateway & Hg & H). apply of_option_Ok in Hg.
  split.
  { unfold BuildGatewayTable in H. repeat (rewrite bind_Ok in H; destruct H as (? & _ & H)).
    destruct x1. destruct (build_routes _ _ _ _ _ _ _). by simplify_eq. }
  split.
  { apply Forall_forall. intros ref Hr%list_elem_of_In.
    destruct (foldM_steps _ _ _ _ _ Hst Hr) as (s1 & s2 & Hs). by eapply load_object_verified. }
  assert (∀ g, ldGateway st = Some g → ∃ ref cm, ref ∈ compiled.mfObjects manifest ∧
    configMaps !! compiled.orName ref = Some cm ∧
    decodeGatewayConfig (at_key (cmData cm) compiled.DataKey) = Ok g) as Hfrom.
  { revert Hst. apply (foldM_inv (λ st, ∀ g, ldGateway st = Some g → ∃ ref cm,
      ref ∈ compiled.mfObjects manifest ∧ configMaps !! compiled.orName ref = Some cm ∧
      decodeGatewayConfig (at_key (cmData cm) compiled.DataKey) = Ok g)); [done|].
    intros s ref s' Hin IH Hs g Hg'. unfold load_object in Hs. case_bool_decide.
    - apply bind_Ok in Hs as (cm & Hcm%of_option_Ok & Hs). unfold load_configmap in Hs.
      apply bind_Ok in Hs as (_ & _ & Hs). apply bind_Ok in Hs as (_ & _ & Hs).
      repeat case_bool_decide; [apply bind_Ok in Hs as (c & Hc & [= <-])| |done].
      + destruct (decodeGatewayConfig _) eqn:Hd; simplify_eq/=. eauto.
      + apply bind_Ok in Hs as (c & Hc & [= <-]). auto.
    - case_bool_decide; [|done]. apply bind_Ok in Hs as (obj & _ & Hs). unfold load_secret in Hs.
      apply bind_Ok in Hs as (_ & _ & Hs). apply bind_Ok in Hs as (_ & _ & [= <-]). auto. }
  destruct (Hfrom _ Hg) as (ref & cm & ? & ? & ?). exists ref, cm, gateway. eauto 6.
Qed.

(** *** Merging *)

(** Gateways that never claim the same port with different tables. *)
Definition ports_agree (gws : list GatewayTable) : Prop :=
  ∀ g1 g2 port t1 t2, g1 ∈ gws → g2 ∈ gws →
    gtByPort g1 !! port = Some t1 → gtByPort g2 !! port = Some t2 → t1 = t2.

Lemma MergeTables_lookup gws port t :
  ports_agree gws →
  Port (MergeTables gws) port = Some t ↔ ∃ gw, gw ∈ gws ∧ gtByPort gw !! port = Some t.
Proof.
  unfold Port, MergeTables. induction gws as [|gw gws IH] using rev_ind; intros Ha.
  { simpl. rewrite lookup_empty. split; [done|]. by intros (? & ?%elem_of_nil & _). }
  rewrite fold_left_app. simpl. rewrite lookup_union_Some_raw, IH.
  2:{ intros g1 g2 p t1 t2 ? ?. apply Ha; rewrite elem_of_app; auto. }
  split.
  - intros [?|(_ & g & ? & ?)].
    + exists gw. rewrite elem_of_app, list_elem_of_singleton. auto.
    + exists g. rewrite elem_of_app. auto.
  - intros (g & Hg & Hl). destruct (gtByPort gw !! port) as [t'|] eqn:Hgw.
    + left. f_equal. assert (gw ∈ gws ++ [gw]) as Hin by (apply elem_of_app; right; left).
      by eapply (Ha gw g port).
    + right. split; [done|]. apply elem_of_app in Hg as [?| ->%list_elem_of_singleton]; [eauto|by rewrite Hgw in Hl].
Qed.

Lemma MergeTables_backends gws ns :
  ns ∈ Backends (MergeTables gws) ↔ ∃ gw, gw ∈ gws ∧ ns ∈ gtNamespaces gw.
Proof.
  unfold Backends, MergeTables. induction gws as [|gw gws IH] using rev_ind.
  { simpl. set_solver. }
  rewrite fold_left_app. simpl. rewrite elem_of_union, IH. set_solver.
Qed.

(** Merging gateway tables does not depend on their order, serves exactly the
    ports of the gateways and watches exactly their namespaces. *)
Theorem merge_order_independent gws gws' :
  gws ≡ₚ gws' → ports_agree gws →
  MergeTables gws = MergeTables gws' ∧
  (∀ port t, Port (MergeTables gws) port = Some t ↔
     ∃ gw, gw ∈ gws ∧ gtByPort gw !! port = Some t) ∧
  (∀ ns, ns ∈ Backends (MergeTables gws) ↔ ∃ gw, gw ∈ gws ∧ ns ∈ gtNamespaces gw).
Proof.
  intros Hp Ha. assert (ports_agree gws') as Ha'.
  { intros g1 g2 p t1 t2. rewrite <-Hp. apply Ha. }
  split; [|split; [intros; by apply MergeTables_lookup|apply MergeTables_backends]].
  assert (tByPort (MergeTables gws) = tByPort (MergeTables gws')) as H1.
  { apply map_eq. intros port. apply option_eq. intros t.
    pose proof (MergeTables_lookup gws port t Ha) as E1.
    pose proof (MergeTables_lookup gws' port t Ha') as E2. unfold Port in E1, E2.
    rewrite E1, E2. by setoid_rewrite Hp. }
  assert (tBackends (MergeTables gws) = tBackends (MergeTables gws')) as H2.
  { apply set_eq. intros ns. pose proof (MergeTables_backends gws ns) as E1.
    pose proof (MergeTables_backends gws' ns) as E2. unfold Backends in E1, E2.
    rewrite E1, E2. by setoid_rewrite Hp. }
  destruct (MergeTables gws), (MergeTables gws'). simpl in *. by subst.
Qed.

(** The SAN verifier accepts a peer only when its leaf parses, the chain
    verifies against the policy's pool and one of the configured subject
    alternative names matches the leaf. *)
Theorem san_verifier_accepts {libs : Libraries} pool sans rawCerts :
  sanVerifier pool sans rawCerts = Ok tt →
  ∃ raw rest leaf intermediates san,
    rawCerts = raw :: rest ∧ parseCertificate raw = Ok leaf ∧
    Forall2 (λ raw cert, parseCertificate raw = Ok cert) rest intermediates ∧
    verifyChain pool intermediates leaf = Ok tt ∧
    san ∈ sans ∧ san_matches leaf san = true.
Proof.
  unfold sanVerifier. rewrite bind_Ok. intros (certs & Hc & H).
  assert (Forall2 (λ raw cert, parseCertificate raw = Ok cert) rawCerts certs) as Hp.
  { clear H. revert certs Hc. induction rawCerts as [|raw rest IH] using rev_ind; intros certs.
    - intros [= <-]. constructor.
    - rewrite foldM_snoc. intros (acc & Ha & Hs). apply bind_Ok in Hs as (c & Hcert & [= <-]).
      apply Forall2_app; [by apply IH|]. constructor; [|constructor].
      by destruct (parseCertificate raw); simplify_eq/=. }
  destruct certs as [|leaf intermediates]; [done|].
  inversion Hp as [|raw ? rest ? Hl Hr]; subst. apply bind_Ok in H as ([] & Hv & Hs).
  apply guard_err_Ok, existsb_exists in Hs as (san & Hin%list_elem_of_In & Hm).
  exists raw, rest, leaf, intermediates, san.
  destruct (verifyChain pool intermediates leaf) as [[]|]; simplify_eq/=. done.
Qed.

(** ** A concrete generation *)

Definition ex_policy : compiled.BackendTLS :=
  compiled.mkBackendTLS "svc.internal" "CA" false false [compiled.mkSubjectAltName "URI" "spiffe://a"].
Definition ex_cbackend (name : string) (w : Z) : compiled.Backend :=
  compiled.mkBackend "default" name 80 w true "" "" [] (Some ex_policy).
Definition ex_crule : compiled.Rule :=
  compiled.mkRule [] [] [ex_cbackend "a" 3; ex_cbackend "b" 0; ex_cbackend "c" 1] 0 0 None "SecRuleEngine On" false "".
Definition ex_croute : compiled.RouteConfig :=
  compiled.mkRouteConfig "ruid" "default" "r" ["web"] [] 100 false [ex_crule].
Definition ex_gateway : compiled.GatewayConfig :=
  compiled.mkGatewayConfig "guid" "default" "gw"
    [compiled.mkListener "any" 443 10000 "HTTPS" "" true "" false;
     compiled.mkListener "web" 443 10000 "HTTPS" "a.example.com" true "AllowValidOnly" false] false [].
Definition ex_secret : Secret :=
  mkSecret {[ compiled.LabelGatewayUID := "guid" ]}
    (list_to_map [("any.tls.crt", "C"); ("any.tls.key", "K"); ("web.tls.crt", "C");
                  ("web.tls.key", "K"); ("web.client-ca.crt", "CA")]).

Definition nonempty (s : string) : result string unit := guard_err (s != "") "empty".
Definition decode_one {A} (text : string) (value : A) (s : string) : result string A :=
  if (s == text) then Ok value else Err "syntax error".

Definition ex_libs : Libraries := {|
  x509KeyPair c k := nonempty (c +:+ k);
  samlSigner c k := nonempty (c +:+ k);
  appendCertsFromPEM s := (s != "");
  parseCertificate raw := if (raw == "") then Err "empty" else Ok (mkX509 raw ["spiffe://a"]);
  verifyChain pool _ leaf := if (pool == Some "CA") then Ok tt else Err "unknown authority";
  verifyHostname leaf name := (xRaw leaf == name);
  newWAF := nonempty;
  parseMetadata := nonempty;
  decodeAuth := decode_one "AUTH" (compiled.mkAuth "id" "/.auth" None None None None None []);
  decodeGatewayConfig := decode_one "GATEWAY" ex_gateway;
  decodeRouteConfig := decode_one "ROUTE" ex_croute;
|}.
#[local] Existing Instance ex_libs.

Definition ex_built : result BuildError (GatewayTable * nat) :=
  BuildGatewayTable "gen1" ex_gateway [ex_croute] (Some ex_secret) None 1.
Definition ex_table : GatewayTable :=
  match ex_built with Ok (t, _) => t | Err _ => mkGatewayTable "" ∅ ∅ end.

Lemma ex_built_ok :
  BuildGatewayTable "gen1" ex_gateway [ex_croute] (Some ex_secret) None 1 = Ok (ex_table, 7).
Proof. vm_compute; reflexivity. Qed.

Lemma ex_routes_wf : routes_wf [ex_croute].
Proof. repeat (constructor || split). Qed.

Definition first_rule (t : GatewayTable) (port : Z) : option RuleTable :=
  table ← gtByPort t !! port; head ((ptListeners table ≫= liRoutes) ≫= rtRules).

Lemma first_rule_of t port rule : first_rule t port = Some rule → rule_of t rule.
Proof.
  unfold first_rule. intros (table & Ht & Hh)%bind_Some.
  assert (rule ∈ ((ptListeners table ≫= liRoutes) ≫= rtRules)) as Hin.
  { destruct ((ptListeners table ≫= liRoutes) ≫= rtRules); simplify_eq/=. left. }
  apply list_elem_of_bind in Hin as (rt & Hr & Hin).
  apply list_elem_of_bind in Hin as (l & Hrt & Hl). exists port, l, rt. split; [by exists table|done].
Qed.

Definition ex_entry : RuleTable := default matching.ex_prefix_rule (first_rule ex_table 10000).

Lemma ex_entry_of : rule_of ex_table ex_entry.
Proof. apply (first_rule_of ex_table 10000). vm_compute; reflexivity. Qed.

Lemma build_table_sound_witness :
  transports_ok ex_table ∧ gtGeneration ex_table = "gen1".
Proof.
  destruct (build_table_sound "gen1" ex_gateway [ex_croute] (Some ex_secret) None 1 ex_table 7
    ex_routes_wf) as (H1 & H2 & _);
    [discriminate|exact ex_built_ok|exact (conj H2 H1)].
Defined.

Lemma extensions_fail_closed_witness :
  ruWAFEngine ex_entry = Some "SecRuleEngine On" ∧
  ∃ route crule, route ∈ [ex_croute] ∧ crule ∈ compiled.rcRules route ∧
    (compiled.ruWAF crule ≠ "" → ruWAFEngine ex_entry = Some (compiled.ruWAF crule)).
Proof.
  split; [vm_compute; reflexivity|].
  destruct (extensions_fail_closed "gen1" ex_gateway [ex_croute] (Some ex_secret) None 1 ex_table 7
    ex_entry ex_routes_wf) as (route & crule & ? & ? & _ & _ & _ & H & _);
    [discriminate|exact ex_built_ok|exact ex_entry_of|vm_compute; reflexivity|].
  exists route, crule. split; [assumption|]. split; [assumption|exact H].
Defined.

Lemma transport_matches_policy_witness :
  ∃ b tr, b ∈ ruBackends ex_entry ∧ bkTLSTransport b = Some tr ∧ trServerName tr = "svc.internal" ∧
    ∃ cb, bkName b = compiled.bName cb.
Proof.
  destruct (ruBackends ex_entry) as [|b bs] eqn:Hb; [vm_compute in Hb; discriminate|].
  destruct (transport_matches_policy "gen1" ex_gateway [ex_croute] (Some ex_secret) None 1 ex_table 7
    ex_entry b ex_routes_wf) as (cc & route & crule & cb & _ & _ & _ & _ & _ & Hn & _);
    [discriminate|exact ex_built_ok|exact ex_entry_of|rewrite Hb; left|].
  vm_compute in Hb. injection Hb as <- <-. eexists _, _. split; [left|].
  split; [reflexivity|]. split; [reflexivity|]. exists cb. exact Hn.
Defined.

Lemma built_weights_ok_witness :
  ruTotal ex_entry = 4%Z ∧ balancing.weights_ok ex_entry.
Proof.
  split; [vm_compute; reflexivity|].
  apply (built_weights_ok "gen1" ex_gateway [ex_croute] (Some ex_secret) None 1 ex_table 7 ex_entry
    ex_routes_wf); [discriminate|exact ex_built_ok| |exact ex_entry_of].
  repeat (constructor || split); vm_compute; reflexivity.
Defined.

Definition ex_object (role data : string) : ConfigMap :=
  mkConfigMap (<[compiled.LabelRole := role]> {[ compiled.LabelGatewayUID := "guid" ]})
    {[ compiled.DataKey := data ]}.
Definition ex_manifest : compiled.Manifest :=
  compiled.mkManifest "guid" "gen1" "" 
    [compiled.mkObjectRef "ConfigMap" "gwcfg" (compiled.ChecksumBytes "GATEWAY");
     compiled.mkObjectRef "ConfigMap" "att" (compiled.ChecksumBytes "ROUTE");
     compiled.mkObjectRef "Secret" "tls" (compiled.ChecksumSecret (scData ex_secret))].
Definition ex_configmaps : gmap string ConfigMap :=
  list_to_map [("gwcfg", ex_object compiled.RoleGatewayCfg "GATEWAY");
               ("att", ex_object compiled.RoleAttachment "ROUTE")].

Lemma load_generation_verified_witness :
  Forall (verified "guid" ex_configmaps {[ "tls" := ex_secret ]}) (compiled.mfObjects ex_manifest).
Proof.
  apply (load_generation_verified ex_manifest ex_configmaps {[ "tls" := ex_secret ]} None 1 ex_table 7).
  vm_compute; reflexivity.
Defined.

Definition ex_gw (port : Z) (ns : string) : GatewayTable :=
  mkGatewayTable "g" {[ port := matching.ex_port [] ]} {[ ns ]}.

Lemma merge_order_independent_witness :
  MergeTables [ex_gw 1 "a"; ex_gw 2 "b"] = MergeTables [ex_gw 2 "b"; ex_gw 1 "a"].
Proof.
  apply (merge_order_independent [ex_gw 1 "a"; ex_gw 2 "b"]); [constructor|].
  intros g1 g2 port t1 t2 H1 H2.
  assert (∀ g t, g ∈ [ex_gw 1 "a"; ex_gw 2 "b"] → gtByPort g !! port = Some t →
                 t = matching.ex_port []) as H.
  { intros g t [->|[->|[]%elem_of_nil]%elem_of_cons]%elem_of_cons; simpl;
      intros [_ <-]%lookup_singleton_Some; reflexivity. }
  intros E1%H E2%H; [|assumption..]. congruence.
Defined.

Lemma san_verifier_accepts_witness :
  ∃ raw rest leaf intermediates san,
    ["leaf"; "ca"] = raw :: rest ∧ parseCertificate raw = Ok leaf ∧
    Forall2 (λ raw cert, parseCertificate raw = Ok cert) rest intermediates ∧
    verifyChain (Some "CA") intermediates leaf = Ok tt ∧
    san ∈ [compiled.mkSubjectAltName "URI" "spiffe://a"] ∧ san_matches leaf san = true.
Proof.
  apply (san_verifier_accepts (Some "CA") [compiled.mkSubjectAltName "URI" "spiffe://a"] ["leaf"; "ca"]).
  vm_compute; reflexivity.
Defined.

End build.
