(* ===== verification/DataPlane.v ===== *)
(** * The data-plane actors

    Models the workers of [internal/app/dataplane]: the configuration
    watcher, the loader that rebuilds the tables of every gateway and
    publishes them, the listener supervisor and the endpoint resolver.

    Each worker is a state machine: one function per message, and a step
    relation whose reachable states carry the invariants.  What the
    Kubernetes API returns, whether a send or a bind succeeds, and the
    order Go iterates over a map are inputs of a step. *)

From S2P Require Import Prelude GoStrings Http NetIP ClientIP Compiled Tables Matching Build.
From stdpp Require Import options.

#[local] Open Scope nat_scope.
Import routing build.

(** ** Configuration watcher *)

Module configwatcher.

Record RawConfig := mkRawConfig {
  rwConfigMaps : gmap string ConfigMap;
  rwSecrets : gmap string Secret;
}.

(** A listed object: name, resource version and content. *)
Record Listed (A : Type) := mkListed { ltName : string; ltVersion : string; ltObject : A }.
Arguments mkListed {A}.
Arguments ltName {A}.
Arguments ltVersion {A}.
Arguments ltObject {A}.

Definition snapshot_of {A} (items : list (Listed A)) : string :=
  foldr (λ i s, ltName i +:+ "/" +:+ ltVersion i +:+ ";" +:+ s) "" items.

Definition index_items {A} (items : list (Listed A)) : gmap string A :=
  fold_left (λ m i, <[ltName i := ltObject i]> m) items ∅.

(** [poll]: the new [lastSnapshot] and the configuration mailed. *)
Definition poll (lastSnapshot : string) (cmList : option (list (Listed ConfigMap)))
    (secretList : option (list (Listed Secret))) (sent : bool) : string * option RawConfig :=
  match cmList, secretList with
  | Some cms, Some secrets =>
      let snapshot := snapshot_of cms +:+ snapshot_of secrets in
      if (snapshot == lastSnapshot) then (lastSnapshot, None)
      else if sent then
        (snapshot, Some (mkRawConfig (index_items cms) (index_items secrets)))
      else (lastSnapshot, None)
  | _, _ => (lastSnapshot, None)
  end.

End configwatcher.

(** ** Loader *)

Module loader.
Import configwatcher.

Section loader.
Context {libs : Libraries}.
(** [json.Unmarshal] of a manifest, and the text of an error. *)
Context (decodeManifest : string → result string compiled.Manifest).
Context (errorText : BuildError → string).

Record worker := mkWorker {
  wApplied : gmap string GatewayTable;
  wState : State;
  wNext : nat;
  wTablesOut : list Tables;           (** mailed to the listener supervisor *)
  wNamespacesOut : list (gset string);  (** mailed to the resolver *)
}.

Definition initial : worker := mkWorker ∅ NewState 1 [] [].

(** What one iteration of the manifest loop accumulates. *)
Record pass := mkPass {
  paApplied : gmap string GatewayTable;
  paStatuses : gmap string GatewayStatus;
  paNext : nat;
}.

(** The rejected branch: keep the last valid table. *)
Definition rejected (w : worker) (uid desired err : string) (p : pass) (next : nat) : pass :=
  match wApplied w !! uid with
  | Some previous =>
      mkPass (<[uid := previous]> (paApplied p))
        (<[uid := mkGatewayStatus desired (gtGeneration previous) (Some err)]> (paStatuses p)) next
  | None =>
      let appliedGen := match stStatuses (wState w) !! uid with
                        | Some prev => gsAppliedGeneration prev
                        | None => ""
                        end in
      mkPass (paApplied p)
        (<[uid := mkGatewayStatus desired appliedGen (Some err)]> (paStatuses p)) next
  end.

Definition load_manifest (w : worker) (raw : RawConfig) (p : pass) (uid : string)
    (manifest : compiled.Manifest) : pass :=
  let desired := compiled.mfGeneration manifest in
  let previous := wApplied w !! uid in
  let accept table next :=
    mkPass (<[uid := table]> (paApplied p))
      (<[uid := mkGatewayStatus desired desired None]> (paStatuses p)) next in
  let load :=
    match LoadGeneration manifest (rwConfigMaps raw) (rwSecrets raw) previous (paNext p) with
    | Ok (table, next) => accept table next
    | Err e => rejected w uid desired (errorText e) p (paNext p)
    end in
  match previous with
  | Some table => if (gtGeneration table == desired) then accept table (paNext p) else load
  | None => load
  end.

Definition manifest_uid (cm : ConfigMap) : option string :=
  if (at_key (cmLabels cm) compiled.LabelRole != compiled.RoleManifest) then None
  else let uid := at_key (cmLabels cm) compiled.LabelGatewayUID in
       if (uid == "") then None else Some uid.

Definition load_cm (w : worker) (raw : RawConfig) (p : pass) (cm : ConfigMap) : pass :=
  match manifest_uid cm with
  | None => p
  | Some uid =>
      match decodeManifest (at_key (cmData cm) compiled.ManifestKey) with
      | Ok manifest => load_manifest w raw p uid manifest
      | Err e => rejected w uid "" ("invalid manifest: " +:+ e) p (paNext p)
      end
  end.

(** [rebuild]; [order] is the iteration order of [raw.ConfigMaps] and
    [gateways] that of the applied tables in the merge. *)
Definition rebuild_pass (w : worker) (raw : RawConfig) (order : list ConfigMap) : pass :=
  fold_left (load_cm w raw) order (mkPass ∅ ∅ (wNext w)).

Definition publish (w : worker) (p : pass) (gateways : list GatewayTable) : worker :=
  let merged := MergeTables gateways in
  mkWorker (paApplied p) (mkState merged (paStatuses p) (stEndpoints (wState w))) (paNext p)
    (wTablesOut w ++ [merged]) (wNamespacesOut w ++ [Backends merged]).

(** One message of the mailbox.  The publisher keeps one manifest per
    gateway, named after its UID. *)
Inductive step (w : worker) : worker → Prop :=
  | step_rebuild raw order gateways :
      order ≡ₚ (map_to_list (rwConfigMaps raw)).*2 →
      NoDup (omap manifest_uid order) →
      gateways ≡ₚ (map_to_list (paApplied (rebuild_pass w raw order))).*2 →
      step w (publish w (rebuild_pass w raw order) gateways).

Definition reachable (w : worker) : Prop := rtc step initial w.

(** *** What one pass does to one gateway *)

(** The table a gateway serves after its manifest was processed. *)
Definition next_table (w : worker) (raw : RawConfig) (uid : string) (data : string) (next : nat) :
    option GatewayTable :=
  match decodeManifest data with
  | Err _ => wApplied w !! uid
  | Ok manifest =>
      match wApplied w !! uid with
      | Some table =>
          if (gtGeneration table == compiled.mfGeneration manifest) then Some table
          else match LoadGeneration manifest (rwConfigMaps raw) (rwSecrets raw) (Some table) next with
               | Ok (t, _) => Some t
               | Err _ => Some table
               end
      | None =>
          match LoadGeneration manifest (rwConfigMaps raw) (rwSecrets raw) None next with
          | Ok (t, _) => Some t
          | Err _ => None
          end
      end
  end.

Lemma load_cm_self w raw p cm uid :
  manifest_uid cm = Some uid → paApplied p !! uid = None →
  paApplied (load_cm w raw p cm) !! uid =
    next_table w raw uid (at_key (cmData cm) compiled.ManifestKey) (paNext p).
Proof.
  intros Hu Hp. unfold load_cm, next_table. rewrite Hu.
  destruct (decodeManifest _) as [m|e].
  - unfold load_manifest. destruct (wApplied w !! uid) as [t|] eqn:Ht.
    + case_bool_decide; simpl; [by rewrite lookup_insert_eq|].
      destruct (LoadGeneration _ _ _ _ _) as [[t' n]|e]; simpl; [by rewrite lookup_insert_eq|].
      unfold rejected. rewrite Ht. simpl. by rewrite lookup_insert_eq.
    + destruct (LoadGeneration _ _ _ _ _) as [[t' n]|e]; simpl; [by rewrite lookup_insert_eq|].
      unfold rejected. by rewrite Ht.
  - unfold rejected. destruct (wApplied w !! uid); simpl; [by rewrite lookup_insert_eq|done].
Qed.

Lemma rejected_applied w uid d e p n uid' :
  uid ≠ uid' → paApplied (rejected w uid d e p n) !! uid' = paApplied p !! uid'.
Proof.
  intros. unfold rejected. destruct (wApplied w !! uid); simpl; [|done].
  by rewrite lookup_insert_ne.
Qed.

(** A manifest only touches its own gateway. *)
Lemma load_cm_other w raw p cm uid :
  manifest_uid cm ≠ Some uid → paApplied (load_cm w raw p cm) !! uid = paApplied p !! uid.
Proof.
  intros Hu. unfold load_cm. destruct (manifest_uid cm) as [u|]; [|done].
  assert (u ≠ uid) by congruence.
  destruct (decodeManifest _); [|by apply rejected_applied].
  unfold load_manifest.
  assert (∀ t n, <[u := t]> (paApplied p) !! uid = paApplied p !! uid) as Hi
    by (intros; by rewrite lookup_insert_ne).
  destruct (wApplied w !! u); [case_bool_decide; [by apply Hi|]|];
    (destruct (LoadGeneration _ _ _ _ _) as [[]|]; [by apply Hi|by apply rejected_applied]).
Qed.

Lemma load_cms_other w raw order p uid :
  Forall (λ cm, manifest_uid cm ≠ Some uid) order →
  paApplied (fold_left (load_cm w raw) order p) !! uid = paApplied p !! uid.
Proof.
  intros H. revert p. induction H as [|cm order Hcm _ IH]; intros p; simpl; [done|].
  by rewrite IH, load_cm_other.
Qed.

(** *** Invariant *)

(** Every table served was loaded from a verified generation, and the
    status of a gateway with a table names that table's generation. *)
Record worker_ok (w : worker) : Prop := {
  ok_verified : map_Forall (λ _ t, ∃ manifest cms secrets previous next next',
    LoadGeneration manifest cms secrets previous next = Ok (t, next')) (wApplied w);
  ok_statuses : ∀ uid t, wApplied w !! uid = Some t →
    ∃ st, stStatuses (wState w) !! uid = Some st ∧ gsAppliedGeneration st = gtGeneration t ∧
          (gsLastError st = None → gsDesiredGeneration st = gtGeneration t);
  ok_errors : ∀ uid st, stStatuses (wState w) !! uid = Some st →
    gsLastError st = None → is_Some (wApplied w !! uid);
}.

(** The same of the maps under construction. *)
Record pass_ok (p : pass) : Prop := {
  po_verified : map_Forall (λ _ t, ∃ manifest cms secrets previous next next',
    LoadGeneration manifest cms secrets previous next = Ok (t, next')) (paApplied p);
  po_statuses : ∀ uid t, paApplied p !! uid = Some t →
    ∃ st, paStatuses p !! uid = Some st ∧ gsAppliedGeneration st = gtGeneration t ∧
          (gsLastError st = None → gsDesiredGeneration st = gtGeneration t);
  po_errors : ∀ uid st, paStatuses p !! uid = Some st →
    gsLastError st = None → is_Some (paApplied p !! uid);
}.

Lemma pass_ok_insert p uid t st next :
  pass_ok p →
  (∃ manifest cms secrets previous next next',
     LoadGeneration manifest cms secrets previous next = Ok (t, next')) →
  gsAppliedGeneration st = gtGeneration t →
  (gsLastError st = None → gsDesiredGeneration st = gtGeneration t) →
  pass_ok (mkPass (<[uid := t]> (paApplied p)) (<[uid := st]> (paStatuses p)) next).
Proof.
  intros [H1 H2 H3] Hv Ha Hd. split; simpl.
  - by apply map_Forall_insert_2.
  - intros u t'. rewrite !lookup_insert. case_decide; [intros [= <-]; eauto|auto].
  - intros u st'. rewrite !lookup_insert. case_decide; [eauto|apply H3].
Qed.

Lemma pass_ok_next p next : pass_ok p → pass_ok (mkPass (paApplied p) (paStatuses p) next).
Proof. by intros [? ? ?]. Qed.

Lemma LoadGeneration_generation manifest cms secrets previous next t next' :
  LoadGeneration manifest cms secrets previous next = Ok (t, next') →
  gtGeneration t = compiled.mfGeneration manifest.
Proof.
  unfold LoadGeneration. intros (st & _ & (g & _ & H)%bind_Ok)%bind_Ok.
  unfold BuildGatewayTable in H. apply bind_Ok in H as (? & _ & H).
  apply bind_Ok in H as (? & _ & H). apply bind_Ok in H as ([] & _ & H).
  destruct (build_routes _ _ _ _ _ _ _). by simplify_eq/=.
Qed.

Lemma rejected_ok w uid d e p next :
  worker_ok w → pass_ok p → paApplied p !! uid = None → pass_ok (rejected w uid d e p next).
Proof.
  intros [W1 W2 W3] Hp Hn. unfold rejected. destruct (wApplied w !! uid) as [t|] eqn:Ht.
  - apply pass_ok_insert; simpl; [done|by apply (W1 uid)|done|discriminate].
  - destruct Hp as [H1 H2 H3]. split; simpl; [done|..].
    + intros u t' Hu. rewrite lookup_insert_ne by (intros ->; congruence). auto.
    + intros u st. rewrite lookup_insert. case_decide; [by intros [= <-]|apply H3].
Qed.

Lemma load_cm_ok w raw p cm :
  worker_ok w → pass_ok p →
  (∀ uid, manifest_uid cm = Some uid → paApplied p !! uid = None) →
  pass_ok (load_cm w raw p cm).
Proof.
  intros Hw Hp Hfresh. unfold load_cm. destruct (manifest_uid cm) as [uid|]; [|done].
  specialize (Hfresh uid eq_refl).
  destruct (decodeManifest _) as [m|e]; [|by apply rejected_ok].
  unfold load_manifest.
  assert (∀ o, pass_ok match LoadGeneration m (rwConfigMaps raw) (rwSecrets raw) o (paNext p) with
    | Ok (table, next) => mkPass (<[uid := table]> (paApplied p))
        (<[uid := mkGatewayStatus (compiled.mfGeneration m) (compiled.mfGeneration m) None]> (paStatuses p)) next
    | Err e => rejected w uid (compiled.mfGeneration m) (errorText e) p (paNext p)
    end) as Hload.
  { intros o. destruct (LoadGeneration _ _ _ _ _) as [[t n]|e] eqn:Hl; [|by apply rejected_ok].
    pose proof (LoadGeneration_generation _ _ _ _ _ _ _ Hl).
    apply pass_ok_insert; simpl; [done|eauto 10|done|done]. }
  destruct (wApplied w !! uid) as [t|] eqn:Ht; [case_bool_decide|]; [|apply Hload..].
  apply pass_ok_insert; simpl; [done|by apply (ok_verified w Hw uid)|done|done].
Qed.

Lemma omap_uid_notin order uid :
  uid ∉ omap manifest_uid order → Forall (λ cm, manifest_uid cm ≠ Some uid) order.
Proof.
  intros H. apply Forall_forall. intros cm Hcm%list_elem_of_In Hu. destruct H.
  apply list_elem_of_omap. eauto.
Qed.

Lemma omap_snoc_NoDup order cm uid :
  NoDup (omap manifest_uid (order ++ [cm])) → manifest_uid cm = Some uid →
  uid ∉ omap manifest_uid order.
Proof.
  intros Hnd Hu. rewrite omap_app in Hnd. cbn [omap list_omap] in Hnd. rewrite Hu in Hnd.
  apply list.NoDup_app in Hnd as (_ & Hd & _). intros Hin. apply (Hd uid Hin). left.
Qed.

Lemma rebuild_pass_ok w raw order :
  worker_ok w → NoDup (omap manifest_uid order) → pass_ok (rebuild_pass w raw order).
Proof.
  intros Hw. unfold rebuild_pass. induction order as [|cm order IH] using rev_ind; intros Hnd.
  - split; simpl; [apply map_Forall_empty|intros ? ? H..]; by rewrite lookup_empty in H.
  - rewrite fold_left_app. simpl. apply load_cm_ok; [done|..].
    + apply IH. rewrite omap_app in Hnd. by apply list.NoDup_app in Hnd as (? & _).
    + intros uid Hu. rewrite load_cms_other; [apply lookup_empty|].
      apply omap_uid_notin. by eapply omap_snoc_NoDup.
Qed.

Lemma step_ok w w' : worker_ok w → step w w' → worker_ok w'.
Proof.
  intros Hw [raw order gateways _ Hnd _].
  destruct (rebuild_pass_ok w raw order Hw Hnd) as [H1 H2 H3]. by split.
Qed.

Lemma initial_ok : worker_ok initial.
Proof. split; simpl; [apply map_Forall_empty|intros ? ? H..]; by rewrite lookup_empty in H. Qed.

(** ** Properties *)

(** After a loader pass a gateway has the new table when its manifest loads and
    the table it had otherwise, and a gateway whose manifest is gone has none. *)
Theorem loader_last_valid w raw order uid :
  NoDup (omap manifest_uid order) →
  match list_find (λ cm, manifest_uid cm = Some uid) order with
  | Some (_, cm) => ∃ next,
      paApplied (rebuild_pass w raw order) !! uid =
        next_table w raw uid (at_key (cmData cm) compiled.ManifestKey) next
  | None => paApplied (rebuild_pass w raw order) !! uid = None
  end.
Proof.
  intros Hnd. unfold rebuild_pass. destruct (list_find _ order) as [[i cm]|] eqn:Hf.
  - apply list_find_Some in Hf as (Hi & Hu & _).
    rewrite <-(take_drop_middle _ _ _ Hi) in Hnd |- *. rewrite fold_left_app. simpl.
    exists (paNext (fold_left (load_cm w raw) (take i order) (mkPass ∅ ∅ (wNext w)))).
    rewrite omap_app in Hnd. cbn [omap list_omap] in Hnd. rewrite Hu in Hnd.
    apply list.NoDup_app in Hnd as (_ & Hd1 & Hd2). apply list.NoDup_cons in Hd2 as [Hd2 _].
    rewrite load_cms_other by by apply omap_uid_notin.
    rewrite load_cm_self; [done|done|]. rewrite load_cms_other; [apply lookup_empty|].
    apply omap_uid_notin. intros Hin. apply (Hd1 uid Hin). left.
  - apply list_find_None in Hf. rewrite load_cms_other by done. apply lookup_empty.
Qed.

(** In every state the loader reaches, the published tables are the merge of the
    applied gateways, and each of those was loaded and verified. *)
Theorem loader_serves_verified w :
  reachable w →
  worker_ok w ∧
  (wTablesOut w ≠ [] → list.last (wTablesOut w) = Some (stTables (wState w)) ∧
   ∃ gateways, gateways ≡ₚ (map_to_list (wApplied w)).*2 ∧
               stTables (wState w) = MergeTables gateways).
Proof.
  intros Hr. assert (∀ w0 w1, rtc step w0 w1 →
    (worker_ok w0 ∧ (wTablesOut w0 ≠ [] → list.last (wTablesOut w0) = Some (stTables (wState w0)) ∧
      ∃ gateways, gateways ≡ₚ (map_to_list (wApplied w0)).*2 ∧
                  stTables (wState w0) = MergeTables gateways)) →
    worker_ok w1 ∧ (wTablesOut w1 ≠ [] → list.last (wTablesOut w1) = Some (stTables (wState w1)) ∧
      ∃ gateways, gateways ≡ₚ (map_to_list (wApplied w1)).*2 ∧
                  stTables (wState w1) = MergeTables gateways)) as H.
  { induction 1 as [w0|w0 w1 w2 Hs _ IH]; [done|]. intros [Hok _]. apply IH.
    split; [by eapply step_ok|]. intros _. destruct Hs as [raw order gateways _ _ Hg]. simpl.
    rewrite last_snoc. split; [done|]. by exists gateways. }
  apply (H initial); [done|]. split; [apply initial_ok|done].
Qed.

End loader.

(** *** A concrete run *)

#[local] Existing Instance ex_libs.

Definition ex_manifest_cm : ConfigMap :=
  mkConfigMap (<[compiled.LabelRole := compiled.RoleManifest]> {[ compiled.LabelGatewayUID := "guid" ]})
    {[ compiled.ManifestKey := "MANIFEST" ]}.
Definition ex_raw : RawConfig :=
  mkRawConfig (<["manifest" := ex_manifest_cm]> ex_configmaps) {[ "tls" := ex_secret ]}.
Definition ex_order : list ConfigMap := (map_to_list (rwConfigMaps ex_raw)).*2.
Definition ex_decode : string → result string compiled.Manifest := decode_one "MANIFEST" ex_manifest.
Definition ex_text (e : BuildError) : string := "error".
Abbreviation ex_pass w := (rebuild_pass ex_decode ex_text w ex_raw ex_order).

Lemma ex_order_NoDup : NoDup (omap manifest_uid ex_order).
Proof. apply (bool_decide_unpack _). vm_compute. exact I. Qed.

Lemma loader_last_valid_witness :
  (gtGeneration <$> paApplied (ex_pass initial) !! "guid") = Some "gen1" ∧
  paApplied (ex_pass initial) !! "other" = None.
Proof.
  split; [vm_compute; reflexivity|].
  exact (loader_last_valid ex_decode ex_text initial ex_raw ex_order "other" ex_order_NoDup).
Defined.

Definition ex_worker : worker :=
  publish initial (ex_pass initial) (map_to_list (paApplied (ex_pass initial))).*2.

Lemma loader_serves_verified_witness : worker_ok ex_worker.
Proof.
  apply (loader_serves_verified ex_decode ex_text ex_worker).
  eapply rtc_once, (step_rebuild ex_decode ex_text initial ex_raw ex_order);
    [reflexivity|exact ex_order_NoDup|reflexivity].
Defined.

End loader.

(** ** Endpoint resolver *)

Module resolver.

(** What the API lists for one namespace: services by name, slices with
    their service label; [None] is a failed list call. *)
Record Listing := mkListing {
  lgServices : option (list (string * Service));
  lgSlices : option (list (option string * EndpointSlice));
}.

Definition add_service (ns : string) (idx : EndpointsIndex) (s : string * Service) : EndpointsIndex :=
  mkEndpointsIndex (<[ns +:+ "/" +:+ s.1 := s.2]> (eiServices idx)) (eiSlices idx).

Definition add_slice (ns : string) (idx : EndpointsIndex) (s : option string * EndpointSlice) :
    EndpointsIndex :=
  let svcName := default "" s.1 in
  if (svcName == "") then idx
  else let key := ns +:+ "/" +:+ svcName in
       mkEndpointsIndex (eiServices idx)
         (<[key := default [] (eiSlices idx !! key) ++ [s.2]]> (eiSlices idx)).

Definition poll_namespace (api : string → Listing) (idx : EndpointsIndex) (ns : string) : EndpointsIndex :=
  match lgServices (api ns) with
  | None => idx
  | Some services =>
      let idx := fold_left (add_service ns) services idx in
      match lgSlices (api ns) with
      | None => idx
      | Some slices => fold_left (add_slice ns) slices idx
      end
  end.

(** [poll]: publish a fresh index of the declared namespaces. *)
Definition resolve_poll (api : string → Listing) (namespaces : list string) (s : State) : State :=
  mkState (stTables s) (stStatuses s)
    (fold_left (poll_namespace api) namespaces NewEndpointsIndex).

End resolver.

(** ** Listener supervisor *)

Module listeners.

Inductive ServerKind := TCPServer | UDPServer | TLSServer | PortServer (tls : bool).

(** A running child: [srId] is its identity, [srTrusted] whether it demands
    a proxy-protocol preamble. *)
Record Server := mkServer { srId : nat; srPort : Z; srKind : ServerKind; srTrusted : bool }.

Record listener_worker := mkWorker {
  wChildren : gmap Z Server;
  wSpecs : gmap Z PortSpec;
  wNextId : nat;
  wStopped : list Server;    (** children stopped so far *)
}.

Definition no_listeners : listener_worker := mkWorker ∅ ∅ 0 [].

(** The stop loop: a port that disappeared or changed kind. *)
Definition stop_one (ports : gmap Z PortSpec) (w : listener_worker) (port : Z) : listener_worker :=
  match wChildren w !! port with
  | None => w
  | Some srv =>
      match ports !! port with
      | Some spec =>
          if (Some spec == wSpecs w !! port) then w
          else mkWorker (delete port (wChildren w)) (delete port (wSpecs w)) (wNextId w) (wStopped w ++ [srv])
      | None => mkWorker (delete port (wChildren w)) (delete port (wSpecs w)) (wNextId w) (wStopped w ++ [srv])
      end
  end.

Definition new_server (id : nat) (port : Z) (spec : PortSpec) : Server :=
  if psTCP spec then mkServer id port TCPServer (psProxyProtocol spec)
  else if psUDP spec then mkServer id port UDPServer false
  else if psTLSPassthrough spec then mkServer id port TLSServer (psProxyProtocol spec)
  else mkServer id port (PortServer (psTLS spec)) (psProxyProtocol spec).

(** The start loop; [bind] says whether the socket could be bound. *)
Definition start_one (bind : Z → bool) (w : listener_worker) (p : Z * PortSpec) : listener_worker :=
  match wChildren w !! p.1 with
  | Some _ => w
  | None =>
      if bind p.1 then
        mkWorker (<[p.1 := new_server (wNextId w) p.1 p.2]> (wChildren w)) (<[p.1 := p.2]> (wSpecs w))
          (S (wNextId w)) (wStopped w)
      else w
  end.

(** [reconcile]; the two orders are Go's iteration orders. *)
Definition reconcile (t : Tables) (bind : Z → bool) (stops : list Z) (starts : list (Z * PortSpec))
    (w : listener_worker) : listener_worker :=
  fold_left (start_one bind) starts (fold_left (stop_one (Ports t)) stops w).

Definition stopAll (order : list Z) (w : listener_worker) : listener_worker :=
  fold_left (λ w port,
    match wChildren w !! port with
    | Some srv => mkWorker (delete port (wChildren w)) (delete port (wSpecs w)) (wNextId w) (wStopped w ++ [srv])
    | None => w
    end) order w.

(** *** One port at a time *)

(** The children agree with the recorded specs. *)
Definition specs_agree (w : listener_worker) : Prop :=
  ∀ port, is_Some (wChildren w !! port) ↔ is_Some (wSpecs w !! port).

Definition stale (ports : gmap Z PortSpec) (w : listener_worker) (port : Z) : Prop :=
  is_Some (wChildren w !! port) ∧ ports !! port ≠ wSpecs w !! port.

Lemma stop_one_lookup ports w port q :
  specs_agree w →
  wChildren (stop_one ports w port) !! q =
    (if decide (q = port ∧ ports !! q ≠ wSpecs w !! q) then None else wChildren w !! q) ∧
  wSpecs (stop_one ports w port) !! q =
    (if decide (q = port ∧ ports !! q ≠ wSpecs w !! q) then None else wSpecs w !! q) ∧
  specs_agree (stop_one ports w port).
Proof.
  intros Ha.
  assert (ports !! port ≠ wSpecs w !! port → is_Some (wChildren w !! port) →
    stop_one ports w port = mkWorker (delete port (wChildren w)) (delete port (wSpecs w)) (wNextId w)
      (wStopped w ++ [default (mkServer 0 0 TCPServer false) (wChildren w !! port)])) as Hdel.
  { intros Hne [srv Hs]. unfold stop_one. rewrite Hs. simpl.
    destruct (ports !! port); [|done]. by rewrite bool_decide_eq_false_2. }
  assert (ports !! port = wSpecs w !! port ∨ wChildren w !! port = None → stop_one ports w port = w) as Hid.
  { intros [He|Hn]; unfold stop_one; [|by rewrite Hn].
    destruct (wChildren w !! port) eqn:Hc; [|done]. rewrite <-He.
    destruct (ports !! port) eqn:Hp; [by rewrite bool_decide_eq_true_2|].
    destruct (proj1 (Ha port)); [eauto|congruence]. }
  destruct (decide (ports !! port = wSpecs w !! port)) as [He|Hne].
  { rewrite Hid by auto. rewrite !decide_False by (intros [-> ?]; done). done. }
  destruct (wChildren w !! port) as [srv|] eqn:Hc.
  - rewrite Hdel by eauto. simpl. destruct (decide (q = port)) as [->|Hq].
    + rewrite !decide_True by done. rewrite !lookup_delete_eq. split; [done|]. split; [done|].
      intros r. simpl. destruct (decide (r = port)) as [->|]; [rewrite !lookup_delete_eq; done|].
      rewrite !lookup_delete_ne by done. apply Ha.
    + rewrite !decide_False by naive_solver. rewrite !lookup_delete_ne by done. do 2 (split; [done|]).
      intros r. simpl. destruct (decide (r = port)) as [->|]; [rewrite !lookup_delete_eq; done|].
      rewrite !lookup_delete_ne by done. apply Ha.
  - rewrite Hid by auto. assert (wSpecs w !! port = None) as Hs.
    { apply eq_None_not_Some. intros [? ?]%Ha. congruence. }
    case_decide as Hd; [|done]. destruct Hd as [-> _]. by rewrite Hc, Hs.
Qed.

Lemma stop_loop_lookup ports stops w q :
  specs_agree w →
  let w' := fold_left (stop_one ports) stops w in
  specs_agree w' ∧
  wChildren w' !! q = (if decide (q ∈ stops ∧ ports !! q ≠ wSpecs w !! q) then None else wChildren w !! q) ∧
  wSpecs w' !! q = (if decide (q ∈ stops ∧ ports !! q ≠ wSpecs w !! q) then None else wSpecs w !! q).
Proof.
  revert w. induction stops as [|port stops IH]; intros w Ha; cbn [fold_left].
  { rewrite !decide_False by (intros [?%elem_of_nil _]; done). done. }
  destruct (stop_one_lookup ports w port q Ha) as (Hc & Hs & Ha').
  destruct (IH (stop_one ports w port) Ha') as (H1 & H2 & H3). split; [done|].
  destruct (decide (q = port ∧ ports !! q ≠ wSpecs w !! q)) as [[-> Hne]|Hn].
  - rewrite !(decide_True (P := port ∈ port :: stops ∧ _)) by (split; [left|done]).
    split; [rewrite H2|rewrite H3]; case_decide; done.
  - rewrite Hc, Hs in H2. rewrite Hs in H3. rewrite H2, H3.
    destruct (decide (q ∈ stops ∧ ports !! q ≠ wSpecs w !! q)) as [[Hin Hne]|Hnin].
    + rewrite !decide_True by (split; [by right|done]). done.
    + rewrite !decide_False; [done|..]; intros [[->|?]%elem_of_cons ?]; naive_solver.
Qed.

(** A running child is the server its spec asks for. *)
Definition kinds_ok (w : listener_worker) : Prop :=
  ∀ port srv spec, wChildren w !! port = Some srv → wSpecs w !! port = Some spec →
    srv = new_server (srId srv) port spec.

Lemma start_one_ok bind w p :
  specs_agree w → kinds_ok w →
  specs_agree (start_one bind w p) ∧ kinds_ok (start_one bind w p) ∧
  (∀ q, q ≠ p.1 → wChildren (start_one bind w p) !! q = wChildren w !! q ∧
                  wSpecs (start_one bind w p) !! q = wSpecs w !! q) ∧
  (is_Some (wChildren w !! p.1) → start_one bind w p = w) ∧
  (wChildren w !! p.1 = None → bind p.1 = true →
     is_Some (wChildren (start_one bind w p) !! p.1) ∧ wSpecs (start_one bind w p) !! p.1 = Some p.2).
Proof.
  intros Ha Hk. destruct p as [port spec]. unfold start_one. simpl.
  destruct (wChildren w !! port) as [srv|] eqn:Hc; [split_and!; naive_solver|].
  destruct (bind port) eqn:Hb; [|split_and!; naive_solver]. simpl. split_and!.
  - intros q. simpl. rewrite !lookup_insert. case_decide; [split; eauto|apply Ha].
  - intros q srv sp. simpl. rewrite !lookup_insert. case_decide as Hq.
    + intros [= <-] [= <-]. subst q. unfold new_server. by repeat case_match.
    + apply Hk.
  - intros q Hq. by rewrite !lookup_insert_ne.
  - by intros [? ?].
  - intros _ _. rewrite !lookup_insert_eq. eauto.
Qed.

Lemma start_loop_ok bind starts w :
  NoDup starts.*1 → specs_agree w → kinds_ok w →
  let w' := fold_left (start_one bind) starts w in
  specs_agree w' ∧ kinds_ok w' ∧
  (∀ q, q ∉ starts.*1 ∨ is_Some (wChildren w !! q) →
        wChildren w' !! q = wChildren w !! q ∧ wSpecs w' !! q = wSpecs w !! q) ∧
  (∀ q spec, (q, spec) ∈ starts → wChildren w !! q = None → bind q = true →
        is_Some (wChildren w' !! q) ∧ wSpecs w' !! q = Some spec).
Proof.
  revert w. induction starts as [|[port spec] starts IH]; intros w Hnd Ha Hk; simpl.
  { split_and!; [done|done|done|]. by intros ? ? ?%elem_of_nil. }
  apply list.NoDup_cons in Hnd as [Hn Hnd].
  destruct (start_one_ok bind w (port, spec) Ha Hk) as (Ha' & Hk' & Hother & Hrun & Hnew). simpl in *.
  destruct (IH _ Hnd Ha' Hk') as (I1 & I2 & I3 & I4). split_and!; [done|done|..].
  - intros q Hq. destruct (decide (q = port)) as [->|Hne].
    + assert (is_Some (wChildren w !! port)) as Hs by (destruct Hq as [Hq|]; [set_solver|done]).
      rewrite (Hrun Hs) in *. apply I3. by right.
    + destruct (Hother q Hne) as [E1 E2]. rewrite <-E1, <-E2. apply I3.
      destruct Hq as [Hq|Hq]; [left; set_solver|right; by rewrite E1].
  - intros q sp [[= -> ->]|Hin]%elem_of_cons Hc Hb.
    + destruct (Hnew Hc Hb) as [H1 H2]. destruct (I3 port (or_introl Hn)) as [-> ->]. done.
    + assert (q ≠ port) as Hne.
      { intros ->. apply Hn. apply list_elem_of_fmap. by exists (port, sp). }
      apply I4; [done| |done]. by rewrite (proj1 (Hother q Hne)).
Qed.

(** *** Properties *)

(** A listener reconciliation leaves no server on a port that is not wanted,
    keeps the servers whose specification did not change, and runs the wanted
    server on every port that binds. *)
Theorem reconcile_converges t bind stops starts w :
  specs_agree w → kinds_ok w →
  stops ≡ₚ (map_to_list (wChildren w)).*1 → starts ≡ₚ map_to_list (Ports t) →
  let w' := reconcile t bind stops starts w in
  specs_agree w' ∧ kinds_ok w' ∧ ∀ port,
    (Ports t !! port = None → wChildren w' !! port = None) ∧
    (∀ srv, wChildren w !! port = Some srv → Ports t !! port = wSpecs w !! port →
            wChildren w' !! port = Some srv) ∧
    (∀ spec, Ports t !! port = Some spec → bind port = true →
       ∃ srv, wChildren w' !! port = Some srv ∧ srv = new_server (srId srv) port spec).
Proof.
  intros Ha Hk Hstops Hstarts. unfold reconcile.
  set (w1 := fold_left (stop_one (Ports t)) stops w).
  assert (∀ q, specs_agree w1 ∧
    wChildren w1 !! q = (if decide (q ∈ stops ∧ Ports t !! q ≠ wSpecs w !! q) then None else wChildren w !! q) ∧
    wSpecs w1 !! q = (if decide (q ∈ stops ∧ Ports t !! q ≠ wSpecs w !! q) then None else wSpecs w !! q)) as H1
    by (intros q; by apply stop_loop_lookup).
  assert (∀ q, is_Some (wChildren w !! q) → q ∈ stops) as Hin.
  { intros q [srv Hs]. rewrite Hstops, list_elem_of_fmap. exists (q, srv).
    split; [done|]. by apply elem_of_map_to_list. }
  assert (kinds_ok w1) as Hk1.
  { intros q srv spec. destruct (H1 q) as (_ & -> & ->). case_decide; [done|apply Hk]. }
  assert (NoDup starts.*1) as Hnd by (rewrite Hstarts; apply NoDup_fst_map_to_list).
  destruct (start_loop_ok bind starts w1 Hnd (proj1 (H1 0%Z)) Hk1) as (S1 & S2 & S3 & S4).
  split; [done|]. split; [done|]. intros port. destruct (H1 port) as (Ha1 & Hc1 & Hs1).
  assert (port ∈ starts.*1 ↔ is_Some (Ports t !! port)) as Hst.
  { rewrite Hstarts, list_elem_of_fmap. split.
    - intros ([q spec] & -> & Hq%elem_of_map_to_list). eauto.
    - intros [spec Hs]. exists (port, spec). split; [done|]. by apply elem_of_map_to_list. }
  split_and!.
  - intros Hn. destruct (S3 port) as [-> _]; [left; rewrite Hst, Hn; by intros [? ?]|].
    rewrite Hc1. case_decide as Hd; [done|]. apply eq_None_not_Some. intros Hs.
    apply Hd. split; [by apply Hin|]. rewrite Hn. apply Ha in Hs as [? ->]. done.
  - intros srv Hs He. rewrite decide_False in Hc1 by (intros [_ ?]; done).
    destruct (S3 port) as [-> _]; [right; rewrite Hc1; eauto|]. by rewrite Hc1.
  - intros spec Hsp Hb. destruct (wChildren w1 !! port) as [srv|] eqn:Hw1.
    + destruct (S3 port) as [E1 E2]; [right; by rewrite Hw1|]. exists srv.
      split; [by rewrite E1|]. apply (Hk1 port srv); [done|].
      case_decide as Hd; [done|]. rewrite Hs1, <-Hsp. apply dec_stable. intros Hne.
      apply Hd. split; [apply Hin; rewrite <-Hc1; eauto|]. auto.
    + destruct (S4 port spec) as [[srv Hsrv] Hspec]; [|done|done|].
      { rewrite Hstarts. by apply elem_of_map_to_list. }
      exists srv. split; [done|]. by apply (S2 port srv).
Qed.

Definition ex_ports : Tables := matching.ex_t.
Definition ex_starts : list (Z * PortSpec) := map_to_list (Ports ex_ports).

Lemma reconcile_converges_witness :
  ∃ srv, wChildren (reconcile ex_ports (λ _, true) [] ex_starts no_listeners) !! 443%Z = Some srv ∧
         srv = new_server (srId srv) 443 (mkPortSpec true false false false false).
Proof.
  destruct (reconcile_converges ex_ports (λ _, true) [] ex_starts no_listeners) as (_ & _ & H).
  - intros port. split; intros [? H]; simpl in H; by rewrite lookup_empty in H.
  - intros ? ? ? H. simpl in H. by rewrite lookup_empty in H.
  - reflexivity.
  - reflexivity.
  - destruct (H 443%Z) as (_ & _ & H3). apply H3; reflexivity.
Defined.

End listeners.
