(* ===== verification/Process.v ===== *)
(** * The data-plane process

    Models [internal/app/dataplane/supervisor.go] with the constructors and
    [DoWork] loops of its actors: the watcher, the loader, the resolver and
    the listener supervisor run concurrently and talk through three
    mailboxes; requests read what the loader and the resolver publish.

    What one actor does to its own state is [DataPlane]; here every
    publication and every mail is a step of its own, so the theorems hold for
    every interleaving.  The mailboxes of [go-actor] are a class: a queue
    that loses nothing while it is open. *)

From S2P Require Import Prelude GoStrings Http Compiled Tables Matching Build DataPlane.
From stdpp Require Import options.

#[local] Open Scope nat_scope.
Import routing build.

Module dataplane.
Import configwatcher.

(** ** Mailboxes *)

Class Mailbox := {
  box : Type → Type;
  NewMailbox {A} : box A;
  Send {A} : A → box A → box A;
  Receive {A} : box A → option (A * box A);
  (** the messages accepted and not yet received, oldest first *)
  queued {A} : box A → list A;
  queued_new {A} : queued (NewMailbox (A := A)) = [];
  queued_send {A} (m : A) b : queued (Send m b) = queued b ++ [m];
  queued_receive {A} (b : box A) :
    match Receive b with None => queued b = [] | Some (m, b') => queued b = m :: queued b' end;
}.

Section process.
Context {libs : Libraries} {mail : Mailbox}.
Context (decodeManifest : string → result string compiled.Manifest).
Context (errorText : BuildError → string).

(** ** State *)

(** What the loader has left to do with the configuration it received. *)
Inductive LoaderPhase :=
  | Waiting                                             (** for [w.in.ReceiveC()] *)
  | Built (pass : loader.pass) (merged : Tables)        (** [Tables.Publish] is next *)
  | Swapped (statuses : gmap string GatewayStatus) (merged : Tables)   (** [Statuses.Publish] *)
  | Acknowledged (merged : Tables)                      (** [tablesOut.Send] *)
  | Announced (merged : Tables).                        (** [namespaces.Send] *)

Record Process := mkProcess {
  prLast : string;                       (** the watcher's [lastSnapshot] *)
  prRaw : box RawConfig;
  prPhase : LoaderPhase;
  prApplied : gmap string GatewayTable;  (** the loader's tables *)
  prNext : nat;
  prState : State;                       (** what the request path reads *)
  prTables : box Tables;
  prNamespaces : box (gset string);
  prWatched : gset string;               (** the resolver's namespaces *)
  prListeners : listeners.listener_worker;
  prStopping : bool;                     (** the actors' contexts are done *)
  prEnded : bool;                        (** the listener supervisor has returned *)
}.

(** [NewRoot] and the constructors of the actors. *)
Definition NewRoot : Process :=
  mkProcess "" NewMailbox Waiting ∅ 1 NewState NewMailbox NewMailbox ∅ listeners.no_listeners false false.

(** ** What the actors do *)

(** The watcher's [DoWork]: one poll; the configuration mailed, if any. *)
Definition watch (cms : option (list (Listed ConfigMap))) (secrets : option (list (Listed Secret)))
    (sent : bool) (p : Process) : list RawConfig * Process :=
  let '(last, raw) := poll (prLast p) cms secrets sent in
  (option_list raw,
   mkProcess last (from_option (λ raw, Send raw (prRaw p)) (prRaw p) raw) (prPhase p) (prApplied p) (prNext p)
     (prState p) (prTables p) (prNamespaces p) (prWatched p) (prListeners p) (prStopping p) (prEnded p)).

(** The loader as [DataPlane] has it, without its outgoing mail. *)
Definition loader_of (p : Process) : loader.worker :=
  loader.mkWorker (prApplied p) (prState p) (prNext p) [] [].

(** The loader's [DoWork] up to the first publication: receive and rebuild. *)
Definition load (order : list ConfigMap) (gateways : list GatewayTable) (p : Process) : option Process :=
  match prPhase p, Receive (prRaw p) with
  | Waiting, Some (raw, rest) =>
      let pass := loader.rebuild_pass decodeManifest errorText (loader_of p) raw order in
      Some (mkProcess (prLast p) rest (Built pass (MergeTables gateways)) (loader.paApplied pass)
        (loader.paNext pass) (prState p) (prTables p) (prNamespaces p) (prWatched p) (prListeners p)
        (prStopping p) (prEnded p))
  | _, _ => None
  end.

(** The rest of [rebuild], one effect at a time; [sent] says whether the
    mailbox was open. *)
Definition advance (sent : bool) (p : Process) : option Process :=
  let next phase state tables namespaces :=
    Some (mkProcess (prLast p) (prRaw p) phase (prApplied p) (prNext p) state tables namespaces
      (prWatched p) (prListeners p) (prStopping p) (prEnded p)) in
  let s := prState p in
  match prPhase p with
  | Waiting => None
  | Built pass merged =>
      next (Swapped (loader.paStatuses pass) merged) (mkState merged (stStatuses s) (stEndpoints s))
        (prTables p) (prNamespaces p)
  | Swapped statuses merged =>
      next (Acknowledged merged) (mkState (stTables s) statuses (stEndpoints s)) (prTables p) (prNamespaces p)
  | Acknowledged merged =>
      next (Announced merged) s (if sent then Send merged (prTables p) else prTables p) (prNamespaces p)
  | Announced merged =>
      next Waiting s (prTables p) (if sent then Send (Backends merged) (prNamespaces p) else prNamespaces p)
  end.

Definition resolved (api : string → resolver.Listing) (order : list string) (watched : gset string)
    (namespaces : box (gset string)) (p : Process) : Process :=
  mkProcess (prLast p) (prRaw p) (prPhase p) (prApplied p) (prNext p)
    (resolver.resolve_poll api order (prState p)) (prTables p) namespaces watched (prListeners p)
    (prStopping p) (prEnded p).

(** The resolver's [DoWork]: new namespaces, or the next tick. *)
Definition hear (api : string → resolver.Listing) (order : list string) (p : Process) : option Process :=
  '(watched, rest) ← Receive (prNamespaces p); Some (resolved api order watched rest p).
Definition repoll (api : string → resolver.Listing) (order : list string) (p : Process) : Process :=
  resolved api order (prWatched p) (prNamespaces p) p.

Definition on_listeners (f : listeners.listener_worker → listeners.listener_worker) (tables : box Tables)
    (ended : bool) (p : Process) : Process :=
  mkProcess (prLast p) (prRaw p) (prPhase p) (prApplied p) (prNext p) (prState p) tables (prNamespaces p)
    (prWatched p) (f (prListeners p)) (prStopping p) ended.

(** The listener supervisor's [DoWork]: new tables, or the end. *)
Definition listen (bind : Z → bool) (stops : list Z) (starts : list (Z * PortSpec)) (p : Process) : option Process :=
  if prEnded p then None
  else '(tables, rest) ← Receive (prTables p);
       Some (on_listeners (listeners.reconcile tables bind stops starts) rest false p).
Definition end_listeners (order : list Z) (p : Process) : Process :=
  on_listeners (listeners.stopAll order) (prTables p) true p.

(** [supervise]'s [OnStop]: the contexts of all actors are done. *)
Definition interrupt (p : Process) : Process :=
  mkProcess (prLast p) (prRaw p) (prPhase p) (prApplied p) (prNext p) (prState p) (prTables p) (prNamespaces p)
    (prWatched p) (prListeners p) true (prEnded p).

(** ** Interleavings *)

(** The delivery of a message or of the next effect of one: what the actors
    do without hearing from the cluster.  The orders are Go's iteration
    orders over maps. *)
Inductive delivers (p : Process) : Process → Prop :=
  | d_load raw rest order gateways p' :
      Receive (prRaw p) = Some (raw, rest) → order ≡ₚ (map_to_list (rwConfigMaps raw)).*2 →
      gateways ≡ₚ (map_to_list (loader.paApplied
        (loader.rebuild_pass decodeManifest errorText (loader_of p) raw order))).*2 →
      load order gateways p = Some p' → delivers p p'
  | d_advance sent p' :
      sent = true ∨ prStopping p = true → advance sent p = Some p' → delivers p p'
  | d_hear api order watched rest p' :
      Receive (prNamespaces p) = Some (watched, rest) → order ≡ₚ elements watched →
      hear api order p = Some p' → delivers p p'
  | d_listen bind tables rest stops starts p' :
      Receive (prTables p) = Some (tables, rest) →
      stops ≡ₚ (map_to_list (listeners.wChildren (prListeners p))).*1 → starts ≡ₚ map_to_list (Ports tables) →
      listen bind stops starts p = Some p' → delivers p p'.

(** A step, with the configurations it mails to the loader. *)
Inductive step (p : Process) : list RawConfig → Process → Prop :=
  | s_watch cms secrets sent :
      sent = true ∨ prStopping p = true →
      step p (watch cms secrets sent p).1 (watch cms secrets sent p).2
  | s_deliver p' : delivers p p' → step p [] p'
  | s_tick api order : order ≡ₚ elements (prWatched p) → step p [] (repoll api order p)
  | s_interrupt : step p [] (interrupt p)
  | s_end order :
      prStopping p = true → order ≡ₚ (map_to_list (listeners.wChildren (prListeners p))).*1 →
      step p [] (end_listeners order p).

(** [reached raws p]: a process that mailed the configurations [raws] is in
    state [p]. *)
Inductive reached : list RawConfig → Process → Prop :=
  | r_start : reached [] NewRoot
  | r_step raws p mailed p' : reached raws p → step p mailed p' → reached (raws ++ mailed) p'.

(** ** The sequential data plane *)

(** The loader alone, one configuration after the other. *)
Inductive loads : list RawConfig → loader.worker → Prop :=
  | l_start : loads [] loader.initial
  | l_rebuild raws w raw order gateways :
      loads raws w → order ≡ₚ (map_to_list (rwConfigMaps raw)).*2 →
      gateways ≡ₚ (map_to_list (loader.paApplied (loader.rebuild_pass decodeManifest errorText w raw order))).*2 →
      loads (raws ++ [raw]) (loader.publish w (loader.rebuild_pass decodeManifest errorText w raw order) gateways).

(** The supervisor alone, one table after the other. *)
Inductive listened : list Tables → listeners.listener_worker → Prop :=
  | h_start : listened [] listeners.no_listeners
  | h_reconcile heard l tables bind stops starts :
      listened heard l → stops ≡ₚ (map_to_list (listeners.wChildren l)).*1 → starts ≡ₚ map_to_list (Ports tables) →
      listened (heard ++ [tables]) (listeners.reconcile tables bind stops starts l).

(** The specification: every configuration is loaded, in order; every table
    is listened to, in order; the namespaces of the last one are watched. *)
Definition sequential (raws : list RawConfig) (w : loader.worker) (l : listeners.listener_worker)
    (watched : gset string) : Prop :=
  loads raws w ∧ listened (loader.wTablesOut w) l ∧ watched = default ∅ (list.last (loader.wNamespacesOut w)).

(** Messages and effects on their way. *)
Definition remaining (phase : LoaderPhase) : nat :=
  match phase with Waiting => 0 | Built _ _ => 6 | Swapped _ _ => 5 | Acknowledged _ => 4 | Announced _ => 2 end.
Definition pending (p : Process) : nat :=
  7 * length (queued (prRaw p)) + remaining (prPhase p) +
  length (queued (prTables p)) + length (queued (prNamespaces p)).

(** ** Invariant *)

(** What the phase still owes: the tables and statuses to come, and mail. *)
Definition coming_tables (p : Process) : Tables :=
  match prPhase p with Built _ merged => merged | _ => stTables (prState p) end.
Definition coming_statuses (p : Process) : gmap string GatewayStatus :=
  match prPhase p with
  | Built pass _ => loader.paStatuses pass
  | Swapped statuses _ => statuses
  | _ => stStatuses (prState p)
  end.
Definition owed_tables (phase : LoaderPhase) : list Tables :=
  match phase with Built _ merged | Swapped _ merged | Acknowledged merged => [merged] | _ => [] end.
Definition owed_namespaces (phase : LoaderPhase) : list (gset string) :=
  match phase with
  | Waiting => []
  | Built _ merged | Swapped _ merged | Acknowledged merged | Announced merged => [Backends merged]
  end.

(** The loader has done [done] of the configurations as the sequential
    loader [w] would. *)
Record loading (raws : list RawConfig) (p : Process) (done : list RawConfig) (w : loader.worker) : Prop := {
  lo_raws : raws = done ++ queued (prRaw p);
  lo_loads : loads done w;
  lo_applied : prApplied p = loader.wApplied w;
  lo_next : prNext p = loader.wNext w;
  lo_tables : coming_tables p = stTables (loader.wState w);
  lo_statuses : coming_statuses p = stStatuses (loader.wState w);
}.

(** All mail of the loader is heard, queued or owed. *)
Record delivered_to (p : Process) (w : loader.worker) (heard : list Tables) (said : list (gset string)) : Prop := {
  dt_mail : loader.wTablesOut w = heard ++ queued (prTables p) ++ owed_tables (prPhase p);
  dt_namespaces : loader.wNamespacesOut w = said ++ queued (prNamespaces p) ++ owed_namespaces (prPhase p);
  dt_listened : listened heard (prListeners p);
  dt_watched : prWatched p = default ∅ (list.last said);
}.

(** Before the statuses are published, those of the loader's previous state
    are in place. *)
Definition behind (p : Process) (done : list RawConfig) : Prop :=
  match prPhase p with
  | Built _ _ | Swapped _ _ => ∃ done0 raw w0, done = done0 ++ [raw] ∧ loads done0 w0 ∧
      stStatuses (prState p) = stStatuses (loader.wState w0) ∧
      match prPhase p with Built _ _ => stTables (prState p) = stTables (loader.wState w0) | _ => True end
  | _ => True
  end.

Lemma load_cm_cong w w' raw pass cm :
  loader.wApplied w = loader.wApplied w' → stStatuses (loader.wState w) = stStatuses (loader.wState w') →
  loader.load_cm decodeManifest errorText w raw pass cm = loader.load_cm decodeManifest errorText w' raw pass cm.
Proof.
  intros Ha Hs. unfold loader.load_cm, loader.load_manifest, loader.rejected. by rewrite Ha, Hs.
Qed.

(** A rebuild reads the tables in use, the statuses and the addresses only. *)
Lemma rebuild_pass_cong w w' raw order :
  loader.wApplied w = loader.wApplied w' → stStatuses (loader.wState w) = stStatuses (loader.wState w') →
  loader.wNext w = loader.wNext w' →
  loader.rebuild_pass decodeManifest errorText w raw order = loader.rebuild_pass decodeManifest errorText w' raw order.
Proof.
  intros Ha Hs Hn. unfold loader.rebuild_pass. rewrite Hn. generalize (loader.mkPass ∅ ∅ (loader.wNext w')).
  induction order as [|cm order IH]; intros pass; simpl; [done|]. by rewrite (load_cm_cong w w'), IH.
Qed.

Lemma received {A} (b : box A) m rest : Receive b = Some (m, rest) → queued b = m :: queued rest.
Proof. intros H. pose proof (queued_receive b) as Hq. by rewrite H in Hq. Qed.

Lemma load_loading raws p done w raw rest order gateways p' :
  loading raws p done w → Receive (prRaw p) = Some (raw, rest) →
  order ≡ₚ (map_to_list (rwConfigMaps raw)).*2 →
  gateways ≡ₚ (map_to_list (loader.paApplied (loader.rebuild_pass decodeManifest errorText (loader_of p) raw order))).*2 →
  load order gateways p = Some p' →
  let w' := loader.publish w (loader.rebuild_pass decodeManifest errorText w raw order) gateways in
  loading raws p' (done ++ [raw]) w' ∧ behind p' (done ++ [raw]) ∧
  ∀ heard said, delivered_to p w heard said → delivered_to p' w' heard said.
Proof.
  intros [Hr Hl Ha Hn Ht Hs] Hrec Ho Hg. unfold load. destruct (prPhase p) eqn:Hph; [|done..].
  rewrite Hrec. intros [= <-]. unfold coming_tables in Ht. unfold coming_statuses in Hs. rewrite Hph in Ht, Hs.
  assert (loader.rebuild_pass decodeManifest errorText (loader_of p) raw order =
    loader.rebuild_pass decodeManifest errorText w raw order) as Hpass by (by apply rebuild_pass_cong).
  rewrite Hpass in Hg |- *. split; [|split].
  - split; simpl; try done; [by rewrite Hr, (received _ _ _ Hrec), <-app_assoc|by apply l_rebuild].
  - exists done, raw, w. done.
  - intros heard said [Hm Hns Hh Hw]. rewrite Hph in Hm, Hns. simpl in Hm, Hns.
    split; simpl; try done; [rewrite Hm|rewrite Hns]; by rewrite app_nil_r, <-app_assoc.
Qed.

Lemma advance_loading raws p done w sent p' :
  loading raws p done w → behind p done → advance sent p = Some p' →
  loading raws p' done w ∧ behind p' done ∧
  ∀ heard said, sent = true → delivered_to p w heard said → delivered_to p' w heard said.
Proof.
  intros [Hr Hl Ha Hn Ht Hs] Hb. unfold advance.
  unfold coming_tables in Ht. unfold coming_statuses in Hs. unfold behind in Hb.
  destruct (prPhase p) eqn:Hph; intros [= <-]; (split; [by split|]; split;
    [try done; destruct Hb as (done0 & raw & w0 & ? & ? & ? & _); by exists done0, raw, w0|]);
    intros heard said -> [Hm Hns Hh Hw]; rewrite Hph in Hm, Hns; simpl in Hm, Hns; split; simpl; try done;
    rewrite ?queued_send, ?app_nil_r; by rewrite ?Hm, ?Hns, ?app_nil_r.
Qed.

(** The other actors leave the loader alone. *)
Lemma loading_other raws p p' done w :
  prRaw p' = prRaw p → prPhase p' = prPhase p → prApplied p' = prApplied p → prNext p' = prNext p →
  stTables (prState p') = stTables (prState p) → stStatuses (prState p') = stStatuses (prState p) →
  loading raws p done w ∧ behind p done → loading raws p' done w ∧ behind p' done.
Proof.
  intros E1 E2 E3 E4 E5 E6 [[Hr Hl Ha Hn Ht Hs] Hb]. unfold behind, coming_tables, coming_statuses in *.
  rewrite <-E2, <-E5, <-E6 in Hb. split; [split; unfold coming_tables, coming_statuses|done]; by rewrite ?E1, ?E2, ?E3, ?E4, ?E5, ?E6.
Qed.

Lemma hear_delivered p w heard said api order watched rest p' :
  delivered_to p w heard said → Receive (prNamespaces p) = Some (watched, rest) →
  hear api order p = Some p' → delivered_to p' w heard (said ++ [watched]).
Proof.
  intros [Hm Hns Hh Hw] Hrec. unfold hear. rewrite Hrec. intros [= <-].
  split; simpl; try done; [|by rewrite last_snoc]. rewrite Hns, (received _ _ _ Hrec). by rewrite <-!app_assoc.
Qed.

Lemma listen_delivered p w heard said bind tables rest stops starts p' :
  delivered_to p w heard said → Receive (prTables p) = Some (tables, rest) →
  stops ≡ₚ (map_to_list (listeners.wChildren (prListeners p))).*1 → starts ≡ₚ map_to_list (Ports tables) →
  listen bind stops starts p = Some p' → delivered_to p' w (heard ++ [tables]) said.
Proof.
  intros [Hm Hns Hh Hw] Hrec Hstops Hstarts. unfold listen. destruct (prEnded p); [done|].
  rewrite Hrec. intros [= <-]. split; simpl; try done; [|by apply h_reconcile].
  rewrite Hm, (received _ _ _ Hrec). by rewrite <-!app_assoc.
Qed.

Lemma delivers_flags p p' :
  delivers p p' → prStopping p' = prStopping p ∧ prEnded p' = prEnded p.
Proof.
  intros [raw rest order gateways p'' Hrec _ _ H|sent p'' _ H|api order watched rest p'' Hrec _ H
    |bind tables rest stops starts p'' Hrec _ _ H].
  - unfold load in H. destruct (prPhase p); [|done..]. rewrite Hrec in H. by simplify_eq/=.
  - unfold advance in H. destruct (prPhase p); by simplify_eq/=.
  - unfold hear in H. rewrite Hrec in H. by simplify_eq/=.
  - unfold listen in H. destruct (prEnded p) eqn:He; [done|]. rewrite Hrec in H. by simplify_eq/=.
Qed.

Lemma watch_flags cms secrets sent p :
  prStopping (watch cms secrets sent p).2 = prStopping p ∧ prEnded (watch cms secrets sent p).2 = prEnded p ∧
  prListeners (watch cms secrets sent p).2 = prListeners p.
Proof. unfold watch. by destruct (poll _ _ _ _). Qed.

Lemma step_running p mailed p' : step p mailed p' → prStopping p' = false → prStopping p = false.
Proof.
  intros [cms secrets sent _|p'' Hd|api order _| |order Hs _]; [|by destruct (delivers_flags _ _ Hd) as [-> _]|done|done|].
  - by destruct (watch_flags cms secrets sent p) as [-> _].
  - simpl. congruence.
Qed.

Lemma was_sent (sent stopping : bool) : sent = true ∨ stopping = true → stopping = false → sent = true.
Proof. by intros [|] ?; subst. Qed.

(** The invariant: the loader is in order, and while the process runs so is
    its mail. *)
Definition consistent (raws : list RawConfig) (p : Process) : Prop :=
  ∃ done w, (loading raws p done w ∧ behind p done) ∧
    (prStopping p = false → ∃ heard said, delivered_to p w heard said).

Lemma delivers_consistent raws p p' : consistent raws p → delivers p p' → consistent raws p'.
Proof.
  intros (done & w & [Hl Hb] & Hd) Hdel. pose proof (delivers_flags _ _ Hdel) as [Hst _].
  destruct Hdel as [raw rest order gateways p' Hrec Ho Hg H|sent p' Hs H|api order watched rest p' Hrec _ H
    |bind tables rest stops starts p' Hrec Hstops Hstarts H].
  - destruct (load_loading _ _ _ _ _ _ _ _ _ Hl Hrec Ho Hg H) as (H1 & H2 & H3). eexists _, _. split; [by split|].
    rewrite Hst. intros (heard & said & Hm)%Hd. exists heard, said. by apply H3.
  - destruct (advance_loading _ _ _ _ _ _ Hl Hb H) as (H1 & H2 & H3). exists done, w. split; [done|].
    rewrite Hst. intros Hrun. destruct (Hd Hrun) as (heard & said & Hm). exists heard, said.
    apply H3; [by eapply was_sent|done].
  - exists done, w. split.
    + unfold hear in H. rewrite Hrec in H. injection H as <-. by apply (loading_other _ p).
    + rewrite Hst. intros (heard & said & Hm)%Hd. eauto using hear_delivered.
  - exists done, w. split.
    + unfold listen in H. destruct (prEnded p); [done|]. rewrite Hrec in H. injection H as <-. by apply (loading_other _ p).
    + rewrite Hst. intros (heard & said & Hm)%Hd. eauto using listen_delivered.
Qed.

Lemma watch_consistent raws p cms secrets sent :
  consistent raws p → consistent (raws ++ (watch cms secrets sent p).1) (watch cms secrets sent p).2.
Proof.
  intros (done & w & [[Hr Hl Ha Hn Ht Hs] Hb] & Hd). exists done, w. unfold watch.
  destruct (poll _ _ _ _) as [last [raw|]]; simpl; [|rewrite app_nil_r].
  - split; [split; [split|]|]; simpl; try done; [by rewrite queued_send, Hr, app_assoc|].
    intros Hrun. destruct (Hd Hrun) as (heard & said & [? ? ? ?]). exists heard, said. by split.
  - split; [by split|]. intros Hrun. destruct (Hd Hrun) as (heard & said & [? ? ? ?]). exists heard, said. by split.
Qed.

Lemma reached_consistent raws p : reached raws p → consistent raws p.
Proof.
  induction 1 as [|raws p mailed p' _ IH Hstep].
  { exists [], loader.initial. split; [split; [split|done]|]; simpl; rewrite ?queued_new; try done; [constructor|].
    intros _. exists [], []. split; simpl; rewrite ?queued_new; try done. constructor. }
  destruct Hstep as [cms secrets sent _|p'' Hdel|api order _| |order Hs _]; [by apply watch_consistent|rewrite app_nil_r..].
  { by eapply delivers_consistent. }
  all: destruct IH as (done & w & Hl & Hd); exists done, w; split; [by apply (loading_other _ p)|simpl].
  - intros Hrun. destruct (Hd Hrun) as (heard & said & [? ? ? ?]). exists heard, said. by split.
  - done.
  - congruence.
Qed.

Lemma delivers_pending p p' : delivers p p' → prStopping p = false → pending p = S (pending p').
Proof.
  intros Hd Hrun. unfold pending. destruct Hd as [raw rest order gateways p'' Hrec _ _ H|sent p'' Hs H
    |api order watched rest p'' Hrec _ H|bind tables rest stops starts p'' Hrec _ _ H].
  - unfold load in H. destruct (prPhase p); [|done..]. rewrite Hrec in H. simplify_eq/=.
    rewrite (received _ _ _ Hrec). simpl. lia.
  - apply was_sent in Hs as ->; [|done]. unfold advance in H.
    destruct (prPhase p); simplify_eq/=; rewrite ?queued_send, ?length_app; simpl; lia.
  - unfold hear in H. rewrite Hrec in H. simplify_eq/=. rewrite (received _ _ _ Hrec). simpl. lia.
  - unfold listen in H. destruct (prEnded p); [done|]. rewrite Hrec in H. simplify_eq/=.
    rewrite (received _ _ _ Hrec). simpl. lia.
Qed.

Lemma receivable {A} (b : box A) : queued b ≠ [] → ∃ m rest, Receive b = Some (m, rest).
Proof. intros H. pose proof (queued_receive b) as Hq. destruct (Receive b) as [[m rest]|]; eauto. done. Qed.

Lemma pending_delivers p : prEnded p = false → pending p ≠ 0 → ∃ p', delivers p p'.
Proof.
  intros He Hp. destruct (prPhase p) eqn:Hph.
  2-5: eexists; apply (d_advance p true); [by left|unfold advance; by rewrite Hph].
  destruct (decide (queued (prTables p) = [])) as [Ht|Ht].
  2:{ apply receivable in Ht as (tables & rest & Hrec). eexists.
      eapply (d_listen p (λ _, true)); [done|done|done|]. unfold listen. by rewrite He, Hrec. }
  destruct (decide (queued (prNamespaces p) = [])) as [Hn|Hn].
  2:{ apply receivable in Hn as (watched & rest & Hrec). eexists.
      eapply (d_hear p (λ _, resolver.mkListing None None)); [done|done|]. unfold hear. by rewrite Hrec. }
  destruct (decide (queued (prRaw p) = [])) as [Hr|Hr].
  { unfold pending in Hp. by rewrite Hr, Ht, Hn, Hph in Hp. }
  apply receivable in Hr as (raw & rest & Hrec). eexists.
  eapply d_load; [done|done|done|]. unfold load. by rewrite Hph, Hrec.
Qed.

(** *** Listeners *)

Lemma start_loop_specs bind starts l port spec :
  listeners.wSpecs (fold_left (listeners.start_one bind) starts l) !! port = Some spec →
  listeners.wSpecs l !! port = Some spec ∨ (port, spec) ∈ starts.
Proof.
  revert l. induction starts as [|[q s] starts IH]; intros l; cbn [fold_left]; [by left|].
  intros [H|H]%IH; [|right; by right]. revert H. unfold listeners.start_one. simpl.
  destruct (listeners.wChildren l !! q); [by left|]. destruct (bind q); [|by left]. simpl.
  rewrite lookup_insert. case_decide; [intros [= <-]; subst; right; left|by left].
Qed.

(** After a reconciliation only wanted servers run. *)
Lemma reconcile_wanted t bind stops starts l port srv :
  listeners.specs_agree l → listeners.kinds_ok l →
  stops ≡ₚ (map_to_list (listeners.wChildren l)).*1 → starts ≡ₚ map_to_list (Ports t) →
  listeners.wChildren (listeners.reconcile t bind stops starts l) !! port = Some srv →
  ∃ spec, Ports t !! port = Some spec ∧ srv = listeners.new_server (listeners.srId srv) port spec.
Proof.
  intros Ha Hk Hstops Hstarts Hc.
  destruct (listeners.reconcile_converges t bind stops starts l Ha Hk Hstops Hstarts) as (Ha' & Hk' & _).
  destruct (proj1 (Ha' port)) as [spec Hs]; [by eexists|]. exists spec. split; [|by eapply Hk'].
  unfold listeners.reconcile in Hs. apply start_loop_specs in Hs as [Hs|Hs].
  2:{ rewrite Hstarts in Hs. by apply elem_of_map_to_list in Hs. }
  destruct (listeners.stop_loop_lookup (Ports t) stops l port Ha) as (_ & _ & Hl). rewrite Hl in Hs.
  case_decide as Hd; [done|]. destruct (decide (Ports t !! port = listeners.wSpecs l !! port)) as [->|]; [done|].
  destruct Hd. split; [|done]. destruct (proj2 (Ha port)) as [srv' Hsrv]; [by eexists|].
  rewrite Hstops, list_elem_of_fmap. exists (port, srv'). split; [done|]. by apply elem_of_map_to_list.
Qed.

Lemma listened_ok heard l :
  listened heard l → listeners.specs_agree l ∧ listeners.kinds_ok l ∧
  ∀ t port srv, list.last heard = Some t → listeners.wChildren l !! port = Some srv →
    ∃ spec, Ports t !! port = Some spec ∧ srv = listeners.new_server (listeners.srId srv) port spec.
Proof.
  induction 1 as [|heard l tables bind stops starts _ (Ha & Hk & _) Hstops Hstarts].
  - split_and!; [|intros ? ? ? H; simpl in H; by rewrite lookup_empty in H|done].
    intros port. split; intros [? H]; simpl in H; by rewrite lookup_empty in H.
  - destruct (listeners.reconcile_converges tables bind stops starts l Ha Hk Hstops Hstarts) as (Ha' & Hk' & _).
    split_and!; [done|done|]. intros t port srv. rewrite last_snoc. intros [= <-]. by apply reconcile_wanted.
Qed.

Lemma stopAll_lookup order l port :
  listeners.wChildren (listeners.stopAll order l) !! port =
    if decide (port ∈ order) then None else listeners.wChildren l !! port.
Proof.
  unfold listeners.stopAll. revert l. induction order as [|q order IH]; intros l; cbn [fold_left].
  { by rewrite decide_False by apply not_elem_of_nil. }
  rewrite IH. destruct (decide (port ∈ order)) as [Hin|Hin].
  { by rewrite decide_True by (by right). }
  destruct (decide (port = q)) as [->|Hq].
  - rewrite decide_True by left. destruct (listeners.wChildren l !! q) eqn:E; simpl; [apply lookup_delete_eq|done].
  - rewrite decide_False by (intros [?|?]%elem_of_cons; done).
    destruct (listeners.wChildren l !! q); simpl; [by rewrite lookup_delete_ne|done].
Qed.

Lemma loads_last raws w :
  loads raws w → raws ≠ [] →
  list.last (loader.wTablesOut w) = Some (stTables (loader.wState w)) ∧
  list.last (loader.wNamespacesOut w) = Some (Backends (stTables (loader.wState w))).
Proof. intros [|raws' w' raw order gateways _ _ _] H; [done|]. simpl. by rewrite !last_snoc. Qed.

(** One manifest per Gateway, as the publisher writes them. *)
Definition distinct (raw : RawConfig) : Prop :=
  NoDup (omap loader.manifest_uid (map_to_list (rwConfigMaps raw)).*2).

(** A loader whose configurations have one manifest per Gateway is in a
    state the theorems of [DataPlane] speak about. *)
Lemma loads_reachable raws w :
  loads raws w →
  Forall distinct raws → loader.reachable decodeManifest errorText w.
Proof.
  induction 1 as [|raws w raw order gateways _ IH Ho Hg]; intros Hd; [by apply rtc_refl|].
  apply Forall_app in Hd as [Hd Hraw]. rewrite Forall_singleton in Hraw. eapply rtc_r; [by apply IH|].
  apply loader.step_rebuild; [done| |done]. rewrite Ho. exact Hraw.
Qed.

Lemma reached_ended raws p :
  reached raws p → prEnded p = true → prStopping p = true ∧ listeners.wChildren (prListeners p) = ∅.
Proof.
  induction 1 as [|raws p mailed p' _ IH Hstep]; [done|].
  destruct Hstep as [cms secrets sent _|p'' Hd|api order _| |order Hs Ho]; simpl.
  - destruct (watch_flags cms secrets sent p) as (-> & -> & ->). done.
  - destruct (delivers_flags _ _ Hd) as [-> ->]. intros He. destruct (IH He) as [Hs Hc]. split; [done|].
    destruct Hd as [? ? ? ? ? Hrec _ _ H|? ? _ H|? ? ? ? ? Hrec _ H|? ? ? ? ? ? Hrec _ _ H].
    + unfold load in H. destruct (prPhase p); [|done..]. rewrite Hrec in H. by simplify_eq/=.
    + unfold advance in H. destruct (prPhase p); by simplify_eq/=.
    + unfold hear in H. rewrite Hrec in H. by simplify_eq/=.
    + unfold listen in H. by rewrite He in H.
  - done.
  - intros He. by destruct (IH He).
  - intros _. split; [done|]. apply map_empty. intros port. rewrite stopAll_lookup. case_decide as Hin; [done|].
    apply eq_None_not_Some. intros [srv Hsrv]. apply Hin. rewrite Ho, list_elem_of_fmap.
    exists (port, srv). split; [done|]. by apply elem_of_map_to_list.
Qed.

(** *** What is acknowledged *)

(** The process has applied generation [gen] of a Gateway and serves the
    tables it was merged into, or those of the next configuration already. *)
Definition serves (raws : list RawConfig) (p : Process) (uid gen : string) : Prop :=
  ∃ done w t, done `prefix_of` raws ∧ loads done w ∧
    loader.wApplied w !! uid = Some t ∧ gtGeneration t = gen ∧
    (stTables (prState p) = stTables (loader.wState w) ∨
     ∃ raw w', (done ++ [raw]) `prefix_of` raws ∧ loads (done ++ [raw]) w' ∧
       stTables (prState p) = stTables (loader.wState w')).

(** The published statuses are those of a sequential loader, and the tables
    are never older. *)
Lemma acknowledged_state raws p :
  reached raws p →
  ∃ done w, done `prefix_of` raws ∧ loads done w ∧ stStatuses (prState p) = stStatuses (loader.wState w) ∧
    (stTables (prState p) = stTables (loader.wState w) ∨
     ∃ raw w', (done ++ [raw]) `prefix_of` raws ∧ loads (done ++ [raw]) w' ∧
       stTables (prState p) = stTables (loader.wState w')).
Proof.
  intros (done & w & [[Hr Hl _ _ Ht Hs] Hb] & _)%reached_consistent.
  assert (done `prefix_of` raws) as Hpre by (rewrite Hr; by apply prefix_app_r).
  unfold coming_tables in Ht. unfold coming_statuses in Hs. unfold behind in Hb.
  destruct (prPhase p); [by exists done, w; auto| | |by exists done, w; auto..].
  all: destruct Hb as (done0 & raw & w0 & -> & Hl0 & Hs0 & Ht0); exists done0, w0; split;
    [etrans; [by apply prefix_app_r|exact Hpre]|]; split; [done|]; split; [done|].
  - by left.
  - right. by exists raw, w.
Qed.

(** *** What is taken *)

(** Every configuration mailed is loaded and its statuses are published. *)
Definition caught_up (p : Process) : Prop :=
  queued (prRaw p) = [] ∧ match prPhase p with Built _ _ | Swapped _ _ => False | _ => True end.

Lemma pending_caught_up p : pending p = 0 → caught_up p.
Proof.
  unfold pending, caught_up. intros H. split; [apply nil_length_inv; lia|].
  destruct (prPhase p); simpl in H; [done|lia..].
Qed.

(** The status a manifest gets when its generation loads. *)
Lemma load_cm_status w raw pass cm uid m :
  loader.manifest_uid cm = Some uid → decodeManifest (at_key (cmData cm) compiled.ManifestKey) = Ok m →
  (∀ previous next, ∃ t, LoadGeneration m (rwConfigMaps raw) (rwSecrets raw) previous next = Ok t) →
  loader.paStatuses (loader.load_cm decodeManifest errorText w raw pass cm) !! uid =
    Some (mkGatewayStatus (compiled.mfGeneration m) (compiled.mfGeneration m) None).
Proof.
  intros Hu Hd Hl. unfold loader.load_cm. rewrite Hu, Hd. unfold loader.load_manifest.
  destruct (loader.wApplied w !! uid) as [t|]; [case_bool_decide; [apply lookup_insert_eq|]|];
    (destruct (LoadGeneration _ _ _ _ _) as [[t' n]|e] eqn:E; [apply lookup_insert_eq|]);
    by edestruct Hl as [x Hx]; rewrite Hx in E.
Qed.

Lemma load_cms_status_other w raw order pass uid :
  Forall (λ cm, loader.manifest_uid cm ≠ Some uid) order →
  loader.paStatuses (fold_left (loader.load_cm decodeManifest errorText w raw) order pass) !! uid =
    loader.paStatuses pass !! uid.
Proof.
  intros H. revert pass. induction H as [|cm order Hcm _ IH]; intros pass; simpl; [done|]. rewrite IH.
  unfold loader.load_cm. destruct (loader.manifest_uid cm) as [u|]; [|done].
  assert (u ≠ uid) as Hne by congruence.
  unfold loader.load_manifest, loader.rejected. repeat case_match; simpl; by rewrite ?lookup_insert_ne.
Qed.

(** A process that caught up with a configuration acknowledges every
    generation in it that loads. *)
Lemma taken raws raw p name cm uid m :
  reached (raws ++ [raw]) p → caught_up p → distinct raw →
  rwConfigMaps raw !! name = Some cm → loader.manifest_uid cm = Some uid →
  decodeManifest (at_key (cmData cm) compiled.ManifestKey) = Ok m →
  (∀ previous next, ∃ t, LoadGeneration m (rwConfigMaps raw) (rwSecrets raw) previous next = Ok t) →
  stStatuses (prState p) !! uid = Some (mkGatewayStatus (compiled.mfGeneration m) (compiled.mfGeneration m) None).
Proof.
  intros (done & w & [[Hr Hl _ _ _ Hs] _] & _)%reached_consistent [Hq Hph] Hdist Hcm Hu Hd Hload.
  rewrite Hq, app_nil_r in Hr. subst done.
  assert (stStatuses (prState p) = stStatuses (loader.wState w)) as ->
    by (unfold coming_statuses in Hs; by destruct (prPhase p)).
  inversion Hl as [Hx|raws' w0 raw' order gateways _ Ho _ Heq]; [by destruct raws|].
  apply app_inj_tail in Heq as [-> ->]. simpl.
  assert (cm ∈ order) as Hin.
  { rewrite Ho. apply list_elem_of_fmap. exists (name, cm). split; [done|]. by apply elem_of_map_to_list. }
  unfold distinct in Hdist. rewrite <-Ho in Hdist. apply list_elem_of_split in Hin as (l1 & l2 & ->).
  unfold loader.rebuild_pass. rewrite fold_left_app. simpl.
  rewrite omap_app in Hdist. cbn [omap list_omap] in Hdist. rewrite Hu in Hdist.
  apply list.NoDup_app in Hdist as (_ & _ & Hdist). apply list.NoDup_cons in Hdist as [Hnot _].
  rewrite load_cms_status_other by by apply loader.omap_uid_notin. by apply load_cm_status.
Qed.

(** Whatever the actors do, the tables requests read are the merge of whole
    generations, each loaded and verified: no request observes a part of one. *)
Lemma whole_generations_served raws p :
  reached raws p → Forall distinct raws →
  ∃ gateways, stTables (prState p) = MergeTables gateways ∧
    Forall (λ t, ∃ manifest cms secrets previous next next',
      LoadGeneration manifest cms secrets previous next = Ok (t, next')) gateways.
Proof.
  intros Hr Hd. assert (∀ done w, done `prefix_of` raws → loads done w → ∃ gateways,
    stTables (loader.wState w) = MergeTables gateways ∧
    Forall (λ t, ∃ manifest cms secrets previous next next',
      LoadGeneration manifest cms secrets previous next = Ok (t, next')) gateways) as Hwhole.
  { intros done w [rest Heq] Hl. assert (Forall distinct done) as Hdone by (subst raws; by apply Forall_app in Hd as [? _]).
    destruct (loader.loader_serves_verified _ _ _ (loads_reachable _ _ Hl Hdone)) as [[Hv _ _] Hm].
    destruct Hl as [|raws' w' raw order gateways' _ _ _]; [by exists []|].
    destruct Hm as (_ & gateways & Hg & Ht); [simpl; intros Hx; by apply app_eq_nil in Hx as [_ ?]|].
    exists gateways. split; [done|]. rewrite Hg. apply Forall_forall. intros t Ht'%list_elem_of_In.
    apply list_elem_of_fmap in Ht' as ([uid t'] & -> & Ht'%elem_of_map_to_list). by apply (Hv uid). }
  destruct (acknowledged_state _ _ Hr) as (done & w & Hpre & Hl & _ & [->|(raw & w' & Hpre' & Hl' & ->)]).
  - by eapply Hwhole.
  - by eapply Hwhole.
Qed.

(** ** Properties *)

(** C28: In every interleaving of the data-plane actors while they run, the
    tables requests read are the merge of whole generations, each loaded and
    verified (when a configuration has one manifest per Gateway); every delivery
    of a message or of a publication brings the process one step closer to rest,
    one is possible as long as anything is pending, and at rest the process is
    in a state of the sequential data plane: the published tables and statuses
    are those of a loader that took every configuration mailed, in order; the
    listeners are those of a supervisor that took every table, in order, so that
    every server running is one the published tables ask for; and the watched
    namespaces are those of the published backends. *)
Theorem dataplane_converges raws p :
  reached raws p → prStopping p = false →
  (Forall distinct raws → ∃ gateways, stTables (prState p) = MergeTables gateways ∧
     Forall (λ t, ∃ manifest cms secrets previous next next',
       LoadGeneration manifest cms secrets previous next = Ok (t, next')) gateways) ∧
  (∀ p', delivers p p' → reached raws p' ∧ pending p = S (pending p')) ∧
  (pending p ≠ 0 → ∃ p', delivers p p') ∧
  (pending p = 0 → ∃ w, sequential raws w (prListeners p) (prWatched p) ∧
     stTables (prState p) = stTables (loader.wState w) ∧
     stStatuses (prState p) = stStatuses (loader.wState w) ∧
     (raws ≠ [] → prWatched p = Backends (stTables (prState p)) ∧
        ∀ port srv, listeners.wChildren (prListeners p) !! port = Some srv →
          ∃ spec, Ports (stTables (prState p)) !! port = Some spec ∧
                  srv = listeners.new_server (listeners.srId srv) port spec)).
Proof.
  intros Hreach Hrun. split; [by apply whole_generations_served|]. split; [|split].
  - intros p' Hd. split; [|by apply delivers_pending].
    rewrite <-(app_nil_r raws). eapply r_step; [done|by apply s_deliver].
  - apply pending_delivers. destruct (prEnded p) eqn:He; [|done].
    destruct (reached_ended _ _ Hreach He). congruence.
  - intros Hp. destruct (reached_consistent _ _ Hreach) as (done & w & [[Hr Hl Ha Hn Ht Hs] _] & Hd).
    destruct (Hd Hrun) as (heard & said & [Hm Hns Hh Hw]).
    unfold pending in Hp. unfold coming_tables in Ht. unfold coming_statuses in Hs.
    assert (queued (prRaw p) = [] ∧ queued (prTables p) = [] ∧ queued (prNamespaces p) = []) as (E1 & E2 & E3)
      by (split_and!; apply nil_length_inv; lia).
    assert (prPhase p = Waiting) as E4 by (destruct (prPhase p); simpl in Hp; [done|lia..]).
    rewrite E1, app_nil_r in Hr. rewrite E2, E4 in Hm. rewrite E3, E4 in Hns. rewrite E4 in Ht, Hs.
    simpl in Hm, Hns. rewrite app_nil_r in Hm, Hns. subst done heard said.
    exists w. split_and!; [done..|]. intros Hne. destruct (loads_last _ _ Hl Hne) as [Ht' Hn'].
    rewrite Ht, Hw, Hn'. split; [done|]. intros port srv Hc. by eapply (listened_ok _ _ Hh).
Qed.

(** Once the supervisor has returned no listener runs, whatever the other
    actors still do. *)
Theorem ended_means_stopped raws p :
  reached raws p → prEnded p = true → listeners.wChildren (prListeners p) = ∅.
Proof. intros Hr He. by destruct (reached_ended _ _ Hr He). Qed.

End process.

(** ** A concrete run *)

#[refine] Instance ex_mailbox : Mailbox := {|
  box := list;
  NewMailbox _ := [];
  Send _ m b := b ++ [m];
  Receive _ b := match b with [] => None | m :: b => Some (m, b) end;
  queued _ b := b;
|}.
Proof. all: try done. by intros A []. Defined.

(** A process that polls one configuration and loads it. *)
Section one_configuration.
Context {libs : Libraries} (decode : string → result string compiled.Manifest) (text : BuildError → string).
Context (raw : RawConfig).

Definition ex_listed {A} (objects : gmap string A) : list (Listed A) :=
  (λ kv, mkListed kv.1 "1" kv.2) <$> map_to_list objects.
Definition ex_polled : list RawConfig * Process :=
  watch (Some (ex_listed (rwConfigMaps raw))) (Some (ex_listed (rwSecrets raw))) true NewRoot.
Definition ex_order : list ConfigMap := (map_to_list (rwConfigMaps raw)).*2.
Definition ex_gateways : list GatewayTable :=
  (map_to_list (loader.paApplied (loader.rebuild_pass decode text (loader_of ex_polled.2) raw ex_order))).*2.

Definition or_root (p : option Process) : Process := default NewRoot p.
Definition ex_loaded : Process := or_root (load decode text ex_order ex_gateways ex_polled.2).
Definition ex_acknowledged : Process := or_root (advance true (or_root (advance true ex_loaded))).

Lemma delivered raws p p' : reached decode text raws p → delivers decode text p p' → reached decode text raws p'.
Proof. intros Hr Hd. rewrite <-(app_nil_r raws). eapply r_step; [done|by apply s_deliver]. Qed.

Lemma advanced raws p :
  reached decode text raws p → prPhase p ≠ Waiting → reached decode text raws (or_root (advance true p)).
Proof.
  intros Hr Hph. eapply delivered; [done|]. eapply d_advance; [by left|]. unfold advance. by destruct (prPhase p).
Qed.

Lemma ex_loaded_reached :
  Receive (prRaw ex_polled.2) = Some (raw, NewMailbox) → prPhase ex_polled.2 = Waiting →
  reached decode text ex_polled.1 ex_loaded.
Proof.
  intros Hrec Hph. eapply delivered.
  { exact (r_step _ _ [] NewRoot _ _ (r_start _ _) (s_watch _ _ NewRoot _ _ true (or_introl eq_refl))). }
  eapply d_load; [exact Hrec|reflexivity|reflexivity|].
  change (load decode text ex_order ex_gateways ex_polled.2 = Some ex_loaded).
  unfold ex_loaded, load. by rewrite Hrec, Hph.
Qed.

Lemma ex_acknowledged_reached :
  Receive (prRaw ex_polled.2) = Some (raw, NewMailbox) → prPhase ex_polled.2 = Waiting →
  reached decode text ex_polled.1 ex_acknowledged.
Proof.
  intros Hrec Hph. pose proof (ex_loaded_reached Hrec Hph) as Hr.
  assert (∃ pass merged, prPhase ex_loaded = Built pass merged) as (pass & merged & Hb).
  { unfold ex_loaded, load. rewrite Hrec, Hph. by eexists _, _. }
  unfold ex_acknowledged. apply advanced; [apply advanced|]; [done|by rewrite Hb|].
  unfold advance. by rewrite Hb.
Qed.

End one_configuration.

#[local] Existing Instance ex_libs.

(** The state once the concrete configuration is acknowledged, and the steps
    from there. *)
Definition ex_decoded : Process := Eval vm_compute in ex_acknowledged loader.ex_decode loader.ex_text loader.ex_raw.
Definition ex_posted : Process := or_root (advance true (or_root (advance true ex_decoded))).
Definition ex_wanted : list (Z * PortSpec) := map_to_list (Ports (stTables (prState ex_decoded))).
Definition ex_listening (bind : Z → bool) : Process := or_root (listen bind [] ex_wanted ex_posted).
Definition ex_settled (bind : Z → bool) : Process :=
  or_root (hear (λ _, resolver.mkListing None None)
    (elements (Backends (stTables (prState ex_decoded)))) (ex_listening bind)).

(** A generation is acknowledged before its ports are listened on, and a
    port that could not be bound is not tried again: nothing is pending. *)
Example acknowledged_without_listeners :
  (λ p, (gsAppliedGeneration <$> stStatuses (prState p) !! "guid", size (listeners.wChildren (prListeners p)), pending p)) <$>
    [(ex_polled loader.ex_raw).2; ex_decoded; ex_settled (λ _, true); ex_settled (λ _, false)] =
  [(None, 0, 7); (Some "gen1", 0, 4); (Some "gen1", 1, 0); (Some "gen1", 0, 0)].
Proof. vm_compute. reflexivity. Qed.

Lemma ex_decoded_eq : ex_acknowledged loader.ex_decode loader.ex_text loader.ex_raw = ex_decoded.
Proof. vm_cast_no_check (eq_refl ex_decoded). Qed.

Lemma ex_reached : reached loader.ex_decode loader.ex_text (ex_polled loader.ex_raw).1 (ex_settled (λ _, true)).
Proof.
  apply (delivered _ _ _ (ex_listening (λ _, true))).
  - apply (delivered _ _ _ ex_posted).
    + do 2 (apply advanced; [|discriminate]). rewrite <-ex_decoded_eq. apply ex_acknowledged_reached; vm_compute; reflexivity.
    + apply (d_listen _ _ _ (λ _, true) (stTables (prState ex_decoded)) NewMailbox [] ex_wanted (ex_listening (λ _, true)));
        reflexivity.
  - apply (d_hear _ _ _ (λ _, resolver.mkListing None None) (elements (Backends (stTables (prState ex_decoded))))
      (Backends (stTables (prState ex_decoded))) NewMailbox); reflexivity.
Qed.

Lemma dataplane_converges_witness :
  ∃ w, sequential loader.ex_decode loader.ex_text (ex_polled loader.ex_raw).1 w (prListeners (ex_settled (λ _, true)))
         (prWatched (ex_settled (λ _, true))) ∧
    stTables (prState (ex_settled (λ _, true))) = stTables (loader.wState w).
Proof.
  destruct (dataplane_converges loader.ex_decode loader.ex_text (ex_polled loader.ex_raw).1 (ex_settled (λ _, true))) as (_ & _ & _ & H).
  - exact ex_reached.
  - vm_compute. reflexivity.
  - destruct H as (w & H1 & H2 & _); [vm_compute; reflexivity|]. exists w. split; [exact H1|exact H2].
Defined.

End dataplane.
