(* ===== verification/Ports.v ===== *)
(** * Internal port allocation

    Models [internal/lib/k8s/gatewayapi/ports.go]: the allocator that gives
    every (Gateway UID, external port, protocol) group its internal
    listener port, rebuilt on every sync from the annotations of the
    generated Services.

    The data plane merges the tables of all gateways by internal port, so
    what [Build.build.merge_order_independent] needs of the control plane is
    what is proved here: distinct groups never share a port, and a port
    once given to a group stays with it. *)

From S2P Require Import Prelude GoStrings Compiled.
From stdpp Require Import options.

#[local] Open Scope nat_scope.

Module ports.

Record portAllocator := mkPortAllocator {
  paMin : Z;
  paMax : Z;
  paUsed : gset Z;
  paAssigned : gmap string Z;
}.

(** A generated Service, as far as the allocator reads it. *)
Record K8sService := mkK8sService {
  ksLabels : gmap string string;
  ksAnnotations : gmap string string;
}.

(** [json.Marshal] and [json.Unmarshal] on a [map[string]int32]: decoding
    an encoded map gives the map back. *)
Class PortMapJSON := {
  encodePortMap : gmap string Z → string;
  decodePortMap : string → option (gmap string Z);
  decode_encode m : decodePortMap (encodePortMap m) = Some m;
  encode_nonempty m : encodePortMap m ≠ "";
}.

Section ports.
Context {json : PortMapJSON}.

Definition note_port (uid : string) (a : portAllocator) (e : string * Z) : portAllocator :=
  mkPortAllocator (paMin a) (paMax a) ({[ e.2 ]} ∪ paUsed a)
    (<[uid +:+ "|" +:+ e.1 := e.2]> (paAssigned a)).

Definition note_service (a : portAllocator) (svc : K8sService) : portAllocator :=
  let uid := default "" (ksLabels svc !! compiled.LabelGatewayUID) in
  let raw := default "" (ksAnnotations svc !! compiled.PortMapAnnotation) in
  if (uid == "") || (raw == "") then a
  else match decodePortMap raw with
       | None => a
       | Some portMap => fold_left (note_port uid) (map_to_list portMap) a
       end.

Definition newPortAllocator (min max : Z) (existingServices : list K8sService) : portAllocator :=
  fold_left note_service existingServices (mkPortAllocator min max ∅ ∅).

(** The candidate loop from [candidate] with [n] iterations left. *)
Fixpoint find_free (used : gset Z) (candidate : Z) (n : nat) : option Z :=
  match n with
  | O => None
  | S n =>
      let port := int32_wrap candidate in
      if bool_decide (port ∈ used) then find_free used (candidate + 1) n else Some port
  end.

Definition group_key (gatewayUID : string) (extPort : Z) (protocol : string) : string :=
  gatewayUID +:+ "|" +:+ pretty extPort +:+ "/" +:+ protocol.

Inductive AllocError := Exhausted (min max : Z).

Definition Allocate (a : portAllocator) (gatewayUID : string) (extPort : Z) (protocol : string) :
    result AllocError Z * portAllocator :=
  let key := group_key gatewayUID extPort protocol in
  match paAssigned a !! key with
  | Some port => (Ok port, a)
  | None =>
      match find_free (paUsed a) (paMin a) (Z.to_nat (paMax a - paMin a + 1)) with
      | Some port =>
          (Ok port, mkPortAllocator (paMin a) (paMax a) ({[ port ]} ∪ paUsed a)
                      (<[key := port]> (paAssigned a)))
      | None => (Err (Exhausted (paMin a) (paMax a)), a)
      end
  end.

(** [PortMap], before encoding. *)
Definition port_map (a : portAllocator) (gatewayUID : string) : gmap string Z :=
  let prefix := gatewayUID +:+ "|" in
  fold_left (λ m e,
    if (len prefix <? len e.1) && hasPrefix e.1 prefix
    then <[sdrop (len prefix) e.1 := e.2]> m else m) (map_to_list (paAssigned a)) ∅.

Definition PortMap (a : portAllocator) (gatewayUID : string) : string :=
  encodePortMap (port_map a gatewayUID).

(** ** Keys *)

Lemma cut_at c s s' t t' :
  has_byte c s = false → has_byte c s' = false →
  s +:+ String c t = s' +:+ String c t' → s = s' ∧ t = t'.
Proof.
  revert s'. induction s as [|d s IH]; intros [|d' s']; rewrite ?app_empty_l, ?app_cons;
    cbn [has_byte]; intros H1 H2 Heq; bool_to_prop; simplify_eq; [done|].
  destruct (IH s') as [-> ->]; auto.
Qed.

Lemma group_key_inj u1 p1 r1 u2 p2 r2 :
  has_byte "|" u1 = false → has_byte "|" u2 = false →
  has_byte "/" (pretty p1) = false → has_byte "/" (pretty p2) = false →
  group_key u1 p1 r1 = group_key u2 p2 r2 → u1 = u2 ∧ p1 = p2 ∧ r1 = r2.
Proof.
  unfold group_key. intros H1 H2 H3 H4 H.
  apply cut_at in H as [-> H]; [|done|done]. apply cut_at in H as [H ->]; [|done|done].
  by apply (inj pretty) in H.
Qed.

(** ** The search *)

Lemma find_free_Some used c n p :
  (-(2 ^ 31) ≤ c)%Z → (c + Z.of_nat n ≤ 2 ^ 31)%Z →
  find_free used c n = Some p → p ∉ used ∧ (c ≤ p < c + Z.of_nat n)%Z.
Proof.
  revert c. induction n as [|n IH]; intros c H1 H2; simpl; [done|].
  rewrite int32_wrap_id by lia. case_bool_decide.
  - intros [? ?]%IH; [|lia|lia]. split; [done|lia].
  - intros [= <-]. split; [done|lia].
Qed.

Lemma find_free_None used c n :
  (-(2 ^ 31) ≤ c)%Z → (c + Z.of_nat n ≤ 2 ^ 31)%Z →
  find_free used c n = None ↔ ∀ p, (c ≤ p < c + Z.of_nat n)%Z → p ∈ used.
Proof.
  revert c. induction n as [|n IH]; intros c H1 H2; simpl; [split; [lia|done]|].
  rewrite int32_wrap_id by lia. case_bool_decide as Hin.
  - rewrite IH by lia. split; intros H p Hp; [|apply H; lia].
    destruct (decide (p = c)) as [->|]; [done|]. apply H. lia.
  - split; [done|]. intros H. destruct Hin. apply H. lia.
Qed.

(** ** Invariant *)

Record allocator_ok (a : portAllocator) : Prop := {
  ao_used : ∀ k p, paAssigned a !! k = Some p → p ∈ paUsed a;
  ao_inj : ∀ k1 k2 p, paAssigned a !! k1 = Some p → paAssigned a !! k2 = Some p → k1 = k2;
}.

(** The configured range fits [int32]. *)
Definition range_ok (a : portAllocator) : Prop := (-(2 ^ 31) ≤ paMin a ∧ paMax a < 2 ^ 31)%Z.

(** The specification of one call. *)
Record allocated (a : portAllocator) (key : string) (p : Z) (a' : portAllocator) : Prop := {
  al_assigned : paAssigned a' !! key = Some p;
  al_keeps : paAssigned a ⊆ paAssigned a';
  al_range : (paMin a' = paMin a ∧ paMax a' = paMax a)%Z;
  al_fresh : paAssigned a !! key = None → p ∉ paUsed a ∧ (paMin a ≤ p ≤ paMax a)%Z;
  al_ok : allocator_ok a';
}.

Lemma Allocate_spec a uid port proto :
  allocator_ok a → range_ok a →
  match Allocate a uid port proto with
  | (Ok p, a') => allocated a (group_key uid port proto) p a'
  | (Err _, a') => a' = a ∧ paAssigned a !! group_key uid port proto = None ∧
                   ∀ p, (paMin a ≤ p ≤ paMax a)%Z → p ∈ paUsed a
  end.
Proof.
  intros [Hu Hi] [R1 R2]. unfold Allocate.
  destruct (paAssigned a !! _) as [q|] eqn:Hk; [split; [done|done|done|congruence|by split]|].
  destruct (Z.le_gt_cases (paMin a) (paMax a + 1)) as [Hle|Hgt].
  2:{ replace (Z.to_nat (paMax a - paMin a + 1)) with 0 by lia. simpl. split_and!; [done|done|lia]. }
  destruct (find_free _ _ _) as [p|] eqn:Hf.
  - apply find_free_Some in Hf as [Hfree Hr]; [|lia|lia].
    split; simpl; [by rewrite lookup_insert_eq|by apply insert_subseteq|done|intros _; split; [done|lia]|].
    split; simpl.
    + intros k q. rewrite lookup_insert. case_decide; [intros [= <-]; set_solver|].
      intros ?%Hu. set_solver.
    + intros k1 k2 q. rewrite !lookup_insert. repeat case_decide; [congruence|..].
      * intros [= <-] ?%Hu. done.
      * intros ?%Hu [= <-]. done.
      * apply Hi.
  - rewrite find_free_None in Hf by lia. split_and!; [done|done|]. intros q Hq. apply Hf. lia.
Qed.

(** A sequence of requests, as one sync issues them. *)
Fixpoint allocate_all (a : portAllocator) (reqs : list (string * Z * string)) :
    list (result AllocError Z) * portAllocator :=
  match reqs with
  | [] => ([], a)
  | (uid, port, proto) :: reqs =>
      let '(r, a) := Allocate a uid port proto in
      let '(rs, a) := allocate_all a reqs in (r :: rs, a)
  end.

Definition req_key (r : string * Z * string) : string := group_key r.1.1 r.1.2 r.2.

Lemma allocate_all_spec reqs a rs a' :
  allocator_ok a → range_ok a → allocate_all a reqs = (rs, a') →
  allocator_ok a' ∧ paAssigned a ⊆ paAssigned a' ∧ length rs = length reqs ∧
  ∀ i req p, reqs !! i = Some req → rs !! i = Some (Ok p) →
             paAssigned a' !! req_key req = Some p.
Proof.
  revert a rs. induction reqs as [|[[uid port] proto] reqs IH]; intros a rs Ha Hr; cbn [allocate_all].
  { intros [= <- <-]. done. }
  pose proof (Allocate_spec a uid port proto Ha Hr) as Hspec.
  destruct (Allocate a uid port proto) as [r a1] eqn:Hal.
  destruct (allocate_all a1 reqs) as [rs1 a2] eqn:Hall. intros [= <- <-].
  assert (allocator_ok a1 ∧ range_ok a1 ∧ paAssigned a ⊆ paAssigned a1) as (Ha1 & Hr1 & Hsub).
  { destruct r as [p|e]; [|destruct Hspec as (-> & _); done].
    destruct Hspec as [_ ? [E1 E2] _ ?]. unfold range_ok. rewrite E1, E2. done. }
  destruct (IH _ _ Ha1 Hr1 Hall) as (H1 & H2 & H3 & H4).
  split; [done|]. split; [by trans (paAssigned a1)|]. split; [simpl; lia|].
  intros [|i] req p Hreq Hrs; simplify_eq/=; [|eauto].
  destruct Hspec as [Has _ _ _ _]. by eapply lookup_weaken.
Qed.

(** ** Restart *)

Lemma port_map_fold prefix entries m k :
  NoDup entries.*1 →
  fold_left (λ (m : gmap string Z) (e : string * Z),
    if (len prefix <? len e.1) && hasPrefix e.1 prefix
    then <[sdrop (len prefix) e.1 := e.2]> m else m) entries m !! k =
  match list_find (λ e, e.1 = prefix +:+ k) entries with
  | Some (_, (_, p)) => if (k == "") then m !! k else Some p
  | None => m !! k
  end.
Proof.
  revert m. induction entries as [|[key p] entries IH]; intros m Hnd; [done|].
  apply list.NoDup_cons in Hnd as [Hn Hnd]. cbn [fold_left fst snd]. rewrite IH by done. clear IH.
  cbn [list_find fst]. destruct (decide (key = prefix +:+ k)) as [->|Hne].
  - destruct (list_find _ entries) as [[i [key' p']]|] eqn:Hf.
    { apply list_find_Some in Hf as (Hi & He & _). simpl in He. subst key'. destruct Hn.
      apply list_elem_of_fmap. exists (prefix +:+ k, p'). split; [done|]. by eapply list_elem_of_lookup_2. }
    rewrite hasPrefix_app, andb_true_r, len_app, sdrop_app.
    destruct k as [|c k]; simpl.
    + rewrite Nat.add_0_r, Nat.ltb_irrefl. done.
    + destruct (Nat.ltb_spec (len prefix) (len prefix + S (len k))); [|lia]. by rewrite lookup_insert_eq.
  - assert ((if (len prefix <? len key) && hasPrefix key prefix then <[sdrop (len prefix) key := p]> m
             else m) !! k = m !! k) as ->.
    { destruct (_ && _) eqn:Hc; [|done]. apply andb_true_iff in Hc as [_ [t ->]%hasPrefix_spec].
      rewrite sdrop_app. rewrite lookup_insert_ne; [done|]. by intros ->. }
    simpl. destruct (list_find _ entries) as [[i [key' p']]|]; done.
Qed.

(** The annotation of a gateway holds exactly its assignments. *)
Lemma port_map_lookup a uid k :
  k ≠ "" → port_map a uid !! k = paAssigned a !! (uid +:+ "|" +:+ k).
Proof.
  intros Hk. unfold port_map. rewrite port_map_fold by apply NoDup_fst_map_to_list.
  rewrite <-sapp_assoc. rewrite bool_decide_eq_false_2 by done.
  destruct (list_find _ _) as [[i [key p]]|] eqn:Hf.
  - apply list_find_Some in Hf as (Hi & He & _). simpl in He. subst key.
    apply list_elem_of_lookup_2, elem_of_map_to_list in Hi. by rewrite Hi.
  - rewrite lookup_empty. symmetry. apply eq_None_not_Some. intros [p Hp].
    apply list_find_None in Hf. rewrite Forall_forall in Hf.
    apply (Hf (uid +:+ "|" +:+ k, p)); [|done]. apply list_elem_of_In. by apply elem_of_map_to_list.
Qed.

(** The Service the control plane writes for a gateway. *)
Definition service_of (a : portAllocator) (uid : string) : K8sService :=
  mkK8sService {[ compiled.LabelGatewayUID := uid ]} {[ compiled.PortMapAnnotation := PortMap a uid ]}.

Lemma note_ports_lookup uid entries a key :
  NoDup entries.*1 →
  paAssigned (fold_left (note_port uid) entries a) !! key =
    match list_find (λ e, uid +:+ "|" +:+ e.1 = key) entries with
    | Some (_, (_, p)) => Some p
    | None => paAssigned a !! key
    end.
Proof.
  revert a. induction entries as [|[k p] entries IH]; intros a Hnd; [done|].
  apply list.NoDup_cons in Hnd as [Hn Hnd]. cbn [fold_left]. rewrite IH by done.
  cbn [list_find fst]. simpl. destruct (decide (uid +:+ "|" +:+ k = key)) as [<-|Hne].
  - destruct (list_find _ entries) as [[i [k' p']]|] eqn:Hf; [|by rewrite lookup_insert_eq].
    apply list_find_Some in Hf as (Hi & He & _). simpl in He.
    apply sapp_inj in He. apply (sapp_inj "|") in He. subst k'. destruct Hn.
    apply list_elem_of_fmap. exists (k, p'). split; [done|]. by eapply list_elem_of_lookup_2.
  - rewrite lookup_insert_ne by done. by destruct (list_find _ entries) as [[i [k' p']]|].
Qed.

(** Reading the Services back restores each gateway's assignments and
    invents none. *)
Lemma restart_lookup a min max uids uid k :
  Forall (λ u, u ≠ "" ∧ has_byte "|" u = false) uids → has_byte "|" uid = false → k ≠ "" →
  paAssigned (newPortAllocator min max (service_of a <$> uids)) !! (uid +:+ "|" +:+ k) =
    if decide (uid ∈ uids) then paAssigned a !! (uid +:+ "|" +:+ k) else None.
Proof.
  intros Huids Hbar Hk. unfold newPortAllocator.
  set (key := uid +:+ "|" +:+ k).
  assert (∀ a0, paAssigned (fold_left note_service (service_of a <$> uids) a0) !! key =
    if decide (uid ∈ uids) then (match paAssigned a !! key with Some p => Some p | None => paAssigned a0 !! key end)
    else paAssigned a0 !! key) as H.
  { induction uids as [|u uids IH]; intros a0; [by rewrite decide_False by apply not_elem_of_nil|].
    apply Forall_cons_iff in Huids as [[Hu Hub] Huids]. cbn [fmap list_fmap fold_left].
    rewrite IH by done.
    assert (paAssigned (note_service a0 (service_of a u)) !! key =
      if decide (uid = u) then (match paAssigned a !! key with Some p => Some p | None => paAssigned a0 !! key end)
      else paAssigned a0 !! key) as ->.
    { unfold note_service, service_of. simpl. rewrite !lookup_singleton_eq. simpl.
      rewrite !bool_decide_eq_false_2 by (done || apply encode_nonempty). simpl.
      unfold PortMap. rewrite decode_encode, note_ports_lookup by apply NoDup_fst_map_to_list.
      destruct (list_find _ _) as [[i [k' p]]|] eqn:Hf.
      - apply list_find_Some in Hf as (Hi & He & _). simpl in He. apply cut_at in He as [<- <-]; [|done|done].
        rewrite decide_True by done.
        apply list_elem_of_lookup_2, elem_of_map_to_list in Hi. rewrite port_map_lookup in Hi by done.
        unfold key. by rewrite Hi.
      - destruct (decide (uid = u)) as [<-|_]; [|done]. apply list_find_None in Hf.
        destruct (paAssigned a !! key) as [p|] eqn:Hp; [|done]. exfalso.
        rewrite Forall_forall in Hf. apply (Hf (k, p)); [|done]. apply list_elem_of_In.
        apply elem_of_map_to_list. by rewrite port_map_lookup. }
    destruct (decide (uid = u)) as [->|Hne]; [rewrite (decide_True (P := u ∈ u :: uids)) by left|].
    - destruct (paAssigned a !! key); repeat case_decide; done.
    - destruct (decide (uid ∈ uids)); [rewrite decide_True by by right|rewrite decide_False by set_solver]; done. }
  rewrite H. simpl. rewrite lookup_empty. case_decide; [|done]. by destruct (paAssigned a !! key).
Qed.

Lemma port_map_empty a uid : port_map a uid !! "" = None.
Proof.
  unfold port_map. rewrite port_map_fold by apply NoDup_fst_map_to_list.
  destruct (list_find _ _) as [[i [key p]]|]; [|apply lookup_empty].
  rewrite bool_decide_eq_true_2 by done. apply lookup_empty.
Qed.

(** What the restored allocator assigns was assigned before. *)
Lemma note_service_sub a a0 uid :
  paAssigned a0 ⊆ paAssigned a → (∀ k p, paAssigned a0 !! k = Some p → p ∈ paUsed a0) →
  let a1 := note_service a0 (service_of a uid) in
  paAssigned a1 ⊆ paAssigned a ∧ (∀ k p, paAssigned a1 !! k = Some p → p ∈ paUsed a1).
Proof.
  intros Hsub Hused. unfold note_service, service_of. simpl. rewrite !lookup_singleton_eq. simpl.
  destruct (_ || _); [done|]. unfold PortMap. rewrite decode_encode.
  assert (∀ e, e ∈ map_to_list (port_map a uid) → paAssigned a !! (uid +:+ "|" +:+ e.1) = Some e.2) as He.
  { intros [k p] Hk%elem_of_map_to_list. simpl. destruct (decide (k = "")) as [->|Hne].
    - by rewrite port_map_empty in Hk.
    - by rewrite <-port_map_lookup. }
  revert He. apply (fold_left_inv (λ a1 : portAllocator,
    (∀ e, e ∈ map_to_list (port_map a uid) → paAssigned a !! (uid +:+ "|" +:+ e.1) = Some e.2) →
    paAssigned a1 ⊆ paAssigned a ∧ (∀ k p, paAssigned a1 !! k = Some p → p ∈ paUsed a1))); [done|].
  intros a1 [k p] Hin IH He. destruct (IH He) as [H1 H2]. simpl. split.
  - apply insert_subseteq_l; [|done]. by apply (He (k, p)).
  - intros k' p'. rewrite lookup_insert. case_decide; [intros [= <-]; set_solver|].
    intros ?%H2. set_solver.
Qed.

Lemma restart_ok a min max uids :
  allocator_ok a → allocator_ok (newPortAllocator min max (service_of a <$> uids)).
Proof.
  intros [_ Hinj]. unfold newPortAllocator.
  assert (paAssigned (fold_left note_service (service_of a <$> uids) (mkPortAllocator min max ∅ ∅)) ⊆ paAssigned a ∧
    ∀ k p, paAssigned (fold_left note_service (service_of a <$> uids) (mkPortAllocator min max ∅ ∅)) !! k = Some p →
           p ∈ paUsed (fold_left note_service (service_of a <$> uids) (mkPortAllocator min max ∅ ∅))) as [H1 H2].
  { apply (fold_left_inv (λ a1 : portAllocator, paAssigned a1 ⊆ paAssigned a ∧
      ∀ k p, paAssigned a1 !! k = Some p → p ∈ paUsed a1)).
    - split; [apply map_empty_subseteq|]. intros k p H. simpl in H. by rewrite lookup_empty in H.
    - intros a1 svc (uid & -> & _)%list_elem_of_fmap [? ?]. by apply note_service_sub. }
  split; [done|]. intros k1 k2 p E1 E2. apply (Hinj k1 k2 p); by eapply lookup_weaken.
Qed.

Lemma pretty_no_slash (p : Z) : (0 ≤ p)%Z → has_byte "/" (pretty p) = false.
Proof.
  intros (Hd & _)%pretty_Z_digits. induction (pretty p) as [|c s IH]; [done|]. simpl in *.
  bool_to_prop. rewrite IH by done. apply orb_false_iff. split; [|done].
  apply bool_decide_eq_false. by intros ->.
Qed.

(** ** Properties *)

(** C33: In any sequence of allocations two listeners get the same internal port
    only if they are the same listener group. *)
Theorem ports_stay_distinct a reqs rs a' i j req1 req2 p :
  allocator_ok a → range_ok a → allocate_all a reqs = (rs, a') →
  Forall (λ r, has_byte "|" r.1.1 = false ∧ (0 ≤ r.1.2)%Z) reqs →
  reqs !! i = Some req1 → reqs !! j = Some req2 →
  rs !! i = Some (Ok p) → rs !! j = Some (Ok p) → req1 = req2.
Proof.
  intros Ha Hr Hall Hwf Hi Hj Ri Rj.
  destruct (allocate_all_spec _ _ _ _ Ha Hr Hall) as ([_ Hinj] & _ & _ & Hlk).
  pose proof (Hinj _ _ _ (Hlk _ _ _ Hi Ri) (Hlk _ _ _ Hj Rj)) as Hk.
  rewrite Forall_forall in Hwf.
  destruct (Hwf req1) as [B1 P1]; [apply list_elem_of_In; by eapply list_elem_of_lookup_2|].
  destruct (Hwf req2) as [B2 P2]; [apply list_elem_of_In; by eapply list_elem_of_lookup_2|].
  destruct req1 as [[u1 p1] r1], req2 as [[u2 p2] r2]. simpl in *.
  destruct (group_key_inj u1 p1 r1 u2 p2 r2 B1 B2 (pretty_no_slash p1 P1) (pretty_no_slash p2 P2) Hk)
    as (? & ? & ?). congruence.
Qed.

(** An allocation returns the group's port if it has one, else a free port in
    range which it records, and fails without changing anything only when the
    range is exhausted. *)
Theorem allocate_correct a uid port proto :
  allocator_ok a → range_ok a →
  match Allocate a uid port proto with
  | (Ok p, a') => allocated a (group_key uid port proto) p a'
  | (Err _, a') => a' = a ∧ paAssigned a !! group_key uid port proto = None ∧
                   ∀ p, (paMin a ≤ p ≤ paMax a)%Z → p ∈ paUsed a
  end.
Proof. apply Allocate_spec. Qed.

(** C34: An allocator rebuilt from the port maps persisted on the Services gives
    every group the port it had. *)
Theorem restart_keeps_ports a min max uids uid port proto p :
  allocator_ok a →
  Forall (λ u, u ≠ "" ∧ has_byte "|" u = false) uids → uid ∈ uids →
  paAssigned a !! group_key uid port proto = Some p →
  let a' := newPortAllocator min max (service_of a <$> uids) in
  allocator_ok a' ∧ Allocate a' uid port proto = (Ok p, a').
Proof.
  intros Ha Huids Hin Hp. split; [by apply restart_ok|]. unfold Allocate.
  assert (has_byte "|" uid = false) as Hbar.
  { rewrite Forall_forall in Huids. apply Huids. by apply list_elem_of_In. }
  assert (paAssigned (newPortAllocator min max (service_of a <$> uids)) !! group_key uid port proto = Some p)
    as ->; [|done].
  unfold group_key in *. rewrite restart_lookup; [by rewrite decide_True|done|done|].
  intros He. apply (f_equal len) in He. rewrite !len_app in He. simpl in He. lia.
Qed.

End ports.

(** ** A concrete allocator *)

Definition ex_allocator : portAllocator := mkPortAllocator 10000 10002 ∅ ∅.
Definition ex_reqs : list (string * Z * string) := [("u1", 443, "HTTPS"); ("u2", 443, "HTTPS"); ("u1", 443, "HTTPS")]%Z.

Lemma ex_allocator_ok : allocator_ok ex_allocator.
Proof. split; intros *; simpl; by rewrite lookup_empty. Qed.

Lemma ports_stay_distinct_witness :
  (allocate_all ex_allocator ex_reqs).1 = [Ok 10000; Ok 10001; Ok 10000]%Z ∧
  ("u1", 443%Z, "HTTPS") = ("u1", 443%Z, "HTTPS").
Proof.
  split; [vm_compute; reflexivity|].
  apply (ports_stay_distinct ex_allocator ex_reqs
    (allocate_all ex_allocator ex_reqs).1 (allocate_all ex_allocator ex_reqs).2 0 2
    ("u1", 443%Z, "HTTPS") ("u1", 443%Z, "HTTPS") 10000%Z ex_allocator_ok);
    [split; vm_compute; congruence|apply surjective_pairing|repeat constructor; vm_compute; congruence
    |reflexivity|reflexivity|vm_compute; reflexivity|vm_compute; reflexivity].
Defined.

Lemma allocate_correct_witness :
  allocated ex_allocator (group_key "u1" 443 "HTTPS") 10000 (Allocate ex_allocator "u1" 443 "HTTPS").2.
Proof.
  exact (allocate_correct ex_allocator "u1" 443 "HTTPS" ex_allocator_ok
    ltac:(split; vm_compute; congruence)).
Defined.

(** An encoding of port maps: the bits of the number a map is counted by. *)
#[refine] Instance ex_json : PortMapJSON :=
  { encodePortMap m := pos_bits (encode m); decodePortMap s := bits_pos s ≫= decode }.
Proof.
  - intros m. rewrite bits_pos_bits. apply countable.decode_encode.
  - intros m. by destruct (encode m).
Defined.

Lemma restart_keeps_ports_witness :
  let a := (allocate_all ex_allocator ex_reqs).2 in
  let a' := newPortAllocator 10000 10002 (service_of a <$> ["u1"; "u2"]) in
  allocator_ok a' ∧ Allocate a' "u2" 443 "HTTPS" = (Ok 10001%Z, a').
Proof.
  apply (restart_keeps_ports (allocate_all ex_allocator ex_reqs).2 10000 10002 ["u1"; "u2"] "u2" 443 "HTTPS" 10001).
  - apply (allocate_all_spec ex_reqs ex_allocator (allocate_all ex_allocator ex_reqs).1);
      [exact ex_allocator_ok|split; vm_compute; congruence|apply surjective_pairing].
  - repeat constructor; discriminate.
  - right; left.
  - vm_compute; reflexivity.
Defined.

End ports.
