(* ===== verification/RateLimit.v ===== *)
(** * Rate limiting

    Models [internal/extensions/ratelimiting]: parsing and merging of
    [ratelimit.hcl] documents and the token buckets enforcing the merged
    configuration.

    Tokens are [float64]s in the code.  The limiter is written against
    [FloatOps], and what holds of any arithmetic with the order laws of
    [FloatLaws] (rounding is monotone and exact on the values involved) is
    proved against that interface.  Exact rationals are the instance the
    quantitative theorems are about.  Times are nanoseconds. *)

From S2P Require Import Prelude GoStrings Http Compiled.
From Stdlib Require Import QArith Qminmax Qround Lqa.
From stdpp Require Import options.

#[local] Open Scope nat_scope.
#[local] Close Scope Q_scope.

Module ratelimiting.

(** ** Documents *)

Record Document := mkDocument {
  dRequests : option Z;
  dWindow : option Z;      (** nanoseconds *)
  dBurst : option Z;
  dKey : option string;
  dStatus : option Z;
}.

(** What [hclsimple.Decode] yields: version and the [rate_limit] block. *)
Record hclRateLimit := mkHclRateLimit {
  hRequests : option Z;
  hWindow : option string;
  hBurst : option Z;
  hKey : option string;
  hStatus : option Z;
}.
Record hclDocument := mkHclDocument { hVersion : Z; hRateLimit : option hclRateLimit }.

Inductive ParseError :=
  | DecodeError (err : string)
  | UnsupportedVersion (v : Z)
  | MissingBlock
  | RequestsNotPositive
  | InvalidWindow (w : string)
  | BurstNotPositive
  | InvalidKey (k : string)
  | StatusOutOfRange
  | Incomplete.

Definition positive_if_set (v : option Z) : bool :=
  match v with Some v => (0 <? v)%Z | None => true end.

Definition key_ok (k : string) : bool :=
  bool_decide (k = "client_ip") || (hasPrefix k "header:" && (len "header:" <? len k)).

Section parse.
(** HCL decoding and [time.ParseDuration]. *)
Context (decode : string → result string hclDocument).
Context (parseDuration : string → option Z).

Definition parse_window (w : option string) : result ParseError (option Z) :=
  match w with
  | None => Ok None
  | Some text =>
      match parseDuration text with
      | Some d => if (0 <? d)%Z then Ok (Some d) else Err (InvalidWindow text)
      | None => Err (InvalidWindow text)
      end
  end.

Definition Parse (src : string) : result ParseError Document :=
  raw ← match decode src with Ok r => Ok r | Err e => Err (DecodeError e) end;
  _ ← guard_err (hVersion raw =? 1)%Z (UnsupportedVersion (hVersion raw));
  block ← of_option MissingBlock (hRateLimit raw);
  _ ← guard_err (positive_if_set (hRequests block)) RequestsNotPositive;
  window ← parse_window (hWindow block);
  _ ← guard_err (positive_if_set (hBurst block)) BurstNotPositive;
  _ ← match hKey block with
      | Some k => guard_err (key_ok k) (InvalidKey k)
      | None => Ok tt
      end;
  _ ← match hStatus block with
      | Some s => guard_err ((400 <=? s) && (s <=? 599))%Z StatusOutOfRange
      | None => Ok tt
      end;
  Ok (mkDocument (hRequests block) window (hBurst block) (hKey block) (hStatus block)).
End parse.

(** A later document overrides the attributes it sets. *)
Definition override {A} (old new : option A) : option A :=
  match new with Some _ => new | None => old end.

Definition merge_document (merged doc : Document) : Document :=
  mkDocument (override (dRequests merged) (dRequests doc)) (override (dWindow merged) (dWindow doc))
    (override (dBurst merged) (dBurst doc)) (override (dKey merged) (dKey doc))
    (override (dStatus merged) (dStatus doc)).

Definition emptyDocument : Document := mkDocument None None None None None.

(** [Duration.Milliseconds] truncates. *)
Definition Milliseconds (d : Z) : Z := Z.quot d 1000000.

Definition Merge (docs : list Document) : result ParseError compiled.RateLimit :=
  let merged := fold_left merge_document docs emptyDocument in
  match dRequests merged, dWindow merged with
  | Some requests, Some window =>
      Ok (compiled.mkRateLimit requests (Milliseconds window) (default requests (dBurst merged))
            (default "client_ip" (dKey merged)) (default 429%Z (dStatus merged)))
  | _, _ => Err Incomplete
  end.

(** ** Token buckets *)

Class FloatOps (F : Type) := {
  f_of_Z : Z → F;
  f_add : F → F → F;
  f_sub : F → F → F;
  f_mul : F → F → F;
  f_div : F → F → F;
  f_min : F → F → F;
  f_le : F → F → bool;
  f_trunc : F → Z;      (** conversion to [time.Duration] *)
}.

Definition sweepEvery : Z := 256.

Section limiter.
Context {F : Type} `{!FloatOps F}.

Record bucket := mkBucket { bTokens : F; bLast : Z }.

Record Limiter := mkLimiter {
  lRequests : F;
  lWindow : Z;
  lBurst : F;
  lKey : string;
  lStatus : Z;
  lOps : Z;
  lBuckets : gmap string bucket;
}.

Definition NewLimiter (config : compiled.RateLimit) : Limiter :=
  mkLimiter (f_of_Z (compiled.rlRequests config)) (int64_wrap (compiled.rlWindowMillis config * 1000000))
    (f_of_Z (compiled.rlBurst config)) (compiled.rlKey config) (compiled.rlStatus config) 0 ∅.

Definition Status (l : Limiter) : Z := lStatus l.

Definition KeyFor (l : Limiter) (r : Request) (clientIP : string) : string :=
  match cutPrefix (lKey l) "header:" with
  | Some name => hGet (rqHeader r) name
  | None => clientIP
  end.

(** [Time.Sub] saturates. *)
Definition time_sub (a b : Z) : Z := Z.max (-(2 ^ 63)) (Z.min (2 ^ 63 - 1) (a - b)).

(** Keep the buckets used at or after the horizon. *)
Definition sweep (l : Limiter) (now : Z) : gmap string bucket :=
  let horizon := (now + int64_wrap (-2 * lWindow l))%Z in
  filter (λ kv, ¬ (bLast kv.2 < horizon)%Z) (lBuckets l).

Definition rate (l : Limiter) : F := f_div (lRequests l) (f_of_Z (lWindow l)).

(** The bucket refilled to [now]. *)
Definition refill (l : Limiter) (now : Z) (b : bucket) : bucket :=
  let elapsed := time_sub now (bLast b) in
  mkBucket (if (0 <? elapsed)%Z
            then f_min (lBurst l) (f_add (bTokens b) (f_mul (f_of_Z elapsed) (rate l)))
            else bTokens b) now.

Definition take_token (l : Limiter) (b : bucket) : bool * Z * bucket :=
  if f_le (f_of_Z 1) (bTokens b) then (true, 0%Z, mkBucket (f_sub (bTokens b) (f_of_Z 1)) (bLast b))
  else (false, f_trunc (f_div (f_sub (f_of_Z 1) (bTokens b)) (rate l)), b).

Definition Allow (l : Limiter) (now : Z) (key : string) : bool * Z * Limiter :=
  let ops := int64_wrap (lOps l + 1) in
  let buckets := if (Z.rem ops sweepEvery =? 0)%Z then sweep l now else lBuckets l in
  let entry := default (mkBucket (lBurst l) now) (buckets !! key) in
  let '(ok, wait, entry) := take_token l (refill l now entry) in
  (ok, wait, mkLimiter (lRequests l) (lWindow l) (lBurst l) (lKey l) (lStatus l) ops
               (<[key := entry]> buckets)).

End limiter.
Arguments bucket : clear implicits.
Arguments Limiter : clear implicits.

(** ** Any monotone arithmetic *)

Class FloatLaws (F : Type) `{!FloatOps F} := {
  fle_refl (x : F) : f_le x x = true;
  fle_trans (x y z : F) : f_le x y = true → f_le y z = true → f_le x z = true;
  fof_mono a b : (a ≤ b)%Z → f_le (f_of_Z a) (f_of_Z b) = true;
  fmin_l (x y : F) : f_le (f_min x y) x = true;
  fmin_glb (x y z : F) : f_le z x = true → f_le z y = true → f_le z (f_min x y) = true;
  fadd_nonneg (x y : F) : f_le (f_of_Z 0) x = true → f_le (f_of_Z 0) y = true →
    f_le (f_of_Z 0) (f_add x y) = true;
  fmul_nonneg (x y : F) : f_le (f_of_Z 0) x = true → f_le (f_of_Z 0) y = true →
    f_le (f_of_Z 0) (f_mul x y) = true;
  fdiv_nonneg (x : F) w : f_le (f_of_Z 0) x = true → (0 < w)%Z →
    f_le (f_of_Z 0) (f_div x (f_of_Z w)) = true;
  fsub_one_nonneg (x : F) : f_le (f_of_Z 1) x = true → f_le (f_of_Z 0) (f_sub x (f_of_Z 1)) = true;
  fsub_one_le (x : F) : f_le (f_of_Z 1) x = true → f_le (f_sub x (f_of_Z 1)) x = true;
}.

Section bounded.
Context {F : Type} `{!FloatOps F, !FloatLaws F}.

(** A bucket never holds less than nothing or more than the burst. *)
Definition in_bounds (l : Limiter F) (b : bucket F) : Prop :=
  f_le (f_of_Z 0) (bTokens b) = true ∧ f_le (bTokens b) (lBurst l) = true.

Record limiter_ok (l : Limiter F) : Prop := {
  lo_requests : f_le (f_of_Z 0) (lRequests l) = true;
  lo_window : (0 < lWindow l)%Z;
  lo_burst : f_le (f_of_Z 0) (lBurst l) = true;
  lo_buckets : map_Forall (λ _, in_bounds l) (lBuckets l);
}.

Lemma refill_bounds l now b :
  limiter_ok l → in_bounds l b → in_bounds l (refill l now b).
Proof using All.
  intros [Hr Hw Hb _] [H1 H2]. unfold in_bounds, refill. simpl.
  destruct (Z.ltb_spec 0 (time_sub now (bLast b))); [|done]. split; [|apply fmin_l].
  apply fmin_glb; [done|]. apply fadd_nonneg; [done|].
  apply fmul_nonneg; [apply fof_mono; lia|]. by apply fdiv_nonneg.
Qed.

Lemma take_token_bounds l b ok wait b' :
  in_bounds l b → take_token l b = (ok, wait, b') → in_bounds l b'.
Proof using All.
  unfold take_token, in_bounds. intros [H1 H2].
  destruct (f_le (f_of_Z 1) (bTokens b)) eqn:E; intros [= <- <- <-]; [|done]. simpl.
  split; [by apply fsub_one_nonneg|]. eapply fle_trans; [by apply fsub_one_le|done].
Qed.

Lemma Allow_ok l now key ok wait l' :
  limiter_ok l → Allow l now key = (ok, wait, l') → limiter_ok l'.
Proof using All.
  intros Hl. unfold Allow.
  set (buckets := if (_ =? 0)%Z then sweep l now else lBuckets l).
  assert (map_Forall (λ _, in_bounds l) buckets) as Hb.
  { unfold buckets, sweep. destruct (_ =? 0)%Z; [|apply Hl].
    intros k b [Hk _]%map_lookup_filter_Some. by apply (lo_buckets l Hl k). }
  assert (in_bounds l (default (mkBucket (lBurst l) now) (buckets !! key))) as He.
  { destruct (buckets !! key) as [b|] eqn:Hk; simpl; [by apply (Hb key)|].
    split; [apply Hl|apply fle_refl]. }
  apply (refill_bounds l now _ Hl) in He.
  destruct (take_token l _) as [[ok' wait'] entry] eqn:Ht. intros [= <- <- <-].
  destruct Hl. split; simpl; [done|done|done|]. apply map_Forall_insert_2; [|done].
  by apply (take_token_bounds _ _ _ _ _ He Ht).
Qed.

(** A run of the limiter: the calls and their outcomes. *)
Fixpoint run (l : Limiter F) (calls : list (Z * string)) : list bool * Limiter F :=
  match calls with
  | [] => ([], l)
  | (now, key) :: calls =>
      let '(ok, _, l) := Allow l now key in
      let '(oks, l) := run l calls in (ok :: oks, l)
  end.

Lemma run_ok l calls oks l' : limiter_ok l → run l calls = (oks, l') → limiter_ok l'.
Proof using All.
  revert l oks. induction calls as [|[now key] calls IH]; intros l oks Hl; simpl.
  { by intros [= _ <-]. }
  destruct (Allow l now key) as [[ok wait] l1] eqn:Ha.
  destruct (run l1 calls) as [oks1 l2] eqn:Hr. intros [= _ <-].
  eapply IH; [|exact Hr]. by eapply Allow_ok.
Qed.

End bounded.

(** ** Exact arithmetic *)

#[global] Instance Q_ops : FloatOps Q := {
  f_of_Z := inject_Z;
  f_add := Qplus;
  f_sub := Qminus;
  f_mul := Qmult;
  f_div := Qdiv;
  f_min := Qmin;
  f_le := Qle_bool;
  f_trunc q := Z.quot (Qnum q) (Zpos (Qden q));
}.

#[global] Instance Q_laws : FloatLaws Q.
Proof.
  split; simpl; intros *; rewrite ?Qle_bool_iff.
  - apply Qle_refl.
  - apply Qle_trans.
  - intros. by rewrite <-Zle_Qle.
  - apply Q.le_min_l.
  - apply Q.min_glb.
  - change (inject_Z 0) with 0%Q. lra.
  - change (inject_Z 0) with 0%Q. apply Qmult_le_0_compat.
  - change (inject_Z 0) with 0%Q. intros Hx Hw. apply Qle_shift_div_l; [|lra].
    change 0%Q with (inject_Z 0). by rewrite <-Zlt_Qlt.
  - change (inject_Z 0) with 0%Q. change (inject_Z 1) with 1%Q. lra.
  - change (inject_Z 1) with 1%Q. lra.
Qed.

(** ** The rate bound *)

#[local] Open Scope Q_scope.

Definition ztoq : Z → Q := inject_Z.
Coercion ztoq : Z >-> Q.

(** The tokens a key could use at time [now]. *)
Definition avail (l : Limiter Q) (now : Z) (key : string) : Q :=
  match lBuckets l !! key with
  | None => lBurst l
  | Some b => if (bLast b <? now)%Z
              then Qmin (lBurst l) (bTokens b + ztoq (now - bLast b) * rate l)
              else bTokens b
  end.

(** A limiter whose parameters and clock stay in range, and whose burst
    refills within the two windows a bucket must be idle to be swept. *)
Record clocked (l : Limiter Q) (now : Z) : Prop := {
  ck_window : (0 < lWindow l < 2 ^ 61)%Z;
  ck_requests : 0 <= lRequests l;
  ck_burst : 0 <= lBurst l <= 2 * lRequests l;
  ck_buckets : map_Forall (λ _ b, 0 <= bTokens b <= lBurst l ∧ (0 ≤ bLast b ≤ now)%Z) (lBuckets l);
}.

Lemma rate_window l now : clocked l now → 0 <= rate l ∧ rate l * ztoq (lWindow l) == lRequests l.
Proof.
  intros [Hw Hr _ _]. unfold rate, f_div, f_of_Z, ztoq. simpl.
  assert (0 < inject_Z (lWindow l)) by (change 0 with (inject_Z 0); rewrite <-Zlt_Qlt; lia).
  split; [apply Qle_shift_div_l; lra|]. field. lra.
Qed.

Lemma rate_mult_mono l now (a b : Z) :
  clocked l now → (a ≤ b)%Z → ztoq a * rate l <= ztoq b * rate l.
Proof.
  intros Hc Hab. destruct (rate_window l now Hc) as [Hr _].
  apply Qmult_le_compat_r; [|done]. unfold ztoq. by rewrite <-Zle_Qle.
Qed.

Lemma avail_range l now key : clocked l now → 0 <= avail l now key <= lBurst l.
Proof.
  intros Hc. unfold avail. destruct (lBuckets l !! key) as [b|] eqn:Hk; [|destruct Hc; lra].
  destruct (ck_buckets l now Hc key b Hk) as [Ht Hl]. destruct (Z.ltb_spec (bLast b) now); [|lra].
  destruct (rate_window l now Hc) as [Hr _].
  assert (0 <= ztoq (now - bLast b) * rate l).
  { apply Qmult_le_0_compat; [|done]. unfold ztoq. change 0 with (inject_Z 0). rewrite <-Zle_Qle. lia. }
  pose proof (Q.le_min_l (lBurst l) (bTokens b + ztoq (now - bLast b) * rate l)).
  split; [|done]. apply Q.min_glb; [destruct Hc; lra|lra].
Qed.

(** Waiting [d] earns at most [d] times the rate. *)
Lemma avail_grows l now (now' : Z) key :
  clocked l now → (now ≤ now')%Z →
  avail l now' key <= avail l now key + ztoq (now' - now) * rate l.
Proof.
  intros Hc Hle. pose proof (rate_mult_mono l now 0 (now' - now) Hc ltac:(lia)) as Hpos.
  change (ztoq 0) with 0 in Hpos. rewrite Qmult_0_l in Hpos.
  unfold avail. destruct (lBuckets l !! key) as [b|] eqn:Hk; [|lra].
  destruct (ck_buckets l now Hc key b Hk) as [Ht Hl].
  assert (ztoq (now' - bLast b) * rate l == ztoq (now' - now) * rate l + ztoq (now - bLast b) * rate l) as Hsum.
  { unfold ztoq. replace (now' - bLast b)%Z with ((now' - now) + (now - bLast b))%Z by lia.
    rewrite inject_Z_plus. ring. }
  destruct (Z.ltb_spec (bLast b) now'), (Z.ltb_spec (bLast b) now); [|..|lra]; try lia.
  - rewrite Hsum. set (x := bTokens b) in *. set (e := ztoq (now' - now) * rate l) in *.
    set (y := ztoq (now - bLast b) * rate l).
    destruct (Q.min_spec (lBurst l) (x + y)) as [[? ->]|[? ->]].
    + pose proof (Q.le_min_l (lBurst l) (x + (e + y))). lra.
    + pose proof (Q.le_min_r (lBurst l) (x + (e + y))). lra.
  - replace (bLast b) with now in * by lia.
    pose proof (Q.le_min_r (lBurst l) (bTokens b + ztoq (now' - now) * rate l)). lra.
Qed.

(** A bucket idle for two windows is full. *)
Lemma idle_full l (last now : Z) t :
  clocked l now → 0 <= t → (last < now - 2 * lWindow l)%Z →
  lBurst l <= t + ztoq (now - last) * rate l.
Proof.
  intros Hc Ht Hidle. destruct (rate_window l now Hc) as [Hr Heq].
  pose proof (rate_mult_mono l now (2 * lWindow l) (now - last) Hc ltac:(lia)) as Hm.
  assert (ztoq (2 * lWindow l) * rate l == 2 * lRequests l) as H2.
  { rewrite <-Heq. unfold ztoq. rewrite inject_Z_mult. change (inject_Z 2) with 2. ring. }
  destruct Hc as [_ _ Hb _]. lra.
Qed.

Definition set_buckets (l : Limiter Q) (bs : gmap string (bucket Q)) : Limiter Q :=
  mkLimiter (lRequests l) (lWindow l) (lBurst l) (lKey l) (lStatus l) (lOps l) bs.

(** Sweeping changes no availability. *)
Lemma sweep_avail l now key :
  clocked l now → avail (set_buckets l (sweep l now)) now key == avail l now key.
Proof.
  intros Hc. unfold avail, set_buckets, sweep. simpl.
  rewrite int64_wrap_id by (destruct Hc; lia).
  rewrite map_lookup_filter. destruct (lBuckets l !! key) as [b|] eqn:Hk; simpl; [|lra].
  case_guard as Hg; simpl; [apply Qeq_refl|].
  destruct (ck_buckets l now Hc key b Hk) as [Ht Hl].
  assert (bLast b < now - 2 * lWindow l)%Z as Hidle by (simpl in Hg; lia).
  destruct (Z.ltb_spec (bLast b) now); [|destruct Hc; lia].
  symmetry. apply Q.min_l. apply (idle_full l (bLast b) now); [done|lra|done].
Qed.

Lemma clocked_sweep l now : clocked l now → clocked (set_buckets l (sweep l now)) now.
Proof.
  intros [H1 H2 H3 H4]. split; try done. simpl.
  intros k b [Hk _]%map_lookup_filter_Some. by apply (H4 k).
Qed.

Lemma clocked_later l now now' : clocked l now → (now ≤ now')%Z → clocked l now'.
Proof.
  intros [H1 H2 H3 H4] Hle. split; try done.
  intros k b Hk. destruct (H4 k b Hk). split; [done|lia].
Qed.

(** The refilled entry holds what was available. *)
Lemma refill_entry l now key :
  clocked l now → (0 ≤ now < 2 ^ 62)%Z →
  let entry := refill l now (default (mkBucket (lBurst l) now) (lBuckets l !! key)) in
  bTokens entry = avail l now key ∧ bLast entry = now.
Proof.
  intros Hc Hn. split; [|done]. unfold avail, refill. simpl.
  destruct (lBuckets l !! key) as [b|] eqn:Hk; simpl.
  - destruct (ck_buckets l now Hc key b Hk) as [_ Hl].
    replace (time_sub now (bLast b)) with (now - bLast b)%Z by (unfold time_sub; lia).
    destruct (Z.ltb_spec 0 (now - bLast b)), (Z.ltb_spec (bLast b) now); done || lia.
  - replace (time_sub now now) with 0%Z by (unfold time_sub; lia). done.
Qed.

(** One call: the key pays for an accepted request, others pay nothing. *)
Lemma Allow_avail l now key ok wait l' k :
  clocked l now → (0 ≤ now < 2 ^ 62)%Z → Allow l now key = (ok, wait, l') →
  clocked l' now ∧ rate l' = rate l ∧ lBurst l' = lBurst l ∧
  avail l' now k == avail l now k - (if decide (k = key ∧ ok = true) then 1 else 0).
Proof.
  intros Hc Hn. unfold Allow.
  set (buckets := if (_ =? 0)%Z then sweep l now else lBuckets l).
  set (l1 := set_buckets l buckets).
  assert (clocked l1 now ∧ ∀ k, avail l1 now k == avail l now k) as [Hc1 Hav].
  { unfold l1, buckets. destruct (_ =? 0)%Z; [|by destruct l].
    split; [by apply clocked_sweep|intros; by apply sweep_avail]. }
  destruct (refill_entry l1 now key Hc1 Hn) as [Htok Hlast].
  change (refill l1 now (default (mkBucket (lBurst l1) now) (lBuckets l1 !! key)))
    with (refill l now (default (mkBucket (lBurst l) now) (buckets !! key))) in Htok, Hlast.
  set (entry := refill l now _) in *.
  pose proof (avail_range l1 now key Hc1) as Hrange. rewrite <-Htok in Hrange. clearbody entry.
  destruct (take_token l entry) as [[ok' wait'] entry'] eqn:Ht. intros [= <- <- <-].
  assert (bLast entry' = now ∧ 0 <= bTokens entry' ∧
    bTokens entry' == bTokens entry - (if ok' then 1 else 0)) as (Hl' & Hnn & Hpay).
  { unfold take_token in Ht. destruct (f_le (f_of_Z 1) (bTokens entry)) eqn:E; simplify_eq; simpl.
    - apply Qle_bool_iff in E. change (1 <= bTokens entry) in E.
      change (inject_Z 1) with 1. split; [done|]. split; lra.
    - split; [done|]. split; lra. }
  assert (bTokens entry' <= lBurst l) as Hle.
  { change (lBurst l) with (lBurst l1). destruct ok'; lra. }
  split; [|split; [done|split; [done|]]].
  - destruct Hc1 as [C1 C2 C3 C4]. split; try done. simpl. apply map_Forall_insert_2; [|done].
    rewrite Hl'. split; [done|lia].
  - rewrite <-Hav. unfold avail at 1. simpl. rewrite lookup_insert. case_decide as Hk.
    + subst k. rewrite Hl', Z.ltb_irrefl, Hpay, Htok. destruct ok'; by case_decide; naive_solver lra.
    + rewrite decide_False by naive_solver. change (rate (mkLimiter _ _ _ _ _ _ _)) with (rate l1).
      unfold avail. simpl. destruct (buckets !! k); lra.
Qed.

(** Accepted requests of a key in a run. *)
Definition accepted (calls : list (Z * string)) (oks : list bool) (key : string) : Q :=
  ztoq (Z.of_nat (length (filter (λ c, c.1.2 = key ∧ c.2 = true) (zip calls oks)))).

(** Calls in time order within an interval. *)
Fixpoint timed (t0 t1 : Z) (calls : list (Z * string)) : Prop :=
  match calls with
  | [] => (t0 ≤ t1)%Z
  | (t, _) :: calls => (t0 ≤ t ≤ t1)%Z ∧ timed t t1 calls
  end.

Lemma timed_le t0 t1 calls : timed t0 t1 calls → (t0 ≤ t1)%Z.
Proof. revert t0. induction calls as [|[t k] calls IH]; simpl; intros t0; [done|]. lia. Qed.

Lemma run_bound calls t0 t1 l oks l' key :
  clocked l t0 → (0 ≤ t0)%Z → (t1 < 2 ^ 62)%Z → timed t0 t1 calls → run l calls = (oks, l') →
  accepted calls oks key <= avail l t0 key + ztoq (t1 - t0) * rate l.
Proof.
  revert t0 l oks. induction calls as [|[t k] calls IH]; intros t0 l oks Hc H0 H1 Ht; cbn [run].
  - intros [= <- <-]. simpl in Ht. pose proof (avail_range l t0 key Hc).
    pose proof (rate_mult_mono l t0 0 (t1 - t0) Hc ltac:(lia)) as Hm.
    change (ztoq 0) with 0 in Hm. rewrite Qmult_0_l in Hm.
    assert (accepted [] [] key == 0) as -> by reflexivity. lra.
  - destruct Ht as [Ht Htimed].
    destruct (Allow l t k) as [[ok wait] l1] eqn:Ha.
    destruct (run l1 calls) as [oks1 l2] eqn:Hr. intros [= <- <-].
    destruct (Allow_avail l t k ok wait l1 key) as (Hc1 & Hrate & _ & Hav);
      [apply (clocked_later l t0); [done|lia]|lia|done|].
    pose proof (IH t l1 oks1 Hc1 ltac:(lia) H1 Htimed Hr) as Hrec. rewrite Hrate in Hrec.
    pose proof (avail_grows l t0 t key Hc ltac:(lia)) as Hg.
    assert (ztoq (t1 - t0) * rate l == ztoq (t - t0) * rate l + ztoq (t1 - t) * rate l) as Hsum.
    { unfold ztoq. replace (t1 - t0)%Z with ((t - t0) + (t1 - t))%Z by lia. rewrite inject_Z_plus. ring. }
    assert (accepted ((t, k) :: calls) (ok :: oks1) key ==
      (if decide (key = k ∧ ok = true) then 1 else 0) + accepted calls oks1 key) as Hcount.
    { unfold accepted. cbn [zip zip_with]. rewrite filter_cons. cbn [fst snd].
      destruct (decide (key = k ∧ ok = true)) as [[-> ->]|Hn].
      - rewrite decide_True by done. cbn [length]. unfold ztoq.
        rewrite Nat2Z.inj_succ. unfold Z.succ. rewrite inject_Z_plus. change (inject_Z 1) with 1. ring.
      - rewrite decide_False by naive_solver. ring. }
    rewrite Hcount, Hsum. lra.
Qed.

#[local] Close Scope Q_scope.

(** ** Documents, continued *)

(** What [Parse] guarantees of every attribute. *)
Record doc_ok (d : Document) : Prop := {
  do_requests : ∀ v, dRequests d = Some v → (0 < v)%Z;
  do_window : ∀ v, dWindow d = Some v → (0 < v)%Z;
  do_burst : ∀ v, dBurst d = Some v → (0 < v)%Z;
  do_key : ∀ k, dKey d = Some k → key_ok k = true;
  do_status : ∀ v, dStatus d = Some v → (400 ≤ v ≤ 599)%Z;
}.

Lemma parse_window_pos pd w d :
  parse_window pd w = Ok d → ∀ v, d = Some v → (0 < v)%Z.
Proof.
  unfold parse_window. destruct w as [text|]; [|by intros [= <-]].
  destruct (pd text) as [n|]; [|done]. destruct (Z.ltb_spec 0 n); [|done].
  intros [= <-] v [= <-]. done.
Qed.

Lemma Parse_ok decode pd src d : Parse decode pd src = Ok d → doc_ok d.
Proof.
  unfold Parse. intros (raw & _ & (? & _ & (block & _ & H)%bind_Ok)%bind_Ok)%bind_Ok.
  apply bind_Ok in H as (? & Hr%guard_err_Ok & H). apply bind_Ok in H as (window & Hw & H).
  apply bind_Ok in H as (? & Hb%guard_err_Ok & H). apply bind_Ok in H as (? & Hk & H).
  apply bind_Ok in H as (? & Hs & [= <-]). unfold positive_if_set in *. split; simpl.
  - intros v E. rewrite E in Hr. by apply Z.ltb_lt.
  - by eapply parse_window_pos.
  - intros v E. rewrite E in Hb. by apply Z.ltb_lt.
  - intros k E. rewrite E in Hk. by apply guard_err_Ok in Hk.
  - intros v E. rewrite E in Hs. apply guard_err_Ok, andb_true_iff in Hs as [? ?]. bool_to_prop. lia.
Qed.

(** The last document that sets an attribute decides it. *)
Lemma override_last {A} (f : Document → option A) (docs : list Document) d :
  (∀ m x, f (merge_document m x) = override (f m) (f x)) →
  f (fold_left merge_document docs d) = override (f d) (list.last (omap f docs)).
Proof.
  intros Hf. revert d. induction docs as [|x docs IH] using rev_ind; intros d; [done|].
  rewrite fold_left_app. simpl. rewrite Hf, IH, omap_app. simpl.
  destruct (f x); simpl; [by rewrite last_snoc|by rewrite app_nil_r].
Qed.

Lemma merged_last {A} (f : Document → option A) (docs : list Document) :
  (∀ m x, f (merge_document m x) = override (f m) (f x)) → f emptyDocument = None →
  f (fold_left merge_document docs emptyDocument) = list.last (omap f docs).
Proof. intros Hf H0. rewrite override_last, H0 by done. by destruct (list.last _). Qed.

Lemma last_set_ok {A} (f : Document → option A) (P : A → Prop) docs v :
  Forall (λ d, ∀ v, f d = Some v → P v) docs → list.last (omap f docs) = Some v → P v.
Proof.
  intros H Hl. apply last_Some in Hl as [pre Hl].
  assert (v ∈ omap f docs) as Hin by (rewrite Hl; apply elem_of_app; right; left).
  apply list_elem_of_omap in Hin as (d & Hd & Hv). rewrite Forall_forall in H.
  apply (H d); [by apply list_elem_of_In|done].
Qed.

Lemma Merge_last docs cfg :
  Merge docs = Ok cfg →
  list.last (omap dRequests docs) = Some (compiled.rlRequests cfg) ∧
  compiled.rlBurst cfg = default (compiled.rlRequests cfg) (list.last (omap dBurst docs)) ∧
  compiled.rlKey cfg = default "client_ip" (list.last (omap dKey docs)) ∧
  compiled.rlStatus cfg = default 429%Z (list.last (omap dStatus docs)) ∧
  ∃ w, list.last (omap dWindow docs) = Some w ∧ compiled.rlWindowMillis cfg = Milliseconds w.
Proof.
  unfold Merge.
  rewrite (merged_last dRequests), (merged_last dWindow), (merged_last dBurst),
    (merged_last dKey), (merged_last dStatus) by done.
  destruct (list.last (omap dRequests docs)); [|done]. destruct (list.last (omap dWindow docs)); [|done].
  intros [= <-]. simpl. eauto 10.
Qed.

(** ** Properties *)

(** Merging rate limit documents takes for each setting the last document that
    sets it, the documented default otherwise, and yields positive counts, a
    status of 400 to 599 and a known key. *)
Theorem merged_config docs cfg :
  Forall doc_ok docs → Merge docs = Ok cfg →
  (list.last (omap dRequests docs) = Some (compiled.rlRequests cfg) ∧
   compiled.rlBurst cfg = default (compiled.rlRequests cfg) (list.last (omap dBurst docs)) ∧
   compiled.rlKey cfg = default "client_ip" (list.last (omap dKey docs)) ∧
   compiled.rlStatus cfg = default 429%Z (list.last (omap dStatus docs)) ∧
   ∃ w, list.last (omap dWindow docs) = Some w ∧ compiled.rlWindowMillis cfg = Milliseconds w) ∧
  (0 < compiled.rlRequests cfg)%Z ∧ (0 < compiled.rlBurst cfg)%Z ∧
  (400 ≤ compiled.rlStatus cfg ≤ 599)%Z ∧ key_ok (compiled.rlKey cfg) = true.
Proof.
  intros Hok. unfold Merge.
  rewrite (merged_last dRequests), (merged_last dWindow), (merged_last dBurst),
    (merged_last dKey), (merged_last dStatus) by done.
  destruct (list.last (omap dRequests docs)) as [req|] eqn:Hr; [|done].
  destruct (list.last (omap dWindow docs)) as [w|] eqn:Hw; [|done]. intros [= <-]. simpl.
  assert (0 < req)%Z as Hreq.
  { eapply (last_set_ok dRequests); [|exact Hr]. eapply Forall_impl; [|exact Hok]. by intros d []. }
  split; [split_and!; [done|done|done|done|]; eauto|]. split; [done|]. split_and!.
  - destruct (list.last (omap dBurst docs)) as [b|] eqn:Hb; [|done]. simpl.
    eapply (last_set_ok dBurst (λ b, (0 < b)%Z)); [|exact Hb]. eapply Forall_impl; [|exact Hok]. by intros d [].
  - destruct (list.last (omap dStatus docs)) as [b|] eqn:Hb; [|simpl; lia]. simpl.
    eapply (last_set_ok dStatus (λ b, (400 ≤ b ≤ 599)%Z)); [|exact Hb].
    eapply Forall_impl; [|exact Hok]. by intros d [].
  - destruct (list.last (omap dStatus docs)) as [b|] eqn:Hb; [|simpl; lia]. simpl.
    eapply (last_set_ok dStatus (λ b, (400 ≤ b ≤ 599)%Z)); [|exact Hb].
    eapply Forall_impl; [|exact Hok]. by intros d [].
  - destruct (list.last (omap dKey docs)) as [k|] eqn:Hk; [|done]. simpl.
    eapply (last_set_ok dKey (λ k, key_ok k = true)); [|exact Hk]. eapply Forall_impl; [|exact Hok]. by intros d [].
Qed.

(** Tokens stay between zero and the burst in any monotone arithmetic. *)
Theorem tokens_bounded {F} `{!FloatOps F, !FloatLaws F} cfg calls oks l' :
  (0 ≤ compiled.rlRequests cfg)%Z → (0 ≤ compiled.rlBurst cfg)%Z →
  (0 < int64_wrap (compiled.rlWindowMillis cfg * 1000000))%Z →
  run (NewLimiter (F := F) cfg) calls = (oks, l') →
  map_Forall (λ _ b, f_le (f_of_Z 0) (bTokens b) = true ∧
                     f_le (bTokens b) (f_of_Z (compiled.rlBurst cfg)) = true) (lBuckets l').
Proof.
  intros Hr Hb Hw Hrun.
  assert (limiter_ok (NewLimiter (F := F) cfg)) as Hl.
  { split; simpl; [by apply fof_mono|done|by apply fof_mono|apply map_Forall_empty]. }
  assert (∀ l calls oks l', run l calls = (oks, l') → lBurst l' = lBurst l) as Hburst.
  { clear. intros l calls. revert l. induction calls as [|[now key] calls IH]; intros l oks l'; simpl.
    - by intros [= _ <-].
    - destruct (Allow l now key) as [[ok wait] l1] eqn:Ha. destruct (run l1 calls) as [oks1 l2] eqn:Hr.
      intros [= _ <-]. rewrite (IH _ _ _ Hr). unfold Allow in Ha.
      destruct (take_token _ _) as [[? ?] ?]. by simplify_eq/=. }
  pose proof (run_ok _ _ _ _ Hl Hrun) as [_ _ _ Hall]. intros k b Hk.
  destruct (Hall k b Hk) as [H1 H2]. rewrite (Hburst _ _ _ _ Hrun) in H2. done.
Qed.

#[local] Open Scope Q_scope.

(** A limiter in use: its clock and its parameters are those of the
    configuration. *)
Lemma run_clocked calls t0 t1 l oks l' :
  clocked l t0 → (0 ≤ t0)%Z → (t1 < 2 ^ 62)%Z → timed t0 t1 calls → run l calls = (oks, l') →
  clocked l' t1 ∧ rate l' = rate l ∧ lBurst l' = lBurst l.
Proof.
  revert t0 l oks. induction calls as [|[t k] calls IH]; intros t0 l oks Hc H0 H1 Ht; cbn [run].
  - intros [= <- <-]. simpl in Ht. by split; [apply (clocked_later l t0)|].
  - destruct Ht as [Ht Htimed]. destruct (Allow l t k) as [[ok wait] l1] eqn:Ha.
    destruct (run l1 calls) as [oks1 l2] eqn:Hr. intros [= <- <-].
    destruct (Allow_avail l t k ok wait l1 k) as (Hc1 & Hrate & Hburst & _);
      [apply (clocked_later l t0); [done|lia]|lia|done|].
    rewrite <-Hrate, <-Hburst. apply (IH t l1 oks1 Hc1); [lia|done..].
Qed.

(** C35: In exact arithmetic, between any two instants of a limiter's life a
    client is let through at most burst plus rate times elapsed requests,
    whatever happened before, whatever other clients do and through every sweep,
    for a burst of at most twice the requests of a window, a window between a
    millisecond and 2^40 milliseconds, and calls that take the lock in the order
    in which they read the clock (out of that order the bound fails, which is
    proved separately). *)
Theorem rate_limit_enforced cfg start earlier t0 calls t1 oks0 l oks l' key :
  (0 < compiled.rlWindowMillis cfg < 2 ^ 40)%Z → (0 ≤ compiled.rlRequests cfg)%Z →
  (0 ≤ compiled.rlBurst cfg ≤ 2 * compiled.rlRequests cfg)%Z →
  (0 ≤ start)%Z → (t1 < 2 ^ 62)%Z → timed start t0 earlier → timed t0 t1 calls →
  run (NewLimiter (F := Q) cfg) earlier = (oks0, l) → run l calls = (oks, l') →
  accepted calls oks key <=
    inject_Z (compiled.rlBurst cfg) +
    inject_Z (t1 - t0) * (inject_Z (compiled.rlRequests cfg) /
                          inject_Z (compiled.rlWindowMillis cfg * 1000000)).
Proof.
  intros Hw Hr Hb Hs H1 Hte Ht Hearlier Hrun.
  assert (int64_wrap (compiled.rlWindowMillis cfg * 1000000) = compiled.rlWindowMillis cfg * 1000000)%Z
    as Hwrap by (apply int64_wrap_id; lia).
  assert (clocked (NewLimiter (F := Q) cfg) start) as Hc.
  { split; simpl.
    - rewrite Hwrap. lia.
    - change 0 with (inject_Z 0). rewrite <-Zle_Qle. done.
    - change 0 with (inject_Z 0). change 2 with (inject_Z 2). rewrite <-inject_Z_mult, <-!Zle_Qle. done.
    - apply map_Forall_empty. }
  pose proof (timed_le _ _ _ Hte). pose proof (timed_le _ _ _ Ht).
  destruct (run_clocked earlier start t0 _ oks0 l Hc Hs ltac:(lia) Hte Hearlier) as (Hcl & Hrate & Hburst).
  pose proof (run_bound calls t0 t1 l oks l' key Hcl ltac:(lia) H1 Ht Hrun) as Hbound.
  pose proof (avail_range l t0 key Hcl) as [_ Hav]. rewrite Hburst in Hav. rewrite Hrate in Hbound.
  unfold rate in Hbound. simpl in Hbound, Hav. rewrite Hwrap in Hbound.
  unfold ztoq in Hbound. lra.
Qed.

(** *** Concrete limiters *)

Definition ex_config (requests burst : Z) : compiled.RateLimit :=
  compiled.mkRateLimit requests 1000 burst "client_ip" 429.
Definition ex_calls : list (Z * string) := [(0, "a"); (0, "a"); (0, "a"); (600000000, "a")]%Z.

(** The burst is spent at once; half a window later one request has been earned
    and no more. *)
Definition ex_later : list (Z * string) := [(600000000, "a"); (600000000, "a")]%Z.

Lemma rate_limit_enforced_witness :
  (run (NewLimiter (F := Q) (ex_config 2 2)) (ex_calls ++ ex_later)).1 = [true; true; false; true; false; false] ∧
  accepted ex_later [false; false] "a" <=
    inject_Z 2 + inject_Z (1000000000 - 600000000) * (inject_Z 2 / inject_Z (1000 * 1000000)).
Proof.
  split; [vm_compute; reflexivity|].
  apply (rate_limit_enforced (ex_config 2 2) 0 ex_calls 600000000 ex_later 1000000000 [true; true; false; true]
    (run (NewLimiter (F := Q) (ex_config 2 2)) ex_calls).2 [false; false]
    (run (run (NewLimiter (F := Q) (ex_config 2 2)) ex_calls).2 ex_later).2 "a");
    [simpl; lia|simpl; lia|simpl; lia|lia|lia|vm_compute; repeat split; discriminate|
     vm_compute; repeat split; discriminate|vm_compute; reflexivity|vm_compute; reflexivity].
Defined.

Lemma tokens_bounded_witness :
  map_Forall (λ _ b, f_le (f_of_Z 0) (bTokens b) = true ∧ f_le (bTokens b) (f_of_Z 2) = true)
    (lBuckets (run (NewLimiter (F := Q) (ex_config 2 2)) ex_calls).2).
Proof.
  apply (tokens_bounded (F := Q) (ex_config 2 2) ex_calls
    (run (NewLimiter (F := Q) (ex_config 2 2)) ex_calls).1);
    [simpl; lia|simpl; lia|vm_compute; reflexivity|apply surjective_pairing].
Defined.

Definition ex_doc : Document := mkDocument (Some 5%Z) (Some 1000000000%Z) None None (Some 503%Z).

Lemma merged_config_witness :
  Merge [ex_doc; mkDocument (Some 7%Z) None None (Some "header:X-Key") None] =
    Ok (compiled.mkRateLimit 7 1000 7 "header:X-Key" 503) ∧
  key_ok "header:X-Key" = true.
Proof.
  split; [reflexivity|].
  apply (merged_config [ex_doc; mkDocument (Some 7%Z) None None (Some "header:X-Key") None]
    (compiled.mkRateLimit 7 1000 7 "header:X-Key" 503)); [|reflexivity].
  apply Forall_cons; [|apply Forall_cons; [|apply Forall_nil; exact I]];
    split; intros v E; simpl in E; simplify_eq; (lia || reflexivity).
Defined.

(** *** Findings *)

(** 245 requests of a second client reach the sweep at the 256th call. *)
Definition sweep_calls : list (Z * string) :=
  replicate 10 (0%Z, "a") ++ replicate 245 (1%Z, "b") ++ replicate 10 (2000000001%Z, "a").

(** With a burst above twice the requests of a window, forgetting an idle bucket
    lets a client exceed the limit. *)
Theorem sweep_grants_extra_capacity :
  ∃ cfg calls t1 oks l' key,
    (0 < compiled.rlRequests cfg)%Z ∧ (2 * compiled.rlRequests cfg < compiled.rlBurst cfg)%Z ∧
    timed 0 t1 calls ∧ run (NewLimiter (F := Q) cfg) calls = (oks, l') ∧
    inject_Z (compiled.rlBurst cfg) +
      inject_Z t1 * (inject_Z (compiled.rlRequests cfg) /
                     inject_Z (compiled.rlWindowMillis cfg * 1000000)) <
    accepted calls oks key.
Proof.
  exists (ex_config 1 10), sweep_calls, 2000000001%Z,
    (run (NewLimiter (F := Q) (ex_config 1 10)) sweep_calls).1,
    (run (NewLimiter (F := Q) (ex_config 1 10)) sweep_calls).2, "a".
  split; [reflexivity|]. split; [reflexivity|].
  split; [vm_compute; repeat split; discriminate|]. split; [apply surjective_pairing|].
  vm_compute. reflexivity.
Qed.

(** A request that read the clock before another and takes the lock after it
    turns the bucket's clock back, so the time in between is credited twice. *)
Definition stale_calls : list (Z * string) :=
  [(0, "a"); (1000000000, "a"); (0, "a"); (1000000000, "a")]%Z.

Theorem stale_clock_grants_extra_capacity :
  ∃ cfg oks l',
    (compiled.rlBurst cfg ≤ 2 * compiled.rlRequests cfg)%Z ∧
    Forall (λ c, 0 ≤ c.1 ≤ 1000000000)%Z stale_calls ∧
    run (NewLimiter (F := Q) cfg) stale_calls = (oks, l') ∧
    inject_Z (compiled.rlBurst cfg) +
      inject_Z 1000000000 * (inject_Z (compiled.rlRequests cfg) /
                             inject_Z (compiled.rlWindowMillis cfg * 1000000)) <
    accepted stale_calls oks "a".
Proof.
  exists (ex_config 1 1), (run (NewLimiter (F := Q) (ex_config 1 1)) stale_calls).1,
    (run (NewLimiter (F := Q) (ex_config 1 1)) stale_calls).2.
  split; [discriminate|]. split; [repeat constructor; discriminate|]. split; [apply surjective_pairing|].
  vm_compute. reflexivity.
Qed.

#[local] Close Scope Q_scope.

(** A window under a millisecond parses and merges to a window of zero. *)
Theorem short_window_vanishes :
  doc_ok (mkDocument (Some 5%Z) (Some 500000%Z) None None None) ∧
  Merge [mkDocument (Some 5%Z) (Some 500000%Z) None None None] =
    Ok (compiled.mkRateLimit 5 0 5 "client_ip" 429).
Proof. split; [split; intros v E; simpl in E; simplify_eq; lia|reflexivity]. Qed.

End ratelimiting.
