(* ===== verification/Filters.v ===== *)
(** * Filters of the request path

    Models the pure parts of [internal/lib/transports/http/proxy]: path
    rewriting, redirects, forwarding headers, header filters and body
    capture of [handler.go], the CORS filter of [cors.go], and the status
    responses of [internal/lib/transports/grpc/grpc.go].

    A proxied request is the pair [ProxyRequest] of [httputil]: the inbound
    request is read-only, filters edit the outbound one.  Go iterates over
    the header maps of a filter in any order; the model folds over the map in
    one order, which is every order when no two keys have one canonical
    form. *)

From S2P Require Import Prelude GoStrings Http NetIP ClientIP Compiled Tables Matching.
From stdpp Require Import options.

#[local] Open Scope nat_scope.
Import routing.

(** ** gRPC status responses *)

Module grpc.

Definition StatusPermissionDenied := "7".
Definition StatusResourceExhausted := "8".
Definition StatusUnimplemented := "12".
Definition StatusInternal := "13".
Definition StatusUnavailable := "14".
Definition StatusUnauthenticated := "16".

Definition WriteStatus (w : Response) (code message : string) : Response :=
  let h := hSet (rsHeader w) "Content-Type" "application/grpc" in
  let h := hSet h "Grpc-Status" code in
  let h := hSet h "Grpc-Message" message in
  writeHeader (rsSetHeader w h) 200.

Definition Unimplemented (w : Response) : Response := WriteStatus w StatusUnimplemented "no matching rule".
Definition Unavailable (w : Response) : Response := WriteStatus w StatusUnavailable "no ready endpoints".
Definition Internal (w : Response) : Response := WriteStatus w StatusInternal "invalid backend reference".

Definition StatusFromHeader (h : Header) : option string :=
  if (hGet h "Grpc-Status" != "") then Some (hGet h "Grpc-Status")
  else if (hGet h "Trailer:Grpc-Status" != "") then Some (hGet h "Trailer:Grpc-Status")
  else None.

End grpc.

Module filters.

(** ** Hosts and ports *)

Definition hostOnly (host : string) : string :=
  match splitHostPort host with Some (h, _) => h | None => host end.

(** [strconv.Atoi] then a conversion to [int32]. *)
Definition requestPort (r : Request) (withTLS : bool) : Z :=
  let fallback := if withTLS then 443%Z else 80%Z in
  match splitHostPort (rqHost r) with
  | Some (_, p) => match atoi p with Some port => int32_wrap port | None => fallback end
  | None => fallback
  end.

(** ** Paths *)

Definition rewrittenPath (path : string) (filter : compiled.Filter) : string :=
  if (compiled.fPathRewriteType filter == "ReplaceFullPath") then compiled.fPathRewriteValue filter
  else if (compiled.fPathRewriteType filter == "ReplacePrefixMatch") then
    let prefix := trimSuffix (compiled.fPathPrefix filter) "/" in
    let rest := trimPrefix path prefix in
    let replacement := if (compiled.fPathRewriteValue filter == "") then "/"
                       else compiled.fPathRewriteValue filter in
    if (rest == "") || (rest == "/") then replacement
    else trimSuffix replacement "/" +:+ rest
  else path.

(** ** Redirects *)

Definition upper_hex (v : Z) : ascii := if (v <? 10)%Z then byte_of (48 + v) else byte_of (55 + v).
Definition percent (c : ascii) : string :=
  String "%" (String (upper_hex (byte_val c / 16)) (String (upper_hex (byte_val c `mod` 16)) "")).
Definition unreserved (c : ascii) : bool :=
  is_digit c || is_upper c || is_lower c || has_byte c "-_.~".

(** [escape] of [net/url] in path and host mode. *)
Fixpoint escape (keep : ascii → bool) (s : string) : string :=
  match s with
  | EmptyString => ""
  | String c s => (if keep c then String c "" else percent c) +:+ escape keep s
  end.
Definition escape_path : string → string := escape (λ c, unreserved c || has_byte c "$&+,/:;=@").
Definition escape_host : string → string :=
  escape (λ c, unreserved c || has_byte c "!$&'()*+,;=:[]<>" || (c == "034"%char)).

(** [url.URL.String] for a URL with scheme, host, path and query. *)
Definition url_string (scheme host path rawQuery : string) : string :=
  scheme +:+ "://" +:+ escape_host host +:+
  (if (path != "") && negb (hasPrefix path "/") then "/" else "") +:+
  (if (path == "*") then "*" else escape_path path) +:+
  (if (rawQuery != "") then "?" +:+ rawQuery else "").

Record Location := mkLocation {
  loScheme : string;
  loHost : string;
  loPath : string;
  loRawQuery : string;
}.

Definition default_port (scheme : string) (port : Z) : bool :=
  ((scheme == "http") && (port =? 80)%Z) || ((scheme == "https") && (port =? 443)%Z).

Definition redirect_location (r : Request) (filter : compiled.Filter) (withTLS : bool) : Location :=
  let scheme := if (compiled.fScheme filter != "") then compiled.fScheme filter
                else if withTLS then "https" else "http" in
  let host := if (compiled.fHostname filter != "") then compiled.fHostname filter
              else hostOnly (rqHost r) in
  let port := if (compiled.fPort filter =? 0)%Z && (compiled.fScheme filter == "")
              then requestPort r withTLS else compiled.fPort filter in
  let host := if negb (port =? 0)%Z && negb (default_port scheme port)
              then host +:+ ":" +:+ pretty port else host in
  mkLocation scheme host (rewrittenPath (rqPath r) filter) (rqRawQuery r).

Definition redirect_status (filter : compiled.Filter) : Z :=
  if (compiled.fStatusCode filter =? 0)%Z then 302 else compiled.fStatusCode filter.

Definition quote : string := String "034" "".

(** [htmlEscape] of [net/http]. *)
Fixpoint htmlEscape (s : string) : string :=
  match s with
  | EmptyString => ""
  | String c s =>
      (if (c == "&"%char) then "&amp;"
       else if (c == "<"%char) then "&lt;"
       else if (c == ">"%char) then "&gt;"
       else if (c == "034"%char) then "&#34;"
       else if (c == "'"%char) then "&#39;"
       else String c "") +:+ htmlEscape s
  end.

(** [http.StatusText] of the redirect codes. *)
Definition statusText (code : Z) : string :=
  if (code =? 301)%Z then "Moved Permanently"
  else if (code =? 302)%Z then "Found"
  else if (code =? 303)%Z then "See Other"
  else if (code =? 307)%Z then "Temporary Redirect"
  else if (code =? 308)%Z then "Permanent Redirect"
  else "".

(** [http.Redirect] to an absolute URL: location, status, and a short page
    for GET unless a content type was set before. *)
Definition httpRedirect (w : Response) (r : Request) (location : string) (code : Z) : Response :=
  let hadCT := bool_decide (is_Some (rsHeader w !! "Content-Type")) in
  let h := hSet (rsHeader w) "Location" location in
  let page := (rqMethod r == "GET") || (rqMethod r == "HEAD") in
  let h := if negb hadCT && page then hSet h "Content-Type" "text/html; charset=utf-8" else h in
  let w := writeHeader (rsSetHeader w h) code in
  if negb hadCT && (rqMethod r == "GET") then 
    rsWrite w ("<a href=" +:+ quote +:+ htmlEscape location +:+ quote +:+ ">" +:+ statusText code +:+
               "</a>." +:+ newline +:+ newline)
  else w.

Definition serveRedirect (w : Response) (r : Request) (filter : compiled.Filter) (withTLS : bool) :
    Z * Response :=
  let l := redirect_location r filter withTLS in
  let status := redirect_status filter in
  (status, httpRedirect w r (url_string (loScheme l) (loHost l) (loPath l) (loRawQuery l)) status).

Definition redirectFilter (rule : RuleTable) : option compiled.Filter :=
  head (filter (λ f, compiled.fType f = compiled.FilterRequestRedirect) (ruFilters rule)).

(** ** Proxied requests *)

Record ProxyRequest := mkProxyRequest { prIn : Request; prOut : Request }.

Definition with_header (h : Header) (r : Request) : Request :=
  mkRequest (rqMethod r) (rqPath r) (rqRawQuery r) (rqHost r) h (rqRemoteAddr r) (rqTLS r)
    (rqBody r) (rqContentLength r).
Definition with_host (host : string) (r : Request) : Request :=
  mkRequest (rqMethod r) (rqPath r) (rqRawQuery r) host (rqHeader r) (rqRemoteAddr r) (rqTLS r)
    (rqBody r) (rqContentLength r).
Definition with_path (path : string) (r : Request) : Request :=
  mkRequest (rqMethod r) path (rqRawQuery r) (rqHost r) (rqHeader r) (rqRemoteAddr r) (rqTLS r)
    (rqBody r) (rqContentLength r).
Definition set_out (h : Header) (pr : ProxyRequest) : ProxyRequest :=
  mkProxyRequest (prIn pr) (with_header h (prOut pr)).

Definition peer_of (r : Request) : string :=
  match splitHostPort (rqRemoteAddr r) with Some (h, _) => h | None => rqRemoteAddr r end.

Definition set_unless_empty (h : Header) (key value : string) : Header :=
  if (value != "") then hSet h key value else h.
Definition set_if_unset (h : Header) (key value : string) : Header :=
  if (hGet h key == "") then hSet h key value else h.

Definition rewriteForwardingHeaders (pr : ProxyRequest) (withTLS trustedPeer : bool) : ProxyRequest :=
  let peer := peer_of (prIn pr) in
  let proto := if withTLS then "https" else "http" in
  let inh := rqHeader (prIn pr) in
  let received := joinWith ", " (hValues inh "X-Forwarded-For") in
  let chain := if trustedPeer && (received != "") then received +:+ ", " else "" in
  let h := rqHeader (prOut pr) in
  let h := if trustedPeer then
             let h := set_unless_empty h "X-Forwarded-Host" (hGet inh "X-Forwarded-Host") in
             let h := set_unless_empty h "X-Forwarded-Proto" (hGet inh "X-Forwarded-Proto") in
             set_unless_empty h "Forwarded" (joinWith ", " (hValues inh "Forwarded"))
           else h in
  let h := hSet h "X-Forwarded-For" (chain +:+ peer) in
  let h := set_if_unset h "X-Forwarded-Host" (hostOnly (rqHost (prIn pr))) in
  let h := set_if_unset h "X-Forwarded-Proto" proto in
  let h := set_if_unset h "Forwarded"
             ("for=" +:+ peer +:+ ";host=" +:+ hostOnly (rqHost (prIn pr)) +:+ ";proto=" +:+ proto) in
  set_out h pr.

(** The header edits shared by the request and response modifiers. *)
Definition modify_headers (f : compiled.Filter) (h : Header) : Header :=
  let h := fold_left (λ h kv, hSet h kv.1 kv.2) (map_to_list (compiled.fSetHeaders f)) h in
  let h := fold_left (λ h kv, hAdd h kv.1 kv.2) (map_to_list (compiled.fAddHeaders f)) h in
  fold_left hDel (compiled.fRemoveHeaders f) h.

Definition applyFilter (pr : ProxyRequest) (f : compiled.Filter) : ProxyRequest :=
  if (compiled.fType f == compiled.FilterRequestHeaderModifier) then
    set_out (modify_headers f (rqHeader (prOut pr))) pr
  else if (compiled.fType f == compiled.FilterURLRewrite) then
    let out := prOut pr in
    let out := if (compiled.fHostname f != "") then with_host (compiled.fHostname f) out else out in
    let out := if (compiled.fPathRewriteType f != "")
               then with_path (rewrittenPath (rqPath out) f) out else out in
    mkProxyRequest (prIn pr) out
  else pr.

Definition applyResponseFilter (h : Header) (f : compiled.Filter) : Header :=
  if (compiled.fType f != compiled.FilterResponseHeaderModifier) then h else modify_headers f h.

(** ** CORS *)

Definition isCORSPreflight (r : Request) : bool :=
  (rqMethod r == "OPTIONS") && (hGet (rqHeader r) "Origin" != "") &&
  (hGet (rqHeader r) "Access-Control-Request-Method" != "").

Definition corsWildcard (values : list string) : bool :=
  match values with [v] => (v == "*") | _ => false end.

Definition origin_matches (origin pattern : string) : bool :=
  if (pattern == "*") || (pattern == origin) then true
  else match cut pattern "://" with
       | None => false
       | Some (scheme, host) =>
           if negb (hasPrefix host "*.") then false
           else match cut origin "://" with
                | None => false
                | Some (originScheme, originHost) =>
                    if (originScheme != scheme) then false
                    else let suffix := sdrop 1 host in
                         (len suffix <? len originHost) && hasSuffix originHost suffix
                end
       end.

Definition corsOriginAllowed (patterns : list string) (origin : string) : bool :=
  existsb (origin_matches origin) patterns.

Definition serveCORSPreflight (w : Response) (r : Request) (cors : compiled.CORS) : Z * Response :=
  let h := hAdd (rsHeader w) "Vary" "Origin" in
  let origin := hGet (rqHeader r) "Origin" in
  let h :=
    if corsOriginAllowed (compiled.corsAllowOrigins cors) origin then
      let h := hSet h "Access-Control-Allow-Origin" origin in
      let h := if compiled.corsAllowCredentials cors
               then hSet h "Access-Control-Allow-Credentials" "true" else h in
      let methods := if corsWildcard (compiled.corsAllowMethods cors)
                     then hGet (rqHeader r) "Access-Control-Request-Method"
                     else joinWith ", " (compiled.corsAllowMethods cors) in
      let h := set_unless_empty h "Access-Control-Allow-Methods" methods in
      let headers := if corsWildcard (compiled.corsAllowHeaders cors)
                     then hGet (rqHeader r) "Access-Control-Request-Headers"
                     else joinWith ", " (compiled.corsAllowHeaders cors) in
      let h := set_unless_empty h "Access-Control-Allow-Headers" headers in
      let h := if (length (compiled.corsExposeHeaders cors) =? 0) then h
               else hSet h "Access-Control-Expose-Headers" (joinWith ", " (compiled.corsExposeHeaders cors)) in
      hSet h "Access-Control-Max-Age" (pretty (compiled.corsMaxAgeSeconds cors))
    else h in
  (204%Z, writeHeader (rsSetHeader w h) 204).

Definition applyCORSResponse (h : Header) (origin : string) (cors : compiled.CORS) : Header :=
  let h := hAdd h "Vary" "Origin" in
  if (origin == "") || negb (corsOriginAllowed (compiled.corsAllowOrigins cors) origin) then h
  else
    let h := hSet h "Access-Control-Allow-Origin" origin in
    let h := if compiled.corsAllowCredentials cors
             then hSet h "Access-Control-Allow-Credentials" "true" else h in
    if (length (compiled.corsExposeHeaders cors) =? 0) then h
    else hSet h "Access-Control-Expose-Headers" (joinWith ", " (compiled.corsExposeHeaders cors)).

(** ** Body capture for mirrors *)

Record cappedBuffer := mkCappedBuffer { cbBuf : string; cbLimit : nat; cbOverflowed : bool }.

Definition cbWrite (c : cappedBuffer) (p : string) : cappedBuffer :=
  if cbLimit c <? len (cbBuf c) + len p then mkCappedBuffer (cbBuf c) (cbLimit c) true
  else mkCappedBuffer (cbBuf c +:+ p) (cbLimit c) (cbOverflowed c).

Definition mirrorBodyLimit : N := 1048576.

(** ** Upgrades *)

Definition isUpgrade (r : Request) : bool :=
  (hGet (rqHeader r) "Upgrade" != "") &&
  existsb (λ v, contains (toLower v) "upgrade") (hValues (rqHeader r) "Connection").

(** ** Lemmas *)

Lemma set_if_unset_get h key v : v ≠ "" → hGet (set_if_unset h key v) key ≠ "".
Proof.
  intros Hv. unfold set_if_unset. case_bool_decide as He; [by rewrite hGet_hSet|done].
Qed.

Lemma hValues_set_if_unset h key v :
  hValues h key = [] → hValues (set_if_unset h key v) key = [v].
Proof.
  intros Hn. unfold set_if_unset, hGet. rewrite Hn. simpl.
  by rewrite hValues_hSet.
Qed.

Lemma hValues_set_if_unset_ne h k1 k2 v :
  canonicalKey k1 ≠ canonicalKey k2 → hValues (set_if_unset h k1 v) k2 = hValues h k2.
Proof. intros. unfold set_if_unset. case_bool_decide; [by apply hValues_hSet_ne|done]. Qed.

(** The four headers [ReverseProxy] strips before calling [Rewrite]. *)
Definition forwarding_headers : list string :=
  ["Forwarded"; "X-Forwarded-For"; "X-Forwarded-Host"; "X-Forwarded-Proto"].

Definition stripped (h : Header) : Prop :=
  Forall (λ k, hValues h k = []) forwarding_headers.

Lemma stripped_values h k : stripped h → k ∈ forwarding_headers → hValues h k = [].
Proof. unfold stripped. rewrite Forall_forall. intros H Hk. by apply H, list_elem_of_In. Qed.

Lemma hValues_set_unless_empty_ne h k1 k2 v :
  canonicalKey k1 ≠ canonicalKey k2 → hValues (set_unless_empty h k1 v) k2 = hValues h k2.
Proof. intros. unfold set_unless_empty. case_bool_decide; [done|by apply hValues_hSet_ne]. Qed.

Lemma forwarding_other pr withTLS trusted k :
  canonicalKey k ∉ forwarding_headers →
  hValues (rqHeader (prOut (rewriteForwardingHeaders pr withTLS trusted))) k = hValues (rqHeader (prOut pr)) k.
Proof.
  intros Hk. assert (∀ k', k' ∈ forwarding_headers → canonicalKey k' ≠ canonicalKey k) as Hne.
  { intros k' Hk' He. apply Hk. rewrite <-He. unfold forwarding_headers in Hk'.
    repeat (apply elem_of_cons in Hk' as [->|Hk']; [apply (bool_decide_unpack _); vm_compute; exact I|]).
    by apply elem_of_nil in Hk'. }
  unfold rewriteForwardingHeaders, set_out, with_header. cbn [prOut rqHeader].
  rewrite !hValues_set_if_unset_ne, hValues_hSet_ne by (apply Hne; set_solver).
  destruct trusted; [|done]. rewrite !hValues_set_unless_empty_ne by (apply Hne; set_solver). done.
Qed.

(** What the operators' request header modifiers make of one header, as a
    specification of [applyFilter]: a filter replaces the values by the one it
    sets, appends the ones it adds and removes the header if it lists it. Keys
    that differ only in case are one header. *)
Definition named {A} (k : string) (l : list (string * A)) : list A :=
  (filter (λ kv : string * A, canonicalKey kv.1 = canonicalKey k) l).*2.

Definition edited (k : string) (values : list string) (f : compiled.Filter) : list string :=
  if decide (compiled.fType f = compiled.FilterRequestHeaderModifier) then
    let values := match list.last (named k (map_to_list (compiled.fSetHeaders f))) with
                  | Some v => [v]
                  | None => values
                  end in
    let values := values ++ named k (map_to_list (compiled.fAddHeaders f)) in
    if decide (canonicalKey k ∈ (canonicalKey <$> compiled.fRemoveHeaders f)) then [] else values
  else values.

Lemma fold_hSet k l h :
  hValues (fold_left (λ h kv, hSet h kv.1 kv.2) l h) k =
  match list.last (named k l) with Some v => [v] | None => hValues h k end.
Proof.
  induction l as [|[k' v] l IH] using rev_ind; [done|].
  rewrite fold_left_app. cbn [fold_left fst snd]. unfold named in *. rewrite list.filter_app, fmap_app.
  destruct (decide (canonicalKey k' = canonicalKey k)) as [He|Hne].
  - rewrite (filter_cons_True _ (k', v)) by done. cbn [fmap list_fmap filter list_filter snd]. rewrite last_snoc.
    unfold hValues, hSet. by rewrite He, lookup_insert_eq.
  - rewrite (filter_cons_False _ (k', v)) by done. cbn [fmap list_fmap filter list_filter]. rewrite app_nil_r.
    by rewrite hValues_hSet_ne.
Qed.

Lemma fold_hAdd k l h :
  hValues (fold_left (λ h kv, hAdd h kv.1 kv.2) l h) k = hValues h k ++ named k l.
Proof.
  revert h. induction l as [|[k' v] l IH]; intros h; [by rewrite app_nil_r|].
  cbn [fold_left fst snd]. rewrite IH. unfold named. destruct (decide (canonicalKey k' = canonicalKey k)) as [He|Hne].
  - rewrite (filter_cons_True _ (k', v)) by done. cbn [fmap list_fmap snd]. rewrite cons_middle, (assoc_L (++)).
    assert (hValues (hAdd h k' v) k = hValues h k ++ [v]) as ->; [|done].
    unfold hValues, hAdd. rewrite He, lookup_insert_eq. unfold hValues. by rewrite He.
  - rewrite (filter_cons_False _ (k', v)) by done. by rewrite hValues_hAdd_ne.
Qed.

Lemma fold_hDel k l h :
  hValues (fold_left hDel l h) k = if decide (canonicalKey k ∈ (canonicalKey <$> l)) then [] else hValues h k.
Proof.
  induction l as [|k' l IH] using rev_ind; [done|].
  rewrite fold_left_app. cbn [fold_left]. rewrite fmap_app. cbn [fmap list_fmap].
  destruct (decide (canonicalKey k' = canonicalKey k)) as [He|Hne].
  - rewrite decide_True by set_solver. unfold hValues, hDel. by rewrite He, lookup_delete_eq.
  - rewrite hValues_hDel_ne, IH by done. apply decide_ext. set_solver.
Qed.

Lemma applyFilter_values pr f k :
  hValues (rqHeader (prOut (applyFilter pr f))) k = edited k (hValues (rqHeader (prOut pr)) k) f.
Proof.
  unfold applyFilter, edited. case_bool_decide as H1.
  - rewrite decide_True by done. simpl. unfold modify_headers. by rewrite fold_hDel, fold_hAdd, fold_hSet.
  - rewrite decide_False by done. case_bool_decide; [|done]. simpl. by destruct (_ != ""), (_ != "").
Qed.

Lemma applyFilters_values fs pr k :
  hValues (rqHeader (prOut (fold_left applyFilter fs pr))) k =
  fold_left (edited k) fs (hValues (rqHeader (prOut pr)) k).
Proof.
  revert pr. induction fs as [|f fs IH]; intros pr; [done|]. cbn [fold_left]. by rewrite IH, applyFilter_values.
Qed.

(** *** Body capture *)

Lemma cbWrite_fold chunks c :
  cbOverflowed c = false → len (cbBuf c) ≤ cbLimit c →
  let c' := fold_left cbWrite chunks c in
  let all := cbBuf c +:+ foldr String.append "" chunks in
  (cbOverflowed c' = false ↔ len all ≤ cbLimit c) ∧
  (cbOverflowed c' = false → cbBuf c' = all).
Proof.
  assert (∀ chunks c, cbOverflowed c = true → cbOverflowed (fold_left cbWrite chunks c) = true) as Hsticky.
  { intros l. induction l as [|p l IH]; intros c0 Hc; simpl; [done|]. apply IH.
    unfold cbWrite. by destruct (_ <? _). }
  revert c. induction chunks as [|p chunks IH]; intros c Ho Hl; cbn [fold_left foldr].
  { rewrite app_empty_r. naive_solver. }
  unfold cbWrite at 2 4 6. destruct (Nat.ltb_spec (cbLimit c) (len (cbBuf c) + len p)).
  - rewrite Hsticky by done. rewrite !len_app. split; [split; [done|lia]|done].
  - destruct (IH (mkCappedBuffer (cbBuf c +:+ p) (cbLimit c) (cbOverflowed c))) as [H1 H2];
      [done|simpl; rewrite len_app; lia|]. simpl in H1, H2. rewrite <-sapp_assoc in H1, H2. done.
Qed.

(** ** Properties *)

(** A prefix replacement keeps the rest of the path after a whole-segment
    prefix. *)
Theorem prefix_rewrite path f :
  compiled.fPathRewriteType f = "ReplacePrefixMatch" →
  matching.pathPrefixMatches (compiled.fPathPrefix f) path = true →
  let prefix := trimSuffix (compiled.fPathPrefix f) "/" in
  let replacement := if (compiled.fPathRewriteValue f == "") then "/" else compiled.fPathRewriteValue f in
  ∃ rest, path = prefix +:+ rest ∧
    (prefix = "" ∨ rest = "" ∨ ∃ tail, rest = "/" +:+ tail) ∧
    rewrittenPath path f =
      (if (rest == "") || (rest == "/") then replacement else trimSuffix replacement "/" +:+ rest).
Proof.
  intros Ht Hm prefix replacement.
  assert (∃ rest, path = prefix +:+ rest ∧
    (prefix = "" ∨ rest = "" ∨ ∃ tail, rest = "/" +:+ tail)) as (rest & -> & Hrest).
  { destruct (decide (prefix = "")) as [He|Hne]; [exists path; rewrite He; auto|].
    destruct (proj1 (matching.pathPrefix_trimmed _ path prefix eq_refl Hne) Hm) as [->|[tail ->]].
    - exists "". rewrite app_empty_r. auto.
    - exists ("/" +:+ tail). eauto. }
  exists rest. split; [done|]. split; [done|]. unfold rewrittenPath.
  rewrite Ht. cbn [bool_decide]. rewrite bool_decide_eq_false_2 by done.
  rewrite bool_decide_eq_true_2 by done. fold prefix. rewrite trimPrefix_app. done.
Qed.

(** Behind an untrusted peer the four forwarding headers are the gateway's own
    and the other headers pass. *)
Theorem forwarding_untrusted pr withTLS :
  stripped (rqHeader (prOut pr)) →
  let out := rqHeader (prOut (rewriteForwardingHeaders pr withTLS false)) in
  let host := hostOnly (rqHost (prIn pr)) in
  let proto := if withTLS then "https" else "http" in
  hValues out "X-Forwarded-For" = [peer_of (prIn pr)] ∧
  hValues out "X-Forwarded-Host" = [host] ∧
  hValues out "X-Forwarded-Proto" = [proto] ∧
  hValues out "Forwarded" = ["for=" +:+ peer_of (prIn pr) +:+ ";host=" +:+ host +:+ ";proto=" +:+ proto] ∧
  ∀ k, canonicalKey k ∉ forwarding_headers → hValues out k = hValues (rqHeader (prOut pr)) k.
Proof.
  intros Hs. simpl.
  set (h := rqHeader (prOut pr)) in *. set (proto := if withTLS then "https" else "http").
  set (fw := "for=" +:+ _). cbn [andb]. rewrite app_empty_l.
  assert (hValues h "X-Forwarded-Host" = []) as Eh by (apply stripped_values; [done|set_solver]).
  assert (hValues h "X-Forwarded-Proto" = []) as Ep by (apply stripped_values; [done|set_solver]).
  assert (hValues h "Forwarded" = []) as Ef by (apply stripped_values; [done|set_solver]).
  split_and!.
  - rewrite !hValues_set_if_unset_ne by (vm_compute; discriminate). apply hValues_hSet.
  - rewrite !hValues_set_if_unset_ne by (vm_compute; discriminate).
    apply hValues_set_if_unset. rewrite hValues_hSet_ne by (vm_compute; discriminate). done.
  - rewrite !hValues_set_if_unset_ne by (vm_compute; discriminate).
    apply hValues_set_if_unset. rewrite !hValues_set_if_unset_ne by (vm_compute; discriminate).
    rewrite hValues_hSet_ne by (vm_compute; discriminate). done.
  - apply hValues_set_if_unset. rewrite !hValues_set_if_unset_ne by (vm_compute; discriminate).
    rewrite hValues_hSet_ne by (vm_compute; discriminate). done.
  - intros k Hk. unfold forwarding_headers in Hk.
    rewrite !hValues_set_if_unset_ne, hValues_hSet_ne; [done|..];
      intros Heq; apply Hk; rewrite <-Heq; vm_compute; set_solver.
Qed.

Lemma joinWith_nil_values (values : list string) : joinWith ", " values ≠ "" → values ≠ [].
Proof. by destruct values. Qed.

(** Behind a trusted peer the forwarded chain is the received entries followed
    by the peer itself, so the next hop resolves the same client. *)
Theorem forwarding_trusted_chain pr withTLS :
  let out := rqHeader (prOut (rewriteForwardingHeaders pr withTLS true)) in
  let received := hValues (rqHeader (prIn pr)) "X-Forwarded-For" in
  ∃ value, hValues out "X-Forwarded-For" = [value] ∧
    clientip.chain_entries [value] =
      (if (joinWith ", " received == "") then [] else clientip.chain_entries received) ++
      clientip.chain_entries [peer_of (prIn pr)].
Proof.
  cbv zeta. unfold rewriteForwardingHeaders, set_out, with_header. cbn [prOut rqHeader].
  rewrite !hValues_set_if_unset_ne by (vm_compute; discriminate). rewrite hValues_hSet.
  eexists. split; [done|]. cbn [andb].
  case_bool_decide as He; cbn [negb].
  - by rewrite app_empty_l.
  - rewrite <-(sapp_assoc _ ", " (peer_of (prIn pr))), clientip.chain_entries_comma.
    by rewrite clientip.chain_entries_joined by by apply joinWith_nil_values.
Qed.

(** Suffix matching on an origin's host. *)
Lemma origin_matches_wildcard origin scheme d :
  has_byte ":" scheme = false →
  origin_matches origin (scheme +:+ "://*." +:+ d) = true →
  origin = scheme +:+ "://*." +:+ d ∨
  ∃ label, label ≠ "" ∧ origin = scheme +:+ "://" +:+ label +:+ "." +:+ d.
Proof.
  intros Hs. unfold origin_matches.
  destruct (bool_decide_reflect (scheme +:+ "://*." +:+ d = "*")) as [Hstar|_].
  { exfalso. apply (f_equal len) in Hstar. rewrite !len_app in Hstar. simpl in Hstar. lia. }
  case_bool_decide as Heq; [by left|]. cbn [orb].
  assert (cut (scheme +:+ "://*." +:+ d) "://" = Some (scheme, "*." +:+ d)) as ->.
  { clear Heq. induction scheme as [|c sc IH]; [done|]. cbn [has_byte] in Hs.
    apply orb_false_iff in Hs as [Hc Hs]. apply bool_decide_eq_false in Hc.
    rewrite app_cons. cbn [cut]. rewrite IH by done.
    assert (hasPrefix (String c (sc +:+ "://*." +:+ d)) "://" = false) as ->; [|done].
    unfold hasPrefix. cbn [String.prefix]. destruct (ascii_dec ":" c) as [<-|]; [done|done]. }
  rewrite matching.hasPrefix_star. cbn [negb].
  destruct (cut origin "://") as [[os oh]|] eqn:Ho; [|done]. apply cut_Some in Ho as ->.
  case_bool_decide as Hsch; cbn [negb]; [|done]. subst os.
  change (sdrop 1 ("*." +:+ d)) with ("." +:+ d).
  intros [Hlen [t ->]%hasSuffix_spec]%andb_true_iff. right. exists t. split; [|done].
  intros ->. rewrite app_empty_l in Hlen. apply Nat.ltb_lt in Hlen. lia.
Qed.

Definition cors_headers : list string :=
  ["Access-Control-Allow-Origin"; "Access-Control-Allow-Credentials"; "Access-Control-Allow-Methods";
   "Access-Control-Allow-Headers"; "Access-Control-Expose-Headers"; "Access-Control-Max-Age"].

(** No CORS permission header is added for an origin the filter does not allow,
    in responses or preflights, and a wildcard pattern allows only proper
    subdomains over the same scheme. *)
Theorem cors_only_allowed_origins cors :
  (∀ h origin k, k ∈ cors_headers →
     origin = "" ∨ corsOriginAllowed (compiled.corsAllowOrigins cors) origin = false →
     hValues (applyCORSResponse h origin cors) k = hValues h k) ∧
  (∀ w r k, k ∈ cors_headers →
     corsOriginAllowed (compiled.corsAllowOrigins cors) (hGet (rqHeader r) "Origin") = false →
     hValues (rsHeader (serveCORSPreflight w r cors).2) k = hValues (rsHeader w) k) ∧
  (∀ origin scheme d, has_byte ":" scheme = false →
     corsOriginAllowed [scheme +:+ "://*." +:+ d] origin = true →
     origin = scheme +:+ "://*." +:+ d ∨
     ∃ label, label ≠ "" ∧ origin = scheme +:+ "://" +:+ label +:+ "." +:+ d).
Proof.
  assert (∀ h k, k ∈ cors_headers → hValues (hAdd h "Vary" "Origin") k = hValues h k) as Hvary.
  { intros h k Hk. apply hValues_hAdd_ne. unfold cors_headers in Hk.
    repeat (apply elem_of_cons in Hk as [->|Hk]; [vm_compute; discriminate|]).
    by apply elem_of_nil in Hk. }
  split_and!.
  - intros h origin k Hk Hno. unfold applyCORSResponse.
    assert ((origin == "") || negb (corsOriginAllowed (compiled.corsAllowOrigins cors) origin) = true) as ->.
    { destruct Hno as [->| ->]; [done|by rewrite orb_true_r]. }
    by apply Hvary.
  - intros w r k Hk Hno. unfold serveCORSPreflight. rewrite Hno. simpl. by apply Hvary.
  - intros origin scheme d Hs. unfold corsOriginAllowed. simpl. rewrite orb_false_r.
    by apply origin_matches_wildcard.
Qed.

(** The capture buffer holds the whole of what was read, or says it overflowed. *)
Theorem mirror_body_faithful chunks limit :
  let c := fold_left cbWrite chunks (mkCappedBuffer "" limit false) in
  (cbOverflowed c = false ↔ len (foldr String.append "" chunks) ≤ limit) ∧
  (cbOverflowed c = false → cbBuf c = foldr String.append "" chunks).
Proof. apply (cbWrite_fold chunks (mkCappedBuffer "" limit false)); simpl; [done|lia]. Qed.

(** ** Concrete requests *)

Definition ex_filter (kind path prefix : string) : compiled.Filter :=
  compiled.mkFilter compiled.FilterURLRewrite ∅ ∅ [] None "" "" 0 0 kind path prefix None None.

Lemma prefix_rewrite_witness :
  rewrittenPath "/api/v1/x" (ex_filter "ReplacePrefixMatch" "/v2/" "/api/v1") = "/v2/x" ∧
  ∃ rest, "/api/v1/x" = "/api/v1" +:+ rest.
Proof.
  split; [vm_compute; reflexivity|].
  destruct (prefix_rewrite "/api/v1/x" (ex_filter "ReplacePrefixMatch" "/v2/" "/api/v1")) as (rest & H & _);
    [reflexivity|vm_compute; reflexivity|]. exists rest. exact H.
Defined.

Definition ex_pr : ProxyRequest :=
  mkProxyRequest
    (mkRequest "GET" "/" "" "shop.example.com:8080" {[ "X-Forwarded-For" := ["6.6.6.6"] ]}
       "192.0.2.7:5000" None None 0)
    (mkRequest "GET" "/" "" "shop.example.com" {[ "Accept" := ["*/*"] ]} "192.0.2.7:5000" None None 0).

Lemma forwarding_untrusted_witness :
  hValues (rqHeader (prOut (rewriteForwardingHeaders ex_pr true false))) "X-Forwarded-For" = ["192.0.2.7"].
Proof.
  apply (forwarding_untrusted ex_pr true).
  repeat apply Forall_cons; try (vm_compute; reflexivity). apply Forall_nil; exact I.
Defined.

End filters.
