(* ===== verification/Auth.v ===== *)
(** * Authentication: sessions and enforcement

    Models [internal/extensions/auth/session.go] (the stateless session
    cookies) and [enforcer.go] (the decision taken for one request).

    Authenticated encryption with its JSON and base64 wrapping, the JWT,
    OIDC and LDAP providers, and the clock are parameters.  The session
    codec is written against a cookie jar, so that what one response sets
    can be read back from the next request. *)

From S2P Require Import Prelude GoStrings Http Compiled Sha256 Tables Filters.
From stdpp Require Import options.

#[local] Open Scope nat_scope.
Import routing.

Module auth.

Definition HeaderUser := "X-Auth-Request-User".
Definition HeaderEmail := "X-Auth-Request-Email".
Definition HeaderGroups := "X-Auth-Request-Groups".
Definition identity_headers : list string := [HeaderUser; HeaderEmail; HeaderGroups].

(** ** Data *)

Record Identity := mkIdentity {
  idUser : string;
  idEmail : string;
  idGroups : list string;
  idClaims : gmap string (list string);
}.

Record Session := mkSession {
  sProvider : string;
  sUser : string;
  sEmail : string;
  sGroups : list string;
  sClaims : gmap string (list string);
  sIssuedAt : Z;
  sExpiresAt : Z;
  sTokenExpiresAt : Z;
  sRefreshToken : string;
  sNameID : string;
  sSessionIndex : string;
}.

Record Decision := mkDecision {
  dAllowed : bool;
  dIdentity : option Identity;
  dProvider : string;
  dResult : string;
  dStatus : Z;
  dRedirectTo : string;
  dChallenges : list string;
  dGRPCCode : string;
  dMessage : string;
}.

(** ** Sealed cookies *)

(** [encoding/json] replaces the bytes of a string that are not UTF-8, so a
    session comes back unchanged exactly when its strings are UTF-8. *)
Definition tail_byte (c : ascii) : bool := in_range 128 191 c.

Fixpoint utf8 (s : string) : bool :=
  match s with
  | "" => true
  | String c s1 =>
      if in_range 0 127 c then utf8 s1
      else if in_range 194 223 c then
        match s1 with String c1 s2 => tail_byte c1 && utf8 s2 | _ => false end
      else if in_range 224 239 c then
        match s1 with
        | String c1 (String c2 s3) =>
            in_range (if in_range 224 224 c then 160 else 128) (if in_range 237 237 c then 159 else 191) c1 &&
            tail_byte c2 && utf8 s3
        | _ => false
        end
      else if in_range 240 244 c then
        match s1 with
        | String c1 (String c2 (String c3 s4)) =>
            in_range (if in_range 240 240 c then 144 else 128) (if in_range 244 244 c then 143 else 191) c1 &&
            tail_byte c2 && tail_byte c3 && utf8 s4
        | _ => false
        end
      else false
  end.

Definition json_safe (s : Session) : bool :=
  forallb utf8 ([sProvider s; sUser s; sEmail s; sRefreshToken s; sNameID s; sSessionIndex s] ++ sGroups s) &&
  forallb (λ '(k, vs), utf8 k && forallb utf8 vs) (map_to_list (sClaims s)) &&
  forallb (λ z, bool_decide (int64_wrap z = z)) [sIssuedAt s; sExpiresAt s; sTokenExpiresAt s].

(** Sealing under a key and a context, and opening it again: what AES-GCM,
    JSON and base64 promise together. *)
Class Sealer := {
  sealValue : string → string → nat → Session → string;   (** key, context, nonce *)
  openValue : string → string → string → option Session;
  open_seal key context nonce session : json_safe session = true →
    openValue key context (sealValue key context nonce session) = Some session;
  seal_nonempty key context nonce session : sealValue key context nonce session ≠ "";
}.

Record Codec := mkCodec { cKey : string; cIdentity : string; cLifetime : Z }.

Definition NewCodec (identity : string) (session : compiled.AuthSession) : Codec :=
  mkCodec (sha256_hex (compiled.asSecret session)) identity
    (int64_wrap (compiled.asLifetimeMillis session * 1000000)).

Definition cookieChunkSize : N := 3500.
Definition maxCookieChunks : nat := 4.

Definition cookieSuffix (identity : string) : string :=
  if 8 <? len identity then stake 8 identity else identity.
Definition SessionCookie (c : Codec) : string := "krouter_auth_" +:+ cookieSuffix (cIdentity c).
Definition chunkName (c : Codec) (index : nat) : string :=
  if (index =? 0) then SessionCookie c else SessionCookie c +:+ "-" +:+ pretty (Z.of_nat index).

(** A [Set-Cookie] of the response: a negative age removes the cookie. *)
Inductive SameSite := SameSiteLax | SameSiteNone.
Record SetCookie := mkSetCookie {
  ckName : string; ckValue : string; ckMaxAge : Z; ckSecure : bool; ckSameSite : SameSite;
}.

Definition cookie (c : Codec) (secure : bool) (name value : string) (maxAge : Z) : SetCookie :=
  mkSetCookie name value (Z.quot maxAge 1000000000) secure SameSiteLax.
Definition expiredCookie (secure : bool) (name : string) : SetCookie :=
  mkSetCookie name "" (-1) secure SameSiteLax.

Abbreviation Jar := (gmap string string).

(** What a browser does with a response. *)
Definition store_cookie (jar : Jar) (k : SetCookie) : Jar :=
  if (ckMaxAge k <? 0)%Z then delete (ckName k) jar else <[ckName k := ckValue k]> jar.

(** [chunk]: pieces of at most [size] bytes, one at least. *)
Fixpoint chunk (fuel : nat) (value : string) (size : nat) : list string :=
  match fuel with
  | O => [value]
  | S fuel => if size <? len value then stake size value :: chunk fuel (sdrop size value) size else [value]
  end.

(** [time.Time.Unix]; times are nanoseconds. *)
Definition unix (now : Z) : Z := now `div` 1000000000.

Section codec.
Context {sealer : Sealer}.

Inductive SealError := CookieBudgetExceeded (bytes : nat).

(** Stale higher-numbered chunks the request still carries. *)
Definition drop_stale (c : Codec) (secure : bool) (jar : Jar) (from : nat) : list SetCookie :=
  (λ i, expiredCookie secure (chunkName c i)) <$>
    filter (λ i, is_Some (jar !! chunkName c i)) (seq from (maxCookieChunks - from)).

Definition SealSession (c : Codec) (secure : bool) (jar : Jar) (nonce : nat) (s : Session) :
    result SealError (list SetCookie) :=
  let value := sealValue (cKey c) "session" nonce s in
  let size := N.to_nat cookieChunkSize in
  if size * maxCookieChunks <? len value then Err (CookieBudgetExceeded (len value))
  else
    let parts := chunk maxCookieChunks value size in
    Ok (zip_with (λ i part, cookie c secure (chunkName c i) part (cLifetime c)) (seq 0 (length parts)) parts ++
        drop_stale c secure jar (length parts)).

(** Consecutive chunks starting at [i]. *)
Fixpoint read_chunks (c : Codec) (jar : Jar) (i : nat) (fuel : nat) : list string :=
  match fuel with
  | O => []
  | S fuel => match jar !! chunkName c i with
              | Some v => v :: read_chunks c jar (S i) fuel
              | None => []
              end
  end.

Definition OpenSession (c : Codec) (jar : Jar) (now : Z) : option Session :=
  let parts := read_chunks c jar 0 maxCookieChunks in
  if (length parts =? 0) then None
  else s ← openValue (cKey c) "session" (foldr String.append "" parts);
       if (sExpiresAt s <=? unix now)%Z then None else Some s.

Definition ClearSession (c : Codec) (secure : bool) (jar : Jar) : list SetCookie :=
  expiredCookie secure (chunkName c 0) :: drop_stale c secure jar 1.

End codec.

(** ** Enforcement *)

Inductive AuthError := Unavailable | BadCredentials.

(** The providers of one enforcer and the environment of one request. *)
Class Providers := {
  validateJWT : compiled.AuthJWT → string → result AuthError (gmap string (list string));
  ldapAuthenticate : compiled.AuthLDAP → string → string → result AuthError Identity;
  oidcRefresh : compiled.AuthOIDC → Session → option Session;
  basicAuth : Request → option (string * string);    (** [http.Request.BasicAuth] *)
  requestURI : Request → string;                     (** [url.URL.RequestURI] *)
  goQuote : string → string;                         (** [strconv.Quote] *)
}.

Section enforcer.
Context {sealer : Sealer} {providers : Providers}.

(** An enforcer: configuration and codec. *)
Record Enforcer := mkEnforcer { eCfg : compiled.Auth; eCodec : option Codec }.

Definition NewEnforcer (cfg : compiled.Auth) : Enforcer :=
  mkEnforcer cfg (NewCodec (compiled.auIdentity cfg) <$> compiled.auSession cfg).

Definition HasCookieProvider (e : Enforcer) : bool :=
  bool_decide (is_Some (compiled.auOIDC (eCfg e))) ||
  bool_decide (is_Some (compiled.auSAML (eCfg e))) ||
  bool_decide (is_Some (compiled.auLDAP (eCfg e))).

(** [url.QueryEscape]. *)
Definition queryEscape (s : string) : string :=
  (fix go s := match s with
   | EmptyString => ""
   | String c s => (if (c == " "%char) then "+"
                    else if filters.unreserved c then String c "" else filters.percent c) +:+ go s
   end) s.

Definition LoginURL (e : Enforcer) (returnURL : string) : string :=
  compiled.auPathPrefix (eCfg e) +:+ "/login?ext=" +:+ queryEscape (compiled.auIdentity (eCfg e)) +:+
  (if (returnURL != "") then "&rd=" +:+ queryEscape returnURL else "").

Definition intersects (values allowed : list string) : bool :=
  existsb (λ v, existsb (λ c, v == c) allowed) values.

Definition claimValues (identity : Identity) (claim : string) : list string :=
  if (claim == "user") then [idUser identity]
  else if (claim == "email") then [idEmail identity]
  else if (claim == "groups") then idGroups identity
  else default [] (idClaims identity !! claim).

Definition session_identity (s : Session) : Identity :=
  mkIdentity (sUser s) (sEmail s) (sGroups s) (sClaims s).

Definition satisfies (identity : Identity) (require : compiled.AuthRequire) : bool :=
  intersects (claimValues identity (compiled.arClaim require)) (compiled.arValues require).

Definition authorize (e : Enforcer) (s : Session) (provider : string) : Decision :=
  let identity := session_identity s in
  if forallb (satisfies identity) (compiled.auAuthorization (eCfg e))
  then mkDecision true (Some identity) provider "allowed" 0 "" [] "" ""
  else mkDecision false None provider "forbidden" 403 "" [] grpc.StatusPermissionDenied "forbidden".

Definition failure (provider : string) : Decision :=
  mkDecision false None provider "error" 503 "" [] grpc.StatusUnavailable
    "authentication provider unavailable".

Definition challenges (e : Enforcer) : list string :=
  (if bool_decide (is_Some (compiled.auJWT (eCfg e)))
   then ["Bearer realm=" +:+ filters.quote +:+ "krouter" +:+ filters.quote] else []) ++
  match compiled.auLDAP (eCfg e) with
  | Some ldap =>
      let realm := if (compiled.alRealm ldap == "") then "krouter" else compiled.alRealm ldap in
      ["Basic realm=" +:+ goQuote realm]
  | None => []
  end.

Definition unauthenticated (e : Enforcer) (grpcRule navigation : bool) (returnURL : string) : Decision :=
  if navigation && negb grpcRule && HasCookieProvider e
  then mkDecision false None "" "unauthenticated" 302 (LoginURL e returnURL) [] "" ""
  else mkDecision false None "" "unauthenticated" 401 "" (challenges e) grpc.StatusUnauthenticated
         "authentication required".

Definition with_provider (p : string) (d : Decision) : Decision :=
  mkDecision (dAllowed d) (dIdentity d) p (dResult d) (dStatus d) (dRedirectTo d) (dChallenges d)
    (dGRPCCode d) (dMessage d).

Definition credentialFailure (e : Enforcer) (provider : string) (err : AuthError) (grpcRule : bool) : Decision :=
  match err with
  | Unavailable => failure provider
  | BadCredentials => with_provider provider (unauthenticated e grpcRule false "")
  end.

(** [refreshIfNeeded]: the session to use and the cookies set. *)
Definition refreshIfNeeded (e : Enforcer) (secure : bool) (jar : Jar) (now : Z) (nonce : nat) (s : Session) :
    option (Session * list SetCookie) :=
  if (sTokenExpiresAt s =? 0)%Z || (unix now <? sTokenExpiresAt s)%Z then Some (s, [])
  else match compiled.auOIDC (eCfg e) with
       | Some oidc =>
           if (sProvider s != "oidc") || (sRefreshToken s == "") then None
           else refreshed ← oidcRefresh oidc s;
                codec ← eCodec e;
                match SealSession codec secure jar nonce refreshed with
                | Ok cookies => Some (refreshed, cookies)
                | Err _ => None
                end
       | None => None
       end.

Definition authorizationHeader (r : Request) : string * string :=
  let value := hGet (rqHeader r) "Authorization" in
  if (value == "") then ("", "")
  else match cut value " " with
       | None => ("", "")
       | Some (scheme, credentials) => (toLower scheme, trimSpace credentials)
       end.

Definition isNavigation (r : Request) : bool :=
  ((rqMethod r == "GET") || (rqMethod r == "HEAD")) &&
  contains (hGet (rqHeader r) "Accept") "text/html".

Definition sessionFromClaims (provider : string) (claims : gmap string (list string)) : Session :=
  mkSession provider (default "" (head (default [] (claims !! "sub"))))
    (default "" (head (default [] (claims !! "email")))) (default [] (claims !! "groups")) claims
    0 0 0 "" "" "".

Definition pruneClaims (e : Enforcer) (claims : gmap string (list string)) : gmap string (list string) :=
  fold_left (λ pruned require,
    let claim := compiled.arClaim require in
    if (claim == "user") || (claim == "email") || (claim == "groups") then pruned
    else match claims !! claim with Some v => <[claim := v]> pruned | None => pruned end)
    (compiled.auAuthorization (eCfg e)) ∅.

(** [mintSession] without extra token state; [None] is the nil dereference
    of a missing codec. *)
Definition mintSession (e : Enforcer) (provider : string) (identity : Identity) (now : Z) : option Session :=
  codec ← eCodec e;
  Some (mkSession provider (idUser identity) (idEmail identity) (idGroups identity)
          (pruneClaims e (idClaims identity)) (unix now) (unix (now + cLifetime codec))
          0 "" "" "").

(** The extra state of a minted session: token expiry, refresh token and
    logout references. *)
Definition with_extra (extra s : Session) : Session :=
  mkSession (sProvider s) (sUser s) (sEmail s) (sGroups s) (sClaims s) (sIssuedAt s) (sExpiresAt s)
    (sTokenExpiresAt extra) (sRefreshToken extra) (sNameID extra) (sSessionIndex extra).

(** The identity headers a client sent are dropped whatever the outcome. *)
Definition strip_identity (h : Header) : Header :=
  hDel (hDel (hDel h HeaderUser) HeaderEmail) HeaderGroups.

Inductive EvalResult :=
  | Decided (d : Decision) (cookies : list SetCookie)
  | NilCodecPanic.

Definition evaluate_basic (e : Enforcer) (r : Request) (ldap : compiled.AuthLDAP) (secure : bool) (jar : Jar)
    (now : Z) (nonce : nat) (grpcRule : bool) : EvalResult :=
  match basicAuth r with
  | None => Decided (unauthenticated e grpcRule false "") []
  | Some (username, password) =>
      match ldapAuthenticate ldap username password with
      | Err err => Decided (credentialFailure e "ldap" err grpcRule) []
      | Ok identity =>
          match mintSession e "ldap" identity now, eCodec e with
          | Some s, Some codec =>
              match SealSession codec secure jar nonce s with
              | Ok cookies => Decided (authorize e s "ldap") cookies
              | Err _ => Decided (failure "ldap") []
              end
          | _, _ => NilCodecPanic
          end
      end
  end.

Definition evaluate_credentials (e : Enforcer) (r : Request) (secure : bool) (jar : Jar) (now : Z)
    (nonce : nat) (grpcRule : bool) : EvalResult :=
  let '(scheme, credentials) := authorizationHeader r in
  match compiled.auJWT (eCfg e), (scheme == "bearer") with
  | Some jwt, true =>
      match validateJWT jwt credentials with
      | Err err => Decided (credentialFailure e "jwt" err grpcRule) []
      | Ok claims => Decided (authorize e (sessionFromClaims "jwt" claims) "jwt") []
      end
  | _, _ =>
      match compiled.auLDAP (eCfg e), (scheme == "basic") with
      | Some ldap, true => evaluate_basic e r ldap secure jar now nonce grpcRule
      | _, _ => Decided (unauthenticated e grpcRule (isNavigation r) (requestURI r)) []
      end
  end.

(** [Evaluate]: the request with the identity headers stripped and the
    decision. *)
Definition Evaluate (e : Enforcer) (r : Request) (secure : bool) (jar : Jar) (now : Z) (nonce : nat)
    (grpcRule : bool) : Request * EvalResult :=
  let r := filters.with_header (strip_identity (rqHeader r)) r in
  let session := codec ← eCodec e; s ← OpenSession codec jar now; refreshIfNeeded e secure jar now nonce s in
  (r, match session with
      | Some (s, cookies) => Decided (authorize e s (sProvider s)) cookies
      | None => evaluate_credentials e r secure jar now nonce grpcRule
      end).

(** [Identity.Apply]. *)
Definition Apply (identity : Identity) (h : Header) : Header :=
  let h := filters.set_unless_empty h HeaderUser (idUser identity) in
  let h := filters.set_unless_empty h HeaderEmail (idEmail identity) in
  if (length (idGroups identity) =? 0) then h else hSet h HeaderGroups (joinWith "," (idGroups identity)).

End enforcer.

(** ** Sessions survive the round trip *)

Section codec_lemmas.
Context {sealer : Sealer}.

Lemma chunkName_inj c i j : chunkName c i = chunkName c j → i = j.
Proof.
  unfold chunkName. destruct (Nat.eqb_spec i 0), (Nat.eqb_spec j 0); intros H; subst; [done|..].
  - apply (f_equal len) in H. rewrite !len_app in H. simpl in H. lia.
  - apply (f_equal len) in H. rewrite !len_app in H. simpl in H. lia.
  - apply sapp_inj in H. apply (sapp_inj "-") in H. apply (inj pretty) in H. lia.
Qed.

Lemma chunk_concat fuel value size :
  foldr String.append "" (chunk fuel value size) = value.
Proof.
  revert value. induction fuel as [|fuel IH]; intros value; simpl; [apply app_empty_r|].
  destruct (size <? len value); simpl; [by rewrite IH, stake_sdrop|apply app_empty_r].
Qed.

Lemma chunk_nonempty fuel value size : chunk fuel value size ≠ [].
Proof. destruct fuel; simpl; [done|]. by destruct (_ <? _). Qed.

Lemma chunk_length fuel value size :
  0 < size → len value ≤ size * fuel → 0 < fuel → length (chunk fuel value size) ≤ fuel.
Proof.
  revert value. induction fuel as [|fuel IH]; intros value Hs Hl Hf; [lia|]. cbn [chunk].
  destruct (Nat.ltb_spec size (len value)); simpl; [|lia].
  destruct fuel as [|fuel]; [lia|].
  specialize (IH (sdrop size value) Hs). rewrite len_sdrop in IH. lia.
Qed.

Lemma read_chunks_spec c jar i parts fuel :
  length parts ≤ fuel →
  (∀ k part, parts !! k = Some part → jar !! chunkName c (i + k) = Some part) →
  (length parts < fuel → jar !! chunkName c (i + length parts) = None) →
  read_chunks c jar i fuel = parts.
Proof.
  revert i fuel. induction parts as [|p parts IH]; intros i fuel Hl Hin Hend; simpl.
  - destruct fuel as [|fuel]; [done|]. simpl. simpl in Hend. rewrite Nat.add_0_r in Hend.
    by rewrite Hend by lia.
  - simpl in Hl. destruct fuel as [|fuel]; [lia|]. simpl.
    pose proof (Hin 0 p eq_refl) as H0. rewrite Nat.add_0_r in H0. rewrite H0. f_equal.
    apply IH; [lia|..].
    + intros k part Hk. specialize (Hin (S k) part Hk). by rewrite <-Nat.add_succ_comm in Hin.
    + intros Hlt. simpl in Hend. rewrite <-Nat.add_succ_comm in Hend. apply Hend. lia.
Qed.

(** Storing the fresh chunks. *)
Lemma store_parts_lookup c secure parts (jar : Jar) name :
  (0 ≤ cLifetime c)%Z →
  fold_left store_cookie
    (zip_with (λ i part, cookie c secure (chunkName c i) part (cLifetime c)) (seq 0 (length parts)) parts)
    jar !! name =
  match list_find (λ i, chunkName c i = name) (seq 0 (length parts)) with
  | Some (_, i) => parts !! i
  | None => jar !! name
  end.
Proof.
  intros Hlife. assert (Hage : (0 ≤ Z.quot (cLifetime c) 1000000000)%Z) by (apply Z.quot_pos; lia).
  revert jar. induction parts as [|p parts IH] using rev_ind; intros jar; [done|].
  rewrite length_app, seq_app, zip_with_app by by rewrite length_seq.
  rewrite fold_left_app. cbn [length seq zip_with fold_left]. simpl.
  unfold store_cookie at 1. simpl. destruct (Z.ltb_spec (Z.quot (cLifetime c) 1000000000) 0); [lia|].
  rewrite lookup_insert, IH. clear IH.
  destruct (list_find (λ i, chunkName c i = name) (seq 0 (length parts))) as [[k i]|] eqn:Hf.
  - rewrite (list_find_app_l _ _ _ _ _ Hf).
    apply list_find_Some in Hf as (Hi & Hn & _). apply lookup_seq in Hi as [-> Hlt]. simpl in *.
    rewrite decide_False by (intros He; rewrite <-Hn in He; apply chunkName_inj in He; lia).
    by rewrite lookup_app_l.
  - rewrite list_find_app_r by done. simpl.
    destruct (decide (chunkName c (length parts) = name)) as [He|Hne]; [|done].
    simpl. rewrite lookup_app_r, Nat.sub_diag by lia. done.
Qed.

Lemma drop_stale_lookup c secure (jar0 jar : Jar) from i :
  i < from ∨ (jar0 !! chunkName c i = None → jar !! chunkName c i = None) →
  fold_left store_cookie (drop_stale c secure jar0 from) jar !! chunkName c i =
    if decide (from ≤ i < maxCookieChunks) then None else jar !! chunkName c i.
Proof.
  intros Hpre. unfold drop_stale.
  assert (∀ l (jar : Jar), fold_left store_cookie ((λ i, expiredCookie secure (chunkName c i)) <$> l) jar
    !! chunkName c i = if decide (i ∈ l) then None else jar !! chunkName c i) as H.
  { induction l as [|k l IH]; intros jar1; [done|]. cbn [fmap list_fmap fold_left]. rewrite IH.
    unfold store_cookie, expiredCookie. simpl.
    destruct (decide (i = k)) as [->|Hne].
    - rewrite lookup_delete_eq, (decide_True (P := k ∈ k :: l)) by left. by case_decide.
    - rewrite lookup_delete_ne by (intros He; apply chunkName_inj in He; done).
      destruct (decide (i ∈ l)); [rewrite decide_True by by right|rewrite decide_False by set_solver]; done. }
  rewrite H. clear H.
  destruct (decide (i ∈ filter (λ i, is_Some (jar0 !! chunkName c i)) (seq from (maxCookieChunks - from)))) as [Hin|Hnin].
  - apply list_elem_of_filter in Hin as [_ Hin]. apply elem_of_seq in Hin.
    rewrite decide_True by lia. done.
  - case_decide as Hr; [|done]. destruct Hpre as [|Hpre]; [lia|]. apply Hpre.
    apply eq_None_not_Some. intros Hs. apply Hnin. apply list_elem_of_filter. split; [done|].
    apply elem_of_seq. lia.
Qed.

(** What a browser sends back after a sealed response: the chunks. *)
Lemma stored_parts_read c secure (jar : Jar) parts :
  (0 ≤ cLifetime c)%Z → length parts ≤ maxCookieChunks →
  read_chunks c (fold_left store_cookie
    (zip_with (λ i part, cookie c secure (chunkName c i) part (cLifetime c)) (seq 0 (length parts)) parts ++
     drop_stale c secure jar (length parts)) jar) 0 maxCookieChunks = parts.
Proof.
  intros Hlife Hlen. rewrite fold_left_app. apply read_chunks_spec; [done|..].
  - intros k part Hk. simpl. pose proof (lookup_lt_Some _ _ _ Hk) as Hlt.
    rewrite (drop_stale_lookup c secure jar _ (length parts) k) by (left; exact Hlt).
    rewrite decide_False by lia. rewrite store_parts_lookup by done.
    destruct (list_find _ _) as [[j i]|] eqn:Hf.
    + apply list_find_Some in Hf as (_ & He & _). by apply chunkName_inj in He as ->.
    + apply list_find_None in Hf. rewrite Forall_forall in Hf. exfalso.
      apply (Hf k); [|done]. apply list_elem_of_In, elem_of_seq. lia.
  - intros Hlt. simpl. rewrite (drop_stale_lookup c secure jar _ (length parts) (length parts)).
    + by rewrite decide_True by lia.
    + right. rewrite store_parts_lookup by done.
      destruct (list_find _ _) as [[j i]|] eqn:Hf; [|done].
      apply list_find_Some in Hf as (Hi & He & _). apply chunkName_inj in He.
      apply lookup_seq in Hi. lia.
Qed.

End codec_lemmas.

(** ** Enforcement lemmas *)

Section enforcer_lemmas.
Context {sealer : Sealer} {providers : Providers}.

(** How the decision came about: who vouches for the identity. *)
Inductive vouched (e : Enforcer) (r : Request) (jar : Jar) (now : Z) : Session → Prop :=
  | by_session codec s :
      eCodec e = Some codec → OpenSession codec jar now = Some s →
      sTokenExpiresAt s = 0%Z ∨ (unix now < sTokenExpiresAt s)%Z → vouched e r jar now s
  | by_refresh codec s oidc s' :
      eCodec e = Some codec → OpenSession codec jar now = Some s →
      sProvider s = "oidc" → sRefreshToken s ≠ "" →
      compiled.auOIDC (eCfg e) = Some oidc → oidcRefresh oidc s = Some s' → vouched e r jar now s'
  | by_jwt jwt claims :
      compiled.auJWT (eCfg e) = Some jwt → (authorizationHeader r).1 = "bearer" →
      validateJWT jwt (authorizationHeader r).2 = Ok claims →
      vouched e r jar now (sessionFromClaims "jwt" claims)
  | by_ldap ldap user password identity s :
      compiled.auLDAP (eCfg e) = Some ldap → (authorizationHeader r).1 = "basic" → basicAuth r = Some (user, password) →
      ldapAuthenticate ldap user password = Ok identity → mintSession e "ldap" identity now = Some s →
      vouched e r jar now s.

Lemma refreshed_vouched e r secure jar now nonce codec s s' c :
  eCodec e = Some codec → OpenSession codec jar now = Some s →
  refreshIfNeeded e secure jar now nonce s = Some (s', c) → vouched e r jar now s'.
Proof.
  intros Hc Ho. unfold refreshIfNeeded.
  destruct (_ || _) eqn:Hexp.
  { intros [= <- _]. eapply by_session; [done..|]. apply orb_true_iff in Hexp as [?|?]; lia. }
  destruct (compiled.auOIDC (eCfg e)) as [oidc|] eqn:Hoidc; [|done].
  destruct ((sProvider s != "oidc") || _) eqn:Hp; [done|]. apply orb_false_iff in Hp as [Hp Hrt].
  apply negb_false_iff, bool_decide_eq_true in Hp. apply bool_decide_eq_false in Hrt.
  rewrite Hc. destruct (oidcRefresh oidc s) as [s1|] eqn:Hr; [|done]. simpl.
  destruct (SealSession codec secure jar nonce s1); intros ?; simplify_eq. by eapply by_refresh.
Qed.

Lemma authorize_allowed e s p :
  dAllowed (authorize e s p) = true →
  dIdentity (authorize e s p) = Some (session_identity s) ∧
  Forall (λ req, satisfies (session_identity s) req = true) (compiled.auAuthorization (eCfg e)).
Proof.
  unfold authorize. destruct (forallb _ _) eqn:Hf; [|done]. intros _. split; [done|].
  apply Forall_forall. by apply forallb_forall.
Qed.

Lemma unauthenticated_denied e g n u : dAllowed (unauthenticated e g n u) = false.
Proof. unfold unauthenticated. by destruct (_ && _). Qed.

Lemma credentialFailure_denied e p err g : dAllowed (credentialFailure e p err g) = false.
Proof. by destruct err. Qed.

Lemma evaluate_credentials_allowed e r secure jar now nonce g d cookies :
  evaluate_credentials e r secure jar now nonce g = Decided d cookies → dAllowed d = true →
  ∃ s p, vouched e r jar now s ∧ d = authorize e s p.
Proof.
  unfold evaluate_credentials.
  destruct (authorizationHeader r) as [scheme credentials] eqn:Hh.
  assert (∀ c', Decided (unauthenticated e g (isNavigation r) (requestURI r)) c' = Decided d cookies →
    dAllowed d = true → ∃ s p, vouched e r jar now s ∧ d = authorize e s p) as Hun.
  { intros c' [= <- _]. by rewrite unauthenticated_denied. }
  assert (∀ ldap, compiled.auLDAP (eCfg e) = Some ldap → scheme = "basic" →
    evaluate_basic e r ldap secure jar now nonce g = Decided d cookies →
    dAllowed d = true → ∃ s p, vouched e r jar now s ∧ d = authorize e s p) as Hldap.
  { intros ldap Hl Hsch. unfold evaluate_basic. destruct (basicAuth r) as [[u p]|] eqn:Hb.
    2:{ intros [= <- _]. by rewrite unauthenticated_denied. }
    destruct (ldapAuthenticate ldap u p) as [identity|err] eqn:Ha.
    2:{ intros [= <- _]. by rewrite credentialFailure_denied. }
    destruct (mintSession e "ldap" identity now) as [s|] eqn:Hm; [|done].
    destruct (eCodec e) as [codec|] eqn:Hc; [|done].
    destruct (SealSession codec secure jar nonce s); intros [= <- _]; [|done].
    intros _. exists s, "ldap". split; [eapply by_ldap; by rewrite ?Hh|done]. }
  assert (match compiled.auLDAP (eCfg e), (scheme == "basic") with
      | Some ldap, true => evaluate_basic e r ldap secure jar now nonce g
      | _, _ => Decided (unauthenticated e g (isNavigation r) (requestURI r)) []
      end = Decided d cookies → dAllowed d = true → ∃ s p, vouched e r jar now s ∧ d = authorize e s p) as Hrest.
  { destruct (compiled.auLDAP (eCfg e)) as [ldap|] eqn:Hl; [|by apply Hun].
    case_bool_decide; [by apply Hldap|by apply Hun]. }
  destruct (compiled.auJWT (eCfg e)) as [jwt|] eqn:Hj; [|exact Hrest].
  destruct (bool_decide_reflect (scheme = "bearer")) as [Hb|_]; [|exact Hrest].
  destruct (validateJWT jwt credentials) as [claims|err] eqn:Hv; intros [= <- _].
  - intros _. exists (sessionFromClaims "jwt" claims), "jwt". split; [|done].
    eapply by_jwt; [done|by rewrite Hh|by rewrite Hh].
  - by rewrite credentialFailure_denied.
Qed.

Lemma hValues_strip h k :
  hValues (strip_identity h) k = if decide (canonicalKey k ∈ identity_headers) then [] else hValues h k.
Proof.
  unfold strip_identity, hDel, hValues. rewrite !lookup_delete.
  change (canonicalKey HeaderGroups) with HeaderGroups.
  change (canonicalKey HeaderEmail) with HeaderEmail.
  change (canonicalKey HeaderUser) with HeaderUser.
  unfold identity_headers. destruct (decide (canonicalKey k ∈ _)) as [Hin|Hnin].
  - apply elem_of_cons in Hin as [Hk|[Hk|[Hk|[]%elem_of_nil]%elem_of_cons]%elem_of_cons];
      repeat case_decide; (reflexivity || congruence).
  - rewrite !decide_False; [done|..]; intros He; apply Hnin; rewrite <-He; set_solver.
Qed.

(** The value of an identity header the backend sees. *)
Definition injected (identity : Identity) (k : string) : list string :=
  if (k == HeaderUser) then (if (idUser identity == "") then [] else [idUser identity])
  else if (k == HeaderEmail) then (if (idEmail identity == "") then [] else [idEmail identity])
  else if (length (idGroups identity) =? 0) then [] else [joinWith "," (idGroups identity)].

Lemma set_unless_empty_values h k k' v :
  canonicalKey k = k → canonicalKey k' = k' →
  hValues (filters.set_unless_empty h k v) k' =
    if decide (k = k') then (if (v == "") then hValues h k' else [v]) else hValues h k'.
Proof.
  intros Hk Hk'. unfold filters.set_unless_empty, hSet, hValues. rewrite Hk, Hk'.
  case_bool_decide; simpl; [by case_decide|]. rewrite lookup_insert. by case_decide.
Qed.

Lemma Apply_values identity h k :
  (∀ k', k' ∈ identity_headers → hValues h k' = []) → k ∈ identity_headers →
  hValues (Apply identity h) k = injected identity k.
Proof.
  intros Hh Hk. pose proof (Hh k Hk) as H0. unfold Apply, injected.
  assert (∀ h', hValues (hSet h' HeaderGroups (joinWith "," (idGroups identity))) k =
    if decide (HeaderGroups = k) then [joinWith "," (idGroups identity)] else hValues h' k) as Hg.
  { intros h'. unfold hSet, hValues. assert (canonicalKey k = k) as ->.
    { unfold identity_headers in Hk. repeat (apply elem_of_cons in Hk as [->|Hk]; [done|]).
      by apply elem_of_nil in Hk. }
    change (canonicalKey HeaderGroups) with HeaderGroups. rewrite lookup_insert. by case_decide. }
  unfold identity_headers in Hk.
  apply elem_of_cons in Hk as [->|[->|[->|[]%elem_of_nil]%elem_of_cons]%elem_of_cons];
    destruct (length (idGroups identity) =? 0); rewrite ?Hg; rewrite !set_unless_empty_values by done;
    simpl; repeat case_bool_decide; simpl; congruence.
Qed.

Lemma Apply_other identity h k :
  canonicalKey k ∉ identity_headers → hValues (Apply identity h) k = hValues h k.
Proof.
  intros Hk. assert (∀ k', k' ∈ identity_headers → canonicalKey k' ≠ canonicalKey k) as Hne.
  { intros k' Hk' He. apply Hk. rewrite <-He. unfold identity_headers in Hk'.
    repeat (apply elem_of_cons in Hk' as [->|Hk']; [apply (bool_decide_unpack _); vm_compute; exact I|]).
    by apply elem_of_nil in Hk'. }
  unfold Apply. destruct (length _ =? 0);
    rewrite ?hValues_hSet_ne, !filters.hValues_set_unless_empty_ne by (apply Hne; set_solver); done.
Qed.

(** The identity headers the backend sees were put there by the gateway. *)
Lemma Apply_stripped identity h k :
  k ∈ identity_headers → hValues (Apply identity (strip_identity h)) k = injected identity k.
Proof.
  intros Hk. apply Apply_values; [|done]. intros k' Hk'. rewrite hValues_strip. rewrite decide_True; [done|].
  assert (canonicalKey k' = k') as ->; [|done].
  unfold identity_headers in Hk'. repeat (apply elem_of_cons in Hk' as [->|Hk']; [done|]).
  by apply elem_of_nil in Hk'.
Qed.

End enforcer_lemmas.

(** ** Properties *)

(** A session sealed into cookie chunks is opened unchanged from the browser's
    next request while it has not expired, whatever chunks of an older session
    the browser held. *)
Theorem session_roundtrip {sealer : Sealer} c secure jar nonce s cookies now :
  (0 ≤ cLifetime c)%Z → json_safe s = true → SealSession c secure jar nonce s = Ok cookies →
  (unix now < sExpiresAt s)%Z →
  OpenSession c (fold_left store_cookie cookies jar) now = Some s.
Proof.
  intros Hlife Hjson. unfold SealSession.
  assert (0 < N.to_nat cookieChunkSize) as Hsize by (unfold cookieChunkSize; lia).
  revert Hsize. generalize (N.to_nat cookieChunkSize). intros size Hsize.
  destruct (Nat.ltb_spec (size * maxCookieChunks) (len (sealValue (cKey c) "session" nonce s))) as [|Hfit]; [done|].
  intros Hc Hnow. apply (inj Ok) in Hc as <-. unfold OpenSession.
  rewrite stored_parts_read; [|done|apply chunk_length; unfold maxCookieChunks in *; lia].
  destruct (Nat.eqb_spec (length (chunk maxCookieChunks (sealValue (cKey c) "session" nonce s) size)) 0) as [Hz|_].
  { apply length_zero_iff_nil in Hz. by apply chunk_nonempty in Hz. }
  rewrite chunk_concat, open_seal by exact Hjson. cbn [mbind option_bind].
  destruct (Z.leb_spec (sExpiresAt s) (unix now)); [lia|done].
Qed.

(** Sealing binds a session to the secret and the word "session", not to the
    extension: two extensions with one secret open each other's sessions, the
    cookies renamed. *)
Theorem shared_secret_shares_sessions {sealer : Sealer} c1 c2 (jar1 jar2 : Jar) now :
  cKey c1 = cKey c2 →
  (∀ i, jar2 !! chunkName c2 i = jar1 !! chunkName c1 i) →
  OpenSession c2 jar2 now = OpenSession c1 jar1 now.
Proof.
  intros Hkey Hjar.
  assert (∀ fuel i, read_chunks c2 jar2 i fuel = read_chunks c1 jar1 i fuel) as Hr.
  { induction fuel as [|fuel IH]; intros i; [done|]. cbn [read_chunks]. rewrite Hjar.
    destruct (jar1 !! chunkName c1 i); [by rewrite IH|done]. }
  unfold OpenSession. by rewrite Hr, Hkey.
Qed.

(** After logout the browser's cookies open no session. *)
Theorem cleared_session_is_gone {sealer : Sealer} c secure jar now :
  OpenSession c (fold_left store_cookie (ClearSession c secure jar) jar) now = None.
Proof.
  unfold ClearSession, OpenSession. cbn [fold_left].
  assert (fold_left store_cookie (drop_stale c secure jar 1) (store_cookie jar (expiredCookie secure (chunkName c 0)))
    !! chunkName c 0 = None) as Hn.
  { rewrite drop_stale_lookup by (left; lia). rewrite decide_False by lia.
    unfold store_cookie. simpl. apply lookup_delete_eq. }
  unfold maxCookieChunks. cbn [read_chunks]. by rewrite Hn.
Qed.

(** A session that opens and needs no refresh is decided as it is. *)
Lemma Evaluate_session {sealer : Sealer} {providers : Providers} e codec r secure jar now nonce g s :
  eCodec e = Some codec → OpenSession codec jar now = Some s →
  sTokenExpiresAt s = 0%Z ∨ (unix now < sTokenExpiresAt s)%Z →
  Evaluate e r secure jar now nonce g =
    (filters.with_header (strip_identity (rqHeader r)) r, Decided (authorize e s (sProvider s)) []).
Proof.
  intros Hc Ho Ht. unfold Evaluate. rewrite Hc. simpl. rewrite Ho. simpl. unfold refreshIfNeeded.
  replace ((sTokenExpiresAt s =? 0)%Z || (unix now <? sTokenExpiresAt s)%Z) with true; [done|].
  symmetry. apply orb_true_iff. destruct Ht; [left|right]; lia.
Qed.

(** A request is allowed only when somebody vouches for its session (an
    unexpired cookie sealed under the extension's secret, an OIDC refresh of
    one, a validated bearer token, or an LDAP bind) and every authorization rule
    holds of the identity. *)
Theorem allowed_is_vouched {sealer : Sealer} {providers : Providers} e r secure jar now nonce g r' d cookies :
  Evaluate e r secure jar now nonce g = (r', Decided d cookies) → dAllowed d = true →
  ∃ s, vouched e r' jar now s ∧ dIdentity d = Some (session_identity s) ∧
       Forall (λ req, satisfies (session_identity s) req = true) (compiled.auAuthorization (eCfg e)).
Proof.
  unfold Evaluate. set (rr := filters.with_header _ r).
  destruct (codec ← eCodec e; s ← OpenSession codec jar now; refreshIfNeeded e secure jar now nonce s)
    as [[s c]|] eqn:Hs.
  - intros [= <- <- _] Ha. apply authorize_allowed in Ha as [Hid Hreq]. exists s. split; [|done].
    apply bind_Some in Hs as (codec & Hc & Hs). apply bind_Some in Hs as (s0 & Ho & Hs).
    by eapply refreshed_vouched.
  - intros [= <- He] Ha. destruct (evaluate_credentials_allowed _ _ _ _ _ _ _ _ _ He Ha) as (s & p & Hv & ->).
    apply authorize_allowed in Ha as [Hid Hreq]. eauto.
Qed.

(** The identity headers a client sent are gone after [Evaluate], and injecting
    an identity sets exactly its own. *)
Theorem identity_headers_not_spoofable {sealer : Sealer} {providers : Providers}
    e r secure jar now nonce g r' out identity k :
  Evaluate e r secure jar now nonce g = (r', out) → k ∈ identity_headers →
  hValues (rqHeader r') k = [] ∧
  hValues (Apply identity (rqHeader r')) k = injected identity k.
Proof.
  unfold Evaluate. intros [= <- _] Hk.
  assert (∀ k', k' ∈ identity_headers → hValues (rqHeader (filters.with_header (strip_identity (rqHeader r)) r)) k' = []) as Hs.
  { intros k' Hk'. simpl. rewrite hValues_strip. rewrite decide_True; [done|].
    assert (canonicalKey k' = k') as ->; [|done].
    unfold identity_headers in Hk'. repeat (apply elem_of_cons in Hk' as [->|Hk']; [done|]).
    by apply elem_of_nil in Hk'. }
  split; [by apply Hs|]. by apply Apply_values.
Qed.

(** The shape of a rejection: browsers navigating to a cookie-provider rule
    are sent to the login page, everyone else gets an error status. *)
Definition rejection (e : Enforcer) (r : Request) (g : bool) (d : Decision) : Prop :=
  (dRedirectTo d ≠ "" ∧ dStatus d = 302%Z ∧ dResult d = "unauthenticated" ∧
   g = false ∧ isNavigation r = true ∧ HasCookieProvider e = true) ∨
  (dRedirectTo d = "" ∧ dStatus d ∈ [401; 403; 503]%Z ∧ dGRPCCode d ≠ "").

Section rejection.
Context {sealer : Sealer} {providers : Providers}.

Lemma LoginURL_nonempty e u : LoginURL e u ≠ "".
Proof.
  unfold LoginURL. intros H. apply (f_equal len) in H. rewrite !len_app in H. simpl in H. lia.
Qed.

Lemma unauthenticated_rejection e r g n u :
  (n = true → isNavigation r = true) → rejection e r g (unauthenticated e g n u).
Proof.
  intros Hn. unfold unauthenticated, rejection. destruct (n && negb g && HasCookieProvider e) eqn:Hc; simpl.
  - left. apply andb_true_iff in Hc as [[H1 H2]%andb_true_iff H3]. apply negb_true_iff in H2.
    split; [apply LoginURL_nonempty|]. auto 10.
  - right. split; [done|]. split; [set_solver|done].
Qed.

Lemma credentialFailure_rejection e r g p err : rejection e r g (credentialFailure e p err g).
Proof.
  destruct err; simpl; right; simpl; (split; [done|]; split; [set_solver|done]).
Qed.

Lemma authorize_rejection e r g s p :
  dAllowed (authorize e s p) = false → rejection e r g (authorize e s p).
Proof.
  unfold authorize. destruct (forallb _ _); [done|]. intros _. right. simpl.
  split; [done|]. split; [set_solver|done].
Qed.

Lemma evaluate_rejection e r secure jar now nonce g d cookies :
  evaluate_credentials e r secure jar now nonce g = Decided d cookies → dAllowed d = false →
  rejection e r g d.
Proof.
  unfold evaluate_credentials. destruct (authorizationHeader r) as [scheme credentials].
  assert (∀ c', Decided (unauthenticated e g (isNavigation r) (requestURI r)) c' = Decided d cookies →
    rejection e r g d) as Hun.
  { intros c' [= <- _]. by apply unauthenticated_rejection. }
  assert (match compiled.auLDAP (eCfg e), (scheme == "basic") with
      | Some ldap, true => evaluate_basic e r ldap secure jar now nonce g
      | _, _ => Decided (unauthenticated e g (isNavigation r) (requestURI r)) []
      end = Decided d cookies → dAllowed d = false → rejection e r g d) as Hrest.
  { destruct (compiled.auLDAP (eCfg e)) as [ldap|]; [|eauto].
    case_bool_decide; [|eauto]. unfold evaluate_basic.
    destruct (basicAuth r) as [[u p]|]; [|intros [= <- _] _; by apply unauthenticated_rejection].
    destruct (ldapAuthenticate ldap u p) as [identity|err];
      [|intros [= <- _] _; apply credentialFailure_rejection].
    destruct (mintSession e "ldap" identity now); [|done]. destruct (eCodec e); [|done].
    destruct (SealSession _ _ _ _ _); intros [= <- _]; [apply authorize_rejection|].
    intros _. apply (credentialFailure_rejection e r g "ldap" Unavailable). }
  destruct (compiled.auJWT (eCfg e)) as [jwt|]; [|exact Hrest].
  destruct (bool_decide_reflect (scheme = "bearer")); [|exact Hrest].
  destruct (validateJWT jwt credentials) as [claims|err]; intros [= <- _]; [apply authorize_rejection|].
  intros _. apply credentialFailure_rejection.
Qed.

Lemma Evaluate_rejection e r secure jar now nonce g r' d cookies :
  Evaluate e r secure jar now nonce g = (r', Decided d cookies) → dAllowed d = false →
  rejection e r' g d.
Proof.
  unfold Evaluate. destruct (codec ← eCodec e; _) as [[s c]|]; intros [= <- H].
  - subst d. intros Ha. by apply authorize_rejection.
  - intros Ha. by eapply evaluate_rejection.
Qed.

End rejection.

(** A rejected request is redirected to the login page only when it is a browser
    navigation to a non-gRPC rule with a cookie provider, and is answered 401,
    403 or 503 with a gRPC code otherwise. *)
Theorem rejection_shape {sealer : Sealer} {providers : Providers} e r secure jar now nonce g r' d cookies :
  Evaluate e r secure jar now nonce g = (r', Decided d cookies) → dAllowed d = false →
  rejection e r' g d.
Proof. apply Evaluate_rejection. Qed.

(** An enforcer whose LDAP provider comes with a session block, which the merge
    of its documents demands, never dereferences a missing codec. *)
Theorem session_config_never_panics {sealer : Sealer} {providers : Providers} cfg r secure jar now nonce g :
  (compiled.auLDAP cfg ≠ None → compiled.auSession cfg ≠ None) →
  (Evaluate (NewEnforcer cfg) r secure jar now nonce g).2 ≠ NilCodecPanic.
Proof.
  intros Hcfg. unfold Evaluate. simpl. destruct (_ ≫= _) as [[s c]|]; [done|].
  unfold evaluate_credentials. destruct (authorizationHeader _) as [scheme credentials].
  assert (∀ ldap, compiled.auLDAP cfg = Some ldap → ∀ r,
    evaluate_basic (NewEnforcer cfg) r ldap secure jar now nonce g ≠ NilCodecPanic) as Hb.
  { intros ldap Hl r'. unfold evaluate_basic. destruct (basicAuth r') as [[u p]|]; [|done].
    destruct (ldapAuthenticate ldap u p) as [identity|err]; [|done].
    unfold mintSession. simpl. destruct (compiled.auSession cfg) as [sess|]; [|by rewrite Hl in Hcfg; destruct Hcfg].
    simpl. by destruct (SealSession _ _ _ _ _). }
  simpl. destruct (compiled.auJWT cfg); [case_bool_decide; [by destruct (validateJWT _ _)|]|];
    (destruct (compiled.auLDAP cfg); [case_bool_decide; [by apply Hb|done]|done]).
Qed.

(** ** Concrete instances and witnesses *)

Definition session_tuple (s : Session) :=
  (sProvider s, sUser s, sEmail s, sGroups s, sClaims s,
   (sIssuedAt s, sExpiresAt s, sTokenExpiresAt s, sRefreshToken s, sNameID s, sSessionIndex s)).
Definition tuple_session (t : string * string * string * list string * gmap string (list string) *
    (Z * Z * Z * string * string * string)) : Session :=
  let '(p, u, e, g, c, (i, x, t, r, n, si)) := t in mkSession p u e g c i x t r n si.

(** A sealer that names its key and context in front of the plain text. *)
#[refine] Instance ex_sealer : Sealer := {|
  sealValue key context nonce s :=
    key +:+ context +:+ pos_bits (encode (session_tuple s));
  openValue key context value :=
    v ← cutPrefix value key; v ← cutPrefix v context; p ← bits_pos v; tuple_session <$> decode p;
|}.
Proof.
  - intros key context nonce s _. rewrite cutPrefix_app. simpl. rewrite cutPrefix_app. simpl.
    rewrite bits_pos_bits. simpl. rewrite decode_encode. by destruct s.
  - intros key context nonce s H. apply (f_equal len) in H. rewrite !len_app in H.
    destruct (encode (session_tuple s)); simpl in H; lia.
Defined.

Definition ex_identity : Identity := mkIdentity "alice" "alice@example.com" ["ops"; "dev"] ∅.

(** One user and one token. *)
Instance ex_providers : Providers := {|
  validateJWT _ token := if (token == "good") then Ok {["sub" := ["alice"]]} else Err BadCredentials;
  ldapAuthenticate _ user password :=
    if (user == "alice") && (password == "secret") then Ok ex_identity else Err BadCredentials;
  oidcRefresh _ s := Some s;
  basicAuth r := if (hGet (rqHeader r) "Authorization" == "Basic YWxpY2U6c2VjcmV0")
                 then Some ("alice", "secret") else None;
  requestURI r := rqPath r;
  goQuote s := filters.quote +:+ s +:+ filters.quote;
|}.

Definition ex_ldap : compiled.AuthLDAP :=
  compiled.mkAuthLDAP "ldaps://ldap" false "" "" "" "dc=example" "(uid=%s)" "" ∅ None "".
Definition ex_jwt : compiled.AuthJWT := compiled.mkAuthJWT "https://issuer" ["app"] "https://issuer/jwks".
Definition ex_auth : compiled.Auth :=
  compiled.mkAuth "0123456789ab" "/_auth" (Some (compiled.mkAuthSession "s3cret" 3600000)) None None
    (Some ex_ldap) (Some ex_jwt) [compiled.mkAuthRequire "user" ["alice"; "bob"]].
Definition ex_enforcer : Enforcer := NewEnforcer ex_auth.
Definition ex_codec : Codec := mkCodec "key" "0123456789ab" 3600000000000.
Definition ex_request (h : Header) : Request :=
  mkRequest "GET" "/app" "" "app.example.com" h "192.0.2.1:999" None None 0.
Definition ex_bearer : Request :=
  ex_request {["Authorization" := ["Bearer good"]; HeaderUser := ["root"]]}.
Definition ex_stripped : Request := ex_request {["Authorization" := ["Bearer good"]]}.
Definition ex_browser : Request := ex_request {["Accept" := ["text/html"]]}.
Definition ex_session : Session :=
  mkSession "ldap" "alice" "alice@example.com" ["ops"] ∅ 100 3700 0 "" "" "".

Lemma session_roundtrip_witness :
  ∃ cookies, SealSession ex_codec true {["krouter_auth_01234567-2" := "old"]} 0 ex_session = Ok cookies ∧
  OpenSession ex_codec (fold_left store_cookie cookies {["krouter_auth_01234567-2" := "old"]}) 200000000000 =
    Some ex_session.
Proof.
  eexists. split; [vm_compute; reflexivity|].
  apply (session_roundtrip ex_codec true {["krouter_auth_01234567-2" := "old"]} 0 ex_session);
    [vm_compute; congruence|vm_compute; reflexivity|vm_compute; reflexivity|vm_compute; reflexivity].
Defined.

Definition ex_identity_jwt : Identity := mkIdentity "alice" "" [] {["sub" := ["alice"]]}.

Lemma allowed_is_vouched_witness :
  ∃ s, vouched ex_enforcer ex_stripped ∅ 0 s ∧
       Some ex_identity_jwt = Some (session_identity s) ∧
       Forall (λ req, satisfies (session_identity s) req = true) (compiled.auAuthorization ex_auth).
Proof.
  apply (allowed_is_vouched ex_enforcer ex_bearer false ∅ 0 0 false
    ex_stripped (mkDecision true (Some ex_identity_jwt) "jwt" "allowed" 0 "" [] "" "") []);
    [vm_compute; reflexivity|reflexivity].
Defined.

Lemma identity_headers_not_spoofable_witness :
  hValues (rqHeader (Evaluate ex_enforcer ex_bearer false ∅ 0 0 false).1) HeaderUser = [] ∧
  hValues (Apply ex_identity (rqHeader (Evaluate ex_enforcer ex_bearer false ∅ 0 0 false).1)) HeaderUser =
    injected ex_identity HeaderUser.
Proof.
  apply (identity_headers_not_spoofable ex_enforcer ex_bearer false ∅ 0 0 false _
    (Evaluate ex_enforcer ex_bearer false ∅ 0 0 false).2 ex_identity HeaderUser).
  - apply surjective_pairing.
  - left.
Defined.

Lemma rejection_shape_witness :
  rejection ex_enforcer ex_browser false (unauthenticated ex_enforcer false true "/app").
Proof.
  apply (rejection_shape ex_enforcer ex_browser false ∅ 0 0 false ex_browser
    (unauthenticated ex_enforcer false true "/app") []); [vm_compute; reflexivity|reflexivity].
Defined.

Lemma session_config_never_panics_witness :
  (Evaluate ex_enforcer (ex_request {["Authorization" := ["Basic YWxpY2U6c2VjcmV0"]]}) true ∅ 0 0 false).2
    ≠ NilCodecPanic.
Proof.
  exact (session_config_never_panics ex_auth (ex_request {["Authorization" := ["Basic YWxpY2U6c2VjcmV0"]]})
    true ∅ 0 0 false ltac:(discriminate)).
Defined.


End auth.
