(* ===== verification/Waf.v ===== *)
(** * Web application firewall

    Models [internal/extensions/waf/engine.go]: how one request is put
    through the phases of a Coraza transaction and how its body is replayed.
    The Coraza engine is a parameter, a transaction being a value it steps. *)

From S2P Require Import Prelude GoStrings Http Compiled Tables Filters.
From stdpp Require Import options.

#[local] Open Scope nat_scope.
Import routing.

Module waf.

(** [types.Interruption]. *)
Record Interruption := mkInterruption { inStatus : Z; inRuleID : Z }.

(** A Coraza engine.  [bufferOf] is what the transaction holds of the body;
    the laws are the documented behaviour of the body buffer: it starts
    empty, only reading a body extends it, and it is read back whole. *)
Class Coraza := {
  Tx : Type;
  NewTransaction : string → Tx;
  ProcessConnection : Tx → string → Z → Tx;
  ProcessURI : Tx → string → string → string → Tx;
  SetServerName : Tx → string → Tx;
  AddRequestHeader : Tx → string → string → Tx;
  ProcessRequestHeaders : Tx → option Interruption * Tx;
  IsRequestBodyAccessible : Tx → bool;
  (** the interruption, what is left of the body, and the transaction *)
  ReadRequestBodyFrom : Tx → string → result string (option Interruption * string * Tx);
  ProcessRequestBody : Tx → result string (option Interruption * Tx);
  RequestBodyReader : Tx → result string string;
  bufferOf : Tx → string;
  buffer_new directives : bufferOf (NewTransaction directives) = "";
  buffer_connection tx c p : bufferOf (ProcessConnection tx c p) = bufferOf tx;
  buffer_uri tx u m p : bufferOf (ProcessURI tx u m p) = bufferOf tx;
  buffer_server tx s : bufferOf (SetServerName tx s) = bufferOf tx;
  buffer_header tx k v : bufferOf (AddRequestHeader tx k v) = bufferOf tx;
  buffer_headers tx : bufferOf (ProcessRequestHeaders tx).2 = bufferOf tx;
  buffer_body tx i tx' : ProcessRequestBody tx = Ok (i, tx') → bufferOf tx' = bufferOf tx;
  buffer_read tx body i rest tx' : ReadRequestBodyFrom tx body = Ok (i, rest, tx') →
    ∃ read, body = read +:+ rest ∧ bufferOf tx' = bufferOf tx +:+ read;
  buffer_reader tx b : RequestBodyReader tx = Ok b → b = bufferOf tx;
}.

(** [url.URL.RequestURI] and [http.Request.Proto]. *)
Class RequestLine := { requestURI : Request → string; requestProto : Request → string }.

Record Denial := mkDenial { dnStatus : Z; dnRuleID : Z }.

Definition denialFrom (i : Interruption) : Denial :=
  mkDenial (if (inStatus i =? 0)%Z then 403 else inStatus i) (inRuleID i).

(** [fmt.Sscanf(port, "%d", &n)]: the digits the text starts with. *)
Fixpoint leading_digits (s : string) : string :=
  match s with
  | String c s => if is_digit c then String c (leading_digits s) else ""
  | EmptyString => ""
  end.
Definition scan_int (s : string) : Z := default 0%Z (atoi (leading_digits s)).

Definition hostPort (remoteAddr : string) : string * Z :=
  match splitHostPort remoteAddr with
  | Some (host, port) => (host, scan_int port)
  | None => (remoteAddr, 0%Z)
  end.

Definition with_body (b : option string) (r : Request) : Request :=
  mkRequest (rqMethod r) (rqPath r) (rqRawQuery r) (rqHost r) (rqHeader r) (rqRemoteAddr r) (rqTLS r)
    b (rqContentLength r).

Section evaluate.
Context {coraza : Coraza} {line : RequestLine}.

(** The transaction with the request line and headers fed to it. *)
Definition open_transaction (engine : string) (r : Request) (clientIP : string) : Tx :=
  let tx := NewTransaction engine in
  let tx := ProcessConnection tx clientIP (hostPort (rqRemoteAddr r)).2 in
  let tx := ProcessURI tx (requestURI r) (rqMethod r) (requestProto r) in
  let tx := SetServerName tx (filters.hostOnly (rqHost r)) in
  let tx := AddRequestHeader tx "Host" (rqHost r) in
  fold_left (λ tx kvs, fold_left (λ tx v, AddRequestHeader tx kvs.1 v) kvs.2 tx)
    (map_to_list (rqHeader r)) tx.

(** A denied request goes no further; one that passes has its body replayed. *)
Inductive Verdict := Denied (d : Denial) | Passed (r : Request).

Definition Evaluate (engine : string) (r : Request) (clientIP : string) (headersOnly : bool) :
    result string Verdict :=
  let '(interruption, tx) := ProcessRequestHeaders (open_transaction engine r clientIP) in
  match interruption with
  | Some i => Ok (Denied (denialFrom i))
  | None =>
      '(interruption, rest, tx) ←
        match rqBody r with
        | Some body =>
            if negb headersOnly && IsRequestBodyAccessible tx
            then '(i, rest, tx) ← ReadRequestBodyFrom tx body; Ok (i, Some rest, tx)
            else Ok (None, None, tx)
        | None => Ok (None, None, tx)
        end;
      match interruption with
      | Some i => Ok (Denied (denialFrom i))
      | None =>
          '(interruption, tx) ← ProcessRequestBody tx;
          match interruption, rest with
          | Some i, _ => Ok (Denied (denialFrom i))
          | None, None => Ok (Passed r)
          | None, Some rest =>
              buffered ← RequestBodyReader tx;
              Ok (Passed (with_body (Some (buffered +:+ rest)) r))
          end
      end
  end.

(** ** Lemmas *)

Lemma open_transaction_buffer engine r clientIP :
  bufferOf (open_transaction engine r clientIP) = "".
Proof.
  unfold open_transaction.
  assert (∀ k vs tx, bufferOf (fold_left (λ tx v, AddRequestHeader tx k v) vs tx) = bufferOf tx) as H1.
  { intros k vs. induction vs as [|v vs IH]; intros tx; simpl; [done|]. by rewrite IH, buffer_header. }
  assert (∀ l tx, bufferOf (fold_left (λ tx (kvs : string * list string),
    fold_left (λ tx v, AddRequestHeader tx kvs.1 v) kvs.2 tx) l tx) = bufferOf tx) as H2.
  { intros l. induction l as [|kvs l IH]; intros tx; simpl; [done|]. by rewrite IH, H1. }
  by rewrite H2, buffer_header, buffer_server, buffer_uri, buffer_connection, buffer_new.
Qed.

Lemma with_body_same r b : rqBody r = b → with_body b r = r.
Proof. intros <-. by destruct r. Qed.

Lemma passed_request engine r clientIP headersOnly r' :
  Evaluate engine r clientIP headersOnly = Ok (Passed r') → r' = r.
Proof.
  unfold Evaluate. pose proof (buffer_headers (open_transaction engine r clientIP)) as Hb.
  rewrite open_transaction_buffer in Hb.
  destruct (ProcessRequestHeaders _) as [[i|] tx]; [done|]. simpl in Hb.
  assert (∀ tx0 rest, (∀ b, rest = Some b → ∃ read, rqBody r = Some (read +:+ b) ∧ bufferOf tx0 = read) →
    ('(i, tx1) ← ProcessRequestBody tx0;
     match i, rest with
     | Some i, _ => Ok (Denied (denialFrom i))
     | None, None => Ok (Passed r)
     | None, Some rest => buffered ← RequestBodyReader tx1; Ok (Passed (with_body (Some (buffered +:+ rest)) r))
     end) = Ok (Passed r') → r' = r) as Hend.
  { intros tx0 rest Hrest ([i tx1] & Hp & Hr)%bind_Ok. destruct i as [i|]; [by simplify_eq|].
    destruct rest as [b|]; [|by simplify_eq].
    apply bind_Ok in Hr as (buffered & ->%buffer_reader & [= <-]).
    destruct (Hrest b eq_refl) as (read & Hbody & Htx).
    rewrite (buffer_body _ _ _ Hp), Htx. by apply with_body_same. }
  destruct (rqBody r) as [body|] eqn:Hbody; [|exact (Hend tx None ltac:(done))].
  destruct (negb headersOnly && IsRequestBodyAccessible tx); [|exact (Hend tx None ltac:(done))].
  intros ([[i rest] tx1] & Hr & H)%bind_Ok.
  apply bind_Ok in Hr as ([[i' rest'] tx'] & Hread & [= -> <- ->]).
  destruct i as [i|]; [by simplify_eq|]. apply (Hend tx1 (Some rest')); [|exact H].
  intros b [= <-]. destruct (buffer_read _ _ _ _ _ Hread) as (read & -> & Htx).
  exists read. by rewrite Htx, Hb.
Qed.

Lemma denied_status engine r clientIP headersOnly d :
  Evaluate engine r clientIP headersOnly = Ok (Denied d) → dnStatus d ≠ 0%Z.
Proof.
  assert (∀ i, dnStatus (denialFrom i) ≠ 0%Z) as Hd.
  { intros i. unfold denialFrom. simpl. by destruct (Z.eqb_spec (inStatus i) 0). }
  unfold Evaluate. destruct (ProcessRequestHeaders _) as [[i|] tx]; [intros [= <-]; apply Hd|].
  intros ([[i rest] tx1] & _ & H)%bind_Ok. destruct i as [i|]; [injection H as <-; apply Hd|].
  apply bind_Ok in H as ([i tx2] & _ & H). destruct i as [i|]; [injection H as <-; apply Hd|].
  destruct rest; [|done]. by apply bind_Ok in H as (? & _ & ?).
Qed.

(** A request the WAF lets through reaches the rest of the chain unchanged, its
    body replayed in full. *)
Theorem inspected_request_unchanged engine r clientIP headersOnly r' :
  Evaluate engine r clientIP headersOnly = Ok (Passed r') → r' = r.
Proof. apply passed_request. Qed.

End evaluate.

(** ** A concrete engine: a buffer of four bytes that denies a word *)

#[refine] Instance ex_coraza : Coraza := {|
  Tx := string;
  NewTransaction _ := "";
  ProcessConnection tx _ _ := tx;
  ProcessURI tx _ _ _ := tx;
  SetServerName tx _ := tx;
  AddRequestHeader tx _ _ := tx;
  ProcessRequestHeaders tx := (None, tx);
  IsRequestBodyAccessible _ := true;
  ReadRequestBodyFrom tx body := Ok (None, sdrop 4 body, tx +:+ stake 4 body);
  ProcessRequestBody tx := Ok (if (tx == "evil") then Some (mkInterruption 0 42) else None, tx);
  RequestBodyReader tx := Ok tx;
  bufferOf tx := tx;
|}.
Proof.
  all: try done.
  - by intros tx i tx' [= _ ->].
  - intros tx body i rest tx' [= _ <- <-]. exists (stake 4 body). by rewrite stake_sdrop.
  - by intros tx b [= ->].
Defined.

Instance ex_line : RequestLine := {| requestURI := rqPath; requestProto _ := "HTTP/1.1" |}.

Definition ex_post (body : string) : Request :=
  mkRequest "POST" "/" "" "example.com" ∅ "192.0.2.1:999" None (Some body) (Z.of_nat (len body)).

Lemma inspected_request_unchanged_witness :
  Evaluate "" (ex_post "hello world") "192.0.2.1" false = Ok (Passed (ex_post "hello world")) ∧
  (∀ r', Evaluate "" (ex_post "hello world") "192.0.2.1" false = Ok (Passed r') → r' = ex_post "hello world").
Proof.
  split; [vm_compute; reflexivity|].
  intros r' H. exact (inspected_request_unchanged "" (ex_post "hello world") "192.0.2.1" false r' H).
Defined.

Example denies_evil :
  Evaluate "" (ex_post "evil!") "192.0.2.1" false = Ok (Denied (mkDenial 403 42)).
Proof. vm_compute. reflexivity. Qed.

End waf.
