(* ===== verification/ReverseProxy.v ===== *)
(** * The reverse proxy of the standard library

    What [internal/lib/transports/http/proxy] uses of [net/http] and
    [net/http/httputil]: cookies on the wire, redirects to a path, and the
    preparation of the outbound request by [httputil.ReverseProxy] before
    and after its [Rewrite] hook. *)

From S2P Require Import Prelude GoStrings Http Compiled Tables Filters Auth.
From stdpp Require Import options.

#[local] Open Scope nat_scope.

Module httputil.

(** ** Tokens *)

(** [textproto.TrimString]. *)
Definition ows (c : ascii) : bool := has_byte c (String "032" (String "009" (String "010" (String "013" "")))).
Fixpoint trim_ows_left (s : string) : string :=
  match s with
  | String c s' => if ows c then trim_ows_left s' else s
  | EmptyString => ""
  end.
Fixpoint trim_ows_right (s : string) : string :=
  match s with
  | String c s' => let t := trim_ows_right s' in if (t == "") && ows c then "" else String c t
  | EmptyString => ""
  end.
Definition trimString (s : string) : string := trim_ows_right (trim_ows_left s).

(** [ascii.EqualFold]. *)
Definition asciiEqualFold (s t : string) : bool := toLower s == toLower t.

(** [httpguts.HeaderValuesContainsToken]. *)
Definition containsToken (values : list string) (token : string) : bool :=
  existsb (λ v, existsb (λ t, asciiEqualFold (trimString t) token) (splitOn "," v)) values.

Definition upgradeType (h : Header) : string :=
  if containsToken (hValues h "Connection") "Upgrade" then hGet h "Upgrade" else "".

(** ** Hop-by-hop headers *)

Definition hopHeaders : list string :=
  ["Connection"; "Proxy-Connection"; "Keep-Alive"; "Proxy-Authenticate"; "Proxy-Authorization";
   "Te"; "Trailer"; "Transfer-Encoding"; "Upgrade"].

(** The headers the [Connection] header names. *)
Definition connection_names (h : Header) : list string :=
  filter (λ f, f ≠ "") (trimString <$> (hValues h "Connection" ≫= splitOn ",")).

Definition removeHopByHopHeaders (h : Header) : Header :=
  fold_left hDel hopHeaders (fold_left hDel (connection_names h) h).

(** ** Query parameters *)

Definition is_hex (c : ascii) : bool := bool_decide (is_Some (hex_value c)).

(** Whether [cleanQueryParams] reaches the end of the query. *)
Fixpoint query_clean (s : string) : bool :=
  match s with
  | EmptyString => true
  | String c s1 =>
      if (c == ";"%char) then false
      else if (c == "%"%char) then
        match s1 with
        | String a (String b s2) => is_hex a && is_hex b && query_clean s2
        | _ => false
        end
      else query_clean s1
  end.

(** [url.Values.Encode]: keys sorted. *)
Definition encode_values (m : gmap string (list string)) : string :=
  joinWith "&" (compiled.sorted_keys m ≫= λ k,
    (λ v, auth.queryEscape k +:+ "=" +:+ auth.queryEscape v) <$> default [] (m !! k)).

Definition cleanQueryParams (s : string) : string :=
  if query_clean s then s else encode_values (parseQuery s).

(** ** The outbound request *)

Definition outgoing_body (r : Request) : option string :=
  if (rqContentLength r =? 0)%Z then None else rqBody r.

Definition is_print (c : ascii) : bool := in_range 32 126 c.

Definition strip_forwarding (h : Header) : Header :=
  hDel (hDel (hDel (hDel h "Forwarded") "X-Forwarded-For") "X-Forwarded-Host") "X-Forwarded-Proto".

(** Header handling before [Rewrite]; [None] is an unprintable upgrade type,
    answered by the error handler. *)
Definition outgoing_header (h : Header) : option Header :=
  let reqUpType := upgradeType h in
  if negb (sforall is_print reqUpType) then None
  else
    let out := removeHopByHopHeaders h in
    let out := if containsToken (hValues h "Te") "trailers" then hSet out "Te" "trailers" else out in
    let out := if (reqUpType != "") then hSet (hSet out "Connection" "Upgrade") "Upgrade" reqUpType else out in
    Some (strip_forwarding out).

Definition outgoing (r : Request) : option Request :=
  h ← outgoing_header (rqHeader r);
  Some (mkRequest (rqMethod r) (rqPath r) (cleanQueryParams (rqRawQuery r)) (rqHost r) h
          (rqRemoteAddr r) (rqTLS r) (outgoing_body r) (rqContentLength r)).

(** [SetURL] with a target that has no path or query of its own. *)
Definition joined_path (path : string) : string :=
  if hasPrefix path "/" then path else "/" +:+ path.

(** After [Rewrite]: an absent user agent is sent as absent. *)
Definition finish_out (r : Request) : Request :=
  if bool_decide (is_Some (rqHeader r !! "User-Agent")) then r
  else filters.with_header (hSet (rqHeader r) "User-Agent" "") r.

(** [copyHeader]. *)
Definition copyHeader (dst src : Header) : Header :=
  fold_left (λ dst kvs, fold_left (λ dst v, hAdd dst kvs.1 v) kvs.2 dst) (map_to_list src) dst.

(** ** Redirects to a path *)

(** [path.Clean] of a rooted path. *)
Definition clean_step (stack : list string) (seg : string) : list string :=
  if (seg == "") || (seg == ".") then stack
  else if (seg == "..") then tail stack
  else seg :: stack.
Definition path_clean (p : string) : string :=
  "/" +:+ joinWith "/" (reverse (fold_left clean_step (splitOn "/" p) [])).

(** [http.Redirect] to a rooted path with a query. *)
Definition local_target (url : string) : string :=
  let '(p, query) := match cut url "?" with Some (p, q) => (p, "?" +:+ q) | None => (url, "") end in
  let cleaned := path_clean p in
  (if hasSuffix p "/" && negb (hasSuffix cleaned "/") then cleaned +:+ "/" else cleaned) +:+ query.

(** [hexEscapeNonASCII]. *)
Fixpoint hexEscapeNonASCII (s : string) : string :=
  match s with
  | EmptyString => ""
  | String c s => (if in_range 0 127 c then String c "" else filters.percent c) +:+ hexEscapeNonASCII s
  end.

Definition redirect_local (w : Response) (r : Request) (url : string) (code : Z) : Response :=
  filters.httpRedirect w r (hexEscapeNonASCII (local_target url)) code.

(** ** Cookies on the wire *)

(** [http.SetCookie] of the cookies [session.go] makes. *)
Definition cookie_string (k : auth.SetCookie) : string :=
  auth.ckName k +:+ "=" +:+ auth.ckValue k +:+ "; Path=/" +:+
  (if (0 <? auth.ckMaxAge k)%Z then "; Max-Age=" +:+ pretty (auth.ckMaxAge k)
   else if (auth.ckMaxAge k <? 0)%Z then "; Max-Age=0" else "") +:+
  "; HttpOnly" +:+ (if auth.ckSecure k then "; Secure" else "") +:+
  match auth.ckSameSite k with auth.SameSiteLax => "; SameSite=Lax" | auth.SameSiteNone => "; SameSite=None" end.

Definition set_cookies (w : Response) (cookies : list auth.SetCookie) : Response :=
  rsSetHeader w (fold_left (λ h k, hAdd h "Set-Cookie" (cookie_string k)) cookies (rsHeader w)).

(** [isToken] and [parseCookieValue] of [net/http]. *)
Definition is_token (s : string) : bool := (s != "") && sforall valid_header_byte s.
Definition cookie_byte (c : ascii) : bool := in_range 32 126 c && negb (has_byte c (filters.quote +:+ ";\")).
Definition cookie_value (s : string) : option string :=
  let raw := if (1 <? len s) && hasPrefix s filters.quote && hasSuffix s filters.quote
             then stake (len s - 2) (sdrop 1 s) else s in
  if sforall cookie_byte raw then Some raw else None.

Definition read_cookie (part : string) : option (string * string) :=
  let part := trimString part in
  let '(name, val) := default (part, "") (cut part "=") in
  let name := trimString name in
  if is_token name then (λ v, (name, v)) <$> cookie_value val else None.

(** [Request.Cookie]: the first cookie of a name. *)
Definition cookies_of (h : Header) : auth.Jar :=
  fold_right (λ kv (jar : auth.Jar), <[kv.1 := kv.2]> jar) ∅
    (omap read_cookie (hValues h "Cookie" ≫= splitOn ";")).

(** ** Lemmas *)

Lemma hValues_hDel_if h k k' :
  hValues (hDel h k) k' = if decide (canonicalKey k = canonicalKey k') then [] else hValues h k'.
Proof. unfold hValues, hDel. rewrite lookup_delete. by case_decide. Qed.

Lemma hValues_hDels ks h k :
  hValues (fold_left hDel ks h) k =
    if decide (canonicalKey k ∈ (canonicalKey <$> ks)) then [] else hValues h k.
Proof.
  revert h. induction ks as [|k0 ks IH]; intros h; [done|]. cbn [fold_left fmap list_fmap].
  rewrite IH, hValues_hDel_if.
  destruct (decide (canonicalKey k ∈ (canonicalKey <$> ks))) as [Hin|Hnin].
  - by rewrite decide_True by by right.
  - destruct (decide (canonicalKey k0 = canonicalKey k)) as [He|Hne].
    + rewrite decide_True; [done|]. rewrite He. left.
    + rewrite decide_False; [done|]. intros [?|?]%elem_of_cons; congruence.
Qed.

Lemma outgoing_header_stripped h out : outgoing_header h = Some out → filters.stripped out.
Proof.
  unfold outgoing_header. destruct (negb _); [done|]. intros Ho. apply (inj Some) in Ho as <-.
  unfold filters.stripped, filters.forwarding_headers, strip_forwarding.
  repeat apply Forall_cons; try apply Forall_nil; try done;
    rewrite !hValues_hDel_if; repeat case_decide; done.
Qed.

(** A header the proxy does not treat specially passes, or is dropped when
    the client's [Connection] header names it. *)
Lemma outgoing_header_values h out k :
  canonicalKey k ∉ hopHeaders → canonicalKey k ∉ filters.forwarding_headers →
  outgoing_header h = Some out →
  hValues out k = if decide (canonicalKey k ∈ (canonicalKey <$> connection_names h)) then [] else hValues h k.
Proof.
  intros Hhop Hfwd. unfold outgoing_header. destruct (negb _); [done|]. intros Ho. apply (inj Some) in Ho as <-.
  unfold strip_forwarding. rewrite !hValues_hDel_if.
  rewrite !decide_False by (intros He; apply Hfwd; rewrite <-He; apply (bool_decide_unpack _); vm_compute; exact I).
  assert (∀ h0 k0 v, k0 ∈ hopHeaders → hValues (hSet h0 k0 v) k = hValues h0 k) as Hset.
  { intros h0 k0 v Hk0. apply hValues_hSet_ne. intros He. apply Hhop. rewrite <-He.
    unfold hopHeaders in Hk0. repeat (apply elem_of_cons in Hk0 as [->|Hk0]; [apply (bool_decide_unpack _); vm_compute; exact I|]).
    by apply elem_of_nil in Hk0. }
  assert (hValues (removeHopByHopHeaders h) k =
    if decide (canonicalKey k ∈ (canonicalKey <$> connection_names h)) then [] else hValues h k) as Hrm.
  { unfold removeHopByHopHeaders. rewrite !hValues_hDels. rewrite decide_False; [done|].
    change (canonicalKey <$> hopHeaders) with hopHeaders. done. }
  destruct (containsToken _ _), (upgradeType h != ""); rewrite ?Hset by (apply (bool_decide_unpack _); vm_compute; exact I); done.
Qed.

Lemma finish_out_values r k :
  canonicalKey k ≠ "User-Agent" → hValues (rqHeader (finish_out r)) k = hValues (rqHeader r) k.
Proof.
  intros Hk. unfold finish_out. case_bool_decide; [done|]. simpl. apply hValues_hSet_ne.
  change (canonicalKey "User-Agent") with "User-Agent". congruence.
Qed.

Example cleans_path : local_target "/a//b/../login?x=/../y" = "/a/login?x=/../y".
Proof. vm_compute. reflexivity. Qed.

Example reads_cookies :
  cookies_of {["Cookie" := ["a=1; b=x=y;a=2; bad name=3"]]} = {["a" := "1"; "b" := "x=y"]}.
Proof. vm_compute. reflexivity. Qed.

End httputil.
