(* ===== verification/Handler.v ===== *)
(** * The request path

    Models [internal/lib/transports/http/proxy]: [serveExtensions],
    [serveAuth] and [deny] of [extensions.go], and [Serve], [forward],
    [sampleMirrors], [fireMirrors] and [TLSConfigFor] of [handler.go],
    composed from the matching, balancing, rate limiting, authentication,
    WAF and filter components.

    A handler runs in a state monad over [World]: the round-robin counters
    and rate limiters shared by all requests, the response being written,
    the random draws taken and the requests sent so far.  [None] is a Go
    panic.  What happens outside krouter (the backend exchange, a protocol
    switch, the reserved endpoints, the clock, the random source) is the
    class [Outside]. *)

From S2P Require Import Prelude GoStrings Http NetIP ClientIP Compiled Tables Matching Balancing.
From S2P Require Import RateLimit Filters Auth Waf ReverseProxy.
From Stdlib Require Import QArith.QArith_base.
From stdpp Require Import options.

#[local] Close Scope Q_scope.
#[local] Open Scope nat_scope.
Import routing matching balancing ratelimiting filters.

Module proxy.

(** ** Worlds *)

(** Which [http.Transport] carries a request. *)
Inductive TransportKind :=
  | PlainTransport                  (** [h.transport]: HTTP/1.1 *)
  | H2CTransport                    (** [h.grpcTransport] *)
  | TLSTransport (t : Transport).   (** of a BackendTLSPolicy *)

(** One request handed to a transport. *)
Record Sent := mkSent {
  seMirror : bool;
  seBackend : BackendTable;
  seTransport : TransportKind;
  seScheme : string;
  seAddress : string;               (** [URL.Host] *)
  seRequest : Request;
}.

Record BackendResponse := mkBackendResponse { brStatus : Z; brHeader : Header; brBody : string }.

Inductive ExchangeError := DeadlineExceeded | ConnectionFailed.

Class Outside := {
  now : Z;                                           (** nanoseconds *)
  nonce : nat;
  drawBelow : nat → Q → bool;                        (** [rand.Float64()*100 < p], per draw *)
  (** the chunks of the body the transport read, and the outcome within a
      timeout (none unless positive) *)
  exchange : Sent → Z → list string * result ExchangeError BackendResponse;
  (** [handleUpgradeResponse]; [None] calls the error handler *)
  switchProtocols : Request → BackendResponse → Response → option Response;
  serveEndpoint : Response → Request → list Enforcer → Z * Response;   (** [auth.ServeEndpoint] *)
  (** a protocol switch answers 101 *)
  switch_status q resp w w' :
    switchProtocols q resp w = Some w' → rsStatus w = None → rsStatus w' = Some 101%Z;
  (** a transport reads the body from its start *)
  exchange_reads_body sent timeout :
    ∃ rest, default "" (rqBody (seRequest sent)) = foldr String.append "" (exchange sent timeout).1 +:+ rest;
}.

Section handler.
Context {F : Type} {float : FloatOps F}.
Context {sort : GoSort} {sealer : auth.Sealer} {providers : auth.Providers}.
Context {coraza : waf.Coraza} {line : waf.RequestLine} {outside : Outside}.

Record World := mkWorld {
  wStore : Store;
  wLimiters : gmap nat (Limiter F);   (** by rule address *)
  wResponse : Response;
  wDraws : nat;
  wSent : list Sent;
}.

Definition M (A : Type) : Type := World → World * option A.

#[global] Instance M_ret : MRet M := λ A a w, (w, Some a).
#[global] Instance M_bind : MBind M := λ A B f m w,
  match m w with (w, Some a) => f a w | (w, None) => (w, None) end.

Definition panic {A} : M A := λ w, (w, None).
Definition respond (f : Response → Response) : M unit := λ w,
  (mkWorld (wStore w) (wLimiters w) (f (wResponse w)) (wDraws w) (wSent w), Some tt).
Definition respond_with {A} (f : Response → A * Response) : M A := λ w,
  let '(a, resp) := f (wResponse w) in
  (mkWorld (wStore w) (wLimiters w) resp (wDraws w) (wSent w), Some a).
Definition on_store {A} (f : Store → A * Store) : M A := λ w,
  let '(a, s) := f (wStore w) in
  (mkWorld s (wLimiters w) (wResponse w) (wDraws w) (wSent w), Some a).
Definition draw (p : Q) : M bool := λ w,
  (mkWorld (wStore w) (wLimiters w) (wResponse w) (S (wDraws w)) (wSent w), Some (drawBelow (wDraws w) p)).
Definition record_sent (s : Sent) : M unit := λ w,
  (mkWorld (wStore w) (wLimiters w) (wResponse w) (wDraws w) (wSent w ++ [s]), Some tt).

(** The limiter of a rule; a rule's limiter is created with its table. *)
Definition limiter_of (w : World) (rule : RuleTable) (cfg : compiled.RateLimit) : Limiter F :=
  default (NewLimiter cfg) (wLimiters w !! ruAddr rule).
Definition allow (rule : RuleTable) (cfg : compiled.RateLimit) (r : Request) (clientIP : string) :
    M (bool * Z) := λ w,
  let l := limiter_of w rule cfg in
  let '(ok, wait, l) := Allow l now (KeyFor l r clientIP) in
  (mkWorld (wStore w) (<[ruAddr rule := l]> (wLimiters w)) (wResponse w) (wDraws w) (wSent w),
   Some (ok, wait)).

(** ** Extensions *)

Definition deny (grpcRule : bool) (httpStatus : Z) (grpcCode message : string) : M Z :=
  if grpcRule then respond (λ w, grpc.WriteStatus w grpcCode message) ;; mret 200%Z
  else respond (λ w, httpError w message httpStatus) ;; mret httpStatus.

(** [math.Ceil(wait.Seconds())], at least one. *)
Definition retry_seconds (wait : Z) : Z := Z.max 1 (- ((- wait) / 1000000000))%Z.

(** The produced status, zero to continue; the authenticated user; and the
    request, whose headers were edited. *)
Definition serveAuth (r : Request) (enforcer : Enforcer) (grpcRule : bool) : M (Z * string * Request) :=
  let '(r, evaluated) := auth.Evaluate (auth.NewEnforcer (enCfg enforcer)) r
    (bool_decide (is_Some (rqTLS r))) (httputil.cookies_of (rqHeader r)) now nonce grpcRule in
  match evaluated with
  | auth.NilCodecPanic => panic
  | auth.Decided decision cookies =>
      respond (λ w, httputil.set_cookies w cookies) ;;
      if auth.dAllowed decision then
        match auth.dIdentity decision with
        | Some identity =>
            mret (0%Z, auth.idUser identity, with_header (auth.Apply identity (rqHeader r)) r)
        | None => panic
        end
      else if (auth.dRedirectTo decision != "") then
        respond (λ w, httputil.redirect_local w r (auth.dRedirectTo decision) (auth.dStatus decision)) ;;
        mret (auth.dStatus decision, "", r)
      else
        respond (λ w, rsSetHeader w
          (fold_left (λ h c, hAdd h "WWW-Authenticate" c) (auth.dChallenges decision) (rsHeader w))) ;;
        status ← deny grpcRule (auth.dStatus decision) (auth.dGRPCCode decision) (auth.dMessage decision);
        mret (status, "", r)
  end.

(** What [serveExtensions] returns, with the request the rest of the chain
    sees. *)
Record Extended := mkExtended {
  exStatus : Z;          (** zero: continue serving *)
  exExtension : string;
  exWafRule : Z;
  exUser : string;
  exRequest : Request;
}.

Definition rate_limit_stage (rule : RuleTable) (r : Request) (clientIP : string) : M (option Z) :=
  match ruLimiter rule with
  | None => mret None
  | Some cfg =>
      '(allowed, wait) ← allow rule cfg r clientIP;
      if (allowed : bool) then mret None
      else
        respond (λ w, rsSetHeader w (hSet (rsHeader w) "Retry-After" (pretty (retry_seconds wait)))) ;;
        status ← deny (ruGRPC rule) (compiled.rlStatus cfg) grpc.StatusResourceExhausted "rate limited";
        mret (Some status)
  end.

(** Preflights carry no credentials: rules with a CORS filter answer them. *)
Definition auth_stage (rule : RuleTable) (r : Request) : M (Z * string * Request) :=
  match ruAuthEnforcer rule with
  | Some enforcer =>
      if bool_decide (ruCORS rule = None) || negb (isCORSPreflight r)
      then serveAuth r enforcer (ruGRPC rule)
      else mret (0%Z, "", r)
  | None => mret (0%Z, "", r)
  end.

(** A rejection is a status and the interrupting rule. *)
Definition waf_stage (rule : RuleTable) (r : Request) (clientIP : string) : M (result (Z * Z) Request) :=
  match ruWAFEngine rule with
  | None => mret (Ok r)
  | Some engine =>
      match waf.Evaluate engine r clientIP (isUpgrade r) with
      | Err _ =>
          status ← deny (ruGRPC rule) 500 grpc.StatusInternal "web application firewall error";
          mret (Err (status, 0%Z))
      | Ok (waf.Denied d) =>
          status ← deny (ruGRPC rule) (waf.dnStatus d) grpc.StatusPermissionDenied "forbidden";
          mret (Err (status, waf.dnRuleID d))
      | Ok (waf.Passed r) => mret (Ok r)
      end
  end.

Definition serveExtensions (r : Request) (rule : RuleTable) (clientIP : string) : M Extended :=
  if ruExtensionsInvalid rule then
    status ← deny (ruGRPC rule) 500 grpc.StatusInternal "invalid route extension";
    mret (mkExtended status "extensionref" 0 "" r)
  else
    limited ← rate_limit_stage rule r clientIP;
    match limited with
    | Some status => mret (mkExtended status "ratelimit" 0 "" r)
    | None =>
        '(status, user, r) ← auth_stage rule r;
        if negb (status =? 0)%Z then mret (mkExtended status "auth" 0 "" r)
        else
          checked ← waf_stage rule r clientIP;
          match checked with
          | Err (status, ruleID) => mret (mkExtended status "waf" ruleID "" r)
          | Ok r => mret (mkExtended 0 "" 0 user r)
          end
    end.

(** ** Forwarding *)

Definition endpoint_address (e : Endpoint) : string := enAddress e +:+ ":" +:+ pretty (enPort e).

Fixpoint sampleMirrors (mirrors : list MirrorTable) : M (list MirrorTable) :=
  match mirrors with
  | [] => mret []
  | mirror :: rest =>
      sampled ← (if Qle_bool 100%Q (miPercent mirror) then mret true else draw (miPercent mirror));
      rest ← sampleMirrors rest;
      mret (if (sampled : bool) then mirror :: rest else rest)
  end.

(** The [Rewrite] hook: the request to mirror and the request to send. *)
Definition rewrite_out (rule : RuleTable) (backend : BackendTable) (r out : Request)
    (withTLS trustedPeer : bool) : Request * Request :=
  let out := with_host (rqHost r) (with_path (httputil.joined_path (rqPath out)) out) in
  let pr := rewriteForwardingHeaders (mkProxyRequest r out) withTLS trustedPeer in
  let pr := fold_left applyFilter (ruFilters rule) pr in
  (prOut pr, prOut (fold_left applyFilter (bkFilters backend) pr)).

(** [ModifyResponse] on the headers. *)
Definition modify_response (rule : RuleTable) (backend : BackendTable) (r : Request) (h : Header) : Header :=
  let h := fold_left applyResponseFilter (ruFilters rule) h in
  let h := fold_left applyResponseFilter (bkFilters backend) h in
  match ruCORS rule with
  | Some cors => applyCORSResponse h (hGet (rqHeader r) "Origin") cors
  | None => h
  end.

Definition gateway_error (err : ExchangeError) : M Z :=
  match err with
  | DeadlineExceeded => respond (λ w, httpError w "gateway timeout" 504) ;; mret 504%Z
  | ConnectionFailed => respond (λ w, httpError w "bad gateway" 502) ;; mret 502%Z
  end.

(** [ReverseProxy.ServeHTTP] from the exchange on. *)
Definition relay_response (rule : RuleTable) (backend : BackendTable) (r : Request)
    (sent : Sent) (resp : BackendResponse) : M Z :=
  if (brStatus resp =? 101)%Z then
    let resp := mkBackendResponse 101 (modify_response rule backend r (brHeader resp)) (brBody resp) in
    switched ← respond_with (λ w,
      match switchProtocols (seRequest sent) resp w with
      | Some w' => (true, w')
      | None => (false, w)
      end);
    if (switched : bool) then mret 101%Z else gateway_error ConnectionFailed
  else
    let h := modify_response rule backend r (httputil.removeHopByHopHeaders (brHeader resp)) in
    respond (λ w, rsWrite (writeHeader (rsSetHeader w (httputil.copyHeader (rsHeader w) h)) (brStatus resp))
                    (brBody resp)) ;;
    mret (brStatus resp).

Definition backend_transport (rule : RuleTable) (backend : BackendTable) : TransportKind * string :=
  match bkTLSTransport backend with
  | Some t => (TLSTransport t, "https")
  | None => (if ruGRPC rule || bkH2C backend then H2CTransport else PlainTransport, "http")
  end.

(** The copy of a request one mirror receives. *)
Definition mirror_copy (req : Request) (body : option cappedBuffer) : Request :=
  mkRequest (rqMethod req) (rqPath req) (rqRawQuery req) (rqHost req) (rqHeader req) (rqRemoteAddr req)
    (rqTLS req) (cbBuf <$> body) (match body with Some b => Z.of_nat (len (cbBuf b)) | None => 0%Z end).

Definition mirror_transport (backend : BackendTable) (transport : TransportKind) : TransportKind * string :=
  match bkTLSTransport backend with
  | Some t => (TLSTransport t, "https")
  | None => (transport, "http")
  end.

Fixpoint fire_each (st : State) (mirrors : list MirrorTable) (req : Request) (body : option cappedBuffer)
    (transport : TransportKind) : M unit :=
  match mirrors with
  | [] => mret tt
  | mirror :: rest =>
      let backend := miBackend mirror in
      (if bkTLSInvalid backend then mret tt
       else
         picked ← on_store (Pick backend (stEndpoints st));
         match picked with
         | Err NoEndpoint => mret tt
         | Err IndexPanic => panic
         | Ok endpoint =>
             let '(t, scheme) := mirror_transport backend transport in
             record_sent (mkSent true backend t scheme (endpoint_address endpoint) (mirror_copy req body))
         end) ;;
      fire_each st rest req body transport
  end.

Definition fireMirrors (st : State) (mirrors : list MirrorTable) (req : option Request)
    (body : option cappedBuffer) (transport : TransportKind) : M unit :=
  match req with
  | None => mret tt
  | Some req =>
      if (length mirrors =? 0) then mret tt
      else if match body with Some b => cbOverflowed b | None => false end then mret tt
      else fire_each st mirrors req body transport
  end.

Definition selection_error (rule : RuleTable) (grpcAnswer : Response → Response) (message : string)
    (status : Z) : M Z :=
  if ruGRPC rule then respond grpcAnswer ;; mret 200%Z
  else respond (λ w, httpError w message status) ;; mret status.

(** The exchange with the selected endpoint, and the mirrors after it. *)
Definition proxy_to (st : State) (r : Request) (rule : RuleTable) (backend : BackendTable)
    (target : Endpoint) (withTLS trustedPeer : bool) : M Z :=
  let '(transport, scheme) := backend_transport rule backend in
  mirrors ← sampleMirrors (ruMirrors rule);
  let capture := negb (length mirrors =? 0) && bool_decide (is_Some (rqBody r)) &&
                 negb (rqContentLength r =? 0)%Z in
  let buffer := mkCappedBuffer "" (N.to_nat mirrorBodyLimit) false in
  match httputil.outgoing r with
  | None => gateway_error ConnectionFailed
  | Some out =>
      let '(mirrored, out) := rewrite_out rule backend r out withTLS trustedPeer in
      let sent := mkSent false backend transport scheme (endpoint_address target) (httputil.finish_out out) in
      record_sent sent ;;
      let '(chunks, outcome) := exchange sent (Timeout rule) in
      status ← match outcome with
               | Err err => gateway_error err
               | Ok resp => relay_response rule backend r sent resp
               end;
      fireMirrors st mirrors (if (length mirrors =? 0) then None else Some mirrored)
        (if capture then Some (fold_left cbWrite chunks buffer) else None) transport ;;
      mret status
  end.

Definition forward (st : State) (r : Request) (rule : RuleTable) (withTLS trustedPeer : bool) : M Z :=
  picked ← on_store (PickBackend rule);
  match picked with
  | None => selection_error rule grpc.Unavailable "no available backend" 500
  | Some backend =>
      if negb (bkValid backend) then selection_error rule grpc.Internal "invalid backend reference" 500
      else if bkTLSInvalid backend then
        respond (λ w, httpError w "bad gateway" 502) ;; mret 502%Z
      else
        target ← on_store (Pick backend (stEndpoints st));
        match target with
        | Err NoEndpoint => selection_error rule grpc.Unavailable "no ready endpoints" 503
        | Err IndexPanic => panic
        | Ok target => proxy_to st r rule backend target withTLS trustedPeer
        end
  end.

(** ** Serving *)

(** The attributes of the access log event. *)
Record Access := mkAccess {
  acListener : string;
  acRoute : string;
  acStatus : Z;
  acExtension : string;
  acWafRule : Z;
  acUser : string;
  acClient : string;
  acGRPCStatus : option string;
}.

(** The filter chain after the extensions let the request through. *)
Definition serve_filters (st : State) (r : Request) (rule : RuleTable) (withTLS trustedPeer : bool) : M Z :=
  match ruCORS rule, isCORSPreflight r with
  | Some cors, true => respond_with (λ w, serveCORSPreflight w r cors)
  | _, _ =>
      match redirectFilter rule with
      | Some redirect => respond_with (λ w, serveRedirect w r redirect withTLS)
      | None => forward st r rule withTLS trustedPeer
      end
  end.

Definition serve_rule (st : State) (r : Request) (rule : RuleTable) (l : ListenerTable) (route : RouteTable)
    (withTLS : bool) (clientIP : string) (trustedPeer : bool) : M Access :=
  ext ← serveExtensions r rule clientIP;
  status ← (if (exStatus ext =? 0)%Z then serve_filters st (exRequest ext) rule withTLS trustedPeer
            else mret (exStatus ext));
  written ← respond_with (λ w, (w, w));
  mret (mkAccess (liName l) (Key route) status (exExtension ext) (exWafRule ext) (exUser ext)
          (if trustedPeer then clientIP else rqRemoteAddr r)
          (if ruGRPC rule then grpc.StatusFromHeader (rsHeader written) else None)).

Definition Serve (st : State) (r : Request) (port : Z) (withTLS : bool) : M (option Access) :=
  let host := hostOnly (rqHost r) in
  let tables := stTables st in
  let '(clientIP, trustedPeer) := ClientIP tables port r in
  if match rqTLS r with
     | Some sn => withTLS && Misdirected tables port sn host
     | None => false
     end
  then respond (λ w, httpError w "misdirected request" 421) ;; mret None
  else
    let candidates := AuthEndpoint tables port host (rqPath r) in
    if negb (length candidates =? 0) then
      status ← respond_with (λ w, serveEndpoint w r candidates);
      mret (Some (mkAccess "" "" status "auth" 0 ""
                    (if trustedPeer then clientIP else rqRemoteAddr r) None))
    else
      match Match tables port host r with
      | None =>
          (if IsRequest r then respond grpc.Unimplemented
           else respond (λ w, httpError w "not found" 404)) ;; mret None
      | Some (rule, l, route) =>
          access ← serve_rule st r rule l route withTLS clientIP trustedPeer;
          mret (Some access)
      end.

(** ** TLS *)

Record TLSConfig := mkTLSConfig {
  tcCertificate : Certificate;
  tcNextProtos : list string;
  tcClientAuth : ClientAuthType;
  tcClientCAs : option CertPool;
}.

Definition CertificateForPort (st : State) (port : Z) (serverName : string) : result string Certificate :=
  of_option ("no certificate for port " +:+ pretty port)
    (ListenerCertificate (CertificateFor (stTables st) port serverName)).

Definition TLSConfigFor (st : State) (port : Z) (serverName : string) : result string TLSConfig :=
  let listener := CertificateFor (stTables st) port serverName in
  cert ← of_option ("no certificate for port " +:+ pretty port) (ListenerCertificate listener);
  let '(pool, mode) := ClientValidation listener in
  Ok (mkTLSConfig cert ["h2"; "http/1.1"] mode (if bool_decide (mode = NoClientCert) then None else pool)).

(** ** Reasoning about the monad

    [spec w P Q m]: run from [w], [m] appends only requests satisfying [P]
    to the sent ones, and if it returns, [Q] holds of value and world. *)

Definition spec {A} (w : World) (P : Sent → Prop) (Q : A → World → Prop) (m : M A) : Prop :=
  (∃ l, wSent (m w).1 = wSent w ++ l ∧ Forall P l) ∧ (∀ a, (m w).2 = Some a → Q a (m w).1).

Lemma spec_ret {A} w P (Q : A → World → Prop) a : Q a w → spec w P Q (mret a).
Proof. intros HQ. split; [exists []; by rewrite app_nil_r|]. by intros a' [= <-]. Qed.

Lemma spec_panic {A} w P (Q : A → World → Prop) : spec w P Q panic.
Proof. split; [exists []; by rewrite app_nil_r|done]. Qed.

Lemma spec_bind {A B} w P Q R (m : M A) (f : A → M B) :
  spec w P Q m → (∀ a w', Q a w' → spec w' P R (f a)) → spec w P R (m ≫= f).
Proof.
  intros [(l & Hl & HP) HQ] Hf. unfold spec, mbind, M_bind.
  destruct (m w) as [w1 [a|]]; simpl in *; [|split; [by exists l|done]].
  destruct (Hf a w1 (HQ a eq_refl)) as [(l' & Hl' & HP') HR]. split; [|done].
  exists (l ++ l'). rewrite Hl', Hl, app_assoc. split; [done|]. by apply Forall_app.
Qed.

Lemma spec_mono {A} w (P P' : Sent → Prop) (Q Q' : A → World → Prop) m :
  spec w P Q m → (∀ s, P s → P' s) → (∀ a w', Q a w' → Q' a w') → spec w P' Q' m.
Proof.
  intros [(l & Hl & HP) HQ] HPP HQQ. split; [|by eauto]. exists l. split; [done|].
  eapply Forall_impl; [|exact HP]. exact HPP.
Qed.

(** Steps that send nothing. *)
Definition silent {A} (m : M A) : Prop := ∀ w, wSent (m w).1 = wSent w.

Lemma silent_spec {A} w P (Q : A → World → Prop) m :
  silent m → (∀ a w', m w = (w', Some a) → Q a w') → spec w P Q m.
Proof.
  intros Hs HQ. split.
  - exists []. by rewrite app_nil_r.
  - intros a Ha. apply HQ. by destruct (m w); simpl in *; subst.
Qed.

Lemma silent_bind {A B} (m : M A) (f : A → M B) : silent m → (∀ a, silent (f a)) → silent (m ≫= f).
Proof.
  intros Hm Hf w. unfold mbind, M_bind. specialize (Hm w). destruct (m w) as [w1 [a|]]; [|done].
  by rewrite Hf.
Qed.
Lemma silent_ret {A} (a : A) : silent (mret a). Proof. done. Qed.
Lemma silent_panic {A} : silent (@panic A). Proof. done. Qed.
Lemma silent_respond f : silent (respond f). Proof. done. Qed.
Lemma silent_respond_with {A} (f : Response → A * Response) : silent (respond_with f).
Proof. intros w. unfold respond_with. by destruct (f _). Qed.
Lemma silent_on_store {A} (f : Store → A * Store) : silent (on_store f).
Proof. intros w. unfold on_store. by destruct (f _). Qed.
Lemma silent_draw p : silent (draw p). Proof. done. Qed.
Lemma silent_allow rule cfg r ip : silent (allow rule cfg r ip).
Proof. intros w. unfold allow. by destruct (Allow _ _ _) as [[ok wait] l]. Qed.


Ltac silence :=
  repeat first
    [ progress intros
    | apply silent_bind | apply silent_ret | apply silent_panic | apply silent_respond
    | apply silent_respond_with | apply silent_on_store | apply silent_draw | apply silent_allow
    | progress case_match ].

Lemma silent_deny g s c m : silent (deny g s c m).
Proof. unfold deny. silence. Qed.
Lemma silent_gateway_error err : silent (gateway_error err).
Proof. unfold gateway_error. silence. Qed.
Lemma silent_relay rule backend r sent resp : silent (relay_response rule backend r sent resp).
Proof. unfold relay_response. silence. Qed.
Lemma silent_selection_error rule f m s : silent (selection_error rule f m s).
Proof. unfold selection_error. silence. Qed.

(** ** What each part sends *)

(** The policy of a backend decides how it is reached. *)
Definition respects_policy (s : Sent) : Prop :=
  bkTLSInvalid (seBackend s) = false ∧
  match bkTLSTransport (seBackend s) with
  | Some t => seTransport s = TLSTransport t ∧ seScheme s = "https"
  | None => seScheme s = "http"
  end.

(** What a mirror gets of the body of [r]: what the primary exchange read. *)
Definition captured (r : Request) (body : option cappedBuffer) : Prop :=
  match body with
  | Some b => cbOverflowed b = false ∧ ∃ rest, default "" (rqBody r) = cbBuf b +:+ rest
  | None => rqBody r = None ∨ rqContentLength r = 0%Z
  end.

(** A request sent for [r] by a rule: to a backend of the rule through the
    rule's and the backend's filters, or to a mirror through the rule's. *)
Definition sent_for (rule : RuleTable) (r : Request) (withTLS trustedPeer : bool) (s : Sent) : Prop :=
  respects_policy s ∧ ∃ out, httputil.outgoing r = Some out ∧
  if seMirror s
  then ∃ mirror backend body, mirror ∈ ruMirrors rule ∧ seBackend s = miBackend mirror ∧
         seRequest s = mirror_copy (rewrite_out rule backend r out withTLS trustedPeer).1 body ∧
         captured r body
  else seBackend s ∈ ruBackends rule ∧ bkValid (seBackend s) = true ∧
       seRequest s = httputil.finish_out (rewrite_out rule (seBackend s) r out withTLS trustedPeer).2.

Lemma fire_each_spec st mirrors req body transport w P :
  (∀ m t scheme addr, m ∈ mirrors → bkTLSInvalid (miBackend m) = false →
     mirror_transport (miBackend m) transport = (t, scheme) →
     P (mkSent true (miBackend m) t scheme addr (mirror_copy req body))) →
  spec w P (λ _ _, True) (fire_each st mirrors req body transport).
Proof.
  revert w. induction mirrors as [|m mirrors IH]; intros w HP; [by apply spec_ret|].
  cbn [fire_each]. eapply (spec_bind _ _ (λ _ _, True)).
  - destruct (bkTLSInvalid (miBackend m)) eqn:Hinv; [by apply spec_ret|].
    eapply (spec_bind _ _ (λ _ _, True)); [by apply silent_spec; [apply silent_on_store|]|].
    intros [endpoint|[|]] w' _; [|by apply spec_ret|by apply spec_panic].
    destruct (mirror_transport (miBackend m) transport) as [t scheme] eqn:Ht.
    split; [|done]. eexists. split; [reflexivity|]. apply Forall_cons; [|by apply Forall_nil].
    apply HP; [left|done|done].
  - intros _ w' _. apply IH. intros m' t scheme addr Hm'. apply HP. by right.
Qed.

Lemma sampleMirrors_subset mirrors w w' sampled :
  sampleMirrors mirrors w = (w', Some sampled) → sampled ⊆ mirrors.
Proof.
  revert w w' sampled. induction mirrors as [|m mirrors IH]; intros w w' sampled.
  { intros [= _ <-]. done. }
  cbn [sampleMirrors]. unfold mbind at 1. unfold M_bind at 1.
  set (first := if Qle_bool _ _ then _ else _). destruct (first w) as [w1 [b|]]; [|done].
  unfold mbind, M_bind. destruct (sampleMirrors mirrors w1) as [w2 [rest|]] eqn:Hr; [|done].
  intros [= _ <-]. apply IH in Hr. destruct b; set_solver.
Qed.

Lemma silent_sampleMirrors mirrors : silent (sampleMirrors mirrors).
Proof. induction mirrors as [|m mirrors IH]; cbn [sampleMirrors]; silence; done. Qed.

Lemma pickBucket_elem cnt bs total b : pickBucket cnt bs total = Some b → b ∈ bs.
Proof.
  unfold pickBucket. destruct (total <=? 0)%Z; [done|]. generalize (Z.rem cnt total). intros slot.
  revert slot. induction bs as [|b0 bs IH]; intros slot; [done|]. cbn [bucket_loop].
  destruct (_ <? 0)%Z; [intros [= <-]; left|]. intros H. right. by eapply IH.
Qed.

(** Filters leave the body alone. *)
Lemma applyFilters_body fs pr : rqBody (prOut (fold_left applyFilter fs pr)) = rqBody (prOut pr).
Proof.
  revert pr. induction fs as [|f fs IH]; intros pr; [done|]. cbn [fold_left]. rewrite IH.
  unfold applyFilter. case_bool_decide; [done|]. case_bool_decide; [|done]. simpl.
  by destruct (_ != ""), (_ != "").
Qed.

Lemma rewrite_out_body rule backend r out withTLS trustedPeer :
  rqBody (rewrite_out rule backend r out withTLS trustedPeer).2 = rqBody out.
Proof. unfold rewrite_out. cbn [snd]. rewrite !applyFilters_body. done. Qed.

Lemma finish_out_body r : rqBody (httputil.finish_out r) = rqBody r.
Proof. unfold httputil.finish_out. by case_bool_decide. Qed.

Lemma outgoing_body_of r out :
  httputil.outgoing r = Some out → rqBody out = httputil.outgoing_body r.
Proof. unfold httputil.outgoing. intros H. by apply bind_Some in H as (h & _ & [= <-]). Qed.

(** The buffer after an exchange that read a part of the body. *)
Lemma capture_ok r sent timeout :
  rqBody (seRequest sent) = httputil.outgoing_body r → rqContentLength r ≠ 0%Z →
  let b := fold_left cbWrite (exchange sent timeout).1 (mkCappedBuffer "" (N.to_nat mirrorBodyLimit) false) in
  cbOverflowed b = false → captured r (Some b).
Proof.
  intros Hb Hlen b Ho. split; [done|].
  destruct (cbWrite_fold (exchange sent timeout).1 (mkCappedBuffer "" (N.to_nat mirrorBodyLimit) false))
    as [_ Hbuf]; [done|apply Nat.le_0_l|]. 
  fold b in Hbuf. rewrite (Hbuf Ho).
  destruct (exchange_reads_body sent timeout) as [rest Hr]. exists rest.
  rewrite Hb in Hr. unfold httputil.outgoing_body in Hr.
  destruct (Z.eqb_spec (rqContentLength r) 0); [done|]. exact Hr.
Qed.

Lemma proxy_to_spec st r rule backend target withTLS trustedPeer w :
  backend ∈ ruBackends rule → bkValid backend = true → bkTLSInvalid backend = false →
  spec w (sent_for rule r withTLS trustedPeer) (λ _ _, True)
    (proxy_to st r rule backend target withTLS trustedPeer).
Proof.
  intros Hb Hv Hi. unfold proxy_to. destruct (backend_transport rule backend) as [transport scheme] eqn:Ht.
  eapply (spec_bind _ _ (λ sampled _, sampled ⊆ ruMirrors rule)).
  { apply silent_spec; [apply silent_sampleMirrors|]. intros sampled w'. apply sampleMirrors_subset. }
  intros sampled w1 Hsub. destruct (httputil.outgoing r) as [out|] eqn:Hout.
  2:{ apply silent_spec; [apply silent_gateway_error|done]. }
  destruct (rewrite_out rule backend r out withTLS trustedPeer) as [mirrored out'] eqn:Hrw.
  set (sent := mkSent _ _ _ _ _ _). eapply (spec_bind _ _ (λ _ _, True)).
  { split; [|done]. exists [sent]. split; [done|]. apply Forall_cons; [|by apply Forall_nil].
    split.
    - split; [done|]. unfold backend_transport in Ht. simpl.
      destruct (bkTLSTransport backend); by simplify_eq.
    - exists out. split; [done|]. unfold sent. cbn [seMirror seBackend seRequest]. by rewrite Hrw. }
  assert (rqBody (seRequest sent) = httputil.outgoing_body r) as Hbody.
  { unfold sent. cbn [seRequest]. rewrite finish_out_body.
    replace out' with (rewrite_out rule backend r out withTLS trustedPeer).2 by by rewrite Hrw.
    rewrite rewrite_out_body. by apply outgoing_body_of. }
  intros _ w2 _. pose proof (capture_ok r sent (Timeout rule) Hbody) as Hcap. cbv zeta in Hcap.
  destruct (exchange sent (Timeout rule)) as [chunks outcome]. cbn [fst] in Hcap.
  eapply (spec_bind _ _ (λ _ _, True)).
  { apply silent_spec; [|done]. destruct outcome; [apply silent_relay|apply silent_gateway_error]. }
  intros status w3 _. eapply (spec_bind _ _ (λ _ _, True)); [|intros; by apply spec_ret].
  unfold fireMirrors. destruct (length sampled =? 0); [by apply spec_ret|]. cbn [negb andb].
  match goal with |- context [if ?c then mret tt else _] => destruct c eqn:Hover end; [by apply spec_ret|].
  apply fire_each_spec. intros m t sch addr Hm Hinv Hmt. split.
  - split; [done|]. unfold mirror_transport in Hmt. simpl.
    destruct (bkTLSTransport (miBackend m)); by simplify_eq.
  - exists out. split; [done|]. cbn [seMirror]. exists m, backend. eexists. split; [by apply Hsub|].
    split; [done|]. cbn [seRequest]. rewrite Hrw. split; [done|].
    destruct (bool_decide (is_Some (rqBody r))) eqn:Hsome; cbn [andb] in *.
    2:{ left. apply bool_decide_eq_false in Hsome. by apply eq_None_not_Some. }
    destruct (Z.eqb_spec (rqContentLength r) 0) as [Hz|Hz]; cbn [negb] in *; [by right|].
    by apply Hcap.
Qed.

Lemma forward_spec st r rule withTLS trustedPeer w :
  spec w (sent_for rule r withTLS trustedPeer) (λ _ _, True) (forward st r rule withTLS trustedPeer).
Proof.
  unfold forward. eapply (spec_bind _ _ (λ picked _, ∀ b, picked = Some b → b ∈ ruBackends rule)).
  { apply silent_spec; [apply silent_on_store|]. intros picked w' H b ->.
    unfold on_store, PickBackend in H. destruct (fetch_add _ _) as [cnt s].
    injection H as _ H. by eapply pickBucket_elem. }
  intros [backend|] w1 Hb.
  2:{ apply silent_spec; [apply silent_selection_error|done]. }
  destruct (bkValid backend) eqn:Hv; cbn [negb].
  2:{ apply silent_spec; [apply silent_selection_error|done]. }
  destruct (bkTLSInvalid backend) eqn:Hi; [apply silent_spec; [silence|done]|].
  eapply (spec_bind _ _ (λ _ _, True)); [by apply silent_spec; [apply silent_on_store|]|].
  intros [target|[|]] w2 _; [by apply proxy_to_spec; auto|..].
  - apply silent_spec; [apply silent_selection_error|done].
  - apply spec_panic.
Qed.

(** ** What the extensions let through *)

Definition evaluated (r : Request) (e : Enforcer) (g : bool) : Request * auth.EvalResult :=
  auth.Evaluate (auth.NewEnforcer (enCfg e)) r (bool_decide (is_Some (rqTLS r)))
    (httputil.cookies_of (rqHeader r)) now nonce g.

(** The enforcer allowed [r], and [r1] carries the identity. *)
Definition authenticated (r : Request) (e : Enforcer) (g : bool) (identity : auth.Identity)
    (r1 : Request) : Prop :=
  ∃ r' d cookies, evaluated r e g = (r', auth.Decided d cookies) ∧ auth.dAllowed d = true ∧
    auth.dIdentity d = Some identity ∧ r1 = with_header (auth.Apply identity (rqHeader r')) r'.

Record passed (w : World) (rule : RuleTable) (r : Request) (clientIP : string) (r1 : Request) : Prop := {
  pa_extensions : ruExtensionsInvalid rule = false;
  pa_rate : ∀ cfg, ruLimiter rule = Some cfg →
    (Allow (limiter_of w rule cfg) now (KeyFor (limiter_of w rule cfg) r clientIP)).1.1 = true;
  pa_auth : ∀ e, ruAuthEnforcer rule = Some e →
    (ruCORS rule ≠ None ∧ isCORSPreflight r = true ∧ r1 = r) ∨
    ∃ identity, authenticated r e (ruGRPC rule) identity r1;
  pa_open : ruAuthEnforcer rule = None → r1 = r;
  pa_waf : ∀ engine, ruWAFEngine rule = Some engine →
    waf.Evaluate engine r1 clientIP (isUpgrade r1) = Ok (waf.Passed r1);
}.

Lemma deny_spec w P g s c m :
  s ≠ 0%Z → spec w P (λ status _, status ≠ 0%Z) (deny g s c m).
Proof.
  intros Hs. apply silent_spec; [apply silent_deny|]. intros status w'. unfold deny.
  by destruct g; intros [= _ <-].
Qed.

Lemma serveAuth_spec w P r e g :
  spec w P (λ res _, res.1.1 = 0%Z → ∃ identity, authenticated r e g identity res.2) (serveAuth r e g).
Proof.
  unfold serveAuth. fold (evaluated r e g). destruct (evaluated r e g) as [r' [d cookies|]] eqn:He.
  2:{ apply spec_panic. }
  eapply (spec_bind _ _ (λ _ _, True)); [by apply silent_spec|]. intros _ w1 _.
  destruct (auth.dAllowed d) eqn:Ha.
  - destruct (auth.dIdentity d) as [identity|] eqn:Hi; [|apply spec_panic].
    apply spec_ret. intros _. exists identity, r', d, cookies. done.
  - pose proof (auth.Evaluate_rejection _ _ _ _ _ _ _ _ _ _ He Ha) as Hrej.
    destruct (bool_decide_reflect (auth.dRedirectTo d = "")) as [Hr|Hr]; cbn [negb].
    + destruct Hrej as [[? _]|(_ & Hst & _)]; [done|].
      eapply (spec_bind _ _ (λ _ _, True)); [by apply silent_spec|]. intros _ w2 _.
      eapply spec_bind; [apply deny_spec|intros status w3 Hs; by apply spec_ret].
      intros Hz. rewrite Hz in Hst. set_solver.
    + destruct Hrej as [(_ & Hst & _)|[? _]]; [|done].
      eapply (spec_bind _ _ (λ _ _, True)); [by apply silent_spec|]. intros _ w2 _.
      apply spec_ret. rewrite Hst. done.
Qed.

Lemma auth_stage_spec w P rule r :
  spec w P (λ res _, res.1.1 = 0%Z →
    (∀ e, ruAuthEnforcer rule = Some e →
      (ruCORS rule ≠ None ∧ isCORSPreflight r = true ∧ res.2 = r) ∨
      ∃ identity, authenticated r e (ruGRPC rule) identity res.2) ∧
    (ruAuthEnforcer rule = None → res.2 = r)) (auth_stage rule r).
Proof.
  unfold auth_stage. destruct (ruAuthEnforcer rule) as [e|]; [|by apply spec_ret].
  destruct (bool_decide_reflect (ruCORS rule = None)) as [Hc|Hc]; cbn [orb].
  2: destruct (isCORSPreflight r) eqn:Hp; cbn [negb].
  2:{ apply spec_ret. intros _. split; [|done]. auto. }
  all: eapply spec_mono; [apply serveAuth_spec|done|]; intros [[st u] r1] w' H Hz; split; [|done];
    intros ? [= <-]; right; by apply H.
Qed.

Lemma rate_limit_stage_spec w P rule r clientIP :
  (∀ cfg, ruLimiter rule = Some cfg → compiled.rlStatus cfg ≠ 0%Z) →
  spec w P (λ limited _,
    match limited with
    | Some status => status ≠ 0%Z
    | None => ∀ cfg, ruLimiter rule = Some cfg →
        (Allow (limiter_of w rule cfg) now (KeyFor (limiter_of w rule cfg) r clientIP)).1.1 = true
    end) (rate_limit_stage rule r clientIP).
Proof.
  intros Hcfg. unfold rate_limit_stage. destruct (ruLimiter rule) as [cfg|]; [|by apply spec_ret].
  eapply (spec_bind _ _ (λ res _, res.1 = true →
    (Allow (limiter_of w rule cfg) now (KeyFor (limiter_of w rule cfg) r clientIP)).1.1 = true)).
  { apply silent_spec; [apply silent_allow|]. intros [ok wait] w'. unfold allow.
    destruct (Allow _ _ _) as [[ok' wait'] l']. by intros [= _ -> _]. }
  intros [[|] wait] w1 Hok; [apply spec_ret; intros ? [= <-]; by apply Hok|].
  eapply (spec_bind _ _ (λ _ _, True)); [by apply silent_spec|]. intros _ w2 _.
  eapply spec_bind; [by apply deny_spec, Hcfg|intros status w3 Hs; by apply spec_ret].
Qed.

Lemma waf_stage_spec w P rule r clientIP :
  spec w P (λ checked _,
    match checked with
    | Err (status, _) => status ≠ 0%Z
    | Ok r1 => r1 = r ∧ ∀ engine, ruWAFEngine rule = Some engine →
        waf.Evaluate engine r clientIP (isUpgrade r) = Ok (waf.Passed r)
    end) (waf_stage rule r clientIP).
Proof.
  unfold waf_stage. destruct (ruWAFEngine rule) as [engine|]; [|by apply spec_ret].
  destruct (waf.Evaluate engine r clientIP (isUpgrade r)) as [[d|r1]|] eqn:He.
  - eapply spec_bind; [apply deny_spec|intros status w3 Hs; by apply spec_ret].
    by eapply waf.denied_status.
  - apply spec_ret. assert (r1 = r) as -> by by eapply waf.passed_request. split; [done|]. by intros ? [= <-].
  - eapply spec_bind; [by apply deny_spec|intros status w3 Hs; by apply spec_ret].
Qed.

Lemma serveExtensions_spec w P rule r clientIP :
  (∀ cfg, ruLimiter rule = Some cfg → compiled.rlStatus cfg ≠ 0%Z) →
  spec w P (λ ext _, exStatus ext = 0%Z → passed w rule r clientIP (exRequest ext))
    (serveExtensions r rule clientIP).
Proof.
  intros Hcfg. unfold serveExtensions. destruct (ruExtensionsInvalid rule) eqn:Hinv.
  { eapply spec_bind; [by apply deny_spec|intros status w1 Hs; by apply spec_ret]. }
  eapply spec_bind; [by apply rate_limit_stage_spec|]. intros [status|] w1 Hrate; [by apply spec_ret|].
  eapply spec_bind; [apply auth_stage_spec|]. intros [[status user] r1] w2 Hauth.
  destruct (Z.eqb_spec status 0) as [->|Hne]; cbn [negb]; [|by apply spec_ret].
  destruct (Hauth eq_refl) as [Ha Ho]. eapply spec_bind; [apply waf_stage_spec|].
  intros [r2|[status ruleID]] w3 Hwaf; [|by apply spec_ret].
  destruct Hwaf as [-> Hw]. apply spec_ret. intros _. by split.
Qed.

(** Everything that must hold before a request leaves the gateway. *)
Definition cleared (st : State) (w : World) (r : Request) (port : Z) (withTLS : bool)
    (rule : RuleTable) (r1 : Request) : Prop :=
  let host := hostOnly (rqHost r) in
  (∃ l route, Match (stTables st) port host r = Some (rule, l, route)) ∧
  (∀ sn, withTLS = true → rqTLS r = Some sn → Misdirected (stTables st) port sn host = false) ∧
  AuthEndpoint (stTables st) port host (rqPath r) = [] ∧
  passed w rule r (ClientIP (stTables st) port r).1 r1 ∧
  redirectFilter rule = None ∧ (ruCORS rule = None ∨ isCORSPreflight r1 = false).

Definition limits_answer (st : State) (r : Request) (port : Z) : Prop :=
  ∀ rule l route cfg, Match (stTables st) port (hostOnly (rqHost r)) r = Some (rule, l, route) →
    ruLimiter rule = Some cfg → compiled.rlStatus cfg ≠ 0%Z.

Lemma serve_filters_spec st r rule withTLS trustedPeer w :
  spec w (λ s, sent_for rule r withTLS trustedPeer s ∧
               redirectFilter rule = None ∧ (ruCORS rule = None ∨ isCORSPreflight r = false))
    (λ _ _, True) (serve_filters st r rule withTLS trustedPeer).
Proof.
  unfold serve_filters.
  assert (∀ w, (ruCORS rule = None ∨ isCORSPreflight r = false) →
    spec w (λ s, sent_for rule r withTLS trustedPeer s ∧
               redirectFilter rule = None ∧ (ruCORS rule = None ∨ isCORSPreflight r = false)) (λ _ _, True)
      match redirectFilter rule with
      | Some redirect => respond_with (λ w, serveRedirect w r redirect withTLS)
      | None => forward st r rule withTLS trustedPeer
      end) as H.
  { intros w0 Hp. destruct (redirectFilter rule) eqn:Hr; [by apply silent_spec; [apply silent_respond_with|]|].
    eapply spec_mono; [apply forward_spec|auto|done]. }
  destruct (ruCORS rule) as [cors|] eqn:Hc, (isCORSPreflight r) eqn:Hp; try (apply H; auto).
  by apply silent_spec; [apply silent_respond_with|].
Qed.

Lemma Serve_spec st r port withTLS w :
  limits_answer st r port →
  spec w (λ s, ∃ rule r1, cleared st w r port withTLS rule r1 ∧
            sent_for rule r1 withTLS (ClientIP (stTables st) port r).2 s)
    (λ _ _, True) (Serve st r port withTLS).
Proof.
  intros Hlim. unfold Serve. destruct (ClientIP (stTables st) port r) as [clientIP trusted] eqn:Hip.
  set (host := hostOnly (rqHost r)).
  destruct (match rqTLS r with Some sn => _ | None => false end) eqn:Hmis.
  { apply silent_spec; [silence|done]. }
  assert (∀ sn, withTLS = true → rqTLS r = Some sn → Misdirected (stTables st) port sn host = false) as Hm.
  { intros sn -> Hsn. by rewrite Hsn in Hmis. }
  destruct (AuthEndpoint (stTables st) port host (rqPath r)) as [|c cs] eqn:Hae; cbn [length Nat.eqb negb].
  2:{ apply silent_spec; [silence|done]. }
  destruct (Match (stTables st) port host r) as [[[rule l] route]|] eqn:Hmatch.
  2:{ apply silent_spec; [silence|done]. }
  eapply (spec_bind _ _ (λ _ _, True)); [|intros; by apply spec_ret].
  unfold serve_rule. eapply spec_bind; [apply serveExtensions_spec; intros cfg; by eapply Hlim|].
  intros ext w1 Hext. cbv beta in Hext. eapply (spec_bind _ _ (λ _ _, True)).
  - destruct (Z.eqb_spec (exStatus ext) 0) as [Hz|]; [|by apply spec_ret].
    eapply spec_mono; [apply serve_filters_spec| |done]. cbv beta. intros s (Hs & Hr & Hc).
    exists rule, (exRequest ext). split; [|done]. unfold cleared. rewrite Hip. eauto 10.
  - intros status w2 _. eapply (spec_bind _ _ (λ _ _, True)); [|intros; by apply spec_ret].
    apply silent_spec; [silence|done].
Qed.

(** ** Headers on the wire *)

Lemma rewrite_out_values rule backend r out withTLS trustedPeer k :
  canonicalKey k ∉ forwarding_headers →
  hValues (rqHeader (rewrite_out rule backend r out withTLS trustedPeer).2) k =
  fold_left (edited k) (ruFilters rule ++ bkFilters backend) (hValues (rqHeader out) k).
Proof.
  intros Hk. unfold rewrite_out. cbn [snd]. rewrite !applyFilters_values, fold_left_app.
  rewrite forwarding_other by done. done.
Qed.

Lemma mirror_out_values rule backend r out withTLS trustedPeer k :
  canonicalKey k ∉ forwarding_headers →
  hValues (rqHeader (rewrite_out rule backend r out withTLS trustedPeer).1) k =
  fold_left (edited k) (ruFilters rule) (hValues (rqHeader out) k).
Proof.
  intros Hk. unfold rewrite_out. cbn [fst]. rewrite applyFilters_values. rewrite forwarding_other by done. done.
Qed.

(** The filters a request goes through: the rule's, and for the backend its
    own. *)
Definition filters_of (rule : RuleTable) (s : Sent) : list compiled.Filter :=
  ruFilters rule ++ (if seMirror s then [] else bkFilters (seBackend s)).

(** A header reaches the backend as the gateway left it, less what the
    [Connection] header names, edited by the filters. *)
Lemma sent_values rule r withTLS trustedPeer s k :
  sent_for rule r withTLS trustedPeer s →
  canonicalKey k ∉ filters.forwarding_headers → canonicalKey k ∉ httputil.hopHeaders →
  canonicalKey k ≠ "User-Agent" →
  hValues (rqHeader (seRequest s)) k =
    fold_left (edited k) (filters_of rule s)
      (if decide (canonicalKey k ∈ (canonicalKey <$> httputil.connection_names (rqHeader r))) then []
       else hValues (rqHeader r) k).
Proof.
  intros (_ & out & Hout & Hs) Hfwd Hhop Hua.
  assert (hValues (rqHeader out) k =
    if decide (canonicalKey k ∈ (canonicalKey <$> httputil.connection_names (rqHeader r))) then []
    else hValues (rqHeader r) k) as <-.
  { unfold httputil.outgoing in Hout. apply bind_Some in Hout as (h & Hh & [= <-]). simpl.
    by apply httputil.outgoing_header_values. }
  unfold filters_of. destruct (seMirror s).
  - destruct Hs as (m & backend & body & _ & _ & -> & _). unfold mirror_copy. cbn [rqHeader].
    rewrite app_nil_r. by apply mirror_out_values.
  - destruct Hs as (_ & _ & ->). rewrite httputil.finish_out_values by done. by apply rewrite_out_values.
Qed.

(** ** The status written

    [answers m]: from an unwritten response, the status [m] returns is the
    one it wrote. *)

Definition unwritten (w : World) : Prop := rsStatus (wResponse w) = None.
Definition answers (m : M Z) : Prop :=
  ∀ w w' status, unwritten w → m w = (w', Some status) → rsStatus (wResponse w') = Some status.
Definition quiet {A} (m : M A) : Prop := ∀ w, wResponse (m w).1 = wResponse w.

Lemma answers_bind {A} (m : M A) (f : A → M Z) :
  (∀ w, unwritten w → unwritten (m w).1) → (∀ a, answers (f a)) → answers (m ≫= f).
Proof.
  intros Hm Hf w w' status Hw. unfold mbind, M_bind. specialize (Hm w Hw).
  destruct (m w) as [w1 [a|]]; [|done]. by apply Hf.
Qed.

Lemma answers_then {A} (m : M Z) (k : M A) :
  answers m → quiet k → answers (status ← m; k ;; mret status).
Proof.
  intros Hm Hk w w' status Hw. unfold mbind, M_bind.
  destruct (m w) as [w1 [a|]] eqn:Hmw; [|done]. specialize (Hk w1).
  destruct (k w1) as [w2 [b|]]; [|done]. intros [= <- <-]. cbn [fst] in Hk. rewrite Hk.
  by eapply Hm.
Qed.

Lemma quiet_unwritten {A} (m : M A) w : quiet m → unwritten w → unwritten (m w).1.
Proof. intros Hm Hw. unfold unwritten. by rewrite Hm. Qed.

Lemma quiet_bind {A B} (m : M A) (f : A → M B) : quiet m → (∀ a, quiet (f a)) → quiet (m ≫= f).
Proof.
  intros Hm Hf w. unfold mbind, M_bind. specialize (Hm w). destruct (m w) as [w1 [a|]]; [|done].
  by rewrite Hf.
Qed.
Lemma quiet_on_store {A} (f : Store → A * Store) : quiet (on_store f).
Proof. intros w. unfold on_store. by destruct (f _). Qed.
Lemma quiet_allow rule cfg r ip : quiet (allow rule cfg r ip).
Proof. intros w. unfold allow. by destruct (Allow _ _ _) as [[ok wait] l]. Qed.

Lemma answers_deny g s c m : answers (deny g s c m).
Proof.
  intros w w' status Hw. unfold deny. destruct g; intros [= <- <-]; simpl; by rewrite Hw.
Qed.
Lemma answers_error m s : answers (respond (λ w, httpError w m s) ;; mret s).
Proof. intros w w' status Hw [= <- <-]. simpl. by rewrite Hw. Qed.
Lemma answers_gateway_error err : answers (gateway_error err).
Proof. destruct err; apply answers_error. Qed.
Lemma answers_selection rule code msg m s :
  answers (selection_error rule (λ w, grpc.WriteStatus w code msg) m s).
Proof.
  unfold selection_error. destruct (ruGRPC rule); [|apply answers_error].
  intros w w' status Hw [= <- <-]. simpl. by rewrite Hw.
Qed.
Lemma answers_panic : answers panic. Proof. done. Qed.

Lemma quiet_sampleMirrors mirrors : quiet (sampleMirrors mirrors).
Proof.
  induction mirrors as [|m mirrors IH]; [done|]. cbn [sampleMirrors].
  apply quiet_bind; [by case_match|]. intros b. apply quiet_bind; [done|]. done.
Qed.

Lemma quiet_fireMirrors st mirrors req body t : quiet (fireMirrors st mirrors req body t).
Proof.
  unfold fireMirrors. destruct req as [req|]; [|done]. destruct (_ =? 0); [done|].
  match goal with |- quiet (if ?c then _ else _) => destruct c end; [done|].
  induction mirrors as [|m mirrors IH]; [done|]. cbn [fire_each]. apply quiet_bind; [|intros _; apply IH].
  destruct (bkTLSInvalid _); [done|]. apply quiet_bind; [apply quiet_on_store|].
  intros [e|[|]]; [|done|done]. by destruct (mirror_transport _ _).
Qed.

Lemma answers_relay rule backend r sent resp : answers (relay_response rule backend r sent resp).
Proof.
  unfold relay_response. destruct (brStatus resp =? 101)%Z.
  - intros w w' status Hw. unfold mbind at 1, M_bind at 1, respond_with.
    destruct (switchProtocols _ _ _) as [w1|] eqn:Hs.
    + intros [= <- <-]. simpl. by eapply switch_status.
    + by apply answers_gateway_error.
  - intros w w' status Hw [= <- <-]. simpl. by rewrite Hw.
Qed.

Lemma answers_proxy_to st r rule backend target withTLS trustedPeer :
  answers (proxy_to st r rule backend target withTLS trustedPeer).
Proof.
  unfold proxy_to. destruct (backend_transport rule backend) as [t scheme].
  apply answers_bind; [intros w; apply quiet_unwritten, quiet_sampleMirrors|]. intros sampled.
  destruct (httputil.outgoing r) as [out|]; [|apply answers_gateway_error].
  destruct (rewrite_out _ _ _ _ _ _) as [mirrored out'].
  apply answers_bind; [done|]. intros _. destruct (exchange _ _) as [chunks outcome].
  apply answers_then; [|apply quiet_fireMirrors].
  destruct outcome; [apply answers_relay|apply answers_gateway_error].
Qed.

Lemma answers_forward st r rule withTLS trustedPeer : answers (forward st r rule withTLS trustedPeer).
Proof.
  unfold forward. apply answers_bind; [intros w; apply quiet_unwritten, quiet_on_store|].
  intros [backend|]; [|apply answers_selection].
  destruct (negb (bkValid backend)); [apply answers_selection|].
  destruct (bkTLSInvalid backend); [apply answers_error|].
  apply answers_bind; [intros w; apply quiet_unwritten, quiet_on_store|].
  intros [target|[|]]; [apply answers_proxy_to|apply answers_selection|apply answers_panic].
Qed.

Lemma answers_filters st r rule withTLS trustedPeer : answers (serve_filters st r rule withTLS trustedPeer).
Proof.
  assert (answers match redirectFilter rule with
      | Some redirect => respond_with (λ w, serveRedirect w r redirect withTLS)
      | None => forward st r rule withTLS trustedPeer
      end) as H.
  { destruct (redirectFilter rule); [|apply answers_forward].
    intros w w' status Hw [= <- <-]. simpl. unfold httpRedirect.
    destruct (negb _ && (rqMethod r == "GET")); simpl; by rewrite Hw. }
  unfold serve_filters. destruct (ruCORS rule); [|exact H]. destruct (isCORSPreflight r); [|exact H].
  intros w w' status Hw [= <- <-]. simpl. by rewrite Hw.
Qed.

(** The extensions write nothing unless they reject. *)
Definition extends {A} (status : A → Z) (m : M A) : Prop :=
  ∀ w w' a, unwritten w → m w = (w', Some a) →
    rsStatus (wResponse w') = if (status a =? 0)%Z then None else Some (status a).

Lemma extends_answers {A} (status : A → Z) (m : M Z) (f : Z → A) :
  answers m → (∀ w w' a, m w = (w', Some a) → a ≠ 0%Z) → (∀ s, status (f s) = s) →
  extends status (s ← m; mret (f s)).
Proof.
  intros Hm Hne Hf w w' a Hw. unfold mbind, M_bind. destruct (m w) as [w1 [s|]] eqn:Hmw; [|done].
  intros [= <- <-]. rewrite Hf. pose proof (Hne _ _ _ Hmw).
  destruct (Z.eqb_spec s 0); [done|]. by eapply Hm.
Qed.

Lemma extends_bind {A B} (sa : A → Z) (sb : B → Z) (m : M A) (f : A → M B) :
  extends sa m → (∀ a, sa a = 0%Z → extends sb (f a)) →
  (∀ a w, sa a ≠ 0%Z → ∃ b, f a w = (w, Some b) ∧ sb b = sa a) → extends sb (m ≫= f).
Proof.
  intros Hm Hf Hr w w' b Hw. unfold mbind, M_bind. destruct (m w) as [w1 [a|]] eqn:Hmw; [|done].
  pose proof (Hm _ _ _ Hw Hmw) as Hs. destruct (Z.eqb_spec (sa a) 0) as [Hz|Hz].
  - by apply Hf.
  - destruct (Hr a w1 Hz) as (b' & -> & Hb). intros [= <- <-]. rewrite Hb, Hs.
    by destruct (Z.eqb_spec (sa a) 0).
Qed.

Lemma extends_ret {A} (status : A → Z) a : status a = 0%Z → extends status (mret a).
Proof. intros Ha w w' a' Hw [= <- <-]. by rewrite Ha. Qed.

Lemma extends_keep {A B} (status : B → Z) (m : M A) (f : A → M B) :
  (∀ w, unwritten w → unwritten (m w).1) → (∀ a, extends status (f a)) → extends status (m ≫= f).
Proof.
  intros Hm Hf w w' b Hw. unfold mbind, M_bind. specialize (Hm w Hw).
  destruct (m w) as [w1 [a|]]; [|done]. by apply Hf.
Qed.

Lemma extends_deny {A} (status : A → Z) g s c m (f : Z → A) :
  s ≠ 0%Z → (∀ s, status (f s) = s) → extends status (s ← deny g s c m; mret (f s)).
Proof.
  intros Hs Hf. apply extends_answers; [apply answers_deny| |done].
  intros w w' a. unfold deny. by destruct g; intros [= _ <-].
Qed.

Lemma extends_rate_limit rule r clientIP :
  (∀ cfg, ruLimiter rule = Some cfg → compiled.rlStatus cfg ≠ 0%Z) →
  extends (default 0%Z) (rate_limit_stage rule r clientIP).
Proof.
  intros Hcfg. unfold rate_limit_stage. destruct (ruLimiter rule) as [cfg|]; [|by apply extends_ret].
  apply extends_keep; [intros w; apply quiet_unwritten, quiet_allow|]. intros [[|] wait]; [by apply extends_ret|].
  apply extends_keep; [done|]. intros _. apply extends_deny; [by apply Hcfg|done].
Qed.

Lemma extends_serveAuth r e g : extends (λ res, res.1.1) (serveAuth r e g).
Proof.
  unfold serveAuth. fold (evaluated r e g). destruct (evaluated r e g) as [r' [d cookies|]] eqn:He; [|done].
  apply extends_keep; [done|]. intros _. destruct (auth.dAllowed d) eqn:Ha.
  { destruct (auth.dIdentity d); [by apply extends_ret|done]. }
  pose proof (auth.Evaluate_rejection _ _ _ _ _ _ _ _ _ _ He Ha) as Hrej.
  destruct (bool_decide_reflect (auth.dRedirectTo d = "")) as [Hr|Hr]; cbn [negb].
  - destruct Hrej as [[? _]|(_ & Hst & _)]; [done|].
    apply extends_keep; [done|]. intros _. apply extends_deny; [|done].
    intros Hz. rewrite Hz in Hst. set_solver.
  - destruct Hrej as [(_ & Hst & _)|[? _]]; [|done]. rewrite Hst.
    intros w w' res Hw [= <- <-]. simpl. unfold httputil.redirect_local, httpRedirect.
    destruct (negb _ && (rqMethod r' == "GET")); simpl; by rewrite Hw.
Qed.

Lemma extends_auth_stage rule r : extends (λ res, res.1.1) (auth_stage rule r).
Proof.
  unfold auth_stage. destruct (ruAuthEnforcer rule); [|by apply extends_ret].
  destruct (_ || _); [apply extends_serveAuth|by apply extends_ret].
Qed.

Definition waf_status (checked : result (Z * Z) Request) : Z :=
  match checked with Err (status, _) => status | Ok _ => 0%Z end.

Lemma extends_waf_stage rule r clientIP : extends waf_status (waf_stage rule r clientIP).
Proof.
  unfold waf_stage. destruct (ruWAFEngine rule) as [engine|]; [|by apply extends_ret].
  destruct (waf.Evaluate engine r clientIP (isUpgrade r)) as [[d|r1]|] eqn:He.
  - apply (extends_deny waf_status); [by eapply waf.denied_status|done].
  - by apply extends_ret.
  - by apply (extends_deny waf_status).
Qed.

Lemma extends_serveExtensions rule r clientIP :
  (∀ cfg, ruLimiter rule = Some cfg → compiled.rlStatus cfg ≠ 0%Z) →
  extends exStatus (serveExtensions r rule clientIP).
Proof.
  intros Hcfg. unfold serveExtensions. destruct (ruExtensionsInvalid rule); [by apply extends_deny|].
  eapply extends_bind; [by apply extends_rate_limit| |].
  2:{ intros [status|] w Hs; [|done]. eexists. split; reflexivity. }
  intros limited Hl. destruct limited as [status|]; [by apply extends_ret|].
  eapply extends_bind; [apply extends_auth_stage| |].
  2:{ intros [[status user] r1] w Hs. cbn [fst] in Hs. destruct (Z.eqb_spec status 0); [done|].
      eexists. split; reflexivity. }
  intros [[status user] r1] Hz. cbn [fst] in Hz. rewrite Hz. cbn [Z.eqb negb].
  eapply extends_bind; [apply extends_waf_stage| |].
  - intros [r2|[st ruleID]] Hs; [by apply extends_ret|by apply extends_ret].
  - intros [r2|[st ruleID]] w Hs; [done|]. eexists. split; reflexivity.
Qed.

(** The requests sent while going from [w] to [w']. *)
Definition sent_between (w w' : World) : list Sent := drop (length (wSent w)) (wSent w').

Lemma spec_sent {A} w P (Q : A → World → Prop) m w' o s :
  spec w P Q m → m w = (w', o) → s ∈ sent_between w w' → P s.
Proof.
  intros [(l & Hl & HP) _] Hm. rewrite Hm in Hl. cbn [fst] in Hl. unfold sent_between.
  rewrite Hl, drop_app_length. rewrite Forall_forall in HP. intros Hs. by apply HP, list_elem_of_In.
Qed.

Lemma silent_serveExtensions r rule clientIP : silent (serveExtensions r rule clientIP).
Proof. unfold serveExtensions, rate_limit_stage, auth_stage, serveAuth, waf_stage, deny. silence. Qed.

Lemma Serve_policy st r port withTLS w :
  spec w respects_policy (λ _ _, True) (Serve st r port withTLS).
Proof.
  unfold Serve. destruct (ClientIP _ _ _) as [clientIP trusted].
  destruct (match rqTLS r with Some sn => _ | None => false end); [apply silent_spec; [silence|done]|].
  destruct (negb _); [apply silent_spec; [silence|done]|].
  destruct (Match _ _ _ _) as [[[rule l] route]|]; [|apply silent_spec; [silence|done]].
  eapply (spec_bind _ _ (λ _ _, True)); [|intros; by apply spec_ret]. unfold serve_rule.
  eapply (spec_bind _ _ (λ _ _, True)); [by apply silent_spec; [apply silent_serveExtensions|]|].
  intros ext w1 _. eapply (spec_bind _ _ (λ _ _, True)).
  - destruct (_ =? 0)%Z; [|by apply spec_ret].
    eapply spec_mono; [apply serve_filters_spec| |done]. by intros s [[Hp _] _].
  - intros status w2 _. eapply (spec_bind _ _ (λ _ _, True)); [|intros; by apply spec_ret].
    apply silent_spec; [silence|done].
Qed.

Lemma evaluated_request r e g : (evaluated r e g).1 = with_header (auth.strip_identity (rqHeader r)) r.
Proof. done. Qed.

Lemma Serve_cleared st r port withTLS w w' o s :
  limits_answer st r port → Serve st r port withTLS w = (w', o) → s ∈ sent_between w w' →
  ∃ rule r1, cleared st w r port withTLS rule r1 ∧
    sent_for rule r1 withTLS (ClientIP (stTables st) port r).2 s ∧
    (∀ e, ruAuthEnforcer rule = Some e → ∃ identity, authenticated r e (ruGRPC rule) identity r1).
Proof.
  intros Hlim Hserve Hs. destruct (spec_sent _ _ _ _ _ _ _ (Serve_spec st r port withTLS w Hlim) Hserve Hs)
    as (rule & r1 & Hc & Hsent).
  exists rule, r1. split; [done|]. split; [done|]. intros e He.
  destruct Hc as (_ & _ & _ & Hp & _ & Hcors). destruct (pa_auth _ _ _ _ _ Hp e He) as [(H1 & H2 & ->)|?]; [|done].
  destruct Hcors as [?|?]; congruence.
Qed.

(** The identity headers of a request sent for an authenticated one. *)
Lemma sent_identity r e g identity r1 rule withTLS trustedPeer s k :
  authenticated r e g identity r1 → sent_for rule r1 withTLS trustedPeer s → k ∈ auth.identity_headers →
  hValues (rqHeader (seRequest s)) k =
    fold_left (edited k) (filters_of rule s)
      (if decide (k ∈ (canonicalKey <$> httputil.connection_names (rqHeader r))) then []
       else auth.injected identity k).
Proof.
  intros Hauth Hsent Hk.
  destruct Hauth as (r' & d & cookies & Hev & _ & _ & ->).
  assert (r' = with_header (auth.strip_identity (rqHeader r)) r) as ->.
  { rewrite <-(evaluated_request r e g). by rewrite Hev. }
  assert (canonicalKey k = k ∧ k ∉ forwarding_headers ∧ k ∉ httputil.hopHeaders ∧ k ≠ "User-Agent") as (Hck & H1 & H2 & H3).
  { unfold auth.identity_headers in Hk.
    repeat (apply elem_of_cons in Hk as [->|Hk]; [split_and!; apply (bool_decide_unpack _); vm_compute; exact I|]).
    by apply elem_of_nil in Hk. }
  rewrite (sent_values _ _ _ _ _ k Hsent); rewrite ?Hck; try done. cbn [rqHeader with_header].
  rewrite auth.Apply_stripped by done.
  assert (httputil.connection_names (auth.Apply identity (auth.strip_identity (rqHeader r))) =
    httputil.connection_names (rqHeader r)) as ->; [|done].
  unfold httputil.connection_names. do 2 f_equal.
  rewrite auth.Apply_other by (apply (bool_decide_unpack _); vm_compute; exact I).
  rewrite auth.hValues_strip. by rewrite decide_False by (apply (bool_decide_unpack _); vm_compute; exact I).
Qed.

(** ** Properties *)

(** C1: Whatever Serve hands to a backend or mirror transport passed every check
    first: the authority is not misdirected, the path is not a reserved auth
    endpoint, a rule matched and its extensions resolved, its rate limiter
    allowed the client, its enforcer authenticated and authorized the request,
    its WAF passed it, and the rule neither redirects nor answers it as a CORS
    preflight. *)
Theorem forwarded_request_was_cleared st r port withTLS w w' o s :
  limits_answer st r port → Serve st r port withTLS w = (w', o) → s ∈ sent_between w w' →
  let host := hostOnly (rqHost r) in
  let clientIP := (ClientIP (stTables st) port r).1 in
  ∃ rule l route r1,
    Match (stTables st) port host r = Some (rule, l, route) ∧
    (∀ sn, withTLS = true → rqTLS r = Some sn → Misdirected (stTables st) port sn host = false) ∧
    AuthEndpoint (stTables st) port host (rqPath r) = [] ∧
    ruExtensionsInvalid rule = false ∧
    (∀ cfg, ruLimiter rule = Some cfg →
       (Allow (limiter_of w rule cfg) now (KeyFor (limiter_of w rule cfg) r clientIP)).1.1 = true) ∧
    (∀ e, ruAuthEnforcer rule = Some e → ∃ identity, authenticated r e (ruGRPC rule) identity r1) ∧
    (∀ engine, ruWAFEngine rule = Some engine →
       waf.Evaluate engine r1 clientIP (isUpgrade r1) = Ok (waf.Passed r1)) ∧
    redirectFilter rule = None ∧ (ruCORS rule = None ∨ isCORSPreflight r1 = false).
Proof.
  intros Hlim Hserve Hs. destruct (Serve_cleared _ _ _ _ _ _ _ _ Hlim Hserve Hs) as (rule & r1 & Hc & _ & Ha).
  destruct Hc as ((l & route & Hm) & Hmis & Hae & Hp & Hr & Hcors).
  exists rule, l, route, r1. split_and!; try done; apply Hp.
Qed.

(** C7: No request is sent to a backend whose BackendTLSPolicy was rejected, and
    a backend with a policy transport, primary or mirror, is reached over https
    through that transport and never in cleartext. *)
Theorem backend_tls_policy_respected st r port withTLS w w' o s :
  Serve st r port withTLS w = (w', o) → s ∈ sent_between w w' →
  bkTLSInvalid (seBackend s) = false ∧
  (∀ t, bkTLSTransport (seBackend s) = Some t → seTransport s = TLSTransport t ∧ seScheme s = "https").
Proof.
  intros Hserve Hs. destruct (spec_sent _ _ _ _ _ _ _ (Serve_policy st r port withTLS w) Hserve Hs) as [Hi Ht].
  split; [done|]. intros t Htr. by rewrite Htr in Ht.
Qed.

(** C2: On a rule with an enforcer, an identity header of any request sent
    upstream is what the authenticated identity gives for it, never the client's
    copy: first injected, then dropped if the client's Connection header names
    it, then edited by the request header modifiers the operator put on the rule
    and the backend, in their order. *)
Theorem identity_on_the_wire st r port withTLS w w' o s rule l route e k :
  limits_answer st r port → Serve st r port withTLS w = (w', o) → s ∈ sent_between w w' →
  Match (stTables st) port (hostOnly (rqHost r)) r = Some (rule, l, route) →
  ruAuthEnforcer rule = Some e → k ∈ auth.identity_headers →
  ∃ identity r1, authenticated r e (ruGRPC rule) identity r1 ∧
    hValues (rqHeader (seRequest s)) k =
      fold_left (edited k) (filters_of rule s)
        (if decide (k ∈ (canonicalKey <$> httputil.connection_names (rqHeader r))) then []
         else auth.injected identity k).
Proof.
  intros Hlim Hserve Hs Hm He Hk.
  destruct (Serve_cleared _ _ _ _ _ _ _ _ Hlim Hserve Hs) as (rule' & r1 & Hc & Hsent & Ha).
  destruct Hc as ((l' & route' & Hm') & _). rewrite Hm in Hm'. injection Hm' as <- <- <-.
  destruct (Ha e He) as [identity Hauth]. exists identity, r1. split; [done|]. by eapply sent_identity.
Qed.

(** The status of a matched request's access log event is the status written to
    the client, on every path through extensions, CORS, redirect and forwarding. *)
Theorem access_status_is_written st r rule l route withTLS clientIP trustedPeer w w' access :
  (∀ cfg, ruLimiter rule = Some cfg → compiled.rlStatus cfg ≠ 0%Z) →
  rsStatus (wResponse w) = None →
  serve_rule st r rule l route withTLS clientIP trustedPeer w = (w', Some access) →
  rsStatus (wResponse w') = Some (acStatus access).
Proof.
  intros Hcfg Hw. unfold serve_rule, mbind, M_bind.
  destruct (serveExtensions r rule clientIP w) as [w1 [ext|]] eqn:He; [|done].
  pose proof (extends_serveExtensions rule r clientIP Hcfg w w1 ext Hw He) as Hext.
  destruct (Z.eqb_spec (exStatus ext) 0) as [Hz|Hz].
  - destruct (serve_filters _ _ _ _ _ w1) as [w2 [status|]] eqn:Hf; [|done].
    intros [= <- <-]. simpl. by eapply answers_filters.
  - intros [= <- <-]. simpl. exact Hext.
Qed.

(** A request whose rule yields no backend, an invalid reference, a rejected TLS
    policy or no ready endpoint is answered 500, 500, 502 and 503 (or the gRPC
    status, with HTTP 200) and nothing is sent. *)
Theorem unusable_backend_answers st r rule withTLS trustedPeer w :
  let '(picked, s) := PickBackend rule (wStore w) in
  let '(w', out) := forward st r rule withTLS trustedPeer w in
  let answered status grpcAnswer :=
    wSent w' = wSent w ∧
    if ruGRPC rule then out = Some 200%Z ∧ wResponse w' = grpcAnswer (wResponse w)
    else out = Some status ∧ ∃ message, wResponse w' = httpError (wResponse w) message status in
  match picked with
  | None => answered 500%Z grpc.Unavailable
  | Some b =>
      (bkValid b = false → answered 500%Z grpc.Internal) ∧
      (bkValid b = true → bkTLSInvalid b = true → wSent w' = wSent w ∧ out = Some 502%Z) ∧
      (bkValid b = true → bkTLSInvalid b = false →
       Endpoints (stEndpoints st) (bkNamespace b) (bkName b) (bkPort b) = [] →
       answered 503%Z grpc.Unavailable)
  end.
Proof.
  unfold forward, mbind, M_bind, on_store.
  destruct (PickBackend rule (wStore w)) as [[b|] s'].
  2:{ unfold selection_error. destruct (ruGRPC rule); simpl; eauto 10. }
  destruct (bkValid b); cbn [negb].
  2:{ unfold selection_error. destruct (ruGRPC rule); simpl; split_and!; try done; eauto. }
  destruct (bkTLSInvalid b); [by split_and!|].
  destruct (Pick b (stEndpoints st) _) as [picked s2] eqn:Hp.
  match goal with |- context [let '(_, _) := ?x in _] => destruct x as [w' out] eqn:Hr end.
  split_and!; [done|done|]. intros _ _ He. unfold Pick in Hp. cbn [wStore] in Hp. rewrite He in Hp.
  simpl in Hp. injection Hp as <- <-. revert Hr. unfold selection_error.
  destruct (ruGRPC rule); intros [= <- <-]; simpl; eauto.
Qed.

End handler.

(** A client that names an identity header in its Connection header keeps the
    injected value from the backend. *)
Theorem connection_header_drops_identity identity h out :
  httputil.outgoing_header (auth.Apply identity (hSet h "Connection" auth.HeaderUser)) = Some out →
  hValues out auth.HeaderUser = [].
Proof.
  intros Ho. rewrite (httputil.outgoing_header_values _ _ auth.HeaderUser) with (3 := Ho)
    by (apply (bool_decide_unpack _); vm_compute; exact I).
  rewrite decide_True; [done|]. unfold httputil.connection_names.
  rewrite auth.Apply_other by (apply (bool_decide_unpack _); vm_compute; exact I).
  rewrite hValues_hSet. apply (bool_decide_unpack _). vm_compute. exact I.
Qed.

(** ** A concrete gateway *)

(** A backend that answers after reading the first four bytes of the body. *)
#[refine] Instance ex_outside : Outside := {|
  now := 1000000000;
  nonce := 0;
  drawBelow _ _ := false;
  exchange s _ := ([stake 4 (default "" (rqBody (seRequest s)))],
                   Ok (mkBackendResponse 200 {["Content-Type" := ["text/plain"]]} "ok"));
  switchProtocols _ _ _ := None;
  serveEndpoint w r _ := (404%Z, httpError w "404 page not found" 404);
|}.
Proof.
  - done.
  - intros s _. exists (sdrop 4 (default "" (rqBody (seRequest s)))). cbn [fst foldr].
    by rewrite app_empty_r, stake_sdrop.
Defined.

Definition ex_tls : Transport := mkTransport 50 "a.internal" None None [].
Definition ex_target : BackendTable :=
  mkBackendTable 2 "default" "a" 80 1 true false [] "key" (Some ex_tls) false.
Definition ex_mirror : BackendTable := mkBackendTable 3 "default" "a" 80 1 true false [] "" None false.
Definition ex_guarded : RuleTable :=
  mkRuleTable 1 [] [] [ex_target] [mkMirrorTable ex_mirror 100%Q] None false 0 0 1
    (Some (ratelimiting.ex_config 5 5)) (Some "engine") (Some (mkEnforcer auth.ex_auth)) false.
Definition ex_state : State :=
  mkState (ex_tables [ex_listener 10 "l" "" [ex_route "r" [] [ex_guarded]]]) ∅ ex_index.
Definition ex_inbound (connection : list string) : Request :=
  mkRequest "POST" "/upload" "" "a.example.com"
    {["Authorization" := ["Bearer good"]; "X-Auth-Request-User" := ["root"]; "Connection" := connection]}
    "192.0.2.1:4000" (Some "a.example.com") (Some "hello world") 11.
Definition ex_world : World (F := Q) := mkWorld ∅ ∅ newResponse 0 [].

Instance ex_auth_sealer : auth.Sealer := auth.ex_sealer.
Instance ex_auth_providers : auth.Providers := auth.ex_providers.
Instance ex_waf : waf.Coraza := waf.ex_coraza.
Instance ex_waf_line : waf.RequestLine := waf.ex_line.

Definition ex_served (connection : list string) : World (F := Q) :=
  (Serve ex_state (ex_inbound connection) 443 true ex_world).1.

Definition ex_primary (connection : list string) : Sent :=
  default (mkSent true ex_mirror PlainTransport "" "" (ex_inbound [])) (head (wSent (ex_served connection))).

Lemma ex_primary_sent connection :
  wSent (ex_served connection) ≠ [] → ex_primary connection ∈ sent_between ex_world (ex_served connection).
Proof.
  unfold ex_primary, sent_between. cbn [wSent ex_world length drop].
  destruct (wSent (ex_served connection)); [done|]. intros _. left.
Qed.

Lemma ex_limits connection : limits_answer ex_state (ex_inbound connection) 443.
Proof.
  intros rule l route cfg Hm. assert (rule = ex_guarded) as ->; [|intros [= <-]; discriminate].
  revert Hm. vm_compute. congruence.
Qed.

(** A backend that answers before reading the body leaves the mirror a truncated
    copy with a matching length. *)
Theorem mirror_can_be_truncated :
  (λ s, (seMirror s, seScheme s, seAddress s, rqBody (seRequest s))) <$> wSent (ex_served ["close"]) =
    [(false, "https", "10.0.0.1:8080", Some "hello world"); (true, "http", "10.0.0.1:8080", Some "hell")].
Proof. vm_compute. reflexivity. Qed.

Lemma forwarded_request_was_cleared_witness :
  ∃ rule l route, Match (stTables ex_state) 443 "a.example.com" (ex_inbound ["close"]) = Some (rule, l, route) ∧
    ruExtensionsInvalid rule = false ∧
    (∀ e, ruAuthEnforcer rule = Some e → ∃ identity r1, authenticated (ex_inbound ["close"]) e (ruGRPC rule) identity r1).
Proof.
  destruct (forwarded_request_was_cleared ex_state (ex_inbound ["close"]) 443 true ex_world (ex_served ["close"])
    (Serve ex_state (ex_inbound ["close"]) 443 true ex_world).2 (ex_primary ["close"]))
    as (rule & l & route & r1 & H1 & _ & _ & H2 & _ & H3 & _).
  - apply ex_limits.
  - apply surjective_pairing.
  - apply ex_primary_sent. vm_compute. discriminate.
  - exists rule, l, route. split; [exact H1|]. split; [exact H2|].
    intros e He. destruct (H3 e He) as [identity Hi]. exists identity, r1. exact Hi.
Defined.

Lemma backend_tls_policy_respected_witness :
  seTransport (ex_primary ["close"]) = TLSTransport ex_tls ∧ seScheme (ex_primary ["close"]) = "https".
Proof.
  apply (backend_tls_policy_respected ex_state (ex_inbound ["close"]) 443 true ex_world (ex_served ["close"])
    (Serve ex_state (ex_inbound ["close"]) 443 true ex_world).2 (ex_primary ["close"])).
  - apply surjective_pairing.
  - apply ex_primary_sent. vm_compute. discriminate.
  - vm_compute. reflexivity.
Defined.

Lemma identity_on_the_wire_witness :
  ∃ identity r1, authenticated (ex_inbound ["X-Auth-Request-User"]) (mkEnforcer auth.ex_auth) false identity r1 ∧
    hValues (rqHeader (seRequest (ex_primary ["X-Auth-Request-User"]))) auth.HeaderUser = [].
Proof.
  apply (identity_on_the_wire ex_state (ex_inbound ["X-Auth-Request-User"]) 443 true ex_world
    (ex_served ["X-Auth-Request-User"]) (Serve ex_state (ex_inbound ["X-Auth-Request-User"]) 443 true ex_world).2
    (ex_primary ["X-Auth-Request-User"]) ex_guarded (ex_listener 10 "l" "" [ex_route "r" [] [ex_guarded]])
    (ex_route "r" [] [ex_guarded]) (mkEnforcer auth.ex_auth) auth.HeaderUser).
  - apply ex_limits.
  - apply surjective_pairing.
  - apply ex_primary_sent. vm_compute. discriminate.
  - vm_compute. reflexivity.
  - reflexivity.
  - left.
Defined.

Lemma access_status_is_written_witness :
  ∃ access, rsStatus (wResponse (serve_rule ex_state (ex_inbound ["close"]) ex_guarded
      (ex_listener 10 "l" "" []) (ex_route "r" [] []) true "192.0.2.1" false ex_world).1) =
    Some (acStatus access) ∧ acStatus access = 200%Z.
Proof.
  destruct (serve_rule ex_state (ex_inbound ["close"]) ex_guarded
      (ex_listener 10 "l" "" []) (ex_route "r" [] []) true "192.0.2.1" false ex_world).2 as [access|] eqn:Ha;
    [|vm_compute in Ha; discriminate].
  exists access. split; [|vm_compute in Ha; injection Ha as <-; reflexivity].
  apply (access_status_is_written ex_state (ex_inbound ["close"]) ex_guarded (ex_listener 10 "l" "" [])
    (ex_route "r" [] []) true "192.0.2.1" false ex_world).
  - intros cfg [= <-]. discriminate.
  - reflexivity.
  - rewrite <-Ha. apply surjective_pairing.
Defined.

Lemma connection_header_drops_identity_witness :
  ∃ out, httputil.outgoing_header (auth.Apply auth.ex_identity (hSet ∅ "Connection" auth.HeaderUser)) = Some out ∧
    hValues out auth.HeaderUser = [].
Proof.
  eexists. split; [vm_compute; reflexivity|].
  apply (connection_header_drops_identity auth.ex_identity ∅). vm_compute. reflexivity.
Defined.

End proxy.
