(* ===== verification/GatewayTypes.v ===== *)
(** * Gateway API objects and the state of one reconciliation pass

    Models [internal/lib/k8s/gatewayapi/types.go] and what the engine reads
    of the Gateway API and core objects it lists.  A Go pointer that may be
    nil is an [option]; the string aliases of the API ([Hostname], [Kind],
    [SectionName], ...) are strings; timestamps are seconds, as the API
    server stores them. *)

From S2P Require Import Prelude GoStrings Compiled Ports.
From Stdlib Require Import QArith.QArith_base.
From stdpp Require Import options.

#[local] Close Scope Q_scope.
#[local] Open Scope nat_scope.

Module gatewayv1.

Definition GroupName := "gateway.networking.k8s.io".

Definition HTTPProtocolType := "HTTP".
Definition HTTPSProtocolType := "HTTPS".
Definition TCPProtocolType := "TCP".
Definition UDPProtocolType := "UDP".
Definition TLSProtocolType := "TLS".
Definition TLSModePassthrough := "Passthrough".
Definition TLSModeTerminate := "Terminate".

Definition NamespacesFromAll := "All".
Definition NamespacesFromSame := "Same".
Definition NamespacesFromSelector := "Selector".

(** ** Metadata and references *)

Record ObjectMeta := mkObjectMeta {
  omNamespace : string;
  omName : string;
  omUID : string;
  omCreation : Z;
  omGeneration : Z;
  omLabels : gmap string string;
}.

Record SecretObjectReference := mkSecretRef {
  srGroup : option string;
  srKind : option string;
  srName : string;
  srNamespace : option string;
}.

Record ObjectReference := mkObjectReference {
  orfGroup : string;
  orfKind : string;
  orfName : string;
  orfNamespace : option string;
}.

Record LocalObjectReference := mkLocalRef {
  lrGroup : string;
  lrKind : string;
  lrName : string;
}.

Record ParentReference := mkParentRef {
  prGroup : option string;
  prKind : option string;
  prNamespace : option string;
  prName : string;
  prSectionName : option string;
  prPort : option Z;
}.

Record BackendObjectReference := mkBackendObjectRef {
  brGroup : option string;
  brKind : option string;
  brName : string;
  brNamespace : option string;
  brPort : option Z;
}.

Record BackendRef := mkBackendRef {
  brObject : BackendObjectReference;
  brWeight : option Z;
}.

Record ReferenceGrantFrom := mkGrantFrom {
  gfGroup : string;
  gfKind : string;
  gfNamespace : string;
}.

Record ReferenceGrantTo := mkGrantTo {
  gtGroup : string;
  gtKind : string;
  gtName : option string;
}.

Record ReferenceGrant := mkReferenceGrant {
  rgNamespace : string;
  rgFrom : list ReferenceGrantFrom;
  rgTo : list ReferenceGrantTo;
}.

(** ** Gateways and listener sets *)

Record LabelSelectorRequirement := mkRequirement {
  lsqKey : string;
  lsqOperator : string;
  lsqValues : list string;
}.

Record LabelSelector := mkLabelSelector {
  lsMatchLabels : gmap string string;
  lsMatchExpressions : list LabelSelectorRequirement;
}.

(** [RouteNamespaces] and [ListenerNamespaces] have the same fields. *)
Record Namespaces := mkNamespaces {
  nsFrom : option string;
  nsSelector : option LabelSelector;
}.

Record RouteGroupKind := mkRouteGroupKind {
  gkGroup : option string;
  gkKind : string;
}.

Record AllowedRoutes := mkAllowedRoutes {
  arNamespaces : option Namespaces;
  arKinds : list RouteGroupKind;
}.

Record ListenerTLSConfig := mkListenerTLS {
  ltMode : option string;
  ltCertificateRefs : list SecretObjectReference;
}.

Record Listener := mkListener {
  lsName : string;
  lsHostname : option string;
  lsPort : Z;
  lsProtocol : string;
  lsTLS : option ListenerTLSConfig;
  lsAllowedRoutes : option AllowedRoutes;
}.

Record FrontendTLSValidation := mkFrontendValidation {
  fvCACertificateRefs : list ObjectReference;
  fvMode : string;
}.

Record TLSPortConfig := mkTLSPortConfig {
  tpPort : Z;
  tpValidation : option FrontendTLSValidation;
}.

Record FrontendTLSConfig := mkFrontendTLS {
  ftDefault : option FrontendTLSValidation;
  ftPerPort : list TLSPortConfig;
}.

(** [GatewayTLSConfig]: the frontend block and the client certificate of
    the backend block. *)
Record GatewayTLSConfig := mkGatewayTLS {
  gtFrontend : option FrontendTLSConfig;
  gtClientCertificateRef : option SecretObjectReference;
}.

Record GatewaySpecAddress := mkSpecAddress { saType : option string; saValue : string }.

Record GatewayInfrastructure := mkInfrastructure {
  giLabels : gmap string string;
  giAnnotations : gmap string string;
  giParametersRef : option LocalObjectReference;
}.

(** [AllowedListeners] has one field, its namespaces. *)
Record Gateway := mkGateway {
  gwMeta : ObjectMeta;
  gwClassName : string;
  gwListeners : list Listener;
  gwAddresses : list GatewaySpecAddress;
  gwInfrastructure : option GatewayInfrastructure;
  gwTLS : option GatewayTLSConfig;
  gwAllowedListeners : option (option Namespaces);
}.

Record GatewayClass := mkGatewayClass { clMeta : ObjectMeta; clControllerName : string }.

Record ListenerSet := mkListenerSet {
  lstMeta : ObjectMeta;
  lstParentRef : ParentReference;
  lstListeners : list Listener;
}.

(** ** Routes *)

Record HTTPPathMatch := mkPathMatch { pmType : option string; pmValue : option string }.
Record NamedMatch := mkNamedMatch { nmType : option string; nmName : string; nmValue : string }.

Record HTTPRouteMatch := mkHTTPMatch {
  hmPath : option HTTPPathMatch;
  hmHeaders : list NamedMatch;
  hmQueryParams : list NamedMatch;
  hmMethod : option string;
}.

Record HTTPHeader := mkHTTPHeader { hhName : string; hhValue : string }.

Record HTTPHeaderFilter := mkHeaderFilter {
  hfSet : list HTTPHeader;
  hfAdd : list HTTPHeader;
  hfRemove : list string;
}.

Record HTTPPathModifier := mkPathModifier {
  pmdType : string;
  pmdReplaceFullPath : option string;
  pmdReplacePrefixMatch : option string;
}.

Record HTTPRequestRedirectFilter := mkRedirect {
  rdScheme : option string;
  rdHostname : option string;
  rdPath : option HTTPPathModifier;
  rdPort : option Z;
  rdStatusCode : option Z;
}.

Record HTTPURLRewriteFilter := mkRewrite {
  rwHostname : option string;
  rwPath : option HTTPPathModifier;
}.

Record Fraction := mkFraction { frNumerator : Z; frDenominator : option Z }.

Record HTTPRequestMirrorFilter := mkMirror {
  miBackendRef : BackendObjectReference;
  miPercent : option Z;
  miFraction : option Fraction;
}.

Record HTTPCORSFilter := mkCORS {
  coAllowOrigins : list string;
  coAllowCredentials : option bool;
  coAllowMethods : list string;
  coAllowHeaders : list string;
  coExposeHeaders : list string;
  coMaxAge : Z;
}.

(** [HTTPRouteFilter]; a [GRPCRouteFilter] has the subset of its fields
    without redirect, rewrite and CORS. *)
Record HTTPRouteFilter := mkHTTPFilter {
  flType : string;
  flRequestHeaderModifier : option HTTPHeaderFilter;
  flResponseHeaderModifier : option HTTPHeaderFilter;
  flRequestMirror : option HTTPRequestMirrorFilter;
  flRequestRedirect : option HTTPRequestRedirectFilter;
  flURLRewrite : option HTTPURLRewriteFilter;
  flCORS : option HTTPCORSFilter;
  flExtensionRef : option LocalObjectReference;
}.

Record GRPCRouteFilter := mkGRPCFilter {
  gflType : string;
  gflRequestHeaderModifier : option HTTPHeaderFilter;
  gflResponseHeaderModifier : option HTTPHeaderFilter;
  gflRequestMirror : option HTTPRequestMirrorFilter;
  gflExtensionRef : option LocalObjectReference;
}.

Record HTTPRouteTimeouts := mkTimeouts {
  toRequest : option string;
  toBackendRequest : option string;
}.

Record HTTPBackendRef := mkHTTPBackendRef {
  hbRef : BackendRef;
  hbFilters : list HTTPRouteFilter;
}.

Record GRPCBackendRef := mkGRPCBackendRef {
  gbRef : BackendRef;
  gbFilters : list GRPCRouteFilter;
}.

Record HTTPRouteRule := mkHTTPRule {
  hrMatches : list HTTPRouteMatch;
  hrFilters : list HTTPRouteFilter;
  hrBackendRefs : list HTTPBackendRef;
  hrTimeouts : option HTTPRouteTimeouts;
}.

Record HTTPRoute := mkHTTPRoute {
  htMeta : ObjectMeta;
  htParentRefs : list ParentReference;
  htHostnames : list string;
  htRules : list HTTPRouteRule;
}.

Record GRPCMethodMatch := mkMethodMatch {
  mmType : option string;
  mmService : option string;
  mmMethod : option string;
}.

Record GRPCRouteMatch := mkGRPCMatch {
  gmMethod : option GRPCMethodMatch;
  gmHeaders : list NamedMatch;
}.

Record GRPCRouteRule := mkGRPCRule {
  grMatches : list GRPCRouteMatch;
  grFilters : list GRPCRouteFilter;
  grBackendRefs : list GRPCBackendRef;
}.

Record GRPCRoute := mkGRPCRoute {
  gpMeta : ObjectMeta;
  gpParentRefs : list ParentReference;
  gpHostnames : list string;
  gpRules : list GRPCRouteRule;
}.

(** [TCPRoute], [UDPRoute] and [TLSRoute]: a rule is its backend
    references; only TLS routes carry hostnames. *)
Record L4Route := mkL4Route {
  l4Meta : ObjectMeta;
  l4ParentRefs : list ParentReference;
  l4Hostnames : list string;
  l4Rules : list (list BackendRef);
}.

(** ** Backend TLS policies *)

Record PolicyTarget := mkPolicyTarget {
  ptGroup : string;
  ptKind : string;
  ptName : string;
  ptSectionName : option string;
}.

Record SubjectAltName := mkSAN { sanType : string; sanHostname : string; sanURI : string }.

Record BackendTLSPolicyValidation := mkPolicyValidation {
  pvCACertificateRefs : list LocalObjectReference;
  pvWellKnownCACertificates : option string;
  pvHostname : string;
  pvSubjectAltNames : list SubjectAltName;
}.

Record BackendTLSPolicy := mkBackendTLSPolicy {
  bpMeta : ObjectMeta;
  bpTargetRefs : list PolicyTarget;
  bpValidation : BackendTLSPolicyValidation;
  bpOptions : gmap string string;
}.

End gatewayv1.

(** ** Core objects *)

Module corev1.
Import gatewayv1.

Record ServicePort := mkServicePort {
  spName : string;
  spPort : Z;
  spAppProtocol : option string;
}.

Record Service := mkService {
  svMeta : ObjectMeta;
  svAnnotations : gmap string string;
  svPorts : list ServicePort;
}.

Record ConfigMap := mkConfigMap { cmMeta : ObjectMeta; cmData : gmap string string }.
Record Secret := mkSecret { scMeta : ObjectMeta; scData : gmap string string }.

Definition TLSCertKey := "tls.crt".
Definition TLSPrivateKeyKey := "tls.key".

End corev1.

(** ** The engine's own state ([types.go], [backendtls.go]) *)

Module gatewayapi.
Import gatewayv1.

(** [nsName], the canonical key of an object. *)
Definition nsName (namespace name : string) : string := namespace +:+ "/" +:+ name.

Definition outcomeKey (kind namespace name : string) : string :=
  kind +:+ ":" +:+ nsName namespace name.

(** *** Acknowledgements *)

Record GatewayAck := mkGatewayAck {
  gaDesiredGeneration : string;
  gaAppliedGeneration : string;
  gaLastError : string;
}.

Record PodAck := mkPodAck {
  paHealthy : bool;
  paIP : string;
  paHostIP : string;
  paNodeName : string;
  paGateways : gmap string GatewayAck;
}.

Record AckState := mkAckState { asPods : gmap string PodAck }.

Definition EmptyAckState : AckState := mkAckState ∅.

(** One iteration of the loop of [AllAcked]: the healthy count, or the
    early [return false]. *)
Definition ack_step (gatewayUID generation : string) (healthy : Z) (pod : PodAck) : result unit Z :=
  if negb (paHealthy pod) then Ok healthy
  else match paGateways pod !! gatewayUID with
       | Some ack =>
           if (gaAppliedGeneration ack == generation) then Ok (healthy + 1)%Z else Err tt
       | None => Err tt
       end.

Definition AllAcked (s : AckState) (gatewayUID generation : string) : bool :=
  match foldM (ack_step gatewayUID generation) 0%Z (map_to_list (asPods s)).*2 with
  | Ok healthy => (0 <? healthy)%Z
  | Err _ => false
  end.

Definition AckedGenerations (s : AckState) (gatewayUID : string) : gset string :=
  fold_left (λ acked pod,
    match paGateways pod !! gatewayUID with
    | Some ack =>
        if (gaAppliedGeneration ack != "") then {[ gaAppliedGeneration ack ]} ∪ acked else acked
    | None => acked
    end) (map_to_list (asPods s)).*2 ∅.

(** *** Backend TLS policies after validation

    Bindings share the state of their policy and later targets of a policy
    change it, so the states live in a heap and a binding holds an address
    in it. *)

Record backendTLSPolicyState := mkPolicyState {
  psPolicy : BackendTLSPolicy;
  psTLS : option compiled.BackendTLS;
  psAccepted : bool;
  psAcceptedReason : string;
  psResolvedOK : bool;
  psResolvedReason : string;
  psMessage : string;
  psAncestors : gmap string ParentReference;
}.

Record backendTLSBinding := mkBinding {
  bdState : nat;
  bdSectionName : string;
  bdConflicted : bool;
}.

(** *** The cluster snapshot of one pass *)

Record world := mkWorld {
  wClasses : list GatewayClass;
  wGateways : list Gateway;
  wRoutes : list HTTPRoute;
  wGRPCRoutes : list GRPCRoute;
  wTCPRoutes : list L4Route;
  wTLSRoutes : list L4Route;
  wUDPRoutes : list L4Route;
  wGrants : list ReferenceGrant;
  wNamespaces : gmap string (gmap string string);
  wListenerSets : list ListenerSet;
  wBackendTLSPolicies : list BackendTLSPolicy;
  wBackendTLSStates : list backendTLSPolicyState;
  wBackendTLS : gmap string (list backendTLSBinding);
  wServices : gmap string corev1.Service;
  wKrouterServices : list corev1.Service;
  wGeneratedCMs : list corev1.ConfigMap;
  wGeneratedSecrets : list corev1.Secret;
  wExtensionCM : string → string → result string corev1.ConfigMap;
  wExtensionSecret : string → string → result string corev1.Secret;
  wAcks : AckState;
  wBundleVersion : string;
}.

(** *** Listeners *)

Record listenerState := mkListenerState {
  lsSpec : Listener;
  lsInternalPort : Z;
  lsSet : option ListenerSet;
  lsAccepted : bool;
  lsAcceptedReason : string;
  lsConflicted : bool;
  lsRefsResolved : bool;
  lsRefsReason : string;
  lsRefsMessage : string;
  lsSupportedKinds : list RouteGroupKind;
  lsAllowedKinds : gset string;
  lsCertData : gmap string string;
  lsClientCAMode : string;
  lsAttachedRoutes : Z;
}.

Definition valid (l : listenerState) : bool := lsAccepted l && lsRefsResolved l.

Definition ownerKey (l : listenerState) : string :=
  match lsSet l with
  | None => ""
  | Some set => nsName (omNamespace (lstMeta set)) (omName (lstMeta set))
  end.

Definition effectiveName (l : listenerState) : string :=
  match lsSet l with
  | None => lsName (lsSpec l)
  | Some set => omNamespace (lstMeta set) +:+ "--" +:+ omName (lstMeta set) +:+ "--" +:+ lsName (lsSpec l)
  end.

(** *** Attachment outcomes *)

(** The route pointer of an outcome: exactly one kind is set. *)
Inductive AttachedRoute :=
  | AttachedHTTP (route : HTTPRoute)
  | AttachedGRPC (route : GRPCRoute)
  | AttachedTCP (route : L4Route)
  | AttachedTLS (route : L4Route)
  | AttachedUDP (route : L4Route).

Record routeParentOutcome := mkOutcome {
  roRoute : AttachedRoute;
  roParentRef : ParentReference;
  roAccepted : bool;
  roAcceptedReason : string;
  roRefsResolved : bool;
  roRefsReason : string;
  roRefsMessage : string;
  roConfig : option compiled.RouteConfig;
  roAuthDocs : gmap string string;
}.

Definition routeKind (o : routeParentOutcome) : string :=
  match roRoute o with
  | AttachedGRPC _ => "GRPCRoute"
  | AttachedTCP _ => "TCPRoute"
  | AttachedTLS _ => "TLSRoute"
  | AttachedUDP _ => "UDPRoute"
  | AttachedHTTP _ => "HTTPRoute"
  end.

Definition routeMeta (o : routeParentOutcome) : ObjectMeta :=
  match roRoute o with
  | AttachedGRPC route => gpMeta route
  | AttachedTCP route | AttachedTLS route | AttachedUDP route => l4Meta route
  | AttachedHTTP route => htMeta route
  end.

(** ** Lemmas *)

Lemma foldM_ack uid gen pods n :
  match foldM (ack_step uid gen) n pods with
  | Ok m => (n ≤ m)%Z ∧ (n < m ↔ ∃ pod, pod ∈ pods ∧ paHealthy pod = true)%Z ∧
      ∀ pod, pod ∈ pods → paHealthy pod = true →
        ∃ ack, paGateways pod !! uid = Some ack ∧ gaAppliedGeneration ack = gen
  | Err _ => ∃ pod, pod ∈ pods ∧ paHealthy pod = true ∧
      ∀ ack, paGateways pod !! uid = Some ack → gaAppliedGeneration ack ≠ gen
  end.
Proof.
  revert n; induction pods as [|p pods IH]; intros n; simpl.
  { split; [lia|]. split; [|by intros ? ?%elem_of_nil].
    split; [lia|by intros (? & ?%elem_of_nil & ?)]. }
  unfold mbind, result_bind, ack_step at 1.
  destruct (paHealthy p) eqn:Hp; simpl.
  - destruct (paGateways p !! uid) as [ack|] eqn:Ha; simpl.
    2: { exists p. split; [left|]. naive_solver. }
    case_bool_decide as Hg; simpl.
    2: { exists p. split; [left|]. naive_solver. }
    specialize (IH (n + 1)%Z). destruct (foldM _ _ _) as [m|].
    + destruct IH as (? & ? & H). split; [lia|].
      split; [|intros q [->|Hq]%elem_of_cons Hh; eauto].
      split; [|lia]. intros _. exists p. split; [left|done].
    + destruct IH as (q & ? & ?). exists q. split; [by right|done].
  - specialize (IH n). destruct (foldM _ _ _) as [m|].
    + destruct IH as (? & Hm & H). split; [done|].
      split; [|intros q [->|Hq]%elem_of_cons Hh; [congruence|eauto]].
      rewrite Hm. split; [intros (q & ? & ?); exists q; split; [by right|done]|].
      intros (q & [->|Hq]%elem_of_cons & ?); [congruence|eauto].
    + destruct IH as (q & ? & ?). exists q. split; [by right|done].
Qed.

End gatewayapi.
