(* ===== verification/References.v ===== *)
(** * References, namespaces and hostnames

    Models the helpers at the end of
    [internal/lib/k8s/gatewayapi/compile.go] and [validCAPem] of
    [backendtls.go]: which references a ReferenceGrant permits, which
    namespaces a listener admits, when the hostnames of a route and of a
    listener intersect, and what counts as a CA bundle. *)

From S2P Require Import Prelude GoStrings Compiled Tables Matching Build GatewayTypes.
From stdpp Require Import options.

#[local] Open Scope nat_scope.

Module references.
Import gatewayv1 gatewayapi.

(** The Kubernetes client and the decoders the engine calls.  A pass reads
    one state of the cluster, so reads are functions.  [pem.Decode] returns
    what follows the block it found. *)
Class Kubernetes := {
  getSecret : string → string → result string corev1.Secret;
  getConfigMap : string → string → result string corev1.ConfigMap;
  (** [metav1.LabelSelectorAsSelector], and the [Matches] of its result *)
  labelSelectorAsSelector : LabelSelector → result string (gmap string string → bool);
  (** [pem.Decode]: the block's type and bytes, and the rest *)
  pemDecode : string → option (string * string * string);
  pemDecode_shorter s ty b rest : pemDecode s = Some (ty, b, rest) → len rest < len s;
  (** [time.ParseDuration], in nanoseconds *)
  parseDuration : string → option Z;
}.

(** ** Operations *)

Definition grant_from (fromGroup fromKind fromNamespace : string) (from : ReferenceGrantFrom) : bool :=
  (gfGroup from == fromGroup) && (gfKind from == fromKind) && (gfNamespace from == fromNamespace).

Definition grant_to (toKind toName : string) (to : ReferenceGrantTo) : bool :=
  if (gtGroup to != "") || (gtKind to != toKind) then false
  else match gtName to with
       | Some name => name == toName
       | None => true
       end.

Definition referenceGrantAllows (grants : list ReferenceGrant)
    (fromGroup fromKind fromNamespace toKind toNamespace toName : string) : bool :=
  existsb (λ grant,
    if (rgNamespace grant != toNamespace) then false
    else if negb (existsb (grant_from fromGroup fromKind fromNamespace) (rgFrom grant)) then false
    else existsb (grant_to toKind toName) (rgTo grant)) grants.

Definition wildcardMatches (pattern host : string) : bool :=
  if hasPrefix pattern "*." then
    let suffix := sdrop 1 pattern in
    (len suffix <? len host) && hasSuffix host suffix
  else equalFold pattern host.

Definition hostnamesIntersect (listenerHostname : option string) (routeHostnames : list string) : bool :=
  match listenerHostname with
  | None => true
  | Some pattern =>
      if (pattern == "") || (length routeHostnames =? 0) then true
      else existsb (λ host, wildcardMatches pattern host || wildcardMatches host pattern)
             routeHostnames
  end.

Section cluster.
Context {k8s : Kubernetes}.

(** The [From] switch shared by routes and listener sets. *)
Definition selector_admits (selector : option LabelSelector) (labels : gmap string string) : bool :=
  match selector with
  | None => false
  | Some selector =>
      match labelSelectorAsSelector selector with
      | Err _ => false
      | Ok matches => matches labels
      end
  end.

Definition namespaceAllowed (allowed : option AllowedRoutes) (routeNamespace gatewayNamespace : string)
    (namespaces : gmap string (gmap string string)) : bool :=
  let ns := allowed ≫= arNamespaces in
  let from := default NamespacesFromSame (ns ≫= nsFrom) in
  let selector := ns ≫= nsSelector in
  if (from == NamespacesFromAll) then true
  else if (from == NamespacesFromSame) then routeNamespace == gatewayNamespace
  else if (from == NamespacesFromSelector)
       then selector_admits selector (default ∅ (namespaces !! routeNamespace))
  else false.

Context {libs : build.Libraries}.

(** The loop of [validCAPem] with [fuel] iterations left. *)
Fixpoint ca_loop (fuel : nat) (rest : string) : bool :=
  match fuel with
  | O => false
  | S fuel =>
      match pemDecode rest with
      | None => false
      | Some (ty, bytes, rest) =>
          if (ty != "CERTIFICATE") then ca_loop fuel rest
          else match build.parseCertificate bytes with
               | Ok _ => true
               | Err _ => ca_loop fuel rest
               end
      end
  end.

Definition validCAPem (bundle : string) : bool := ca_loop (S (len bundle)) bundle.

(** ** CA bundles *)

(** The blocks [pem.Decode] finds one after the other. *)
Inductive pem_block : string → string → string → Prop :=
  | pem_here s ty b rest : pemDecode s = Some (ty, b, rest) → pem_block s ty b
  | pem_later s ty b rest ty' b' :
      pemDecode s = Some (ty, b, rest) → pem_block rest ty' b' → pem_block s ty' b'.

Definition holds_certificate (s : string) : Prop :=
  ∃ b, pem_block s "CERTIFICATE" b ∧ ∃ cert, build.parseCertificate b = Ok cert.

Lemma ca_loop_spec fuel s : len s < fuel → ca_loop fuel s = true ↔ holds_certificate s.
Proof.
  revert s; induction fuel as [|fuel IH]; intros s Hs; [lia|]. simpl. unfold holds_certificate.
  destruct (pemDecode s) as [[[ty b] rest]|] eqn:Hd.
  2: { split; [done|]. intros (b & Hb & _). inversion Hb; congruence. }
  specialize (IH rest ltac:(pose proof (pemDecode_shorter _ _ _ _ Hd); lia)).
  assert (Hinv : ∀ c, pem_block s "CERTIFICATE" c →
                      (ty = "CERTIFICATE" ∧ c = b) ∨ pem_block rest "CERTIFICATE" c).
  { inversion 1; simplify_eq; auto. }
  assert (Hrest : holds_certificate rest → ∃ c, pem_block s "CERTIFICATE" c ∧
                    ∃ cert, build.parseCertificate c = Ok cert).
  { intros (c & Hc & Hp). exists c. split; [by eapply pem_later|done]. }
  case_bool_decide as Hty; simpl.
  - destruct (build.parseCertificate b) as [cert|] eqn:Hp.
    + split; [|done]. intros _. exists b. split; [|by exists cert]. rewrite <-Hty. by eapply pem_here.
    + rewrite IH. split; [done|]. intros (c & [[_ ->]|Hc]%Hinv & Hok); [destruct Hok; congruence|by exists c].
  - rewrite IH. split; [done|]. intros (c & [[? ->]|Hc]%Hinv & Hok); [done|by exists c].
Qed.

Lemma validCAPem_holds bundle : validCAPem bundle = true ↔ holds_certificate bundle.
Proof. apply ca_loop_spec. lia. Qed.

End cluster.

(** ** Grants *)

(** A grant in the target's namespace that names the referrer's kind and
    namespace and covers the target. *)
Definition permits (grant : ReferenceGrant)
    (fromGroup fromKind fromNamespace toKind toNamespace toName : string) : Prop :=
  rgNamespace grant = toNamespace ∧
  (∃ from, from ∈ rgFrom grant ∧ gfGroup from = fromGroup ∧ gfKind from = fromKind ∧
           gfNamespace from = fromNamespace) ∧
  (∃ to, to ∈ rgTo grant ∧ gtGroup to = "" ∧ gtKind to = toKind ∧
         (gtName to = None ∨ gtName to = Some toName)).

Lemma grant_from_true g k n from :
  grant_from g k n from = true ↔ gfGroup from = g ∧ gfKind from = k ∧ gfNamespace from = n.
Proof. unfold grant_from. rewrite !andb_true_iff, !bool_decide_eq_true. tauto. Qed.

Lemma grant_to_true k n to :
  grant_to k n to = true ↔
  gtGroup to = "" ∧ gtKind to = k ∧ (gtName to = None ∨ gtName to = Some n).
Proof.
  unfold grant_to. repeat case_bool_decide; simpl; try naive_solver.
  destruct (gtName to); [|naive_solver]. rewrite bool_decide_eq_true. naive_solver.
Qed.

Lemma existsb_elem {A} (f : A → bool) l : existsb f l = true ↔ ∃ x, x ∈ l ∧ f x = true.
Proof. rewrite existsb_exists. by setoid_rewrite list_elem_of_In. Qed.

Lemma referenceGrantAllows_permits grants fg fk fn tk tn name :
  referenceGrantAllows grants fg fk fn tk tn name = true ↔
  ∃ grant, grant ∈ grants ∧ permits grant fg fk fn tk tn name.
Proof.
  unfold referenceGrantAllows. rewrite existsb_elem. unfold permits.
  f_equiv. intros grant. f_equiv.
  case_bool_decide as Hns; simpl; [|naive_solver].
  setoid_rewrite <-grant_from_true. setoid_rewrite <-grant_to_true.
  rewrite <-!existsb_elem.
  destruct (existsb _ (rgFrom grant)); simpl; naive_solver.
Qed.

(** ** Hostnames *)

(** A hostname as the API server admits it: not empty, no upper case. *)
Definition host_ok (h : string) : Prop := h ≠ "" ∧ lower_text h = true.

Lemma wildcardMatches_data_plane pattern host :
  pattern ≠ "" → wildcardMatches pattern host = matching.hostnameMatches pattern host.
Proof. intros Hp. unfold matching.hostnameMatches. by rewrite bool_decide_false. Qed.

Lemma wildcard_shape p : hasPrefix p "*." = true ↔ ∃ t, p = "*" +:+ ("." +:+ t).
Proof. by rewrite hasPrefix_spec. Qed.

Lemma sdrop_star t : sdrop 1 ("*" +:+ t) = t.
Proof. done. Qed.

Lemma hasSuffix_lower host suffix :
  hasSuffix host suffix = true → lower_text suffix = true → hasSuffix (toLower host) suffix = true.
Proof.
  rewrite !hasSuffix_spec. intros [t ->] Hs. exists (toLower t).
  by rewrite toLower_app, (toLower_lower suffix).
Qed.

Lemma lower_text_app s t : lower_text (s +:+ t) = lower_text s && lower_text t.
Proof. apply sforall_app. Qed.

Lemma lower_text_sdrop n s : lower_text s = true → lower_text (sdrop n s) = true.
Proof.
  rewrite <-(stake_sdrop n s) at 1. rewrite lower_text_app. by intros [_ ?]%andb_true_iff.
Qed.

(** The longer of two suffixes of one text ends in the shorter. *)
Lemma hasSuffix_nested h s t :
  hasSuffix h s = true → hasSuffix h t = true → len s ≤ len t → hasSuffix t s = true.
Proof.
  rewrite !hasSuffix_spec. intros [u ->] [v Hv] Hlen.
  assert (Hl : len u + len s = len v + len t) by (by rewrite <-!len_app, Hv).
  exists (sdrop (len v) u).
  assert (Hd : sdrop (len v) (u +:+ s) = t) by (by rewrite Hv, sdrop_app).
  rewrite <-Hd. clear Hd Hv. revert u Hl. induction v as [|c v IH]; intros u Hl; [done|].
  destruct u as [|d u]; simpl in Hl; [lia|]. rewrite app_cons. simpl. apply IH. lia.
Qed.

(** Two patterns overlap when some host matches both. *)
Definition overlap (p q : string) : Prop :=
  ∃ host, ascii_text host = true ∧
    matching.hostnameMatches p host = true ∧ matching.hostnameMatches q host = true.

Lemma overlap_sym p q : overlap p q → overlap q p.
Proof. intros (h & ? & ? & ?). by exists h. Qed.

(** A pattern matches some host: itself, or its wildcard filled in. *)
Definition pattern_host (p : string) : string :=
  if hasPrefix p "*." then "a" +:+ sdrop 1 p else p.

Lemma pattern_host_ascii p : lower_text p = true → ascii_text (pattern_host p) = true.
Proof.
  intros Hp. apply lower_text_ascii. unfold pattern_host. destruct (hasPrefix p "*."); [|done].
  rewrite lower_text_app. by rewrite lower_text_sdrop.
Qed.

Lemma pattern_host_matches p : matching.hostnameMatches p (pattern_host p) = true.
Proof.
  unfold matching.hostnameMatches, pattern_host. case_bool_decide; [done|].
  destruct (hasPrefix p "*."); [|apply equalFold_refl].
  rewrite hasSuffix_app, andb_true_r. apply Nat.ltb_lt. rewrite len_app. simpl. lia.
Qed.

Lemma wildcard_overlap p q :
  host_ok p → host_ok q → wildcardMatches p q = true → overlap p q.
Proof.
  intros [Hp Hpl] [Hq Hql] Hw. exists (pattern_host q).
  split; [by apply pattern_host_ascii|]. split; [|apply pattern_host_matches].
  rewrite <-wildcardMatches_data_plane by done. revert Hw. unfold wildcardMatches, pattern_host.
  destruct (hasPrefix p "*.") eqn:Hwp.
  - intros [Hlen%Nat.ltb_lt Hs]%andb_true_iff.
    destruct (hasPrefix q "*.") eqn:Hwq; [|apply andb_true_iff; by rewrite Nat.ltb_lt].
    apply wildcard_shape in Hwq as [t ->]. generalize dependent (sdrop 1 p). intros s1 Hs Hlen.
    rewrite sdrop_star.
    apply andb_true_iff. rewrite Nat.ltb_lt. split; [by rewrite len_app in *|].
    rewrite hasSuffix_spec. apply hasSuffix_spec in Hs as [u Hu].
    destruct u as [|c u]; [rewrite Hu in Hlen; rewrite app_empty_l in Hlen; lia|].
    exists (String "a" u). rewrite !app_cons in Hu |- *. injection Hu as _ Hu. by rewrite <-Hu.
  - destruct (hasPrefix q "*.") eqn:Hwq; [|done].
    rewrite equalFold_ascii, bool_decide_eq_true by (by apply lower_text_ascii).
    rewrite !toLower_lower by done. intros ->. congruence.
Qed.

Lemma overlap_wildcard p q :
  host_ok p → host_ok q → overlap p q → wildcardMatches p q || wildcardMatches q p = true.
Proof.
  intros [Hp Hpl] [Hq Hql] (h & Hh & Hmp & Hmq). apply orb_true_iff.
  rewrite <-wildcardMatches_data_plane in Hmp, Hmq by done.
  assert (Hexact : ∀ r, lower_text r = true → equalFold r h = true → r = toLower h).
  { intros r Hr. rewrite equalFold_ascii, bool_decide_eq_true by eauto using lower_text_ascii.
    by rewrite toLower_lower. }
  assert (Hmixed : ∀ w r, lower_text w = true → lower_text r = true → hasPrefix w "*." = true →
            wildcardMatches w h = true → equalFold r h = true → wildcardMatches w r = true).
  { intros w r Hwl Hr Hw. unfold wildcardMatches. rewrite Hw.
    intros [Hlen Hs]%andb_true_iff ->%Hexact; [|done].
    rewrite len_toLower, Hlen. apply hasSuffix_lower; [done|by apply lower_text_sdrop]. }
  assert (Hnested : ∀ v w, hasPrefix v "*." = true → hasPrefix w "*." = true →
            wildcardMatches v h = true → wildcardMatches w h = true →
            len v ≤ len w → wildcardMatches v w = true).
  { intros v w Hv Hw. unfold wildcardMatches. rewrite Hv, Hw.
    apply wildcard_shape in Hv as [v' ->]. apply wildcard_shape in Hw as [w' ->].
    rewrite !sdrop_star, !(len_app "*").
    intros [_ Hs]%andb_true_iff [_ Ht]%andb_true_iff Hlen.
    apply andb_true_iff. split; [apply Nat.ltb_lt; simpl in *; lia|].
    apply (hasSuffix_nested _ _ _ Hs) in Ht; [|lia].
    apply hasSuffix_spec in Ht as [u Hu]. apply hasSuffix_spec. exists ("*" +:+ u).
    by rewrite Hu, sapp_assoc. }
  assert (Hfold : ∀ r, hasPrefix r "*." = false → wildcardMatches r h = true → equalFold r h = true).
  { intros r Hr. unfold wildcardMatches. by rewrite Hr. }
  destruct (hasPrefix p "*.") eqn:Hwp, (hasPrefix q "*.") eqn:Hwq.
  - destruct (decide (len p ≤ len q)); [left|right]; eapply Hnested; try done; lia.
  - left. eapply Hmixed; eauto.
  - right. eapply Hmixed; eauto.
  - left. rewrite (Hexact p), (Hexact q) by eauto.
    unfold wildcardMatches. rewrite <-(Hexact p), Hwp by eauto. apply equalFold_refl.
Qed.

Lemma wildcard_overlap_iff p q :
  host_ok p → host_ok q → wildcardMatches p q || wildcardMatches q p = true ↔ overlap p q.
Proof.
  intros Hp Hq. split; [|by apply overlap_wildcard].
  intros [?|?]%orb_true_iff; [by apply wildcard_overlap|by apply overlap_sym, wildcard_overlap].
Qed.

(** ** Properties *)

(** C22: A route's hostnames and a listener's hostname intersect in the control
    plane exactly when some host name is served by both under the data plane's
    hostname matching, wildcards included; hostnames are not empty and without
    upper case, as the API server admits them. *)
Theorem hostnames_intersect_spec listenerHostname routeHostnames :
  (∀ h, listenerHostname = Some h → h ≠ "" → host_ok h) → Forall host_ok routeHostnames →
  hostnamesIntersect listenerHostname routeHostnames = true ↔
  ∃ host, ascii_text host = true ∧
    matching.hostnameMatches (default "" listenerHostname) host = true ∧
    matching.routeHostnameMatches routeHostnames host = true.
Proof.
  intros Hl Hr. unfold hostnamesIntersect, matching.routeHostnameMatches.
  assert (Hany : ∀ p, p = "" ∨ host_ok p → ∃ host, ascii_text host = true ∧
            matching.hostnameMatches p host = true).
  { intros p Hp. exists (pattern_host p). split; [|apply pattern_host_matches].
    apply pattern_host_ascii. destruct Hp as [->|[??]]; done. }
  assert (Hroute : Forall host_ok routeHostnames → ∃ host, ascii_text host = true ∧
            (if length routeHostnames =? 0 then true
             else existsb (λ pattern, matching.hostnameMatches pattern host) routeHostnames) = true).
  { intros [|r rs Hr1 _]; [by exists ""|]. destruct (Hany r) as (host & ? & Hm); [by right|].
    exists host. split; [done|]. simpl. by rewrite Hm. }
  destruct listenerHostname as [p|]; simpl; [|naive_solver].
  destruct (decide (p = "")) as [->|Hp]; [simpl; naive_solver|].
  rewrite bool_decide_false by done. specialize (Hl p eq_refl Hp). simpl.
  destruct routeHostnames as [|r rs]; [simpl; split; [|done]; intros _|].
  { destruct (Hany p) as (h & ? & ?); [by right|]. by exists h. }
  assert (length (r :: rs) =? 0 = false) as -> by done. rewrite existsb_elem. split.
  - intros (q & Hq & Hw). apply wildcard_overlap_iff in Hw as (h & ? & ? & ?);
      [|done|by eapply Forall_forall in Hr; [|apply list_elem_of_In]].
    exists h. do 2 (split; [done|]). apply existsb_elem. by exists q.
  - intros (h & ? & ? & (q & Hq & ?)%existsb_elem). exists q. split; [done|].
    apply wildcard_overlap_iff; [done|by eapply Forall_forall in Hr; [|apply list_elem_of_In]|].
    by exists h.
Qed.

(** The scan of a PEM bundle ends within the length of its input for any decoder
    that consumes what it decodes, and accepts exactly the bundles holding a
    certificate that parses. *)
Theorem ca_scan_terminates {k8s : Kubernetes} {libs : build.Libraries} bundle fuel :
  len bundle < fuel →
  ca_loop fuel bundle = validCAPem bundle ∧
  (validCAPem bundle = true ↔ holds_certificate bundle).
Proof.
  intros Hf. split; [|apply validCAPem_holds].
  apply eq_true_iff_eq.
  rewrite ca_loop_spec by done. symmetry. apply validCAPem_holds.
Qed.

(** ** Examples *)

(** A client over fixed objects; PEM blocks are [type|bytes;], durations
    whole seconds. *)
Definition ex_pem (s : string) : option (string * string * string) :=
  '(ty, r) ← cut s "|"; '(b, rest) ← cut r ";"; Some (ty, b, rest).

Definition ex_duration (s : string) : option Z :=
  n ← parseUint 32 (trimSuffix s "s"); Some (n * 1000000000)%Z.

Definition ex_selector (sel : LabelSelector) : result string (gmap string string → bool) :=
  Ok (λ labels, bool_decide (lsMatchLabels sel ⊆ labels)).

Lemma ex_pem_shorter s ty b rest : ex_pem s = Some (ty, b, rest) → len rest < len s.
Proof.
  unfold ex_pem. destruct (cut s "|") as [[u r]|] eqn:H1; simpl; [|done].
  destruct (cut r ";") as [[v w]|] eqn:H2; simpl; [|done]. intros [= _ _ <-].
  apply cut_Some in H1 as ->. apply cut_Some in H2 as ->. rewrite !len_app. simpl. lia.
Qed.

Definition ex_k8s (secrets : gmap string corev1.Secret) (cms : gmap string corev1.ConfigMap) :
    Kubernetes := {|
  getSecret ns name := of_option "not found" (secrets !! nsName ns name);
  getConfigMap ns name := of_option "not found" (cms !! nsName ns name);
  labelSelectorAsSelector := ex_selector;
  pemDecode := ex_pem;
  pemDecode_shorter := ex_pem_shorter;
  parseDuration := ex_duration;
|}.

Definition ex_bundle : string := "KEY|k;CERTIFICATE|;CERTIFICATE|c;".

Lemma hostnames_intersect_spec_witness :
  hostnamesIntersect (Some "*.example.com") ["other.org"; "*.api.example.com"] = true ∧
  ∃ host, ascii_text host = true ∧
    matching.hostnameMatches "*.example.com" host = true ∧
    matching.routeHostnameMatches ["other.org"; "*.api.example.com"] host = true.
Proof.
  split; [reflexivity|].
  apply (hostnames_intersect_spec (Some "*.example.com") ["other.org"; "*.api.example.com"]).
  - intros h Hh. injection Hh as <-. by split.
  - repeat constructor; done.
  - reflexivity.
Defined.

Lemma ca_scan_terminates_witness :
  let k8s := ex_k8s ∅ ∅ in let libs := build.ex_libs in
  ca_loop 100 ex_bundle = validCAPem ex_bundle ∧ validCAPem ex_bundle = true.
Proof.
  intros k8s libs. split; [|vm_compute; reflexivity].
  refine (proj1 (@ca_scan_terminates k8s libs ex_bundle 100 _)). vm_compute. lia.
Defined.

End references.
