(* ===== verification/Listeners.v ===== *)
(** * Listener validation

    Models the listener half of [internal/lib/k8s/gatewayapi/compile.go]
    ([validateListeners] to [resolveCertificates]) and the selection of
    listener sets in [listenersets.go]: the effective listeners of a
    Gateway, their certificates, client CAs, route kinds, internal ports
    and the conflicts between them. *)

From S2P Require Import Prelude GoStrings Compiled Build Ports GatewayTypes References.
From stdpp Require Import options.

#[local] Open Scope nat_scope.

Module listeners.
Import gatewayv1 gatewayapi references.

(** ** Field updates *)

Definition set_accepted (b : bool) (reason : string) (l : listenerState) : listenerState :=
  mkListenerState (lsSpec l) (lsInternalPort l) (lsSet l) b reason (lsConflicted l)
    (lsRefsResolved l) (lsRefsReason l) (lsRefsMessage l) (lsSupportedKinds l) (lsAllowedKinds l)
    (lsCertData l) (lsClientCAMode l) (lsAttachedRoutes l).

Definition set_conflicted (l : listenerState) : listenerState :=
  mkListenerState (lsSpec l) (lsInternalPort l) (lsSet l) (lsAccepted l) (lsAcceptedReason l) true
    (lsRefsResolved l) (lsRefsReason l) (lsRefsMessage l) (lsSupportedKinds l) (lsAllowedKinds l)
    (lsCertData l) (lsClientCAMode l) (lsAttachedRoutes l).

Definition unresolved (reason message : string) (l : listenerState) : listenerState :=
  mkListenerState (lsSpec l) (lsInternalPort l) (lsSet l) (lsAccepted l) (lsAcceptedReason l)
    (lsConflicted l) false reason message (lsSupportedKinds l) (lsAllowedKinds l)
    (lsCertData l) (lsClientCAMode l) (lsAttachedRoutes l).

Definition set_kinds (supported : list RouteGroupKind) (allowed : gset string) (l : listenerState) :
    listenerState :=
  mkListenerState (lsSpec l) (lsInternalPort l) (lsSet l) (lsAccepted l) (lsAcceptedReason l)
    (lsConflicted l) (lsRefsResolved l) (lsRefsReason l) (lsRefsMessage l) supported allowed
    (lsCertData l) (lsClientCAMode l) (lsAttachedRoutes l).

Definition put_cert (key value : string) (l : listenerState) : listenerState :=
  mkListenerState (lsSpec l) (lsInternalPort l) (lsSet l) (lsAccepted l) (lsAcceptedReason l)
    (lsConflicted l) (lsRefsResolved l) (lsRefsReason l) (lsRefsMessage l) (lsSupportedKinds l)
    (lsAllowedKinds l) (<[key := value]> (lsCertData l)) (lsClientCAMode l) (lsAttachedRoutes l).

Definition set_ca_mode (mode : string) (l : listenerState) : listenerState :=
  mkListenerState (lsSpec l) (lsInternalPort l) (lsSet l) (lsAccepted l) (lsAcceptedReason l)
    (lsConflicted l) (lsRefsResolved l) (lsRefsReason l) (lsRefsMessage l) (lsSupportedKinds l)
    (lsAllowedKinds l) (lsCertData l) mode (lsAttachedRoutes l).

Definition set_port (port : Z) (l : listenerState) : listenerState :=
  mkListenerState (lsSpec l) port (lsSet l) (lsAccepted l) (lsAcceptedReason l) (lsConflicted l)
    (lsRefsResolved l) (lsRefsReason l) (lsRefsMessage l) (lsSupportedKinds l) (lsAllowedKinds l)
    (lsCertData l) (lsClientCAMode l) (lsAttachedRoutes l).

(** ** Listener sets *)

Record listenerSetState := mkSetState {
  ssSet : ListenerSet;
  ssAccepted : bool;
  ssAcceptedReason : string;
}.

Definition group_ok (group : option string) : bool :=
  match group with
  | Some g => (g == GroupName) || (g == "")
  | None => true
  end.

Definition parentGatewayMatches (set : ListenerSet) (gw : Gateway) : bool :=
  let ref := lstParentRef set in
  if negb (group_ok (prGroup ref)) then false
  else if match prKind ref with Some kind => kind != "Gateway" | None => false end then false
  else
    let namespace := default (omNamespace (lstMeta set)) (prNamespace ref) in
    (namespace == omNamespace (gwMeta gw)) && (prName ref == omName (gwMeta gw)).

(** Creation time, then name. *)
Definition older (a b : ObjectMeta) : bool :=
  lex (λ a b, omCreation a <? omCreation b)%Z
      (λ a b, sless (nsName (omNamespace a) (omName a)) (nsName (omNamespace b) (omName b))) a b.

Section listeners.
Context {k8s : Kubernetes} {libs : build.Libraries} {srt : GoSort}.

Definition listenerSetAllowed (gw : Gateway) (set : ListenerSet)
    (namespaces : gmap string (gmap string string)) : bool :=
  match gwAllowedListeners gw with
  | Some (Some ns) =>
      match nsFrom ns with
      | Some from =>
          if (from == NamespacesFromAll) then true
          else if (from == NamespacesFromSame)
               then omNamespace (lstMeta set) == omNamespace (gwMeta gw)
          else if (from == NamespacesFromSelector)
               then selector_admits (nsSelector ns) (default ∅ (namespaces !! omNamespace (lstMeta set)))
          else false
      | None => false
      end
  | _ => false
  end.

Definition set_state (w : world) (gw : Gateway) (set : ListenerSet) : listenerSetState :=
  if listenerSetAllowed gw set (wNamespaces w) then mkSetState set true "Accepted"
  else mkSetState set false "NotAllowed".

Definition selectListenerSets (w : world) (gw : Gateway) : list listenerSetState :=
  sortSlice (λ a b, older (lstMeta (ssSet a)) (lstMeta (ssSet b)))
    (set_state w gw <$> filter (λ set, parentGatewayMatches set gw = true) (wListenerSets w)).

(** ** One listener *)

Definition listenerTerminatesTLS (spec : Listener) : bool :=
  (lsProtocol spec == TLSProtocolType) &&
  match lsTLS spec with
  | Some tls => ltMode tls == Some TLSModeTerminate
  | None => false
  end.

Definition protocolRouteKinds (protocol : string) : list string :=
  if (protocol == HTTPProtocolType) || (protocol == HTTPSProtocolType)
  then ["HTTPRoute"; "GRPCRoute"]
  else if (protocol == TCPProtocolType) then ["TCPRoute"]
  else if (protocol == UDPProtocolType) then ["UDPRoute"]
  else if (protocol == TLSProtocolType) then ["TLSRoute"]
  else [].

Definition gateway_kind (kind : string) : RouteGroupKind := mkRouteGroupKind (Some GroupName) kind.

(** One requested kind: the kinds so far, and whether one was invalid. *)
Definition kind_step (compatible : list string)
    (acc : list RouteGroupKind * gset string * bool) (kind : RouteGroupKind) :
    list RouteGroupKind * gset string * bool :=
  let '(supported, allowed, invalid) := acc in
  let groupOK := match gkGroup kind with Some g => g == GroupName | None => true end in
  let kindOK := existsb (λ candidate, gkKind kind == candidate) compatible in
  if negb groupOK || negb kindOK then (supported, allowed, true)
  else if bool_decide (gkKind kind ∈ allowed) then acc
  else (supported ++ [gateway_kind (gkKind kind)], {[ gkKind kind ]} ∪ allowed, invalid).

Definition resolveRouteKinds (state : listenerState) : listenerState :=
  let state := set_kinds [] ∅ state in
  if negb (lsAccepted state) then state
  else
    let compatible := protocolRouteKinds (lsProtocol (lsSpec state)) in
    let requested := match lsAllowedRoutes (lsSpec state) with Some a => arKinds a | None => [] end in
    if (length requested =? 0) then
      set_kinds (gateway_kind <$> compatible) (list_to_set compatible) state
    else
      let '(supported, allowed, invalid) := fold_left (kind_step compatible) requested ([], ∅, false) in
      let state := set_kinds supported allowed state in
      if invalid && lsRefsResolved state
      then unresolved "InvalidRouteKinds"
             "allowedRoutes.kinds contains kinds this listener cannot serve" state
      else state.

Definition frontendValidationFor (gw : Gateway) (port : Z) : option FrontendTLSValidation :=
  frontend ← gwTLS gw ≫= gtFrontend;
  match list_find (λ entry, tpPort entry = port ∧ is_Some (tpValidation entry)) (ftPerPort frontend) with
  | Some (_, entry) => tpValidation entry
  | None => ftDefault frontend
  end.

(** One CA reference: the bundle so far, or the reason of the rejection. *)
Definition ca_ref_step (w : world) (gw : Gateway) (pemBundle : string) (ref : ObjectReference) :
    result string string :=
  let gwNamespace := omNamespace (gwMeta gw) in
  if (orfKind ref != "ConfigMap") || (orfGroup ref != "") then Err "InvalidCACertificateKind"
  else
    let namespace := default gwNamespace (orfNamespace ref) in
    if (namespace != gwNamespace) &&
       negb (referenceGrantAllows (wGrants w) GroupName "Gateway" gwNamespace
               "ConfigMap" namespace (orfName ref))
    then Err "RefNotPermitted"
    else match getConfigMap namespace (orfName ref) with
         | Err _ => Err "InvalidCACertificateRef"
         | Ok cm => Ok (pemBundle +:+ build.at_key (corev1.cmData cm) "ca.crt" +:+ String "010" "")
         end.

(** [invalidate] keeps the message of the condition. *)
Definition reject_ca (refsReason : string) (state : listenerState) : listenerState :=
  set_accepted false "NoValidCACertificate" (unresolved refsReason (lsRefsMessage state) state).

Definition resolveFrontendValidation (w : world) (gw : Gateway) (state : listenerState) : listenerState :=
  match frontendValidationFor gw (lsPort (lsSpec state)) with
  | None => state
  | Some validation =>
      match foldM (ca_ref_step w gw) "" (fvCACertificateRefs validation) with
      | Err refsReason => reject_ca refsReason state
      | Ok pemBundle =>
          if negb (validCAPem pemBundle) then reject_ca "InvalidCACertificateRef" state
          else
            let mode := if (fvMode validation != "") then fvMode validation else "AllowValidOnly" in
            put_cert (effectiveName state +:+ ".client-ca.crt") pemBundle (set_ca_mode mode state)
      end
  end.

(** The namespace and kind references of a listener are resolved for. *)
Definition owner (gw : Gateway) (state : listenerState) : string * string :=
  match lsSet state with
  | Some set => (omNamespace (lstMeta set), "ListenerSet")
  | None => (omNamespace (gwMeta gw), "Gateway")
  end.

Definition secret_text (namespace name : string) : string :=
  "Secret " +:+ namespace +:+ "/" +:+ name.

Definition kind_is (kind : string) (k : option string) : bool :=
  match k with Some k => k == kind | None => true end.

(** One certificate reference; [Err] is the early return. *)
Definition cert_ref_step (w : world) (gw : Gateway) (state : listenerState)
    (ref : SecretObjectReference) : result listenerState listenerState :=
  let '(ownerNamespace, ownerKind) := owner gw state in
  if negb (kind_is "Secret" (srKind ref)) || negb (kind_is "" (srGroup ref))
  then Err (unresolved "InvalidCertificateRef" "certificateRefs must reference core Secrets" state)
  else
    let namespace := default ownerNamespace (srNamespace ref) in
    if (namespace != ownerNamespace) &&
       negb (referenceGrantAllows (wGrants w) GroupName ownerKind ownerNamespace
               "Secret" namespace (srName ref))
    then Err (unresolved "RefNotPermitted"
                ("reference to " +:+ secret_text namespace (srName ref) +:+
                 " not permitted by any ReferenceGrant") state)
    else match getSecret namespace (srName ref) with
         | Err _ => Err (unresolved "InvalidCertificateRef"
                           (secret_text namespace (srName ref) +:+ " not found") state)
         | Ok secret =>
             let cert := build.at_key (corev1.scData secret) corev1.TLSCertKey in
             let key := build.at_key (corev1.scData secret) corev1.TLSPrivateKeyKey in
             if (len cert =? 0) || (len key =? 0)
             then Err (unresolved "InvalidCertificateRef"
                         (secret_text namespace (srName ref) +:+ " has no TLS material") state)
             else match build.x509KeyPair cert key with
                  | Err err => Err (unresolved "InvalidCertificateRef"
                      (secret_text namespace (srName ref) +:+ " has malformed TLS material: " +:+ err)
                      state)
                  | Ok _ =>
                      Ok (put_cert (effectiveName state +:+ ".tls.key") key
                           (put_cert (effectiveName state +:+ ".tls.crt") cert state))
                  end
         end.

Definition resolveCertificates (w : world) (gw : Gateway) (state : listenerState) : listenerState :=
  match lsTLS (lsSpec state) with
  | Some tls =>
      if (length (ltCertificateRefs tls) =? 0)
      then unresolved "InvalidCertificateRef" "HTTPS listener requires a certificateRef" state
      else match foldM (cert_ref_step w gw) state (ltCertificateRefs tls) with
           | Ok state | Err state => state
           end
  | None => unresolved "InvalidCertificateRef" "HTTPS listener requires a certificateRef" state
  end.

(** The protocol switch of [validateListener]. *)
Definition check_protocol (spec : Listener) (state : listenerState) : listenerState :=
  let p := lsProtocol spec in
  if (p == HTTPProtocolType) || (p == HTTPSProtocolType) || (p == TCPProtocolType) ||
     (p == UDPProtocolType) then state
  else if (p == TLSProtocolType) then
    match lsTLS spec ≫= ltMode with
    | Some mode =>
        if (mode == TLSModePassthrough) || (mode == TLSModeTerminate) then state
        else set_accepted false "UnsupportedValue" state
    | None => set_accepted false "UnsupportedValue" state
    end
  else set_accepted false "UnsupportedProtocol" state.

Definition new_listener (spec : Listener) (set : option ListenerSet) : listenerState :=
  mkListenerState spec 0 set true "Accepted" false true "ResolvedRefs" "" [] ∅ ∅ "" 0.

Definition validateListener (w : world) (gw : Gateway) (spec : Listener) (set : option ListenerSet)
    (allocator : ports.portAllocator) : listenerState * ports.portAllocator :=
  let state := resolveRouteKinds (check_protocol spec (new_listener spec set)) in
  let state :=
    if lsRefsResolved state && ((lsProtocol spec == HTTPSProtocolType) || listenerTerminatesTLS spec)
    then resolveCertificates w gw state else state in
  let state :=
    if (lsProtocol spec == HTTPSProtocolType) && lsRefsResolved state
    then resolveFrontendValidation w gw state else state in
  let '(port, allocator) := ports.Allocate allocator (omUID (gwMeta gw)) (lsPort spec) (lsProtocol spec) in
  match port with
  | Ok port => (set_port port state, allocator)
  | Err _ => (set_port 0 (set_accepted false "PortUnavailable" state), allocator)
  end.

(** ** Conflicts *)

Definition spec_hostname (spec : Listener) : string := default "" (lsHostname spec).

Definition conflict_reason (protocol hostname : string) (existing : list (string * string)) : string :=
  match list_find (λ e, e.1 ≠ protocol ∨ e.2 = hostname) existing with
  | Some (_, (p, _)) => if (p != protocol) then "ProtocolConflict" else "HostnameConflict"
  | None => ""
  end.

Definition conflict_step (acc : list listenerState * gmap Z (list (string * string)))
    (lst : listenerState) : list listenerState * gmap Z (list (string * string)) :=
  let '(done, byPort) := acc in
  let spec := lsSpec lst in
  if negb (lsAccepted lst) then (done ++ [lst], byPort)
  else
    let existing := default [] (byPort !! lsPort spec) in
    let reason := conflict_reason (lsProtocol spec) (spec_hostname spec) existing in
    if (reason != "")
    then (done ++ [resolveRouteKinds (set_conflicted (set_accepted false reason lst))], byPort)
    else (done ++ [lst],
          <[lsPort spec := existing ++ [(lsProtocol spec, spec_hostname spec)]]> byPort).

Definition rejectConflictingListeners (listeners : list listenerState) : list listenerState :=
  (fold_left conflict_step listeners ([], ∅)).1.

(** ** All listeners of a Gateway *)

(** The entries to validate, with their owners, in precedence order. *)
Definition effective_specs (gw : Gateway) (sets : list listenerSetState) :
    list (Listener * option ListenerSet) :=
  ((λ spec, (spec, None)) <$> gwListeners gw) ++
  (sets ≫= λ set, if negb (ssAccepted set) then []
                  else (λ spec, (spec, Some (ssSet set))) <$> lstListeners (ssSet set)).

Definition validate_step (w : world) (gw : Gateway)
    (acc : list listenerState * ports.portAllocator) (e : Listener * option ListenerSet) :
    list listenerState * ports.portAllocator :=
  let '(state, allocator) := validateListener w gw e.1 e.2 acc.2 in
  (acc.1 ++ [state], allocator).

Definition validateListeners (w : world) (gw : Gateway) (sets : list listenerSetState)
    (allocator : ports.portAllocator) : list listenerState * ports.portAllocator :=
  let '(listeners, allocator) :=
    fold_left (validate_step w gw) (effective_specs gw sets) ([], allocator) in
  (rejectConflictingListeners listeners, allocator).

(** ** Conflict lemmas *)

(** Two listeners that can be served together. *)
Definition compatible (a b : Listener) : Prop :=
  lsPort a = lsPort b → lsProtocol a = lsProtocol b ∧ spec_hostname a ≠ spec_hostname b.

(** Why [winner] excludes [loser], as reported on it. *)
Definition excludes (winner : Listener) (loser : listenerState) : Prop :=
  lsPort winner = lsPort (lsSpec loser) ∧
  if (lsProtocol winner == lsProtocol (lsSpec loser))
  then spec_hostname winner = spec_hostname (lsSpec loser) ∧ lsAcceptedReason loser = "HostnameConflict"
  else lsAcceptedReason loser = "ProtocolConflict".

Lemma resolveRouteKinds_rejected l :
  lsAccepted l = false → resolveRouteKinds l = set_kinds [] ∅ l.
Proof. intros H. unfold resolveRouteKinds. cbn. by rewrite H. Qed.

(** What the merge may do to a listener. *)
Definition merged (before after : listenerState) : Prop :=
  after = before ∨
  lsAccepted before = true ∧
  ∃ reason, after = set_kinds [] ∅ (set_conflicted (set_accepted false reason before)).

Lemma merged_valid before after : merged before after → valid after = true → after = before.
Proof. intros [->|(_ & r & ->)]; done. Qed.

(** The keys recorded for a port are those of its accepted listeners. *)
Definition port_keys (done : list listenerState) (port : Z) : list (string * string) :=
  (λ l, (lsProtocol (lsSpec l), spec_hostname (lsSpec l))) <$>
    filter (λ l, lsAccepted l = true ∧ lsPort (lsSpec l) = port) done.

Lemma elem_of_port_keys done port e :
  e ∈ port_keys done port ↔ ∃ i l, done !! i = Some l ∧ lsAccepted l = true ∧
    lsPort (lsSpec l) = port ∧ e = (lsProtocol (lsSpec l), spec_hostname (lsSpec l)).
Proof.
  unfold port_keys. rewrite list_elem_of_fmap. setoid_rewrite list_elem_of_filter. split.
  - intros (l & -> & [??] & [i Hi]%list_elem_of_lookup). by exists i, l.
  - intros (i & l & Hi & ? & ? & ->). exists l. do 2 (split; [done|]).
    by eapply list_elem_of_lookup_2.
Qed.

Lemma conflict_reason_nil protocol hostname existing :
  conflict_reason protocol hostname existing = "" ↔
  ∀ e, e ∈ existing → e.1 = protocol ∧ e.2 ≠ hostname.
Proof.
  unfold conflict_reason. destruct (list_find _ _) as [[i [p h]]|] eqn:Hf.
  - apply list_find_Some in Hf as (Hi & He & _). simpl in He.
    split; [by case_bool_decide|]. intros H.
    destruct (H (p, h)); [by eapply list_elem_of_lookup_2|]. naive_solver.
  - split; [|done]. intros _ e He. apply list_find_None in Hf.
    rewrite Forall_forall in Hf. specialize (Hf e (proj1 (list_elem_of_In _ _) He)).
    destruct (decide (e.1 = protocol)); naive_solver.
Qed.

Lemma conflict_reason_some protocol hostname existing :
  conflict_reason protocol hostname existing ≠ "" →
  ∃ e, e ∈ existing ∧
    if (e.1 == protocol)
    then e.2 = hostname ∧ conflict_reason protocol hostname existing = "HostnameConflict"
    else conflict_reason protocol hostname existing = "ProtocolConflict".
Proof.
  unfold conflict_reason. destruct (list_find _ _) as [[i [p h]]|] eqn:Hf; [|done].
  intros _. apply list_find_Some in Hf as (Hi & He & _). simpl in He.
  exists (p, h). split; [by eapply list_elem_of_lookup_2|]. simpl.
  case_bool_decide; simpl; naive_solver.
Qed.

(** The verdict on the listener at position [j]. *)
Definition verdict (result : list listenerState) (before : listenerState) (j : nat)
    (after : listenerState) : Prop :=
  merged before after ∧
  if lsAccepted after
  then ∀ i l, i < j → result !! i = Some l → lsAccepted l = true → compatible (lsSpec l) (lsSpec after)
  else lsAccepted before = true →
       lsConflicted after = true ∧ lsAllowedKinds after = ∅ ∧ lsSupportedKinds after = [] ∧
       ∃ i l, i < j ∧ result !! i = Some l ∧ lsAccepted l = true ∧ excludes (lsSpec l) after.

Lemma verdict_app result before j after x :
  j ≤ length result → verdict result before j after → verdict (result ++ [x]) before j after.
Proof.
  intros Hj [H1 H2]. split; [done|]. destruct (lsAccepted after).
  - intros i l Hi. rewrite lookup_app_l by lia. eauto.
  - intros Hb. destruct (H2 Hb) as (? & ? & ? & i & l & Hi & Hl & ?).
    do 3 (split; [done|]). exists i, l. rewrite lookup_app_l by lia. done.
Qed.

Lemma port_keys_app done l port :
  port_keys (done ++ [l]) port = port_keys done port ++
    if decide (lsAccepted l = true ∧ lsPort (lsSpec l) = port)
    then [(lsProtocol (lsSpec l), spec_hostname (lsSpec l))] else [].
Proof.
  unfold port_keys. rewrite list.filter_app, fmap_app. f_equal. rewrite filter_cons.
  by destruct (decide _).
Qed.

(** One listener more. *)
Lemma conflict_step_spec done byPort lst done' byPort' :
  (∀ port, default [] (byPort !! port) = port_keys done port) →
  conflict_step (done, byPort) lst = (done', byPort') →
  (∀ port, default [] (byPort' !! port) = port_keys done' port) ∧
  ∃ after, done' = done ++ [after] ∧ verdict done lst (length done) after.
Proof.
  intros Hk. unfold conflict_step. rewrite Hk.
  destruct (lsAccepted lst) eqn:Ha; cbn [negb].
  2: { intros [= <- <-]. split.
       - intros port. rewrite port_keys_app, decide_False, app_nil_r by (intros [? _]; congruence). done.
       - exists lst. split; [done|]. split; [by left|]. rewrite Ha. congruence. }
  case_bool_decide as Hr; cbn [negb]; intros [= <- <-].
  - split.
    + intros port. rewrite port_keys_app. rewrite lookup_insert.
      destruct (decide (lsPort (lsSpec lst) = port)) as [<-|Hp].
      * rewrite decide_True by done. done.
      * rewrite decide_False, app_nil_r by (intros [_ ?]; congruence). apply Hk.
    + exists lst. split; [done|]. split; [by left|]. rewrite Ha. intros i l _ Hl Hacc Hport.
      destruct (proj1 (conflict_reason_nil _ _ _) Hr
        (lsProtocol (lsSpec l), spec_hostname (lsSpec l))) as [??]; [|done].
      apply elem_of_port_keys. by exists i, l.
  - rewrite resolveRouteKinds_rejected by done. split.
    + intros port. rewrite port_keys_app, decide_False, app_nil_r by (simpl; intros [? _]; congruence). done.
    + eexists. split; [done|]. split; [right; split; [done|]; by eexists|]. simpl. intros _.
      do 3 (split; [done|]). apply conflict_reason_some in Hr as (e & He & Hw).
      apply elem_of_port_keys in He as (i & l & Hi & Hacc & Hport & ->). exists i, l.
      split; [by eapply lookup_lt_Some|]. do 2 (split; [done|]). by split.
Qed.

Lemma conflicts_spec ls :
  let '(done, byPort) := fold_left conflict_step ls ([], ∅) in
  (∀ port, default [] (byPort !! port) = port_keys done port) ∧ length done = length ls ∧
  ∀ j before after, ls !! j = Some before → done !! j = Some after → verdict done before j after.
Proof.
  induction ls as [|x ls IH] using rev_ind; [done|].
  rewrite fold_left_app. destruct (fold_left conflict_step ls _) as [done byPort].
  destruct IH as (Hk & Hlen & Hv). cbn [fold_left].
  destruct (conflict_step (done, byPort) x) as [done' byPort'] eqn:Hstep.
  destruct (conflict_step_spec _ _ _ _ _ Hk Hstep) as (Hk' & after & -> & Hx).
  split; [done|]. split; [rewrite !length_app; simpl; lia|].
  intros j before a. destruct (decide (j < length ls)) as [Hj|Hj].
  - rewrite !lookup_app_l by lia. intros. apply verdict_app; [lia|]. eauto.
  - rewrite !lookup_app_r by lia. rewrite Hlen.
    destruct (j - length ls) as [|k] eqn:Hk2; [|done]. simpl. intros [= <-] [= <-].
    apply verdict_app; [lia|]. by replace j with (length done) by lia.
Qed.

Lemma rejectConflicting_lookup ls j after :
  rejectConflictingListeners ls !! j = Some after →
  ∃ before, ls !! j = Some before ∧ verdict (rejectConflictingListeners ls) before j after.
Proof.
  pose proof (conflicts_spec ls) as H. unfold rejectConflictingListeners.
  destruct (fold_left conflict_step ls _) as [done byPort]. destruct H as (_ & Hlen & Hv). simpl.
  intros Ha. destruct (lookup_lt_is_Some_2 ls j) as [before Hb].
  { rewrite <-Hlen. by eapply lookup_lt_Some. }
  exists before. split; [done|]. eauto.
Qed.

(** ** Validation lemmas *)

#[local] Arguments validCAPem : simpl never.
#[local] Arguments effectiveName : simpl never.

Definition has_tls (spec : Listener) : bool :=
  (lsProtocol spec == HTTPSProtocolType) || listenerTerminatesTLS spec.

(** A reference from [kind] in [from] to an object is local or granted. *)
Definition reachable (w : world) (kind from toKind namespace name : string) : Prop :=
  namespace = from ∨
  ∃ grant, grant ∈ wGrants w ∧ permits grant GroupName kind from toKind namespace name.

Lemma reachable_guard w kind from toKind namespace name :
  (namespace != from) &&
    negb (referenceGrantAllows (wGrants w) GroupName kind from toKind namespace name) = false →
  reachable w kind from toKind namespace name.
Proof.
  intros [H|H]%andb_false_iff; apply negb_false_iff in H.
  - left. by apply bool_decide_eq_true in H.
  - right. by apply referenceGrantAllows_permits.
Qed.

(** The reference resolves to a usable key pair the owner may read. *)
Definition cert_resolves (w : world) (gw : Gateway) (l : listenerState)
    (ref : SecretObjectReference) (cert key : string) : Prop :=
  let '(from, kind) := owner gw l in
  let namespace := default from (srNamespace ref) in
  reachable w kind from "Secret" namespace (srName ref) ∧
  ∃ secret, getSecret namespace (srName ref) = Ok secret ∧
    cert = build.at_key (corev1.scData secret) "tls.crt" ∧
    key = build.at_key (corev1.scData secret) "tls.key" ∧
    ∃ u, build.x509KeyPair cert key = Ok u.

Lemma cert_ref_step_Ok w gw st ref st' :
  cert_ref_step w gw st ref = Ok st' →
  ∃ cert key, cert_resolves w gw st ref cert key ∧
    st' = put_cert (effectiveName st +:+ ".tls.key") key
            (put_cert (effectiveName st +:+ ".tls.crt") cert st).
Proof.
  unfold cert_ref_step, cert_resolves. destruct (owner gw st) as [from kind].
  destruct (_ || _); [done|].
  destruct (_ && _) eqn:Hg; [done|]. apply reachable_guard in Hg.
  destruct (getSecret _ _) as [secret|] eqn:Hs; [|done]. destruct (_ || _); [done|].
  destruct (build.x509KeyPair _ _) as [u|] eqn:Hx; [|done].
  intros <-%(inj Ok). eexists _, _. split; [|done]. split; [done|]. eexists. eauto 10.
Qed.

(** Only the certificate data differs. *)
Definition same_listener (a b : listenerState) : Prop :=
  ∃ data, b = mkListenerState (lsSpec a) (lsInternalPort a) (lsSet a) (lsAccepted a)
    (lsAcceptedReason a) (lsConflicted a) (lsRefsResolved a) (lsRefsReason a) (lsRefsMessage a)
    (lsSupportedKinds a) (lsAllowedKinds a) data (lsClientCAMode a) (lsAttachedRoutes a).

Lemma cert_loop w gw st refs st' :
  foldM (cert_ref_step w gw) st refs = Ok st' →
  same_listener st st' ∧
  (∀ ref, ref ∈ refs → ∃ cert key, cert_resolves w gw st ref cert key) ∧
  ∀ ref, list.last refs = Some ref → ∃ cert key, cert_resolves w gw st ref cert key ∧
    lsCertData st' !! (effectiveName st +:+ ".tls.crt") = Some cert ∧
    lsCertData st' !! (effectiveName st +:+ ".tls.key") = Some key.
Proof.
  revert st'. induction refs as [|ref refs IH] using rev_ind; intros st'.
  { intros <-%(inj Ok). split; [by destruct st; eexists|]. split; [by intros ? ?%elem_of_nil|done]. }
  rewrite foldM_snoc. intros (s1 & H1 & H2). destruct (IH _ H1) as ((data & ->) & Hall & _).
  apply cert_ref_step_Ok in H2 as (cert & key & Hres & ->).
  split; [by eexists|]. split.
  - intros r [Hr|Hr%list_elem_of_singleton]%elem_of_app; [eauto|]. subst r. by exists cert, key.
  - intros r. rewrite last_snoc. intros [= <-]. exists cert, key. split; [done|].
    unfold effectiveName. simpl. split; [|by rewrite lookup_insert_eq].
    rewrite lookup_insert_ne, lookup_insert_eq; [done|].
    intros He. apply sapp_inj in He. done.
Qed.

(** The keys a listener's key pair is published under. *)
Definition pair_key (l : listenerState) (k : string) : Prop :=
  k = effectiveName l +:+ ".tls.crt" ∨ k = effectiveName l +:+ ".tls.key".

Lemma cert_loop_keys w gw st refs st' k :
  foldM (cert_ref_step w gw) st refs = Ok st' → is_Some (lsCertData st' !! k) →
  is_Some (lsCertData st !! k) ∨ pair_key st k.
Proof.
  revert st'. induction refs as [|ref refs IH] using rev_ind; intros st'.
  { intros <-%(inj Ok). auto. }
  rewrite foldM_snoc. intros (s1 & H1 & H2).
  pose proof (proj1 (cert_loop _ _ _ _ _ H1)) as [data Hs1]. specialize (IH _ H1).
  apply cert_ref_step_Ok in H2 as (cert & key & _ & ->). subst s1. cbn in IH |- *.
  intros [v Hv]. apply lookup_insert_Some in Hv as [[<- _]|[_ Hv]]; [by right; right|].
  apply lookup_insert_Some in Hv as [[<- _]|[_ Hv]]; [by right; left|]. eauto.
Qed.

(** A valid listener: its protocol is served, its kinds are those of the
    protocol, its certificates resolve and the last one is published, and
    it asks for client certificates whenever its port is configured to. *)
Record listener_sound (w : world) (gw : Gateway) (l : listenerState) : Prop := {
  so_kinds : ∀ k, k ∈ lsAllowedKinds l → k ∈ protocolRouteKinds (lsProtocol (lsSpec l));
  so_served : protocolRouteKinds (lsProtocol (lsSpec l)) ≠ [];
  so_certs : has_tls (lsSpec l) = true → ∃ tls, lsTLS (lsSpec l) = Some tls ∧
    (∀ ref, ref ∈ ltCertificateRefs tls → ∃ cert key, cert_resolves w gw l ref cert key) ∧
    ∃ ref cert key, list.last (ltCertificateRefs tls) = Some ref ∧
      cert_resolves w gw l ref cert key ∧
      lsCertData l !! (effectiveName l +:+ ".tls.crt") = Some cert ∧
      lsCertData l !! (effectiveName l +:+ ".tls.key") = Some key;
  so_client_ca : lsProtocol (lsSpec l) = "HTTPS" →
    match frontendValidationFor gw (lsPort (lsSpec l)) with
    | Some v => lsClientCAMode l ≠ "" ∧ (fvMode v ≠ "" → lsClientCAMode l = fvMode v) ∧
        ∃ pem, lsCertData l !! (effectiveName l +:+ ".client-ca.crt") = Some pem ∧
               validCAPem pem = true
    | None => lsClientCAMode l = ""
    end;
  so_mode : lsClientCAMode l ≠ "" → lsProtocol (lsSpec l) = "HTTPS";
  so_data : ∀ k v, lsCertData l !! k = Some v →
    has_tls (lsSpec l) = true ∧ pair_key l k ∨
    k = effectiveName l +:+ ".client-ca.crt" ∧ validCAPem v = true;
}.

Lemma kind_steps compatible kinds s a i :
  (∀ k, k ∈ a → k ∈ compatible) →
  ∀ k, k ∈ (fold_left (kind_step compatible) kinds (s, a, i)).1.2 → k ∈ compatible.
Proof.
  revert s a i. induction kinds as [|kind kinds IH]; intros s a i Ha; [done|]. cbn [fold_left].
  destruct (kind_step compatible (s, a, i) kind) as [[s' a'] i'] eqn:Hs. apply IH.
  revert Hs. unfold kind_step. destruct (_ || _) eqn:Hok; [by intros [= <- <- <-]|].
  case_bool_decide; intros [= <- <- <-]; [done|].
  apply orb_false_iff in Hok as [_ Hok%negb_false_iff].
  apply existsb_elem in Hok as (c & Hc & ->%bool_decide_eq_true). set_solver.
Qed.

Lemma resolveRouteKinds_spec l :
  lsSpec (resolveRouteKinds l) = lsSpec l ∧ lsSet (resolveRouteKinds l) = lsSet l ∧
  lsAccepted (resolveRouteKinds l) = lsAccepted l ∧
  lsCertData (resolveRouteKinds l) = lsCertData l ∧
  lsClientCAMode (resolveRouteKinds l) = lsClientCAMode l ∧
  ∀ k, k ∈ lsAllowedKinds (resolveRouteKinds l) → k ∈ protocolRouteKinds (lsProtocol (lsSpec l)).
Proof.
  unfold resolveRouteKinds. cbn. destruct (lsAccepted l) eqn:Ha; cbn.
  2: { by split_and!. }
  destruct (_ =? 0); cbn; [split_and!; try done; intros k; by rewrite elem_of_list_to_set|].
  destruct (fold_left _ _ _) as [[s a] i] eqn:Hf.
  assert (Hk : ∀ k, k ∈ a → k ∈ protocolRouteKinds (lsProtocol (lsSpec l))).
  { intros k Hk. eapply (kind_steps _ _ [] ∅ false); [set_solver|]. by rewrite Hf. }
  destruct (_ && _); cbn; by split_and!.
Qed.

Lemma foldM_Err {E S A} (f : S → A → result E S) l s e :
  foldM f s l = Err e → ∃ s1 a, a ∈ l ∧ f s1 a = Err e.
Proof.
  revert s; induction l as [|a l IH]; intros s; simpl; [done|].
  unfold mbind, result_bind. destruct (f s a) as [s1|e1] eqn:Hf.
  - intros (s2 & b & ? & ?)%IH. exists s2, b. split; [by right|done].
  - intros [= ->]. exists s, a. split; [left|done].
Qed.

Lemma cert_ref_step_Err w gw st ref st' :
  cert_ref_step w gw st ref = Err st' → lsRefsResolved st' = false.
Proof.
  unfold cert_ref_step. destruct (owner gw st) as [from kind].
  repeat (case_match; try done); by intros [= <-].
Qed.

Lemma resolveCertificates_resolved w gw st :
  lsRefsResolved (resolveCertificates w gw st) = true →
  same_listener st (resolveCertificates w gw st) ∧
  ∃ tls, lsTLS (lsSpec st) = Some tls ∧
    (∀ ref, ref ∈ ltCertificateRefs tls → ∃ cert key, cert_resolves w gw st ref cert key) ∧
    ∃ ref cert key, list.last (ltCertificateRefs tls) = Some ref ∧ cert_resolves w gw st ref cert key ∧
      lsCertData (resolveCertificates w gw st) !! (effectiveName st +:+ ".tls.crt") = Some cert ∧
      lsCertData (resolveCertificates w gw st) !! (effectiveName st +:+ ".tls.key") = Some key.
Proof.
  unfold resolveCertificates. destruct (lsTLS (lsSpec st)) as [tls|]; [|done].
  destruct (Nat.eqb_spec (length (ltCertificateRefs tls)) 0) as [|Hne]; [done|].
  destruct (foldM _ _ _) as [st'|st'] eqn:Hf.
  - intros _. apply cert_loop in Hf as (Hs & Hall & Hlast). split; [done|].
    exists tls. split; [done|]. split; [done|].
    destruct (list.last (ltCertificateRefs tls)) as [ref|] eqn:Hl.
    + destruct (Hlast ref eq_refl) as (cert & key & ?). by exists ref, cert, key.
    + apply last_None in Hl. by rewrite Hl in Hne.
  - apply foldM_Err in Hf as (s1 & ref & _ & Hr). by rewrite (cert_ref_step_Err _ _ _ _ _ Hr).
Qed.

Lemma resolveCertificates_keys w gw st k :
  lsRefsResolved (resolveCertificates w gw st) = true →
  is_Some (lsCertData (resolveCertificates w gw st) !! k) → is_Some (lsCertData st !! k) ∨ pair_key st k.
Proof.
  unfold resolveCertificates. destruct (lsTLS (lsSpec st)) as [tls|]; [|done].
  destruct (_ =? 0); [done|]. destruct (foldM _ _ _) as [st'|st'] eqn:Hf.
  - intros _. by eapply cert_loop_keys.
  - apply foldM_Err in Hf as (s1 & ref & _ & Hr). by rewrite (cert_ref_step_Err _ _ _ _ _ Hr).
Qed.

Definition validated_ca (gw : Gateway) (st st' : listenerState) : Prop :=
  match frontendValidationFor gw (lsPort (lsSpec st)) with
  | None => st' = st
  | Some v => lsClientCAMode st' ≠ "" ∧ (fvMode v ≠ "" → lsClientCAMode st' = fvMode v) ∧
      ∃ pem, validCAPem pem = true ∧
        st' = put_cert (effectiveName st +:+ ".client-ca.crt") pem (set_ca_mode (lsClientCAMode st') st)
  end.

Lemma resolveFrontendValidation_resolved w gw st :
  lsRefsResolved (resolveFrontendValidation w gw st) = true →
  validated_ca gw st (resolveFrontendValidation w gw st).
Proof.
  unfold resolveFrontendValidation, validated_ca.
  destruct (frontendValidationFor _ _) as [v|]; [|done].
  destruct (foldM _ _ _) as [pem|]; [|done].
  destruct (validCAPem pem) eqn:Hp; [|done]. simpl. intros _.
  split; [by case_bool_decide|]. split; [intros; by rewrite bool_decide_false|].
  by exists pem.
Qed.

Lemma check_protocol_accepted spec l :
  lsAccepted (check_protocol spec l) = true →
  check_protocol spec l = l ∧ protocolRouteKinds (lsProtocol spec) ≠ [].
Proof.
  unfold check_protocol, protocolRouteKinds.
  repeat (case_bool_decide; simpl; try done); destruct (lsTLS spec ≫= ltMode) as [m|]; try done.
  by destruct (_ || _).
Qed.

(** The certificate facts of [listener_sound], relative to a state. *)
Definition certified (w : world) (gw : Gateway) (st : listenerState) (data : gmap string string) : Prop :=
  ∃ tls, lsTLS (lsSpec st) = Some tls ∧
    (∀ ref, ref ∈ ltCertificateRefs tls → ∃ cert key, cert_resolves w gw st ref cert key) ∧
    ∃ ref cert key, list.last (ltCertificateRefs tls) = Some ref ∧ cert_resolves w gw st ref cert key ∧
      data !! (effectiveName st +:+ ".tls.crt") = Some cert ∧
      data !! (effectiveName st +:+ ".tls.key") = Some key.

Definition certs_stage (w : world) (gw : Gateway) (spec : Listener) (st : listenerState) : listenerState :=
  if lsRefsResolved st && has_tls spec then resolveCertificates w gw st else st.

Definition ca_stage (w : world) (gw : Gateway) (spec : Listener) (st : listenerState) : listenerState :=
  if (lsProtocol spec == HTTPSProtocolType) && lsRefsResolved st
  then resolveFrontendValidation w gw st else st.

Lemma certs_stage_resolved w gw spec st :
  lsRefsResolved (certs_stage w gw spec st) = true →
  same_listener st (certs_stage w gw spec st) ∧
  (has_tls spec = true → certified w gw st (lsCertData (certs_stage w gw spec st))) ∧
  ∀ k, is_Some (lsCertData (certs_stage w gw spec st) !! k) →
       is_Some (lsCertData st !! k) ∨ has_tls spec = true ∧ pair_key st k.
Proof.
  unfold certs_stage. destruct (lsRefsResolved st) eqn:Hr; simpl; [|congruence].
  destruct (has_tls spec); [|intros _; split_and!; [by destruct st; eexists|done|auto]].
  intros H. destruct (resolveCertificates_resolved _ _ _ H). split_and!; [done|done|].
  intros k [?|?]%resolveCertificates_keys; auto.
Qed.

Lemma ca_stage_resolved w gw spec st :
  lsRefsResolved (ca_stage w gw spec st) = true →
  lsRefsResolved st = true ∧
  if (lsProtocol spec == HTTPSProtocolType) then validated_ca gw st (ca_stage w gw spec st)
  else ca_stage w gw spec st = st.
Proof.
  unfold ca_stage. case_bool_decide; simpl; [|done].
  destruct (lsRefsResolved st) eqn:Hr; [|congruence].
  intros ?%resolveFrontendValidation_resolved. done.
Qed.

Lemma suffix_ne x s t : s ≠ t → x +:+ s ≠ x +:+ t.
Proof. by intros ? ?%sapp_inj. Qed.

(** The stages keep everything but certificate data and the CA mode. *)
Lemma stages_sound w gw spec st1 :
  lsSpec st1 = spec → lsClientCAMode st1 = "" → lsCertData st1 = ∅ →
  lsRefsResolved (ca_stage w gw spec (certs_stage w gw spec st1)) = true →
  ∃ data mode, ca_stage w gw spec (certs_stage w gw spec st1) =
    mkListenerState (lsSpec st1) (lsInternalPort st1) (lsSet st1) (lsAccepted st1)
      (lsAcceptedReason st1) (lsConflicted st1) (lsRefsResolved st1) (lsRefsReason st1)
      (lsRefsMessage st1) (lsSupportedKinds st1) (lsAllowedKinds st1) data mode (lsAttachedRoutes st1) ∧
  (has_tls spec = true → certified w gw st1 data) ∧
  (lsProtocol spec = "HTTPS" →
   match frontendValidationFor gw (lsPort spec) with
   | Some v => mode ≠ "" ∧ (fvMode v ≠ "" → mode = fvMode v) ∧
       ∃ pem, data !! (effectiveName st1 +:+ ".client-ca.crt") = Some pem ∧ validCAPem pem = true
   | None => mode = ""
   end) ∧
  (mode ≠ "" → lsProtocol spec = "HTTPS") ∧
  (∀ k v, data !! k = Some v → has_tls spec = true ∧ pair_key st1 k ∨
     k = effectiveName st1 +:+ ".client-ca.crt" ∧ validCAPem v = true).
Proof.
  intros <- Hmode Hempty [Hr Hca]%ca_stage_resolved.
  destruct (certs_stage_resolved _ _ _ _ Hr) as ((data & Hd) & Hcert & Hkeys).
  revert Hca Hcert Hkeys. rewrite !Hd. clear Hd Hr. cbn. rewrite Hempty. intros Hca Hcert Hkeys.
  assert (Hk : ∀ k v, data !! k = Some v → has_tls (lsSpec st1) = true ∧ pair_key st1 k).
  { intros k v Hv. destruct (Hkeys k) as [[? He]|?]; [by eexists|by rewrite lookup_empty in He|done]. }
  case_bool_decide as Hp; [|rewrite Hca; exists data, (lsClientCAMode st1); split_and!; try done; eauto].
  revert Hca. unfold validated_ca. cbn.
  destruct (frontendValidationFor gw (lsPort (lsSpec st1))) as [v|].
  2: { intros ->. rewrite Hmode. eexists _, "". split_and!; try done; eauto. }
  intros (H1 & H2 & pem & Hpem & Heq). rewrite Heq. clear Heq. unfold put_cert, set_ca_mode. cbn.
  eexists _, _. split; [done|].
  match goal with |- context [effectiveName ?l] => change (effectiveName l) with (effectiveName st1) end.
  split.
  - intros Ht. destruct (Hcert Ht) as (tls & ? & ? & ref & cert & key & ? & ? & ? & ?).
    exists tls. split; [done|]. split; [done|]. exists ref, cert, key. split_and!; try done;
      (rewrite lookup_insert_ne; [done|by apply suffix_ne]).
  - split_and!; [intros _; split_and!; [done|done|]; exists pem; by rewrite lookup_insert_eq|done|].
    intros k x [[<- <-]|[_ Hx]]%lookup_insert_Some; [by right|]. left. by eapply Hk.
Qed.

(** Field by field, what a valid listener went through. *)
Lemma validateListener_valid w gw spec set a l a' :
  validateListener w gw spec set a = (l, a') → valid l = true →
  lsSpec l = spec ∧ lsSet l = set ∧ listener_sound w gw l ∧
  ports.Allocate a (omUID (gwMeta gw)) (lsPort spec) (lsProtocol spec) = (Ok (lsInternalPort l), a').
Proof.
  unfold validateListener.
  change (if lsRefsResolved ?st && (_ || _) then resolveCertificates w gw _ else _)
    with (certs_stage w gw spec st).
  change (if (lsProtocol spec == HTTPSProtocolType) && _ then resolveFrontendValidation w gw ?st else _)
    with (ca_stage w gw spec st).
  pose proof (resolveRouteKinds_spec (check_protocol spec (new_listener spec set)))
    as (Hspec & Hset & Hacc & Hdata & Hmode & Hk).
  destruct (ports.Allocate _ _ _ _) as [[port|e] al]; [|by intros [= <- <-]].
  intros [= <- <-] [Ha Hr]%andb_true_iff. cbn in Ha, Hr.
  generalize dependent (resolveRouteKinds (check_protocol spec (new_listener spec set))).
  intros st1 Hspec Hset Hacc Hdata Hmode Hk Ha Hr.
  assert (Hcp : lsAccepted st1 = true → check_protocol spec (new_listener spec set) = new_listener spec set
                ∧ protocolRouteKinds (lsProtocol spec) ≠ []).
  { rewrite Hacc. apply check_protocol_accepted. }
  assert (Hs0 : lsSpec (check_protocol spec (new_listener spec set)) = spec ∧
                lsSet (check_protocol spec (new_listener spec set)) = set ∧
                lsClientCAMode (check_protocol spec (new_listener spec set)) = "" ∧
                lsCertData (check_protocol spec (new_listener spec set)) = ∅).
  { unfold check_protocol. repeat case_match; done. }
  destruct Hs0 as (E1 & E2 & E3 & E4). rewrite E1 in Hspec, Hk. rewrite E2 in Hset. rewrite E3 in Hmode.
  rewrite E4 in Hdata. clear E1 E2 E3 E4.
  destruct (stages_sound w gw spec st1 Hspec Hmode Hdata Hr) as (data & mode & Heq & Hcert & Hca & Hm & Hd).
  rewrite Heq in *. cbn in *. destruct (Hcp Ha) as [_ Hserved]. clear Hcp Hacc. subst spec set.
  do 2 (split; [done|]). split; [|done]. split; cbn; [done|done| |done|done|done].
  intros Ht. destruct (Hcert Ht) as (tls & Htls & H). exists tls. split; [done|]. exact H.
Qed.

(** ** The listeners of a Gateway together *)

Definition group_of (gw : Gateway) (spec : Listener) : string :=
  ports.group_key (omUID (gwMeta gw)) (lsPort spec) (lsProtocol spec).

(** After some listeners were validated. *)
Record validating (w : world) (gw : Gateway) (done : list listenerState) (a : ports.portAllocator) :
    Prop := {
  va_ok : ports.allocator_ok a;
  va_range : ports.range_ok a;
  va_valid : ∀ l, l ∈ done → valid l = true →
    listener_sound w gw l ∧ ports.paAssigned a !! group_of gw (lsSpec l) = Some (lsInternalPort l);
}.

Lemma validateListener_allocator w gw spec set a l a' :
  ports.allocator_ok a → ports.range_ok a → validateListener w gw spec set a = (l, a') →
  ports.allocator_ok a' ∧ ports.range_ok a' ∧ ports.paAssigned a ⊆ ports.paAssigned a'.
Proof.
  intros Ha Hr. unfold validateListener.
  pose proof (ports.Allocate_spec a (omUID (gwMeta gw)) (lsPort spec) (lsProtocol spec) Ha Hr) as Hs.
  destruct (ports.Allocate _ _ _ _) as [[port|e] al]; intros [= <- <-].
  - destruct Hs as [_ ? [E1 E2] _ ?]. unfold ports.range_ok. rewrite E1, E2. done.
  - destruct Hs as (-> & _). done.
Qed.

Lemma validate_loop w gw specs done a ls a' :
  validating w gw done a →
  fold_left (validate_step w gw) specs (done, a) = (ls, a') → validating w gw ls a'.
Proof.
  revert done a. induction specs as [|[spec set] specs IH]; intros done a Hv; cbn [fold_left].
  { by intros [= <- <-]. }
  unfold validate_step at 2. cbn [fst snd].
  destruct (validateListener w gw spec set a) as [l a1] eqn:Hl. apply IH.
  destruct Hv as [Ho Hr Hd].
  destruct (validateListener_allocator _ _ _ _ _ _ _ Ho Hr Hl) as (Ho1 & Hr1 & Hsub).
  split; [done|done|]. intros x [Hx|Hx%list_elem_of_singleton]%elem_of_app Hval.
  - destruct (Hd x Hx Hval) as [? ?]. split; [done|]. by eapply lookup_weaken.
  - subst x. destruct (validateListener_valid _ _ _ _ _ _ _ Hl Hval) as (Hspec & _ & Hs & Hal).
    split; [done|]. unfold group_of. rewrite Hspec.
    pose proof (ports.Allocate_spec a (omUID (gwMeta gw)) (lsPort spec) (lsProtocol spec) Ho Hr) as Hp.
    rewrite Hal in Hp. apply Hp.
Qed.

(** A valid listener of the result was validated as it is. *)
Lemma validateListeners_valid w gw sets a ls a' :
  ports.allocator_ok a → ports.range_ok a → validateListeners w gw sets a = (ls, a') →
  validating w gw (filter (λ l, valid l = true) ls) a' ∧
  ∃ before, ls = rejectConflictingListeners before.
Proof.
  intros Ha Hr. unfold validateListeners.
  destruct (fold_left _ _ _) as [before al] eqn:Hf. intros [= <- <-].
  apply (validate_loop w gw _ [] a) in Hf as [Ho Hr' Hd]; [|split; [done|done|set_solver]].
  split; [|by exists before]. split; [done|done|].
  intros l [Hv [i Hi]%list_elem_of_lookup]%list_elem_of_filter _.
  apply rejectConflicting_lookup in Hi as (b & Hb & Hm & _).
  pose proof (merged_valid _ _ Hm Hv). subst b. apply Hd; [by eapply list_elem_of_lookup_2|done].
Qed.

Lemma valid_pair_compatible before i j li lj :
  i < j → rejectConflictingListeners before !! i = Some li → rejectConflictingListeners before !! j = Some lj →
  valid li = true → valid lj = true → compatible (lsSpec li) (lsSpec lj).
Proof.
  intros Hij Hi Hj Hvi Hvj. apply andb_true_iff in Hvi as [Hai _]. apply andb_true_iff in Hvj as [Haj _].
  apply rejectConflicting_lookup in Hj as (b & _ & _ & Hj). rewrite Haj in Hj. eauto.
Qed.

(** Valid listeners of one external port share its group. *)
Lemma same_port_group w gw sets a ls a' li lj :
  ports.allocator_ok a → ports.range_ok a → validateListeners w gw sets a = (ls, a') →
  li ∈ ls → lj ∈ ls → valid li = true → valid lj = true →
  lsPort (lsSpec li) = lsPort (lsSpec lj) →
  lsProtocol (lsSpec li) = lsProtocol (lsSpec lj) ∧ lsInternalPort li = lsInternalPort lj.
Proof.
  intros Ha Hr Hv [i Hi]%list_elem_of_lookup [j Hj]%list_elem_of_lookup Hvi Hvj Hp.
  destruct (validateListeners_valid _ _ _ _ _ _ Ha Hr Hv) as [[_ _ H] [before ->]].
  assert (Hproto : lsProtocol (lsSpec li) = lsProtocol (lsSpec lj)).
  { destruct (lt_eq_lt_dec i j) as [[Hij| ->]|Hij].
    - by eapply (valid_pair_compatible before i j li lj).
    - by simplify_eq.
    - symmetry. by eapply (valid_pair_compatible before j i lj li). }
  split; [done|].
  destruct (H li) as [_ Ai]; [apply list_elem_of_filter; split; [done|by eapply list_elem_of_lookup_2]|done|].
  destruct (H lj) as [_ Aj]; [apply list_elem_of_filter; split; [done|by eapply list_elem_of_lookup_2]|done|].
  unfold group_of in *. rewrite Hp, Hproto in Ai. congruence.
Qed.

(** ** Names *)

(** A name that no ["--"] follows or splits. *)
Definition name_ok (s : string) : Prop := cut s "--" = None ∧ hasSuffix s "-" = false.

Lemma cut_None_cons c a sep : cut (String c a) sep = None → hasPrefix (String c a) sep = false ∧ cut a sep = None.
Proof. cbn [cut]. destruct (hasPrefix _ sep); [done|]. by destruct (cut a sep) as [[??]|]. Qed.

Lemma hasSuffix_cons c a p : hasSuffix (String c a) p = false → hasSuffix a p = false.
Proof.
  intros H. apply not_true_iff_false. intros [t ->]%hasSuffix_spec.
  apply not_true_iff_false in H. apply H, hasSuffix_spec. by exists (String c t).
Qed.

Lemma hasPrefix_name c a b :
  name_ok (String c a) → hasPrefix (String c a +:+ "--" +:+ b) "--" = false.
Proof.
  intros [[Hp _]%cut_None_cons Hs]. apply not_true_iff_false. intros [t Ht]%hasPrefix_spec.
  rewrite !app_cons in Ht. injection Ht as -> Ht.
  destruct a as [|d a]; [by vm_compute in Hs|].
  rewrite !app_cons in Ht. injection Ht as -> _.
  apply not_true_iff_false in Hp. apply Hp, hasPrefix_spec. by exists a.
Qed.

Lemma cut_name a b : name_ok a → cut (a +:+ "--" +:+ b) "--" = Some (a, b).
Proof.
  induction a as [|c a IH]; intros Hn; [by destruct b|].
  pose proof (hasPrefix_name c a b Hn) as Hp. rewrite app_cons in Hp |- *. cbn [cut]. rewrite Hp.
  destruct Hn as [[_ Hc]%cut_None_cons Hs%hasSuffix_cons]. by rewrite IH.
Qed.

(** The names of the owner of a listener are well formed. *)
Definition owner_named (l : listenerState) : Prop :=
  match lsSet l with
  | None => cut (lsName (lsSpec l)) "--" = None
  | Some set => name_ok (omNamespace (lstMeta set)) ∧ name_ok (omName (lstMeta set))
  end.

Lemma effectiveName_cut l : owner_named l →
  match lsSet l with
  | None => cut (effectiveName l) "--" = None ∧ effectiveName l = lsName (lsSpec l)
  | Some set => cut (effectiveName l) "--" =
      Some (omNamespace (lstMeta set), omName (lstMeta set) +:+ "--" +:+ lsName (lsSpec l)) ∧
      cut (omName (lstMeta set) +:+ "--" +:+ lsName (lsSpec l)) "--" =
      Some (omName (lstMeta set), lsName (lsSpec l))
  end.
Proof.
  unfold owner_named, effectiveName. destruct (lsSet l) as [set|]; [|done].
  intros [H1 H2]. by rewrite !cut_name.
Qed.

End listeners.

(** ** Properties *)

(** Conflict resolution keeps each listener or rejects it with the reason an
    earlier accepted listener on the same port gives, and rejected listeners
    admit no route. *)
Theorem conflicts_resolved ls :
  length (rejectConflictingListeners ls) = length ls ∧
  ∀ j before after, ls !! j = Some before → rejectConflictingListeners ls !! j = Some after →
    verdict (rejectConflictingListeners ls) before j after.
Proof.
  pose proof (conflicts_spec ls) as H. unfold rejectConflictingListeners.
  destruct (fold_left conflict_step ls _) as [done byPort]. by destruct H as (_ & ? & ?).
Qed.

(** C14: A valid listener serves only kinds of its protocol, holds a key pair
    read from a Secret its owner may reference, asks for client certificates
    whenever its port is configured to with a bundle that parses, and publishes
    nothing else. *)
Theorem valid_listener_sound {k8s : Kubernetes} {libs : build.Libraries} w gw sets a ls a' l :
  ports.allocator_ok a → ports.range_ok a → validateListeners w gw sets a = (ls, a') →
  l ∈ ls → valid l = true → listener_sound w gw l.
Proof.
  intros Ha Hr Hv Hl Hval. destruct (validateListeners_valid _ _ _ _ _ _ Ha Hr Hv) as [[_ _ H] _].
  apply (H l); [by apply list_elem_of_filter|done].
Qed.

(** Both over UDP or both over TCP. *)
Definition same_transport (a b : Listener) : Prop := lsProtocol a = "UDP" ↔ lsProtocol b = "UDP".

(** C13: Two valid listeners of a Gateway share an internal port exactly when
    they share the external port and the protocol, and two on one external port
    and one transport (both UDP or both over TCP) have one protocol and
    different hostnames. What becomes of a TCP and a UDP listener on one port is
    left open here: the code rejects the second, docs/spec/frontend.md:104-106
    allows it and 130-132 rejects it. *)
Theorem listeners_separate {k8s : Kubernetes} {libs : build.Libraries} w gw sets a ls a' i j li lj :
  ports.allocator_ok a → ports.range_ok a → has_byte "|" (omUID (gwMeta gw)) = false →
  validateListeners w gw sets a = (ls, a') → i < j →
  ls !! i = Some li → ls !! j = Some lj → valid li = true → valid lj = true →
  (0 ≤ lsPort (lsSpec li))%Z → (0 ≤ lsPort (lsSpec lj))%Z →
  (lsInternalPort li = lsInternalPort lj ↔
   lsPort (lsSpec li) = lsPort (lsSpec lj) ∧ lsProtocol (lsSpec li) = lsProtocol (lsSpec lj)) ∧
  (lsPort (lsSpec li) = lsPort (lsSpec lj) → same_transport (lsSpec li) (lsSpec lj) →
   lsProtocol (lsSpec li) = lsProtocol (lsSpec lj) ∧
   default "" (lsHostname (lsSpec li)) ≠ default "" (lsHostname (lsSpec lj))).
Proof.
  intros Ha Hr Hu Hv Hij Hi Hj Hvi Hvj Pi Pj.
  destruct (validateListeners_valid _ _ _ _ _ _ Ha Hr Hv) as [[[_ Hinj] _ H] [before ->]].
  destruct (H li) as [_ Ai]; [apply list_elem_of_filter; split; [done|by eapply list_elem_of_lookup_2]|done|].
  destruct (H lj) as [_ Aj]; [apply list_elem_of_filter; split; [done|by eapply list_elem_of_lookup_2]|done|].
  pose proof (valid_pair_compatible _ _ _ _ _ Hij Hi Hj Hvi Hvj) as Hc.
  split; [|by intros Hp _; apply Hc]. split.
  - intros Heq. rewrite Heq in Ai. pose proof (Hinj _ _ _ Ai Aj) as Hk.
    assert (Hp : lsPort (lsSpec li) = lsPort (lsSpec lj)).
    { by apply ports.group_key_inj in Hk as (_ & ? & _); [|done|done|apply ports.pretty_no_slash..]. }
    split; [done|]. by destruct (Hc Hp).
  - intros [Hp Hproto]. unfold group_of in *. rewrite Hp, Hproto in Ai. congruence.
Qed.

(** Listeners whose owners have no double hyphen in their names have distinct
    published names. *)
Theorem effective_names_unique l1 l2 :
  owner_named l1 → owner_named l2 → effectiveName l1 = effectiveName l2 →
  ownerKey l1 = ownerKey l2 ∧ lsName (lsSpec l1) = lsName (lsSpec l2).
Proof.
  intros H1%effectiveName_cut H2%effectiveName_cut He. rewrite He in H1. unfold ownerKey.
  destruct (lsSet l1) as [s1|], (lsSet l2) as [s2|]; destruct H1 as [A1 B1], H2 as [A2 B2];
    [|congruence|congruence|by rewrite <-B1, <-B2].
  rewrite A1 in A2. injection A2 as -> E2. rewrite E2, B2 in B1. injection B1 as <- <-. done.
Qed.

(** ** Examples *)

Definition ex_meta (ns name : string) : ObjectMeta := mkObjectMeta ns name (name +:+ "-uid") 100 1 ∅.

Definition ex_world (grants : list ReferenceGrant) : world :=
  mkWorld [] [] [] [] [] [] [] grants ∅ [] [] [] ∅ ∅ [] [] []
    (λ _ _, Err "not found") (λ _ _, Err "not found") EmptyAckState "".

Definition ex_cert_ref (ns : option string) : SecretObjectReference :=
  mkSecretRef None None "cert" ns.

Definition ex_https (name host : string) (ns : option string) : Listener :=
  mkListener name (Some host) 443 "HTTPS" (Some (mkListenerTLS None [ex_cert_ref ns])) None.

Definition ex_gateway (ls : list Listener) : Gateway :=
  mkGateway (ex_meta "infra" "gw") "krouter" ls [] None
    (Some (mkGatewayTLS (Some (mkFrontendTLS
       (Some (mkFrontendValidation [mkObjectReference "" "ConfigMap" "ca" None] "")) [])) None)) None.

Definition ex_grant : ReferenceGrant :=
  mkReferenceGrant "certs" [mkGrantFrom GroupName "Gateway" "infra"] [mkGrantTo "" "Secret" None].

Definition ex_cluster : Kubernetes :=
  ex_k8s {[ "certs/cert" := corev1.mkSecret (ex_meta "certs" "cert")
              (list_to_map [("tls.crt", "C"); ("tls.key", "K")]) ]}
         {[ "infra/ca" := corev1.mkConfigMap (ex_meta "infra" "ca") {[ "ca.crt" := "CERTIFICATE|c;" ]} ]}.

(** Three listeners on one port: the third repeats the first's hostname. *)
Definition ex_listeners : list listenerState :=
  let k8s := ex_cluster in let libs := build.ex_libs in
  (validateListeners (ex_world [ex_grant])
     (ex_gateway [ex_https "web" "www.example.com" (Some "certs");
                  ex_https "api" "api.example.com" (Some "certs");
                  ex_https "dup" "www.example.com" (Some "certs");
                  ex_https "bad" "bad.example.com" None]) [] ports.ex_allocator).1.

Example ex_listeners_valid :
  (λ l, (valid l, lsAcceptedReason l, lsRefsReason l, lsInternalPort l, lsClientCAMode l)) <$> ex_listeners =
  [(true, "Accepted", "ResolvedRefs", 10000%Z, "AllowValidOnly");
   (true, "Accepted", "ResolvedRefs", 10000%Z, "AllowValidOnly");
   (false, "HostnameConflict", "ResolvedRefs", 10000%Z, "AllowValidOnly");
   (false, "Accepted", "InvalidCertificateRef", 10000%Z, "")].
Proof. vm_compute. reflexivity. Qed.

Definition ex_listener_gw : Gateway :=
  ex_gateway [ex_https "web" "www.example.com" (Some "certs");
              ex_https "api" "api.example.com" (Some "certs")].

Definition ex_validated : list listenerState * ports.portAllocator :=
  let k8s := ex_cluster in let libs := build.ex_libs in
  validateListeners (ex_world [ex_grant]) ex_listener_gw [] ports.ex_allocator.

Definition ex_nth (i : nat) : listenerState :=
  default (new_listener (ex_https "" "" None) None) (ex_validated.1 !! i).

Lemma ex_pool_ok : ports.allocator_ok ports.ex_allocator ∧ ports.range_ok ports.ex_allocator.
Proof. split; [split; simpl; intros *; by rewrite lookup_empty|by split]. Qed.

Lemma valid_listener_sound_witness :
  let k8s := ex_cluster in let libs := build.ex_libs in
  listener_sound (ex_world [ex_grant]) ex_listener_gw (ex_nth 0) ∧ has_tls (lsSpec (ex_nth 0)) = true.
Proof.
  intros k8s libs. split; [|vm_compute; reflexivity].
  apply (@valid_listener_sound k8s libs (ex_world [ex_grant]) ex_listener_gw [] ports.ex_allocator
           ex_validated.1 ex_validated.2 (ex_nth 0)).
  - apply ex_pool_ok.
  - apply ex_pool_ok.
  - apply surjective_pairing.
  - apply (list_elem_of_lookup_2 _ 0). vm_compute. reflexivity.
  - vm_compute. reflexivity.
Defined.

Lemma listeners_separate_witness :
  lsInternalPort (ex_nth 0) = lsInternalPort (ex_nth 1) ∧
  (lsInternalPort (ex_nth 0) = lsInternalPort (ex_nth 1) ↔
   lsPort (lsSpec (ex_nth 0)) = lsPort (lsSpec (ex_nth 1)) ∧
   lsProtocol (lsSpec (ex_nth 0)) = lsProtocol (lsSpec (ex_nth 1))).
Proof.
  split; [vm_compute; reflexivity|].
  apply (@listeners_separate ex_cluster build.ex_libs (ex_world [ex_grant]) ex_listener_gw []
           ports.ex_allocator ex_validated.1 ex_validated.2 0 1 (ex_nth 0) (ex_nth 1)).
  - apply ex_pool_ok.
  - apply ex_pool_ok.
  - vm_compute. reflexivity.
  - apply surjective_pairing.
  - lia.
  - vm_compute. reflexivity.
  - vm_compute. reflexivity.
  - vm_compute. reflexivity.
  - vm_compute. reflexivity.
  - vm_compute. done.
  - vm_compute. done.
Defined.

Definition ex_set (ns name : string) : ListenerSet :=
  mkListenerSet (ex_meta ns name) (mkParentRef None None None "gw" None None) [].

Definition ex_set_listener (ns name listener : string) : listenerState :=
  new_listener (ex_https listener "h" None) (Some (ex_set ns name)).

Lemma effective_names_unique_witness :
  ownerKey (ex_set_listener "team" "edge-a" "web") = ownerKey (ex_set_listener "team" "edge-a" "web") ∧
  lsName (lsSpec (ex_set_listener "team" "edge-a" "web")) = "web".
Proof.
  apply (effective_names_unique (ex_set_listener "team" "edge-a" "web")
           (ex_set_listener "team" "edge-a" "web")).
  - split; split; vm_compute; reflexivity.
  - split; split; vm_compute; reflexivity.
  - reflexivity.
Defined.

(** Names with a double hyphen collide: listeners of sets in different
    namespaces share one effective name, hence the certificate keys and the
    attachment point of the data plane, although the comment of
    [effectiveName] says the name is unique. *)
Theorem effective_names_collide :
  ∃ l1 l2, ownerKey l1 ≠ ownerKey l2 ∧ effectiveName l1 = effectiveName l2.
Proof.
  by exists (ex_set_listener "a" "b--c" "web"), (ex_set_listener "a--b" "c" "web").
Qed.

End listeners.
