(* ===== verification/BackendTLS.v ===== *)
(** * Backend TLS policies

    Models [internal/lib/k8s/gatewayapi/backendtls.go] up to the policy a
    backend gets: the Gateway's client certificate, the validation of
    policies, the claims on Services and the lookup by Service port. *)

From S2P Require Import Prelude GoStrings Compiled Build Ports GatewayTypes References Listeners.
From stdpp Require Import options.

#[local] Open Scope nat_scope.

Module backendtls.
Import gatewayv1 gatewayapi references listeners.

Record backendClientCert := mkClientCert {
  ccCertPEM : option string;
  ccKeyPEM : option string;
  ccResolved : bool;
  ccReason : string;
  ccMessage : string;
}.

Section backendtls.
Context {k8s : Kubernetes} {libs : build.Libraries} {srt : GoSort}.

Definition invalid_cert (reason message : string) : backendClientCert :=
  mkClientCert None None false reason message.

Definition resolveBackendClientCert (w : world) (gw : Gateway) : backendClientCert :=
  let gwNamespace := omNamespace (gwMeta gw) in
  match gwTLS gw ≫= gtClientCertificateRef with
  | None => mkClientCert None None true "ResolvedRefs" "all references resolved"
  | Some ref =>
      if negb (kind_is "" (srGroup ref)) || negb (kind_is "Secret" (srKind ref))
      then invalid_cert "InvalidClientCertificateRef" "clientCertificateRef must reference a core Secret"
      else
        let namespace := default gwNamespace (srNamespace ref) in
        if (namespace != gwNamespace) &&
           negb (referenceGrantAllows (wGrants w) GroupName "Gateway" gwNamespace
                   "Secret" namespace (srName ref))
        then invalid_cert "RefNotPermitted"
               ("reference to " +:+ secret_text namespace (srName ref) +:+
                " not permitted by any ReferenceGrant")
        else match getSecret namespace (srName ref) with
             | Err _ => invalid_cert "InvalidClientCertificateRef"
                          (secret_text namespace (srName ref) +:+ " not found")
             | Ok secret =>
                 let certPEM := build.at_key (corev1.scData secret) "tls.crt" in
                 let keyPEM := build.at_key (corev1.scData secret) "tls.key" in
                 match build.x509KeyPair certPEM keyPEM with
                 | Err _ => invalid_cert "InvalidClientCertificateRef"
                              (secret_text namespace (srName ref) +:+ " holds no valid keypair")
                 | Ok _ => mkClientCert (Some certPEM) (Some keyPEM) true "ResolvedRefs" "all references resolved"
                 end
             end
  end.

(** ** One policy *)

Definition rejected_tls : compiled.BackendTLS := compiled.mkBackendTLS "" "" false true [].

(** The state before validation, and [invalidate]. *)
Definition new_policy_state (policy : BackendTLSPolicy) : backendTLSPolicyState :=
  mkPolicyState policy None true "Accepted" true "ResolvedRefs" "" ∅.

Definition invalidate_policy (acceptedReason resolvedReason message : string)
    (s : backendTLSPolicyState) : backendTLSPolicyState :=
  mkPolicyState (psPolicy s) (Some rejected_tls) false acceptedReason
    (if (resolvedReason != "") then false else psResolvedOK s)
    (if (resolvedReason != "") then resolvedReason else psResolvedReason s) message (psAncestors s).

Definition with_tls (t : compiled.BackendTLS) (s : backendTLSPolicyState) : backendTLSPolicyState :=
  mkPolicyState (psPolicy s) (Some t) (psAccepted s) (psAcceptedReason s) (psResolvedOK s)
    (psResolvedReason s) (psMessage s) (psAncestors s).

Definition san_value (san : SubjectAltName) : string :=
  if (sanType san == "Hostname") then sanHostname san
  else if (sanType san == "URI") then sanURI san
  else "".

Definition san_step (sans : list compiled.SubjectAltName) (san : SubjectAltName) :
    result unit (list compiled.SubjectAltName) :=
  if (san_value san == "") then Err tt
  else Ok (sans ++ [compiled.mkSubjectAltName (sanType san) (san_value san)]).

(** One CA reference of a policy: the bundle, or the reason and message of
    the rejection. *)
Definition policy_ca_step (namespace : string) (pemBundle : string) (ref : LocalObjectReference) :
    result (string * string) string :=
  if (lrKind ref != "ConfigMap") || (lrGroup ref != "")
  then Err ("InvalidKind", "caCertificateRefs must reference core ConfigMaps")
  else match getConfigMap namespace (lrName ref) with
       | Err _ => Err ("InvalidCACertificateRef", "ConfigMap " +:+ lrName ref +:+ " not found")
       | Ok cm => Ok (pemBundle +:+ build.at_key (corev1.cmData cm) "ca.crt" +:+ String "010" "")
       end.

Definition resolvePolicyValidation (policy : BackendTLSPolicy) : backendTLSPolicyState :=
  let state := new_policy_state policy in
  let validation := bpValidation policy in
  if negb (bool_decide (bpOptions policy = ∅))
  then invalidate_policy "Invalid" "" "unsupported validation options" state
  else match foldM san_step [] (pvSubjectAltNames validation) with
  | Err _ => invalidate_policy "Invalid" "" "invalid subjectAltName entry" state
  | Ok sans =>
      match pvWellKnownCACertificates validation with
      | Some _ => with_tls (compiled.mkBackendTLS (pvHostname validation) "" true false sans) state
      | None =>
          match foldM (policy_ca_step (omNamespace (bpMeta policy))) ""
                  (pvCACertificateRefs validation) with
          | Err (reason, message) => invalidate_policy "NoValidCACertificate" reason message state
          | Ok pemBundle =>
              if negb (validCAPem pemBundle)
              then invalidate_policy "NoValidCACertificate" "InvalidCACertificateRef"
                     "no valid CA certificate" state
              else with_tls (compiled.mkBackendTLS (pvHostname validation) pemBundle false false sans) state
          end
      end
  end.

(** ** Claims *)

Definition reject_target (s : backendTLSPolicyState) : backendTLSPolicyState :=
  mkPolicyState (psPolicy s) (Some rejected_tls) false "Invalid" (psResolvedOK s)
    (psResolvedReason s) (psMessage s) (psAncestors s).

Definition lose_target (s : backendTLSPolicyState) : backendTLSPolicyState :=
  mkPolicyState (psPolicy s) (psTLS s) false "Conflicted" (psResolvedOK s)
    (psResolvedReason s) (psMessage s) (psAncestors s).

Definition service_target (target : PolicyTarget) : bool :=
  (ptKind target == "Service") && (ptGroup target == "").

Definition target_key (policy : BackendTLSPolicy) (target : PolicyTarget) : string :=
  nsName (omNamespace (bpMeta policy)) (ptName target).
Definition target_section (target : PolicyTarget) : string := default "" (ptSectionName target).
Definition claim_key (key section : string) : string := key +:+ "|" +:+ section.

(** One target of the policy whose state is at [addr]. *)
Definition target_step (addr : nat) (policy : BackendTLSPolicy)
    (acc : backendTLSPolicyState * gset string * gmap string (list backendTLSBinding))
    (target : PolicyTarget) :
    backendTLSPolicyState * gset string * gmap string (list backendTLSBinding) :=
  let '(state, claimed, index) := acc in
  if negb (service_target target) then (reject_target state, claimed, index)
  else
    let key := target_key policy target in
    let section := target_section target in
    let claim := claim_key key section in
    let conflicted := bool_decide (claim ∈ claimed) in
    (if conflicted then lose_target state else state, {[ claim ]} ∪ claimed,
     <[key := default [] (index !! key) ++ [mkBinding addr section conflicted]]> index).

Definition policy_step
    (acc : list backendTLSPolicyState * gset string * gmap string (list backendTLSBinding))
    (policy : BackendTLSPolicy) :
    list backendTLSPolicyState * gset string * gmap string (list backendTLSBinding) :=
  let '(states, claimed, index) := acc in
  let '(state, claimed, index) :=
    fold_left (target_step (length states) policy) (bpTargetRefs policy)
      (resolvePolicyValidation policy, claimed, index) in
  (states ++ [state], claimed, index).

Definition ordered_policies (w : world) : list BackendTLSPolicy :=
  sortSlice (λ a b, older (bpMeta a) (bpMeta b)) (wBackendTLSPolicies w).

Definition with_policies (states : list backendTLSPolicyState)
    (index : gmap string (list backendTLSBinding)) (w : world) : world :=
  mkWorld (wClasses w) (wGateways w) (wRoutes w) (wGRPCRoutes w) (wTCPRoutes w) (wTLSRoutes w)
    (wUDPRoutes w) (wGrants w) (wNamespaces w) (wListenerSets w) (wBackendTLSPolicies w)
    states index (wServices w) (wKrouterServices w) (wGeneratedCMs w) (wGeneratedSecrets w)
    (wExtensionCM w) (wExtensionSecret w) (wAcks w) (wBundleVersion w).

Definition resolveBackendTLSPolicies (w : world) : world :=
  let '(states, _, index) :=
    fold_left policy_step (ordered_policies w) (wBackendTLSStates w, ∅, ∅) in
  with_policies states index w.

(** ** The policy of a backend *)

Definition binding_tls (w : world) (b : backendTLSBinding) : option compiled.BackendTLS :=
  wBackendTLSStates w !! bdState b ≫= psTLS.

Fixpoint tls_loop (w : world) (portName : string) (bindings : list backendTLSBinding)
    (fallback : option compiled.BackendTLS) : option compiled.BackendTLS :=
  match bindings with
  | [] => fallback
  | b :: bindings =>
      if bdConflicted b then tls_loop w portName bindings fallback
      else if (bdSectionName b == portName) && (portName != "") then binding_tls w b
      else if (bdSectionName b == "") && bool_decide (fallback = None)
           then tls_loop w portName bindings (binding_tls w b)
      else tls_loop w portName bindings fallback
  end.

Definition backendTLSFor (w : world) (namespace name portName : string) : option compiled.BackendTLS :=
  tls_loop w portName (default [] (wBackendTLS w !! nsName namespace name)) None.

(** ** Specification

    A policy applies to a section of a Service when it targets it; the
    oldest such policy decides.  A policy with a target that is not a
    Service is rejected as a whole. *)

Definition final_tls (policy : BackendTLSPolicy) : option compiled.BackendTLS :=
  if forallb service_target (bpTargetRefs policy)
  then psTLS (resolvePolicyValidation policy) else Some rejected_tls.

Definition applies (key section : string) (policy : BackendTLSPolicy) (target : PolicyTarget) : bool :=
  service_target target && (target_key policy target == key) && (target_section target == section).

Definition targets (key section : string) (policy : BackendTLSPolicy) : bool :=
  existsb (applies key section policy) (bpTargetRefs policy).

Definition decides (policies : list BackendTLSPolicy) (key section : string) : option BackendTLSPolicy :=
  head (filter (λ p, targets key section p = true) policies).

Definition effective_policy (policies : list BackendTLSPolicy) (key portName : string) :
    option BackendTLSPolicy :=
  match (if (portName == "") then None else decides policies key portName) with
  | Some p => Some p
  | None => decides policies key ""
  end.

(** *** What a valid policy asks for *)

Definition san_kept (san : SubjectAltName) (c : compiled.SubjectAltName) : Prop :=
  compiled.sanType c = sanType san ∧ compiled.sanValue c ≠ "" ∧
  (sanType san = "Hostname" ∧ compiled.sanValue c = sanHostname san ∨
   sanType san = "URI" ∧ compiled.sanValue c = sanURI san).

Definition ca_kept (namespace : string) (ref : LocalObjectReference) (pem : string) : Prop :=
  lrKind ref = "ConfigMap" ∧ lrGroup ref = "" ∧
  ∃ cm, getConfigMap namespace (lrName ref) = Ok cm ∧ pem = default "" (corev1.cmData cm !! "ca.crt").

Definition bundle (pems : list string) : string := foldr (λ pem rest, pem +:+ String "010" "" +:+ rest) "" pems.

(** A policy without options whose names are readable, against the system trust
    store or the bundles of ConfigMaps that exist. *)
Inductive valid_tls (policy : BackendTLSPolicy) : compiled.BackendTLS → Prop :=
  | valid_system sans :
      bpOptions policy = ∅ → Forall2 san_kept (pvSubjectAltNames (bpValidation policy)) sans →
      is_Some (pvWellKnownCACertificates (bpValidation policy)) →
      valid_tls policy (compiled.mkBackendTLS (pvHostname (bpValidation policy)) "" true false sans)
  | valid_bundle sans pems :
      bpOptions policy = ∅ → Forall2 san_kept (pvSubjectAltNames (bpValidation policy)) sans →
      pvWellKnownCACertificates (bpValidation policy) = None →
      Forall2 (ca_kept (omNamespace (bpMeta policy))) (pvCACertificateRefs (bpValidation policy)) pems →
      validCAPem (bundle pems) = true →
      valid_tls policy (compiled.mkBackendTLS (pvHostname (bpValidation policy)) (bundle pems) false false sans).

(** What the backends of a policy get: the TLS it asks for when it is valid and
    targets Services only, and TLS that never succeeds otherwise. *)
Definition outcome (policy : BackendTLSPolicy) (tls : compiled.BackendTLS) : Prop :=
  (Forall (λ t, ptKind t = "Service" ∧ ptGroup t = "") (bpTargetRefs policy) ∧ valid_tls policy tls) ∨
  (¬ (Forall (λ t, ptKind t = "Service" ∧ ptGroup t = "") (bpTargetRefs policy) ∧ ∃ t, valid_tls policy t) ∧
   compiled.btInvalid tls = true).

(** A policy names a section of a Service of its namespace. *)
Definition names (policy : BackendTLSPolicy) (namespace name section : string) : Prop :=
  ∃ t, t ∈ bpTargetRefs policy ∧ ptKind t = "Service" ∧ ptGroup t = "" ∧
       nsName (omNamespace (bpMeta policy)) (ptName t) = nsName namespace name ∧
       default "" (ptSectionName t) = section.

Definition earlier (a b : ObjectMeta) : Prop :=
  (omCreation a < omCreation b)%Z ∨
  (omCreation a = omCreation b ∧ sless (nsName (omNamespace a) (omName a)) (nsName (omNamespace b) (omName b)) = true).

(** The policy in force on a section of a Service: the oldest that names it. *)
Definition oldest_on (w : world) (namespace name section : string) (policy : BackendTLSPolicy) : Prop :=
  policy ∈ wBackendTLSPolicies w ∧ names policy namespace name section ∧
  ∀ q, q ∈ wBackendTLSPolicies w → names q namespace name section → ¬ earlier (bpMeta q) (bpMeta policy).

(** Names without the separator of claims. *)
Definition claims_ok (policy : BackendTLSPolicy) : Prop :=
  Forall (λ t, has_byte "|" (target_key policy t) = false) (bpTargetRefs policy).

(** ** Lemmas *)

#[local] Arguments validCAPem : simpl never.

Lemma resolvePolicyValidation_tls policy :
  psPolicy (resolvePolicyValidation policy) = policy ∧ is_Some (psTLS (resolvePolicyValidation policy)).
Proof.
  unfold resolvePolicyValidation. cbn zeta.
  repeat case_match; (split; [done|by eexists]).
Qed.

Lemma final_tls_Some policy : is_Some (final_tls policy).
Proof.
  unfold final_tls. destruct (forallb _ _); [apply resolvePolicyValidation_tls|by eexists].
Qed.

(** The first binding in force for a section. *)
Definition in_force (section : string) (bs : list backendTLSBinding) : option backendTLSBinding :=
  head (filter (λ b, bdConflicted b = false ∧ bdSectionName b = section) bs).

Lemma head_app {A} (l k : list A) : head (l ++ k) = match head l with Some x => Some x | None => head k end.
Proof. by destruct l. Qed.

Lemma in_force_cons section b bs :
  in_force section (b :: bs) =
  if negb (bdConflicted b) && (bdSectionName b == section) then Some b else in_force section bs.
Proof.
  unfold in_force. rewrite filter_cons. case_decide as Hd.
  - destruct Hd as [-> ->]. by rewrite bool_decide_eqb_refl.
  - destruct (bdConflicted b); [done|]. by rewrite bool_decide_false by naive_solver.
Qed.

Lemma in_force_snoc section bs b :
  in_force section (bs ++ [b]) =
  match in_force section bs with
  | Some b' => Some b'
  | None => if negb (bdConflicted b) && (bdSectionName b == section) then Some b else None
  end.
Proof.
  pose proof (in_force_cons section b []) as H. unfold in_force in *.
  by rewrite list.filter_app, head_app, H.
Qed.

Lemma tls_loop_spec w portName bs fallback :
  (∀ b, b ∈ bs → is_Some (binding_tls w b)) →
  tls_loop w portName bs fallback =
  match (if (portName == "") then None else in_force portName bs) with
  | Some b => binding_tls w b
  | None => match fallback with
            | Some t => Some t
            | None => in_force "" bs ≫= binding_tls w
            end
  end.
Proof.
  revert fallback. induction bs as [|b bs IH]; intros fallback Hb.
  { simpl. by destruct (_ == _), fallback. }
  assert (Hbs : ∀ b, b ∈ bs → is_Some (binding_tls w b)) by (intros; apply Hb; by right).
  cbn [tls_loop]. rewrite !in_force_cons, !IH by done.
  destruct (Hb b) as [t Ht]; [left|].
  destruct (bdConflicted b); cbn [negb andb]; [done|].
  destruct (decide (portName = "")) as [->|Hp].
  - rewrite bool_decide_eqb_refl. cbn [negb]. rewrite andb_false_r.
    destruct (bdSectionName b == ""), fallback; cbn; by rewrite ?Ht.
  - rewrite (bool_decide_false (portName = "")) by done. cbn [negb]. rewrite andb_true_r.
    destruct (bdSectionName b == portName); [done|].
    destruct (in_force portName bs); [by destruct (_ && _)|].
    destruct (bdSectionName b == ""), fallback; cbn; by rewrite ?Ht.
Qed.

(** *** Claims as a sequence of events: address, Service, section *)

Definition event := (nat * string * string)%type.

Definition first_event (key section : string) (E : list event) : option nat :=
  (λ e : event, e.1.1) <$> head (filter (λ e : event, e.1.2 = key ∧ e.2 = section) E).

Lemma first_event_app key section E F :
  first_event key section (E ++ F) =
  match first_event key section E with Some n => Some n | None => first_event key section F end.
Proof. unfold first_event. rewrite list.filter_app, head_app. by destruct (head (filter _ E)). Qed.

Lemma first_event_None key section E :
  first_event key section E = None ↔ ¬ ∃ n, (n, key, section) ∈ E.
Proof.
  unfold first_event. destruct (filter _ E) as [|[[n k] s] F] eqn:HF; simpl; split; try done.
  - intros _ (n & Hn).
    assert (Hin : (n, key, section) ∈ filter (λ e : event, e.1.2 = key ∧ e.2 = section) E)
      by (by apply list_elem_of_filter). rewrite HF in Hin. by apply elem_of_nil in Hin.
  - intros []. exists n.
    assert (Hin : (n, k, s) ∈ filter (λ e : event, e.1.2 = key ∧ e.2 = section) E)
      by (rewrite HF; left). apply list_elem_of_filter in Hin as [[Hk Hs] Hin]. simpl in *. by subst.
Qed.

(** The claims and bindings after a sequence of events. *)
Record claims (E : list event) (claimed : gset string) (index : gmap string (list backendTLSBinding)) :
    Prop := {
  cl_keys : ∀ e, e ∈ E → has_byte "|" e.1.2 = false;
  cl_claimed : ∀ c, c ∈ claimed ↔ ∃ e, e ∈ E ∧ c = claim_key e.1.2 e.2;
  cl_index : ∀ key section,
    bdState <$> in_force section (default [] (index !! key)) = first_event key section E;
  cl_addr : ∀ key b, b ∈ default [] (index !! key) → ∃ e, e ∈ E ∧ bdState b = e.1.1;
}.

Lemma claim_key_inj k1 s1 k2 s2 :
  has_byte "|" k1 = false → has_byte "|" k2 = false →
  claim_key k1 s1 = claim_key k2 s2 → k1 = k2 ∧ s1 = s2.
Proof. intros H1 H2 H. by apply (ports.cut_at "|") in H. Qed.

Lemma claims_step E claimed index n key section :
  has_byte "|" key = false → claims E claimed index →
  claims (E ++ [(n, key, section)]) ({[ claim_key key section ]} ∪ claimed)
    (<[key := default [] (index !! key) ++
         [mkBinding n section (bool_decide (claim_key key section ∈ claimed))]]> index).
Proof.
  intros Hkey [Hk Hc Hi Ha]. split.
  - intros e [He|He%list_elem_of_singleton]%elem_of_app; [eauto|by subst].
  - intros c. rewrite elem_of_union, elem_of_singleton, Hc. setoid_rewrite elem_of_app.
    setoid_rewrite list_elem_of_singleton. naive_solver.
  - intros k s. rewrite first_event_app, <-Hi, lookup_insert. unfold first_event at 1.
    rewrite filter_cons. destruct (decide (key = k)) as [->|Hne]; cbn [from_option id].
    2: { rewrite decide_False by naive_solver. by destruct (in_force s _). }
    rewrite in_force_snoc. cbn. destruct (in_force s (default [] (index !! k))) as [b|] eqn:Hf; [done|].
    destruct (decide (section = s)) as [->|Hns].
    2: { rewrite (bool_decide_false (section = s)), andb_false_r by done. by rewrite decide_False by naive_solver. }
    rewrite decide_True, bool_decide_eqb_refl, andb_true_r by done.
    rewrite bool_decide_false; [done|]. rewrite Hc. intros ([[m k'] s'] & He & Heq).
    apply claim_key_inj in Heq as [-> ->]; [|done|by apply (Hk _ He)]. cbn in *.
    assert (Hn : first_event k' s' E = None) by (by rewrite <-Hi, Hf).
    apply first_event_None in Hn. destruct Hn. by exists m.
  - intros k b. rewrite lookup_insert. destruct (decide (key = k)) as [->|]; cbn.
    + intros [Hb|Hb%list_elem_of_singleton]%elem_of_app.
      * destruct (Ha _ _ Hb) as (e & ? & ?). exists e. split; [apply elem_of_app; by left|done].
      * subst b. eexists. split; [apply elem_of_app; right; by apply list_elem_of_singleton|done].
    + intros Hb. destruct (Ha _ _ Hb) as (e & ? & ?). exists e. split; [apply elem_of_app; by left|done].
Qed.

Definition events_of (n : nat) (policy : BackendTLSPolicy) : list event :=
  (λ t, (n, target_key policy t, target_section t)) <$>
    filter (λ t, service_target t = true) (bpTargetRefs policy).

Definition events (ps : list BackendTLSPolicy) : list event := mjoin (imap events_of ps).

Lemma target_loop E n policy ts st claimed index st' claimed' index' :
  Forall (λ t, has_byte "|" (target_key policy t) = false) ts → claims E claimed index →
  fold_left (target_step n policy) ts (st, claimed, index) = (st', claimed', index') →
  claims (E ++ ((λ t, (n, target_key policy t, target_section t)) <$>
                  filter (λ t, service_target t = true) ts)) claimed' index' ∧
  psTLS st' = (if forallb service_target ts then psTLS st else Some rejected_tls).
Proof.
  intros Hts. revert E st claimed index.
  induction Hts as [|t ts Ht _ IH]; intros E st claimed index Hc; cbn [fold_left].
  { intros [= <- <- <-]. by rewrite app_nil_r. }
  unfold target_step at 2. rewrite filter_cons. cbn [forallb].
  destruct (service_target t) eqn:Hs; cbn [negb].
  - intros Hf. apply (IH (E ++ [(n, target_key policy t, target_section t)])) in Hf as [Hcl Htls];
      [|by apply claims_step]. rewrite decide_True, fmap_cons by done.
    rewrite <-app_assoc in Hcl. split; [done|]. rewrite Htls. by destruct (bool_decide _).
  - intros Hf. apply (IH E) in Hf as [Hcl Htls]; [|done]. rewrite decide_False by congruence.
    split; [done|]. rewrite Htls. by destruct (forallb _ _).
Qed.

Lemma policy_loop ps states claimed index :
  Forall claims_ok ps →
  fold_left policy_step ps ([], ∅, ∅) = (states, claimed, index) →
  claims (events ps) claimed index ∧ psTLS <$> states = final_tls <$> ps.
Proof.
  revert states claimed index. induction ps as [|p ps IH] using rev_ind; intros states claimed index Hok.
  { intros [= <- <- <-]. split; [|done]. split; set_solver. }
  apply Forall_app in Hok as [Hps Hp]. apply Forall_cons_iff in Hp as [Hp _].
  rewrite fold_left_app. cbn [fold_left].
  destruct (fold_left policy_step ps _) as [[states0 claimed0] index0].
  destruct (IH _ _ _ Hps eq_refl) as [Hc Hs]. unfold policy_step.
  destruct (fold_left (target_step _ _) _ _) as [[st c] i] eqn:Hf. intros [= <- <- <-].
  apply (target_loop (events ps)) in Hf as [Hc' Htls]; [|done|done].
  assert (length states0 = length ps) as Hlen.
  { by rewrite <-(length_fmap psTLS), Hs, length_fmap. }
  split; [|by rewrite !fmap_app, Hs; cbn; rewrite Htls].
  unfold events. rewrite imap_app, join_app. cbn. rewrite app_nil_r, Nat.add_0_r, <-Hlen. exact Hc'.
Qed.

Lemma events_of_first n p key section :
  first_event key section (events_of n p) = if targets key section p then Some n else None.
Proof.
  destruct (targets key section p) eqn:Ht.
  - unfold targets in Ht. apply existsb_elem in Ht as (t & Hin & Ha).
    unfold applies in Ha. bool_to_prop. subst.
    destruct (first_event _ _ _) as [m|] eqn:Hm.
    + unfold first_event in Hm. destruct (filter _ (events_of n p)) as [|e F] eqn:HF; [done|].
      cbn in Hm. injection Hm as <-. pose proof (list_elem_of_here e F) as He.
      rewrite <-HF in He. apply list_elem_of_filter in He as [_ He].
      unfold events_of in He. apply list_elem_of_fmap in He as (t' & -> & _). done.
    + apply first_event_None in Hm. destruct Hm. exists n. unfold events_of. apply list_elem_of_fmap.
      exists t. split; [done|]. by apply list_elem_of_filter.
  - apply first_event_None. intros (m & Hm). unfold events_of in Hm.
    apply list_elem_of_fmap in Hm as (t & [= -> -> ->] & [Hs Hin]%list_elem_of_filter).
    apply not_true_iff_false in Ht. apply Ht. apply existsb_elem. exists t. split; [done|].
    unfold applies. by rewrite Hs, !bool_decide_eqb_refl.
Qed.

Lemma first_event_decides ps key section :
  match first_event key section (events ps) with
  | Some n => is_Some (decides ps key section) ∧ ps !! n = decides ps key section
  | None => decides ps key section = None
  end.
Proof.
  induction ps as [|p ps IH] using rev_ind; [done|].
  unfold events, decides in *. rewrite imap_app, join_app, first_event_app. cbn.
  rewrite app_nil_r, Nat.add_0_r, list.filter_app, head_app, filter_cons.
  destruct (first_event key section (mjoin (imap events_of ps))) as [n|].
  - destruct IH as [[q Hq] Hn]. rewrite Hq in *. split; [by eexists|]. by apply lookup_app_l_Some.
  - rewrite IH, events_of_first. destruct (targets key section p); [|done].
    split; [by eexists|]. by rewrite lookup_app_r, Nat.sub_diag by lia.
Qed.

Lemma decides_tls ps key section states claimed index :
  claims (events ps) claimed index → psTLS <$> states = final_tls <$> ps →
  (in_force section (default [] (index !! key)) ≫= λ b, states !! bdState b ≫= psTLS) =
  decides ps key section ≫= final_tls ∧
  (is_Some (in_force section (default [] (index !! key))) ↔ is_Some (decides ps key section)).
Proof.
  intros Hc Hs. pose proof (first_event_decides ps key section) as Hd.
  rewrite <-(cl_index _ _ _ Hc) in Hd.
  destruct (in_force section (default [] (index !! key))) as [b|]; cbn in *.
  2: { rewrite Hd. split; [done|]. by rewrite !is_Some_alt. }
  destruct Hd as [[p Hp] Hn]. rewrite Hp in *. split; [|split; by eexists]. cbn.
  assert ((psTLS <$> states) !! bdState b = Some (final_tls p)) as Hl
    by (by rewrite Hs, list_lookup_fmap, Hn).
  rewrite list_lookup_fmap in Hl. destruct (states !! bdState b) as [st|]; [|done].
  cbn in *. by simplify_eq.
Qed.

Lemma binding_tls_Some ps states claimed index key b w :
  claims (events ps) claimed index → psTLS <$> states = final_tls <$> ps →
  wBackendTLSStates w = states → b ∈ default [] (index !! key) → is_Some (binding_tls w b).
Proof.
  intros Hc Hs Hw Hb. destruct (cl_addr _ _ _ Hc _ _ Hb) as ([[n k] s] & He & Hn).
  unfold events in He. apply list_elem_of_join in He as (l & He & Hl).
  apply list_elem_of_lookup in Hl as [i Hi]. rewrite list_lookup_imap in Hi.
  destruct (ps !! i) as [p|] eqn:Hp; [|done]. cbn in Hi. injection Hi as <-.
  unfold events_of in He. apply list_elem_of_fmap in He as (t & Ht & _). injection Ht as -> -> ->.
  unfold binding_tls. rewrite Hw, Hn. cbn.
  assert ((psTLS <$> states) !! i = Some (final_tls p)) as Hl2 by (by rewrite Hs, list_lookup_fmap, Hp).
  rewrite list_lookup_fmap in Hl2. destruct (states !! i) as [st|]; [|done]. cbn in *.
  injection Hl2 as ->. apply final_tls_Some.
Qed.

#[global] Instance older_strict : StrictWeak older.
Proof.
  unfold older. apply lex_strict.
  - apply (strict_weak_proj omCreation Z.ltb). apply _.
  - apply (strict_weak_proj (λ a, nsName (omNamespace a) (omName a)) sless). apply _.
Qed.

(** The deciding policy is the oldest one targeting the section. *)
Lemma decides_oldest w key section p :
  decides (ordered_policies w) key section = Some p →
  p ∈ wBackendTLSPolicies w ∧ targets key section p = true ∧
  ∀ q, q ∈ wBackendTLSPolicies w → targets key section q = true → older (bpMeta q) (bpMeta p) = false.
Proof.
  unfold decides, ordered_policies. set (less := λ a b, older (bpMeta a) (bpMeta b)).
  assert (StrictWeak less) as Hless by (apply (strict_weak_proj bpMeta older), _).
  pose proof (sortSlice_sorted less (wBackendTLSPolicies w)) as Hsort.
  pose proof (sortSlice_Permutation less (wBackendTLSPolicies w)) as Hperm.
  destruct (filter _ _) as [|x l] eqn:Hf; [done|]. intros [= ->].
  assert (Hin : ∀ q, q ∈ p :: l ↔ targets key section q = true ∧ q ∈ wBackendTLSPolicies w).
  { intros q. rewrite <-Hf, list_elem_of_filter. by rewrite Hperm. }
  destruct (proj1 (Hin p) (list_elem_of_here _ _)) as [Ht Hp]. split; [done|]. split; [done|].
  intros q Hq Htq. assert (q ∈ p :: l) as [->|Hql]%elem_of_cons by (by apply Hin).
  { apply beats_irrefl. apply _. }
  assert (Hs : sorted_by less (p :: l)).
  { rewrite <-Hf. unfold sorted_by in *. clear -Hsort.
    induction Hsort as [|y k Hk IH Hy]; [constructor|]. rewrite filter_cons.
    case_decide; [|done]. constructor; [done|]. rewrite Forall_forall in *.
    intros z Hz. apply Hy. apply list_elem_of_In. apply list_elem_of_In in Hz.
    by apply list_elem_of_filter in Hz as [_ ?]. }
  apply StronglySorted_inv in Hs as [_ Hs]. rewrite Forall_forall in Hs.
  by apply (Hs q), list_elem_of_In.
Qed.

Lemma earlier_older a b : earlier a b ↔ older a b = true.
Proof.
  unfold earlier, older. rewrite lex_true, Z.ltb_lt, Z.ltb_ge. split.
  - intros [?|[-> ?]]; [by left|right]. split; [lia|done].
  - intros [?|[? ?]]; [by left|]. destruct (Z.eq_dec (omCreation a) (omCreation b)); [by right|left; lia].
Qed.

Lemma targets_names policy namespace name section :
  targets (nsName namespace name) section policy = true ↔ names policy namespace name section.
Proof.
  unfold targets, applies, service_target, target_key, target_section, names. rewrite existsb_exists.
  setoid_rewrite andb_true_iff. setoid_rewrite andb_true_iff. setoid_rewrite andb_true_iff.
  setoid_rewrite bool_decide_eq_true. setoid_rewrite list_elem_of_In. naive_solver.
Qed.

(** *** Validation *)

Lemma san_steps sans acc out :
  foldM san_step acc sans = Ok out ↔ ∃ new, Forall2 san_kept sans new ∧ out = acc ++ new.
Proof.
  revert acc. induction sans as [|san sans IH]; intros acc; cbn [foldM].
  { split; [intros <-%(inj Ok); exists []; split; [constructor|by rewrite app_nil_r]|].
    intros (new & ->%Forall2_nil_inv_l & ->). by rewrite app_nil_r. }
  rewrite bind_Ok. setoid_rewrite IH. unfold san_step.
  set (v := san_value san).
  assert (∀ c, san_kept san c ↔ v ≠ "" ∧ c = compiled.mkSubjectAltName (sanType san) v) as Hk.
  { intros [ty value]. unfold san_kept, v, san_value. cbn. repeat case_bool_decide; naive_solver congruence. }
  case_bool_decide as Hv; split.
  - by intros (? & ? & _).
  - intros (new & (c & rest & [? _]%Hk & _ & _)%Forall2_cons_inv_l & _). done.
  - intros (acc1 & [= <-] & new & Hn & ->). eexists (_ :: new). split; [|by rewrite <-app_assoc].
    constructor; [by apply Hk|done].
  - intros (new & (c & rest & [_ ->]%Hk & Hr & ->)%Forall2_cons_inv_l & ->). eexists. split; [done|].
    exists rest. split; [done|]. by rewrite <-app_assoc.
Qed.

Lemma ca_steps namespace refs acc out :
  foldM (policy_ca_step namespace) acc refs = Ok out ↔
  ∃ pems, Forall2 (ca_kept namespace) refs pems ∧ out = acc +:+ bundle pems.
Proof.
  revert acc. induction refs as [|ref refs IH]; intros acc; cbn [foldM].
  { split; [intros <-%(inj Ok); exists []; split; [constructor|by rewrite app_empty_r]|].
    intros (new & ->%Forall2_nil_inv_l & ->). by rewrite app_empty_r. }
  rewrite bind_Ok. setoid_rewrite IH. split.
  - intros (acc1 & H1 & pems & Hp & ->). unfold policy_ca_step in H1.
    destruct (_ || _) eqn:Hk in H1; [done|]. destruct (getConfigMap _ _) as [cm|] eqn:Hg in H1; [|done].
    injection H1 as <-. apply orb_false_iff in Hk as [H1 H2].
    apply negb_false_iff, bool_decide_eq_true in H1, H2.
    exists (build.at_key (corev1.cmData cm) "ca.crt" :: pems). split; [|cbn; by rewrite !sapp_assoc].
    constructor; [|done]. split_and!; [done|done|]. by exists cm.
  - intros (pems & (pem & rest & (Hk & Hg & cm & Hcm & ->) & Hr & ->)%Forall2_cons_inv_l & ->).
    eexists. split.
    + unfold policy_ca_step. rewrite Hk, Hg, Hcm. cbn. done.
    + exists rest. split; [done|]. cbn. by rewrite !sapp_assoc.
Qed.

Lemma resolvePolicyValidation_spec policy :
  ∃ t, psTLS (resolvePolicyValidation policy) = Some t ∧
    (valid_tls policy t ∨ ((¬ ∃ t', valid_tls policy t') ∧ compiled.btInvalid t = true)).
Proof.
  unfold resolvePolicyValidation. cbn zeta.
  destruct (decide (bpOptions policy = ∅)) as [Ho|Ho];
    [rewrite (bool_decide_true (bpOptions policy = ∅)) by done|rewrite (bool_decide_false (bpOptions policy = ∅)) by done]; cbn [negb].
  2:{ eexists. split; [done|]. right. split; [|done]. by intros (t' & []). }
  destruct (foldM san_step _ _) as [sans|] eqn:Hs.
  2:{ eexists. split; [done|]. right. split; [|done]. intros (t' & Hv).
      assert (∃ out, Forall2 san_kept (pvSubjectAltNames (bpValidation policy)) out) as [out Hout] by (destruct Hv; eauto).
      assert (foldM san_step [] (pvSubjectAltNames (bpValidation policy)) = Ok out) as E by (apply san_steps; eauto).
      congruence. }
  apply san_steps in Hs as (new & Hs & ->). cbn [app].
  destruct (pvWellKnownCACertificates (bpValidation policy)) as [sys|] eqn:Hw.
  { eexists. split; [done|]. left. apply valid_system; [done..|]. rewrite Hw. by eexists. }
  destruct (foldM (policy_ca_step _) _ _) as [out|[reason message]] eqn:Hc.
  2:{ eexists. split; [done|]. right. split; [|done]. intros (t' & Hv).
      destruct Hv as [sans0 _ _ [? ?]|sans0 pems _ _ _ Hp _]; [congruence|].
      assert (foldM (policy_ca_step (omNamespace (bpMeta policy))) "" (pvCACertificateRefs (bpValidation policy)) =
        Ok ("" +:+ bundle pems)) as E by (apply ca_steps; eauto). congruence. }
  pose proof Hc as Hc0. apply ca_steps in Hc as (pems & Hp & ->). rewrite app_empty_l in *.
  destruct (validCAPem (bundle pems)) eqn:Hvalid; cbn [negb]; eexists; (split; [done|]).
  - left. by apply valid_bundle.
  - right. split; [|done]. intros (t' & Hv). destruct Hv as [sans0 _ _ [? ?]|sans0 pems' _ _ _ Hp' Hval]; [congruence|].
    assert (foldM (policy_ca_step (omNamespace (bpMeta policy))) "" (pvCACertificateRefs (bpValidation policy)) =
      Ok ("" +:+ bundle pems')) as E by (apply ca_steps; eauto). rewrite Hc0, app_empty_l in E. congruence.
Qed.

Lemma final_tls_outcome policy : ∃ t, final_tls policy = Some t ∧ outcome policy t.
Proof.
  assert (forallb service_target (bpTargetRefs policy) = true ↔
    Forall (λ t, ptKind t = "Service" ∧ ptGroup t = "") (bpTargetRefs policy)) as Hf.
  { rewrite forallb_forall, Forall_forall. unfold service_target. setoid_rewrite andb_true_iff.
    by setoid_rewrite bool_decide_eq_true. }
  unfold final_tls, outcome. destruct (forallb service_target _) eqn:E.
  - destruct (resolvePolicyValidation_spec policy) as (t & Ht & [Hv|[Hn Hi]]); exists t; (split; [done|]).
    + left. split; [by apply Hf|done].
    + right. split; [|done]. by intros [_ ?].
  - eexists. split; [done|]. right. split; [|done]. intros [?%Hf _]. congruence.
Qed.

Lemma backendTLSFor_effective w namespace name portName :
  wBackendTLSStates w = [] → Forall claims_ok (wBackendTLSPolicies w) →
  backendTLSFor (resolveBackendTLSPolicies w) namespace name portName =
    effective_policy (ordered_policies w) (nsName namespace name) portName ≫= final_tls.
Proof.
  intros Hw Hok. unfold backendTLSFor, resolveBackendTLSPolicies. rewrite Hw.
  generalize (nsName namespace name). intros key.
  destruct (fold_left policy_step _ _) as [[states claimed] index] eqn:Hf.
  apply policy_loop in Hf as [Hc Hs].
  2: { unfold ordered_policies. by rewrite sortSlice_Permutation. }
  cbn [wBackendTLS with_policies].
  rewrite tls_loop_spec.
  2: { intros b Hb. by eapply (binding_tls_Some (ordered_policies w) states). }
  unfold effective_policy.
  change (binding_tls (with_policies states index w)) with (λ b, states !! bdState b ≫= psTLS).
  destruct (decides_tls _ key "" _ _ _ Hc Hs) as [Hn _].
  destruct (decides_tls _ key portName _ _ _ Hc Hs) as [Hp Hi].
  case_bool_decide; [done|].
  destruct (in_force portName _) as [b|], (decides _ key portName) as [p|]; cbn in *; [done| | |done].
  - destruct (proj1 Hi) as [? [=]]. by eexists.
  - destruct (proj2 Hi) as [? [=]]. by eexists.
Qed.

End backendtls.

(** ** Properties *)

(** C12: The policy in force on a Service port is the oldest one naming the
    port, else the oldest one on the whole Service, whatever the order of the
    list, and none only when no policy names either; a valid one yields exactly
    its TLS settings and one whose own validation or target kind is rejected
    yields TLS that fails closed. A policy that lost another of its targets to
    an older one keeps its settings on the targets where it is the oldest. Names
    without the separator of claims are assumed. *)
Theorem backend_policy_effective {k8s : Kubernetes} {libs : build.Libraries} {srt : GoSort}
    w namespace name portName :
  wBackendTLSStates w = [] → Forall claims_ok (wBackendTLSPolicies w) →
  let named section := ∃ p, p ∈ wBackendTLSPolicies w ∧ names p namespace name section in
  match backendTLSFor (resolveBackendTLSPolicies w) namespace name portName with
  | None => ¬ named "" ∧ (portName ≠ "" → ¬ named portName)
  | Some tls =>
      ∃ section p, oldest_on w namespace name section p ∧ outcome p tls ∧
        (section = portName ∧ portName ≠ "" ∨ section = "" ∧ (portName ≠ "" → ¬ named portName))
  end.
Proof.
  intros Hw Hok named. rewrite (backendTLSFor_effective w namespace name portName Hw Hok).
  assert (∀ section, decides (ordered_policies w) (nsName namespace name) section = None → ¬ named section) as Hnone.
  { intros section Hd (p & Hp & Hn). apply targets_names in Hn. unfold decides in Hd.
    assert (p ∈ filter (λ p, targets (nsName namespace name) section p = true) (ordered_policies w)) as Hin.
    { apply list_elem_of_filter. split; [done|]. unfold ordered_policies. by rewrite sortSlice_Permutation. }
    destruct (filter _ _); [by apply elem_of_nil in Hin|done]. }
  assert (∀ section p, decides (ordered_policies w) (nsName namespace name) section = Some p →
    oldest_on w namespace name section p) as Hsome.
  { intros section p (Hp & Ht & Hold)%decides_oldest. split_and!; [done|by apply targets_names|].
    intros q Hq Hn%targets_names. rewrite earlier_older, (Hold q Hq Hn). done. }
  assert (∀ section p, decides (ordered_policies w) (nsName namespace name) section = Some p →
    (section = portName ∧ portName ≠ "" ∨ section = "" ∧ (portName ≠ "" → ¬ named portName)) →
    match final_tls p with
    | None => ¬ named "" ∧ (portName ≠ "" → ¬ named portName)
    | Some tls => ∃ section p, oldest_on w namespace name section p ∧ outcome p tls ∧
        (section = portName ∧ portName ≠ "" ∨ section = "" ∧ (portName ≠ "" → ¬ named portName))
    end) as Hdec.
  { intros section p Hd Hsec. destruct (final_tls_outcome p) as (t & -> & Ho). exists section, p. auto. }
  unfold effective_policy. destruct (decide (portName = "")) as [->|Hp].
  - cbn. destruct (decides _ _ "") as [p|] eqn:Hd; cbn; [|by split; [apply Hnone|]].
    apply (Hdec "" p Hd). right. by split.
  - rewrite (bool_decide_false (portName = "")) by done. destruct (decides _ _ portName) as [p|] eqn:Hd; cbn.
    + apply (Hdec portName p Hd). auto.
    + destruct (decides _ _ "") as [p|] eqn:Hd0; cbn; [|by split; [apply Hnone|intros _; apply Hnone]].
      apply (Hdec "" p Hd0). auto.
Qed.

(** ** Examples *)

Definition ex_policy (name : string) (created : Z) (section : option string) (ca : string) :
    BackendTLSPolicy :=
  mkBackendTLSPolicy (mkObjectMeta "infra" name name created 1 ∅)
    [mkPolicyTarget "" "Service" "svc" section]
    (mkPolicyValidation [mkLocalRef "" "ConfigMap" ca] None "svc.internal" []) ∅.

(** Two policies on all ports, the older one broken; one on a named port. *)
Definition ex_policies : world :=
  let w := ex_world [] in
  mkWorld [] [] [] [] [] [] [] [] ∅ []
    [ex_policy "new" 30 None "ca"; ex_policy "old" 10 None "missing"; ex_policy "tls" 20 (Some "https") "ca"]
    [] ∅ ∅ [] [] [] (wExtensionCM w) (wExtensionSecret w) EmptyAckState "".

Lemma backend_policy_effective_witness :
  let k8s := ex_cluster in let libs := build.ex_libs in
  let tls := backendTLSFor (resolveBackendTLSPolicies ex_policies) "infra" "svc" in
  compiled.btInvalid <$> tls "http" = Some true ∧ compiled.btInvalid <$> tls "https" = Some false ∧
  ∃ t section p, tls "https" = Some t ∧ oldest_on ex_policies "infra" "svc" section p ∧ outcome p t.
Proof.
  intros k8s libs tls. split; [vm_compute; reflexivity|]. split; [vm_compute; reflexivity|].
  assert (Hok : Forall claims_ok (wBackendTLSPolicies ex_policies)) by (repeat constructor; vm_compute; reflexivity).
  pose proof (@backend_policy_effective k8s libs _ ex_policies "infra" "svc" "https" eq_refl Hok) as H.
  destruct (tls "https") as [t|] eqn:E; [|discriminate (eq_trans (eq_sym E) (eq_refl (tls "https")))].
  unfold tls in E. rewrite E in H. destruct H as (section & p & Ho & Hout & _). by exists t, section, p.
Defined.

End backendtls.
