(* ===== verification/AuthDoc.v ===== *)
(** * Extension documents

    Models [internal/extensions/auth/auth.go] and [merge.go], the
    authentication documents, their merge and the static validation of its
    result, and [internal/extensions/waf/waf.go], the WAF documents.  HCL
    decoding and URL parsing are parameters. *)

From S2P Require Import Prelude GoStrings Compiled Build RateLimit GatewayTypes References.
From stdpp Require Import options.

#[local] Open Scope nat_scope.

Module authdoc.
Import references.

Definition DefaultPathPrefix := "/.krouter/auth".
(** Twelve hours, in nanoseconds. *)
Definition DefaultSessionLifetime : Z := 43200000000000.
Definition MinSessionSecretBytes : nat := 32.

(** ** Documents: a slice or map that may be nil is an [option] *)

Record SessionDoc := mkSessionDoc { sdSecret : option string; sdLifetime : option Z }.

Record OIDCDoc := mkOIDCDoc {
  odIssuer : option string;
  odClientID : option string;
  odClientSecret : option string;
  odScopes : option (list string);
  odDisplayName : option string;
}.

Record SAMLDoc := mkSAMLDoc {
  mdEntityID : option string;
  mdIDPMetadataURL : option string;
  mdIDPMetadata : option string;
  mdSPKey : option string;
  mdSPCertificate : option string;
  mdAttributes : option (gmap string string);
  mdDisplayName : option string;
}.

Record LDAPDoc := mkLDAPDoc {
  ldURL : option string;
  ldStartTLS : option bool;
  ldCA : option string;
  ldBindDN : option string;
  ldBindPassword : option string;
  ldUserBaseDN : option string;
  ldUserFilter : option string;
  ldRealm : option string;
  ldAttributes : option (gmap string string);
  ldGroupSearch : option compiled.AuthGroupSearch;
  ldDisplayName : option string;
}.

Record JWTDoc := mkJWTDoc {
  jdIssuer : option string;
  jdAudiences : option (list string);
  jdJWKSURL : option string;
}.

Record Document := mkDocument {
  dcSession : option SessionDoc;
  dcOIDC : option OIDCDoc;
  dcSAML : option SAMLDoc;
  dcLDAP : option LDAPDoc;
  dcJWT : option JWTDoc;
  dcRequires : list compiled.AuthRequire;
  dcPathPrefix : option string;
}.

(** ** The HCL schema *)

Record hclSession := mkHclSession { hsSecret : option string; hsLifetime : option string }.
Record hclAttributes := mkHclAttributes { haEmail : option string; haGroups : option string }.
Record hclGroupSearch := mkHclGroupSearch { hgBaseDN : string; hgFilter : string; hgAttribute : string }.
Record hclRequire := mkHclRequire { hqClaim : string; hqValues : list string }.

(** A labelled block: its label and its body, still to be decoded. *)
Record hclProvider := mkHclProvider { hpType : string; hpBody : string }.

Record hclSAML := mkHclSAML {
  hmEntityID : option string;
  hmIDPMetadataURL : option string;
  hmIDPMetadata : option string;
  hmSPKey : option string;
  hmSPCertificate : option string;
  hmAttributes : option hclAttributes;
  hmDisplayName : option string;
}.

Record hclLDAP := mkHclLDAP {
  hlURL : option string;
  hlStartTLS : option bool;
  hlCA : option string;
  hlBindDN : option string;
  hlBindPassword : option string;
  hlUserBaseDN : option string;
  hlUserFilter : option string;
  hlRealm : option string;
  hlAttributes : option hclAttributes;
  hlGroupSearch : option hclGroupSearch;
  hlDisplayName : option string;
}.

Record hclAuth := mkHclAuth {
  haSession : option hclSession;
  haProviders : list hclProvider;
  haRequires : option (list hclRequire);
  haPathPrefix : option string;
}.

Record hclDocument := mkHclDocument { hdVersion : Z; hdAuth : option hclAuth }.
Record hclWaf := mkHclWaf { hwVersion : Z; hwDirectives : option string }.

(** The [oidc] and [jwt] schemas have the fields of their documents. *)
Class HCL := {
  decodeDocument : string → result string hclDocument;
  decodeOIDC : string → result string OIDCDoc;
  decodeSAML : string → result string hclSAML;
  decodeLDAP : string → result string hclLDAP;
  decodeJWT : string → result string JWTDoc;
  decodeWaf : string → result string hclWaf;
  decodeRateLimit : string → result string ratelimiting.hclDocument;
  (** [url.Parse]: scheme and host *)
  urlParse : string → option (string * string);
}.

Inductive DocError :=
  | DecodeError (err : string)
  | UnsupportedVersion (v : Z)
  | MissingAuthBlock
  | InvalidLifetime (text : string)
  | DuplicateProvider (ty : string)
  | ProviderError (ty err : string)
  | UnknownProvider (ty : string)
  | RequireIncomplete
  | InvalidPathPrefix (prefix : string)
  | NoProvider
  | SessionRequired
  | SessionUseless
  | SessionSecretShort
  | OIDCIncomplete
  | SAMLNoEntity
  | SAMLMetadataChoice
  | SAMLKeysMissing
  | SAMLKeyMaterial (err : string)
  | LDAPIncomplete
  | LDAPInvalidURL (url : string)
  | LDAPFilterNoUsername
  | LDAPStartTLSOverTLS
  | LDAPInvalidCA
  | LDAPGroupSearchIncomplete
  | LDAPGroupSearchFilter
  | JWTIncomplete
  | InvalidURL (what raw : string)
  | MissingWafBlock
  | EmptyDirectives.

Section documents.
Context {k8s : Kubernetes} {libs : build.Libraries} {hcl : HCL}.

(** ** Parsing *)

Definition toMap (a : option hclAttributes) : option (gmap string string) :=
  a ← a;
  let m := match haEmail a with Some e => {[ "email" := e ]} | None => ∅ end in
  Some (match haGroups a with Some g => <["groups" := g]> m | None => m end).

Definition set_provider_oidc (v : OIDCDoc) (d : Document) : Document :=
  mkDocument (dcSession d) (Some v) (dcSAML d) (dcLDAP d) (dcJWT d) (dcRequires d) (dcPathPrefix d).
Definition set_provider_saml (v : SAMLDoc) (d : Document) : Document :=
  mkDocument (dcSession d) (dcOIDC d) (Some v) (dcLDAP d) (dcJWT d) (dcRequires d) (dcPathPrefix d).
Definition set_provider_ldap (v : LDAPDoc) (d : Document) : Document :=
  mkDocument (dcSession d) (dcOIDC d) (dcSAML d) (Some v) (dcJWT d) (dcRequires d) (dcPathPrefix d).
Definition set_provider_jwt (v : JWTDoc) (d : Document) : Document :=
  mkDocument (dcSession d) (dcOIDC d) (dcSAML d) (dcLDAP d) (Some v) (dcRequires d) (dcPathPrefix d).

Definition decode_body {A} (ty : string) (r : result string A) : result DocError A :=
  map_err (ProviderError ty) r.

Definition no_duplicate {A} (ty : string) (o : option A) : result DocError unit :=
  match o with None => Ok tt | Some _ => Err (DuplicateProvider ty) end.

Definition decodeProvider (d : Document) (provider : hclProvider) : result DocError Document :=
  let ty := hpType provider in
  if (ty == "oidc") then
    _ ← no_duplicate ty (dcOIDC d);
    raw ← decode_body ty (decodeOIDC (hpBody provider));
    Ok (set_provider_oidc raw d)
  else if (ty == "saml") then
    _ ← no_duplicate ty (dcSAML d);
    raw ← decode_body ty (decodeSAML (hpBody provider));
    Ok (set_provider_saml
          (mkSAMLDoc (hmEntityID raw) (hmIDPMetadataURL raw) (hmIDPMetadata raw) (hmSPKey raw)
             (hmSPCertificate raw) (toMap (hmAttributes raw)) (hmDisplayName raw)) d)
  else if (ty == "ldap") then
    _ ← no_duplicate ty (dcLDAP d);
    raw ← decode_body ty (decodeLDAP (hpBody provider));
    Ok (set_provider_ldap
          (mkLDAPDoc (hlURL raw) (hlStartTLS raw) (hlCA raw) (hlBindDN raw) (hlBindPassword raw)
             (hlUserBaseDN raw) (hlUserFilter raw) (hlRealm raw) (toMap (hlAttributes raw))
             ((λ g, compiled.mkAuthGroupSearch (hgBaseDN g) (hgFilter g) (hgAttribute g)) <$>
                hlGroupSearch raw)
             (hlDisplayName raw)) d)
  else if (ty == "jwt") then
    _ ← no_duplicate ty (dcJWT d);
    raw ← decode_body ty (decodeJWT (hpBody provider));
    Ok (set_provider_jwt raw d)
  else Err (UnknownProvider ty).

Definition parse_session (session : option hclSession) : result DocError (option SessionDoc) :=
  match session with
  | None => Ok None
  | Some s =>
      match hsLifetime s with
      | None => Ok (Some (mkSessionDoc (hsSecret s) None))
      | Some text =>
          match parseDuration text with
          | Some d => if (0 <? d)%Z then Ok (Some (mkSessionDoc (hsSecret s) (Some d)))
                      else Err (InvalidLifetime text)
          | None => Err (InvalidLifetime text)
          end
      end
  end.

Definition require_step (acc : list compiled.AuthRequire) (r : hclRequire) :
    result DocError (list compiled.AuthRequire) :=
  if (hqClaim r == "") || (length (hqValues r) =? 0) then Err RequireIncomplete
  else Ok (acc ++ [compiled.mkAuthRequire (hqClaim r) (hqValues r)]).

Definition prefix_ok (prefix : string) : bool :=
  negb (negb (hasPrefix prefix "/") || (prefix == "/") || hasSuffix prefix "/").

Definition Parse (src : string) : result DocError Document :=
  raw ← map_err DecodeError (decodeDocument src);
  _ ← guard_err (hdVersion raw =? 1)%Z (UnsupportedVersion (hdVersion raw));
  auth ← of_option MissingAuthBlock (hdAuth raw);
  session ← parse_session (haSession auth);
  doc ← foldM decodeProvider (mkDocument session None None None None [] (haPathPrefix auth))
          (haProviders auth);
  requires ← match haRequires auth with
             | Some rs => foldM require_step [] rs
             | None => Ok []
             end;
  _ ← match dcPathPrefix doc with
      | Some prefix => guard_err (prefix_ok prefix) (InvalidPathPrefix prefix)
      | None => Ok tt
      end;
  Ok (mkDocument (dcSession doc) (dcOIDC doc) (dcSAML doc) (dcLDAP doc) (dcJWT doc) requires
        (dcPathPrefix doc)).

(** ** Merging *)

(** A later value overrides. *)
Definition over {A} (old new : option A) : option A := match new with Some _ => new | None => old end.

(** A later block merges into the earlier one, or into an empty one. *)
Definition over_block {A} (empty : A) (f : A → A → A) (old new : option A) : option A :=
  match new with
  | None => old
  | Some n => Some (f (default empty old) n)
  end.

Definition mergeSession (m d : SessionDoc) : SessionDoc :=
  mkSessionDoc (over (sdSecret m) (sdSecret d)) (over (sdLifetime m) (sdLifetime d)).

Definition mergeOIDC (m d : OIDCDoc) : OIDCDoc :=
  mkOIDCDoc (over (odIssuer m) (odIssuer d)) (over (odClientID m) (odClientID d))
    (over (odClientSecret m) (odClientSecret d)) (over (odScopes m) (odScopes d))
    (over (odDisplayName m) (odDisplayName d)).

Definition mergeSAML (m d : SAMLDoc) : SAMLDoc :=
  mkSAMLDoc (over (mdEntityID m) (mdEntityID d)) (over (mdIDPMetadataURL m) (mdIDPMetadataURL d))
    (over (mdIDPMetadata m) (mdIDPMetadata d)) (over (mdSPKey m) (mdSPKey d))
    (over (mdSPCertificate m) (mdSPCertificate d)) (over (mdAttributes m) (mdAttributes d))
    (over (mdDisplayName m) (mdDisplayName d)).

Definition mergeLDAP (m d : LDAPDoc) : LDAPDoc :=
  mkLDAPDoc (over (ldURL m) (ldURL d)) (over (ldStartTLS m) (ldStartTLS d)) (over (ldCA m) (ldCA d))
    (over (ldBindDN m) (ldBindDN d)) (over (ldBindPassword m) (ldBindPassword d))
    (over (ldUserBaseDN m) (ldUserBaseDN d)) (over (ldUserFilter m) (ldUserFilter d))
    (over (ldRealm m) (ldRealm d)) (over (ldAttributes m) (ldAttributes d))
    (over (ldGroupSearch m) (ldGroupSearch d)) (over (ldDisplayName m) (ldDisplayName d)).

Definition mergeJWT (m d : JWTDoc) : JWTDoc :=
  mkJWTDoc (over (jdIssuer m) (jdIssuer d)) (over (jdAudiences m) (jdAudiences d))
    (over (jdJWKSURL m) (jdJWKSURL d)).

Definition no_session := mkSessionDoc None None.
Definition no_oidc := mkOIDCDoc None None None None None.
Definition no_saml := mkSAMLDoc None None None None None None None.
Definition no_ldap := mkLDAPDoc None None None None None None None None None None None.
Definition no_jwt := mkJWTDoc None None None.
Definition empty_document := mkDocument None None None None None [] None.

Definition merge_document (m d : Document) : Document :=
  mkDocument (over_block no_session mergeSession (dcSession m) (dcSession d))
    (over_block no_oidc mergeOIDC (dcOIDC m) (dcOIDC d))
    (over_block no_saml mergeSAML (dcSAML m) (dcSAML d))
    (over_block no_ldap mergeLDAP (dcLDAP m) (dcLDAP d))
    (over_block no_jwt mergeJWT (dcJWT m) (dcJWT d))
    (dcRequires m ++ dcRequires d) (over (dcPathPrefix m) (dcPathPrefix d)).

(** ** Validation *)

Definition validateHTTPURL (what raw : string) : result DocError unit :=
  match urlParse raw with
  | Some (scheme, host) =>
      guard_err (((scheme == "http") || (scheme == "https")) && (host != "")) (InvalidURL what raw)
  | None => Err (InvalidURL what raw)
  end.

Definition validateSession (session : option SessionDoc) (required : bool) :
    result DocError (option compiled.AuthSession) :=
  match session with
  | None => if required then Err SessionRequired else Ok None
  | Some s =>
      if negb required then Err SessionUseless
      else match sdSecret s with
           | Some secret =>
               if (len secret <? MinSessionSecretBytes) then Err SessionSecretShort
               else Ok (Some (compiled.mkAuthSession secret
                          (ratelimiting.Milliseconds (default DefaultSessionLifetime (sdLifetime s)))))
           | None => Err SessionSecretShort
           end
  end.

Definition validateOIDC (doc : OIDCDoc) : result DocError compiled.AuthOIDC :=
  match odIssuer doc, odClientID doc with
  | Some issuer, Some clientID =>
      _ ← validateHTTPURL "oidc issuer" issuer;
      Ok (compiled.mkAuthOIDC (trimSuffix issuer "/") clientID (default "" (odClientSecret doc))
            (default [] (odScopes doc)) (default "" (odDisplayName doc)))
  | _, _ => Err OIDCIncomplete
  end.

Definition validateSAML (doc : SAMLDoc) : result DocError compiled.AuthSAML :=
  entityID ← of_option SAMLNoEntity (mdEntityID doc);
  _ ← guard_err (negb (bool_decide (is_Some (mdIDPMetadataURL doc)) ==
                       bool_decide (is_Some (mdIDPMetadata doc)))) SAMLMetadataChoice;
  _ ← match mdIDPMetadataURL doc with
      | Some url => validateHTTPURL "saml idp_metadata_url" url
      | None => Ok tt
      end;
  match mdSPKey doc, mdSPCertificate doc with
  | Some key, Some cert =>
      _ ← map_err SAMLKeyMaterial (build.x509KeyPair cert key);
      Ok (compiled.mkAuthSAML entityID (default "" (mdIDPMetadataURL doc))
            (match mdIDPMetadataURL doc with
             | Some _ => ""
             | None => default "" (mdIDPMetadata doc)
             end) key cert (default ∅ (mdAttributes doc)) (default "" (mdDisplayName doc)))
  | _, _ => Err SAMLKeysMissing
  end.

(** [validCAPEM] is the scan of [References.references.validCAPem]. *)
Definition validateLDAP (doc : LDAPDoc) : result DocError compiled.AuthLDAP :=
  match ldURL doc, ldBindDN doc, ldBindPassword doc, ldUserBaseDN doc, ldUserFilter doc with
  | Some url, Some bindDN, Some bindPassword, Some userBaseDN, Some userFilter =>
      parsed ← of_option (LDAPInvalidURL url) (urlParse url);
      let '(scheme, host) := parsed in
      _ ← guard_err (((scheme == "ldap") || (scheme == "ldaps")) && (host != "")) (LDAPInvalidURL url);
      _ ← guard_err (contains userFilter "{username}") LDAPFilterNoUsername;
      _ ← guard_err (negb ((scheme == "ldaps") && default false (ldStartTLS doc))) LDAPStartTLSOverTLS;
      _ ← match ldCA doc with
          | Some ca => guard_err (validCAPem ca) LDAPInvalidCA
          | None => Ok tt
          end;
      _ ← match ldGroupSearch doc with
          | Some gs =>
              _ ← guard_err (negb ((compiled.agBaseDN gs == "") || (compiled.agFilter gs == "") ||
                                   (compiled.agAttribute gs == ""))) LDAPGroupSearchIncomplete;
              guard_err (contains (compiled.agFilter gs) "{dn}" ||
                         contains (compiled.agFilter gs) "{username}") LDAPGroupSearchFilter
          | None => Ok tt
          end;
      Ok (compiled.mkAuthLDAP url (default false (ldStartTLS doc)) (default "" (ldCA doc)) bindDN
            bindPassword userBaseDN userFilter (default "" (ldRealm doc)) (default ∅ (ldAttributes doc))
            (ldGroupSearch doc) (default "" (ldDisplayName doc)))
  | _, _, _, _, _ => Err LDAPIncomplete
  end.

Definition validateJWT (doc : JWTDoc) : result DocError compiled.AuthJWT :=
  match jdIssuer doc with
  | None => Err JWTIncomplete
  | Some issuer =>
      let audiences := default [] (jdAudiences doc) in
      _ ← guard_err (negb (length audiences =? 0)) JWTIncomplete;
      match jdJWKSURL doc with
      | Some url =>
          _ ← validateHTTPURL "jwt jwks_url" url; Ok (compiled.mkAuthJWT issuer audiences url)
      | None =>
          _ ← validateHTTPURL "jwt issuer" issuer; Ok (compiled.mkAuthJWT issuer audiences "")
      end
  end.

(** One provider of the merged document, if configured. *)
Definition validate_provider {A B} (f : A → result DocError B) (o : option A) : result DocError (option B) :=
  match o with
  | Some a => b ← f a; Ok (Some b)
  | None => Ok None
  end.

Definition validate (merged : Document) : result DocError compiled.Auth :=
  oidc ← validate_provider validateOIDC (dcOIDC merged);
  saml ← validate_provider validateSAML (dcSAML merged);
  ldap ← validate_provider validateLDAP (dcLDAP merged);
  jwt ← validate_provider validateJWT (dcJWT merged);
  let cookies := bool_decide (is_Some oidc) || bool_decide (is_Some saml) || bool_decide (is_Some ldap) in
  _ ← guard_err (cookies || bool_decide (is_Some jwt)) NoProvider;
  session ← validateSession (dcSession merged) cookies;
  Ok (compiled.mkAuth "" (default DefaultPathPrefix (dcPathPrefix merged)) session oidc saml ldap jwt
        (dcRequires merged)).

Definition Merge (docs : list Document) : result DocError compiled.Auth :=
  validate (fold_left merge_document docs empty_document).

(** ** Lemmas *)

Lemma over_assoc {A} (a b c : option A) : over a (over b c) = over (over a b) c.
Proof. by destruct c. Qed.

Lemma over_None_l {A} (a : option A) : over None a = a.
Proof. by destruct a. Qed.

Lemma merge_empty_l d : merge_document empty_document d = d.
Proof.
  destruct d as [s o m l j r p]. unfold merge_document; cbn. rewrite over_None_l. f_equal.
  - destruct s as [[]|]; cbn; [|done]. unfold mergeSession; cbn. by rewrite !over_None_l.
  - destruct o as [[]|]; cbn; [|done]. unfold mergeOIDC; cbn. by rewrite !over_None_l.
  - destruct m as [[]|]; cbn; [|done]. unfold mergeSAML; cbn. by rewrite !over_None_l.
  - destruct l as [[]|]; cbn; [|done]. unfold mergeLDAP; cbn. by rewrite !over_None_l.
  - destruct j as [[]|]; cbn; [|done]. unfold mergeJWT; cbn. by rewrite !over_None_l.
Qed.

Lemma over_block_assoc {A} (e : A) f (a b c : option A) :
  (∀ x, f e x = x) → (∀ x y z, f x (f y z) = f (f x y) z) →
  over_block e f a (over_block e f b c) = over_block e f (over_block e f a b) c.
Proof. intros He Hf. destruct c as [c|], b as [b|]; cbn; rewrite ?He, ?Hf; done. Qed.

Lemma merge_assoc d1 d2 d3 :
  merge_document d1 (merge_document d2 d3) = merge_document (merge_document d1 d2) d3.
Proof.
  unfold merge_document; cbn. f_equal; [..|by rewrite app_assoc|apply over_assoc];
    apply over_block_assoc; intros []; intros;
    unfold mergeSession, mergeOIDC, mergeSAML, mergeLDAP, mergeJWT; cbn;
    by rewrite ?over_None_l, ?over_assoc.
Qed.

Lemma merge_fold d docs :
  fold_left merge_document docs d = merge_document d (fold_left merge_document docs empty_document).
Proof.
  revert d. induction docs as [|x docs IH]; intros d; cbn [fold_left].
  - unfold merge_document, empty_document; cbn. rewrite app_nil_r. by destruct d.
  - by rewrite IH, (IH (merge_document empty_document x)), merge_empty_l, merge_assoc.
Qed.

(** The value of the last document that sets the attribute. *)
Definition setting {A} (get : Document → option A) (docs : list Document) : option A := list.last (omap get docs).

(** An attribute of documents: later documents override it. *)
Class Attribute {A} (get : Document → option A) := {
  attr_empty : get empty_document = None;
  attr_over m d : get (merge_document m d) = over (get m) (get d);
}.

Lemma attribute_last {A} (get : Document → option A) `{!Attribute get} docs :
  get (fold_left merge_document docs empty_document) = list.last (omap get docs).
Proof.
  induction docs as [|d docs IH] using rev_ind; [apply attr_empty|].
  rewrite fold_left_app. cbn [fold_left]. rewrite attr_over, IH, omap_app, last_app. cbn.
  by destruct (get d).
Qed.

(** The attributes of the blocks, and of the document. *)
Definition text_attributes : list (Document → option string) :=
  [λ d, dcSession d ≫= sdSecret;
   λ d, dcOIDC d ≫= odIssuer; λ d, dcOIDC d ≫= odClientID; λ d, dcOIDC d ≫= odClientSecret;
   λ d, dcOIDC d ≫= odDisplayName;
   λ d, dcSAML d ≫= mdEntityID; λ d, dcSAML d ≫= mdIDPMetadataURL; λ d, dcSAML d ≫= mdIDPMetadata;
   λ d, dcSAML d ≫= mdSPKey; λ d, dcSAML d ≫= mdSPCertificate; λ d, dcSAML d ≫= mdDisplayName;
   λ d, dcLDAP d ≫= ldURL; λ d, dcLDAP d ≫= ldCA; λ d, dcLDAP d ≫= ldBindDN;
   λ d, dcLDAP d ≫= ldBindPassword; λ d, dcLDAP d ≫= ldUserBaseDN; λ d, dcLDAP d ≫= ldUserFilter;
   λ d, dcLDAP d ≫= ldRealm; λ d, dcLDAP d ≫= ldDisplayName;
   λ d, dcJWT d ≫= jdIssuer; λ d, dcJWT d ≫= jdJWKSURL; dcPathPrefix].

Lemma text_attributes_ok : Forall (λ get, Attribute get) text_attributes.
Proof.
  unfold text_attributes. repeat (apply Forall_cons_iff; split); [..|by constructor];
    (split; [done|]; intros [s o m l j r p] [s' o' m' l' j' r' p']; cbn;
     try (destruct s' as [[]|]; destruct s as [[]|]; cbn; rewrite ?over_None_l; done);
     try (destruct o' as [[]|]; destruct o as [[]|]; cbn; rewrite ?over_None_l; done);
     try (destruct m' as [[]|]; destruct m as [[]|]; cbn; rewrite ?over_None_l; done);
     try (destruct l' as [[]|]; destruct l as [[]|]; cbn; rewrite ?over_None_l; done);
     try (destruct j' as [[]|]; destruct j as [[]|]; cbn; rewrite ?over_None_l; done)).
Qed.

Lemma requires_concat docs :
  dcRequires (fold_left merge_document docs empty_document) = docs ≫= dcRequires.
Proof.
  induction docs as [|d docs IH] using rev_ind; [done|].
  rewrite fold_left_app, bind_app. cbn. by rewrite IH, app_nil_r.
Qed.

(** A block of the merged document: each of its fields comes from the last
    document whose block sets it, and there is one when some document has
    one. *)
Lemma block_field {A B} (blk : Document → option B) (e : B) mg (f : B → option A) docs b :
  blk empty_document = None → (∀ m d, blk (merge_document m d) = over_block e mg (blk m) (blk d)) →
  (∀ m d, f (mg m d) = over (f m) (f d)) → f e = None →
  blk (fold_left merge_document docs empty_document) = Some b → f b = setting (λ d, blk d ≫= f) docs.
Proof.
  intros He Hm Hf Hfe Hb. unfold setting. rewrite <-attribute_last; [by rewrite Hb|]. split.
  - by rewrite He.
  - intros m d. rewrite Hm. destruct (blk d), (blk m); cbn; rewrite ?Hf, ?Hfe; by rewrite ?over_None_l.
Qed.

Lemma block_none {B} (blk : Document → option B) (e : B) mg docs :
  blk empty_document = None → (∀ m d, blk (merge_document m d) = over_block e mg (blk m) (blk d)) →
  blk (fold_left merge_document docs empty_document) = None ↔ ∀ d, d ∈ docs → blk d = None.
Proof.
  intros He Hm. induction docs as [|d docs IH] using rev_ind.
  { split; [by intros _ d ?%elem_of_nil|done]. }
  rewrite fold_left_app. cbn [fold_left]. rewrite Hm.
  assert (Hsplit : (∀ x, x ∈ docs ++ [d] → blk x = None) ↔ (∀ x, x ∈ docs → blk x = None) ∧ blk d = None).
  { setoid_rewrite elem_of_app. setoid_rewrite list_elem_of_singleton. naive_solver. }
  rewrite Hsplit. destruct (blk d); cbn; [naive_solver|]. rewrite IH. naive_solver.
Qed.

Lemma block_some {B} (blk : Document → option B) (e : B) mg docs b :
  blk empty_document = None → (∀ m d, blk (merge_document m d) = over_block e mg (blk m) (blk d)) →
  blk (fold_left merge_document docs empty_document) = Some b → ∃ d, d ∈ docs ∧ is_Some (blk d).
Proof.
  intros He Hm. revert b. induction docs as [|d docs IH] using rev_ind; intros b.
  { cbn. by rewrite He. }
  rewrite fold_left_app. cbn [fold_left]. rewrite Hm. destruct (blk d) as [x|] eqn:Hd.
  - intros _. exists d. split; [apply elem_of_app; right; left|by eexists].
  - cbn. intros (y & ? & ?)%IH. exists y. split; [|done]. apply elem_of_app. by left.
Qed.

(** The blocks as the documents together set them. *)
Definition last_session (docs : list Document) : SessionDoc :=
  mkSessionDoc (setting (λ d, dcSession d ≫= sdSecret) docs) (setting (λ d, dcSession d ≫= sdLifetime) docs).
Definition last_oidc (docs : list Document) : OIDCDoc :=
  mkOIDCDoc (setting (λ d, dcOIDC d ≫= odIssuer) docs) (setting (λ d, dcOIDC d ≫= odClientID) docs)
    (setting (λ d, dcOIDC d ≫= odClientSecret) docs) (setting (λ d, dcOIDC d ≫= odScopes) docs)
    (setting (λ d, dcOIDC d ≫= odDisplayName) docs).
Definition last_saml (docs : list Document) : SAMLDoc :=
  mkSAMLDoc (setting (λ d, dcSAML d ≫= mdEntityID) docs) (setting (λ d, dcSAML d ≫= mdIDPMetadataURL) docs)
    (setting (λ d, dcSAML d ≫= mdIDPMetadata) docs) (setting (λ d, dcSAML d ≫= mdSPKey) docs)
    (setting (λ d, dcSAML d ≫= mdSPCertificate) docs) (setting (λ d, dcSAML d ≫= mdAttributes) docs)
    (setting (λ d, dcSAML d ≫= mdDisplayName) docs).
Definition last_ldap (docs : list Document) : LDAPDoc :=
  mkLDAPDoc (setting (λ d, dcLDAP d ≫= ldURL) docs) (setting (λ d, dcLDAP d ≫= ldStartTLS) docs)
    (setting (λ d, dcLDAP d ≫= ldCA) docs) (setting (λ d, dcLDAP d ≫= ldBindDN) docs)
    (setting (λ d, dcLDAP d ≫= ldBindPassword) docs) (setting (λ d, dcLDAP d ≫= ldUserBaseDN) docs)
    (setting (λ d, dcLDAP d ≫= ldUserFilter) docs) (setting (λ d, dcLDAP d ≫= ldRealm) docs)
    (setting (λ d, dcLDAP d ≫= ldAttributes) docs) (setting (λ d, dcLDAP d ≫= ldGroupSearch) docs)
    (setting (λ d, dcLDAP d ≫= ldDisplayName) docs).
Definition last_jwt (docs : list Document) : JWTDoc :=
  mkJWTDoc (setting (λ d, dcJWT d ≫= jdIssuer) docs) (setting (λ d, dcJWT d ≫= jdAudiences) docs)
    (setting (λ d, dcJWT d ≫= jdJWKSURL) docs).

Ltac solve_fields blk e mg :=
  intros H; match goal with |- ?b = _ => destruct b eqn:Hb end;
  unfold last_session, last_oidc, last_saml, last_ldap, last_jwt;
  f_equal; match goal with |- _ = setting (λ d, _ d ≫= ?f) ?docs =>
    etrans; [|eapply (block_field blk e mg f docs); [done|done|done|done|exact H]]; done end.

Lemma session_last docs b :
  dcSession (fold_left merge_document docs empty_document) = Some b → b = last_session docs.
Proof. solve_fields dcSession no_session mergeSession. Qed.
Lemma oidc_last docs b : dcOIDC (fold_left merge_document docs empty_document) = Some b → b = last_oidc docs.
Proof. solve_fields dcOIDC no_oidc mergeOIDC. Qed.
Lemma saml_last docs b : dcSAML (fold_left merge_document docs empty_document) = Some b → b = last_saml docs.
Proof. solve_fields dcSAML no_saml mergeSAML. Qed.
Lemma ldap_last docs b : dcLDAP (fold_left merge_document docs empty_document) = Some b → b = last_ldap docs.
Proof. solve_fields dcLDAP no_ldap mergeLDAP. Qed.
Lemma jwt_last docs b : dcJWT (fold_left merge_document docs empty_document) = Some b → b = last_jwt docs.
Proof. solve_fields dcJWT no_jwt mergeJWT. Qed.

(** *** What a valid configuration is *)

Definition web_url (raw : string) : Prop :=
  ∃ scheme host, urlParse raw = Some (scheme, host) ∧ (scheme = "http" ∨ scheme = "https") ∧ host ≠ "".

(** A secret of 32 bytes, and the lifetime in milliseconds: twelve hours
    unless set. *)
Definition session_ok (doc : SessionDoc) (s : compiled.AuthSession) : Prop :=
  sdSecret doc = Some (compiled.asSecret s) ∧ 32 ≤ len (compiled.asSecret s) ∧
  compiled.asLifetimeMillis s = Z.quot (default 43200000000000%Z (sdLifetime doc)) 1000000.

Definition oidc_ok (doc : OIDCDoc) (o : compiled.AuthOIDC) : Prop :=
  ∃ issuer clientID, odIssuer doc = Some issuer ∧ web_url issuer ∧ odClientID doc = Some clientID ∧
    o = compiled.mkAuthOIDC (trimSuffix issuer "/") clientID (default "" (odClientSecret doc))
          (default [] (odScopes doc)) (default "" (odDisplayName doc)).

(** Metadata by URL or inline, and a key pair that loads. *)
Definition saml_ok (doc : SAMLDoc) (s : compiled.AuthSAML) : Prop :=
  ∃ entity key cert u url xml,
    mdEntityID doc = Some entity ∧ mdSPKey doc = Some key ∧ mdSPCertificate doc = Some cert ∧
    build.x509KeyPair cert key = Ok u ∧
    ((mdIDPMetadataURL doc = Some url ∧ web_url url ∧ mdIDPMetadata doc = None ∧ xml = "") ∨
     (mdIDPMetadataURL doc = None ∧ url = "" ∧ mdIDPMetadata doc = Some xml)) ∧
    s = compiled.mkAuthSAML entity url xml key cert (default ∅ (mdAttributes doc)) (default "" (mdDisplayName doc)).

(** Group searches name the user and what to read. *)
Definition group_search_ok (g : compiled.AuthGroupSearch) : Prop :=
  compiled.agBaseDN g ≠ "" ∧ compiled.agFilter g ≠ "" ∧ compiled.agAttribute g ≠ "" ∧
  (contains (compiled.agFilter g) "{dn}" = true ∨ contains (compiled.agFilter g) "{username}" = true).

Definition ldap_ok (doc : LDAPDoc) (l : compiled.AuthLDAP) : Prop :=
  ∃ url bindDN password base userFilter scheme host,
    ldURL doc = Some url ∧ ldBindDN doc = Some bindDN ∧ ldBindPassword doc = Some password ∧
    ldUserBaseDN doc = Some base ∧ ldUserFilter doc = Some userFilter ∧
    urlParse url = Some (scheme, host) ∧ (scheme = "ldap" ∨ scheme = "ldaps") ∧ host ≠ "" ∧
    (scheme = "ldaps" → default false (ldStartTLS doc) = false) ∧
    contains userFilter "{username}" = true ∧
    (∀ ca, ldCA doc = Some ca → validCAPem ca = true) ∧
    (∀ g, ldGroupSearch doc = Some g → group_search_ok g) ∧
    l = compiled.mkAuthLDAP url (default false (ldStartTLS doc)) (default "" (ldCA doc)) bindDN password base
          userFilter (default "" (ldRealm doc)) (default ∅ (ldAttributes doc)) (ldGroupSearch doc)
          (default "" (ldDisplayName doc)).

(** The key set by URL, or discovered from the issuer. *)
Definition jwt_ok (doc : JWTDoc) (j : compiled.AuthJWT) : Prop :=
  ∃ issuer audiences, jdIssuer doc = Some issuer ∧ jdAudiences doc = Some audiences ∧ audiences ≠ [] ∧
    match jdJWKSURL doc with Some url => web_url url | None => web_url issuer end ∧
    j = compiled.mkAuthJWT issuer audiences (default "" (jdJWKSURL doc)).

(** The provider is configured when some document has its block, and then as
    the documents set it. *)
Definition configured {B C} (blk : Document → option B) (docs : list Document) (ok : C → Prop) (o : option C) : Prop :=
  match o with
  | Some c => (∃ d, d ∈ docs ∧ is_Some (blk d)) ∧ ok c
  | None => ∀ d, d ∈ docs → blk d = None
  end.

Definition needs_session (cfg : compiled.Auth) : Prop :=
  is_Some (compiled.auOIDC cfg) ∨ is_Some (compiled.auSAML cfg) ∨ is_Some (compiled.auLDAP cfg).

(** The configuration the documents ask for, and what the data plane may rely
    on. *)
Record auth_config_ok (docs : list Document) (cfg : compiled.Auth) : Prop := {
  ac_provider : needs_session cfg ∨ is_Some (compiled.auJWT cfg);
  ac_session : configured dcSession docs (session_ok (last_session docs)) (compiled.auSession cfg);
  ac_cookies : needs_session cfg ↔ is_Some (compiled.auSession cfg);
  ac_oidc : configured dcOIDC docs (oidc_ok (last_oidc docs)) (compiled.auOIDC cfg);
  ac_saml : configured dcSAML docs (saml_ok (last_saml docs)) (compiled.auSAML cfg);
  ac_ldap : configured dcLDAP docs (ldap_ok (last_ldap docs)) (compiled.auLDAP cfg);
  ac_jwt : configured dcJWT docs (jwt_ok (last_jwt docs)) (compiled.auJWT cfg);
  ac_prefix : compiled.auPathPrefix cfg = default "/.krouter/auth" (setting dcPathPrefix docs);
  ac_requires : compiled.auAuthorization cfg = docs ≫= dcRequires;
}.

#[local] Arguments validCAPem : simpl never.

Lemma web_url_valid what raw u : validateHTTPURL what raw = Ok u → web_url raw.
Proof.
  unfold validateHTTPURL, web_url. destruct (urlParse raw) as [[scheme host]|]; [|done].
  intros [Hs Hh]%guard_err_Ok%andb_true_iff. apply negb_true_iff, bool_decide_eq_false in Hh. exists scheme, host. split; [done|]. split; [|done].
  apply orb_true_iff in Hs as [?%bool_decide_eq_true|?%bool_decide_eq_true]; auto.
Qed.

Lemma validateOIDC_Ok doc o : validateOIDC doc = Ok o → oidc_ok doc o.
Proof.
  unfold validateOIDC, oidc_ok. destruct (odIssuer doc) as [issuer|], (odClientID doc) as [clientID|]; try done.
  rewrite bind_Ok. intros (? & ?%web_url_valid & <-%(inj Ok)). eauto 10.
Qed.

Lemma validateSAML_Ok doc cfg : validateSAML doc = Ok cfg → saml_ok doc cfg.
Proof.
  unfold validateSAML, saml_ok. intros H. apply bind_Ok in H as (entity & He & H).
  apply bind_Ok in H as (? & Hc & H). apply bind_Ok in H as (? & Hu & H).
  destruct (mdEntityID doc); [|done]. apply (inj Ok) in He as ->.
  destruct (mdSPKey doc) as [key|], (mdSPCertificate doc) as [cert|]; try done.
  apply bind_Ok in H as (u & Hk & <-%(inj Ok)).
  assert (Hk' : build.x509KeyPair cert key = Ok u) by (destruct (build.x509KeyPair cert key); naive_solver).
  destruct (mdIDPMetadataURL doc) as [url|], (mdIDPMetadata doc) as [xml|]; try done.
  - apply web_url_valid in Hu. exists entity, key, cert, u, url, "". split_and!; try done. left. done.
  - exists entity, key, cert, u, "", xml. split_and!; try done. right. done.
Qed.

Lemma validateLDAP_Ok doc cfg : validateLDAP doc = Ok cfg → ldap_ok doc cfg.
Proof.
  unfold validateLDAP, ldap_ok.
  destruct (ldURL doc) as [url|], (ldBindDN doc) as [dn|], (ldBindPassword doc) as [pw|],
    (ldUserBaseDN doc) as [base|], (ldUserFilter doc) as [uf|]; try done.
  rewrite bind_Ok. intros ([scheme host] & Hparse & H).
  destruct (urlParse url) as [p|] eqn:Hp; [|done]. apply (inj Ok) in Hparse as ->.
  apply bind_Ok in H as (? & Hs%guard_err_Ok & H). apply bind_Ok in H as (? & Hf%guard_err_Ok & H).
  apply bind_Ok in H as (? & Ht%guard_err_Ok & H). apply bind_Ok in H as (? & Hca & H).
  apply bind_Ok in H as (? & Hg & <-%(inj Ok)).
  apply andb_true_iff in Hs as [Hs Hh]. apply negb_true_iff, bool_decide_eq_false in Hh.
  exists url, dn, pw, base, uf, scheme, host. split_and!; try done.
  - apply orb_true_iff in Hs as [?%bool_decide_eq_true|?%bool_decide_eq_true]; auto.
  - intros ->. rewrite bool_decide_eqb_refl in Ht. by destruct (default false (ldStartTLS doc)).
  - intros ca Hc. rewrite Hc in Hca. by apply guard_err_Ok in Hca.
  - intros g Hgs. rewrite Hgs in Hg. apply bind_Ok in Hg as (? & G1%guard_err_Ok & G2%guard_err_Ok).
    apply negb_true_iff in G1. apply orb_false_iff in G1 as [G1 G5]. apply orb_false_iff in G1 as [G3 G4].
    apply bool_decide_eq_false in G3, G4, G5. apply orb_true_iff in G2. done.
Qed.

Lemma validateJWT_Ok doc cfg : validateJWT doc = Ok cfg → jwt_ok doc cfg.
Proof.
  unfold validateJWT, jwt_ok. destruct (jdIssuer doc) as [issuer|]; [|done].
  rewrite bind_Ok. intros (? & Ha%guard_err_Ok & H).
  destruct (jdAudiences doc) as [[|a audiences]|]; try done. exists issuer, (a :: audiences).
  destruct (jdJWKSURL doc) as [url|]; apply bind_Ok in H as (? & ?%web_url_valid & <-%(inj Ok)); done.
Qed.

Lemma validateSession_Ok s required session :
  validateSession s required = Ok session →
  match session with
  | Some c => required = true ∧ ∃ doc, s = Some doc ∧ session_ok doc c
  | None => required = false ∧ s = None
  end.
Proof.
  unfold validateSession. destruct s as [[secret lifetime]|]; [|by destruct required; intros [= <-]].
  destruct required; [|done]. cbn [negb sdSecret]. destruct secret as [secret|]; [|done].
  destruct (Nat.ltb_spec (len secret) MinSessionSecretBytes) as [|Hl]; [done|].
  intros <-%(inj Ok). split; [done|]. eexists. split; [done|]. done.
Qed.

Lemma validate_provider_Ok {A B} (f : A → result DocError B) o b :
  validate_provider f o = Ok b →
  match b with Some x => ∃ a, o = Some a ∧ f a = Ok x | None => o = None end.
Proof.
  unfold validate_provider. destruct o as [a|]; [|by intros <-%(inj Ok)].
  rewrite bind_Ok. intros (x & Hx & <-%(inj Ok)). by exists a.
Qed.

(** A provider that validates is configured as the documents set it. *)
Lemma provider_configured {B C} (blk : Document → option B) e mg (last : list Document → B)
    (f : B → result DocError C) (ok : B → C → Prop) docs o :
  blk empty_document = None → (∀ m d, blk (merge_document m d) = over_block e mg (blk m) (blk d)) →
  (∀ b, blk (fold_left merge_document docs empty_document) = Some b → b = last docs) →
  (∀ b c, f b = Ok c → ok b c) →
  validate_provider f (blk (fold_left merge_document docs empty_document)) = Ok o →
  configured blk docs (ok (last docs)) o.
Proof.
  intros He Hm Hlast Hok Ho%validate_provider_Ok. destruct o as [c|]; [|exact (proj1 (block_none blk e mg docs He Hm) Ho)].
  destruct Ho as (b & Hb & Hf). split; [by eapply (block_some blk e mg)|].
  rewrite <-(Hlast b Hb). by apply Hok.
Qed.

Lemma Merge_requires docs cfg :
  Merge docs = Ok cfg → compiled.auAuthorization cfg = docs ≫= dcRequires.
Proof.
  unfold Merge, validate. intros H.
  repeat (apply bind_Ok in H as (? & _ & H)). apply (inj Ok) in H as <-. apply requires_concat.
Qed.

Lemma Merge_ok docs cfg : Merge docs = Ok cfg → auth_config_ok docs cfg.
Proof.
  intros Hm. pose proof (Merge_requires _ _ Hm) as Hreq. revert Hm. unfold Merge, validate.
  rewrite bind_Ok. intros (oidc & Hoidc & H).
  apply bind_Ok in H as (saml & Hsaml & H). apply bind_Ok in H as (ldap & Hldap & H).
  apply bind_Ok in H as (jwt & Hjwt & H). apply bind_Ok in H as (u & Hp%guard_err_Ok & H).
  apply bind_Ok in H as (session & Hs & <-%(inj Ok)).
  assert (Hc : bool_decide (is_Some oidc) || bool_decide (is_Some saml) || bool_decide (is_Some ldap) = true ↔
      is_Some oidc ∨ is_Some saml ∨ is_Some ldap).
  { rewrite !orb_true_iff, !bool_decide_eq_true. tauto. }
  apply validateSession_Ok in Hs. split; unfold needs_session; cbn.
  - rewrite orb_true_iff, Hc, bool_decide_eq_true in Hp. done.
  - destruct session as [s|]; 
      [|exact (proj1 (block_none dcSession no_session mergeSession docs eq_refl (λ _ _, eq_refl)) (proj2 Hs))].
    destruct Hs as (_ & doc & Hd & Hok). split; [by eapply (block_some dcSession no_session mergeSession)|].
    by rewrite <-(session_last _ _ Hd).
  - rewrite <-Hc. destruct session as [s|]; destruct Hs as [-> _]; split; done.
  - by eapply (provider_configured dcOIDC no_oidc mergeOIDC last_oidc); eauto using oidc_last, validateOIDC_Ok.
  - by eapply (provider_configured dcSAML no_saml mergeSAML last_saml); eauto using saml_last, validateSAML_Ok.
  - by eapply (provider_configured dcLDAP no_ldap mergeLDAP last_ldap); eauto using ldap_last, validateLDAP_Ok.
  - by eapply (provider_configured dcJWT no_jwt mergeJWT last_jwt); eauto using jwt_last, validateJWT_Ok.
  - unfold DefaultPathPrefix, setting. f_equal. apply attribute_last. by split.
  - done.
Qed.

(** What parsing ensures of one document. *)
Lemma Parse_authored_ok src d :
  Parse src = Ok d →
  (∀ s ns, dcSession d = Some s → sdLifetime s = Some ns → (0 < ns)%Z) ∧
  (∀ prefix, dcPathPrefix d = Some prefix → prefix_ok prefix = true) ∧
  (∀ r, r ∈ dcRequires d → compiled.arClaim r ≠ "" ∧ compiled.arValues r ≠ []).
Proof.
  unfold Parse. rewrite bind_Ok. intros (raw & _ & H). apply bind_Ok in H as (? & _ & H).
  apply bind_Ok in H as (auth & _ & H). apply bind_Ok in H as (session & Hs & H).
  apply bind_Ok in H as (doc & Hd & H). apply bind_Ok in H as (requires & Hr & H).
  apply bind_Ok in H as (? & Hp & <-%(inj Ok)). cbn [dcSession dcPathPrefix dcRequires].
  assert (Hsess : dcSession doc = session).
  { refine (foldM_inv (λ d, dcSession d = session) _ _ _ _ _ _ Hd); [done|].
    intros d p d' _ Hx. unfold decodeProvider. cbv zeta.
    repeat case_bool_decide; rewrite ?bind_Ok; try done;
      intros (? & _ & Hy); apply bind_Ok in Hy as (? & _ & <-%(inj Ok)); exact Hx. }
  split_and!.
  - rewrite Hsess. intros s ns -> Hl. unfold parse_session in Hs. destruct (haSession auth) as [hs|]; [|done].
    destruct (hsLifetime hs) as [text|]; [|by injection Hs as <-].
    destruct (parseDuration text) as [n|]; [|done]. destruct (Z.ltb_spec 0 n); [|done]. by simplify_eq/=.
  - intros prefix Hx. rewrite Hx in Hp. by apply guard_err_Ok in Hp.
  - destruct (haRequires auth) as [rs|]; [|injection Hr as <-; by intros r ?%elem_of_nil].
    refine (foldM_inv (λ l, ∀ r, r ∈ l → compiled.arClaim r ≠ "" ∧ compiled.arValues r ≠ []) _ _ _ _ _ _ Hr);
      [by intros r ?%elem_of_nil|].
    intros acc r acc' _ Hacc. unfold require_step. destruct (_ || _) eqn:Ho; [done|].
    intros <-%(inj Ok) q [?| ->%list_elem_of_singleton]%elem_of_app; [by apply Hacc|]. cbn.
    apply orb_false_iff in Ho as [Ho1%bool_decide_eq_false Ho2]. split; [done|]. by intros He; rewrite He in Ho2.
Qed.

End documents.

(** ** Properties *)

(** Merging documents takes for every attribute the last document that sets it,
    nested blocks as a unit, and concatenates the requirements. *)
Theorem merge_last_wins docs :
  let merged := fold_left merge_document docs empty_document in
  Forall (λ get, get merged = list.last (omap get docs)) text_attributes ∧
  dcRequires merged = docs ≫= dcRequires ∧
  ∀ docs1 docs2, docs = docs1 ++ docs2 →
    merged = merge_document (fold_left merge_document docs1 empty_document)
               (fold_left merge_document docs2 empty_document).
Proof.
  split; [|split; [apply requires_concat|intros docs1 docs2 ->; by rewrite fold_left_app, merge_fold]].
  pose proof text_attributes_ok as H. induction H as [|get gets Hget _ IH]; constructor; [|done].
  by apply attribute_last.
Qed.

(** C24: Parsed authentication documents that merge give the configuration they
    ask for: a provider is configured exactly when some document has its block,
    every field from the last document that sets it; OpenID Connect has a client
    ID and an http or https issuer, SAML an entity ID, a loadable key pair and
    metadata inline or by such a URL, LDAP an ldap or ldaps URL without StartTLS
    on top of TLS, a bind account, a filter naming the user, a CA that parses
    and complete group searches, JWT an issuer, audiences and such a URL for its
    keys; a session with a secret of at least 32 bytes is there exactly when a
    provider needs cookies, lasting the whole milliseconds of a positive
    duration (none for one under a millisecond); the path prefix is well formed
    and requirements are complete and all kept. *)
Theorem merged_auth_ok {k8s : Kubernetes} {libs : build.Libraries} {hcl : HCL} docs cfg :
  (∀ d, d ∈ docs → ∃ src, Parse src = Ok d) → Merge docs = Ok cfg →
  auth_config_ok docs cfg ∧
  (∀ s, compiled.auSession cfg = Some s → ∃ ns, (0 < ns)%Z ∧ compiled.asLifetimeMillis s = Z.quot ns 1000000) ∧
  (hasPrefix (compiled.auPathPrefix cfg) "/" = true ∧ compiled.auPathPrefix cfg ≠ "/" ∧
   hasSuffix (compiled.auPathPrefix cfg) "/" = false) ∧
  (∀ r, r ∈ compiled.auAuthorization cfg → compiled.arClaim r ≠ "" ∧ compiled.arValues r ≠ []).
Proof.
  intros Hparsed Hm. pose proof (Merge_ok _ _ Hm) as [_ Hsess _ _ _ _ _ Hpre Hreq].
  pose proof (Merge_ok _ _ Hm) as Hok. split; [done|].
  assert (Hlast : ∀ A (get : Document → option A) v, setting get docs = Some v →
    ∃ src d, Parse src = Ok d ∧ get d = Some v).
  { intros A get v Hv. apply last_Some_elem_of, list_elem_of_omap in Hv as (d & Hd & Hg).
    destruct (Hparsed d Hd) as [src Hs]. eauto. }
  split; [|split].
  - intros s Hs. rewrite Hs in Hsess. destruct Hsess as [_ (_ & _ & ->)].
    destruct (sdLifetime (last_session docs)) as [ns|] eqn:Hl; [|by exists 43200000000000%Z].
    exists ns. split; [|done]. cbn in Hl. apply Hlast in Hl as (src & d & Hp & Hg).
    destruct (dcSession d) as [sd|] eqn:Hsd; [|done]. by eapply (Parse_authored_ok src d Hp).
  - rewrite Hpre. destruct (setting dcPathPrefix docs) as [prefix|] eqn:Hx; [|done].
    apply Hlast in Hx as (src & d & Hp & Hg). destruct (Parse_authored_ok src d Hp) as (_ & Hpp & _).
    specialize (Hpp prefix Hg). unfold prefix_ok in Hpp. cbn.
    apply negb_true_iff, orb_false_iff in Hpp as [[H1 H2]%orb_false_iff H3].
    apply negb_false_iff in H1. by apply bool_decide_eq_false in H2.
  - rewrite Hreq. intros r (d & Hr & Hd)%list_elem_of_bind. destruct (Hparsed d Hd) as [src Hs].
    by apply (Parse_authored_ok src d Hs).
Qed.

(** A merged auth configuration builds an enforcer in the data plane: every
    provider constructor accepts it, unless inline SAML metadata does not parse,
    which the control plane does not check. *)
Theorem merged_auth_builds {k8s : Kubernetes} {libs : build.Libraries} {hcl : HCL} docs cfg :
  (∀ pem, validCAPem pem = true → build.appendCertsFromPEM pem = true) →
  (∀ cert key u, build.x509KeyPair cert key = Ok u → ∃ v, build.samlSigner cert key = Ok v) →
  Merge docs = Ok cfg →
  (∃ e, build.NewEnforcer cfg = Ok e) ∨
  ∃ saml err, compiled.auSAML cfg = Some saml ∧ compiled.asmIDPMetadata saml ≠ "" ∧
    build.parseMetadata (compiled.asmIDPMetadata saml) = Err err.
Proof.
  intros Hca Hsign [_ _ _ _ Hsaml Hldap _ _ _]%Merge_ok. unfold build.NewEnforcer.
  assert (match compiled.auLDAP cfg with
          | Some ldap => map_err (λ e, "ldap provider: " +:+ e) (build.NewLDAPProvider ldap)
          | None => Ok tt
          end = Ok tt) as ->.
  { destruct (compiled.auLDAP cfg) as [ldap|]; [|done]. unfold build.NewLDAPProvider.
    destruct Hldap as [_ (? & ? & ? & ? & ? & ? & ? & _ & _ & _ & _ & _ & _ & _ & _ & _ & _ & Hc & _ & ->)].
    cbn [compiled.alCA]. destruct (ldCA _) as [ca|]; [|done]. cbn. by rewrite Hca, andb_false_r by auto. }
  destruct (compiled.auSAML cfg) as [saml|]; [|left; by eexists].
  destruct Hsaml as [_ (? & key & cert & u & url & xml & _ & _ & _ & Hu & _ & ->)]. destruct (Hsign _ _ _ Hu) as [v Hv].
  unfold build.NewSAMLProvider. cbn [compiled.asmSPCertPEM compiled.asmSPKeyPEM compiled.asmIDPMetadata].
  rewrite Hu, Hv. cbn. case_bool_decide as Hm; [left; by eexists|]. cbn.
  destruct (build.parseMetadata _) as [|err] eqn:Hp; [left; by eexists|right; by eexists _, err].
Qed.

(** ** Examples *)

(** Documents named by their text. *)
Definition ex_docs (src : string) : result string hclDocument :=
  if (src == "base") then
    Ok (mkHclDocument 1 (Some (mkHclAuth (Some (mkHclSession (Some "0123456789abcdef0123456789abcdef") None))
          [mkHclProvider "oidc" "b"; mkHclProvider "saml" "b"] None None)))
  else if (src == "team") then
    Ok (mkHclDocument 1 (Some (mkHclAuth None [mkHclProvider "oidc" "t"]
          (Some [mkHclRequire "groups" ["team"]]) (Some "/login"))))
  else Err "syntax error".

Definition ex_hcl : HCL := {|
  decodeDocument := ex_docs;
  decodeOIDC body :=
    if (body == "b") then Ok (mkOIDCDoc (Some "https://idp/") (Some "krouter") None None None)
    else Ok (mkOIDCDoc None (Some "team") None None None);
  decodeSAML _ := Ok (mkHclSAML (Some "sp") None (Some "<broken>") (Some "K") (Some "C") None None);
  decodeLDAP _ := Err "no schema";
  decodeJWT _ := Err "no schema";
  decodeWaf src := if (src == "") then Err "empty" else Ok (mkHclWaf 1 (Some src));
  decodeRateLimit src :=
    if (src == "") then Err "empty"
    else Ok (ratelimiting.mkHclDocument 1
               (Some (ratelimiting.mkHclRateLimit (Some 5%Z) (Some "1s") None None None)));
  urlParse u := if hasPrefix u "https://" then Some ("https", sdrop 8 u) else None;
|}.

Definition ex_parsed : list Document :=
  let k8s := ex_k8s ∅ ∅ in let libs := build.ex_libs in let hcl := ex_hcl in
  omap (λ src, match Parse src with Ok d => Some d | Err _ => None end) ["base"; "team"].

Definition ex_auth : compiled.Auth :=
  let k8s := ex_k8s ∅ ∅ in let libs := build.ex_libs in let hcl := ex_hcl in
  match Merge ex_parsed with
  | Ok cfg => cfg
  | Err _ => compiled.mkAuth "" "" None None None None None []
  end.

Example ex_auth_merged :
  compiled.auPathPrefix ex_auth = "/login" ∧
  (compiled.aoClientID <$> compiled.auOIDC ex_auth) = Some "team" ∧
  (compiled.aoIssuer <$> compiled.auOIDC ex_auth) = Some "https://idp".
Proof. vm_compute. done. Qed.

Lemma merged_auth_ok_witness :
  let k8s := ex_k8s ∅ ∅ in let libs := build.ex_libs in let hcl := ex_hcl in auth_config_ok ex_parsed ex_auth.
Proof.
  intros k8s libs hcl. apply (@merged_auth_ok k8s libs ex_hcl ex_parsed ex_auth).
  - intros d (src & _ & Hs)%list_elem_of_omap. exists src. by destruct (Parse src); simplify_eq.
  - vm_compute. reflexivity.
Defined.

Definition ex_strict_libs : build.Libraries :=
  let l := build.ex_libs in
  build.Build_Libraries (@build.x509KeyPair l) (@build.samlSigner l) (λ _, true)
    (@build.parseCertificate l) (@build.verifyChain l) (@build.verifyHostname l) (@build.newWAF l)
    (λ s, if (s == "<broken>") then Err "EOF" else Ok tt)
    (@build.decodeAuth l) (@build.decodeGatewayConfig l) (@build.decodeRouteConfig l).

Lemma merged_auth_builds_witness :
  let libs := ex_strict_libs in
  (∃ e, build.NewEnforcer ex_auth = Ok e) ∨
  ∃ saml err, compiled.auSAML ex_auth = Some saml ∧ compiled.asmIDPMetadata saml ≠ "" ∧
    build.parseMetadata (compiled.asmIDPMetadata saml) = Err err.
Proof.
  intros libs. apply (@merged_auth_builds (ex_k8s ∅ ∅) libs ex_hcl ex_parsed ex_auth).
  - done.
  - intros cert key u H. exists u. exact H.
  - vm_compute. reflexivity.
Defined.

(** The control plane accepts inline metadata the data plane cannot parse:
    the rule resolves its references and every request is answered 500. *)
Theorem broken_metadata_accepted :
  ∃ (k8s : Kubernetes) (libs : build.Libraries) (hcl : HCL) docs cfg err,
    Merge docs = Ok cfg ∧ build.NewEnforcer cfg = Err err.
Proof.
  exists (ex_k8s ∅ ∅), ex_strict_libs, ex_hcl, ex_parsed, ex_auth. eexists.
  split; vm_compute; reflexivity.
Qed.

End authdoc.
