(* ===== verification/WafDoc.v ===== *)
(** * WAF documents

    Models [internal/extensions/waf/waf.go]: parsing one document and
    concatenating the fragments that reach a rule. *)

From S2P Require Import Prelude GoStrings Compiled Build AuthDoc.
From stdpp Require Import options.

#[local] Open Scope nat_scope.

Module wafdoc.
Import authdoc.

Section wafdoc.
Context {hcl : HCL}.

Definition Parse (src : string) : result DocError string :=
  raw ← map_err DecodeError (decodeWaf src);
  _ ← guard_err (hwVersion raw =? 1)%Z (UnsupportedVersion (hwVersion raw));
  directives ← of_option MissingWafBlock (hwDirectives raw);
  _ ← guard_err (trimSpace directives != "") EmptyDirectives;
  Ok directives.

Definition Concat (docs : list string) : string := joinWith (String "010" "") docs.

End wafdoc.
End wafdoc.
