(* ===== verification/Extensions.v ===== *)
(** * Extension references

    Models [internal/lib/k8s/gatewayapi/extensions.go]: the ExtensionRef
    filters of one rule resolved into its rate limit, WAF program and
    authentication, or into a rule that fails closed. *)

From S2P Require Import Prelude GoStrings Sha256 Compiled Build RateLimit GatewayTypes References.
From S2P Require Import AuthDoc WafDoc.
From stdpp Require Import options.

#[local] Open Scope nat_scope.

Module extensions.
Import gatewayv1 gatewayapi references authdoc.

Definition reasonInvalidExtensionRef := "InvalidExtensionRef".

Record ruleExtensions := mkRuleExtensions {
  exRateLimit : option compiled.RateLimit;
  exWAF : string;
  exAuth : option compiled.Auth;
  exInvalid : bool;
}.

Definition no_extensions : ruleExtensions := mkRuleExtensions None "" None false.

(** [json.Marshal] of the payloads, and the text of errors in messages. *)
Class Encoding := {
  marshalAuth : compiled.Auth → result string string;
  docErrorText : DocError → string;
  rateErrorText : ratelimiting.ParseError → string;
}.

(** ** Outcome updates *)

Definition degrade (reason message : string) (o : routeParentOutcome) : routeParentOutcome :=
  mkOutcome (roRoute o) (roParentRef o) (roAccepted o) (roAcceptedReason o) false reason message
    (roConfig o) (roAuthDocs o).

Definition put_auth_doc (identity payload : string) (o : routeParentOutcome) : routeParentOutcome :=
  mkOutcome (roRoute o) (roParentRef o) (roAccepted o) (roAcceptedReason o) (roRefsResolved o)
    (roRefsReason o) (roRefsMessage o) (roConfig o) (<[identity := payload]> (roAuthDocs o)).

(** How the loop over the references ends early: the reference is not
    supported, or its target is broken. *)
Inductive Stop := UnsupportedKind (group kind : string) | Broken (message : string).

Record Collected := mkCollected {
  clRateLimit : list ratelimiting.Document;
  clWAF : list string;
  clAuth : list Document;
  clSecretUIDs : list string;
}.

Section extensions.
Context {k8s : Kubernetes} {libs : build.Libraries} {hcl : HCL} {enc : Encoding}.

Definition has {A} (m : gmap string A) (key : string) : bool := bool_decide (is_Some (m !! key)).

Definition collect_secret (w : world) (namespace name : string) (acc : Collected) : result Stop Collected :=
  let subject := "extension Secret " +:+ nsName namespace name in
  match wExtensionSecret w namespace name with
  | Err err => Err (Broken (subject +:+ ": " +:+ err))
  | Ok secret =>
      let data := corev1.scData secret in
      if has data compiled.RateLimitKey
      then Err (Broken (subject +:+ " carries " +:+ compiled.RateLimitKey +:+
                        ": enforcement keys live in ConfigMaps"))
      else if has data compiled.WAFKey
      then Err (Broken (subject +:+ " carries " +:+ compiled.WAFKey +:+
                        ": enforcement keys live in ConfigMaps"))
      else match data !! compiled.AuthKey with
      | None => Err (Broken (subject +:+ " carries no " +:+ compiled.AuthKey))
      | Some src =>
          match authdoc.Parse src with
          | Err err => Err (Broken (subject +:+ ": invalid " +:+ compiled.AuthKey +:+ ": " +:+
                                    docErrorText err))
          | Ok doc => Ok (mkCollected (clRateLimit acc) (clWAF acc) (clAuth acc ++ [doc])
                            (clSecretUIDs acc ++ [omUID (corev1.scMeta secret)]))
          end
      end
  end.

Definition collect_rate_limit (subject : string) (src : option string) (acc : Collected) :
    result Stop Collected :=
  match src with
  | None => Ok acc
  | Some src =>
      match ratelimiting.Parse decodeRateLimit parseDuration src with
      | Err err => Err (Broken (subject +:+ ": invalid " +:+ compiled.RateLimitKey +:+ ": " +:+
                                rateErrorText err))
      | Ok doc => Ok (mkCollected (clRateLimit acc ++ [doc]) (clWAF acc) (clAuth acc) (clSecretUIDs acc))
      end
  end.

Definition collect_waf (subject : string) (src : option string) (acc : Collected) :
    result Stop Collected :=
  match src with
  | None => Ok acc
  | Some src =>
      match wafdoc.Parse src with
      | Err err => Err (Broken (subject +:+ ": invalid " +:+ compiled.WAFKey +:+ ": " +:+
                                docErrorText err))
      | Ok doc => Ok (mkCollected (clRateLimit acc) (clWAF acc ++ [doc]) (clAuth acc) (clSecretUIDs acc))
      end
  end.

Definition collect_configmap (w : world) (namespace name : string) (acc : Collected) :
    result Stop Collected :=
  let subject := "extension ConfigMap " +:+ nsName namespace name in
  match wExtensionCM w namespace name with
  | Err err => Err (Broken (subject +:+ ": " +:+ err))
  | Ok cm =>
      let data := corev1.cmData cm in
      if has data compiled.AuthKey
      then Err (Broken (subject +:+ " carries " +:+ compiled.AuthKey +:+
                        ": authentication lives in Secrets"))
      else if negb (has data compiled.RateLimitKey) && negb (has data compiled.WAFKey)
      then Err (Broken (subject +:+ " carries neither " +:+ compiled.RateLimitKey +:+ " nor " +:+
                        compiled.WAFKey))
      else
        acc ← collect_rate_limit subject (data !! compiled.RateLimitKey) acc;
        collect_waf subject (data !! compiled.WAFKey) acc
  end.

Definition collect (w : world) (namespace : string) (acc : Collected) (ref : LocalObjectReference) :
    result Stop Collected :=
  if (lrGroup ref != "") || ((lrKind ref != "ConfigMap") && (lrKind ref != "Secret"))
  then Err (UnsupportedKind (lrGroup ref) (lrKind ref))
  else if (lrKind ref == "Secret") then collect_secret w namespace (lrName ref) acc
  else collect_configmap w namespace (lrName ref) acc.

Definition merged_invalid (key text : string) : Stop := Broken ("merged " +:+ key +:+ " invalid: " +:+ text).

(** The three merges, each skipped when no document asks for it. *)
Definition merge_rate_limit (docs : list ratelimiting.Document) : result Stop (option compiled.RateLimit) :=
  if (length docs =? 0) then Ok None
  else match ratelimiting.Merge docs with
       | Ok config => Ok (Some config)
       | Err err => Err (merged_invalid compiled.RateLimitKey (rateErrorText err))
       end.

Definition merge_waf (docs : list string) : result Stop string :=
  if (length docs =? 0) then Ok ""
  else match build.NewEngine (wafdoc.Concat docs) with
       | Ok _ => Ok (wafdoc.Concat docs)
       | Err err => Err (Broken ("concatenated " +:+ compiled.WAFKey +:+ " invalid: " +:+ err))
       end.

Definition jwt_only (config : compiled.Auth) : bool :=
  negb (bool_decide (is_Some (compiled.auOIDC config)) || bool_decide (is_Some (compiled.auSAML config)) ||
        bool_decide (is_Some (compiled.auLDAP config))).

Definition with_identity (identity : string) (a : compiled.Auth) : compiled.Auth :=
  compiled.mkAuth identity (compiled.auPathPrefix a) (compiled.auSession a) (compiled.auOIDC a)
    (compiled.auSAML a) (compiled.auLDAP a) (compiled.auJWT a) (compiled.auAuthorization a).

(** The compiled authentication and its payload. *)
Definition merge_auth (docs : list Document) (uids : list string) (grpcRoute : bool) :
    result Stop (option (compiled.Auth * string)) :=
  if (length docs =? 0) then Ok None
  else match authdoc.Merge docs with
  | Err err => Err (merged_invalid compiled.AuthKey (docErrorText err))
  | Ok config =>
      if grpcRoute && negb (jwt_only config)
      then Err (merged_invalid compiled.AuthKey "only the jwt provider is valid on GRPCRoute rules")
      else
        let config := with_identity (compiled.AuthIdentity uids) config in
        match marshalAuth config with
        | Err err => Err (merged_invalid compiled.AuthKey err)
        | Ok payload => Ok (Some (config, payload))
        end
  end.

Definition resolve_extensions (w : world) (namespace : string) (refs : list LocalObjectReference)
    (grpcRoute : bool) :
    result Stop (option compiled.RateLimit * string * option (compiled.Auth * string)) :=
  docs ← foldM (collect w namespace) (mkCollected [] [] [] []) refs;
  rateLimit ← merge_rate_limit (clRateLimit docs);
  waf ← merge_waf (clWAF docs);
  auth ← merge_auth (clAuth docs) (clSecretUIDs docs) grpcRoute;
  Ok (rateLimit, waf, auth).

(** [Err] rejects the route; a broken target invalidates the rule. *)
Definition compileExtensions (w : world) (namespace : string) (refs : list LocalObjectReference)
    (grpcRoute : bool) (o : routeParentOutcome) :
    result (string * string) ruleExtensions * routeParentOutcome :=
  if (length refs =? 0) then (Ok no_extensions, o)
  else match resolve_extensions w namespace refs grpcRoute with
  | Err (UnsupportedKind group kind) => (Err (group, kind), o)
  | Err (Broken message) =>
      (Ok (mkRuleExtensions None "" None true), degrade reasonInvalidExtensionRef message o)
  | Ok (rateLimit, waf, auth) =>
      (Ok (mkRuleExtensions rateLimit waf (fst <$> auth) false),
       match auth with
       | Some (config, payload) => put_auth_doc (compiled.auIdentity config) payload o
       | None => o
       end)
  end.

(** ** Specification *)

(** The documents of one key of an object: none, or the one it parses to. *)
Definition parsed {E A} (data : gmap string string) (key : string) (parse : string → result E A)
    (docs : list A) : Prop :=
  match data !! key with
  | None => docs = []
  | Some src => ∃ doc, parse src = Ok doc ∧ docs = [doc]
  end.

(** What a reference asks for: the authentication document of a Secret, the
    rate limit and the firewall program of a ConfigMap, no document in an
    object of the other kind. *)
Inductive asked (w : world) (namespace : string) (ref : LocalObjectReference) : Collected → Prop :=
  | asked_secret secret src doc :
      lrGroup ref = "" → lrKind ref = "Secret" →
      wExtensionSecret w namespace (lrName ref) = Ok secret →
      corev1.scData secret !! "ratelimit.hcl" = None → corev1.scData secret !! "waf.hcl" = None →
      corev1.scData secret !! "auth.hcl" = Some src → authdoc.Parse src = Ok doc →
      asked w namespace ref (mkCollected [] [] [doc] [omUID (corev1.scMeta secret)])
  | asked_configmap cm rate waf :
      lrGroup ref = "" → lrKind ref = "ConfigMap" →
      wExtensionCM w namespace (lrName ref) = Ok cm →
      corev1.cmData cm !! "auth.hcl" = None →
      is_Some (corev1.cmData cm !! "ratelimit.hcl") ∨ is_Some (corev1.cmData cm !! "waf.hcl") →
      parsed (corev1.cmData cm) "ratelimit.hcl" (ratelimiting.Parse decodeRateLimit parseDuration) rate →
      parsed (corev1.cmData cm) "waf.hcl" wafdoc.Parse waf →
      asked w namespace ref (mkCollected rate waf [] []).

(** The rate limit of documents in order: for each setting the last document
    that sets it, or its default. *)
Definition limit_of (docs : list ratelimiting.Document) (cfg : compiled.RateLimit) : Prop :=
  list.last (omap ratelimiting.dRequests docs) = Some (compiled.rlRequests cfg) ∧
  (∃ w, list.last (omap ratelimiting.dWindow docs) = Some w ∧
        compiled.rlWindowMillis cfg = ratelimiting.Milliseconds w) ∧
  compiled.rlBurst cfg = default (compiled.rlRequests cfg) (list.last (omap ratelimiting.dBurst docs)) ∧
  compiled.rlKey cfg = default "client_ip" (list.last (omap ratelimiting.dKey docs)) ∧
  compiled.rlStatus cfg = default 429%Z (list.last (omap ratelimiting.dStatus docs)).

(** The authentication of documents in order: their merge, every claim any of
    them requires included, named after the Secrets they come from. *)
Definition auth_of (docs : list Document) (uids : list string) (cfg : compiled.Auth) : Prop :=
  (∃ base, authdoc.Merge docs = Ok base ∧ cfg = with_identity (compiled.AuthIdentity uids) base) ∧
  compiled.auAuthorization cfg = docs ≫= dcRequires.

(** Everything the references ask for, in order, is in the extensions. *)
Definition enforced (w : world) (namespace : string) (refs : list LocalObjectReference)
    (ext : ruleExtensions) : Prop :=
  ∃ parts, Forall2 (asked w namespace) refs parts ∧
    let rates := parts ≫= clRateLimit in
    let programs := parts ≫= clWAF in
    let auths := parts ≫= clAuth in
    match exRateLimit ext with
    | None => rates = []
    | Some cfg => limit_of rates cfg
    end ∧
    exWAF ext = joinWith (String "010" "") programs ∧ Forall (λ p, p ≠ "") programs ∧
    match exAuth ext with
    | None => auths = []
    | Some cfg => auth_of auths (parts ≫= clSecretUIDs) cfg
    end.

(** ** Lemmas *)

Definition add (a b : Collected) : Collected :=
  mkCollected (clRateLimit a ++ clRateLimit b) (clWAF a ++ clWAF b) (clAuth a ++ clAuth b)
    (clSecretUIDs a ++ clSecretUIDs b).

Lemma has_false {A} (m : gmap string A) k : has m k = false ↔ m !! k = None.
Proof. unfold has. rewrite bool_decide_eq_false. symmetry. apply eq_None_not_Some. Qed.

Lemma collect_rate_limit_Ok subject data acc acc' :
  collect_rate_limit subject (data !! compiled.RateLimitKey) acc = Ok acc' ↔
  ∃ rate, parsed data "ratelimit.hcl" (ratelimiting.Parse decodeRateLimit parseDuration) rate ∧
    acc' = add acc (mkCollected rate [] [] []).
Proof.
  unfold collect_rate_limit, parsed, add. change compiled.RateLimitKey with "ratelimit.hcl".
  destruct (data !! "ratelimit.hcl") as [text|]; cbn.
  - destruct (ratelimiting.Parse _ _ text) as [doc|] eqn:Hp; [|naive_solver].
    split; [intros <-%(inj Ok); exists [doc]; rewrite !app_nil_r; eauto|].
    intros (? & (? & [= <-] & ->) & ->). by rewrite !app_nil_r.
  - split; [intros <-%(inj Ok); exists []; rewrite !app_nil_r; by destruct acc|].
    intros (? & -> & ->). rewrite !app_nil_r. by destruct acc.
Qed.

Lemma collect_waf_Ok subject data acc acc' :
  collect_waf subject (data !! compiled.WAFKey) acc = Ok acc' ↔
  ∃ waf, parsed data "waf.hcl" wafdoc.Parse waf ∧ acc' = add acc (mkCollected [] waf [] []).
Proof.
  unfold collect_waf, parsed, add. change compiled.WAFKey with "waf.hcl".
  destruct (data !! "waf.hcl") as [text|]; cbn.
  - destruct (wafdoc.Parse text) as [doc|] eqn:Hp; [|naive_solver].
    split; [intros <-%(inj Ok); exists [doc]; rewrite !app_nil_r; eauto|].
    intros (? & (? & [= <-] & ->) & ->). by rewrite !app_nil_r.
  - split; [intros <-%(inj Ok); exists []; rewrite !app_nil_r; by destruct acc|].
    intros (? & -> & ->). rewrite !app_nil_r. by destruct acc.
Qed.

Lemma collect_secret_Ok w ns acc ref acc' :
  lrGroup ref = "" → lrKind ref = "Secret" →
  collect_secret w ns (lrName ref) acc = Ok acc' ↔ ∃ part, asked w ns ref part ∧ acc' = add acc part.
Proof.
  intros Hg Hk. unfold collect_secret. cbn zeta. split.
  - destruct (wExtensionSecret w ns (lrName ref)) as [secret|] eqn:He; [|done].
    destruct (has _ compiled.RateLimitKey) eqn:H1; [done|]. apply has_false in H1.
    destruct (has _ compiled.WAFKey) eqn:H2; [done|]. apply has_false in H2.
    destruct (corev1.scData secret !! compiled.AuthKey) as [src|] eqn:Hd; [|done].
    destruct (authdoc.Parse src) as [doc|] eqn:Hp; [|done]. intros <-%(inj Ok).
    eexists. split; [by eapply asked_secret|]. unfold add. cbn. by rewrite !app_nil_r.
  - intros (part & [secret src doc _ _ He H1%has_false H2%has_false Hd Hp|cm rate waf _ Hk' _ _ _ _ _] & ->); [|congruence].
    rewrite He. change compiled.RateLimitKey with "ratelimit.hcl". change compiled.WAFKey with "waf.hcl".
    change compiled.AuthKey with "auth.hcl". rewrite H1, H2, Hd, Hp. unfold add. cbn. by rewrite !app_nil_r.
Qed.

Lemma collect_configmap_Ok w ns acc ref acc' :
  lrGroup ref = "" → lrKind ref = "ConfigMap" →
  collect_configmap w ns (lrName ref) acc = Ok acc' ↔ ∃ part, asked w ns ref part ∧ acc' = add acc part.
Proof.
  intros Hg Hk. unfold collect_configmap. cbn zeta.
  assert (∀ rate waf, add (add acc (mkCollected rate [] [] [])) (mkCollected [] waf [] []) =
    add acc (mkCollected rate waf [] [])) as Hadd by (intros; unfold add; cbn; by rewrite !app_nil_r).
  split.
  - destruct (wExtensionCM w ns (lrName ref)) as [cm|] eqn:He; [|done].
    destruct (has _ compiled.AuthKey) eqn:H1; [done|]. apply has_false in H1. destruct (negb (has _ _) && _) eqn:Hn; [done|].
    rewrite bind_Ok. intros (acc1 & (rate & Hr & ->)%collect_rate_limit_Ok & (waf & Hw & ->)%collect_waf_Ok).
    exists (mkCollected rate waf [] []). split; [|apply Hadd]. eapply asked_configmap; try done.
    apply andb_false_iff in Hn as [?%negb_false_iff%bool_decide_eq_true|?%negb_false_iff%bool_decide_eq_true]; auto.
  - intros (part & [secret src doc _ Hk' _ _ _ _ _|cm rate waf _ _ He H1%has_false Hn Hr Hw] & ->); [congruence|].
    rewrite He. change compiled.AuthKey with "auth.hcl". rewrite H1.
    replace (negb _ && _) with false.
    2:{ symmetry. apply andb_false_iff. rewrite !negb_false_iff. unfold has. rewrite !bool_decide_eq_true. apply Hn. }
    rewrite bind_Ok. exists (add acc (mkCollected rate [] [] [])).
    split; [apply collect_rate_limit_Ok; eauto|]. apply collect_waf_Ok. exists waf. by rewrite Hadd.
Qed.

Lemma collect_Ok w ns acc ref acc' :
  collect w ns acc ref = Ok acc' ↔ ∃ part, asked w ns ref part ∧ acc' = add acc part.
Proof.
  unfold collect. destruct (decide (lrGroup ref = "" ∧ (lrKind ref = "Secret" ∨ lrKind ref = "ConfigMap"))) as [[Hg Hk]|Hn].
  - rewrite (bool_decide_true (lrGroup ref = "")) by done. destruct Hk as [Hk|Hk]; rewrite Hk.
    + by apply collect_secret_Ok.
    + by apply collect_configmap_Ok.
  - replace ((lrGroup ref != "") || _) with true.
    + split; [done|]. intros (part & [] & _); naive_solver.
    + symmetry. apply orb_true_iff. rewrite andb_true_iff, !negb_true_iff, !bool_decide_eq_false.
      destruct (decide (lrGroup ref = "")); naive_solver.
Qed.

Lemma collect_all_Ok w ns refs acc docs :
  foldM (collect w ns) acc refs = Ok docs ↔
  ∃ parts, Forall2 (asked w ns) refs parts ∧ docs = fold_left add parts acc.
Proof.
  revert acc. induction refs as [|ref refs IH]; intros acc; cbn [foldM].
  { split; [intros <-%(inj Ok); exists []; split; [constructor|done]|].
    by intros (parts & ->%Forall2_nil_inv_l & ->). }
  rewrite bind_Ok. setoid_rewrite collect_Ok. setoid_rewrite IH. split.
  - intros (acc1 & (part & Ha & ->) & parts & Hp & ->). exists (part :: parts). split; [by constructor|done].
  - intros (parts & (part & parts' & Ha & Hp & ->)%Forall2_cons_inv_l & ->). eauto 10.
Qed.

Lemma fold_add parts acc :
  fold_left add parts acc = add acc (mkCollected (parts ≫= clRateLimit) (parts ≫= clWAF) (parts ≫= clAuth)
    (parts ≫= clSecretUIDs)).
Proof.
  revert acc. induction parts as [|p parts IH]; intros acc; cbn.
  - unfold add. cbn. rewrite !app_nil_r. by destruct acc.
  - rewrite IH. unfold add. cbn. by rewrite <-!app_assoc.
Qed.

Lemma collected_from w ns refs docs :
  foldM (collect w ns) (mkCollected [] [] [] []) refs = Ok docs ↔
  ∃ parts, Forall2 (asked w ns) refs parts ∧
    docs = mkCollected (parts ≫= clRateLimit) (parts ≫= clWAF) (parts ≫= clAuth) (parts ≫= clSecretUIDs).
Proof. rewrite collect_all_Ok. by setoid_rewrite fold_add. Qed.

Lemma AuthIdentity_nonempty uids : compiled.AuthIdentity uids ≠ "".
Proof.
  intros E. apply (f_equal len) in E. unfold compiled.AuthIdentity in E.
  rewrite len_stake, len_sha256_hex in E. done.
Qed.

Lemma wafdoc_nonempty src doc : wafdoc.Parse src = Ok doc → doc ≠ "".
Proof.
  unfold wafdoc.Parse. intros H. repeat (apply bind_Ok in H as (? & ? & H)).
  apply (inj Ok) in H as <-. intros ->. by repeat match goal with
    | Hg : guard_err _ _ = Ok _ |- _ => apply guard_err_Ok in Hg end.
Qed.

Lemma programs_nonempty w ns refs parts :
  Forall2 (asked w ns) refs parts → Forall (λ p, p ≠ "") (parts ≫= clWAF).
Proof.
  induction 1 as [|ref part refs parts Ha _ IH]; cbn; [constructor|]. apply Forall_app. split; [|done].
  destruct Ha as [|cm rate waf _ _ _ _ _ _ Hw]; cbn; [constructor|]. unfold parsed in Hw.
  destruct (_ !! _); [|subst; constructor]. destruct Hw as (doc & Hp & ->). constructor; [|constructor].
  by eapply wafdoc_nonempty.
Qed.

Lemma merge_rate_limit_Ok docs rl :
  merge_rate_limit docs = Ok rl → match rl with None => docs = [] | Some cfg => limit_of docs cfg end.
Proof.
  unfold merge_rate_limit. destruct (length docs =? 0) eqn:Hl.
  { intros <-%(inj Ok). by apply Nat.eqb_eq, length_zero_iff_nil in Hl. }
  destruct (ratelimiting.Merge docs) as [cfg|] eqn:Hm; [|done]. intros <-%(inj Ok).
  apply ratelimiting.Merge_last in Hm. unfold limit_of. naive_solver.
Qed.

Lemma merge_waf_Ok docs waf : merge_waf docs = Ok waf → waf = joinWith (String "010" "") docs.
Proof.
  unfold merge_waf. destruct (length docs =? 0) eqn:Hl.
  { apply Nat.eqb_eq, length_zero_iff_nil in Hl as ->. by intros <-%(inj Ok). }
  destruct (build.NewEngine _); [|done]. by intros <-%(inj Ok).
Qed.

Lemma merge_auth_Ok docs uids grpc auth :
  merge_auth docs uids grpc = Ok auth →
  match auth with
  | None => docs = []
  | Some (cfg, payload) =>
      auth_of docs uids cfg ∧ compiled.auIdentity cfg ≠ "" ∧
      (grpc = true → jwt_only cfg = true) ∧ marshalAuth cfg = Ok payload
  end.
Proof.
  unfold merge_auth. destruct (length docs =? 0) eqn:Hl.
  { intros <-%(inj Ok). by apply Nat.eqb_eq, length_zero_iff_nil in Hl. }
  destruct (authdoc.Merge docs) as [cfg|] eqn:Hm; [|done].
  destruct (grpc && _) eqn:Hg; [done|]. cbn zeta.
  destruct (marshalAuth _) as [payload|] eqn:Hp; [|done]. intros <-%(inj Ok).
  split; [split; [by exists cfg|by apply Merge_requires in Hm]|]. split; [apply AuthIdentity_nonempty|]. split; [|done].
  intros ->. cbn in Hg. by apply negb_false_iff in Hg.
Qed.

Lemma enforced_nil w ns : enforced w ns [] no_extensions.
Proof. exists []. split; [constructor|]. cbn. split_and!; try done. Qed.

Lemma resolve_extensions_Ok w ns refs grpc rl waf auth :
  resolve_extensions w ns refs grpc = Ok (rl, waf, auth) →
  enforced w ns refs (mkRuleExtensions rl waf (fst <$> auth) false) ∧
  ∀ cfg payload, auth = Some (cfg, payload) →
    compiled.auIdentity cfg ≠ "" ∧ (grpc = true → jwt_only cfg = true) ∧ marshalAuth cfg = Ok payload.
Proof.
  unfold resolve_extensions. rewrite bind_Ok. intros (docs & (parts & Hp & ->)%collected_from & H).
  apply bind_Ok in H as (rl' & Hrl%merge_rate_limit_Ok & H). apply bind_Ok in H as (waf' & Hwaf%merge_waf_Ok & H).
  apply bind_Ok in H as (auth' & Hauth%merge_auth_Ok & H). injection H as -> -> ->. cbn in Hrl, Hwaf, Hauth.
  split; [|intros cfg payload ->; by destruct Hauth as (_ & ? & ? & ?)].
  exists parts. split; [done|]. cbn. split_and!; [done|done|by eapply programs_nonempty|].
  destruct auth as [[cfg payload]|]; cbn; [|done]. by destruct Hauth.
Qed.

(** Why extensions cannot be resolved: a reference asks for nothing that can be
    read, or what the references ask for does not merge. *)
Lemma resolve_extensions_Err w ns refs grpc e parts :
  resolve_extensions w ns refs grpc = Err e → Forall2 (asked w ns) refs parts →
  (∃ err, merge_rate_limit (parts ≫= clRateLimit) = Err err) ∨ (∃ err, merge_waf (parts ≫= clWAF) = Err err) ∨
  (∃ err, merge_auth (parts ≫= clAuth) (parts ≫= clSecretUIDs) grpc = Err err).
Proof.
  intros H Hp. unfold resolve_extensions in H.
  assert (foldM (collect w ns) (mkCollected [] [] [] []) refs =
    Ok (mkCollected (parts ≫= clRateLimit) (parts ≫= clWAF) (parts ≫= clAuth) (parts ≫= clSecretUIDs))) as Hf
    by (apply collected_from; eauto).
  rewrite Hf in H. cbn in H.
  destruct (merge_rate_limit _); cbn in H; [|eauto]. destruct (merge_waf _); cbn in H; [|eauto].
  destruct (merge_auth _ _ _); cbn in H; [done|eauto].
Qed.

End extensions.

(** ** Properties *)

(** C10: The extension references of a rule, in their order, are all enforced:
    the documents each one stores are read, the rate limit takes for every
    setting the last document that sets it, the WAF program is all programs in
    order one per line, the authentication is the merge of all documents with
    every required claim, only JWT on gRPC rules, stored under its identity; or
    the rule carries nothing and is marked to fail closed with the condition
    degraded, and then some reference could not be read or the documents could
    not be merged. *)
Theorem no_enforcement_dropped {k8s : Kubernetes} {libs : build.Libraries} {hcl : HCL} {enc : Encoding}
    w ns refs grpc o ext o' :
  compileExtensions w ns refs grpc o = (Ok ext, o') →
  if exInvalid ext
  then ext = mkRuleExtensions None "" None true ∧ roRefsResolved o' = false ∧
       roRefsReason o' = "InvalidExtensionRef" ∧ roAuthDocs o' = roAuthDocs o ∧
       ∀ parts, Forall2 (asked w ns) refs parts →
         (∃ err, merge_rate_limit (parts ≫= clRateLimit) = Err err) ∨
         (∃ err, merge_waf (parts ≫= clWAF) = Err err) ∨
         (∃ err, merge_auth (parts ≫= clAuth) (parts ≫= clSecretUIDs) grpc = Err err)
  else enforced w ns refs ext ∧ roRefsResolved o' = roRefsResolved o ∧
       match exAuth ext with
       | Some cfg => compiled.auIdentity cfg ≠ "" ∧ (grpc = true → jwt_only cfg = true) ∧
           ∃ payload, marshalAuth cfg = Ok payload ∧
             roAuthDocs o' = <[compiled.auIdentity cfg := payload]> (roAuthDocs o)
       | None => o' = o
       end.
Proof.
  unfold compileExtensions. destruct (length refs =? 0) eqn:Hl.
  { intros [= <- <-]. apply Nat.eqb_eq, length_zero_iff_nil in Hl as ->. cbn.
    split; [|done]. apply enforced_nil. }
  destruct (resolve_extensions w ns refs grpc) as [[[rl waf] auth]|[g k|m]] eqn:Hr; [|done|].
  2: { intros [= <- <-]. cbn. split_and!; try done. intros parts. by eapply resolve_extensions_Err. }
  intros [= <- <-]. apply resolve_extensions_Ok in Hr as [He Ha]. cbn. split; [done|].
  destruct auth as [[cfg payload]|]; cbn; [|done].
  destruct (Ha cfg payload eq_refl) as (? & ? & ?). split; [done|]. split_and!; try done. by exists payload.
Qed.

(** ** Examples *)

Definition ex_enc : Encoding := {|
  marshalAuth a := Ok ("AUTH " +:+ compiled.auIdentity a);
  docErrorText _ := "document error";
  rateErrorText _ := "rate limit error";
|}.

Definition ex_meta (name : string) : ObjectMeta := mkObjectMeta "apps" name (name +:+ "-uid") 100 1 ∅.

Definition ex_ext_world : world :=
  mkWorld [] [] [] [] [] [] [] [] ∅ [] [] [] ∅ ∅ [] [] []
    (λ ns name, if (nsName ns name == "apps/limits")
       then Ok (corev1.mkConfigMap (ex_meta name)
                  (list_to_map [("ratelimit.hcl", "rl"); ("waf.hcl", "SecRuleEngine On")]))
       else Err "not found")
    (λ ns name, if (nsName ns name == "apps/sso")
       then Ok (corev1.mkSecret (ex_meta name) {[ "auth.hcl" := "base" ]})
       else Err "not found") EmptyAckState "".

Definition ex_refs : list LocalObjectReference :=
  [mkLocalRef "" "Secret" "sso"; mkLocalRef "" "ConfigMap" "limits"].

Definition ex_outcome : routeParentOutcome :=
  mkOutcome (AttachedHTTP (mkHTTPRoute (ex_meta "r") [] [] [])) (mkParentRef None None None "gw" None None)
    false "" true "ResolvedRefs" "" None ∅.

Definition ex_compiled (grpc : bool) : result (string * string) ruleExtensions * routeParentOutcome :=
  let k8s := ex_k8s ∅ ∅ in let libs := build.ex_libs in let hcl := ex_hcl in let enc := ex_enc in
  compileExtensions ex_ext_world "apps" ex_refs grpc ex_outcome.

Definition ex_ext : ruleExtensions :=
  match (ex_compiled false).1 with Ok e => e | Err _ => no_extensions end.

(** The redirect providers of the document break a GRPCRoute rule. *)
Example ex_grpc_invalid : (exInvalid <$> (ex_compiled true).1) = Ok true.
Proof. vm_compute. reflexivity. Qed.

Lemma no_enforcement_dropped_witness :
  let k8s := ex_k8s ∅ ∅ in let libs := build.ex_libs in let hcl := ex_hcl in
  exInvalid ex_ext = false ∧ enforced ex_ext_world "apps" ex_refs ex_ext.
Proof.
  intros k8s libs hcl. assert (Hv : exInvalid ex_ext = false) by (vm_compute; reflexivity).
  split; [exact Hv|].
  assert (Hc : ex_compiled false = (Ok ex_ext, (ex_compiled false).2)) by (vm_compute; reflexivity).
  pose proof (@no_enforcement_dropped k8s libs hcl ex_enc ex_ext_world "apps" ex_refs false ex_outcome
                ex_ext (ex_compiled false).2 Hc) as T.
  rewrite Hv in T. exact (proj1 T).
Defined.

End extensions.
