(* ===== verification/Compile.v ===== *)
(** * Compiling route rules

    Models the rule half of [internal/lib/k8s/gatewayapi/compile.go]:
    matches, filters, timeouts, mirrors and backends of HTTP and gRPC
    rules.  The functions share the outcome of the attachment: a backend
    that does not resolve degrades it and stays in the rule, an unsupported
    value rejects the route.  The computation is a small state and error
    monad whose state survives errors, as the shared pointer does.  The
    float of a mirror percentage is kept as an exact rational. *)

From S2P Require Import Prelude GoStrings Compiled Build RateLimit GatewayTypes References.
From S2P Require Import Listeners BackendTLS AuthDoc Extensions.
From Stdlib Require Import QArith.QArith_base.
From stdpp Require Import options.

#[local] Close Scope Q_scope.
#[local] Open Scope nat_scope.

Module compile.
Import gatewayv1 gatewayapi references listeners backendtls extensions.

Inductive CompileError :=
  | UnsupportedMatchType (what ty : string)
  | MethodWithoutService
  | MissingValue (field : string)
  | UnsupportedFilter (ty : string)
  | UnsupportedPathModifier (ty : string)
  | UnsupportedExtension (group kind : string)
  | InvalidTimeout (which : string)
  | BackendTimeoutExceedsRequest
  | InvalidDenominator.

(** ** The monad *)

Definition CM (A : Type) : Type :=
  routeParentOutcome → result CompileError A * routeParentOutcome.

#[global] Instance cm_ret : MRet CM := λ A a o, (Ok a, o).
#[global] Instance cm_bind : MBind CM := λ A B f m o,
  match m o with
  | (Ok a, o') => f a o'
  | (Err e, o') => (Err e, o')
  end.

Definition throw {A} (e : CompileError) : CM A := λ o, (Err e, o).
Definition lift {A} (r : result CompileError A) : CM A := λ o, (r, o).
Definition update (f : routeParentOutcome → routeParentOutcome) : CM unit := λ o, (Ok tt, f o).
Definition get : CM routeParentOutcome := λ o, (Ok o, o).

Fixpoint forC {A B} (f : A → CM B) (l : list A) : CM (list B) :=
  match l with
  | [] => mret []
  | a :: l => b ← f a; bs ← forC f l; mret (b :: bs)
  end.

(** A value the filter's type requires. *)
Definition required {A} (field : string) (o : option A) : result CompileError A :=
  of_option (MissingValue field) o.

(** ** Matches *)

Definition exact_only (what : string) (ty : option string) : result CompileError unit :=
  match ty with
  | Some t => guard_err (t == "Exact") (UnsupportedMatchType what t)
  | None => Ok tt
  end.

Definition header_match (hs : list compiled.HeaderMatch) (h : NamedMatch) :
    result CompileError (list compiled.HeaderMatch) :=
  _ ← exact_only "header" (nmType h);
  Ok (hs ++ [compiled.mkHeaderMatch (nmName h) (nmValue h)]).

Definition query_match (qs : list compiled.QueryParamMatch) (q : NamedMatch) :
    result CompileError (list compiled.QueryParamMatch) :=
  _ ← exact_only "query parameter" (nmType q);
  Ok (qs ++ [compiled.mkQueryParamMatch (nmName q) (nmValue q)]).

Definition compileHTTPMatch (m : HTTPRouteMatch) : result CompileError compiled.Match :=
  path ← match hmPath m with
         | None => Ok ("", "")
         | Some p =>
             _ ← match pmType p with
                 | Some t => guard_err ((t == "Exact") || (t == "PathPrefix"))
                               (UnsupportedMatchType "path" t)
                 | None => Ok tt
                 end;
             Ok (default "" (pmType p), default "" (pmValue p))
         end;
  headers ← foldM header_match [] (hmHeaders m);
  params ← foldM query_match [] (hmQueryParams m);
  Ok (compiled.mkMatch path.1 path.2 (default "" (hmMethod m)) headers params).

Definition grpc_path (m : option GRPCMethodMatch) : result CompileError (string * string) :=
  match m with
  | None => Ok ("", "")
  | Some m =>
      _ ← exact_only "method" (mmType m);
      let service := default "" (mmService m) in
      let method := default "" (mmMethod m) in
      if (service != "") && (method != "") then Ok ("Exact", "/" +:+ service +:+ "/" +:+ method)
      else if (service != "") then Ok ("PathPrefix", "/" +:+ service)
      else Err MethodWithoutService
  end.

Definition grpc_match (m : GRPCRouteMatch) : result CompileError compiled.Match :=
  path ← grpc_path (gmMethod m);
  headers ← foldM header_match [] (gmHeaders m);
  Ok (compiled.mkMatch path.1 path.2 "" headers []).

(** ** Filters *)

Definition zero_filter (ty : string) : compiled.Filter :=
  compiled.mkFilter ty ∅ ∅ [] None "" "" 0 0 "" "" "" None None.

Definition compileHeaderModifier (ty : string) (m : HTTPHeaderFilter) : compiled.Filter :=
  let put (acc : gmap string string) (h : HTTPHeader) := <[hhName h := hhValue h]> acc in
  compiled.mkFilter ty (fold_left put (hfSet m) ∅) (fold_left put (hfAdd m) ∅) (hfRemove m)
    None "" "" 0 0 "" "" "" None None.

Definition compileCORS (c : HTTPCORSFilter) : compiled.Filter :=
  let cors := compiled.mkCORS (coAllowOrigins c) (coAllowMethods c) (coAllowHeaders c)
    (coExposeHeaders c) (default false (coAllowCredentials c))
    (if (0 <? coMaxAge c)%Z then coMaxAge c else 5%Z) in
  compiled.mkFilter compiled.FilterCORS ∅ ∅ [] (Some cors) "" "" 0 0 "" "" "" None None.

Definition compileBackendHeaderFilter (ty : string) (request response : option HTTPHeaderFilter) :
    result CompileError compiled.Filter :=
  if (ty == compiled.FilterRequestHeaderModifier) then
    m ← required "requestHeaderModifier" request; Ok (compileHeaderModifier ty m)
  else if (ty == compiled.FilterResponseHeaderModifier) then
    m ← required "responseHeaderModifier" response; Ok (compileHeaderModifier ty m)
  else Err (UnsupportedFilter ty).

Fixpoint rulePathPrefix (matches : list HTTPRouteMatch) : string :=
  match matches with
  | [] => "/"
  | m :: matches =>
      match hmPath m with
      | Some p =>
          match pmValue p, pmType p with
          | Some value, None => value
          | Some value, Some t => if (t == "PathPrefix") then value else rulePathPrefix matches
          | None, _ => rulePathPrefix matches
          end
      | None => rulePathPrefix matches
      end
  end.

(** Type, value and captured prefix of a path replacement. *)
Definition compilePathModifier (m : option HTTPPathModifier) (matches : list HTTPRouteMatch) :
    result CompileError (string * string * string) :=
  match m with
  | None => Ok ("", "", "")
  | Some m =>
      if (pmdType m == "ReplaceFullPath") then
        v ← required "replaceFullPath" (pmdReplaceFullPath m); Ok ("ReplaceFullPath", v, "")
      else if (pmdType m == "ReplacePrefixMatch") then
        v ← required "replacePrefixMatch" (pmdReplacePrefixMatch m);
        Ok ("ReplacePrefixMatch", v, rulePathPrefix matches)
      else Err (UnsupportedPathModifier (pmdType m))
  end.

Definition compile_redirect (r : HTTPRequestRedirectFilter) (matches : list HTTPRouteMatch) :
    result CompileError compiled.Filter :=
  path ← compilePathModifier (rdPath r) matches;
  Ok (compiled.mkFilter compiled.FilterRequestRedirect ∅ ∅ [] None (default "" (rdScheme r))
        (default "" (rdHostname r)) (default 0%Z (rdPort r)) (default 302%Z (rdStatusCode r))
        path.1.1 path.1.2 path.2 None None).

Definition compile_rewrite (r : HTTPURLRewriteFilter) (matches : list HTTPRouteMatch) :
    result CompileError compiled.Filter :=
  path ← compilePathModifier (rwPath r) matches;
  Ok (compiled.mkFilter compiled.FilterURLRewrite ∅ ∅ [] None "" (default "" (rwHostname r)) 0 0
        path.1.1 path.1.2 path.2 None None).

(** ** Backends *)

Definition find_port (svc : corev1.Service) (p : corev1.ServicePort → bool) : option corev1.ServicePort :=
  head (filter (λ sp, p sp = true) (corev1.svPorts svc)).

Definition servicePortName (w : world) (namespace name : string) (port : Z) : string :=
  match wServices w !! nsName namespace name with
  | None => ""
  | Some svc => default "" (corev1.spName <$> find_port svc (λ sp, (corev1.spPort sp =? port)%Z))
  end.

Definition servicePortAppProtocol (w : world) (namespace name : string) (port : Z) : string :=
  match wServices w !! nsName namespace name with
  | None => ""
  | Some svc =>
      default "" (find_port svc (λ sp, (corev1.spPort sp =? port)%Z &&
                                       bool_decide (is_Some (corev1.spAppProtocol sp)))
                  ≫= corev1.spAppProtocol)
  end.

(** The first failure of a route is the one its condition reports. *)
Definition degrade_once (reason message : string) (o : routeParentOutcome) : routeParentOutcome :=
  if roRefsResolved o then degrade reason message o else o.

Definition service_text (namespace name : string) : string := "Service " +:+ nsName namespace name.

(** The reason and message of [invalidate], if any. *)
Definition backend_fault (w : world) (routeNamespace routeKind : string) (ref : BackendObjectReference) :
    option (string * string) :=
  let namespace := default routeNamespace (brNamespace ref) in
  let name := brName ref in
  if negb (kind_is "Service" (brKind ref)) || negb (kind_is "" (brGroup ref))
  then Some ("InvalidKind", "backendRefs must reference core Services")
  else if (default 0%Z (brPort ref) =? 0)%Z
  then Some ("UnsupportedValue", "backendRefs to Services require a port")
  else if (namespace != routeNamespace) &&
          negb (referenceGrantAllows (wGrants w) GroupName routeKind routeNamespace
                  "Service" namespace name)
  then Some ("RefNotPermitted", "reference to " +:+ service_text namespace name +:+
                                " not permitted by any ReferenceGrant")
  else match wServices w !! nsName namespace name with
       | None => Some ("BackendNotFound", service_text namespace name +:+ " not found")
       | Some _ => None
       end.

Definition compileBackend (w : world) (routeNamespace routeKind : string) (ref : BackendRef) :
    CM compiled.Backend :=
  let obj := brObject ref in
  let namespace := default routeNamespace (brNamespace obj) in
  let port := default 0%Z (brPort obj) in
  let weight := default 1%Z (brWeight ref) in
  match backend_fault w routeNamespace routeKind obj with
  | Some (reason, message) =>
      _ ← update (degrade_once reason message);
      mret (compiled.mkBackend namespace (brName obj) port weight false reason "" [] None)
  | None =>
      mret (compiled.mkBackend namespace (brName obj) port weight true ""
              (servicePortAppProtocol w namespace (brName obj) port) []
              (backendTLSFor w namespace (brName obj) (servicePortName w namespace (brName obj) port)))
  end.

Definition with_backend_filters (fs : list compiled.Filter) (b : compiled.Backend) : compiled.Backend :=
  compiled.mkBackend (compiled.bNamespace b) (compiled.bName b) (compiled.bPort b) (compiled.bWeight b)
    (compiled.bValid b) (compiled.bInvalidReason b) (compiled.bAppProtocol b) fs (compiled.bTLS b).

Definition mirror_percent (m : HTTPRequestMirrorFilter) : result CompileError (option Q) :=
  match miFraction m with
  | Some f =>
      let denominator := default 100%Z (frDenominator f) in
      if (denominator <=? 0)%Z then Err InvalidDenominator
      else Ok (Some (Qmult (Qdiv (inject_Z (frNumerator f)) (inject_Z denominator)) (inject_Z 100)))
  | None => Ok (inject_Z <$> miPercent m)
  end.

(** [None] is a mirror dropped because its target does not resolve. *)
Definition compileMirror (w : world) (routeNamespace routeKind : string) (m : HTTPRequestMirrorFilter) :
    CM (option compiled.Filter) :=
  backend ← compileBackend w routeNamespace routeKind (mkBackendRef (miBackendRef m) None);
  if negb (compiled.bValid backend) then mret None
  else
    percent ← lift (mirror_percent m);
    mret (Some (compiled.mkFilter compiled.FilterRequestMirror ∅ ∅ [] None "" "" 0 0 "" "" ""
                  (Some backend) percent)).

Definition keep (r : result CompileError compiled.Filter) : CM (option compiled.Filter) :=
  f ← lift r; mret (Some f).

Definition compileHTTPFilter (w : world) (routeNamespace routeKind : string) (rule : HTTPRouteRule)
    (filter : HTTPRouteFilter) : CM (option compiled.Filter) :=
  let ty := flType filter in
  if (ty == compiled.FilterRequestHeaderModifier) then
    keep (m ← required "requestHeaderModifier" (flRequestHeaderModifier filter);
          Ok (compileHeaderModifier ty m))
  else if (ty == compiled.FilterResponseHeaderModifier) then
    keep (m ← required "responseHeaderModifier" (flResponseHeaderModifier filter);
          Ok (compileHeaderModifier ty m))
  else if (ty == compiled.FilterCORS) then
    keep (c ← required "cors" (flCORS filter); Ok (compileCORS c))
  else if (ty == compiled.FilterRequestRedirect) then
    keep (r ← required "requestRedirect" (flRequestRedirect filter); compile_redirect r (hrMatches rule))
  else if (ty == compiled.FilterURLRewrite) then
    keep (r ← required "urlRewrite" (flURLRewrite filter); compile_rewrite r (hrMatches rule))
  else if (ty == compiled.FilterRequestMirror) then
    m ← lift (required "requestMirror" (flRequestMirror filter));
    compileMirror w routeNamespace routeKind m
  else throw (UnsupportedFilter ty).

Definition compileGRPCFilter (w : world) (routeNamespace : string) (filter : GRPCRouteFilter) :
    CM (option compiled.Filter) :=
  let ty := gflType filter in
  if (ty == compiled.FilterRequestHeaderModifier) then
    keep (m ← required "requestHeaderModifier" (gflRequestHeaderModifier filter);
          Ok (compileHeaderModifier ty m))
  else if (ty == compiled.FilterResponseHeaderModifier) then
    keep (m ← required "responseHeaderModifier" (gflResponseHeaderModifier filter);
          Ok (compileHeaderModifier ty m))
  else if (ty == compiled.FilterRequestMirror) then
    m ← lift (required "requestMirror" (gflRequestMirror filter));
    compileMirror w routeNamespace "GRPCRoute" m
  else throw (UnsupportedFilter ty).

(** ** Timeouts *)

Section rules.
Context {k8s : Kubernetes} {libs : build.Libraries} {hcl : authdoc.HCL} {enc : Encoding}.

Definition parse_timeout (which text : string) : result CompileError Z :=
  match parseDuration text with
  | Some d => if (d <? 0)%Z then Err (InvalidTimeout which) else Ok (ratelimiting.Milliseconds d)
  | None => Err (InvalidTimeout which)
  end.

(** The request and backend timeouts in milliseconds; zero is none. *)
Definition compileTimeouts (t : option HTTPRouteTimeouts) : result CompileError (Z * Z) :=
  match t with
  | None => Ok (0, 0)%Z
  | Some t =>
      request ← match toRequest t with Some s => parse_timeout "request" s | None => Ok 0%Z end;
      backend ← match toBackendRequest t with
                | Some s =>
                    b ← parse_timeout "backendRequest" s;
                    _ ← guard_err (negb ((0 <? request)%Z && (request <? b)%Z))
                          BackendTimeoutExceedsRequest;
                    Ok b
                | None => Ok 0%Z
                end;
      Ok (request, backend)
  end.

(** ** Rules *)

(** A filter of the rule: compiled, or collected as a reference. *)
Inductive RuleFilter := Compiled (f : option compiled.Filter) | Reference (r : LocalObjectReference).

Definition http_rule_filter (w : world) (namespace : string) (rule : HTTPRouteRule)
    (f : HTTPRouteFilter) : CM RuleFilter :=
  if (flType f == "ExtensionRef") then
    r ← lift (required "extensionRef" (flExtensionRef f)); mret (Reference r)
  else
    c ← compileHTTPFilter w namespace "HTTPRoute" rule f; mret (Compiled c).

Definition grpc_rule_filter (w : world) (namespace : string) (f : GRPCRouteFilter) : CM RuleFilter :=
  if (gflType f == "ExtensionRef") then
    r ← lift (required "extensionRef" (gflExtensionRef f)); mret (Reference r)
  else
    c ← compileGRPCFilter w namespace f; mret (Compiled c).

Definition kept_filters (fs : list RuleFilter) : list compiled.Filter :=
  omap (λ f, match f with Compiled c => c | Reference _ => None end) fs.
Definition references_of (fs : list RuleFilter) : list LocalObjectReference :=
  omap (λ f, match f with Reference r => Some r | Compiled _ => None end) fs.

Definition rule_extensions (w : world) (namespace : string) (refs : list LocalObjectReference)
    (grpcRoute : bool) : CM ruleExtensions := λ o,
  let '(r, o) := compileExtensions w namespace refs grpcRoute o in
  (match r with Ok ext => Ok ext | Err (group, kind) => Err (UnsupportedExtension group kind) end, o).

Definition http_backend (w : world) (namespace : string) (ref : HTTPBackendRef) : CM compiled.Backend :=
  backend ← compileBackend w namespace "HTTPRoute" (hbRef ref);
  fs ← forC (λ f, lift (compileBackendHeaderFilter (flType f) (flRequestHeaderModifier f)
                          (flResponseHeaderModifier f))) (hbFilters ref);
  mret (with_backend_filters fs backend).

Definition grpc_backend (w : world) (namespace : string) (ref : GRPCBackendRef) : CM compiled.Backend :=
  backend ← compileBackend w namespace "GRPCRoute" (gbRef ref);
  fs ← forC (λ f, lift (compileBackendHeaderFilter (gflType f) (gflRequestHeaderModifier f)
                          (gflResponseHeaderModifier f))) (gbFilters ref);
  mret (with_backend_filters fs backend).

Definition auth_identity (ext : ruleExtensions) : string :=
  default "" (compiled.auIdentity <$> exAuth ext).

(** One rule of [compileRoute]. *)
Definition compile_http_rule (w : world) (namespace : string) (rule : HTTPRouteRule) : CM compiled.Rule :=
  matches ← forC (λ m, lift (compileHTTPMatch m)) (hrMatches rule);
  fs ← forC (http_rule_filter w namespace rule) (hrFilters rule);
  ext ← rule_extensions w namespace (references_of fs) false;
  timeouts ← lift (compileTimeouts (hrTimeouts rule));
  backends ← forC (http_backend w namespace) (hrBackendRefs rule);
  mret (compiled.mkRule matches (kept_filters fs) backends timeouts.1 timeouts.2
          (exRateLimit ext) (exWAF ext) (exInvalid ext) (auth_identity ext)).

Definition compileGRPCRule (w : world) (namespace : string) (rule : GRPCRouteRule) : CM compiled.Rule :=
  matches ← forC (λ m, lift (grpc_match m)) (grMatches rule);
  fs ← forC (grpc_rule_filter w namespace) (grFilters rule);
  ext ← rule_extensions w namespace (references_of fs) true;
  backends ← forC (grpc_backend w namespace) (grBackendRefs rule);
  mret (compiled.mkRule matches (kept_filters fs) backends 0 0
          (exRateLimit ext) (exWAF ext) (exInvalid ext) (auth_identity ext)).

(** An L4 rule is its backends. *)
Definition compile_l4_rule (w : world) (namespace kind : string) (refs : list BackendRef) :
    CM compiled.Rule :=
  backends ← forC (compileBackend w namespace kind) refs;
  mret (compiled.mkRule [] [] backends 0 0 None "" false "").

End rules.

(** ** Reasoning about the monad *)

Lemma run_bind {A B} (m : CM A) (f : A → CM B) o b o' :
  (m ≫= f) o = (Ok b, o') ↔ ∃ a o1, m o = (Ok a, o1) ∧ f a o1 = (Ok b, o').
Proof.
  unfold mbind, cm_bind. destruct (m o) as [[a|e] o1]; split; naive_solver.
Qed.

Lemma run_ret {A} (a : A) o b o' : (mret a : CM A) o = (Ok b, o') ↔ b = a ∧ o' = o.
Proof. unfold mret, cm_ret. naive_solver. Qed.

Lemma run_lift {A} (r : result CompileError A) o b o' : lift r o = (Ok b, o') ↔ r = Ok b ∧ o' = o.
Proof. unfold lift. naive_solver. Qed.

(** Split a successful run into its steps. *)
Ltac run_inv :=
  repeat match goal with
  | H : (_ ≫= _) _ = (Ok _, _) |- _ => apply run_bind in H as (? & ? & ? & H)
  | H : (mret _ : CM _) _ = (Ok _, _) |- _ => apply run_ret in H as [-> ->]
  | H : mret _ _ = (Ok _, _) |- _ => apply run_ret in H as [-> ->]
  | H : lift _ _ = (Ok _, _) |- _ => apply run_lift in H as [H ->]
  end.

(** The conditions of an outcome once degraded stay so; nothing else but
    its documents changes. *)
Record frames (o o' : routeParentOutcome) : Prop := {
  fr_route : roRoute o' = roRoute o;
  fr_parent : roParentRef o' = roParentRef o;
  fr_accepted : roAccepted o' = roAccepted o;
  fr_config : roConfig o' = roConfig o;
  fr_degraded : roRefsResolved o = false → roRefsResolved o' = false;
  fr_docs : ∀ id, is_Some (roAuthDocs o !! id) → is_Some (roAuthDocs o' !! id);
}.

#[global] Instance frames_preorder : PreOrder frames.
Proof. split; [by split|]. intros a b c [] []. split; try congruence; auto. Qed.

Definition framed {A} (m : CM A) : Prop := ∀ o r o', m o = (r, o') → frames o o'.

Lemma framed_ret {A} (a : A) : framed (mret a).
Proof. by intros o r o' [= <- <-]. Qed.

Lemma framed_lift {A} (r : result CompileError A) : framed (lift r).
Proof. by intros o r' o' [= <- <-]. Qed.

Lemma framed_throw {A} e : framed (throw (A := A) e).
Proof. by intros o r' o' [= <- <-]. Qed.

Lemma framed_bind {A B} (m : CM A) (f : A → CM B) :
  framed m → (∀ a, framed (f a)) → framed (m ≫= f).
Proof.
  intros Hm Hf o r o'. unfold mbind, cm_bind. destruct (m o) as [[a|e] o1] eqn:E.
  - intros H. etrans; [by eapply Hm|by eapply Hf].
  - intros [= <- <-]. by eapply Hm.
Qed.

Lemma framed_forC {A B} (f : A → CM B) l : (∀ a, framed (f a)) → framed (forC f l).
Proof.
  intros Hf. induction l as [|a l IH]; cbn [forC]; [apply framed_ret|].
  apply framed_bind; [done|]. intros b. apply framed_bind; [done|]. intros bs. apply framed_ret.
Qed.

Create HintDb framed.
#[export] Hint Resolve framed_ret framed_lift framed_throw framed_bind framed_forC : framed.

(** Compiling a list compiles its elements in order; what a bad element
    does to the outcome survives. *)
Lemma forC_Ok {A B} (f : A → CM B) (R : A → B → Prop) (bad : B → Prop) l o bs o' :
  (∀ a, framed (f a)) →
  (∀ a o b o', f a o = (Ok b, o') → R a b ∧ (bad b → roRefsResolved o' = false)) →
  forC f l o = (Ok bs, o') →
  Forall2 R l bs ∧ ((∃ b, b ∈ bs ∧ bad b) → roRefsResolved o' = false).
Proof.
  intros Hfr Hf. revert o bs o'. induction l as [|a l IH]; intros o bs o'; cbn [forC]; intros H.
  { run_inv. split; [constructor|]. by intros (b & ?%elem_of_nil & _). }
  run_inv. match goal with H : f a _ = _ |- _ => rename H into Ha end.
  match goal with H : forC f l _ = _ |- _ => rename H into Hl end.
  destruct (Hf _ _ _ _ Ha) as [HR Hbad]. destruct (IH _ _ _ Hl) as [HR2 Hbad2].
  split; [by constructor|]. intros (b & [->|Hb]%elem_of_cons & Hb2); [|by apply Hbad2; eauto].
  eapply (framed_forC f l Hfr _ _ _ Hl). by apply Hbad.
Qed.

(** What holds of an element when it is compiled, and survives the
    compilation of others, holds of all in the end. *)
Lemma forC_mono {A B} (f : A → CM B) (P : routeParentOutcome → A → B → Prop) l o bs o' :
  (∀ a, framed (f a)) → (∀ o o' a b, frames o o' → P o a b → P o' a b) →
  (∀ a o b o', f a o = (Ok b, o') → P o' a b) →
  forC f l o = (Ok bs, o') → Forall2 (P o') l bs.
Proof.
  intros Hfr Hmono Hf. revert o bs o'. induction l as [|a l IH]; intros o bs o'; cbn [forC]; intros H.
  { run_inv. constructor. }
  apply run_bind in H as (b & o1 & Ha & H). apply run_bind in H as (bs' & o2 & Hl & H).
  apply run_ret in H as [-> ->]. constructor; [|by eapply IH].
  eapply Hmono; [by eapply framed_forC|]. by eapply Hf.
Qed.

(** ** Specification of backends *)

(** A backend marked valid exists and may be referenced, and carries the
    policy and protocol of its Service port. *)
Definition backend_permitted (w : world) (namespace kind : string) (b : compiled.Backend) : Prop :=
  compiled.bValid b = true →
  reachable w kind namespace "Service" (compiled.bNamespace b) (compiled.bName b) ∧
  is_Some (wServices w !! nsName (compiled.bNamespace b) (compiled.bName b)) ∧
  compiled.bPort b ≠ 0%Z ∧
  compiled.bTLS b = backendTLSFor w (compiled.bNamespace b) (compiled.bName b)
                      (servicePortName w (compiled.bNamespace b) (compiled.bName b) (compiled.bPort b)) ∧
  compiled.bAppProtocol b = servicePortAppProtocol w (compiled.bNamespace b) (compiled.bName b) (compiled.bPort b).

(** A reference that resolves: a core Service with a port, in the namespace of
    the route or granted, that exists. *)
Definition resolvable (w : world) (ns kind : string) (ref : BackendObjectReference) : Prop :=
  let namespace := default ns (brNamespace ref) in
  default "Service" (brKind ref) = "Service" ∧ default "" (brGroup ref) = "" ∧
  default 0%Z (brPort ref) ≠ 0%Z ∧ reachable w kind ns "Service" namespace (brName ref) ∧
  is_Some (wServices w !! nsName namespace (brName ref)).

Lemma backend_fault_None w ns kind ref : backend_fault w ns kind ref = None ↔ resolvable w ns kind ref.
Proof.
  unfold backend_fault, resolvable. cbn zeta.
  assert (∀ want o, kind_is want o = true ↔ default want o = want) as Hk.
  { intros want [v|]; unfold kind_is; cbn; [apply bool_decide_eq_true|done]. }
  destruct (kind_is "Service" (brKind ref)) eqn:K1; cbn [negb orb].
  2:{ split; [done|]. intros (E%Hk & _). congruence. }
  destruct (kind_is "" (brGroup ref)) eqn:K2; cbn [negb orb].
  2:{ split; [done|]. intros (_ & E%Hk & _). congruence. }
  apply Hk in K1, K2.
  destruct (Z.eqb_spec (default 0%Z (brPort ref)) 0) as [Hz|Hp]; [naive_solver|].
  destruct (_ && _) eqn:Hg.
  - split; [done|]. intros (_ & _ & _ & Hr & _). apply andb_true_iff in Hg as [Hn%negb_true_iff Hg%negb_true_iff].
    apply bool_decide_eq_false in Hn. destruct Hr as [?|Hr]; [done|].
    apply referenceGrantAllows_permits in Hr. congruence.
  - apply reachable_guard in Hg. destruct (wServices w !! _) eqn:Hs; [|split; [done|by intros (_ & _ & _ & _ & [])]].
    split; [|done]. intros _. split_and!; done.
Qed.

(** The target and weight are those of the reference. *)
Definition backend_of (ns : string) (ref : BackendRef) (b : compiled.Backend) : Prop :=
  compiled.bNamespace b = default ns (brNamespace (brObject ref)) ∧
  compiled.bName b = brName (brObject ref) ∧ compiled.bPort b = default 0%Z (brPort (brObject ref)) ∧
  compiled.bWeight b = default 1%Z (brWeight ref).

Lemma framed_update_degrade reason message : framed (update (degrade_once reason message)).
Proof.
  intros o r o' [= <- <-]. unfold degrade_once. destruct (roRefsResolved o) eqn:H; [|done].
  by split.
Qed.
#[export] Hint Resolve framed_update_degrade : framed.

Lemma framed_compileBackend w ns kind ref : framed (compileBackend w ns kind ref).
Proof.
  unfold compileBackend. cbn zeta. destruct (backend_fault _ _ _ _) as [[??]|]; auto with framed.
Qed.
#[export] Hint Resolve framed_compileBackend : framed.

Lemma compileBackend_Ok w ns kind ref o b o' :
  compileBackend w ns kind ref o = (Ok b, o') →
  (backend_of ns ref b ∧ backend_permitted w ns kind b ∧
   (compiled.bValid b = true ↔ resolvable w ns kind (brObject ref)) ∧ compiled.bFilters b = []) ∧
  (compiled.bValid b = false → roRefsResolved o' = false).
Proof.
  unfold compileBackend. cbn zeta.
  destruct (backend_fault w ns kind (brObject ref)) as [[reason message]|] eqn:Hf; intros H; run_inv.
  - match goal with H : update _ _ = _ |- _ => injection H as _ <- end.
    split; [|intros _; unfold degrade_once; by destruct (roRefsResolved o) eqn:Hr].
    split_and!; try done. cbn. rewrite <-backend_fault_None, Hf. done.
  - pose proof Hf as Hres%backend_fault_None. destruct Hres as (? & ? & ? & ? & ?).
    split; [|done]. by split_and!.
Qed.

Lemma compileBackend_total w ns kind ref o : ∃ b o', compileBackend w ns kind ref o = (Ok b, o').
Proof. unfold compileBackend. cbn zeta. destruct (backend_fault _ _ _ _) as [[??]|]; by do 2 eexists. Qed.

(** ** Specification of filters *)

(** The headers of a list, the last of equal names counting. *)
Definition headers_kept (hs : list HTTPHeader) (m : gmap string string) : Prop :=
  ∀ name, m !! name = list.last (hhValue <$> filter (λ h, hhName h = name) hs).

(** A path replacement: type, value and captured prefix. *)
Inductive path_kept (prefix : string) : option HTTPPathModifier → string → string → string → Prop :=
  | path_none : path_kept prefix None "" "" ""
  | path_full m v : pmdType m = "ReplaceFullPath" → pmdReplaceFullPath m = Some v →
      path_kept prefix (Some m) "ReplaceFullPath" v ""
  | path_prefix m v : pmdType m = "ReplacePrefixMatch" → pmdReplacePrefixMatch m = Some v →
      path_kept prefix (Some m) "ReplacePrefixMatch" v prefix.

(** The share of requests a mirror gets, in percent. *)
Definition percent_kept (m : HTTPRequestMirrorFilter) (p : option Q) : Prop :=
  match miFraction m with
  | Some f => ∃ q, p = Some q ∧ (0 < default 100 (frDenominator f))%Z ∧
      Qeq (Qmult q (inject_Z (default 100%Z (frDenominator f)))) (inject_Z (frNumerator f * 100))
  | None => p = inject_Z <$> miPercent m
  end.

(** The compiled form of a filter, in full; [prefix] is the path prefix the
    rule matches. *)
Inductive filter_kept (w : world) (ns kind prefix : string) (f : HTTPRouteFilter) : compiled.Filter → Prop :=
  | kept_request m set add : flType f = "RequestHeaderModifier" → flRequestHeaderModifier f = Some m →
      headers_kept (hfSet m) set → headers_kept (hfAdd m) add →
      filter_kept w ns kind prefix f
        (compiled.mkFilter "RequestHeaderModifier" set add (hfRemove m) None "" "" 0 0 "" "" "" None None)
  | kept_response m set add : flType f = "ResponseHeaderModifier" → flResponseHeaderModifier f = Some m →
      headers_kept (hfSet m) set → headers_kept (hfAdd m) add →
      filter_kept w ns kind prefix f
        (compiled.mkFilter "ResponseHeaderModifier" set add (hfRemove m) None "" "" 0 0 "" "" "" None None)
  | kept_cors c age : flType f = "CORS" → flCORS f = Some c →
      age = (if decide (0 < coMaxAge c)%Z then coMaxAge c else 5%Z) →
      filter_kept w ns kind prefix f
        (compiled.mkFilter "CORS" ∅ ∅ []
           (Some (compiled.mkCORS (coAllowOrigins c) (coAllowMethods c) (coAllowHeaders c) (coExposeHeaders c)
                    (default false (coAllowCredentials c)) age)) "" "" 0 0 "" "" "" None None)
  | kept_redirect r ty v cut : flType f = "RequestRedirect" → flRequestRedirect f = Some r →
      path_kept prefix (rdPath r) ty v cut →
      filter_kept w ns kind prefix f
        (compiled.mkFilter "RequestRedirect" ∅ ∅ [] None (default "" (rdScheme r)) (default "" (rdHostname r))
           (default 0%Z (rdPort r)) (default 302%Z (rdStatusCode r)) ty v cut None None)
  | kept_rewrite r ty v cut : flType f = "URLRewrite" → flURLRewrite f = Some r →
      path_kept prefix (rwPath r) ty v cut →
      filter_kept w ns kind prefix f
        (compiled.mkFilter "URLRewrite" ∅ ∅ [] None "" (default "" (rwHostname r)) 0 0 ty v cut None None)
  | kept_mirror m b p : flType f = "RequestMirror" → flRequestMirror f = Some m →
      backend_of ns (mkBackendRef (miBackendRef m) None) b → compiled.bValid b = true →
      backend_permitted w ns kind b → compiled.bFilters b = [] → percent_kept m p →
      filter_kept w ns kind prefix f
        (compiled.mkFilter "RequestMirror" ∅ ∅ [] None "" "" 0 0 "" "" "" (Some b) p).

(** What becomes of a filter that is not a reference to an extension: it is
    kept, or it is a mirror whose target does not resolve. *)
Definition filter_outcome (w : world) (ns kind prefix : string) (f : HTTPRouteFilter) (c : option compiled.Filter) :
    Prop :=
  match c with
  | Some c => filter_kept w ns kind prefix f c
  | None => flType f = "RequestMirror" ∧ ∃ m, flRequestMirror f = Some m ∧ ¬ resolvable w ns kind (miBackendRef m)
  end.

Definition filter_from (w : world) (ns kind prefix : string) (f : HTTPRouteFilter) (r : RuleFilter) : Prop :=
  match r with
  | Reference ref => flType f = "ExtensionRef" ∧ flExtensionRef f = Some ref
  | Compiled c => flType f ≠ "ExtensionRef" ∧ filter_outcome w ns kind prefix f c
  end.

(** A filter of a GRPCRoute is an HTTP one without redirect, rewrite and CORS. *)
Definition as_http (f : GRPCRouteFilter) : HTTPRouteFilter :=
  mkHTTPFilter (gflType f) (gflRequestHeaderModifier f) (gflResponseHeaderModifier f) (gflRequestMirror f)
    None None None (gflExtensionRef f).

(** The prefix a rule matches: that of its first match on a path prefix. *)
Definition first_prefix (ms : list HTTPRouteMatch) : string :=
  default "/" (head (omap (λ m, p ← hmPath m; v ← pmValue p;
    if decide (default "PathPrefix" (pmType p) = "PathPrefix") then Some v else None) ms)).

Lemma rulePathPrefix_first ms : rulePathPrefix ms = first_prefix ms.
Proof.
  unfold first_prefix. induction ms as [|m ms IH]; [done|]. cbn.
  destruct (hmPath m) as [p|]; cbn; [|done]. destruct (pmValue p) as [v|]; cbn; [|done].
  destruct (pmType p) as [t|]; cbn; [|done]. case_bool_decide as Ht; [by rewrite decide_True by done|].
  by rewrite decide_False by done.
Qed.

Lemma framed_keep r : framed (keep r).
Proof. unfold keep. auto with framed. Qed.
#[export] Hint Resolve framed_keep : framed.

Lemma framed_compileMirror w ns kind m : framed (compileMirror w ns kind m).
Proof.
  unfold compileMirror. apply framed_bind; [auto with framed|]. intros b.
  destruct (negb _); auto with framed.
Qed.
#[export] Hint Resolve framed_compileMirror : framed.

Lemma framed_compileHTTPFilter w ns kind rule f : framed (compileHTTPFilter w ns kind rule f).
Proof.
  unfold compileHTTPFilter. cbn zeta.
  repeat (match goal with |- context [if ?b then _ else _] => destruct b end); auto with framed.
Qed.
Lemma framed_compileGRPCFilter w ns f : framed (compileGRPCFilter w ns f).
Proof.
  unfold compileGRPCFilter. cbn zeta.
  repeat (match goal with |- context [if ?b then _ else _] => destruct b end); auto with framed.
Qed.
#[export] Hint Resolve framed_compileHTTPFilter framed_compileGRPCFilter : framed.

Lemma mirror_percent_Ok m p : mirror_percent m = Ok p → percent_kept m p.
Proof.
  unfold mirror_percent, percent_kept. destruct (miFraction m) as [f|]; [|by intros <-%(inj Ok)]. cbn zeta.
  destruct (Z.leb_spec (default 100%Z (frDenominator f)) 0) as [|Hd]; [done|]. intros <-%(inj Ok).
  eexists. split; [done|]. split; [done|]. rewrite inject_Z_mult. rewrite Qmult_comm, Qmult_assoc, Qmult_div_r; [reflexivity|].
  intros H. unfold Qeq in H. cbn in H. lia.
Qed.

Lemma compileMirror_Ok w ns kind prefix f m o r o' :
  flType f = "RequestMirror" → flRequestMirror f = Some m →
  compileMirror w ns kind m o = (Ok r, o') →
  filter_outcome w ns kind prefix f r ∧ (r = None → roRefsResolved o' = false).
Proof.
  intros Ht Hm. unfold compileMirror. intros H. run_inv.
  match goal with H : compileBackend _ _ _ _ _ = (Ok ?y, _) |- _ =>
    rename y into b; apply compileBackend_Ok in H as [(Hof & Hp & Hres & Hfs) Hbad] end.
  destruct (compiled.bValid b) eqn:Hv; cbn [negb] in H; run_inv.
  - split; [|done]. match goal with H : mirror_percent _ = _ |- _ => apply mirror_percent_Ok in H end.
    by eapply kept_mirror.
  - split; [|intros _; by apply Hbad]. split; [done|]. exists m. split; [done|]. intros ?%Hres. done.
Qed.

Lemma header_map hs m0 name :
  fold_left (λ (acc : gmap string string) (h : HTTPHeader), <[hhName h := hhValue h]> acc) hs m0 !! name =
  match list.last (hhValue <$> filter (λ h, hhName h = name) hs) with Some v => Some v | None => m0 !! name end.
Proof.
  induction hs as [|h hs IH] using rev_ind; [done|]. rewrite fold_left_app, list.filter_app, fmap_app. cbn [fold_left].
  destruct (decide (hhName h = name)) as [<-|Hne].
  - rewrite lookup_insert_eq, (filter_cons_True _ h), filter_nil by done. cbn [fmap list_fmap]. by rewrite last_snoc.
  - rewrite lookup_insert_ne, IH, (filter_cons_False _ h), filter_nil by done. cbn [fmap list_fmap]. by rewrite app_nil_r.
Qed.

Lemma header_map_kept hs :
  headers_kept hs (fold_left (λ (acc : gmap string string) (h : HTTPHeader), <[hhName h := hhValue h]> acc) hs ∅).
Proof. intros name. rewrite header_map, lookup_empty. by destruct (list.last _). Qed.

Lemma compilePathModifier_Ok m ms ty v cut :
  compilePathModifier m ms = Ok (ty, v, cut) → path_kept (first_prefix ms) m ty v cut.
Proof.
  unfold compilePathModifier. destruct m as [m|]; [|intros [= <- <- <-]; constructor].
  case_bool_decide as H1; [|case_bool_decide as H2; [|done]].
  - rewrite bind_Ok. intros (x & Hx%of_option_Ok & [= <- <- <-]). by apply path_full.
  - rewrite bind_Ok. intros (x & Hx%of_option_Ok & [= <- <- <-]). rewrite rulePathPrefix_first. by apply path_prefix.
Qed.

Lemma keep_Ok r o x o' : keep r o = (Ok x, o') → ∃ f, r = Ok f ∧ x = Some f ∧ o' = o.
Proof. unfold keep. intros H. run_inv. eauto. Qed.

Lemma compileHTTPFilter_Ok w ns kind rule f o r o' :
  compileHTTPFilter w ns kind rule f o = (Ok r, o') →
  filter_outcome w ns kind (first_prefix (hrMatches rule)) f r ∧ (r = None → roRefsResolved o' = false).
Proof.
  unfold compileHTTPFilter. cbn zeta. intros H'.
  repeat case_bool_decide; [..|done].
  6: { run_inv. match goal with H : required _ _ = Ok _ |- _ => apply of_option_Ok in H end.
       by eapply compileMirror_Ok. }
  all: apply keep_Ok in H' as (c & Hc & -> & ->); apply bind_Ok in Hc as (v & Hv%of_option_Ok & Hc); split; [|done].
  - apply (inj Ok) in Hc as <-. unfold compileHeaderModifier. cbn zeta. match goal with H : flType f = _ |- _ => rewrite H at 1 end.
    eapply kept_request; try done; apply header_map_kept.
  - apply (inj Ok) in Hc as <-. unfold compileHeaderModifier. cbn zeta. match goal with H : flType f = compiled.FilterResponseHeaderModifier |- _ => rewrite H at 1 end.
    eapply kept_response; try done; apply header_map_kept.
  - apply (inj Ok) in Hc as <-. eapply kept_cors; try done.
    destruct (Z.ltb_spec 0 (coMaxAge v)); case_decide; (lia || done).
  - apply bind_Ok in Hc as ([[ty x] cut] & Hp%compilePathModifier_Ok & <-%(inj Ok)). by eapply kept_redirect.
  - apply bind_Ok in Hc as ([[ty x] cut] & Hp%compilePathModifier_Ok & <-%(inj Ok)). by eapply kept_rewrite.
Qed.

Lemma compileGRPCFilter_Ok w ns f o r o' :
  compileGRPCFilter w ns f o = (Ok r, o') →
  filter_outcome w ns "GRPCRoute" "/" (as_http f) r ∧ (r = None → roRefsResolved o' = false).
Proof.
  unfold compileGRPCFilter. cbn zeta. intros H'.
  repeat case_bool_decide; [..|done].
  3: { run_inv. match goal with H : required _ _ = Ok _ |- _ => apply of_option_Ok in H end.
       by eapply compileMirror_Ok. }
  all: apply keep_Ok in H' as (c & Hc & -> & ->); apply bind_Ok in Hc as (v & Hv%of_option_Ok & <-%(inj Ok)); split; [|done].
  - unfold compileHeaderModifier. cbn zeta. match goal with H : gflType f = _ |- _ => rewrite H end.
    eapply kept_request; try done; apply header_map_kept.
  - unfold compileHeaderModifier. cbn zeta. match goal with H : gflType f = compiled.FilterResponseHeaderModifier |- _ => rewrite H end.
    eapply kept_response; try done; apply header_map_kept.
Qed.

Lemma http_rule_filter_Ok w ns rule f o r o' :
  http_rule_filter w ns rule f o = (Ok r, o') →
  filter_from w ns "HTTPRoute" (first_prefix (hrMatches rule)) f r ∧
  (r = Compiled None → roRefsResolved o' = false).
Proof.
  unfold http_rule_filter. case_bool_decide as Ht; intros H; run_inv.
  - split; [|done]. split; [done|]. match goal with H : required _ _ = Ok _ |- _ => by apply of_option_Ok in H end.
  - match goal with H : compileHTTPFilter _ _ _ _ _ _ = (Ok ?y, _) |- _ =>
      rename y into c; apply compileHTTPFilter_Ok in H as [Hc Hn] end.
    split; [done|]. intros [= ->]. by apply Hn.
Qed.

Lemma grpc_rule_filter_Ok w ns f o r o' :
  grpc_rule_filter w ns f o = (Ok r, o') →
  filter_from w ns "GRPCRoute" "/" (as_http f) r ∧
  (r = Compiled None → roRefsResolved o' = false).
Proof.
  unfold grpc_rule_filter. case_bool_decide as Ht; intros H; run_inv.
  - split; [|done]. split; [done|]. match goal with H : required _ _ = Ok _ |- _ => by apply of_option_Ok in H end.
  - match goal with H : compileGRPCFilter _ _ _ _ = (Ok ?y, _) |- _ =>
      rename y into c; apply compileGRPCFilter_Ok in H as [Hc Hn] end.
    split; [done|]. intros [= ->]. by apply Hn.
Qed.

(** ** Specification of matches and timeouts *)

Definition path_type_ok (e : compiled.Match) : Prop :=
  compiled.mPathType e ∈ [""; "Exact"; "PathPrefix"].

Definition named_exact (n : NamedMatch) : Prop := nmType n = None ∨ nmType n = Some "Exact".

(** Every condition of the match is in the compiled one. *)
Record match_kept (m : HTTPRouteMatch) (e : compiled.Match) : Prop := {
  mk_path : compiled.mPathType e = default "" (hmPath m ≫= pmType) ∧
            compiled.mPathValue e = default "" (hmPath m ≫= pmValue) ∧ path_type_ok e;
  mk_method : compiled.mMethod e = default "" (hmMethod m);
  mk_headers : Forall named_exact (hmHeaders m) ∧
    compiled.mHeaders e = (λ h, compiled.mkHeaderMatch (nmName h) (nmValue h)) <$> hmHeaders m;
  mk_query : Forall named_exact (hmQueryParams m) ∧
    compiled.mQueryParams e = (λ q, compiled.mkQueryParamMatch (nmName q) (nmValue q)) <$> hmQueryParams m;
}.

Record grpc_match_kept (m : GRPCRouteMatch) (e : compiled.Match) : Prop := {
  gk_path : match gmMethod m with
    | None => compiled.mPathType e = "" ∧ compiled.mPathValue e = ""
    | Some mm => ∃ service, mmService mm = Some service ∧ service ≠ "" ∧
        match default "" (mmMethod mm) with
        | EmptyString => compiled.mPathType e = "PathPrefix" ∧ compiled.mPathValue e = "/" +:+ service
        | method => compiled.mPathType e = "Exact" ∧
                    compiled.mPathValue e = "/" +:+ service +:+ "/" +:+ method
        end
    end;
  gk_headers : Forall named_exact (gmHeaders m) ∧
    compiled.mHeaders e = (λ h, compiled.mkHeaderMatch (nmName h) (nmValue h)) <$> gmHeaders m;
}.

Lemma exact_only_Ok what ty u : exact_only what ty = Ok u → ty = None ∨ ty = Some "Exact".
Proof.
  unfold exact_only. destruct ty as [t|]; [|by left].
  intros ->%guard_err_Ok%bool_decide_eq_true. by right.
Qed.

Lemma header_matches hs acc out :
  foldM header_match acc hs = Ok out →
  Forall named_exact hs ∧
  out = acc ++ ((λ h, compiled.mkHeaderMatch (nmName h) (nmValue h)) <$> hs).
Proof.
  revert acc. induction hs as [|h hs IH]; intros acc; cbn [foldM].
  { intros <-%(inj Ok). by rewrite app_nil_r. }
  rewrite bind_Ok. intros (acc1 & H1 & H2). unfold header_match in H1.
  apply bind_Ok in H1 as (u & Hu%exact_only_Ok & <-%(inj Ok)). apply IH in H2 as [Hf ->].
  split; [by constructor|]. by rewrite <-app_assoc.
Qed.

Lemma query_matches qs acc out :
  foldM query_match acc qs = Ok out →
  Forall named_exact qs ∧
  out = acc ++ ((λ q, compiled.mkQueryParamMatch (nmName q) (nmValue q)) <$> qs).
Proof.
  revert acc. induction qs as [|q qs IH]; intros acc; cbn [foldM].
  { intros <-%(inj Ok). by rewrite app_nil_r. }
  rewrite bind_Ok. intros (acc1 & H1 & H2). unfold query_match in H1.
  apply bind_Ok in H1 as (u & Hu%exact_only_Ok & <-%(inj Ok)). apply IH in H2 as [Hf ->].
  split; [by constructor|]. by rewrite <-app_assoc.
Qed.

Lemma compileHTTPMatch_Ok m e : compileHTTPMatch m = Ok e → match_kept m e.
Proof.
  unfold compileHTTPMatch. intros H. apply bind_Ok in H as ([ty v] & Hp & H).
  apply bind_Ok in H as (hs & Hh%header_matches & H). apply bind_Ok in H as (qs & Hq%query_matches & H).
  apply (inj Ok) in H as <-. split; cbn; [|done|done|done]. clear Hh Hq.
  destruct (hmPath m) as [p|]; [|injection Hp as <- <-; split_and!; try done; unfold path_type_ok; set_solver].
  apply bind_Ok in Hp as (u & Hu & [= <- <-]). cbn. split_and!; [by destruct (pmType p)|by destruct (pmValue p)|].
  unfold path_type_ok. cbn. destruct (pmType p) as [t|]; [|cbn; set_solver].
  apply guard_err_Ok, orb_true_iff in Hu as [->%bool_decide_eq_true| ->%bool_decide_eq_true]; cbn; set_solver.
Qed.

Lemma grpc_match_Ok m e : grpc_match m = Ok e → grpc_match_kept m e ∧ path_type_ok e.
Proof.
  unfold grpc_match. intros H. apply bind_Ok in H as ([ty v] & Hp & H).
  apply bind_Ok in H as (hs & Hh%header_matches & H). apply (inj Ok) in H as <-.
  unfold grpc_path in Hp. unfold path_type_ok.
  destruct (gmMethod m) as [mm|] eqn:Hm.
  2: { injection Hp as <- <-. split; [split; [by rewrite Hm|done]|cbn; set_solver]. }
  apply bind_Ok in Hp as (u & _ & Hp). cbn zeta in Hp.
  destruct (mmService mm) as [service|] eqn:Hs; cbn in Hp; [|done].
  destruct (decide (service = "")) as [->|Hne]; [done|].
  rewrite (bool_decide_false (service = "")) in Hp by done. cbn in Hp.
  destruct (default "" (mmMethod mm)) as [|c method] eqn:Hd.
  - injection Hp as <- <-. split; [|cbn; set_solver]. split; [|done]. rewrite Hm. exists service.
    by rewrite Hd.
  - rewrite bool_decide_false in Hp by done. injection Hp as <- <-. split; [|cbn; set_solver].
    split; [|done]. rewrite Hm. exists service. by rewrite Hd.
Qed.

(** A timeout in milliseconds: zero when there is none. *)
Definition timeout_kept {k8s : Kubernetes} (text : option string) (ms : Z) : Prop :=
  match text with
  | None => ms = 0%Z
  | Some text => ∃ d, parseDuration text = Some d ∧ (0 ≤ d)%Z ∧ ms = ratelimiting.Milliseconds d
  end.

Definition timeouts_kept {k8s : Kubernetes} (t : option HTTPRouteTimeouts) (request backend : Z) : Prop :=
  timeout_kept (t ≫= toRequest) request ∧ timeout_kept (t ≫= toBackendRequest) backend ∧
  (0 < request → backend ≤ request)%Z.

Lemma parse_timeout_Ok {k8s : Kubernetes} which text ms :
  parse_timeout which text = Ok ms → timeout_kept (Some text) ms.
Proof.
  unfold parse_timeout. destruct (parseDuration text) as [d|] eqn:Hd; [|done].
  destruct (Z.ltb_spec d 0); [done|]. intros <-%(inj Ok). by exists d.
Qed.

Lemma compileTimeouts_Ok {k8s : Kubernetes} t request backend :
  compileTimeouts t = Ok (request, backend) → timeouts_kept t request backend.
Proof.
  unfold compileTimeouts, timeouts_kept. destruct t as [t|]; cbn; [|intros [= <- <-]; by split_and!].
  intros H. apply bind_Ok in H as (r & Hr & H). apply bind_Ok in H as (b & Hb & [= -> ->]).
  split; [destruct (toRequest t); [by eapply parse_timeout_Ok|by injection Hr as <-]|].
  destruct (toBackendRequest t) as [text|]; [|injection Hb as <-; split; [done|lia]].
  apply bind_Ok in Hb as (b & Hb & H2). apply bind_Ok in H2 as (u & Hg%guard_err_Ok & [= ->]).
  split; [by eapply parse_timeout_Ok|]. intros Hpos. apply negb_true_iff, andb_false_iff in Hg.
  destruct Hg as [Hg%Z.ltb_ge|Hg%Z.ltb_ge]; lia.
Qed.

(** ** Specification of rules *)

(** The extensions a rule ends up with: it fails closed, or every
    reference is enforced and the auth document it names is published. *)
Definition rule_extended `{Kubernetes, build.Libraries, authdoc.HCL} (w : world) (ns : string)
    (refs : list LocalObjectReference) (r : compiled.Rule) (o : routeParentOutcome) : Prop :=
  if compiled.ruExtensionsInvalid r
  then roRefsResolved o = false
  else ∃ auth, compiled.ruAuth r = default "" (compiled.auIdentity <$> auth) ∧
    enforced w ns refs (mkRuleExtensions (compiled.ruRateLimit r) (compiled.ruWAF r) auth false) ∧
    ∀ cfg, auth = Some cfg → compiled.auIdentity cfg ≠ "" ∧ is_Some (roAuthDocs o !! compiled.auIdentity cfg).

Definition extension_refs (fs : list HTTPRouteFilter) : list LocalObjectReference :=
  omap (λ f, if decide (flType f = "ExtensionRef") then flExtensionRef f else None) fs.

(** What is compiled of a rule besides its matches, for the three kinds of
    rules: the prefix it matches, its filters, its backends with their own
    filters and its timeouts. *)
Record SourceRule := mkSource {
  srPrefix : string;
  srFilters : list HTTPRouteFilter;
  srBackends : list (BackendRef * list HTTPRouteFilter);
  srTimeouts : option HTTPRouteTimeouts;
}.

Definition http_source (rule : HTTPRouteRule) : SourceRule :=
  mkSource (first_prefix (hrMatches rule)) (hrFilters rule)
    ((λ b, (hbRef b, hbFilters b)) <$> hrBackendRefs rule) (hrTimeouts rule).
Definition grpc_source (rule : GRPCRouteRule) : SourceRule :=
  mkSource "/" (as_http <$> grFilters rule)
    ((λ b, (gbRef b, as_http <$> gbFilters b)) <$> grBackendRefs rule) None.
Definition l4_source (refs : list BackendRef) : SourceRule :=
  mkSource "/" [] ((λ r, (r, [])) <$> refs) None.

(** The filters of a backend: header modifiers, every one in order. *)
Definition backend_filter_kept (w : world) (ns kind : string) (f : HTTPRouteFilter) (c : compiled.Filter) : Prop :=
  (flType f = "RequestHeaderModifier" ∨ flType f = "ResponseHeaderModifier") ∧ filter_kept w ns kind "/" f c.

(** A backend reference with its filters, compiled. *)
Definition backend_kept (w : world) (ns kind : string) (ref : BackendRef * list HTTPRouteFilter)
    (b : compiled.Backend) : Prop :=
  backend_of ns ref.1 b ∧ backend_permitted w ns kind b ∧
  (compiled.bValid b = true ↔ resolvable w ns kind (brObject ref.1)) ∧
  Forall2 (backend_filter_kept w ns kind) ref.2 (compiled.bFilters b).

(** What a compiled rule keeps of the rule of a route. *)
Record rule_sound `{Kubernetes, build.Libraries, authdoc.HCL} (w : world) (ns kind : string)
    (src : SourceRule) (o : routeParentOutcome) (r : compiled.Rule) : Prop := {
  rs_filters : ∃ cs,
    Forall2 (filter_outcome w ns kind (srPrefix src)) (filter (λ f, flType f ≠ "ExtensionRef") (srFilters src)) cs ∧
    compiled.ruFilters r = omap id cs ∧ (None ∈ cs → roRefsResolved o = false);
  rs_backends : Forall2 (backend_kept w ns kind) (srBackends src) (compiled.ruBackends r);
  rs_resolved : roRefsResolved o = true → Forall (λ b, compiled.bValid b = true) (compiled.ruBackends r);
  rs_timeouts : timeouts_kept (srTimeouts src) (compiled.ruRequestTimeoutMillis r) (compiled.ruBackendTimeoutMillis r);
  rs_paths : Forall path_type_ok (compiled.ruMatches r);
  rs_extended : rule_extended w ns (extension_refs (srFilters src)) r o;
}.

Section sound.
Context {k8s : Kubernetes} {libs : build.Libraries} {hcl : authdoc.HCL} {enc : Encoding}.

(** Soundness only reads the conditions and the documents. *)
Lemma rule_sound_mono w ns kind src o o' r :
  (roRefsResolved o = false → roRefsResolved o' = false) →
  (∀ id, is_Some (roAuthDocs o !! id) → is_Some (roAuthDocs o' !! id)) →
  rule_sound w ns kind src o r → rule_sound w ns kind src o' r.
Proof.
  intros Hd Hdoc []. assert (Ht : roRefsResolved o' = true → roRefsResolved o = true).
  { intros Ht. destruct (roRefsResolved o); [done|]. by rewrite Hd in Ht. }
  split; auto; [destruct rs_filters0 as (cs & ? & ? & ?); exists cs; auto|]. unfold rule_extended in *. destruct (compiled.ruExtensionsInvalid r); [auto|].
  destruct rs_extended0 as (auth & ? & ? & Ha). exists auth. split_and!; [done|done|].
  intros cfg Hc. destruct (Ha cfg Hc). auto.
Qed.

Lemma framed_rule_extensions w ns refs grpc : framed (rule_extensions w ns refs grpc).
Proof.
  intros o r o'. unfold rule_extensions, compileExtensions.
  destruct (length refs =? 0); [by intros [= <- <-]|].
  destruct (resolve_extensions w ns refs grpc) as [[[rl waf] [[cfg payload]|]]|[g k|m]];
    intros [= <- <-]; try done; split; try done; cbn.
  intros id Hid. destruct (decide (compiled.auIdentity cfg = id)) as [->|].
  - rewrite lookup_insert_eq. by eexists.
  - by rewrite lookup_insert_ne.
Qed.

Lemma rule_extensions_Ok w ns refs grpc o ext o' :
  rule_extensions w ns refs grpc o = (Ok ext, o') →
  if exInvalid ext then roRefsResolved o' = false
  else enforced w ns refs ext ∧
    ∀ cfg, exAuth ext = Some cfg → compiled.auIdentity cfg ≠ "" ∧ is_Some (roAuthDocs o' !! compiled.auIdentity cfg).
Proof.
  unfold rule_extensions, compileExtensions. destruct (length refs =? 0) eqn:Hl.
  { intros [= <- <-]. apply Nat.eqb_eq, length_zero_iff_nil in Hl as ->.
    split; [apply enforced_nil|done]. }
  destruct (resolve_extensions w ns refs grpc) as [[[rl waf] auth]|[g k|m]] eqn:Hr; [|done|].
  2: { by intros [= <- <-]. }
  apply resolve_extensions_Ok in Hr as [He Ha]. intros [= <- <-]. cbn. split; [done|].
  intros cfg Hc. destruct auth as [[cfg' payload]|]; [|done]. injection Hc as ->.
  destruct (Ha cfg payload eq_refl) as (? & _). split; [done|]. cbn. rewrite lookup_insert_eq. by eexists.
Qed.

Lemma filters_from w ns kind prefix fs rs :
  Forall2 (filter_from w ns kind prefix) fs rs →
  (∃ cs, Forall2 (filter_outcome w ns kind prefix) (filter (λ f, flType f ≠ "ExtensionRef") fs) cs ∧
     kept_filters rs = omap id cs ∧ (None ∈ cs → Compiled None ∈ rs)) ∧
  references_of rs = extension_refs fs.
Proof.
  unfold kept_filters, references_of, extension_refs.
  induction 1 as [|f r fs rs Hr _ ((cs & IH1 & IH2 & IH3) & IH4)].
  { split; [exists []; split_and!; [constructor|done|by intros ?%elem_of_nil]|done]. }
  destruct r as [c|ref]; destruct Hr as [Ht Hr]; csimpl; rewrite ?list.filter_cons.
  - rewrite decide_True by done. rewrite (decide_False (P := flType f = "ExtensionRef")) by done. split; [|done].
    exists (c :: cs). split; [by constructor|]. split; [cbn; by destruct c; rewrite IH2|]. set_solver.
  - rewrite decide_False by tauto. rewrite decide_True by done. rewrite Hr. split; [|by f_equal].
    exists cs. split_and!; [done|done|set_solver].
Qed.

(** *** Backends with their filters *)

Lemma backend_filter_Ok w ns kind ty request response other mirror redirect rewrite cors c :
  compileBackendHeaderFilter ty request response = Ok c →
  backend_filter_kept w ns kind (mkHTTPFilter ty request response mirror redirect rewrite cors other) c.
Proof.
  unfold compileBackendHeaderFilter. case_bool_decide as H1; [|case_bool_decide as H2; [|done]];
    intros H'; apply bind_Ok in H' as (m & Hm%of_option_Ok & <-%(inj Ok)); subst ty; unfold compileHeaderModifier; cbn zeta.
  - split; [by left|]. eapply kept_request; try done; apply header_map_kept.
  - split; [by right|]. eapply kept_response; try done; apply header_map_kept.
Qed.

Lemma backend_with_filters_Ok {F} (g : F → result CompileError compiled.Filter) (as_ : F → HTTPRouteFilter)
    w ns kind ref fs o b o' :
  (∀ f c, g f = Ok c → backend_filter_kept w ns kind (as_ f) c) →
  (backend ← compileBackend w ns kind ref; cs ← forC (λ f, lift (g f)) fs;
   mret (with_backend_filters cs backend)) o = (Ok b, o') →
  backend_kept w ns kind (ref, as_ <$> fs) b ∧ (compiled.bValid b = false → roRefsResolved o' = false).
Proof.
  intros Hg H. run_inv.
  match goal with H : compileBackend _ _ _ _ _ = (Ok ?y, ?z) |- _ =>
    rename y into b0; rename z into o1; apply compileBackend_Ok in H as [(Hof & Hp & Hres & _) Hbad] end.
  match goal with H : forC ?f fs o1 = (Ok ?y, ?z) |- _ => rename y into cs; rename z into o2; rename H into Hfs end.
  assert (Ho : frames o1 o2) by exact (framed_forC _ _ (λ f, framed_lift _) _ _ _ Hfs).
  eapply (forC_Ok _ (λ f c, backend_filter_kept w ns kind (as_ f) c) (λ _, False)) in Hfs as [HF _];
    [|intros f; apply framed_lift|intros f o3 c o4 H3; run_inv; split; [by eapply Hg|done]].
  split; [|intros Hv; eapply Ho; by apply Hbad].
  split_and!; [done|done|done|]. cbn. by rewrite Forall2_fmap_l.
Qed.

Lemma http_backend_Ok w ns ref o b o' :
  http_backend w ns ref o = (Ok b, o') →
  backend_kept w ns "HTTPRoute" (hbRef ref, hbFilters ref) b ∧ (compiled.bValid b = false → roRefsResolved o' = false).
Proof.
  intros H. rewrite <-(list_fmap_id (hbFilters ref)). eapply (backend_with_filters_Ok _ id); [|exact H].
  intros [] c. apply backend_filter_Ok.
Qed.

Lemma grpc_backend_Ok w ns ref o b o' :
  grpc_backend w ns ref o = (Ok b, o') →
  backend_kept w ns "GRPCRoute" (gbRef ref, as_http <$> gbFilters ref) b ∧
  (compiled.bValid b = false → roRefsResolved o' = false).
Proof. eapply (backend_with_filters_Ok _ as_http). intros [] c. apply backend_filter_Ok. Qed.

(** A rule of an undamaged outcome has only valid backends. *)
Lemma valid_backends (bs : list compiled.Backend) (resolved : bool) :
  ((∃ b, b ∈ bs ∧ compiled.bValid b = false) → resolved = false) →
  resolved = true → Forall (λ b, compiled.bValid b = true) bs.
Proof.
  intros Hb ->. rewrite list.Forall_forall. intros b Hin.
  destruct (compiled.bValid b) eqn:E; [done|]. discriminate Hb. eauto.
Qed.

Lemma framed_http_backend w ns ref : framed (http_backend w ns ref).
Proof. unfold http_backend. auto 6 with framed. Qed.
Lemma framed_grpc_backend w ns ref : framed (grpc_backend w ns ref).
Proof. unfold grpc_backend. auto 6 with framed. Qed.
Lemma framed_http_rule_filter w ns rule f : framed (http_rule_filter w ns rule f).
Proof. unfold http_rule_filter. destruct (_ == _); auto with framed. Qed.
Lemma framed_grpc_rule_filter w ns f : framed (grpc_rule_filter w ns f).
Proof. unfold grpc_rule_filter. destruct (_ == _); auto with framed. Qed.

End sound.
#[export] Hint Resolve framed_rule_extensions framed_http_backend framed_grpc_backend
  framed_http_rule_filter framed_grpc_rule_filter : framed.

Section rules_sound.
Context {k8s : Kubernetes} {libs : build.Libraries} {hcl : authdoc.HCL} {enc : Encoding}.

(** Filters, extensions and backends, compiled in this order. *)
Lemma rule_sound_intro {R} (src_of : R → BackendRef * list HTTPRouteFilter) w ns kind grpc prefix tes fs ext ms t rt bt
    refs bs o1 o2 o3 :
  Forall2 (filter_from w ns kind prefix) tes fs →
  ((∃ r, r ∈ fs ∧ r = Compiled None) → roRefsResolved o1 = false) →
  rule_extensions w ns (references_of fs) grpc o1 = (Ok ext, o2) →
  Forall2 (λ r b, backend_kept w ns kind (src_of r) b) refs bs →
  ((∃ b, b ∈ bs ∧ compiled.bValid b = false) → roRefsResolved o3 = false) → frames o2 o3 →
  timeouts_kept t rt bt → Forall path_type_ok ms →
  rule_sound w ns kind (mkSource prefix tes (src_of <$> refs) t) o3
    (compiled.mkRule ms (kept_filters fs) bs rt bt (exRateLimit ext) (exWAF ext) (exInvalid ext)
       (auth_identity ext)).
Proof.
  intros ((cs & Hcs & Hkept & Hnil) & Hrefs)%filters_from Hnone Hext HB Hbad Hfr Ht Hm.
  assert (H13 : frames o1 o3) by (etrans; [by eapply framed_rule_extensions|done]).
  split; cbn; try done.
  - exists cs. split_and!; [done|done|]. intros Hin%Hnil. apply (fr_degraded _ _ H13), Hnone. eauto.
  - by rewrite Forall2_fmap_l.
  - by apply valid_backends.
  - apply rule_extensions_Ok in Hext.
    match goal with |- rule_extended _ _ ?l _ _ => replace l with (references_of fs) by exact Hrefs end.
    unfold rule_extended. cbn [compiled.ruExtensionsInvalid compiled.ruAuth compiled.ruRateLimit compiled.ruWAF].
    destruct (exInvalid ext) eqn:Hi; [by apply Hfr|]. destruct Hext as [He Ha].
    exists (exAuth ext). split_and!; [done| |].
    + by destruct ext; cbn in Hi; subst.
    + intros cfg Hc. destruct (Ha cfg Hc). split; [done|]. by apply Hfr.
Qed.

Lemma compile_matches {M} (f : M → result CompileError compiled.Match) (kept : M → compiled.Match → Prop)
    (ms : list M) o es o' :
  (∀ m e, f m = Ok e → kept m e ∧ path_type_ok e) →
  forC (λ m, lift (f m)) ms o = (Ok es, o') → Forall2 kept ms es ∧ Forall path_type_ok es.
Proof.
  intros Hf H. eapply (forC_Ok _ (λ m e, kept m e ∧ path_type_ok e) (λ _, False)) in H as [HF _];
    [|intros m; apply framed_lift|intros m o1 e o2 H1; run_inv; by split; [apply Hf|]].
  split; induction HF as [|m e ms es [] _ IH]; by constructor.
Qed.

Lemma match_kept_path m e : match_kept m e → match_kept m e ∧ path_type_ok e.
Proof. intros Hm. split; [done|]. apply Hm. Qed.

Lemma compile_http_rule_Ok w ns rule o r o' :
  compile_http_rule w ns rule o = (Ok r, o') →
  rule_sound w ns "HTTPRoute" (http_source rule) o' r ∧
  Forall2 match_kept (hrMatches rule) (compiled.ruMatches r).
Proof.
  unfold compile_http_rule. intros H.
  apply run_bind in H as (ms & o1 & Hms & H). apply run_bind in H as (fs & o2 & Hfs & H).
  apply run_bind in H as (ext & o3 & Hext & H). apply run_bind in H as ([rt bt] & o4 & Ht & H).
  apply run_bind in H as (bs & o5 & Hbs & H). apply run_ret in H as [-> ->].
  apply run_lift in Ht as [Ht%compileTimeouts_Ok ->].
  apply (compile_matches _ match_kept) in Hms as [Hk Hp]; [|intros m e Hm; by apply match_kept_path, compileHTTPMatch_Ok].
  split; [|done].
  eapply forC_Ok in Hfs as [HF Hnone]; [|auto with framed|apply http_rule_filter_Ok].
  assert (Hfr : frames o3 o5) by (eapply framed_forC; [|exact Hbs]; auto with framed).
  eapply forC_Ok in Hbs as [HB Hbad]; [|auto with framed|apply http_backend_Ok].
  by eapply rule_sound_intro.
Qed.

Lemma compileGRPCRule_Ok w ns rule o r o' :
  compileGRPCRule w ns rule o = (Ok r, o') →
  rule_sound w ns "GRPCRoute" (grpc_source rule) o' r ∧
  Forall2 grpc_match_kept (grMatches rule) (compiled.ruMatches r).
Proof.
  unfold compileGRPCRule. intros H.
  apply run_bind in H as (ms & o1 & Hms & H). apply run_bind in H as (fs & o2 & Hfs & H).
  apply run_bind in H as (ext & o3 & Hext & H).
  apply run_bind in H as (bs & o5 & Hbs & H). apply run_ret in H as [-> ->].
  apply (compile_matches _ grpc_match_kept) in Hms as [Hk Hp]; [|apply grpc_match_Ok].
  split; [|done].
  eapply forC_Ok in Hfs as [HF Hnone]; [|auto with framed|apply grpc_rule_filter_Ok].
  assert (Hfr : frames o3 o5) by (eapply framed_forC; [|exact Hbs]; auto with framed).
  eapply forC_Ok in Hbs as [HB Hbad]; [|auto with framed|apply grpc_backend_Ok].
  eapply rule_sound_intro; try done. by rewrite Forall2_fmap_l.
Qed.

(** An L4 rule always compiles. *)
Lemma compile_l4_rule_total w ns kind refs o : ∃ r o',
  compile_l4_rule w ns kind refs o = (Ok r, o') ∧ frames o o' ∧
  rule_sound w ns kind (l4_source refs) o' r.
Proof.
  assert (Hrun : ∃ bs o', forC (compileBackend w ns kind) refs o = (Ok bs, o')).
  { revert o. induction refs as [|ref refs IH]; intros o; [by do 2 eexists|]. cbn [forC].
    destruct (compileBackend_total w ns kind ref o) as (b & o1 & H1). destruct (IH o1) as (bs & o2 & H2).
    exists (b :: bs), o2. unfold mbind, cm_bind, mret, cm_ret. by rewrite H1, H2. }
  destruct Hrun as (bs & o' & Hrun). eexists _, o'.
  unfold compile_l4_rule. split; [unfold mbind, cm_bind; by rewrite Hrun|].
  assert (Hfr : frames o o') by (eapply framed_forC; [|exact Hrun]; auto with framed).
  split; [done|]. eapply forC_Ok in Hrun as [HB Hbad]; [|auto with framed|apply compileBackend_Ok].
  split; cbn; try done.
  - exists []. split_and!; [constructor|done|by intros ?%elem_of_nil].
  - rewrite Forall2_fmap_l. eapply Forall2_impl; [|exact HB]. intros ref b (? & ? & ? & Hf).
    split_and!; [done..|]. rewrite Hf. constructor.
  - by apply valid_backends.
  - exists None. split_and!; [done|apply enforced_nil|done].
Qed.

Lemma framed_http_rule w ns rule : framed (compile_http_rule w ns rule).
Proof. unfold compile_http_rule. repeat (apply framed_bind; [auto with framed|intros ?]). auto with framed. Qed.
Lemma framed_grpc_rule w ns rule : framed (compileGRPCRule w ns rule).
Proof. unfold compileGRPCRule. repeat (apply framed_bind; [auto with framed|intros ?]). auto with framed. Qed.

End rules_sound.
#[export] Hint Resolve framed_http_rule framed_grpc_rule : framed.

End compile.
