(* ===== verification/Attach.v ===== *)
(** * Attaching routes

    Models the attachment half of
    [internal/lib/k8s/gatewayapi/compile.go]: which listeners a parent
    reference reaches, the admission ladder, and the attachment of HTTP,
    gRPC, TCP, UDP and TLS routes.  The listeners of a Gateway are shared
    pointers whose route counters the attachments increment: they are a
    list, a pointer is a position in it together with the value read. *)

From S2P Require Import Prelude GoStrings Compiled Build Ports GatewayTypes References.
From S2P Require Import Listeners BackendTLS AuthDoc Extensions Compile.
From stdpp Require Import options.

#[local] Open Scope nat_scope.

Module attach.
Import gatewayv1 gatewayapi references listeners extensions compile.

Definition Ptr : Type := nat * listenerState.

Definition pointers (ls : list listenerState) : list Ptr := imap pair ls.

(** ** Parents *)

Definition resolveRouteParent (ref : ParentReference) (routeNamespace : string) (gw : Gateway)
    (sets : list listenerSetState) : option string :=
  if negb (group_ok (prGroup ref)) then None
  else
    let namespace := default routeNamespace (prNamespace ref) in
    let kind := default "Gateway" (prKind ref) in
    if (kind == "Gateway") then
      if (namespace == omNamespace (gwMeta gw)) && (prName ref == omName (gwMeta gw)) then Some "" else None
    else if (kind == "ListenerSet") then
      if existsb (λ set, (omNamespace (lstMeta (ssSet set)) == namespace) &&
                         (omName (lstMeta (ssSet set)) == prName ref)) sets
      then Some (nsName namespace (prName ref)) else None
    else None.

Definition listenersOwnedBy (listeners : list Ptr) (key : string) : list Ptr :=
  filter (λ p, ownerKey p.2 = key) listeners.

(** ** Admission *)

Definition ref_selects (ref : ParentReference) (l : listenerState) : bool :=
  match prSectionName ref with Some name => name == lsName (lsSpec l) | None => true end &&
  match prPort ref with Some port => (port =? lsPort (lsSpec l))%Z | None => true end.

(** The namespace of the listener's owner. *)
Definition owner_namespace (gatewayNamespace : string) (l : listenerState) : string :=
  match lsSet l with Some set => omNamespace (lstMeta set) | None => gatewayNamespace end.

Section attach.
Context {k8s : Kubernetes} {libs : build.Libraries} {hcl : authdoc.HCL} {enc : Encoding}.

Definition namespace_admits (w : world) (routeNamespace gatewayNamespace : string) (l : listenerState) :
    bool :=
  namespaceAllowed (lsAllowedRoutes (lsSpec l)) routeNamespace (owner_namespace gatewayNamespace l)
    (wNamespaces w).

(** The admitted listeners, or the reason of the rejection. *)
Definition admitListeners (w : world) (listeners : list Ptr) (ref : ParentReference)
    (kind routeNamespace gatewayNamespace : string) : result string (list Ptr) :=
  let candidates := filter (λ p : Ptr, ref_selects ref p.2 = true) listeners in
  if (length candidates =? 0) then Err "NoMatchingParent"
  else
    let kindAdmitted := filter (λ p : Ptr, kind ∈ lsAllowedKinds p.2) candidates in
    if (length kindAdmitted =? 0) then Err "NotAllowedByListeners"
    else
      let admitted :=
        filter (λ p : Ptr, namespace_admits w routeNamespace gatewayNamespace p.2 = true) kindAdmitted in
      if (length admitted =? 0) then Err "NotAllowedByListeners" else Ok admitted.

Definition admitByHostname (listeners : list Ptr) (hostnames : list string) : list Ptr :=
  filter (λ p : Ptr, hostnamesIntersect (lsHostname (lsSpec p.2)) hostnames = true) listeners.

(** Admission with hostnames. *)
Definition admitted_by (w : world) (listeners : list Ptr) (ref : ParentReference)
    (kind routeNamespace gatewayNamespace : string) (hostnames : list string) : result string (list Ptr) :=
  candidates ← admitListeners w listeners ref kind routeNamespace gatewayNamespace;
  let admitted := admitByHostname candidates hostnames in
  if (length admitted =? 0) then Err "NoMatchingListenerHostname" else Ok admitted.

(** ** Outcomes *)

Definition new_outcome (route : AttachedRoute) (ref : ParentReference) : routeParentOutcome :=
  mkOutcome route ref false "" true "ResolvedRefs" "" None ∅.

Definition reject (reason : string) (o : routeParentOutcome) : routeParentOutcome :=
  mkOutcome (roRoute o) (roParentRef o) (roAccepted o) reason (roRefsResolved o) (roRefsReason o)
    (roRefsMessage o) (roConfig o) (roAuthDocs o).

Definition accept (config : compiled.RouteConfig) (o : routeParentOutcome) : routeParentOutcome :=
  mkOutcome (roRoute o) (roParentRef o) true "Accepted" (roRefsResolved o) (roRefsReason o)
    (roRefsMessage o) (Some config) (roAuthDocs o).

(** The names of the admitted listeners that are served. *)
Definition served_names (admitted : list Ptr) : list string :=
  (λ p : Ptr, effectiveName p.2) <$> filter (λ p : Ptr, valid p.2 = true) admitted.

Definition route_config (meta : ObjectMeta) (admitted : list Ptr) (hostnames : list string) (grpc : bool)
    (rules : list compiled.Rule) : compiled.RouteConfig :=
  compiled.mkRouteConfig (omUID meta) (omNamespace meta) (omName meta) (served_names admitted) hostnames
    (omCreation meta) grpc rules.

(** ** Attachments: the outcome and the listeners counted *)

(** [compileRoute]: [None] is the rejection of the route. *)
Definition compileRoute (w : world) (route : HTTPRoute) (admitted : list Ptr) (o : routeParentOutcome) :
    option compiled.RouteConfig * routeParentOutcome :=
  let meta := htMeta route in
  let '(rules, o) := forC (compile_http_rule w (omNamespace meta)) (htRules route) o in
  (match rules with
   | Ok rules => Some (route_config meta admitted (htHostnames route) false rules)
   | Err _ => None
   end, o).

Definition attachRoute (w : world) (gw : Gateway) (listeners : list Ptr) (route : HTTPRoute)
    (ref : ParentReference) : routeParentOutcome * list nat :=
  let o := new_outcome (AttachedHTTP route) ref in
  match admitted_by w listeners ref "HTTPRoute" (omNamespace (htMeta route)) (omNamespace (gwMeta gw))
          (htHostnames route) with
  | Err reason => (reject reason o, [])
  | Ok admitted =>
      let '(config, o) := compileRoute w route admitted o in
      match config with
      | None => (reject "UnsupportedValue" o, [])
      | Some config => (accept config o, admitted.*1)
      end
  end.

Definition attachGRPCRoute (w : world) (gw : Gateway) (listeners : list Ptr) (route : GRPCRoute)
    (ref : ParentReference) : routeParentOutcome * list nat :=
  let o := new_outcome (AttachedGRPC route) ref in
  let meta := gpMeta route in
  match admitted_by w listeners ref "GRPCRoute" (omNamespace meta) (omNamespace (gwMeta gw))
          (gpHostnames route) with
  | Err reason => (reject reason o, [])
  | Ok admitted =>
      let '(rules, o) := forC (compileGRPCRule w (omNamespace meta)) (gpRules route) o in
      match rules with
      | Err _ => (reject "UnsupportedValue" o, [])
      | Ok rules => (accept (route_config meta admitted (gpHostnames route) true rules) o, admitted.*1)
      end
  end.

Definition attachL4Route (w : world) (admitted : list Ptr) (kind : string) (meta : ObjectMeta)
    (hostnames : list string) (rules : list (list BackendRef)) (o : routeParentOutcome) :
    routeParentOutcome * list nat :=
  match rules with
  | [refs] =>
      match compile_l4_rule w (omNamespace meta) kind refs o with
      | (Ok rule, o) => (accept (route_config meta admitted hostnames false [rule]) o, admitted.*1)
      | (Err _, o) => (o, [])   (* compiling backends never fails *)
      end
  | _ => (reject "UnsupportedValue" o, [])
  end.

Definition attachTCPRoute (w : world) (gw : Gateway) (listeners : list Ptr) (route : L4Route)
    (ref : ParentReference) : routeParentOutcome * list nat :=
  let o := new_outcome (AttachedTCP route) ref in
  match admitListeners w listeners ref "TCPRoute" (omNamespace (l4Meta route)) (omNamespace (gwMeta gw)) with
  | Err reason => (reject reason o, [])
  | Ok admitted => attachL4Route w admitted "TCPRoute" (l4Meta route) [] (l4Rules route) o
  end.

Definition attachUDPRoute (w : world) (gw : Gateway) (listeners : list Ptr) (route : L4Route)
    (ref : ParentReference) : routeParentOutcome * list nat :=
  let o := new_outcome (AttachedUDP route) ref in
  match admitListeners w listeners ref "UDPRoute" (omNamespace (l4Meta route)) (omNamespace (gwMeta gw)) with
  | Err reason => (reject reason o, [])
  | Ok admitted => attachL4Route w admitted "UDPRoute" (l4Meta route) [] (l4Rules route) o
  end.

Definition attachTLSRoute (w : world) (gw : Gateway) (listeners : list Ptr) (route : L4Route)
    (ref : ParentReference) : routeParentOutcome * list nat :=
  let o := new_outcome (AttachedTLS route) ref in
  match admitted_by w listeners ref "TLSRoute" (omNamespace (l4Meta route)) (omNamespace (gwMeta gw))
          (l4Hostnames route) with
  | Err reason => (reject reason o, [])
  | Ok admitted =>
      attachL4Route w admitted "TLSRoute" (l4Meta route) (l4Hostnames route) (l4Rules route) o
  end.

(** ** All attachments of one kind *)

Definition count_route (l : listenerState) : listenerState :=
  mkListenerState (lsSpec l) (lsInternalPort l) (lsSet l) (lsAccepted l) (lsAcceptedReason l)
    (lsConflicted l) (lsRefsResolved l) (lsRefsReason l) (lsRefsMessage l) (lsSupportedKinds l)
    (lsAllowedKinds l) (lsCertData l) (lsClientCAMode l) (int32_wrap (lsAttachedRoutes l + 1)).

Definition count_routes (addrs : list nat) (ls : list listenerState) : list listenerState :=
  fold_left (λ ls a, alter count_route a ls) addrs ls.

Definition attach_ref {R} (gw : Gateway) (sets : list listenerSetState) (meta : R → ObjectMeta)
    (attach : list Ptr → R → ParentReference → routeParentOutcome * list nat) (route : R)
    (acc : list routeParentOutcome * list listenerState) (ref : ParentReference) :
    list routeParentOutcome * list listenerState :=
  match resolveRouteParent ref (omNamespace (meta route)) gw sets with
  | None => acc
  | Some key =>
      let '(o, addrs) := attach (listenersOwnedBy (pointers acc.2) key) route ref in
      (acc.1 ++ [o], count_routes addrs acc.2)
  end.

Definition attachAll {R} (gw : Gateway) (sets : list listenerSetState) (meta : R → ObjectMeta)
    (parentRefs : R → list ParentReference)
    (attach : list Ptr → R → ParentReference → routeParentOutcome * list nat) (routes : list R)
    (acc : list routeParentOutcome * list listenerState) :
    list routeParentOutcome * list listenerState :=
  fold_left (λ acc route, fold_left (attach_ref gw sets meta attach route) (parentRefs route) acc)
    routes acc.

(** The attachments of [reconcileGateway], kind by kind. *)
Definition attach_routes (w : world) (gw : Gateway) (sets : list listenerSetState)
    (ls : list listenerState) : list routeParentOutcome * list listenerState :=
  let acc := attachAll gw sets htMeta htParentRefs (attachRoute w gw) (wRoutes w) ([], ls) in
  let acc := attachAll gw sets gpMeta gpParentRefs (attachGRPCRoute w gw) (wGRPCRoutes w) acc in
  let acc := attachAll gw sets l4Meta l4ParentRefs (attachTCPRoute w gw) (wTCPRoutes w) acc in
  let acc := attachAll gw sets l4Meta l4ParentRefs (attachTLSRoute w gw) (wTLSRoutes w) acc in
  attachAll gw sets l4Meta l4ParentRefs (attachUDPRoute w gw) (wUDPRoutes w) acc.

(** ** Specification: one attachment, whatever the kind *)

Definition attach (w : world) (gw : Gateway) (ls : list Ptr) (route : AttachedRoute)
    (ref : ParentReference) : routeParentOutcome * list nat :=
  match route with
  | AttachedHTTP r => attachRoute w gw ls r ref
  | AttachedGRPC r => attachGRPCRoute w gw ls r ref
  | AttachedTCP r => attachTCPRoute w gw ls r ref
  | AttachedTLS r => attachTLSRoute w gw ls r ref
  | AttachedUDP r => attachUDPRoute w gw ls r ref
  end.

Definition kind_of (r : AttachedRoute) : string := routeKind (new_outcome r (mkParentRef None None None "" None None)).
Definition meta_of (r : AttachedRoute) : ObjectMeta := routeMeta (new_outcome r (mkParentRef None None None "" None None)).

(** The hostnames of the kinds that have them. *)
Definition hostnames_of (r : AttachedRoute) : option (list string) :=
  match r with
  | AttachedHTTP r => Some (htHostnames r)
  | AttachedGRPC r => Some (gpHostnames r)
  | AttachedTLS r => Some (l4Hostnames r)
  | AttachedTCP _ | AttachedUDP _ => None
  end.

Definition is_grpc (r : AttachedRoute) : bool := match r with AttachedGRPC _ => true | _ => false end.

(** The listener takes routes of the kind from the namespace. *)
Definition allows (w : world) (gw : Gateway) (route : AttachedRoute) (l : listenerState) : Prop :=
  kind_of route ∈ lsAllowedKinds l ∧
  namespace_admits w (omNamespace (meta_of route)) (omNamespace (gwMeta gw)) l = true.

Definition serves (route : AttachedRoute) (l : listenerState) : Prop :=
  match hostnames_of route with
  | Some hs => hostnamesIntersect (lsHostname (lsSpec l)) hs = true
  | None => True
  end.

Definition admissible (w : world) (gw : Gateway) (route : AttachedRoute) (ref : ParentReference)
    (l : listenerState) : Prop :=
  ref_selects ref l = true ∧ allows w gw route l ∧ serves route l.

#[global] Instance allows_dec w gw route l : Decision (allows w gw route l).
Proof. unfold allows. apply _. Defined.
#[global] Instance serves_dec route l : Decision (serves route l).
Proof. unfold serves. destruct (hostnames_of route); apply _. Defined.
#[global] Instance admissible_dec w gw route ref l : Decision (admissible w gw route ref l).
Proof. unfold admissible. apply _. Defined.

Definition admission (w : world) (gw : Gateway) (ls : list Ptr) (route : AttachedRoute)
    (ref : ParentReference) : result string (list Ptr) :=
  let run := admitListeners w ls ref (kind_of route) (omNamespace (meta_of route)) (omNamespace (gwMeta gw)) in
  match hostnames_of route with
  | Some hs => candidates ← run;
               let admitted := admitByHostname candidates hs in
               if (length admitted =? 0) then Err "NoMatchingListenerHostname" else Ok admitted
  | None => run
  end.

(** The reason of a rejection says how far the admission went. *)
Inductive refusal (w : world) (gw : Gateway) (ls : list Ptr) (route : AttachedRoute)
    (ref : ParentReference) : string → Prop :=
  | no_parent :
      (∀ p, p ∈ ls → ref_selects ref p.2 = false) → refusal w gw ls route ref "NoMatchingParent"
  | not_allowed p :
      p ∈ ls → ref_selects ref p.2 = true →
      (∀ p, p ∈ ls → ref_selects ref p.2 = true → ¬ allows w gw route p.2) →
      refusal w gw ls route ref "NotAllowedByListeners"
  | no_hostname p :
      p ∈ ls → ref_selects ref p.2 = true → allows w gw route p.2 →
      (∀ p, p ∈ ls → ref_selects ref p.2 = true → allows w gw route p.2 → ¬ serves route p.2) →
      refusal w gw ls route ref "NoMatchingListenerHostname".

Lemma nonempty_length {A} (l : list A) : (length l =? 0) = false → ∃ x, x ∈ l.
Proof. destruct l as [|x l]; [done|]. intros _. exists x. left. Qed.

Lemma empty_filter {A} (P : A → Prop) `{!∀ x, Decision (P x)} (l : list A) x :
  (length (filter P l) =? 0) = true → x ∈ l → ¬ P x.
Proof.
  intros Hl%Nat.eqb_eq%length_zero_iff_nil Hx HP.
  assert (Hf : x ∈ filter P l) by by apply list_elem_of_filter. rewrite Hl in Hf. by apply elem_of_nil in Hf.
Qed.

Lemma filter_and {A} (P Q R : A → Prop) `{!∀ x, Decision (P x), !∀ x, Decision (Q x), !∀ x, Decision (R x)}
    (l : list A) :
  (∀ x, R x ↔ P x ∧ Q x) → filter Q (filter P l) = filter R l.
Proof.
  intros HR. induction l as [|x l IH]; [done|]. rewrite (list.filter_cons P), (list.filter_cons R).
  specialize (HR x). repeat case_decide; rewrite ?list.filter_cons; repeat case_decide; rewrite ?IH; tauto.
Qed.

Lemma admitListeners_spec w gw ls route ref :
  match admitListeners w ls ref (kind_of route) (omNamespace (meta_of route)) (omNamespace (gwMeta gw)) with
  | Ok admitted =>
      admitted = filter (λ p : Ptr, ref_selects ref p.2 = true ∧ allows w gw route p.2) ls ∧ admitted ≠ []
  | Err reason => refusal w gw ls route ref reason
  end.
Proof.
  unfold admitListeners. cbn zeta.
  destruct (length (filter (λ p : Ptr, ref_selects ref p.2 = true) ls) =? 0) eqn:H1.
  { apply no_parent. intros p Hp. apply not_true_is_false. exact (empty_filter _ _ p H1 Hp). }
  apply nonempty_length in H1 as [p [Hs Hp]%list_elem_of_filter].
  rewrite (filter_and _ _ (λ p : Ptr, ref_selects ref p.2 = true ∧ kind_of route ∈ lsAllowedKinds p.2)) by done.
  destruct (length (filter _ _) =? 0) eqn:H2.
  { eapply not_allowed; [done..|]. intros q Hq Hsq [Hk _].
    exact (empty_filter _ _ q H2 Hq (conj Hsq Hk)). }
  clear H2. rewrite (filter_and _ _ (λ p : Ptr, ref_selects ref p.2 = true ∧ allows w gw route p.2))
    by (unfold allows; tauto).
  destruct (length (filter _ _) =? 0) eqn:H3.
  { eapply not_allowed; [done..|]. intros q Hq Hsq Ha. exact (empty_filter _ _ q H3 Hq (conj Hsq Ha)). }
  split; [done|]. intros Hn. by rewrite Hn in H3.
Qed.

Lemma admission_spec w gw ls route ref :
  match admission w gw ls route ref with
  | Ok admitted => admitted = filter (λ p : Ptr, admissible w gw route ref p.2) ls ∧ admitted ≠ []
  | Err reason => refusal w gw ls route ref reason
  end.
Proof.
  unfold admission. cbn zeta. pose proof (admitListeners_spec w gw ls route ref) as Ha.
  destruct (hostnames_of route) as [hs|] eqn:Hh; destruct (admitListeners _ _ _ _ _ _) as [adm|reason]; cbn; try done.
  - destruct Ha as [-> Hne]. unfold admitByHostname.
    rewrite (filter_and _ _ (λ p : Ptr, admissible w gw route ref p.2))
      by (intros p; unfold admissible, serves; rewrite Hh; tauto).
    destruct (length (filter _ _) =? 0) eqn:H3; [|split; [done|intros Hn; by rewrite Hn in H3]].
    destruct (filter (λ p : Ptr, _ ∧ _) ls) as [|p rest] eqn:E; [done|].
    assert (Hp : p ∈ p :: rest) by left. rewrite <-E in Hp. apply list_elem_of_filter in Hp as [[??]?].
    eapply no_hostname; [done..|]. intros q Hq Hs1 Hs2 Hs3. exact (empty_filter _ _ q H3 Hq (conj Hs1 (conj Hs2 Hs3))).
  - destruct Ha as [-> Hne]. split; [|done].
    apply list_filter_iff. intros p. unfold admissible, serves. rewrite Hh. tauto.
Qed.

(** ** Specification: the rules of an accepted route *)

Definition http_rule_kept (w : world) (ns : string) (o : routeParentOutcome) (rule : HTTPRouteRule)
    (c : compiled.Rule) : Prop :=
  rule_sound w ns "HTTPRoute" (http_source rule) o c ∧
  Forall2 match_kept (hrMatches rule) (compiled.ruMatches c).

Definition grpc_rule_kept (w : world) (ns : string) (o : routeParentOutcome) (rule : GRPCRouteRule)
    (c : compiled.Rule) : Prop :=
  rule_sound w ns "GRPCRoute" (grpc_source rule) o c ∧
  Forall2 grpc_match_kept (grMatches rule) (compiled.ruMatches c).

(** Rule for rule, nothing is dropped or widened. *)
Definition rules_kept (w : world) (route : AttachedRoute) (o : routeParentOutcome)
    (rules : list compiled.Rule) : Prop :=
  let ns := omNamespace (meta_of route) in
  match route with
  | AttachedHTTP r => Forall2 (http_rule_kept w ns o) (htRules r) rules
  | AttachedGRPC r => Forall2 (grpc_rule_kept w ns o) (gpRules r) rules
  | AttachedTCP r | AttachedTLS r | AttachedUDP r =>
      ∃ refs c, l4Rules r = [refs] ∧ rules = [c] ∧ rule_sound w ns (kind_of route) (l4_source refs) o c
  end.

Lemma rules_kept_mono w route o o' rules :
  (roRefsResolved o = false → roRefsResolved o' = false) →
  (∀ id, is_Some (roAuthDocs o !! id) → is_Some (roAuthDocs o' !! id)) →
  rules_kept w route o rules → rules_kept w route o' rules.
Proof.
  intros H1 H2. destruct route; cbn.
  1,2: apply Forall2_impl; intros rule c [Hs Hm]; split; [|done]; by eapply rule_sound_mono.
  all: intros (refs & c & Hr & Hc & Hs); exists refs, c; split_and!; [done|done|]; by eapply rule_sound_mono.
Qed.

(** The three ways an attachment ends. *)
Inductive attached (w : world) (gw : Gateway) (ls : list Ptr) (route : AttachedRoute) (ref : ParentReference) :
    routeParentOutcome → list nat → Prop :=
  | attached_refused reason :
      admission w gw ls route ref = Err reason →
      attached w gw ls route ref (reject reason (new_outcome route ref)) []
  | attached_unsupported admitted o :
      admission w gw ls route ref = Ok admitted → frames (new_outcome route ref) o →
      attached w gw ls route ref (reject "UnsupportedValue" o) []
  | attached_accepted admitted o rules :
      admission w gw ls route ref = Ok admitted → frames (new_outcome route ref) o →
      rules_kept w route o rules →
      attached w gw ls route ref
        (accept (route_config (meta_of route) admitted (default [] (hostnames_of route)) (is_grpc route) rules) o)
        admitted.*1.

Lemma attachL4Route_attached w gw ls route ref kind meta hostnames rules admitted :
  admission w gw ls route ref = Ok admitted → is_grpc route = false →
  kind = kind_of route → meta = meta_of route → hostnames = default [] (hostnames_of route) →
  (∀ refs o c, rules = [refs] → rule_sound w (omNamespace meta) kind (l4_source refs) o c → rules_kept w route o [c]) →
  let r := attachL4Route w admitted kind meta hostnames rules (new_outcome route ref) in
  attached w gw ls route ref r.1 r.2.
Proof.
  intros Ha Hg -> -> -> Hr. unfold attachL4Route. cbn zeta.
  assert (Hbad : attached w gw ls route ref (reject "UnsupportedValue" (new_outcome route ref)) [])
    by by eapply attached_unsupported.
  destruct rules as [|refs [|]]; [done| |done].
  destruct (compile_l4_rule_total w (omNamespace (meta_of route)) (kind_of route) refs (new_outcome route ref))
    as (c & o & -> & Hfr & Hs). cbn.
  rewrite <-Hg. eapply attached_accepted; [done|done|]. by eapply Hr.
Qed.

Lemma attach_attached w gw ls route ref :
  attached w gw ls route ref (attach w gw ls route ref).1 (attach w gw ls route ref).2.
Proof.
  destruct route as [r|r|r|r|r]; cbn [attach].
  - unfold attachRoute. cbn zeta. destruct (admitted_by _ _ _ _ _ _ _) as [adm|reason] eqn:Ha; [|by apply attached_refused].
    unfold compileRoute. cbn zeta. destruct (forC _ _ _) as [[rules|e] o] eqn:Hc; cbn.
    + eapply attached_accepted; [exact Ha|eapply framed_forC; [|exact Hc]; auto with framed|].
      eapply forC_mono; [..|exact Hc]; [auto with framed| |apply compile_http_rule_Ok].
      intros o1 o2 rule c [? ? ? ? ? ?] [Hs Hm]. split; [by eapply rule_sound_mono|done].
    + eapply attached_unsupported; [exact Ha|]. eapply framed_forC; [|exact Hc]; auto with framed.
  - unfold attachGRPCRoute. cbn zeta. destruct (admitted_by _ _ _ _ _ _ _) as [adm|reason] eqn:Ha; [|by apply attached_refused].
    destruct (forC _ _ _) as [[rules|e] o] eqn:Hc; cbn.
    + eapply attached_accepted; [exact Ha|eapply framed_forC; [|exact Hc]; auto with framed|].
      eapply forC_mono; [..|exact Hc]; [auto with framed| |apply compileGRPCRule_Ok].
      intros o1 o2 rule c [? ? ? ? ? ?] [Hs Hm]. split; [by eapply rule_sound_mono|done].
    + eapply attached_unsupported; [exact Ha|]. eapply framed_forC; [|exact Hc]; auto with framed.
  - unfold attachTCPRoute. destruct (admitListeners _ _ _ _ _ _) as [adm|reason] eqn:Ha; [|by apply attached_refused].
    apply attachL4Route_attached; try done. intros refs o c ?. by exists refs, c.
  - unfold attachTLSRoute. destruct (admitted_by _ _ _ _ _ _ _) as [adm|reason] eqn:Ha; [|by apply attached_refused].
    apply attachL4Route_attached; try done. intros refs o c ?. by exists refs, c.
  - unfold attachUDPRoute. destruct (admitListeners _ _ _ _ _ _) as [adm|reason] eqn:Ha; [|by apply attached_refused].
    apply attachL4Route_attached; try done. intros refs o c ?. by exists refs, c.
Qed.

(** ** Attachments do not read the counters *)

Definition uncount (l : listenerState) : listenerState :=
  mkListenerState (lsSpec l) (lsInternalPort l) (lsSet l) (lsAccepted l) (lsAcceptedReason l)
    (lsConflicted l) (lsRefsResolved l) (lsRefsReason l) (lsRefsMessage l) (lsSupportedKinds l)
    (lsAllowedKinds l) (lsCertData l) (lsClientCAMode l) 0.

Definition bare (p : Ptr) : Ptr := (p.1, uncount p.2).

Definition bares (r : result string (list Ptr)) : result string (list Ptr) :=
  match r with Ok ps => Ok (bare <$> ps) | Err e => Err e end.

Lemma filter_bare (P : Ptr → Prop) `{!∀ p, Decision (P p)} (ps : list Ptr) :
  (∀ p, P (bare p) ↔ P p) → filter P (bare <$> ps) = bare <$> filter P ps.
Proof.
  intros HP. induction ps as [|p ps IH]; [done|]. rewrite fmap_cons, !list.filter_cons, IH.
  specialize (HP p). repeat case_decide; tauto.
Qed.

Lemma admitListeners_bare w (ps : list Ptr) ref kind routeNs gwNs :
  admitListeners w (bare <$> ps) ref kind routeNs gwNs =
  bares (admitListeners w ps ref kind routeNs gwNs).
Proof.
  unfold admitListeners. cbn zeta. rewrite !filter_bare by done. rewrite !length_fmap.
  by repeat match goal with |- context [if ?b then _ else _] => destruct b end.
Qed.

Lemma admit_bare w (ps : list Ptr) ref kind routeNs gwNs hs :
  admitted_by w (bare <$> ps) ref kind routeNs gwNs hs = bares (admitted_by w ps ref kind routeNs gwNs hs).
Proof.
  unfold admitted_by, admitByHostname. rewrite admitListeners_bare. destruct (admitListeners _ _ _ _ _ _); [|done].
  cbn. rewrite filter_bare by done. rewrite length_fmap. by destruct (_ =? 0).
Qed.

Lemma served_names_bare (ps : list Ptr) : served_names (bare <$> ps) = served_names ps.
Proof. unfold served_names. rewrite filter_bare by done. by rewrite <-list_fmap_compose. Qed.

Lemma positions_bare (ps : list Ptr) : (bare <$> ps).*1 = ps.*1.
Proof. by rewrite <-list_fmap_compose. Qed.

Lemma attach_bare w gw (ps : list Ptr) route ref :
  attach w gw (bare <$> ps) route ref = attach w gw ps route ref.
Proof.
  destruct route; cbn [attach];
    unfold attachRoute, attachGRPCRoute, attachTCPRoute, attachTLSRoute, attachUDPRoute, attachL4Route,
      compileRoute, route_config;
    rewrite ?admit_bare, ?admitListeners_bare;
    (destruct (admitted_by _ _ _ _ _ _ _) || destruct (admitListeners _ _ _ _ _ _)); try done; cbn [bares];
    by rewrite served_names_bare, positions_bare.
Qed.

Lemma pointers_bare (ls : list listenerState) : bare <$> pointers ls = pointers (uncount <$> ls).
Proof. unfold pointers. rewrite imap_fmap, fmap_imap. by apply imap_ext. Qed.

Lemma owned_bare (ps : list Ptr) key : bare <$> listenersOwnedBy ps key = listenersOwnedBy (bare <$> ps) key.
Proof. unfold listenersOwnedBy. by rewrite filter_bare. Qed.

Lemma count_routes_bare addrs (ls : list listenerState) : uncount <$> count_routes addrs ls = uncount <$> ls.
Proof.
  unfold count_routes. revert ls. induction addrs as [|a addrs IH]; intros ls; cbn; [done|].
  rewrite IH, (list_fmap_alter _ _ id) by by apply Forall_true. by rewrite list_alter_id.
Qed.

(** ** Attachments one by one *)

(** Every route of the world with each of its parent references. *)
Definition attachments (w : world) : list (AttachedRoute * ParentReference) :=
  let pairs {R} (f : R → AttachedRoute) (refs : R → list ParentReference) (routes : list R) :=
    routes ≫= λ r, pair (f r) <$> refs r in
  pairs AttachedHTTP htParentRefs (wRoutes w) ++ pairs AttachedGRPC gpParentRefs (wGRPCRoutes w) ++
  pairs AttachedTCP l4ParentRefs (wTCPRoutes w) ++ pairs AttachedTLS l4ParentRefs (wTLSRoutes w) ++
  pairs AttachedUDP l4ParentRefs (wUDPRoutes w).

(** An attachment considered alone; [None] targets another Gateway. *)
Definition attach_one (w : world) (gw : Gateway) (sets : list listenerSetState) (ls : list listenerState)
    (a : AttachedRoute * ParentReference) : option (routeParentOutcome * list nat) :=
  key ← resolveRouteParent a.2 (omNamespace (meta_of a.1)) gw sets;
  Some (attach w gw (listenersOwnedBy (pointers ls) key) a.1 a.2).

(** The state of the attachment loop after the attachments [as_]. *)
Definition attached_state (w : world) (gw : Gateway) (sets : list listenerSetState) (ls : list listenerState)
    (as_ : list (AttachedRoute * ParentReference)) : list routeParentOutcome * list listenerState :=
  let rs := omap (attach_one w gw sets ls) as_ in (rs.*1, count_routes (rs ≫= snd) ls).

Lemma attach_one_bare w gw sets ls ls' a :
  uncount <$> ls = uncount <$> ls' → attach_one w gw sets ls a = attach_one w gw sets ls' a.
Proof.
  intros H. unfold attach_one. destruct (resolveRouteParent _ _ _ _) as [key|]; [|done]. cbn. f_equal.
  rewrite <-(attach_bare _ _ (listenersOwnedBy (pointers ls) key)).
  rewrite <-(attach_bare _ _ (listenersOwnedBy (pointers ls') key)).
  by rewrite !owned_bare, !pointers_bare, H.
Qed.

Lemma attach_ref_state {R} (f : R → AttachedRoute) (meta : R → ObjectMeta) at_ w gw sets ls as_ r ref :
  (∀ r, meta r = meta_of (f r)) → (∀ ps r ref, at_ ps r ref = attach w gw ps (f r) ref) →
  attach_ref gw sets meta at_ r (attached_state w gw sets ls as_) ref =
  attached_state w gw sets ls (as_ ++ [(f r, ref)]).
Proof.
  intros Hmeta Hat. unfold attach_ref, attached_state. cbn zeta. rewrite omap_app, Hmeta.
  set (rs := omap (attach_one w gw sets ls) as_).
  assert (He : omap (attach_one w gw sets ls) [(f r, ref)] =
    match attach_one w gw sets (count_routes (rs ≫= snd) ls) (f r, ref) with Some x => [x] | None => [] end).
  { rewrite (attach_one_bare _ _ _ _ ls) by apply count_routes_bare. cbn. by destruct (attach_one _ _ _ _ _). }
  rewrite He. clear He. unfold attach_one. cbn [fst snd].
  destruct (resolveRouteParent _ _ _ _) as [key|]; cbn; [|by rewrite app_nil_r].
  rewrite Hat. destruct (attach _ _ _ _ _) as [o addrs].
  rewrite fmap_app, bind_app. cbn. rewrite app_nil_r. unfold count_routes. by rewrite fold_left_app.
Qed.

Lemma attachAll_state {R} (f : R → AttachedRoute) (meta : R → ObjectMeta) refs at_ w gw sets ls as_ routes :
  (∀ r, meta r = meta_of (f r)) → (∀ ps r ref, at_ ps r ref = attach w gw ps (f r) ref) →
  attachAll gw sets meta refs at_ routes (attached_state w gw sets ls as_) =
  attached_state w gw sets ls (as_ ++ (routes ≫= λ r, pair (f r) <$> refs r)).
Proof.
  intros Hmeta Hat. unfold attachAll. revert as_. induction routes as [|r routes IH]; intros as_; cbn.
  { by rewrite app_nil_r. }
  assert (Hr : ∀ rs as_, fold_left (attach_ref gw sets meta at_ r) rs (attached_state w gw sets ls as_) =
    attached_state w gw sets ls (as_ ++ (pair (f r) <$> rs))).
  { induction rs as [|ref rs IHr]; intros as'; cbn; [by rewrite app_nil_r|].
    rewrite (attach_ref_state f) by done. rewrite IHr, <-app_assoc. done. }
  rewrite Hr, IH, <-app_assoc. done.
Qed.

Lemma attach_routes_state w gw sets ls :
  attach_routes w gw sets ls = attached_state w gw sets ls (attachments w).
Proof.
  unfold attach_routes. cbn zeta. change ([], ls) with (attached_state w gw sets ls []).
  rewrite (attachAll_state AttachedHTTP), (attachAll_state AttachedGRPC), (attachAll_state AttachedTCP),
    (attachAll_state AttachedTLS), (attachAll_state AttachedUDP) by done.
  unfold attachments. by rewrite <-!app_assoc.
Qed.

(** ** The counters *)

Definition occurrences (i : nat) (addrs : list nat) : nat := length (filter (.= i) addrs).

Lemma int32_wrap_succ z : int32_wrap (int32_wrap z + 1) = int32_wrap (z + 1).
Proof.
  unfold int32_wrap. f_equal.
  replace ((z + 2 ^ 31) `mod` 2 ^ 32 - 2 ^ 31 + 1 + 2 ^ 31)%Z with ((z + 2 ^ 31) `mod` 2 ^ 32 + 1)%Z by lia.
  rewrite Z.add_mod_idemp_l by lia. f_equal. lia.
Qed.

Lemma count_routes_lookup addrs ls i l n :
  ls !! i = Some l → lsAttachedRoutes l = int32_wrap n →
  ∃ l', count_routes addrs ls !! i = Some l' ∧ uncount l' = uncount l ∧
        lsAttachedRoutes l' = int32_wrap (n + Z.of_nat (occurrences i addrs)).
Proof.
  unfold count_routes. revert ls l n. induction addrs as [|a addrs IH]; intros ls l n Hl Hn; cbn [fold_left].
  { exists l. cbn. by rewrite Z.add_0_r. }
  unfold occurrences. rewrite list.filter_cons. case_decide as Ha.
  - subst a. destruct (IH (alter count_route i ls) (count_route l) (n + 1)%Z) as (l' & ? & ? & Hc).
    + by rewrite list_lookup_alter_eq, Hl.
    + cbn. by rewrite Hn, int32_wrap_succ.
    + exists l'. split_and!; [done..|]. rewrite Hc. unfold occurrences. cbn [length]. f_equal. lia.
  - apply (IH _ _ n); [|done]. by rewrite list_lookup_alter_ne.
Qed.

Lemma occurrences_NoDup i addrs : NoDup addrs → occurrences i addrs = if decide (i ∈ addrs) then 1 else 0.
Proof.
  unfold occurrences. induction 1 as [|a addrs Hn _ IH]; [done|]. rewrite list.filter_cons.
  repeat case_decide; cbn [length]; rewrite ?IH; repeat case_decide; set_solver.
Qed.

Lemma occurrences_bind i (rs : list (routeParentOutcome * list nat)) :
  Forall (λ r, NoDup r.2) rs → occurrences i (rs ≫= snd) = length (filter (λ r, i ∈ r.2) rs).
Proof.
  induction 1 as [|r rs Hr _ IH]; [done|]. rewrite list.filter_cons. cbn.
  unfold occurrences in *. rewrite list.filter_app, length_app, IH. fold (occurrences i r.2).
  rewrite occurrences_NoDup by done. by case_decide.
Qed.

Lemma pointers_NoDup ls : NoDup (pointers ls).*1.
Proof.
  unfold pointers. rewrite fmap_imap. cbn. assert (H : imap (λ i (_ : listenerState), i) ls = seq 0 (length ls)).
  { apply list_eq. intros i. rewrite list_lookup_imap. destruct (decide (i < length ls)) as [Hi|Hi].
    - apply lookup_lt_is_Some in Hi as [l Hl]. rewrite Hl. cbn. symmetry. apply lookup_seq.
      split; [lia|]. by eapply lookup_lt_Some.
    - rewrite lookup_ge_None_2 by lia. cbn. symmetry. apply lookup_ge_None. rewrite length_seq. lia. }
  erewrite imap_ext; [rewrite H; apply NoDup_seq|]. done.
Qed.

Lemma filter_positions_NoDup (P : Ptr → Prop) `{!∀ p, Decision (P p)} (ps : list Ptr) :
  NoDup ps.*1 → NoDup (filter P ps).*1.
Proof. intros Hn. eapply sublist_NoDup; [exact Hn|]. apply fmap_sublist, sublist_filter. Qed.

Lemma attach_counted_NoDup w gw ps route ref : NoDup ps.*1 → NoDup (attach w gw ps route ref).2.
Proof.
  intros Hn. destruct (attach_attached w gw ps route ref) as [reason|adm o|adm o rules Ha]; [constructor..|].
  pose proof (admission_spec w gw ps route ref) as Hs. rewrite Ha in Hs. destruct Hs as [-> _].
  by apply filter_positions_NoDup.
Qed.

Lemma attach_one_NoDup w gw sets ls as_ :
  Forall (λ r : routeParentOutcome * list nat, NoDup r.2) (omap (attach_one w gw sets ls) as_).
Proof.
  apply list.Forall_forall. intros r (a & _ & Ha)%list_elem_of_omap. unfold attach_one in Ha.
  destruct (resolveRouteParent _ _ _ _); [|done]. injection Ha as <-.
  apply attach_counted_NoDup, filter_positions_NoDup, pointers_NoDup.
Qed.

Lemma rules_kept_sound w route o rules c :
  rules_kept w route o rules → c ∈ rules →
  ∃ src, rule_sound w (omNamespace (meta_of route)) (kind_of route) src o c.
Proof.
  destruct route; cbn.
  1,2: intros HF Hc; induction HF as [|rule c' rs cs [Hs _] _ IH]; [by apply elem_of_nil in Hc|];
       apply elem_of_cons in Hc as [->|Hc]; [by eexists|by apply IH].
  all: intros (refs & c' & _ & -> & Hs) ->%list_elem_of_singleton; by eexists.
Qed.

(** An outcome of the loop is the outcome of an attachment. *)
Lemma outcome_attached w gw sets ls o :
  o ∈ (attach_routes w gw sets ls).1 →
  ∃ route ref ps counted, attached w gw ps route ref o counted.
Proof.
  rewrite attach_routes_state. cbn. intros ([o' counted] & -> & (a & _ & Ha)%list_elem_of_omap)%list_elem_of_fmap.
  unfold attach_one in Ha. destruct (resolveRouteParent _ _ _ _) as [key|]; [|done].
  injection Ha as Ha. pose proof (attach_attached w gw (listenersOwnedBy (pointers ls) key) a.1 a.2) as Hat.
  rewrite Ha in Hat. by do 4 eexists.
Qed.

(** The backends of a rule, mirrors included. *)
Definition targets (rule : compiled.Rule) (b : compiled.Backend) : Prop :=
  b ∈ compiled.ruBackends rule ∨ ∃ f, f ∈ compiled.ruFilters rule ∧ compiled.fMirror f = Some b.

Lemma sound_target w ns kind src o rule b :
  rule_sound w ns kind src o rule → targets rule b → backend_permitted w ns kind b.
Proof.
  intros [(cs & Hcs & Hfs & _) HB _ _ _ _] [[i Hi]%list_elem_of_lookup|(f & Hin & Hm)].
  - destruct (Forall2_lookup_r _ _ _ _ _ HB Hi) as (ref & _ & Hk). apply Hk.
  - rewrite Hfs in Hin. apply list_elem_of_omap in Hin as (c & [i Hi]%list_elem_of_lookup & Hc). cbn in Hc. subst c.
    destruct (Forall2_lookup_r _ _ _ _ _ Hcs Hi) as (hf & _ & Hk). cbn in Hk.
    destruct Hk; simplify_eq/=; done.
Qed.

(** ** Properties *)

(** C6: For every kind of route an attachment is accepted only on the listeners
    its reference selects, that admit its kind and namespace and, where it has
    hostnames, share one; exactly those are counted and their valid ones
    published; a rejection reports how far the admission went and leaves no
    configuration. *)
Theorem route_admission w gw ls route ref :
  let '(o, counted) := attach w gw ls route ref in
  let admitted := filter (λ p : Ptr, admissible w gw route ref p.2) ls in
  roRoute o = route ∧ roParentRef o = ref ∧
  if roAccepted o then
    roAcceptedReason o = "Accepted" ∧ admitted ≠ [] ∧ counted = admitted.*1 ∧
    ∃ c, roConfig o = Some c ∧ compiled.rcListeners c = served_names admitted ∧
         compiled.rcHostnames c = default [] (hostnames_of route) ∧
         compiled.rcNamespace c = omNamespace (meta_of route) ∧ compiled.rcGRPC c = is_grpc route
  else
    roConfig o = None ∧ counted = [] ∧
    (refusal w gw ls route ref (roAcceptedReason o) ∨
     admitted ≠ [] ∧ roAcceptedReason o = "UnsupportedValue").
Proof.
  destruct (attach w gw ls route ref) as [o counted] eqn:E. cbn zeta.
  pose proof (attach_attached w gw ls route ref) as Ha. rewrite E in Ha. cbn in Ha.
  pose proof (admission_spec w gw ls route ref) as Hs.
  destruct Ha as [reason Hr|adm o Hr [H1 H2 H3 H4]|adm o rules Hr [H1 H2 H3 H4]]; rewrite Hr in Hs; cbn.
  - split_and!; try done. by left.
  - destruct Hs as [-> Hne]. cbn in *. rewrite H3. split_and!; try done. by right.
  - destruct Hs as [-> Hne]. split_and!; try done. by eexists.
Qed.


(** C5: Every backend or mirror marked valid in any route compiled for a Gateway
    is in the route's namespace or permitted by a ReferenceGrant of its own
    namespace for that kind of route, and its Service exists. *)
Theorem backends_need_grants w gw sets ls o c rule b :
  o ∈ (attach_routes w gw sets ls).1 → roConfig o = Some c → rule ∈ compiled.rcRules c →
  targets rule b → compiled.bValid b = true →
  (compiled.bNamespace b = compiled.rcNamespace c ∨
   ∃ grant, grant ∈ wGrants w ∧
     permits grant GroupName (routeKind o) (compiled.rcNamespace c) "Service"
       (compiled.bNamespace b) (compiled.bName b)) ∧
  is_Some (wServices w !! nsName (compiled.bNamespace b) (compiled.bName b)).
Proof.
  intros (route & ref & ps & counted & Ha)%outcome_attached Hc Hrule Ht Hv.
  destruct Ha as [reason|adm o Hr Hf|adm o rules Hr Hf Hk]; cbn in Hc; [done| |].
  { by rewrite (fr_config _ _ Hf) in Hc. }
  injection Hc as <-. cbn in Hrule. destruct (rules_kept_sound _ _ _ _ _ Hk Hrule) as (src & Hs).
  destruct (sound_target _ _ _ _ _ _ _ Hs Ht Hv) as (Hreach & Hsvc & _). split; [|done].
  replace (routeKind (accept _ o)) with (kind_of route); [done|].
  unfold kind_of, routeKind. cbn. by rewrite (fr_route _ _ Hf).
Qed.

(** C11: Attaching all routes of all kinds one after another over shared
    listener counters gives each attachment the outcome it has alone, and each
    listener's counter is the number of attachments that counted it, as a 32-bit
    integer. *)
Theorem attachments_independent w gw sets ls :
  Forall (λ l, lsAttachedRoutes l = 0%Z) ls →
  let alone := omap (attach_one w gw sets ls) (attachments w) in
  let '(outcomes, ls') := attach_routes w gw sets ls in
  outcomes = alone.*1 ∧
  ∀ i l, ls !! i = Some l → ∃ l', ls' !! i = Some l' ∧ uncount l' = uncount l ∧
    lsAttachedRoutes l' = int32_wrap (Z.of_nat (length (filter (λ a, i ∈ a.2) alone))).
Proof.
  intros H0 alone. rewrite attach_routes_state. cbn. split; [done|]. intros i l Hl.
  destruct (count_routes_lookup (alone ≫= snd) ls i l 0) as (l' & ? & ? & Hn); [done| |].
  { rewrite list.Forall_forall in H0. rewrite (H0 l) by by eapply list_elem_of_lookup_2. done. }
  exists l'. split_and!; [done..|]. rewrite Hn, occurrences_bind by apply attach_one_NoDup. done.
Qed.

End attach.
(** ** Examples *)

Definition ex_backend (ns : option string) : HTTPBackendRef :=
  mkHTTPBackendRef (mkBackendRef (mkBackendObjectRef None None "api" ns (Some 80%Z)) None) [].

(** One backend across namespaces with a grant, one without. *)
Definition ex_http_route : HTTPRoute :=
  mkHTTPRoute (listeners.ex_meta "infra" "shop") [mkParentRef None None None "gw" None None;
                                        mkParentRef None None None "gw" (Some "api") None]
    ["www.example.com"]
    [mkHTTPRule [mkHTTPMatch (Some (mkPathMatch (Some "PathPrefix") (Some "/cart"))) [] [] None] []
       [ex_backend (Some "apps"); ex_backend (Some "vault")] None].

Definition ex_attach_world : world :=
  let w := ex_world [] in
  mkWorld [] [] [ex_http_route] [] [] [] []
    [mkReferenceGrant "apps" [mkGrantFrom GroupName "HTTPRoute" "infra"] [mkGrantTo "" "Service" None]]
    ∅ [] [] [] ∅ (list_to_map [("apps/api", corev1.mkService (listeners.ex_meta "apps" "api") ∅ []);
                               ("vault/api", corev1.mkService (listeners.ex_meta "vault" "api") ∅ [])])
    [] [] [] (wExtensionCM w) (wExtensionSecret w) EmptyAckState "".

Definition ex_attached : list routeParentOutcome * list listenerState :=
  let k8s := ex_cluster in let libs := build.ex_libs in let hcl := authdoc.ex_hcl in let enc := ex_enc in
  attach_routes ex_attach_world ex_listener_gw [] ex_validated.1.

Definition ex_first : routeParentOutcome :=
  default (new_outcome (AttachedHTTP ex_http_route) (mkParentRef None None None "" None None))
    (ex_attached.1 !! 0).

Definition ex_config : compiled.RouteConfig :=
  default (compiled.mkRouteConfig "" "" "" [] [] 0 false []) (roConfig ex_first).

(** The route attaches to the listener of its hostname only; the reference
    that names the other listener is refused; the ungranted backend is kept
    invalid and reported. *)
Example ex_attached_ok :
  (λ o, (roAccepted o, roAcceptedReason o, roRefsReason o)) <$> ex_attached.1 =
    [(true, "Accepted", "RefNotPermitted"); (false, "NoMatchingListenerHostname", "ResolvedRefs")] ∧
  lsAttachedRoutes <$> ex_attached.2 = [1; 0]%Z ∧
  (compiled.rcRules ex_config ≫= λ r, compiled.bValid <$> compiled.ruBackends r) = [true; false].
Proof. vm_compute. done. Qed.


Definition ex_rule : compiled.Rule :=
  default (compiled.mkRule [] [] [] 0 0 None "" false "") (compiled.rcRules ex_config !! 0).
Definition ex_target : compiled.Backend :=
  default (compiled.mkBackend "" "" 0 0 false "" "" [] None) (compiled.ruBackends ex_rule !! 0).

Lemma backends_need_grants_witness :
  compiled.bNamespace ex_target = "apps" ∧
  (compiled.bNamespace ex_target = compiled.rcNamespace ex_config ∨
   ∃ grant, grant ∈ wGrants ex_attach_world ∧
     permits grant GroupName (routeKind ex_first) (compiled.rcNamespace ex_config) "Service"
       (compiled.bNamespace ex_target) (compiled.bName ex_target)).
Proof.
  split; [vm_compute; reflexivity|].
  refine (proj1 (@backends_need_grants ex_cluster build.ex_libs authdoc.ex_hcl ex_enc ex_attach_world
    ex_listener_gw [] ex_validated.1 ex_first ex_config ex_rule ex_target _ _ _ _ _)).
  - apply (list_elem_of_lookup_2 _ 0). vm_compute. reflexivity.
  - vm_compute. reflexivity.
  - apply (list_elem_of_lookup_2 _ 0). vm_compute. reflexivity.
  - left. apply (list_elem_of_lookup_2 _ 0). vm_compute. reflexivity.
  - vm_compute. reflexivity.
Defined.

Lemma attachments_independent_witness :
  let k8s := ex_cluster in let libs := build.ex_libs in let hcl := authdoc.ex_hcl in let enc := ex_enc in
  (attach_routes ex_attach_world ex_listener_gw [] ex_validated.1).1 =
  (omap (attach_one ex_attach_world ex_listener_gw [] ex_validated.1) (attachments ex_attach_world)).*1.
Proof.
  intros k8s libs hcl enc.
  assert (Hz : Forall (λ l, lsAttachedRoutes l = 0%Z) ex_validated.1) by (vm_compute; repeat constructor).
  pose proof (@attachments_independent k8s libs hcl enc ex_attach_world ex_listener_gw [] ex_validated.1 Hz) as H.
  revert H. generalize (attach_routes ex_attach_world ex_listener_gw [] ex_validated.1).
  intros [outcomes ls'] H. exact (proj1 H).
Defined.

End attach.
