(* ===== verification/Params.v ===== *)
(** * Operator parameters

    Models [internal/config/hclparams/hclparams.go]: the parameters of a
    GatewayClass and of a Gateway's infrastructure, parsed from HCL with
    their defaults and checks.  The HCL decoder is a parameter. *)

From S2P Require Import Prelude GoStrings NetIP ClientIP.
From stdpp Require Import options.

#[local] Open Scope nat_scope.

Module hclparams.

Record LoadBalancingBlock := mkLoadBalancing { lbAlgorithm : string }.

Record ClassParams := mkClassParams {
  cpVersion : Z;
  cpLoadBalancing : option LoadBalancingBlock;
}.

Record ServiceBlock := mkServiceBlock {
  sbType : string;
  sbExternalTrafficPolicy : string;
  sbLoadBalancerClass : option string;
  sbAnnotations : gmap string string;
  sbNodePorts : gmap string Z;
}.

Record ProxyProtocolBlock := mkProxyProtocol { ppListeners : list string }.

Record ClientIPBlock := mkClientIP {
  cbTrustedProxies : list string;
  cbProxyProtocol : option ProxyProtocolBlock;
}.

Record InfraParams := mkInfraParams {
  ipVersion : Z;
  ipService : option ServiceBlock;
  ipClientIP : option ClientIPBlock;
}.

(** [hclsimple.Decode] into the two types, unknown fields refused. *)
Class ParamsHCL := {
  decodeClass : string → result string ClassParams;
  decodeInfra : string → result string InfraParams;
}.

Inductive ParamError :=
  | DecodeFailed (message : string)
  | UnsupportedVersion (version : Z)
  | UnsupportedAlgorithm (algorithm : string)
  | UnsupportedServiceType (ty : string)
  | UnsupportedTrafficPolicy (policy : string)
  | InvalidTrustedProxiesEntry (cidr : string)
  | UnnamedProxyListener
  | ProxyProtocolWithoutTrust.

Section params.
Context {hcl : ParamsHCL}.

Definition ParseClass (src : string) : result ParamError ClassParams :=
  params ← map_err DecodeFailed (decodeClass src);
  _ ← guard_err (cpVersion params =? 1)%Z (UnsupportedVersion (cpVersion params));
  let lb := default (mkLoadBalancing "round_robin") (cpLoadBalancing params) in
  _ ← guard_err (lbAlgorithm lb == "round_robin") (UnsupportedAlgorithm (lbAlgorithm lb));
  Ok (mkClassParams (cpVersion params) (Some lb)).

Definition or_default (d s : string) : string := if (s == "") then d else s.

(** The service block with its defaults. *)
Definition parse_service (block : option ServiceBlock) : result ParamError ServiceBlock :=
  let block := default (mkServiceBlock "" "" None ∅ ∅) block in
  let ty := or_default "NodePort" (sbType block) in
  _ ← guard_err (existsb (λ t, ty == t) ["NodePort"; "LoadBalancer"; "ClusterIP"])
        (UnsupportedServiceType ty);
  let policy := or_default "Local" (sbExternalTrafficPolicy block) in
  _ ← guard_err (existsb (λ p, policy == p) ["Local"; "Cluster"]) (UnsupportedTrafficPolicy policy);
  Ok (mkServiceBlock ty (if (ty == "ClusterIP") then "" else policy)
        (sbLoadBalancerClass block) (sbAnnotations block) (sbNodePorts block)).

Definition check_cidr (_ : unit) (cidr : string) : result ParamError unit :=
  _ ← of_option (InvalidTrustedProxiesEntry cidr) (parsePrefix cidr); Ok tt.

Definition check_name (_ : unit) (name : string) : result ParamError unit :=
  guard_err (name != "") UnnamedProxyListener.

(** The client address block with its defaults. *)
Definition parse_client_ip (block : option ClientIPBlock) : result ParamError ClientIPBlock :=
  let block := default (mkClientIP [] None) block in
  _ ← foldM check_cidr tt (cbTrustedProxies block);
  let proxy := default (mkProxyProtocol []) (cbProxyProtocol block) in
  _ ← foldM check_name tt (ppListeners proxy);
  _ ← guard_err (negb ((0 <? length (ppListeners proxy)) && (length (cbTrustedProxies block) =? 0)))
        ProxyProtocolWithoutTrust;
  Ok (mkClientIP (cbTrustedProxies block) (Some proxy)).

Definition ParseInfra (src : string) : result ParamError InfraParams :=
  params ← map_err DecodeFailed (decodeInfra src);
  _ ← guard_err (ipVersion params =? 1)%Z (UnsupportedVersion (ipVersion params));
  service ← parse_service (ipService params);
  client ← parse_client_ip (ipClientIP params);
  Ok (mkInfraParams (ipVersion params) (Some service) (Some client)).

End params.

(** The parameters of a Gateway that references none. *)
Definition default_source : string := "version = 1" +:+ String "010" "".

(** ** Fields, through the pointers [ParseInfra] fills in *)

Definition TrustedProxies (p : InfraParams) : list string :=
  default [] (cbTrustedProxies <$> ipClientIP p).
Definition ProxyListeners (p : InfraParams) : list string :=
  default [] (ppListeners <$> (ipClientIP p ≫= cbProxyProtocol)).
Definition ServiceParams (p : InfraParams) : ServiceBlock :=
  default (mkServiceBlock "" "" None ∅ ∅) (ipService p).

(** ** Lemmas *)

Lemma check_cidrs cidrs :
  foldM check_cidr tt cidrs = Ok tt → Forall (λ c, is_Some (parsePrefix c)) cidrs.
Proof.
  induction cidrs as [|c cidrs IH]; [constructor|]. cbn [foldM]. intros ([] & Hc & H)%bind_Ok.
  constructor; [|by apply IH]. apply bind_Ok in Hc as (p & Hp%of_option_Ok & _). by eexists.
Qed.

Lemma check_names names : foldM check_name tt names = Ok tt → "" ∉ names.
Proof.
  induction names as [|n names IH]; [by intros _ ?%elem_of_nil|]. cbn [foldM].
  intros ([] & Hn%guard_err_Ok%negb_true_iff%bool_decide_eq_false & H)%bind_Ok.
  intros [?|?]%elem_of_cons; [done|]. by apply IH.
Qed.

Lemma New_total cidrs :
  Forall (λ c, is_Some (parsePrefix c)) cidrs →
  ∃ t, clientip.New cidrs = Ok t ∧ (is_Some t ↔ cidrs ≠ []).
Proof.
  intros HF. assert (Hf : ∀ acc, ∃ ps, foldM clientip.New_step acc cidrs = Ok ps).
  { induction HF as [|c cs [p Hp] _ IH]; intros acc; [by eexists|].
    assert (Hn : clientip.New_step acc c = Ok (acc ++ [masked p])) by (unfold clientip.New_step; by rewrite Hp).
    cbn [foldM]. rewrite Hn. cbn. apply IH. }
  unfold clientip.New. destruct cidrs as [|c cidrs].
  { exists None. split; [done|]. split; [by intros []|intros Hn; by destruct Hn]. }
  cbn [length Nat.eqb]. destruct (Hf []) as [ps ->]. eexists. split; [done|]. by split.
Qed.

Lemma one_of_elem (x : string) l : existsb (λ t, x == t) l = true → x ∈ l.
Proof.
  induction l as [|y l IH]; [done|]. cbn. intros [->%bool_decide_eq_true|H]%orb_true_iff; [left|right; auto].
Qed.

Lemma ParseInfra_prefixes {hcl : ParamsHCL} src p :
  ParseInfra src = Ok p → Forall (λ c, is_Some (parsePrefix c)) (TrustedProxies p).
Proof.
  unfold ParseInfra. intros (raw & _ & H)%bind_Ok. apply bind_Ok in H as (_ & _ & H).
  apply bind_Ok in H as (s & _ & H). apply bind_Ok in H as (c & Hc & <-%(inj Ok)).
  unfold parse_client_ip in Hc. apply bind_Ok in Hc as ([] & Ht%check_cidrs & Hc).
  apply bind_Ok in Hc as ([] & _ & Hc). by apply bind_Ok in Hc as ([] & _ & <-%(inj Ok)).
Qed.

(** ** Properties *)

(** Parameters that parse have a known service type with the traffic policy that
    fits it, trusted proxies that build a trust list, named PROXY listeners, and
    a trust list whenever there are any. *)
Theorem parsed_params_usable {hcl : ParamsHCL} src p :
  ParseInfra src = Ok p →
  (∃ s, ipService p = Some s ∧ sbType s ∈ ["NodePort"; "LoadBalancer"; "ClusterIP"] ∧
        sbExternalTrafficPolicy s ∈ (if decide (sbType s = "ClusterIP") then [""] else ["Local"; "Cluster"])) ∧
  "" ∉ ProxyListeners p ∧
  ∃ trust, clientip.New (TrustedProxies p) = Ok trust ∧ (ProxyListeners p ≠ [] → is_Some trust).
Proof.
  intros Hparse. pose proof (ParseInfra_prefixes _ _ Hparse) as Ht. revert Hparse.
  unfold ParseInfra. intros (raw & _ & H)%bind_Ok. apply bind_Ok in H as (_ & _ & H).
  apply bind_Ok in H as (s & Hs & H). apply bind_Ok in H as (c & Hc & <-%(inj Ok)).
  split_and!.
  - exists s. split; [done|]. unfold parse_service in Hs.
    apply bind_Ok in Hs as ([] & H1%guard_err_Ok%one_of_elem & Hs).
    apply bind_Ok in Hs as ([] & H2%guard_err_Ok%one_of_elem & <-%(inj Ok)). cbn. split; [done|].
    case_bool_decide; case_decide; try done. by left.
  - unfold parse_client_ip in Hc. apply bind_Ok in Hc as ([] & _ & Hc).
    apply bind_Ok in Hc as ([] & Hn%check_names & Hc). by apply bind_Ok in Hc as ([] & _ & <-%(inj Ok)).
  - unfold parse_client_ip in Hc. apply bind_Ok in Hc as ([] & _ & Hc).
    apply bind_Ok in Hc as ([] & _ & Hc). apply bind_Ok in Hc as ([] & Hg%guard_err_Ok & <-%(inj Ok)).
    unfold TrustedProxies in *. cbn in Ht |- *. destruct (New_total _ Ht) as (t & HN & Hs'). exists t. split; [done|]. unfold ProxyListeners. cbn.
    intros Hne. apply Hs'. intros Hnil. rewrite Hnil in Hg. destruct (ppListeners _); [done|]. done.
Qed.

(** ** Examples *)

Definition ex_params : ParamsHCL := {|
  decodeClass _ := Err "not a class";
  decodeInfra src :=
    if (src == "proxy") then Ok (mkInfraParams 1 None (Some (mkClientIP ["10.0.0.0/8"]
                                   (Some (mkProxyProtocol ["web"])))))
    else if (src == "version = 1") then Ok (mkInfraParams 1 None None) else Err "bad";
|}.

Definition ex_parsed : InfraParams :=
  match @ParseInfra ex_params "proxy" with Ok p => p | Err _ => mkInfraParams 0 None None end.

Lemma parsed_params_usable_witness :
  sbType (ServiceParams ex_parsed) = "NodePort" ∧ ProxyListeners ex_parsed = ["web"] ∧
  ∃ trust, clientip.New (TrustedProxies ex_parsed) = Ok trust ∧ is_Some trust.
Proof.
  split; [vm_compute; reflexivity|]. split; [vm_compute; reflexivity|].
  assert (Hp : @ParseInfra ex_params "proxy" = Ok ex_parsed) by (vm_compute; reflexivity).
  destruct (@parsed_params_usable ex_params "proxy" ex_parsed Hp) as (_ & _ & trust & Ht & Hs).
  exists trust. split; [exact Ht|]. apply Hs. vm_compute. discriminate.
Defined.

End hclparams.
