(* ===== verification/Publish.v ===== *)
(** * Publishing generations

    Models [internal/lib/k8s/gatewayapi/publish.go]: the configuration of a
    Gateway written as immutable objects of the system namespace, committed
    by its manifest, and the collection of generations no longer needed.

    The API server is explicit state; any call may fail, as the parameter
    [fault] says.  Go iterates over maps in an arbitrary order: the order
    of the attachments is a parameter too. *)

From S2P Require Import Prelude GoStrings Sha256 NetIP Compiled ClientIP Tables Build Ports GatewayTypes References.
From S2P Require Import Listeners BackendTLS AuthDoc Extensions Compile Attach Params.
From stdpp Require Import options.

#[local] Open Scope nat_scope.

Module publish.
Import gatewayv1 gatewayapi references listeners backendtls attach hclparams.

(** ** The API server *)

Inductive Verb := GetCM | CreateCM | UpdateCM | DeleteCM | GetSecret | CreateSecret | DeleteSecret.

Inductive ApiError := NotFound | AlreadyExists | Failed (message : string).

(** The ConfigMaps and Secrets of the system namespace, by name. *)
Record Store := mkStore {
  stCMs : gmap string build.ConfigMap;
  stSecrets : gmap string build.Secret;
}.

(** Calls that fail, the JSON of payloads, and the order in which Go visits
    a map. *)
Class Environment := {
  fault : Verb → string → option string;
  marshalGateway : compiled.GatewayConfig → string;
  marshalRoute : compiled.RouteConfig → string;
  marshalManifest : compiled.Manifest → string;
  unmarshalManifest : string → result string compiled.Manifest;
  iterate : gmap string string → list (string * string);
  iterate_perm : ∀ m, iterate m ≡ₚ map_to_list m;
}.

Section publish.
Context {env : Environment}.

Definition call {A} (verb : Verb) (name : string) (r : result ApiError A) : result ApiError A :=
  match fault verb name with Some message => Err (Failed message) | None => r end.

Definition getCM (st : Store) (name : string) : result ApiError build.ConfigMap :=
  call GetCM name (of_option NotFound (stCMs st !! name)).
Definition getSecretObject (st : Store) (name : string) : result ApiError build.Secret :=
  call GetSecret name (of_option NotFound (stSecrets st !! name)).

Definition put_cm (name : string) (cm : build.ConfigMap) (st : Store) : Store :=
  mkStore (<[name := cm]> (stCMs st)) (stSecrets st).
Definition put_secret (name : string) (s : build.Secret) (st : Store) : Store :=
  mkStore (stCMs st) (<[name := s]> (stSecrets st)).

Definition createCM (st : Store) (name : string) (cm : build.ConfigMap) : result ApiError unit * Store :=
  match call CreateCM name (guard_err (negb (extensions.has (stCMs st) name)) AlreadyExists) with
  | Ok _ => (Ok tt, put_cm name cm st)
  | Err e => (Err e, st)
  end.

Definition createSecret (st : Store) (name : string) (s : build.Secret) : result ApiError unit * Store :=
  match call CreateSecret name (guard_err (negb (extensions.has (stSecrets st) name)) AlreadyExists) with
  | Ok _ => (Ok tt, put_secret name s st)
  | Err e => (Err e, st)
  end.

Definition updateCM (st : Store) (name : string) (cm : build.ConfigMap) : result ApiError unit * Store :=
  match call UpdateCM name (of_option NotFound (stCMs st !! name)) with
  | Ok _ => (Ok tt, put_cm name cm st)
  | Err e => (Err e, st)
  end.

(** The errors of deletions are dropped. *)
Definition deleteCM (st : Store) (name : string) : Store :=
  match fault DeleteCM name with
  | Some _ => st
  | None => mkStore (delete name (stCMs st)) (stSecrets st)
  end.
Definition deleteSecret (st : Store) (name : string) : Store :=
  match fault DeleteSecret name with
  | Some _ => st
  | None => mkStore (stCMs st) (delete name (stSecrets st))
  end.

(** ** Immutable objects *)

Definition payload_cm (labels : gmap string string) (payload : string) : build.ConfigMap :=
  build.mkConfigMap labels {[ compiled.DataKey := payload ]}.

Definition ensureImmutableCM (st : Store) (name : string) (labels : gmap string string) (payload : string) :
    result ApiError unit * Store :=
  match getCM st name with
  | Ok _ => (Ok tt, st)
  | Err NotFound =>
      match createCM st name (payload_cm labels payload) with
      | (Err AlreadyExists, st) => (Ok tt, st)
      | r => r
      end
  | Err e => (Err e, st)
  end.

Definition ensureGeneratedSecret (st : Store) (name gatewayUID generation : string)
    (data : gmap string string) : result ApiError unit * Store :=
  match getSecretObject st name with
  | Ok _ => (Ok tt, st)
  | Err NotFound =>
      match createSecret st name
              (build.mkSecret (compiled.ObjectLabels gatewayUID generation compiled.RoleTLS) data) with
      | (Err AlreadyExists, st) => (Ok tt, st)
      | r => r
      end
  | Err e => (Err e, st)
  end.

(** ** The manifest *)

Definition with_previous (previous : string) (m : compiled.Manifest) : compiled.Manifest :=
  compiled.mkManifest (compiled.mfGatewayUID m) (compiled.mfGeneration m) previous (compiled.mfObjects m).

(** Every entry of [a] is that of [b], a missing one reading as empty. *)
Definition equalStringMaps (a b : gmap string string) : bool :=
  (size a =? size b) && forallb (λ kv, build.at_key b kv.1 == kv.2) (map_to_list a).

Definition manifest_data (m : compiled.Manifest) : gmap string string :=
  {[ compiled.ManifestKey := marshalManifest m ]}.

(** The manifest to write over the existing one. *)
Definition succeed (existing : build.ConfigMap) (m : compiled.Manifest) : compiled.Manifest :=
  let previous := match unmarshalManifest (build.at_key (build.cmData existing) compiled.ManifestKey) with
                  | Ok previous => previous
                  | Err _ => compiled.mkManifest "" "" "" []
                  end in
  if (compiled.mfGeneration previous == compiled.mfGeneration m)
  then with_previous (compiled.mfPrevious previous) m
  else with_previous (compiled.mfGeneration previous) m.

Definition ensureManifest (st : Store) (gatewayUID : string) (m : compiled.Manifest) :
    result ApiError unit * compiled.Manifest * Store :=
  let name := compiled.ManifestName gatewayUID in
  let base := compiled.BaseLabels gatewayUID in
  match getCM st name with
  | Err NotFound =>
      let '(r, st) := createCM st name
        (build.mkConfigMap (<[compiled.LabelRole := compiled.RoleManifest]> base) (manifest_data m)) in
      (r, m, st)
  | Err e => (Err e, m, st)
  | Ok existing =>
      let m := succeed existing m in
      if equalStringMaps (build.cmData existing) (manifest_data m) &&
         (build.at_key (build.cmLabels existing) compiled.LabelRole == compiled.RoleManifest)
      then (Ok tt, m, st)
      else
        let '(r, st) := updateCM st name
          (build.mkConfigMap (<[compiled.LabelRole := compiled.RoleManifest]> (base ∪ build.cmLabels existing))
             (manifest_data m)) in
        (r, m, st)
  end.

(** ** Collection *)

Definition meta_label (m : ObjectMeta) (key : string) : string := build.at_key (omLabels m) key.

(** The object belongs to a generation that is not kept. *)
Definition stale (gatewayUID : string) (keep : gset string) (m : ObjectMeta) : bool :=
  (meta_label m compiled.LabelGatewayUID == gatewayUID) &&
  (meta_label m compiled.LabelGeneration != "") &&
  negb (bool_decide (meta_label m compiled.LabelGeneration ∈ keep)).

Definition kept_generations (w : world) (gatewayUID : string) (m : compiled.Manifest) : gset string :=
  {[ compiled.mfGeneration m ]} ∪
  (if (compiled.mfPrevious m != "") then {[ compiled.mfPrevious m ]} else ∅) ∪
  AckedGenerations (wAcks w) gatewayUID.

Definition delete_where (p : ObjectMeta → bool) (w : world) (st : Store) : Store :=
  let st := fold_left (λ st cm, if p (corev1.cmMeta cm) then deleteCM st (omName (corev1.cmMeta cm)) else st)
              (wGeneratedCMs w) st in
  fold_left (λ st s, if p (corev1.scMeta s) then deleteSecret st (omName (corev1.scMeta s)) else st)
    (wGeneratedSecrets w) st.

Definition gcGenerations (w : world) (gatewayUID : string) (m : compiled.Manifest) (st : Store) : Store :=
  if negb (AllAcked (wAcks w) gatewayUID (compiled.mfGeneration m)) then st
  else delete_where (stale gatewayUID (kept_generations w gatewayUID m)) w st.

Definition gcOrphans (w : world) (ownedUIDs : gset string) (st : Store) : Store :=
  delete_where (λ m, (meta_label m compiled.LabelGatewayUID != "") &&
                     negb (bool_decide (meta_label m compiled.LabelGatewayUID ∈ ownedUIDs))) w st.

(** ** Publication *)

Definition listener_entry (infra : InfraParams) (l : listenerState) : compiled.Listener :=
  compiled.mkListener (effectiveName l) (lsPort (lsSpec l)) (lsInternalPort l) (lsProtocol (lsSpec l))
    (default "" (lsHostname (lsSpec l)))
    ((lsProtocol (lsSpec l) == HTTPSProtocolType) || listenerTerminatesTLS (lsSpec l))
    (lsClientCAMode l)
    (bool_decide (lsSet l = None) && bool_decide (lsName (lsSpec l) ∈ ProxyListeners infra)).

Definition client_cert_data (c : backendClientCert) : gmap string string :=
  match ccCertPEM c with
  | Some cert =>
      if ccResolved c
      then <[compiled.BackendClientKeyKey := default "" (ccKeyPEM c)]> {[ compiled.BackendClientCertKey := cert ]}
      else ∅
  | None => ∅
  end.

(** The gateway payload and the secret data of its certificates. *)
Definition gateway_config (gw : Gateway) (infra : InfraParams) (listeners : list listenerState)
    (clientCert : backendClientCert) : compiled.GatewayConfig :=
  compiled.mkGatewayConfig (omUID (gwMeta gw)) (omNamespace (gwMeta gw)) (omName (gwMeta gw))
    (listener_entry infra <$> filter (λ l, valid l = true) listeners)
    (ccResolved clientCert && bool_decide (is_Some (ccCertPEM clientCert)))
    (TrustedProxies infra).

Definition certificates (listeners : list listenerState) (clientCert : backendClientCert) :
    gmap string string :=
  fold_left (λ data l, lsCertData l ∪ data) (filter (λ l, valid l = true) listeners)
    (client_cert_data clientCert).

(** The documents of an outcome, under their keys of the secret. *)
Definition auth_entries (docs : gmap string string) : gmap string string :=
  list_to_map ((λ d, (compiled.AuthSecretKey d.1, d.2)) <$> map_to_list docs).

Definition add_listener (names : list string) (name : string) : list string :=
  if bool_decide (name ∈ names) then names else names ++ [name].

Definition with_listeners (names : list string) (c : compiled.RouteConfig) : compiled.RouteConfig :=
  compiled.mkRouteConfig (compiled.rcUID c) (compiled.rcNamespace c) (compiled.rcName c) names
    (compiled.rcHostnames c) (compiled.rcCreated c) (compiled.rcGRPC c) (compiled.rcRules c).

(** One attachment payload per route: its listeners are merged. *)
Definition merge_outcome (acc : gmap string compiled.RouteConfig * gmap string string)
    (o : routeParentOutcome) : gmap string compiled.RouteConfig * gmap string string :=
  match roConfig o with
  | None => acc
  | Some c =>
      if (length (compiled.rcListeners c) =? 0) then acc
      else
        (match acc.1 !! compiled.rcUID c with
         | None => <[compiled.rcUID c := c]> acc.1
         | Some e =>
             <[compiled.rcUID c :=
                 with_listeners (fold_left add_listener (compiled.rcListeners c) (compiled.rcListeners e)) e]>
               acc.1
         end, auth_entries (roAuthDocs o) ∪ acc.2)
  end.

Definition cm_ref (name payload : string) : compiled.ObjectRef :=
  compiled.mkObjectRef compiled.ObjectKindConfigMap name (compiled.ChecksumBytes payload).

(** Write the attachments one by one. *)
Fixpoint write_attachments (uid generation : string) (attachments : list (string * string)) (st : Store) :
    result ApiError (list compiled.ObjectRef) * Store :=
  match attachments with
  | [] => (Ok [], st)
  | (routeUID, payload) :: rest =>
      let name := compiled.AttachmentName uid routeUID generation in
      let labels := <[compiled.LabelSourceUID := routeUID]>
                      (compiled.ObjectLabels uid generation compiled.RoleAttachment) in
      match ensureImmutableCM st name labels payload with
      | (Err e, st) => (Err e, st)
      | (Ok _, st) =>
          match write_attachments uid generation rest st with
          | (Ok refs, st) => (Ok (cm_ref name payload :: refs), st)
          | r => r
          end
      end
  end.

(** The secret, when there is anything in it. *)
Definition write_secret (uid generation checksum : string) (data : gmap string string) (st : Store) :
    result ApiError (list compiled.ObjectRef) * Store :=
  if (0 <? size data) then
    let name := compiled.TLSSecretName uid generation in
    match ensureGeneratedSecret st name uid generation data with
    | (Err e, st) => (Err e, st)
    | (Ok _, st) => (Ok [compiled.mkObjectRef compiled.ObjectKindSecret name checksum], st)
    end
  else (Ok [], st).

(** What one pass publishes for a Gateway. *)
Record Publication := mkPublication {
  puGateway : compiled.GatewayConfig;
  puRoutes : gmap string compiled.RouteConfig;
  puData : gmap string string;
}.

Definition publication (gw : Gateway) (infra : InfraParams) (listeners : list listenerState)
    (outcomes : list routeParentOutcome) (clientCert : backendClientCert) : Publication :=
  let '(configs, data) := fold_left merge_outcome outcomes (∅, certificates listeners clientCert) in
  mkPublication (gateway_config gw infra listeners clientCert) configs data.

Definition attachments_of (p : Publication) : gmap string string := marshalRoute <$> puRoutes p.
Definition checksum_of (p : Publication) : string :=
  if (0 <? size (puData p)) then compiled.ChecksumSecret (puData p) else "".
Definition generation_of (p : Publication) : string :=
  compiled.GenerationID (marshalGateway (puGateway p)) (attachments_of p) (checksum_of p).

Definition publishGeneration (w : world) (gw : Gateway) (infra : InfraParams)
    (listeners : list listenerState) (outcomes : list routeParentOutcome)
    (clientCert : backendClientCert) (st : Store) : result ApiError string * Store :=
  let uid := omUID (gwMeta gw) in
  let p := publication gw infra listeners outcomes clientCert in
  let gatewayPayload := marshalGateway (puGateway p) in
  let generation := generation_of p in
  let name := compiled.GatewayConfigName uid generation in
  match ensureImmutableCM st name (compiled.ObjectLabels uid generation compiled.RoleGatewayCfg)
          gatewayPayload with
  | (Err e, st) => (Err e, st)
  | (Ok _, st) =>
      match write_attachments uid generation (iterate (attachments_of p)) st with
      | (Err e, st) => (Err e, st)
      | (Ok refs, st) =>
          match write_secret uid generation (checksum_of p) (puData p) st with
          | (Err e, st) => (Err e, st)
          | (Ok secret, st) =>
              match ensureManifest st uid
                      (compiled.mkManifest uid generation ""
                         (cm_ref name gatewayPayload :: refs ++ secret)) with
              | (Err e, _, st) => (Err e, st)
              | (Ok _, manifest, st) => (Ok generation, gcGenerations w uid manifest st)
              end
          end
      end
  end.

(** ** Collection: lemmas *)

(** The objects of [st] survive in [st'], except those [p] condemns in the
    snapshots. *)
Definition survives (p : ObjectMeta → Prop) (w : world) (st st' : Store) : Prop :=
  (∀ name cm, stCMs st !! name = Some cm →
     stCMs st' !! name = Some cm ∨
     ∃ old, old ∈ wGeneratedCMs w ∧ omName (corev1.cmMeta old) = name ∧ p (corev1.cmMeta old)) ∧
  (∀ name s, stSecrets st !! name = Some s →
     stSecrets st' !! name = Some s ∨
     ∃ old, old ∈ wGeneratedSecrets w ∧ omName (corev1.scMeta old) = name ∧ p (corev1.scMeta old)).

(** One of the two loops, over either kind. *)
Lemma delete_loop {A O} (meta : A → ObjectMeta) (del : Store → string → Store)
    (sel : Store → gmap string O) (p : ObjectMeta → bool) l st :
  (∀ st n, sel (del st n) = sel st ∨ sel (del st n) = delete n (sel st)) →
  ∀ name o, sel st !! name = Some o →
  sel (fold_left (λ st a, if p (meta a) then del st (omName (meta a)) else st) l st) !! name = Some o ∨
  ∃ a, a ∈ l ∧ omName (meta a) = name ∧ p (meta a) = true.
Proof.
  intros Hdel. revert st. induction l as [|a l IH]; intros st name o Ho; cbn; [by left|].
  assert (Hlift : (∃ b, b ∈ l ∧ omName (meta b) = name ∧ p (meta b) = true) →
                  ∃ b, b ∈ a :: l ∧ omName (meta b) = name ∧ p (meta b) = true).
  { intros (b & ? & ? & ?). exists b. split; [by right|done]. }
  destruct (p (meta a)) eqn:Hp; [|destruct (IH st name o Ho); auto].
  destruct (decide (omName (meta a) = name)) as [Hn|Hn]; [right; exists a; split; [left|done]|].
  destruct (IH (del st (omName (meta a))) name o); [|by left|auto].
  destruct (Hdel st (omName (meta a))) as [-> | ->]; [done|]. by rewrite lookup_delete_ne.
Qed.

Lemma other_loop {A O} (meta : A → ObjectMeta) (del : Store → string → Store)
    (sel : Store → gmap string O) (p : ObjectMeta → bool) l st :
  (∀ st n, sel (del st n) = sel st) →
  sel (fold_left (λ st a, if p (meta a) then del st (omName (meta a)) else st) l st) = sel st.
Proof.
  intros Hd. revert st. induction l as [|a l IH]; intros st; [done|]. cbn. rewrite IH.
  by destruct (p (meta a)).
Qed.

Lemma survives_impl (p q : ObjectMeta → Prop) w st st' :
  (∀ m, p m → q m) → survives p w st st' → survives q w st st'.
Proof.
  intros Hpq [H1 H2]. split; intros name o Ho.
  - destruct (H1 name o Ho) as [?|(old & ? & ? & ?)]; [by left|]. right. exists old. auto.
  - destruct (H2 name o Ho) as [?|(old & ? & ? & ?)]; [by left|]. right. exists old. auto.
Qed.

Lemma survives_refl p w st : survives p w st st.
Proof. split; by left. Qed.

Lemma delete_where_survives p w st : survives (λ m, p m = true) w st (delete_where p w st).
Proof.
  unfold delete_where. cbn zeta. split; intros name o Ho.
  - rewrite (other_loop corev1.scMeta deleteSecret stCMs) by (intros; unfold deleteSecret; by case_match).
    apply (delete_loop corev1.cmMeta deleteCM stCMs); [|done].
    intros s n. unfold deleteCM. case_match; auto.
  - rewrite <-(other_loop corev1.cmMeta deleteCM stSecrets p (wGeneratedCMs w)) in Ho
      by (intros; unfold deleteCM; by case_match).
    apply (delete_loop corev1.scMeta deleteSecret stSecrets); [|done].
    intros s n. unfold deleteSecret. case_match; auto.
Qed.

(** Nothing is ever created by a collection. *)
Lemma delete_where_subset p w st name cm :
  stCMs (delete_where p w st) !! name = Some cm → stCMs st !! name = Some cm.
Proof.
  unfold delete_where. cbn zeta.
  rewrite (other_loop corev1.scMeta deleteSecret stCMs) by (intros; unfold deleteSecret; by case_match).
  revert st. induction (wGeneratedCMs w) as [|a l IH]; intros st; [done|]. cbn. intros H%IH.
  destruct (p _); [|done]. unfold deleteCM in H. destruct (fault _ _); [done|].
  cbn in H. by apply lookup_delete_Some in H as [_ ?].
Qed.

Lemma elem_of_acked s uid g :
  g ∈ AckedGenerations s uid ↔
  g ≠ "" ∧ ∃ name pod ack, asPods s !! name = Some pod ∧ paGateways pod !! uid = Some ack ∧
    gaAppliedGeneration ack = g.
Proof.
  unfold AckedGenerations.
  assert (H : ∀ (pods : list PodAck) (acc : gset string), g ∈ fold_left (λ acked pod,
    match paGateways pod !! uid with
    | Some ack => if (gaAppliedGeneration ack != "") then {[ gaAppliedGeneration ack ]} ∪ acked else acked
    | None => acked
    end) pods acc ↔ (g ∈ acc ∨ g ≠ "" ∧ ∃ pod ack, pod ∈ pods ∧ paGateways pod !! uid = Some ack ∧
      gaAppliedGeneration ack = g)).
  { induction pods as [|pod pods IH]; intros acc; cbn; [set_solver|]. rewrite IH.
    setoid_rewrite elem_of_cons. destruct (paGateways pod !! uid) as [ack|] eqn:Ha.
    - case_bool_decide; set_solver.
    - set_solver. }
  rewrite H. setoid_rewrite list_elem_of_fmap. setoid_rewrite elem_of_map_to_list'.
  split.
  - intros [?|(? & pod & ack & ([n p] & -> & ?) & ?)]; [set_solver|]. eauto 10.
  - intros (? & n & pod & ack & ? & ?). right. split; [done|]. exists pod, ack. split; [|done]. by exists (n, pod).
Qed.

Lemma AllAcked_true s uid gen :
  AllAcked s uid gen = true ↔
  (∃ name pod, asPods s !! name = Some pod ∧ paHealthy pod = true) ∧
  ∀ name pod, asPods s !! name = Some pod → paHealthy pod = true →
    ∃ ack, paGateways pod !! uid = Some ack ∧ gaAppliedGeneration ack = gen.
Proof.
  unfold AllAcked. pose proof (foldM_ack uid gen (map_to_list (asPods s)).*2 0) as H.
  assert (Hin : ∀ pod, pod ∈ (map_to_list (asPods s)).*2 ↔ ∃ name, asPods s !! name = Some pod).
  { intros pod. rewrite list_elem_of_fmap. setoid_rewrite elem_of_map_to_list'. split.
    - intros ([n p] & -> & ?). by exists n.
    - intros [n ?]. by exists (n, pod). }
  destruct (foldM _ _ _) as [n|].
  - destruct H as (_ & Hpos & Hall). rewrite Z.ltb_lt, Hpos. setoid_rewrite Hin. split.
    + intros (pod & [name ?] & ?). split; [eauto|]. intros n' pod' ? ?. eapply Hall; [|done]. rewrite Hin. eauto.
    + intros [(name & pod & ? & ?) _]. eauto.
  - split; [done|]. intros [_ Hall]. destruct H as (pod & [name Hp]%Hin & Hh & Hno).
    destruct (Hall name pod Hp Hh) as (ack & Ha & Hg). by destruct (Hno ack Ha).
Qed.

(** A generation nobody needs: not the one desired, not the one before, not
    one a pod serves; and all pods moved on. *)
Record collectable (w : world) (uid : string) (m : compiled.Manifest) (meta : ObjectMeta) : Prop := {
  cl_owner : meta_label meta compiled.LabelGatewayUID = uid;
  cl_some : meta_label meta compiled.LabelGeneration ≠ "";
  cl_desired : meta_label meta compiled.LabelGeneration ≠ compiled.mfGeneration m;
  cl_previous : meta_label meta compiled.LabelGeneration ≠ compiled.mfPrevious m;
  cl_applied : ∀ name pod ack, asPods (wAcks w) !! name = Some pod → paGateways pod !! uid = Some ack →
    gaAppliedGeneration ack ≠ meta_label meta compiled.LabelGeneration;
  cl_moved : ∀ name pod, asPods (wAcks w) !! name = Some pod → paHealthy pod = true →
    ∃ ack, paGateways pod !! uid = Some ack ∧ gaAppliedGeneration ack = compiled.mfGeneration m;
}.

Lemma stale_collectable w uid m meta :
  AllAcked (wAcks w) uid (compiled.mfGeneration m) = true →
  stale uid (kept_generations w uid m) meta = true → collectable w uid m meta.
Proof.
  intros [_ Hall]%AllAcked_true. unfold stale, kept_generations. rewrite !andb_true_iff.
  intros [[H1%bool_decide_eq_true H2%negb_true_iff%bool_decide_eq_false] H3%negb_true_iff%bool_decide_eq_false].
  rewrite !elem_of_union, elem_of_acked in H3. split; try done.
  - intros He. apply H3. left. left. by rewrite He, elem_of_singleton.
  - intros He. apply H3. left. right. rewrite <-He. rewrite bool_decide_false by done. cbn. set_solver.
  - intros name pod ack Hp Ha He. apply H3. right. split; [done|]. by exists name, pod, ack.
Qed.

Lemma gcGenerations_survives w uid m st : survives (collectable w uid m) w st (gcGenerations w uid m st).
Proof.
  unfold gcGenerations. destruct (AllAcked _ _ _) eqn:Ha; cbn; [|apply survives_refl].
  eapply survives_impl; [|apply delete_where_survives]. intros meta. by apply stale_collectable.
Qed.

(** ** Names *)

Lemma sapp_inj_2 a b s t : a +:+ s = b +:+ t → len s = len t → a = b ∧ s = t.
Proof.
  intros H Hl. assert (Hab : len a = len b).
  { apply (f_equal len) in H. rewrite !len_app in H. lia. }
  assert (a = b) as ->; [|split; [done|by apply sapp_inj in H]].
  rewrite <-(stake_app a s), <-(stake_app b t), H, Hab. done.
Qed.

Lemma AttachmentName_inj uid r1 r2 gen :
  compiled.AttachmentName uid r1 gen = compiled.AttachmentName uid r2 gen → r1 = r2.
Proof.
  unfold compiled.AttachmentName. intros H. do 3 apply sapp_inj in H. by apply sapp_inj_2 in H as [-> _].
Qed.

Lemma names_apart uid1 uid2 uid3 r g1 g2 :
  compiled.GatewayConfigName uid1 g1 ≠ compiled.AttachmentName uid2 r g2 ∧
  compiled.ManifestName uid3 ≠ compiled.GatewayConfigName uid1 g1 ∧
  compiled.ManifestName uid3 ≠ compiled.AttachmentName uid2 r g2.
Proof. by split_and!. Qed.

(** ** The objects of a publication *)

Inductive expected_cm (uid : string) (p : Publication) : string → build.ConfigMap → Prop :=
  | expected_gateway :
      expected_cm uid p (compiled.GatewayConfigName uid (generation_of p))
        (payload_cm (compiled.ObjectLabels uid (generation_of p) compiled.RoleGatewayCfg)
           (marshalGateway (puGateway p)))
  | expected_attachment routeUID payload :
      attachments_of p !! routeUID = Some payload →
      expected_cm uid p (compiled.AttachmentName uid routeUID (generation_of p))
        (payload_cm (<[compiled.LabelSourceUID := routeUID]>
                       (compiled.ObjectLabels uid (generation_of p) compiled.RoleAttachment)) payload).

Definition expected_secret (uid : string) (p : Publication) : build.Secret :=
  build.mkSecret (compiled.ObjectLabels uid (generation_of p) compiled.RoleTLS) (puData p).

Lemma expected_fun uid p name a b : expected_cm uid p name a → expected_cm uid p name b → a = b.
Proof.
  intros [|r1 p1 H1] Hb; match type of Hb with expected_cm _ _ ?n _ => remember n as nm eqn:E end;
    destruct Hb as [|r2 p2 H2]; try done.
  apply AttachmentName_inj in E as ->. by simplify_eq.
Qed.

(** The snapshot of the pass labels the objects of a generation with it,
    and the manifest with none. *)
Record snapshot_ok (w : world) (uid : string) (p : Publication) : Prop := {
  co_seen_cms : ∀ old, old ∈ wGeneratedCMs w →
    (∀ cm, expected_cm uid p (omName (corev1.cmMeta old)) cm →
       meta_label (corev1.cmMeta old) compiled.LabelGeneration = generation_of p) ∧
    (omName (corev1.cmMeta old) = compiled.ManifestName uid →
       meta_label (corev1.cmMeta old) compiled.LabelGeneration = "");
  co_seen_secrets : ∀ old, old ∈ wGeneratedSecrets w →
    omName (corev1.scMeta old) = compiled.TLSSecretName uid (generation_of p) →
    meta_label (corev1.scMeta old) compiled.LabelGeneration = generation_of p;
}.

(** The system namespace agrees with the names: an object named after a
    generation has the content that was hashed, and the manifest is one. *)
Record consistent (w : world) (uid : string) (p : Publication) (st : Store) : Prop := {
  co_cms : ∀ name cm old, expected_cm uid p name cm → stCMs st !! name = Some old → old = cm;
  co_secret : ∀ old, stSecrets st !! compiled.TLSSecretName uid (generation_of p) = Some old →
    old = expected_secret uid p;
  co_manifest : ∀ old, stCMs st !! compiled.ManifestName uid = Some old →
    map_Forall (λ _ v, v ≠ "") (build.cmData old) ∧
    build.at_key (build.cmLabels old) compiled.LabelGatewayUID = uid;
  co_snapshot : snapshot_ok w uid p;
}.

(** ** The writes *)

(** A write creates an expected object or changes nothing. *)
Definition grows (uid : string) (p : Publication) (st st' : Store) : Prop :=
  (∀ name cm, stCMs st !! name = Some cm → stCMs st' !! name = Some cm) ∧
  (∀ name cm, stCMs st' !! name = Some cm → stCMs st !! name = Some cm ∨ expected_cm uid p name cm) ∧
  (∀ name s, stSecrets st !! name = Some s → stSecrets st' !! name = Some s) ∧
  (∀ name s, stSecrets st' !! name = Some s → stSecrets st !! name = Some s ∨
     name = compiled.TLSSecretName uid (generation_of p) ∧ s = expected_secret uid p).

#[global] Instance grows_preorder uid p : PreOrder (grows uid p).
Proof.
  split; [intros st; split_and!; auto|]. intros a b c (A1 & A2 & A3 & A4) (B1 & B2 & B3 & B4). split_and!; auto.
  - intros name cm [?|?]%B2; auto.
  - intros name s [?|?]%B4; auto.
Qed.

Lemma grows_consistent w uid p st st' : grows uid p st st' → consistent w uid p st → consistent w uid p st'.
Proof.
  intros (_ & G2 & _ & G4) []. split; try done.
  - intros name cm old He [?|He']%G2; [by eapply co_cms0|by eapply expected_fun].
  - intros old [?|[_ ?]]%G4; [by apply co_secret0|done].
  - intros old [?|He]%G2; [by apply co_manifest0|]. by inversion He.
Qed.

Lemma grows_put_cm uid p st name cm :
  expected_cm uid p name cm → stCMs st !! name = None → grows uid p st (put_cm name cm st).
Proof.
  intros He Hn. split_and!; cbn; auto.
  - intros n c Hc. rewrite lookup_insert_ne; [done|]. by intros ->; simplify_eq.
  - intros n c [[<- <-]|[_ ?]]%lookup_insert_Some; auto.
Qed.

Lemma grows_put_secret uid p st name :
  name = compiled.TLSSecretName uid (generation_of p) →
  stSecrets st !! name = None → grows uid p st (put_secret name (expected_secret uid p) st).
Proof.
  intros He Hn. split_and!; cbn; auto.
  - intros n c Hc. rewrite lookup_insert_ne; [done|]. by intros ->; simplify_eq.
  - intros n c [[<- <-]|[_ ?]]%lookup_insert_Some; auto.
Qed.

Lemma call_Ok {A} verb name (r : result ApiError A) a : call verb name r = Ok a → r = Ok a.
Proof. unfold call. by destruct (fault verb name). Qed.

Lemma has_None {A} (m : gmap string A) k : negb (extensions.has m k) = true → m !! k = None.
Proof.
  unfold extensions.has. intros H%negb_true_iff%bool_decide_eq_false. by apply eq_None_not_Some.
Qed.

Lemma createCM_cases st name cm r st' :
  createCM st name cm = (r, st') →
  r = Ok tt ∧ stCMs st !! name = None ∧ st' = put_cm name cm st ∨
  (∃ e, r = Err e) ∧ st' = st ∧ (r = Err AlreadyExists → is_Some (stCMs st !! name)).
Proof.
  unfold createCM. destruct (call _ _ _) as [[]|e] eqn:Hc; intros [= <- <-].
  - left. by apply call_Ok, guard_err_Ok, has_None in Hc.
  - right. split; [by eexists|]. split; [done|]. intros [= ->]. unfold call in Hc.
    destruct (fault CreateCM name); [done|]. unfold guard_err in Hc.
    destruct (negb _) eqn:Hn; [done|]. apply negb_false_iff in Hn. by apply bool_decide_eq_true in Hn.
Qed.

Lemma createSecret_cases st name s r st' :
  createSecret st name s = (r, st') →
  r = Ok tt ∧ stSecrets st !! name = None ∧ st' = put_secret name s st ∨
  (∃ e, r = Err e) ∧ st' = st ∧ (r = Err AlreadyExists → is_Some (stSecrets st !! name)).
Proof.
  unfold createSecret. destruct (call _ _ _) as [[]|e] eqn:Hc; intros [= <- <-].
  - left. by apply call_Ok, guard_err_Ok, has_None in Hc.
  - right. split; [by eexists|]. split; [done|]. intros [= ->]. unfold call in Hc.
    destruct (fault CreateSecret name); [done|]. unfold guard_err in Hc.
    destruct (negb _) eqn:Hn; [done|]. apply negb_false_iff in Hn. by apply bool_decide_eq_true in Hn.
Qed.

Lemma ensureImmutableCM_spec uid p st name labels payload r st' :
  expected_cm uid p name (payload_cm labels payload) →
  ensureImmutableCM st name labels payload = (r, st') →
  grows uid p st st' ∧ (r = Ok tt → is_Some (stCMs st' !! name)).
Proof.
  intros He. unfold ensureImmutableCM. destruct (getCM st name) as [cm|e] eqn:Hg.
  { intros [= <- <-]. split; [done|]. intros _. apply call_Ok, of_option_Ok in Hg. by eexists. }
  destruct e; [|by intros [= <- <-]|by intros [= <- <-]].
  destruct (createCM _ _ _) as [r1 st1] eqn:Hc.
  apply createCM_cases in Hc as [(-> & Hn & ->)|([e ->] & -> & Hx)].
  - intros [= <- <-]. split; [by apply grows_put_cm|]. intros _. cbn. rewrite lookup_insert_eq. by eexists.
  - destruct e; intros [= <- <-]; split; try done. auto.
Qed.

Lemma write_attachments_spec uid p l st r st' :
  (∀ a, a ∈ l → attachments_of p !! a.1 = Some a.2) →
  write_attachments uid (generation_of p) l st = (r, st') →
  grows uid p st st' ∧
  (∀ refs, r = Ok refs →
     refs = (λ a, cm_ref (compiled.AttachmentName uid a.1 (generation_of p)) a.2) <$> l ∧
     ∀ a, a ∈ l → is_Some (stCMs st' !! compiled.AttachmentName uid a.1 (generation_of p))).
Proof.
  revert st r st'. induction l as [|[routeUID payload] l IH]; intros st r st' Hl; cbn [write_attachments].
  { intros [= <- <-]. split; [done|]. intros refs [= <-]. split; [done|]. by intros a ?%elem_of_nil. }
  destruct (ensureImmutableCM _ _ _ _) as [r1 st1] eqn:He.
  apply (ensureImmutableCM_spec uid p) in He as [G1 H1];
    [|apply expected_attachment; by apply (Hl (routeUID, payload)); left].
  destruct r1 as [[]|e]; [|intros [= <- <-]; by split].
  destruct (write_attachments _ _ l st1) as [r2 st2] eqn:Hw.
  apply IH in Hw as [G2 H2]; [|intros a Ha; apply Hl; by right].
  destruct r2 as [refs|e]; intros [= <- <-]; (split; [by etrans|]); [|done].
  intros ? [= <-]. destruct (H2 refs eq_refl) as [-> Hin]. split; [done|].
  intros a [->|Ha]%elem_of_cons; [|auto]. cbn. destruct (H1 eq_refl) as [cm Hcm]. exists cm. by apply G2.
Qed.

Lemma write_secret_spec uid p st r st' :
  write_secret uid (generation_of p) (checksum_of p) (puData p) st = (r, st') →
  grows uid p st st' ∧
  (∀ refs, r = Ok refs →
     if (0 <? size (puData p))
     then refs = [compiled.mkObjectRef compiled.ObjectKindSecret
                    (compiled.TLSSecretName uid (generation_of p)) (checksum_of p)] ∧
          is_Some (stSecrets st' !! compiled.TLSSecretName uid (generation_of p))
     else refs = []).
Proof.
  unfold write_secret. destruct (0 <? size (puData p)); [|intros [= <- <-]; by split; [|intros ? [= <-]]].
  unfold ensureGeneratedSecret. destruct (getSecretObject st _) as [s|e] eqn:Hg.
  { intros [= <- <-]. split; [done|]. intros refs [= <-]. split; [done|].
    apply call_Ok, of_option_Ok in Hg. by eexists. }
  destruct e; [|by intros [= <- <-]|by intros [= <- <-]].
  destruct (createSecret _ _ _) as [r1 st1] eqn:Hc.
  apply createSecret_cases in Hc as [(-> & Hn & ->)|([e ->] & -> & Hx)].
  - intros [= <- <-]. split; [by apply grows_put_secret|]. intros refs [= <-]. split; [done|].
    cbn. rewrite lookup_insert_eq. by eexists.
  - destruct e; intros [= <- <-]; split; try done. intros refs [= <-]. split; [done|]. by apply Hx.
Qed.

(** The comparison is equality when the empty entries of one are entries of
    the other. *)
Lemma equalStringMaps_sub a b :
  (∀ k, a !! k = Some "" → is_Some (b !! k)) → equalStringMaps a b = true → a = b.
Proof.
  intros Ha. unfold equalStringMaps. rewrite andb_true_iff. intros [Hs%Nat.eqb_eq Hall].
  assert (Hsub : a ⊆ b).
  { apply map_subseteq_spec. intros k v Hk. rewrite forallb_forall in Hall.
    specialize (Hall (k, v)). cbn in Hall. rewrite bool_decide_eq_true in Hall.
    assert (Hv : build.at_key b k = v).
    { apply Hall. apply list_elem_of_In. by apply elem_of_map_to_list. }
    unfold build.at_key in Hv. destruct (b !! k) as [v'|] eqn:Hb; cbn in Hv; [congruence|].
    subst v. destruct (Ha k Hk) as [? ?]. congruence. }
  destruct (decide (a = b)) as [|Hne]; [done|].
  assert (Hlt : size a < size b) by (apply map_subset_size; split; [done|intros Hba; apply Hne; by apply (anti_symm (⊆))]).
  lia.
Qed.

Lemma equalStringMaps_eq a b :
  map_Forall (λ _ v, v ≠ "") a → equalStringMaps a b = true → a = b.
Proof. intros Ha. apply equalStringMaps_sub. intros k Hk. by destruct (Ha k "" Hk). Qed.

Lemma equalStringMaps_refl a : equalStringMaps a a = true.
Proof.
  unfold equalStringMaps. rewrite Nat.eqb_refl. apply forallb_forall. intros [k v] Hin.
  apply list_elem_of_In, elem_of_map_to_list in Hin. unfold build.at_key. cbn. rewrite Hin. by apply bool_decide_eq_true.
Qed.

(** Only the predecessor of a manifest is filled in. *)
Definition same_manifest (m m' : compiled.Manifest) : Prop :=
  compiled.mfGatewayUID m' = compiled.mfGatewayUID m ∧
  compiled.mfGeneration m' = compiled.mfGeneration m ∧ compiled.mfObjects m' = compiled.mfObjects m.

(** [m] is what the manifest of the gateway says. *)
Definition committed (st : Store) (uid : string) (m : compiled.Manifest) : Prop :=
  ∃ cm, stCMs st !! compiled.ManifestName uid = Some cm ∧ build.cmData cm = manifest_data m ∧
    build.at_key (build.cmLabels cm) compiled.LabelRole = compiled.RoleManifest ∧
    build.at_key (build.cmLabels cm) compiled.LabelGatewayUID = uid.

(** Nothing but the manifest differs. *)
Definition same_objects (uid : string) (st st' : Store) : Prop :=
  (∀ name, name ≠ compiled.ManifestName uid → stCMs st' !! name = stCMs st !! name) ∧
  stSecrets st' = stSecrets st.

Lemma same_put_cm uid cm st : same_objects uid st (put_cm (compiled.ManifestName uid) cm st).
Proof. split; [|done]. intros name Hn. cbn. by rewrite lookup_insert_ne. Qed.

Lemma manifest_labels uid (old : gmap string string) :
  let labels := <[compiled.LabelRole := compiled.RoleManifest]> (compiled.BaseLabels uid ∪ old) in
  build.at_key labels compiled.LabelRole = compiled.RoleManifest ∧ build.at_key labels compiled.LabelGatewayUID = uid.
Proof.
  cbn zeta. unfold build.at_key. split; [by rewrite lookup_insert_eq|]. rewrite lookup_insert_ne by done.
  rewrite (lookup_union_Some_l _ _ _ uid); [done|]. unfold compiled.BaseLabels.
  rewrite lookup_insert_ne by done. by rewrite lookup_insert_eq.
Qed.

Lemma ensureManifest_spec st uid m r m' st' :
  (∀ old, stCMs st !! compiled.ManifestName uid = Some old →
     map_Forall (λ _ v, v ≠ "") (build.cmData old) ∧
     build.at_key (build.cmLabels old) compiled.LabelGatewayUID = uid) →
  ensureManifest st uid m = (r, m', st') →
  same_manifest m m' ∧
  match r with
  | Err _ => st' = st
  | Ok _ => same_objects uid st st' ∧ committed st' uid m'
  end.
Proof.
  intros Hold. unfold ensureManifest. cbn zeta.
  destruct (getCM st _) as [existing|e] eqn:Hg.
  - assert (Hm : same_manifest m (succeed existing m)).
    { unfold succeed. cbn zeta. by case_bool_decide. }
    apply call_Ok, of_option_Ok in Hg.
    destruct (_ && _) eqn:Heq.
    + intros [= <- <- <-]. split; [done|]. split; [by split|]. exists existing. split; [done|].
      destruct (Hold existing Hg) as [Hne Huid]. apply andb_true_iff in Heq as [Heq Hrole].
      apply bool_decide_eq_true in Hrole. by apply equalStringMaps_eq in Heq.
    + unfold updateCM. destruct (call _ _ _); intros [= <- <- <-]; (split; [done|]); [|done].
      split; [apply same_put_cm|]. eexists. split; [by apply lookup_insert_eq|]. split; [done|]. apply manifest_labels.
  - destruct e; [|by intros [= <- <- <-]|by intros [= <- <- <-]].
    destruct (createCM _ _ _) as [r1 st1] eqn:Hc.
    apply createCM_cases in Hc as [(-> & Hn & ->)|([e ->] & -> & Hx)]; intros [= <- <- <-]; (split; [done|]); [|done].
    split; [apply same_put_cm|]. eexists. split; [by apply lookup_insert_eq|]. split; [done|].
    rewrite <-(map_union_empty (compiled.BaseLabels uid)). apply manifest_labels.
Qed.

(** ** The whole publication *)

Definition object_refs (uid : string) (p : Publication) : list compiled.ObjectRef :=
  cm_ref (compiled.GatewayConfigName uid (generation_of p)) (marshalGateway (puGateway p)) ::
  ((λ a, cm_ref (compiled.AttachmentName uid a.1 (generation_of p)) a.2) <$> iterate (attachments_of p)) ++
  (if (0 <? size (puData p))
   then [compiled.mkObjectRef compiled.ObjectKindSecret (compiled.TLSSecretName uid (generation_of p))
           (checksum_of p)]
   else []).

(** Every object of the publication is in the store. *)
Definition present (uid : string) (p : Publication) (st : Store) : Prop :=
  (∀ name cm, expected_cm uid p name cm → stCMs st !! name = Some cm) ∧
  ((0 <? size (puData p)) = true →
     stSecrets st !! compiled.TLSSecretName uid (generation_of p) = Some (expected_secret uid p)).

Lemma elem_of_iterate m a : a ∈ iterate m ↔ m !! a.1 = Some a.2.
Proof. rewrite iterate_perm. destruct a. apply elem_of_map_to_list. Qed.

Lemma present_survives w uid p m st :
  snapshot_ok w uid p → compiled.mfGeneration m = generation_of p →
  present uid p st → present uid p (gcGenerations w uid m st).
Proof.
  intros Hco Hm [P1 P2]. destruct (gcGenerations_survives w uid m st) as [S1 S2]. split.
  - intros name cm He. destruct (S1 name cm (P1 _ _ He)) as [?|(old & Hin & <- & Hc)]; [done|].
    destruct (co_seen_cms _ _ _ Hco old Hin) as [Hg _]. destruct (cl_desired _ _ _ _ Hc). by rewrite (Hg cm).
  - intros Hs. destruct (S2 _ _ (P2 Hs)) as [?|(old & Hin & Hn & Hc)]; [done|].
    destruct (cl_desired _ _ _ _ Hc). by rewrite (co_seen_secrets _ _ _ Hco old Hin Hn).
Qed.

Lemma committed_survives w uid p m st :
  snapshot_ok w uid p → committed st uid m → committed (gcGenerations w uid m st) uid m.
Proof.
  intros Hco (cm & Hcm & Hd). exists cm. split; [|done].
  destruct (gcGenerations_survives w uid m st) as [S1 _].
  destruct (S1 _ _ Hcm) as [?|(old & Hin & Hn & Hc)]; [done|].
  destruct (co_seen_cms _ _ _ Hco old Hin) as [_ Hg]. by destruct (cl_some _ _ _ _ Hc); apply Hg.
Qed.

(** The objects written before the manifest. *)
Lemma objects_written w uid p st r1 st1 r2 st2 r3 st3 :
  consistent w uid p st →
  ensureImmutableCM st (compiled.GatewayConfigName uid (generation_of p))
    (compiled.ObjectLabels uid (generation_of p) compiled.RoleGatewayCfg) (marshalGateway (puGateway p)) =
    (Ok r1, st1) →
  write_attachments uid (generation_of p) (iterate (attachments_of p)) st1 = (Ok r2, st2) →
  write_secret uid (generation_of p) (checksum_of p) (puData p) st2 = (Ok r3, st3) →
  grows uid p st st3 ∧ present uid p st3 ∧
  cm_ref (compiled.GatewayConfigName uid (generation_of p)) (marshalGateway (puGateway p)) :: r2 ++ r3 =
    object_refs uid p.
Proof.
  intros Hco H1 H2 H3. destruct r1.
  apply (ensureImmutableCM_spec uid p) in H1 as [G1 P1]; [|by constructor].
  apply write_attachments_spec in H2 as [G2 P2]; [|intros a; by rewrite elem_of_iterate].
  apply write_secret_spec in H3 as [G3 P3].
  assert (G : grows uid p st st3) by (etrans; [exact G1|]; by etrans).
  pose proof (grows_consistent _ _ _ _ _ G Hco) as Hco3.
  destruct (P2 r2 eq_refl) as [-> Hatt]. specialize (P3 r3 eq_refl). split; [done|]. split.
  - split.
    + intros name cm He. assert (Hs : is_Some (stCMs st3 !! name)).
      { destruct He as [|routeUID payload Hp].
        - destruct (P1 eq_refl) as [c Hc]. exists c. by apply G3, G2.
        - destruct (Hatt (routeUID, payload)) as [c Hc]; [by apply elem_of_iterate|]. exists c. by apply G3. }
      destruct Hs as [c Hc]. rewrite Hc. f_equal. by eapply co_cms.
    + intros Hsz. rewrite Hsz in P3. destruct P3 as [_ [c Hc]]. rewrite Hc. f_equal. by eapply co_secret.
  - unfold object_refs. destruct (0 <? size (puData p)); [by destruct P3 as [-> _]|by rewrite P3].
Qed.

Lemma ensureManifest_Err st uid m e m' st' : ensureManifest st uid m = (Err e, m', st') → st' = st.
Proof.
  unfold ensureManifest, createCM, updateCM. cbn zeta. intros H.
  repeat (case_match; simplify_eq/=; try done).
Qed.

(** A publication that fails has only added objects of its generation. *)
Lemma publishGeneration_Err w gw infra ls outcomes cert st e st' :
  publishGeneration w gw infra ls outcomes cert st = (Err e, st') →
  grows (omUID (gwMeta gw)) (publication gw infra ls outcomes cert) st st'.
Proof.
  unfold publishGeneration. cbn zeta.
  set (uid := omUID (gwMeta gw)). set (p := publication gw infra ls outcomes cert).
  destruct (ensureImmutableCM _ _ _ _) as [r1 st1] eqn:H1;
    pose proof (ensureImmutableCM_spec uid p _ _ _ _ _ _ (expected_gateway uid p) H1) as [G1 _].
  destruct r1; [|by intros [= <- <-]].
  destruct (write_attachments _ _ _ _) as [r2 st2] eqn:H2;
    pose proof (write_attachments_spec uid p _ _ _ _ (λ a, proj1 (elem_of_iterate _ a)) H2) as [G2 _].
  destruct r2; [|intros [= <- <-]; by etrans].
  destruct (write_secret _ _ _ _ _) as [r3 st3] eqn:H3;
    pose proof (write_secret_spec _ _ _ _ _ H3) as [G3 _].
  assert (G : grows uid p st st3) by (etrans; [exact G1|]; by etrans).
  destruct r3; [|by intros [= <- <-]].
  destruct (ensureManifest _ _ _) as [[r4 m] st4] eqn:H4. destruct r4; [done|].
  apply ensureManifest_Err in H4 as ->. by intros [= <- <-].
Qed.

Lemma publishGeneration_Ok w gw infra ls outcomes cert st gen st' :
  let uid := omUID (gwMeta gw) in
  let p := publication gw infra ls outcomes cert in
  consistent w uid p st → publishGeneration w gw infra ls outcomes cert st = (Ok gen, st') →
  gen = generation_of p ∧ present uid p st' ∧
  ∃ m, committed st' uid m ∧ compiled.mfGatewayUID m = uid ∧ compiled.mfGeneration m = gen ∧
       compiled.mfObjects m = object_refs uid p.
Proof.
  cbn zeta. intros Hco. unfold publishGeneration. cbn zeta.
  set (uid := omUID (gwMeta gw)) in *. set (p := publication gw infra ls outcomes cert) in *.
  destruct (ensureImmutableCM _ _ _ _) as [[r1|e] st1] eqn:H1; [|done].
  destruct (write_attachments _ _ _ _) as [[r2|e] st2] eqn:H2; [|done].
  destruct (write_secret _ _ _ _ _) as [[r3|e] st3] eqn:H3; [|done].
  destruct (objects_written w uid p _ _ _ _ _ _ _ Hco H1 H2 H3) as (G & P & ->).
  pose proof (grows_consistent _ _ _ _ _ G Hco) as Hco3.
  destruct (ensureManifest _ _ _) as [[r4 m] st4] eqn:H4.
  apply ensureManifest_spec in H4 as [(M1 & M2 & M3) H4]; [|apply Hco3].
  destruct r4 as [[]|e]; [|done].
  intros [= <- <-]. destruct H4 as [[S1 S2] Hc]. cbn in M1, M2, M3.
  assert (P4 : present uid p st4).
  { split; [|rewrite S2; apply P]. intros name cm He. rewrite S1; [by apply P|]. intros ->. by inversion He. }
  pose proof (co_snapshot _ _ _ _ Hco) as Hsnap.
  split; [done|]. split; [by apply present_survives|].
  exists m. split_and!; try done. by eapply committed_survives.
Qed.

(** ** Loading what was published *)

Section loading.
Context {libs : build.Libraries}.

Lemma labels_uid uid gen role :
  build.at_key (compiled.ObjectLabels uid gen role) compiled.LabelGatewayUID = uid.
Proof.
  unfold build.at_key, compiled.ObjectLabels, compiled.BaseLabels.
  rewrite 3!lookup_insert_ne by done. by rewrite lookup_insert_eq.
Qed.

Lemma labels_role uid gen role :
  build.at_key (compiled.ObjectLabels uid gen role) compiled.LabelRole = role.
Proof. unfold build.at_key, compiled.ObjectLabels. by rewrite lookup_insert_eq. Qed.

Lemma at_key_insert_ne (m : gmap string string) k k' v :
  k ≠ k' → build.at_key (<[k := v]> m) k' = build.at_key m k'.
Proof. intros H. unfold build.at_key. by rewrite lookup_insert_ne. Qed.

Lemma payload_at labels payload :
  build.at_key (build.cmData (payload_cm labels payload)) compiled.DataKey = payload.
Proof. unfold build.at_key, payload_cm. cbn [build.cmData]. by rewrite lookup_singleton_eq. Qed.

Lemma guard_refl {E} (x y : string) (e : E) : x = y → guard_err (x == y) e = Ok tt.
Proof. intros ->. unfold guard_err. by rewrite bool_decide_true. Qed.

Lemma load_gateway_ref uid p st ld :
  build.decodeGatewayConfig (marshalGateway (puGateway p)) = Ok (puGateway p) → present uid p st →
  build.load_object uid (stCMs st) (stSecrets st) ld
    (cm_ref (compiled.GatewayConfigName uid (generation_of p)) (marshalGateway (puGateway p))) =
  Ok (build.mkLoadState (Some (puGateway p)) (build.ldRoutes ld) (build.ldSecret ld)).
Proof.
  intros Hd [P _]. unfold build.load_object. cbn [compiled.orKind compiled.orName cm_ref].
  rewrite bool_decide_true by done. rewrite (P _ _ (expected_gateway uid p)). cbn [of_option mbind result_bind].
  unfold build.load_configmap. rewrite payload_at. cbn [build.cmLabels payload_cm compiled.orChecksum cm_ref].
  rewrite labels_uid, labels_role, !guard_refl by done. cbn. by rewrite Hd.
Qed.

Lemma load_attachment_ref uid p st ld routeUID c :
  puRoutes p !! routeUID = Some c → build.decodeRouteConfig (marshalRoute c) = Ok c → present uid p st →
  build.load_object uid (stCMs st) (stSecrets st) ld
    (cm_ref (compiled.AttachmentName uid routeUID (generation_of p)) (marshalRoute c)) =
  Ok (build.mkLoadState (build.ldGateway ld) (build.ldRoutes ld ++ [c]) (build.ldSecret ld)).
Proof.
  intros Hc Hd [P _]. unfold build.load_object. cbn [compiled.orKind compiled.orName cm_ref].
  rewrite bool_decide_true by done.
  assert (Ha : attachments_of p !! routeUID = Some (marshalRoute c))
    by (unfold attachments_of; by rewrite lookup_fmap, Hc).
  rewrite (P _ _ (expected_attachment uid p _ _ Ha)). cbn [of_option mbind result_bind].
  unfold build.load_configmap. rewrite payload_at. cbn [build.cmLabels payload_cm compiled.orChecksum cm_ref].
  rewrite !at_key_insert_ne by done. rewrite labels_uid, labels_role, !guard_refl by done. cbn. by rewrite Hd.
Qed.

Lemma load_secret_ref uid p st ld :
  (0 <? size (puData p)) = true → present uid p st →
  build.load_object uid (stCMs st) (stSecrets st) ld
    (compiled.mkObjectRef compiled.ObjectKindSecret (compiled.TLSSecretName uid (generation_of p))
       (checksum_of p)) =
  Ok (build.mkLoadState (build.ldGateway ld) (build.ldRoutes ld) (Some (expected_secret uid p))).
Proof.
  intros Hs [_ P]. unfold build.load_object. cbn [compiled.orKind compiled.orName].
  rewrite bool_decide_false, bool_decide_true by done. rewrite (P Hs). cbn [of_option mbind result_bind].
  unfold build.load_secret. cbn [build.scLabels build.scData expected_secret compiled.orChecksum].
  unfold checksum_of. rewrite labels_uid, Hs, !guard_refl by done. done.
Qed.

(** The payloads survive JSON. *)
Record decodes (p : Publication) : Prop := {
  de_gateway : build.decodeGatewayConfig (marshalGateway (puGateway p)) = Ok (puGateway p);
  de_routes : ∀ routeUID c, puRoutes p !! routeUID = Some c → build.decodeRouteConfig (marshalRoute c) = Ok c;
}.

Lemma load_attachments uid p st l ld :
  decodes p → present uid p st → (∀ a, a ∈ l → attachments_of p !! a.1 = Some a.2) →
  ∃ routes, foldM (build.load_object uid (stCMs st) (stSecrets st)) ld
      ((λ a, cm_ref (compiled.AttachmentName uid a.1 (generation_of p)) a.2) <$> l) =
    Ok (build.mkLoadState (build.ldGateway ld) (build.ldRoutes ld ++ routes) (build.ldSecret ld)) ∧
    Forall2 (λ a c, puRoutes p !! a.1 = Some c) l routes.
Proof.
  intros Hd P. revert ld. induction l as [|[routeUID payload] l IH]; intros ld Hl.
  { exists []. split; [|constructor]. cbn. rewrite app_nil_r. by destruct ld. }
  rewrite fmap_cons. cbn [foldM fst snd].
  pose proof (Hl (routeUID, payload) ltac:(left)) as Ha. cbn in Ha. unfold attachments_of in Ha.
  rewrite lookup_fmap in Ha. destruct (puRoutes p !! routeUID) as [c|] eqn:Hc; [|done]. injection Ha as <-.
  rewrite (load_attachment_ref uid p st ld routeUID c) by (done || by eapply de_routes). cbn [mbind result_bind].
  destruct (IH (build.mkLoadState (build.ldGateway ld) (build.ldRoutes ld ++ [c]) (build.ldSecret ld)))
    as (routes & -> & HF); [intros a ?; apply Hl; by right|].
  exists (c :: routes). split; [cbn; by rewrite <-app_assoc|]. by constructor.
Qed.

(** What the data plane reads back. *)
Lemma load_objects uid p st :
  decodes p → present uid p st →
  ∃ routes, foldM (build.load_object uid (stCMs st) (stSecrets st)) (build.mkLoadState None [] None)
      (object_refs uid p) =
    Ok (build.mkLoadState (Some (puGateway p)) routes
          (if (0 <? size (puData p)) then Some (expected_secret uid p) else None)) ∧
    Forall2 (λ a c, puRoutes p !! a.1 = Some c) (iterate (attachments_of p)) routes.
Proof.
  intros Hd P. unfold object_refs. cbn [foldM]. rewrite load_gateway_ref by (done || apply Hd).
  cbn [mbind result_bind]. rewrite foldM_app.
  destruct (load_attachments uid p st (iterate (attachments_of p))
    (build.mkLoadState (Some (puGateway p)) [] None)) as (routes & Hl & HF);
    [done|done|intros a; by rewrite elem_of_iterate|].
  exists routes. split; [|done]. cbn [build.ldRoutes build.ldSecret] in Hl |- *. rewrite Hl.
  cbn [mbind result_bind]. destruct (0 <? size (puData p)) eqn:Hs; [|done].
  cbn [foldM]. by rewrite load_secret_ref.
Qed.

(** ** Building what was published *)

(** The secret holds what the listeners and the backend certificate need. *)
Record secret_good (gateway : compiled.GatewayConfig) (data : gmap string string) : Prop := {
  sg_pairs : ∀ lst, lst ∈ compiled.gcListeners gateway → compiled.lHasTLS lst = true →
    ∃ cert key u, data !! (compiled.lName lst +:+ ".tls.crt") = Some cert ∧
      data !! (compiled.lName lst +:+ ".tls.key") = Some key ∧ build.x509KeyPair cert key = Ok u;
  sg_cas : ∀ lst, lst ∈ compiled.gcListeners gateway → compiled.lClientCAMode lst ≠ "" →
    ∃ pem, data !! (compiled.lName lst +:+ ".client-ca.crt") = Some pem ∧ build.appendCertsFromPEM pem = true;
  sg_client : compiled.gcBackendClientCert gateway = true →
    ∃ cert key u, data !! compiled.BackendClientCertKey = Some cert ∧
      data !! compiled.BackendClientKeyKey = Some key ∧ build.x509KeyPair cert key = Ok u;
}.

(** The generated secret, absent when it would be empty. *)
Definition generated (labels data : gmap string string) : option build.Secret :=
  if (0 <? size data) then Some (build.mkSecret labels data) else None.

Lemma generated_Some labels data k v :
  data !! k = Some v → generated labels data = Some (build.mkSecret labels data).
Proof.
  intros Hk. unfold generated. destruct (0 <? size data) eqn:Hs; [done|].
  apply Nat.ltb_ge in Hs. assert (size data = 0) as ->%map_size_empty_inv by lia. by rewrite lookup_empty in Hk.
Qed.

Lemma listener_certificate_total gateway labels data lst :
  secret_good gateway data → lst ∈ compiled.gcListeners gateway →
  ∃ c, build.listener_certificate (generated labels data) lst = Ok c.
Proof.
  intros [Hpair _ _] Hin. unfold build.listener_certificate.
  destruct (compiled.lHasTLS lst) eqn:Ht; cbn [negb]; [|by eexists].
  destruct (Hpair lst Hin Ht) as (cert & key & u & Hc & Hk & Hx).
  rewrite (generated_Some _ _ _ _ Hc). cbn [of_option mbind result_bind]. unfold build.secret_at, build.at_key.
  cbn [build.scData]. rewrite Hc, Hk. cbn. rewrite Hx. by eexists.
Qed.

Lemma listener_client_auth_total gateway labels data lst :
  secret_good gateway data → lst ∈ compiled.gcListeners gateway →
  ∃ a, build.listener_client_auth (generated labels data) lst = Ok a.
Proof.
  intros [_ Hca _] Hin. unfold build.listener_client_auth. case_bool_decide as Hm; [by eexists|].
  destruct (Hca lst Hin Hm) as (pem & Hc & Hx).
  rewrite (generated_Some _ _ _ _ Hc). cbn [of_option mbind result_bind]. unfold build.secret_at, build.at_key.
  cbn [build.scData]. rewrite Hc. cbn. rewrite Hx. by eexists.
Qed.

Lemma build_listeners_total gateway trust labels data base ls env0 :
  secret_good gateway data → (∀ l, l ∈ ls → l ∈ compiled.gcListeners gateway) →
  ∃ env', foldM (build.build_listener gateway trust (generated labels data) base) env0 ls = Ok env'.
Proof.
  intros Hg. revert env0. induction ls as [|l ls IH]; intros env0 Hin; [by eexists|]. cbn [foldM].
  assert (Hb : ∃ env1, build.build_listener gateway trust (generated labels data) base env0 l = Ok env1).
  { unfold build.build_listener.
    destruct (listener_certificate_total gateway labels data l) as [c ->]; [done|apply Hin; left|].
    destruct (listener_client_auth_total gateway labels data l) as [a ->]; [done|apply Hin; left|].
    cbn [mbind result_bind]. destruct (default _ _). by eexists. }
  destruct Hb as [env1 ->]. cbn [mbind result_bind]. apply IH. intros x ?. apply Hin. by right.
Qed.

Lemma backend_client_cert_total gateway labels data :
  secret_good gateway data → ∃ c, build.backend_client_cert gateway (generated labels data) = Ok c.
Proof.
  intros [_ _ Hcc]. unfold build.backend_client_cert.
  destruct (generated labels data) as [sec|] eqn:Hs; [|by eexists].
  destruct (compiled.gcBackendClientCert gateway) eqn:Hb; [|by eexists].
  destruct (Hcc eq_refl) as (cert & key & u & Hc & Hk & Hx).
  rewrite (generated_Some _ _ _ _ Hc) in Hs. injection Hs as <-. unfold build.secret_at, build.at_key.
  cbn [build.scData]. rewrite Hc, Hk. cbn. rewrite Hx. by eexists.
Qed.

Lemma build_total gen gateway routes labels data previous next :
  secret_good gateway data →
  Forall (λ c, is_Some (parsePrefix c)) (compiled.gcTrustedProxies gateway) →
  ∃ t next', build.BuildGatewayTable gen gateway routes (generated labels data) previous next = Ok (t, next') ∧
    routing.gtGeneration t = gen.
Proof.
  intros Hg Htrust. unfold build.BuildGatewayTable.
  destruct (New_total _ Htrust) as (trust & -> & _). cbn [map_err mbind result_bind].
  destruct (build_listeners_total gateway trust labels data next (compiled.gcListeners gateway)
    (build.mkListenerEnv [] ∅ ∅)) as [env' ->]; [done|done|]. cbn [mbind result_bind].
  destruct (backend_client_cert_total gateway labels data) as [[cc sum] ->]; [done|].
  cbn [mbind result_bind]. destruct (build.build_routes _ _ _ _ _ _ _). by do 2 eexists.
Qed.

(** ** The secret of a publication *)

(** No two kinds of keys of the secret meet. *)
Lemma crt_inj a b : a +:+ ".tls.crt" = b +:+ ".tls.crt" → a = b.
Proof. by intros [-> _]%sapp_inj_2. Qed.
Lemma key_inj a b : a +:+ ".tls.key" = b +:+ ".tls.key" → a = b.
Proof. by intros [-> _]%sapp_inj_2. Qed.
Lemma crt_key a b : a +:+ ".tls.crt" ≠ b +:+ ".tls.key".
Proof. by intros [_ ?]%sapp_inj_2. Qed.
Lemma ca_split b : b +:+ ".client-ca.crt" = (b +:+ ".clien") +:+ "t-ca.crt".
Proof. by rewrite <-sapp_assoc. Qed.
Lemma crt_ca a b : a +:+ ".tls.crt" ≠ b +:+ ".client-ca.crt".
Proof. rewrite ca_split. by intros [_ ?]%sapp_inj_2. Qed.
Lemma key_ca a b : a +:+ ".tls.key" ≠ b +:+ ".client-ca.crt".
Proof. rewrite ca_split. by intros [_ ?]%sapp_inj_2. Qed.
Lemma auth_apart id a s :
  s ∈ [".tls.crt"; ".tls.key"; ".client-ca.crt"] → compiled.AuthSecretKey id ≠ a +:+ s.
Proof.
  intros Hs H. assert (Hsplit : ∃ b t, a +:+ s = b +:+ t ∧ len t = 5 ∧ t ≠ ".json").
  { repeat (apply elem_of_cons in Hs as [->|Hs]); [..|by apply elem_of_nil in Hs].
    - exists (a +:+ ".tl"), "s.crt". by rewrite <-sapp_assoc.
    - exists (a +:+ ".tl"), "s.key". by rewrite <-sapp_assoc.
    - exists (a +:+ ".client-c"), "a.crt". by rewrite <-sapp_assoc. }
  destruct Hsplit as (b & t & Hb & Hl & Hne). rewrite Hb in H. unfold compiled.AuthSecretKey in H.
  rewrite sapp_assoc in H. apply sapp_inj_2 in H as [_ Ht]; [|by rewrite Hl]. by subst t.
Qed.

Definition pair_at (data : gmap string string) (name : string) : Prop :=
  ∃ cert key u, data !! (name +:+ ".tls.crt") = Some cert ∧ data !! (name +:+ ".tls.key") = Some key ∧
    build.x509KeyPair cert key = Ok u.

Definition pairs_ok (data : gmap string string) : Prop :=
  ∀ name, is_Some (data !! (name +:+ ".tls.crt")) → pair_at data name.

Section data.
Context {k8s : Kubernetes}.

Definition cas_ok (data : gmap string string) : Prop :=
  ∀ name pem, data !! (name +:+ ".client-ca.crt") = Some pem → validCAPem pem = true.

Lemma sound_pair w gw l : listener_sound w gw l → has_tls (lsSpec l) = true → pair_at (lsCertData l) (effectiveName l).
Proof.
  intros Hs Ht. destruct (so_certs _ _ _ Hs Ht) as (tls & _ & _ & ref & cert & key & _ & Hres & Hc & Hk).
  unfold cert_resolves in Hres. destruct (owner gw l). destruct Hres as (_ & secret & _ & _ & _ & u & Hx).
  by exists cert, key, u.
Qed.

Lemma overlay_pairs w gw l data :
  listener_sound w gw l → pairs_ok data → pairs_ok (lsCertData l ∪ data).
Proof.
  intros Hs Hd name [cert Hc]. apply lookup_union_Some_raw in Hc as [Hc|[Hn Hc]].
  - destruct (so_data _ _ _ Hs _ _ Hc) as [[Ht [He|He]]|[He _]];
      [apply crt_inj in He as ->|by apply crt_key in He|by apply crt_ca in He].
    destruct (sound_pair _ _ _ Hs Ht) as (c & k & u & H1 & H2 & H3). exists c, k, u.
    split_and!; [by apply lookup_union_Some_l..|done].
  - destruct (Hd name) as (c & k & u & H1 & H2 & H3); [by eexists|]. exists c, k, u.
    split_and!; [by apply lookup_union_Some_raw; right| |done]. apply lookup_union_Some_raw. right. split; [|done].
    destruct (lsCertData l !! (name +:+ ".tls.key")) eqn:Hk; [|done].
    destruct (so_data _ _ _ Hs _ _ Hk) as [[Ht [He|He]]|[He _]];
      [by apply eq_sym, crt_key in He|apply key_inj in He as ->|by apply key_ca in He].
    destruct (sound_pair _ _ _ Hs Ht) as (c' & k' & u' & H1' & _). congruence.
Qed.

Lemma overlay_cas w gw l data : listener_sound w gw l → cas_ok data → cas_ok (lsCertData l ∪ data).
Proof.
  intros Hs Hd name pem Hp. apply lookup_union_Some_raw in Hp as [Hp|[_ Hp]]; [|by eapply Hd].
  destruct (so_data _ _ _ Hs _ _ Hp) as [[_ [He|He]]|[_ Hv]];
    [by apply eq_sym, crt_ca in He|by apply eq_sym, key_ca in He|done].
Qed.

(** The certificates of sound listeners over good data. *)
Lemma certificates_ok w gw (ls : list listenerState) data :
  Forall (listener_sound w gw) ls → pairs_ok data → cas_ok data →
  let out := fold_left (λ data l, lsCertData l ∪ data) ls data in
  pairs_ok out ∧ cas_ok out ∧ (∀ k, is_Some (data !! k) → is_Some (out !! k)) ∧
  ∀ l k, l ∈ ls → is_Some (lsCertData l !! k) → is_Some (out !! k).
Proof.
  cbn zeta. intros Hall. revert data. induction Hall as [|l ls Hl _ IH]; intros data Hp Hc; cbn [fold_left].
  { split_and!; try done. by intros l k ?%elem_of_nil. }
  destruct (IH (lsCertData l ∪ data)) as (H1 & H2 & H3 & H4); [by eapply overlay_pairs|by eapply overlay_cas|].
  split_and!; [done|done| |].
  - intros k Hk. apply H3. rewrite lookup_union_is_Some. by right.
  - intros l' k [->|Hin]%elem_of_cons Hk; [|by eapply H4]. apply H3. rewrite lookup_union_is_Some. by left.
Qed.

Lemma client_cert_pair w gw cert :
  ccCertPEM (resolveBackendClientCert w gw) = Some cert →
  ccResolved (resolveBackendClientCert w gw) = true ∧
  ∃ key u, ccKeyPEM (resolveBackendClientCert w gw) = Some key ∧ build.x509KeyPair cert key = Ok u.
Proof.
  unfold resolveBackendClientCert. repeat (case_match; try done). cbn. intros [= <-]. eauto.
Qed.

Lemma client_cert_data_ok w gw :
  let data := client_cert_data (resolveBackendClientCert w gw) in
  pairs_ok data ∧ cas_ok data ∧
  (is_Some (ccCertPEM (resolveBackendClientCert w gw)) → pair_at data "_backend-client").
Proof.
  cbn zeta. unfold client_cert_data.
  destruct (ccCertPEM (resolveBackendClientCert w gw)) as [cert|] eqn:Hc.
  2: { split_and!; [by intros n [? ?%lookup_empty_Some]|by intros n p ?%lookup_empty_Some|by intros []]. }
  destruct (client_cert_pair _ _ _ Hc) as (-> & key & u & -> & Hx). cbn.
  assert (Hp : pair_at (<[compiled.BackendClientKeyKey:=key]> {[compiled.BackendClientCertKey := cert]})
                 "_backend-client").
  { exists cert, key, u. split_and!; [|by rewrite lookup_insert_eq|done].
    rewrite lookup_insert_ne by done. by rewrite lookup_singleton_eq. }
  assert (Hin : ∀ k v, (<[compiled.BackendClientKeyKey:=key]> {[compiled.BackendClientCertKey := cert]} :
    gmap string string) !! k = Some v → k = "_backend-client" +:+ ".tls.key" ∨ k = "_backend-client" +:+ ".tls.crt").
  { intros k v [[<- _]|[_ [<- _]%lookup_singleton_Some]]%lookup_insert_Some; auto. }
  split_and!; [|intros n p [Hk|Hk]%Hin; [by apply eq_sym, key_ca in Hk|by apply eq_sym, crt_ca in Hk]|done].
  intros n [v [Hk|Hk]%Hin]; [by apply crt_key in Hk|]. apply crt_inj in Hk as ->. done.
Qed.

(** Auth documents leave the certificates alone. *)
Lemma auth_entries_other docs k :
  (∀ id, compiled.AuthSecretKey id ≠ k) → auth_entries docs !! k = None.
Proof.
  intros Hk. unfold auth_entries. apply not_elem_of_list_to_map. rewrite <-list_fmap_compose.
  intros (d & He & _)%list_elem_of_fmap. by apply (Hk d.1).
Qed.

Lemma merge_outcomes_other outcomes acc k :
  (∀ id, compiled.AuthSecretKey id ≠ k) → (fold_left merge_outcome outcomes acc).2 !! k = acc.2 !! k.
Proof.
  intros Hk. revert acc. induction outcomes as [|o outcomes IH]; intros acc; [done|]. cbn [fold_left].
  rewrite IH. unfold merge_outcome. destruct (roConfig o); [|done]. destruct (_ =? 0); [done|]. cbn [snd].
  by rewrite lookup_union_r; [|apply auth_entries_other].
Qed.

Lemma publication_good w gw infra ls outcomes :
  let cert := resolveBackendClientCert w gw in
  let p := publication gw infra ls outcomes cert in
  (∀ l, l ∈ ls → valid l = true → listener_sound w gw l) →
  (∀ pem, validCAPem pem = true → build.appendCertsFromPEM pem = true) →
  secret_good (puGateway p) (puData p).
Proof.
  cbn zeta. intros Hls Hpem. unfold publication.
  pose proof (λ k, merge_outcomes_other outcomes
    (∅, certificates ls (resolveBackendClientCert w gw)) k) as Hother.
  destruct (fold_left merge_outcome _ _) as [configs data]. cbn [snd puGateway puData] in *.
  destruct (client_cert_data_ok w gw) as (C1 & C2 & C3).
  destruct (certificates_ok w gw (filter (λ l, valid l = true) ls)
    (client_cert_data (resolveBackendClientCert w gw))) as (P1 & P2 & P3 & P4); [|exact C1|exact C2|].
  { apply list.Forall_forall. intros l [? ?]%list_elem_of_filter. auto. }
  unfold certificates in Hother. set (certs := fold_left _ _ _) in *.
  assert (Hdata : ∀ n s, s ∈ [".tls.crt"; ".tls.key"; ".client-ca.crt"] → data !! (n +:+ s) = certs !! (n +:+ s)).
  { intros n s Hs. apply Hother. intros id. by apply auth_apart. }
  assert (Hpair : ∀ n, is_Some (certs !! (n +:+ ".tls.crt")) → ∃ cert key u,
    data !! (n +:+ ".tls.crt") = Some cert ∧ data !! (n +:+ ".tls.key") = Some key ∧ build.x509KeyPair cert key = Ok u).
  { intros n Hn. rewrite !Hdata by set_solver. by apply P1. }
  split; cbn.
  - intros lst (l & -> & [Hv Hl]%list_elem_of_filter)%list_elem_of_fmap Ht. cbn in Ht |- *. apply Hpair.
    apply (P4 l); [by apply list_elem_of_filter|].
    destruct (sound_pair _ _ _ (Hls l Hl Hv) Ht) as (c & k & u & Hc & _). by eexists.
  - intros lst (l & -> & [Hv Hl]%list_elem_of_filter)%list_elem_of_fmap Hm. cbn in Hm |- *.
    pose proof (Hls l Hl Hv) as Hs. pose proof (so_client_ca _ _ _ Hs (so_mode _ _ _ Hs Hm)) as Hca.
    destruct (frontendValidationFor _ _); [|done]. destruct Hca as (_ & _ & pem & Hp & _).
    rewrite Hdata by set_solver. destruct (P4 l (effectiveName l +:+ ".client-ca.crt")) as [pem' Hp'];
      [by apply list_elem_of_filter|by eexists|]. exists pem'. split; [done|]. eapply Hpem, P2. exact Hp'.
  - intros [_ Hs%bool_decide_eq_true]%andb_true_iff.
    destruct (C3 Hs) as (c & k & u & Hc & _). apply (Hpair "_backend-client"). apply P3. by eexists.
Qed.

(** ** The listeners the attachments counted *)

Lemma listener_sound_bare w gw l : listener_sound w gw l ↔ listener_sound w gw (uncount l).
Proof. split; intros []; by split. Qed.

Lemma counted_sound {hcl : authdoc.HCL} {enc : extensions.Encoding} w gw sets ls l :
  (∀ l, l ∈ ls → valid l = true → listener_sound w gw l) →
  l ∈ (attach_routes w gw sets ls).2 → valid l = true → listener_sound w gw l.
Proof.
  intros Hls Hin Hv. rewrite attach_routes_state in Hin. cbn in Hin.
  assert (Hb : uncount l ∈ uncount <$> ls).
  { rewrite <-(count_routes_bare (omap (attach_one w gw sets ls) (attachments w) ≫= snd)).
    apply list_elem_of_fmap. by exists l. }
  apply list_elem_of_fmap in Hb as (l0 & He & Hl0). rewrite listener_sound_bare, He, <-listener_sound_bare.
  apply Hls; [done|]. change (valid (uncount l0) = true). by rewrite <-He.
Qed.

End data.
End loading.

(** ** Properties *)

(** What the control plane publishes the data plane accepts: when a Gateway's
    validated listeners, attached routes, parsed parameters and backend
    certificate are published without an error, the manifest committed carries
    its labels, names the new generation and loading that manifest from the
    resulting objects builds its table, from any previous state, provided names
    and contents agreed before, JSON returns the payloads and a bundle the
    control plane accepts is one the data plane can use. *)
Theorem published_generation_loads {k8s : Kubernetes} {libs : build.Libraries} {hcl : authdoc.HCL}
    {enc : extensions.Encoding} {params : ParamsHCL} w gw sets a src infra st gen st' :
  let ls := (validateListeners w gw sets a).1 in
  let '(outcomes, counted) := attach_routes w gw sets ls in
  let cert := resolveBackendClientCert w gw in
  let uid := omUID (gwMeta gw) in
  let p := publication gw infra counted outcomes cert in
  ports.allocator_ok a → ports.range_ok a → ParseInfra src = Ok infra →
  (∀ pem, validCAPem pem = true → build.appendCertsFromPEM pem = true) →
  consistent w uid p st → decodes p →
  publishGeneration w gw infra counted outcomes cert st = (Ok gen, st') →
  ∃ m, committed st' uid m ∧ compiled.mfGeneration m = gen ∧
    ∀ previous next, ∃ t next',
      build.LoadGeneration m (stCMs st') (stSecrets st') previous next = Ok (t, next') ∧
      routing.gtGeneration t = gen.
Proof.
  cbn zeta. pose proof (counted_sound w gw sets (validateListeners w gw sets a).1) as Hcount.
  destruct (attach_routes _ _ _ _) as [outcomes counted]. cbn [snd] in Hcount.
  intros Ha Hr Hparse Hpem Hco Hde Hpub.
  assert (Hls : ∀ l, l ∈ (validateListeners w gw sets a).1 → valid l = true → listener_sound w gw l).
  { intros l Hl Hv. destruct (validateListeners w gw sets a) as [ls a'] eqn:Hval.
    destruct (validateListeners_valid _ _ _ _ _ _ Ha Hr Hval) as [[_ _ H] _].
    apply (H l); [by apply list_elem_of_filter|done]. }
  destruct (publishGeneration_Ok _ _ _ _ _ _ _ _ _ Hco Hpub) as (-> & P & m & Hm & M1 & M2 & M3).
  exists m. split_and!; [done|done|]. intros previous next.
  destruct (load_objects _ _ _ Hde P) as (routes & Hload & _).
  pose proof (publication_good w gw infra counted outcomes (λ l Hl, Hcount l Hls Hl) Hpem) as Hgood.
  set (p := publication _ _ _ _ _) in *.
  destruct (build_total (generation_of p) (puGateway p) routes
    (compiled.ObjectLabels (omUID (gwMeta gw)) (generation_of p) compiled.RoleTLS) (puData p) previous next)
    as (t & n & Hb & Hg); [done| |].
  { unfold p, publication. destruct (fold_left merge_outcome _ _). by apply (ParseInfra_prefixes src). }
  exists t, n. split; [|done]. unfold build.LoadGeneration. rewrite M1, M2, M3, Hload. cbn. exact Hb.
Qed.

(** C25: A publication that fails at any call leaves the Gateway's manifest as
    it was and deletes or changes no object. *)
Theorem failed_publication_harmless w gw infra ls outcomes cert st e st' :
  publishGeneration w gw infra ls outcomes cert st = (Err e, st') →
  stCMs st' !! compiled.ManifestName (omUID (gwMeta gw)) = stCMs st !! compiled.ManifestName (omUID (gwMeta gw)) ∧
  stCMs st ⊆ stCMs st' ∧ stSecrets st ⊆ stSecrets st'.
Proof.
  intros (G1 & G2 & G3 & _)%publishGeneration_Err. split_and!.
  - apply option_eq. intros cm. split; [|apply G1]. intros [?|He]%G2; [done|]. by inversion He.
  - by apply map_subseteq_spec.
  - by apply map_subseteq_spec.
Qed.

(** Collection deletes only objects labelled for the Gateway with a generation
    that is neither desired nor previous nor applied by any pod, and only once
    every healthy pod applied the desired one. *)
Theorem gc_spares_needed w uid m st : survives (collectable w uid m) w st (gcGenerations w uid m st).
Proof. apply gcGenerations_survives. Qed.

End publish.
(** ** Examples *)

Definition ex_env (faults : Verb → string → option string) : Environment := {|
  fault := faults;
  marshalGateway c := "GATEWAY " +:+ compiled.gcUID c;
  marshalRoute c := "ROUTE " +:+ compiled.rcUID c;
  marshalManifest m := "MANIFEST " +:+ compiled.mfGeneration m;
  unmarshalManifest s := Err "opaque";
  iterate m := map_to_list m;
  iterate_perm m := reflexivity _;
|}.

Definition no_faults : Verb → string → option string := λ _ _, None.
Definition manifest_fault : Verb → string → option string :=
  λ verb name, if bool_decide (name = "krouter-manifest-gw-uid")
               then match verb with CreateCM => Some "quota" | _ => None end else None.

(** The world of the attachment example, with the grant its certificates
    need. *)
Definition ex_pub_world : world :=
  let w := ex_attach_world in
  mkWorld [] [] (wRoutes w) [] [] [] [] (ex_grant :: wGrants w) ∅ [] [] [] ∅ (wServices w) [] [] []
    (wExtensionCM w) (wExtensionSecret w) EmptyAckState "".

Definition ex_attach (libs : build.Libraries) : list routeParentOutcome * list listenerState :=
  let k8s := ex_cluster in let hcl := authdoc.ex_hcl in let enc := extensions.ex_enc in
  attach_routes ex_pub_world ex_listener_gw []
    (validateListeners ex_pub_world ex_listener_gw [] ports.ex_allocator).1.

Definition ex_cert (libs : build.Libraries) : backendClientCert :=
  let k8s := ex_cluster in resolveBackendClientCert ex_pub_world ex_listener_gw.

Definition ex_pub (libs : build.Libraries) : Publication :=
  publication ex_listener_gw ex_parsed (ex_attach libs).2 (ex_attach libs).1 (ex_cert libs).

Definition ex_pass (libs : build.Libraries) (faults : Verb → string → option string) (st : Store) :
    result ApiError string * Store :=
  let env := ex_env faults in
  publishGeneration ex_pub_world ex_listener_gw ex_parsed (ex_attach libs).2 (ex_attach libs).1 (ex_cert libs) st.

Definition ex_publication : Publication := ex_pub build.ex_libs.

(** The decoders read back the payloads of the example. *)
Definition ex_libs : build.Libraries := {|
  build.x509KeyPair := @build.x509KeyPair build.ex_libs;
  build.samlSigner := @build.samlSigner build.ex_libs;
  build.appendCertsFromPEM := @build.appendCertsFromPEM build.ex_libs;
  build.parseCertificate := @build.parseCertificate build.ex_libs;
  build.verifyChain := @build.verifyChain build.ex_libs;
  build.verifyHostname := @build.verifyHostname build.ex_libs;
  build.newWAF := @build.newWAF build.ex_libs;
  build.parseMetadata := @build.parseMetadata build.ex_libs;
  build.decodeAuth := @build.decodeAuth build.ex_libs;
  build.decodeGatewayConfig _ := Ok (puGateway ex_publication);
  build.decodeRouteConfig payload :=
    of_option "unknown" (head (filter (λ c, "ROUTE " +:+ compiled.rcUID c = payload)
                                 (map_to_list (puRoutes ex_publication)).*2));
|}.

Definition ex_result : result ApiError string * Store := ex_pass ex_libs no_faults (mkStore ∅ ∅).
Definition ex_generation : string := match ex_result.1 with Ok g => g | Err _ => "" end.

Example ex_published :
  ex_result.1 = Ok ex_generation ∧ size (stCMs ex_result.2) = 3 ∧ size (stSecrets ex_result.2) = 1.
Proof. vm_compute. done. Qed.

Lemma ex_pem_appends (k8s := ex_cluster) (libs := ex_libs) pem :
  validCAPem pem = true → build.appendCertsFromPEM pem = true.
Proof.
  intros H. cbn. apply negb_true_iff, bool_decide_eq_false. intros ->. by vm_compute in H.
Qed.

Lemma ex_consistent {env : Environment} uid p : consistent ex_pub_world uid p (mkStore ∅ ∅).
Proof.
  split; cbn [stCMs stSecrets].
  - by intros n cm old _ H%lookup_empty_Some.
  - by intros old H%lookup_empty_Some.
  - by intros old H%lookup_empty_Some.
  - split; by intros old ?%elem_of_nil.
Qed.

Lemma ex_decodes (libs := ex_libs) (env := ex_env no_faults) : decodes (ex_pub ex_libs).
Proof.
  split; [vm_compute; reflexivity|].
  assert (HF : map_Forall (λ _ c, build.decodeRouteConfig (marshalRoute c) = Ok c) (puRoutes (ex_pub ex_libs))).
  { apply map_Forall_to_list. vm_compute. repeat constructor. }
  exact HF.
Qed.

Lemma published_generation_loads_witness :
  let libs := ex_libs in let env := ex_env no_faults in
  ∃ m, committed ex_result.2 "gw-uid" m ∧ compiled.mfGeneration m = ex_generation ∧
    ∀ previous next, ∃ t next',
      build.LoadGeneration m (stCMs ex_result.2) (stSecrets ex_result.2) previous next = Ok (t, next') ∧
      routing.gtGeneration t = ex_generation.
Proof.
  intros libs env.
  pose proof (@published_generation_loads env ex_cluster libs authdoc.ex_hcl extensions.ex_enc ex_params
    ex_pub_world ex_listener_gw [] ports.ex_allocator "proxy" ex_parsed (mkStore ∅ ∅)
    ex_generation ex_result.2) as H.
  cbv zeta in H. rewrite (surjective_pairing (attach_routes _ _ _ _)) in H.
  apply H; clear H.
  - apply ex_pool_ok.
  - apply ex_pool_ok.
  - vm_compute. reflexivity.
  - exact ex_pem_appends.
  - apply ex_consistent.
  - exact ex_decodes.
  - vm_compute. reflexivity.
Defined.

Definition ex_failed : result ApiError string * Store := ex_pass ex_libs manifest_fault (mkStore ∅ ∅).

Lemma failed_publication_harmless_witness :
  ex_failed.1 = Err (Failed "quota") ∧
  stCMs ex_failed.2 !! compiled.ManifestName "gw-uid" = (∅ : gmap string build.ConfigMap) !! compiled.ManifestName "gw-uid".
Proof.
  assert (Hf : ex_failed = (Err (Failed "quota"), ex_failed.2)) by (vm_compute; reflexivity).
  split; [rewrite Hf; reflexivity|].
  exact (proj1 (@failed_publication_harmless (ex_env manifest_fault) ex_pub_world ex_listener_gw ex_parsed
    (ex_attach ex_libs).2 (ex_attach ex_libs).1 (ex_cert ex_libs) (mkStore ∅ ∅) (Failed "quota") ex_failed.2 Hf)).
Defined.

(** A manifest whose only entry was replaced by an empty one under another
    key compares equal to any manifest: the edit is not repaired. *)
Example renamed_key_unrepaired (env := ex_env no_faults) :
  let edited := mkStore {[ "krouter-manifest-u" := build.mkConfigMap
                             (<[compiled.LabelRole := compiled.RoleManifest]> (compiled.BaseLabels "u"))
                             {[ "note" := "" ]} ]} ∅ in
  ensureManifest edited "u" (compiled.mkManifest "u" "gen" "" []) =
    (Ok tt, compiled.mkManifest "u" "gen" "" [], edited).
Proof. vm_compute. reflexivity. Qed.

(** Nor is a manifest that lost the label the data plane finds it by. *)
Example lost_label_unrepaired (env := ex_env no_faults) :
  let m := compiled.mkManifest "u" "gen" "" [] in
  let edited := mkStore {[ "krouter-manifest-u" := build.mkConfigMap
                             (delete compiled.LabelGatewayUID
                                (<[compiled.LabelRole := compiled.RoleManifest]> (compiled.BaseLabels "u")))
                             (manifest_data m) ]} ∅ in
  (ensureManifest edited "u" m).1.1 = Ok tt ∧ (ensureManifest edited "u" m).2 = edited ∧
  ∀ cm, stCMs edited !! "krouter-manifest-u" = Some cm →
    build.at_key (build.cmLabels cm) compiled.LabelGatewayUID = "".
Proof. cbn zeta. split; [vm_compute; reflexivity|]. split; [vm_compute; reflexivity|]. intros cm. vm_compute. by intros [= <-]. Qed.

End publish.
