(* ===== verification/Status.v ===== *)
(** * Status reporting

    Models [internal/lib/k8s/gatewayapi/status.go], the status half of
    [listenersets.go] and of [backendtls.go]: the conditions of every object
    the engine reports on, their merge with what the object carries, and
    the writes under optimistic concurrency.

    A Go slice that the code compares with [reflect.DeepEqual] is an
    [option] of a list, nil being [None]: an empty slice differs from nil.
    Times are seconds since Go's zero time. *)

From S2P Require Import Prelude GoStrings Compiled Build Ports GatewayTypes References Listeners BackendTLS.
From stdpp Require Import options.

#[local] Open Scope nat_scope.

Module status.
Import gatewayv1 gatewayapi listeners.

#[global] Instance ParentReference_eq_dec : EqDecision ParentReference.
Proof. solve_decision. Defined.
#[global] Instance RouteGroupKind_eq_dec : EqDecision RouteGroupKind.
Proof. solve_decision. Defined.

(** ** Slices *)

Definition Slice (A : Type) : Type := option (list A).
Definition elems {A} (s : Slice A) : list A := default [] s.

(** A slice grown from nil by [append]. *)
Definition appended {A} (l : list A) : Slice A := match l with [] => None | _ => Some l end.

Definition slice_map {A B} (f : A → B) (s : Slice A) : Slice B :=
  match s with Some l => Some (f <$> l) | None => None end.

(** ** Conditions *)

Definition ConditionTrue := "True".
Definition ConditionFalse := "False".

Record Condition := mkCondition {
  cdType : string;
  cdStatus : string;
  cdReason : string;
  cdMessage : string;
  cdObservedGeneration : Z;
  cdLastTransitionTime : Z;
}.

#[global] Instance Condition_eq_dec : EqDecision Condition.
Proof. solve_decision. Defined.

Definition condition (condType status reason message : string) (observedGeneration : Z) : Condition :=
  mkCondition condType status reason message observedGeneration 0.

Definition at_time (t : Z) (c : Condition) : Condition :=
  mkCondition (cdType c) (cdStatus c) (cdReason c) (cdMessage c) (cdObservedGeneration c) t.

Definition boolStatus (ok : bool) : string := if ok then ConditionTrue else ConditionFalse.
Definition conditionTrue (c : Condition) : bool := cdStatus c == ConditionTrue.

(** Equal but for the type, which the caller compared, and the time. *)
Definition unchanged (have want : Condition) : bool :=
  (cdStatus have == cdStatus want) && (cdReason have == cdReason want) &&
  (cdMessage have == cdMessage want) && (cdObservedGeneration have =? cdObservedGeneration want)%Z.

Definition merge_condition (now : Z) (existing : list Condition) (want : Condition) : Condition :=
  match list_find (λ have, cdType have = cdType want) existing with
  | None => at_time now want
  | Some (_, have) =>
      let want := at_time (if (cdStatus have == cdStatus want) then cdLastTransitionTime have else now) want in
      if unchanged have want then have else want
  end.

Definition mergeConditions (now : Z) (existing desired : list Condition) : list Condition :=
  merge_condition now existing <$> desired.

(** ** Objects and optimistic concurrency *)

Inductive Error := NotFound | Conflict | Failed (message : string).

(** What the engine reads of an object whose status it writes. *)
Record Object (S : Type) := mkObject { obGeneration : Z; obStatus : S }.
#[global] Arguments mkObject {_} _ _.
#[global] Arguments obGeneration {_} _.
#[global] Arguments obStatus {_} _.

(** What happens around one attempt: the clock, what other clients wrote
    before the read, what they write between the read and the update, and
    the calls that fail. *)
Record Round (S : Type) := mkRound {
  rdNow : Z;
  rdBefore : option (Object S) → option (Object S);
  rdRace : option (Object S → option (Object S));
  rdGetFault : option string;
  rdUpdateFault : option string;
}.
#[global] Arguments mkRound {_} _ _ _ _ _.
#[global] Arguments rdNow {_} _.
#[global] Arguments rdBefore {_} _ _.
#[global] Arguments rdRace {_} _.
#[global] Arguments rdGetFault {_} _.
#[global] Arguments rdUpdateFault {_} _.

(** [retry.DefaultRetry] *)
Definition DefaultRetry : nat := 5.

Section writer.
Context {S : Type}.
(** The new status of the object read, [None] when nothing changed. *)
Context (compute : Z → Object S → option S).
(** What the API server returns of a status it stored. *)
Context (stored : S → S).

Definition stored_object (fresh : Object S) (s : S) : Object S := mkObject (obGeneration fresh) (stored s).

(** One attempt: read, compute, update.  An object that changed since the
    read is not overwritten. *)
Definition attempt (rd : Round S) (st : option (Object S)) : result Error unit * option (Object S) :=
  let st := rdBefore rd st in
  match rdGetFault rd with
  | Some message => (Err (Failed message), st)
  | None =>
      match st with
      | None => (Err NotFound, None)
      | Some fresh =>
          match compute (rdNow rd) fresh with
          | None => (Ok tt, st)
          | Some s =>
              match rdRace rd, rdUpdateFault rd with
              | Some other, _ =>
                  match other fresh with
                  | None => (Err NotFound, None)
                  | st => (Err Conflict, st)
                  end
              | None, Some message => (Err (Failed message), st)
              | None, None => (Ok tt, Some (stored_object fresh s))
              end
          end
      end
  end.

(** [retry.RetryOnConflict]: the last conflict is returned. *)
Fixpoint retryOnConflict (steps : nat) (rounds : nat → Round S) (st : option (Object S)) :
    result Error unit * option (Object S) :=
  match steps with
  | O => (Err Conflict, st)
  | Datatypes.S steps =>
      match attempt (rounds 0) st with
      | (Err Conflict, st) => retryOnConflict steps (λ i, rounds (Datatypes.S i)) st
      | r => r
      end
  end.

Definition write (rounds : nat → Round S) (key : string) (objects : gmap string (Object S)) :
    result Error unit * gmap string (Object S) :=
  let '(r, o) := retryOnConflict DefaultRetry rounds (objects !! key) in
  (r, partial_alter (λ _, o) key objects).

End writer.

(** ** GatewayClass *)

Inductive Feature :=
  | SupportGateway | SupportHTTPRoute | SupportGRPCRoute | SupportTLSRoute | SupportTCPRoute
  | SupportUDPRoute | SupportReferenceGrant | SupportBackendTLSPolicy | SupportListenerSet
  | SupportHTTPRouteResponseHeaderModification | SupportHTTPRouteHostRewrite
  | SupportHTTPRoutePathRewrite | SupportHTTPRoutePathRedirect | SupportHTTPRouteSchemeRedirect
  | SupportHTTPRoutePortRedirect | SupportHTTPRoute303RedirectStatusCode
  | SupportHTTPRoute307RedirectStatusCode | SupportHTTPRoute308RedirectStatusCode
  | SupportHTTPRouteRequestMirror | SupportHTTPRouteRequestMultipleMirrors
  | SupportHTTPRouteRequestPercentageMirror | SupportHTTPRouteRequestTimeout
  | SupportHTTPRouteBackendTimeout | SupportGatewayPort8080 | SupportGatewayAddressEmpty
  | SupportHTTPRouteNamedRouteRule | SupportGRPCRouteNamedRouteRule | SupportHTTPRouteParentRefPort
  | SupportHTTPRouteDestinationPortMatching | SupportHTTPRouteMethodMatching
  | SupportHTTPRouteQueryParamMatching | SupportGatewayHTTPListenerIsolation
  | SupportHTTPRouteBackendProtocolH2C | SupportHTTPRouteBackendProtocolWebSocket
  | SupportHTTPRouteBackendRequestHeaderModification | SupportHTTPRouteCORS
  | SupportGatewayHTTPSListenerDetectMisdirectedRequests | SupportGatewayInfrastructure
  | SupportGatewayStaticAddresses | SupportBackendTLSPolicySANValidation
  | SupportGatewayBackendClientCertificate | SupportTLSRouteModeTerminate | SupportTLSRouteModeMixed
  | SupportGatewayFrontendClientCertificateValidation
  | SupportGatewayFrontendClientCertificateValidationInsecureFallback.

Definition features : list Feature := [
  SupportGateway; SupportHTTPRoute; SupportGRPCRoute; SupportTLSRoute; SupportTCPRoute;
  SupportUDPRoute; SupportReferenceGrant; SupportBackendTLSPolicy; SupportListenerSet;
  SupportHTTPRouteResponseHeaderModification; SupportHTTPRouteHostRewrite;
  SupportHTTPRoutePathRewrite; SupportHTTPRoutePathRedirect; SupportHTTPRouteSchemeRedirect;
  SupportHTTPRoutePortRedirect; SupportHTTPRoute303RedirectStatusCode;
  SupportHTTPRoute307RedirectStatusCode; SupportHTTPRoute308RedirectStatusCode;
  SupportHTTPRouteRequestMirror; SupportHTTPRouteRequestMultipleMirrors;
  SupportHTTPRouteRequestPercentageMirror; SupportHTTPRouteRequestTimeout;
  SupportHTTPRouteBackendTimeout; SupportGatewayPort8080; SupportGatewayAddressEmpty;
  SupportHTTPRouteNamedRouteRule; SupportGRPCRouteNamedRouteRule; SupportHTTPRouteParentRefPort;
  SupportHTTPRouteDestinationPortMatching; SupportHTTPRouteMethodMatching;
  SupportHTTPRouteQueryParamMatching; SupportGatewayHTTPListenerIsolation;
  SupportHTTPRouteBackendProtocolH2C; SupportHTTPRouteBackendProtocolWebSocket;
  SupportHTTPRouteBackendRequestHeaderModification; SupportHTTPRouteCORS;
  SupportGatewayHTTPSListenerDetectMisdirectedRequests; SupportGatewayInfrastructure;
  SupportGatewayStaticAddresses; SupportBackendTLSPolicySANValidation;
  SupportGatewayBackendClientCertificate; SupportTLSRouteModeTerminate; SupportTLSRouteModeMixed;
  SupportGatewayFrontendClientCertificateValidation;
  SupportGatewayFrontendClientCertificateValidationInsecureFallback ].

(** The names [sigs.k8s.io/gateway-api/pkg/features] gives them, and the
    quoting of [%q]. *)
Class StatusTexts := { featureName : Feature → string; quoted : string → string }.

Record ClassStatus := mkClassStatus { csConditions : Slice Condition; csFeatures : Slice string }.
#[global] Instance ClassStatus_eq_dec : EqDecision ClassStatus.
Proof. solve_decision. Defined.

Section class_status.
Context {texts : StatusTexts}.

Definition supportedFeatures : list string := sliceStable sless (featureName <$> features).

Definition class_conditions (bundleVersion : string) (generation : Z) : list Condition :=
  [ condition "Accepted" ConditionTrue "Accepted" "GatewayClass is accepted by this controller" generation;
    if hasPrefix bundleVersion "v1.6"
    then condition "SupportedVersion" ConditionTrue "SupportedVersion"
           ("Gateway API CRD bundle version " +:+ bundleVersion +:+ " is supported") generation
    else condition "SupportedVersion" ConditionFalse "UnsupportedVersion"
           ("Gateway API CRD bundle version " +:+ quoted bundleVersion +:+ " is not supported") generation ].

Definition class_desired (bundleVersion : string) (now : Z) (class : Object ClassStatus) : ClassStatus :=
  mkClassStatus (Some (mergeConditions now (elems (csConditions (obStatus class)))
                         (class_conditions bundleVersion (obGeneration class))))
    (Some supportedFeatures).

Definition class_update (bundleVersion : string) (now : Z) (class : Object ClassStatus) :
    option ClassStatus :=
  let desired := class_desired bundleVersion now class in
  if (obStatus class == desired) then None else Some desired.

End class_status.

(** ** Gateway *)

Record gatewayAddresses := mkAddresses {
  gaUnsupportedType : bool;
  gaUnusable : list string;
  gaStatic : list string;
}.

Definition IPAddressType := "IPAddress".

Definition node_ips (acks : AckState) : gset string :=
  fold_left (λ ips pod, if paHealthy pod && (paHostIP pod != "") then {[ paHostIP pod ]} ∪ ips else ips)
    (map_to_list (asPods acks)).*2 ∅.

Definition address_step (nodeIPs : gset string) (r : gatewayAddresses) (addr : GatewaySpecAddress) :
    gatewayAddresses :=
  if match saType addr with Some t => t != IPAddressType | None => false end
  then mkAddresses true (gaUnusable r) (gaStatic r)
  else if (saValue addr == "") then r
  else mkAddresses (gaUnsupportedType r)
         (if bool_decide (saValue addr ∈ nodeIPs) then gaUnusable r else gaUnusable r ++ [saValue addr])
         (gaStatic r ++ [saValue addr]).

Definition validateGatewayAddresses (w : world) (gw : Gateway) : gatewayAddresses :=
  fold_left (address_step (node_ips (wAcks w))) (gwAddresses gw) (mkAddresses false [] []).

Definition both (status reason message : string) (generation : Z) : Condition * Condition :=
  (condition "Accepted" status reason message generation,
   condition "Programmed" status reason message generation).

Definition accepted_condition (generation : Z) (validListeners invalidOwnListeners : Z) : Condition :=
  if (validListeners =? 0)%Z
  then condition "Accepted" ConditionFalse "ListenersNotValid" "no valid listeners" generation
  else if (0 <? invalidOwnListeners)%Z
  then condition "Accepted" ConditionTrue "ListenersNotValid"
         (pretty invalidOwnListeners +:+ " invalid listener(s), the remaining listeners are accepted")
         generation
  else condition "Accepted" ConditionTrue "Accepted" "Gateway is accepted" generation.

Definition programmed_condition (generation : Z) (unusable : list string) (acked : bool)
    (validListeners : Z) : Condition :=
  if (0 <? length unusable)
  then condition "Programmed" ConditionFalse "AddressNotUsable"
         ("addresses not served by any data-plane node: " +:+ joinWith ", " unusable) generation
  else if (validListeners =? 0)%Z
  then condition "Programmed" ConditionFalse "Invalid" "no valid listeners" generation
  else if acked
  then condition "Programmed" ConditionTrue "Programmed"
         "every healthy data-plane pod applied the desired generation" generation
  else condition "Programmed" ConditionFalse "Pending"
         "waiting for every healthy data-plane pod to apply the desired generation" generation.

(** [paramsErr] is the message of the error, if any. *)
Definition gatewayConditions (gw : Gateway) (paramsErr : option string) (addresses : gatewayAddresses)
    (acked : bool) (validListeners invalidOwnListeners : Z) : Condition * Condition :=
  let generation := omGeneration (gwMeta gw) in
  match paramsErr with
  | Some message => both ConditionFalse "InvalidParameters" message generation
  | None =>
      if gaUnsupportedType addresses
      then both ConditionFalse "UnsupportedAddress"
             "only IPAddress spec.addresses entries are supported" generation
      else (accepted_condition generation validListeners invalidOwnListeners,
            programmed_condition generation (gaUnusable addresses) acked validListeners)
  end.

Record gatewayStatusInput := mkStatusInput {
  giAccepted : Condition;
  giProgrammed : Condition;
  giResolvedRefs : Condition;
  giAddress : string;
  giListeners : list listenerState;
  giGatewayAcked : bool;
  giStaticAddresses : list string;
  giInsecureFallback : bool;
  giAttachedListenerSets : option Z;
}.

Record ListenerStatus := mkListenerStatus {
  lsaName : string;
  lsaSupportedKinds : Slice RouteGroupKind;
  lsaAttachedRoutes : Z;
  lsaConditions : Slice Condition;
}.

Record GatewayStatus := mkGatewayStatus {
  gsAddresses : Slice GatewaySpecAddress;
  gsConditions : Slice Condition;
  gsListeners : Slice ListenerStatus;
  gsAttachedListenerSets : option Z;
}.

#[global] Instance GatewaySpecAddress_eq_dec : EqDecision GatewaySpecAddress.
Proof. solve_decision. Defined.
#[global] Instance ListenerStatus_eq_dec : EqDecision ListenerStatus.
Proof. solve_decision. Defined.
#[global] Instance GatewayStatus_eq_dec : EqDecision GatewayStatus.
Proof. solve_decision. Defined.

Definition InsecureMode := "InsecureFrontendValidationMode".

Definition insecure_condition (generation : Z) : Condition :=
  condition InsecureMode ConditionTrue "ConfigurationChanged"
    "a listener allows insecure client-certificate fallback" generation.

Definition gateway_status_conditions (now : Z) (generation : Z) (existing : list Condition)
    (input : gatewayStatusInput) : list Condition :=
  let conditions :=
    mergeConditions now existing [giAccepted input; giProgrammed input; giResolvedRefs input] in
  if giInsecureFallback input
  then mergeConditions now conditions [insecure_condition generation]
  else filter (λ c, cdType c ≠ InsecureMode) conditions.

Definition status_addresses (input : gatewayStatusInput) : Slice GatewaySpecAddress :=
  if (0 <? length (giStaticAddresses input))
  then appended (mkSpecAddress (Some IPAddressType) <$> giStaticAddresses input)
  else if (giAddress input != "") then Some [mkSpecAddress (Some IPAddressType) (giAddress input)]
  else None.

(** The conditions of the listener of that name, as read. *)
Definition existing_conditions (name : string) (listeners : list ListenerStatus) : list Condition :=
  match list_find (λ current, lsaName current = name) listeners with
  | Some (_, current) => elems (lsaConditions current)
  | None => []
  end.

Definition listener_conditions (generation : Z) (acked : bool) (l : listenerState) : list Condition :=
  [ condition "Accepted" (boolStatus (lsAccepted l)) (lsAcceptedReason l) "" generation;
    condition "ResolvedRefs" (boolStatus (lsRefsResolved l)) (lsRefsReason l) (lsRefsMessage l) generation;
    if valid l && acked then condition "Programmed" ConditionTrue "Programmed" "" generation
    else condition "Programmed" ConditionFalse "Pending" "" generation ].

Definition listener_status (now : Z) (existing : list ListenerStatus) (conditions : list Condition)
    (l : listenerState) : ListenerStatus :=
  mkListenerStatus (lsName (lsSpec l)) (Some (lsSupportedKinds l)) (lsAttachedRoutes l)
    (Some (mergeConditions now (existing_conditions (lsName (lsSpec l)) existing) conditions)).

(** Listeners of sets report on their own resource. *)
Definition own_listeners (ls : list listenerState) : list listenerState := filter (λ l, lsSet l = None) ls.

Definition gateway_desired (input : gatewayStatusInput) (now : Z) (fresh : Object GatewayStatus) :
    GatewayStatus :=
  let status := obStatus fresh in
  let generation := obGeneration fresh in
  mkGatewayStatus (status_addresses input)
    (Some (gateway_status_conditions now generation (elems (gsConditions status)) input))
    (appended ((λ l, listener_status now (elems (gsListeners status))
                       (listener_conditions generation (giGatewayAcked input) l) l) <$>
                 own_listeners (giListeners input)))
    (match giAttachedListenerSets input with
     | Some n => Some n
     | None => gsAttachedListenerSets status
     end).

Definition gateway_update (input : gatewayStatusInput) (now : Z) (fresh : Object GatewayStatus) :
    option GatewayStatus :=
  let desired := gateway_desired input now fresh in
  if (obStatus fresh == desired) then None else Some desired.

(** ** Listener sets *)

(** [set == lst.set]: sets are identified by namespace and name. *)
Definition owned_by (set : ListenerSet) (l : listenerState) : bool :=
  match lsSet l with
  | Some owner => (omNamespace (lstMeta owner) == omNamespace (lstMeta set)) &&
                  (omName (lstMeta owner) == omName (lstMeta set))
  | None => false
  end.

Definition set_conditions (state : listenerSetState) (owned : list listenerState) (acked : bool) :
    list Condition :=
  let generation := omGeneration (lstMeta (ssSet state)) in
  let validListeners := length (filter (λ l, valid l = true) owned) in
  if negb (ssAccepted state)
  then [condition "Accepted" ConditionFalse (ssAcceptedReason state) "" generation;
        condition "Programmed" ConditionFalse (ssAcceptedReason state) "" generation]
  else if (validListeners =? 0)
  then [condition "Accepted" ConditionFalse "ListenersNotValid" "no valid listeners" generation;
        condition "Programmed" ConditionFalse "ListenersNotValid" "no valid listeners" generation]
  else [condition "Accepted" ConditionTrue (ssAcceptedReason state) "" generation;
        if acked
        then condition "Programmed" ConditionTrue "Programmed"
               "every healthy data-plane pod applied the desired generation" generation
        else condition "Programmed" ConditionFalse "Pending"
               "waiting for every healthy data-plane pod to apply the desired generation" generation].

Definition conflictedReason (l : listenerState) : string :=
  if lsConflicted l then lsAcceptedReason l else "NoConflicts".

Definition entry_conditions (generation : Z) (acked : bool) (l : listenerState) : list Condition :=
  [ condition "Accepted" (boolStatus (lsAccepted l)) (lsAcceptedReason l) "" generation;
    condition "Conflicted" (boolStatus (lsConflicted l)) (conflictedReason l) "" generation;
    condition "ResolvedRefs" (boolStatus (lsRefsResolved l)) (lsRefsReason l) (lsRefsMessage l) generation;
    if valid l && acked then condition "Programmed" ConditionTrue "Programmed" "" generation
    else condition "Programmed" ConditionFalse (if valid l then "Pending" else lsAcceptedReason l) ""
           generation ].

Record ListenerSetStatus := mkSetStatus {
  stConditions : Slice Condition;
  stListeners : Slice ListenerStatus;
}.

(** Same condition but for its time. *)
Definition same_condition (x y : Condition) : bool :=
  (cdType x == cdType y) && (cdStatus x == cdStatus y) && (cdReason x == cdReason y) &&
  (cdMessage x == cdMessage y) && (cdObservedGeneration x =? cdObservedGeneration y)%Z.

Definition conditionsEqual (x y : Slice Condition) : bool := all_pairs same_condition (elems x) (elems y).

Definition listenerSetStatusEqual (a b : ListenerSetStatus) : bool :=
  conditionsEqual (stConditions a) (stConditions b) &&
  all_pairs (λ x y, (lsaName x == lsaName y) && (lsaAttachedRoutes x =? lsaAttachedRoutes y)%Z &&
      conditionsEqual (lsaConditions x) (lsaConditions y) &&
      all_pairs (λ k l, gkKind k == gkKind l) (elems (lsaSupportedKinds x)) (elems (lsaSupportedKinds y)))
    (elems (stListeners a)) (elems (stListeners b)).

Definition set_update (state : listenerSetState) (listeners : list listenerState) (acked : bool) (now : Z)
    (fresh : Object ListenerSetStatus) : option ListenerSetStatus :=
  let owned := filter (λ l, owned_by (ssSet state) l = true) listeners in
  let status := obStatus fresh in
  let desired := mkSetStatus
    (Some (mergeConditions now (elems (stConditions status)) (set_conditions state owned acked)))
    (appended ((λ l, listener_status now (elems (stListeners status))
                       (entry_conditions (obGeneration fresh) acked l) l) <$> owned)) in
  if listenerSetStatusEqual status desired then None else Some desired.

(** ** Routes *)

Record RouteParentStatus := mkParentStatus {
  rpParentRef : ParentReference;
  rpControllerName : string;
  rpConditions : Slice Condition;
}.
#[global] Instance RouteParentStatus_eq_dec : EqDecision RouteParentStatus.
Proof. solve_decision. Defined.

Definition outcome_conditions (generation : Z) (o : routeParentOutcome) : list Condition :=
  [ condition "Accepted" (boolStatus (roAccepted o)) (roAcceptedReason o) "" generation;
    condition "ResolvedRefs" (boolStatus (roRefsResolved o)) (roRefsReason o) (roRefsMessage o) generation ].

Definition parentStatuses (outcomes : list routeParentOutcome) (controllerName : string) (generation : Z) :
    list RouteParentStatus :=
  (λ o, mkParentStatus (roParentRef o) controllerName (Some (outcome_conditions generation o))) <$> outcomes.

Definition existing_parent (controllerName : string) (ref : ParentReference)
    (existing : list RouteParentStatus) : list Condition :=
  match list_find (λ p, rpControllerName p = controllerName ∧ rpParentRef p = ref) existing with
  | Some (_, p) => elems (rpConditions p)
  | None => []
  end.

Definition merge_parent (now : Z) (controllerName : string) (existing : list RouteParentStatus)
    (p : RouteParentStatus) : RouteParentStatus :=
  mkParentStatus (rpParentRef p) (rpControllerName p)
    (Some (mergeConditions now (existing_parent controllerName (rpParentRef p) existing)
             (elems (rpConditions p)))).

Definition mergeParentStatuses (now : Z) (existing : Slice RouteParentStatus) (ours : list RouteParentStatus)
    (controllerName : string) : Slice RouteParentStatus * bool :=
  let desired := appended (filter (λ p, rpControllerName p ≠ controllerName) (elems existing) ++
                           (merge_parent now controllerName (elems existing) <$> ours)) in
  (desired, existing != desired).

Definition route_update (controllerName : string) (ours : list RouteParentStatus) (now : Z)
    (fresh : Object (Slice RouteParentStatus)) : option (Slice RouteParentStatus) :=
  let '(desired, changed) := mergeParentStatuses now (obStatus fresh) ours controllerName in
  if changed then Some desired else None.

(** ** Backend TLS policies *)

Record PolicyAncestorStatus := mkAncestor {
  anRef : ParentReference;
  anControllerName : string;
  anConditions : Slice Condition;
}.

Definition ancestorRefMatches (a b : ParentReference) : bool :=
  (prName a == prName b) && (default "" (prNamespace a) == default "" (prNamespace b)).

Definition ancestorsEqual (a b : list PolicyAncestorStatus) : bool :=
  all_pairs (λ x y, ancestorRefMatches (anRef x) (anRef y) && (anControllerName x == anControllerName y) &&
    conditionsEqual (anConditions x) (anConditions y)) a b.

Definition policy_conditions (state : backendTLSPolicyState) : list Condition :=
  let generation := omGeneration (bpMeta (psPolicy state)) in
  [ condition "Accepted" (boolStatus (psAccepted state)) (psAcceptedReason state) (psMessage state) generation;
    condition "ResolvedRefs" (boolStatus (psResolvedOK state)) (psResolvedReason state) (psMessage state)
      generation ].

Definition existing_ancestor (controllerName : string) (ref : ParentReference)
    (existing : list PolicyAncestorStatus) : list Condition :=
  match list_find (λ a, anControllerName a = controllerName ∧ ancestorRefMatches (anRef a) ref = true)
          existing with
  | Some (_, a) => elems (anConditions a)
  | None => []
  end.

(** The Gateways the policy reports on, in the order of their keys. *)
Definition ancestor_refs (state : backendTLSPolicyState) : list ParentReference :=
  omap (λ key, psAncestors state !! key) (compiled.sorted_keys (psAncestors state)).

Definition policy_update (controllerName : string) (state : backendTLSPolicyState) (now : Z)
    (fresh : Object (list PolicyAncestorStatus)) : option (list PolicyAncestorStatus) :=
  let existing := obStatus fresh in
  let desired := take 16 (filter (λ a, anControllerName a ≠ controllerName) existing ++
    ((λ ref, mkAncestor ref controllerName
        (Some (mergeConditions now (existing_ancestor controllerName ref existing)
                 (policy_conditions state)))) <$> ancestor_refs state)) in
  if ancestorsEqual existing desired then None else Some desired.

(** The policies learn the Gateways whose routes use their Services. *)
Definition outcome_gateway (o : routeParentOutcome) : string :=
  default (omNamespace (routeMeta o)) (prNamespace (roParentRef o)).

Definition ancestor_ref (o : routeParentOutcome) : ParentReference :=
  mkParentRef (Some GroupName) (Some "Gateway") (Some (outcome_gateway o)) (prName (roParentRef o)) None None.

Definition add_ancestor (o : routeParentOutcome) (state : backendTLSPolicyState) : backendTLSPolicyState :=
  mkPolicyState (psPolicy state) (psTLS state) (psAccepted state) (psAcceptedReason state)
    (psResolvedOK state) (psResolvedReason state) (psMessage state)
    (<[nsName (outcome_gateway o) (prName (roParentRef o)) := ancestor_ref o]> (psAncestors state)).

Definition outcome_backends (o : routeParentOutcome) : list compiled.Backend :=
  match roConfig o with
  | Some config => compiled.rcRules config ≫= compiled.ruBackends
  | None => []
  end.

Definition collect_outcome (bindings : gmap string (list backendTLSBinding))
    (states : list backendTLSPolicyState) (o : routeParentOutcome) : list backendTLSPolicyState :=
  fold_left (λ states b,
    fold_left (λ states binding, alter (add_ancestor o) (bdState binding) states)
      (default [] (bindings !! nsName (compiled.bNamespace b) (compiled.bName b))) states)
    (outcome_backends o) states.

(** Go visits the outcomes in an arbitrary order of their keys. *)
Definition collectBackendTLSAncestors (w : world) (outcomes : list (list routeParentOutcome)) :
    list backendTLSPolicyState :=
  fold_left (λ states os, fold_left (collect_outcome (wBackendTLS w)) os states) outcomes (wBackendTLSStates w).

(** What the API server returns of a status: times lose their precision. *)
Section stored.
Context (clock : Z → Z).

Definition stored_condition (c : Condition) : Condition := at_time (clock (cdLastTransitionTime c)) c.
Definition stored_conditions : Slice Condition → Slice Condition := slice_map stored_condition.

Definition class_stored (s : ClassStatus) : ClassStatus :=
  mkClassStatus (stored_conditions (csConditions s)) (csFeatures s).
Definition listener_stored (s : ListenerStatus) : ListenerStatus :=
  mkListenerStatus (lsaName s) (lsaSupportedKinds s) (lsaAttachedRoutes s) (stored_conditions (lsaConditions s)).
Definition gateway_stored (s : GatewayStatus) : GatewayStatus :=
  mkGatewayStatus (gsAddresses s) (stored_conditions (gsConditions s))
    (slice_map listener_stored (gsListeners s)) (gsAttachedListenerSets s).
Definition set_stored (s : ListenerSetStatus) : ListenerSetStatus :=
  mkSetStatus (stored_conditions (stConditions s)) (slice_map listener_stored (stListeners s)).
Definition parent_stored (p : RouteParentStatus) : RouteParentStatus :=
  mkParentStatus (rpParentRef p) (rpControllerName p) (stored_conditions (rpConditions p)).
Definition parents_stored : Slice RouteParentStatus → Slice RouteParentStatus := slice_map parent_stored.
Definition ancestor_stored (a : PolicyAncestorStatus) : PolicyAncestorStatus :=
  mkAncestor (anRef a) (anControllerName a) (stored_conditions (anConditions a)).

End stored.

(** ** The writers *)

(** The statuses of the cluster, by name, or by [nsName] or [outcomeKey]. *)
Record Statuses := mkStatuses {
  suClasses : gmap string (Object ClassStatus);
  suGateways : gmap string (Object GatewayStatus);
  suSets : gmap string (Object ListenerSetStatus);
  suRoutes : gmap string (Object (Slice RouteParentStatus));
  suPolicies : gmap string (Object (list PolicyAncestorStatus));
}.

(** What happens around each write, and the precision of stored times. *)
Class StatusServer := {
  classRounds : string → nat → Round ClassStatus;
  gatewayRounds : string → nat → Round GatewayStatus;
  setRounds : string → nat → Round ListenerSetStatus;
  routeRounds : string → nat → Round (Slice RouteParentStatus);
  policyRounds : string → nat → Round (list PolicyAncestorStatus);
  clock : Z → Z;
}.

Section writers.
Context {texts : StatusTexts} {server : StatusServer}.

(** Errors are logged and the pass goes on. *)
Definition writeClassStatus (w : world) (name : string) (u : Statuses) : Statuses :=
  mkStatuses (write (class_update (wBundleVersion w)) (class_stored clock) (classRounds name) name (suClasses u)).2
    (suGateways u) (suSets u) (suRoutes u) (suPolicies u).

Definition writeGatewayStatus (gw : Gateway) (input : gatewayStatusInput) (u : Statuses) : Statuses :=
  let key := nsName (omNamespace (gwMeta gw)) (omName (gwMeta gw)) in
  mkStatuses (suClasses u)
    (write (gateway_update input) (gateway_stored clock) (gatewayRounds key) key (suGateways u)).2
    (suSets u) (suRoutes u) (suPolicies u).

Definition writeListenerSetStatuses (sets : list listenerSetState) (listeners : list listenerState)
    (gatewayAcked : bool) (u : Statuses) : Statuses :=
  mkStatuses (suClasses u) (suGateways u)
    (fold_left (λ objects state,
       let key := nsName (omNamespace (lstMeta (ssSet state))) (omName (lstMeta (ssSet state))) in
       (write (set_update state listeners gatewayAcked) (set_stored clock) (setRounds key) key objects).2)
      sets (suSets u))
    (suRoutes u) (suPolicies u).

Definition syncRouteStatuses (kind : string) (routes : list ObjectMeta)
    (outcomes : gmap string (list routeParentOutcome)) (controllerName : string)
    (objects : gmap string (Object (Slice RouteParentStatus))) : gmap string (Object (Slice RouteParentStatus)) :=
  fold_left (λ objects route,
    let key := outcomeKey kind (omNamespace route) (omName route) in
    let ours := parentStatuses (default [] (outcomes !! key)) controllerName (omGeneration route) in
    (write (route_update controllerName ours) (parents_stored clock) (routeRounds key) key objects).2)
    routes objects.

Definition writeRouteStatuses (w : world) (controllerName : string)
    (outcomes : gmap string (list routeParentOutcome)) (u : Statuses) : Statuses :=
  let routes := syncRouteStatuses "HTTPRoute" (htMeta <$> wRoutes w) outcomes controllerName (suRoutes u) in
  let routes := syncRouteStatuses "GRPCRoute" (gpMeta <$> wGRPCRoutes w) outcomes controllerName routes in
  let routes := syncRouteStatuses "TCPRoute" (l4Meta <$> wTCPRoutes w) outcomes controllerName routes in
  let routes := syncRouteStatuses "TLSRoute" (l4Meta <$> wTLSRoutes w) outcomes controllerName routes in
  let routes := syncRouteStatuses "UDPRoute" (l4Meta <$> wUDPRoutes w) outcomes controllerName routes in
  mkStatuses (suClasses u) (suGateways u) (suSets u) routes (suPolicies u).

Definition writeBackendTLSPolicyStatuses (controllerName : string) (states : list backendTLSPolicyState)
    (u : Statuses) : Statuses :=
  mkStatuses (suClasses u) (suGateways u) (suSets u) (suRoutes u)
    (fold_left (λ objects state,
       let meta := bpMeta (psPolicy state) in
       let key := nsName (omNamespace meta) (omName meta) in
       (write (policy_update controllerName state) (fmap (ancestor_stored clock)) (policyRounds key) key
          objects).2) states (suPolicies u)).

End writers.

(** ** Lemmas: conditions *)


Lemma same_condition_spec x y : same_condition x y = true ↔ at_time 0 x = at_time 0 y.
Proof.
  unfold same_condition, at_time. rewrite !andb_true_iff, !bool_decide_eq_true, Z.eqb_eq.
  split; [intros [[[[-> ->] ->] ->] ->]; done|]. intros H. injection H as -> -> -> -> ->. done.
Qed.

Lemma merge_condition_same now existing want :
  at_time 0 (merge_condition now existing want) = at_time 0 want.
Proof.
  unfold merge_condition. destruct (list_find _ _) as [[i have]|] eqn:Hf; [|done].
  apply list_find_Some in Hf as (_ & Ht & _). cbn zeta.
  destruct (unchanged _ _) eqn:Hu; [|by destruct want].
  unfold unchanged in Hu. bool_to_prop. unfold at_time in *. simpl in *. f_equal; try done; lia.
Qed.

Lemma mergeConditions_same now existing desired :
  at_time 0 <$> mergeConditions now existing desired = at_time 0 <$> desired.
Proof.
  unfold mergeConditions. rewrite <-list_fmap_compose. apply list_fmap_ext.
  intros i c _. apply merge_condition_same.
Qed.

Lemma same_type x y : at_time 0 x = at_time 0 y → cdType x = cdType y.
Proof. by injection 1. Qed.

(** Merging what the object already says changes nothing, times
    included. *)
Lemma mergeConditions_stable now existing desired :
  NoDup (cdType <$> desired) → at_time 0 <$> existing = at_time 0 <$> desired →
  mergeConditions now existing desired = existing.
Proof.
  intros Hnd Hs. apply list_eq. intros i. unfold mergeConditions. rewrite list_lookup_fmap.
  assert (Hi : at_time 0 <$> (existing !! i) = at_time 0 <$> (desired !! i))
    by by rewrite <-!list_lookup_fmap, Hs.
  destruct (desired !! i) as [want|] eqn:Hd, (existing !! i) as [have|] eqn:He; try done.
  simpl in Hi |- *. apply (inj Some) in Hi. f_equal.
  unfold merge_condition. erewrite (find_nth _ existing i have); [|done|by apply same_type|].
  - cbn zeta. destruct have, want. unfold at_time in Hi. simplify_eq/=.
    unfold unchanged. simpl. by rewrite !bool_decide_eqb_refl, Z.eqb_refl.
  - intros j c Hj Hc.
    assert (Hj' : at_time 0 <$> (existing !! j) = at_time 0 <$> (desired !! j))
      by by rewrite <-!list_lookup_fmap, Hs.
    rewrite Hj in Hj'. destruct (desired !! j) as [d|] eqn:Hdj; [|done]. apply (inj Some) in Hj'.
    eapply (NoDup_lookup _ _ _ (cdType want)); [exact Hnd| |].
    + rewrite list_lookup_fmap, Hdj. simpl. f_equal. by rewrite <-(same_type _ _ Hj').
    + by rewrite list_lookup_fmap, Hd.
Qed.

(** The transition time moves exactly when the status does. *)
Lemma transition_time now existing want i have :
  list_find (λ c, cdType c = cdType want) existing = Some (i, have) →
  cdLastTransitionTime (merge_condition now existing want) =
    if (cdStatus have == cdStatus want) then cdLastTransitionTime have else now.
Proof.
  intros Hf. unfold merge_condition. rewrite Hf. cbn zeta. destruct (unchanged _ _) eqn:Hu; [|done].
  unfold unchanged in Hu. bool_to_prop. simpl in *. by rewrite bool_decide_true.
Qed.

(** ** Lemmas: writes *)

Section writer_lemmas.
Context {S : Type} (compute : Z → Object S → option S) (stored : S → S).

(** A step of another client. *)
Definition foreign (rounds : nat → Round S) (st st' : option (Object S)) : Prop :=
  ∃ i, st' = rdBefore (rounds i) st ∨
       ∃ fresh f, st = Some fresh ∧ rdRace (rounds i) = Some f ∧ st' = f fresh.

Lemma attempt_spec rd st :
  let '(r, st') := attempt compute stored rd st in
  let before := rdBefore rd st in
  match r with
  | Ok _ => ∃ fresh, before = Some fresh ∧
      match compute (rdNow rd) fresh with
      | None => st' = before
      | Some s => st' = Some (stored_object stored fresh s)
      end
  | Err _ => st' = before ∨ ∃ fresh f, before = Some fresh ∧ rdRace rd = Some f ∧ st' = f fresh
  end.
Proof.
  unfold attempt. cbn zeta. destruct (rdGetFault rd); [by left|].
  destruct (rdBefore rd st) as [fresh|]; [|by left].
  destruct (compute (rdNow rd) fresh) as [s|] eqn:Hc; [|by exists fresh; rewrite Hc].
  destruct (rdRace rd) as [f|].
  - destruct (f fresh) eqn:Hf; right; exists fresh, f; by rewrite Hf.
  - destruct (rdUpdateFault rd); [by left|]. exists fresh. by rewrite Hc.
Qed.

Lemma foreign_shift rounds st st' :
  rtc (foreign (λ i, rounds (Datatypes.S i))) st st' → rtc (foreign rounds) st st'.
Proof. apply rtc_subrel. intros ?? [i Hi]. exists (Datatypes.S i). exact Hi. Qed.

(** A write takes effect in one step, on an object other clients alone
    produced: a concurrent write is never lost. *)
Lemma retry_atomic steps rounds st :
  let '(r, st') := retryOnConflict compute stored steps rounds st in
  ∃ before, rtc (foreign rounds) st before ∧
    match r with
    | Ok _ => ∃ i fresh, before = Some fresh ∧
        match compute (rdNow (rounds i)) fresh with
        | None => st' = before
        | Some s => st' = Some (stored_object stored fresh s)
        end
    | Err _ => st' = before
    end.
Proof.
  revert rounds st; induction steps as [|k IH]; intros rounds st; simpl.
  { exists st. split; [apply rtc_refl|done]. }
  pose proof (attempt_spec (rounds 0) st) as Ha. destruct (attempt _ _ _ _) as [r st'] eqn:He.
  assert (Hb : rtc (foreign rounds) st (rdBefore (rounds 0) st)) by (apply rtc_once; exists 0; by left).
  assert (Herr : ∀ e, r = Err e → rtc (foreign rounds) st st').
  { intros e ->. destruct Ha as [->|(fresh & f & ? & ? & ->)]; [done|].
    eapply rtc_r; [exact Hb|]. exists 0. right. eauto. }
  destruct r as [[]|[| |message]].
  - destruct Ha as (fresh & Hf & Hc). exists (rdBefore (rounds 0) st).
    split; [done|]. exists 0, fresh. done.
  - exists st'. eauto.
  - specialize (IH (λ i, rounds (Datatypes.S i)) st').
    destruct (retryOnConflict _ _ _ _ _) as [r st'']. destruct IH as (before & Hr & Hm).
    exists before. split; [etrans; [by eapply Herr|by apply foreign_shift]|].
    destruct r; [|done]. destruct Hm as (i & Hm). by exists (Datatypes.S i).
  - exists st'. eauto.
Qed.

End writer_lemmas.

(** ** Lemmas: repeated writes *)

Lemma stored_same clock (l : list Condition) : at_time 0 <$> (stored_condition clock <$> l) = at_time 0 <$> l.
Proof. rewrite <-list_fmap_compose. by apply list_fmap_ext. Qed.

Lemma merge_settled clock now now' existing desired :
  NoDup (cdType <$> desired) →
  let c := stored_condition clock <$> mergeConditions now existing desired in mergeConditions now' c desired = c.
Proof. intros Hnd. apply mergeConditions_stable; [done|]. by rewrite stored_same, mergeConditions_same. Qed.

(** The object after a write that met no interference. *)
Definition after {S} (compute : Z → Object S → option S) (stored : S → S) (now : Z) (fresh : Object S) :
    Object S :=
  match compute now fresh with Some s => stored_object stored fresh s | None => fresh end.

(** A second write finds nothing to change. *)
Definition settles {S} (compute : Z → Object S → option S) (stored : S → S) : Prop :=
  ∀ now now' fresh, compute now' (after compute stored now fresh) = None.

Lemma settles_deep {S} `{EqDecision S} (desired : Z → Object S → S) (stored : (Z → Z) → S → S) clock :
  (∀ s, stored id s = s) →
  (∀ clock now now' fresh, let s := stored clock (desired now fresh) in
     desired now' (mkObject (obGeneration fresh) s) = s) →
  settles (λ now fresh, if (obStatus fresh == desired now fresh) then None else Some (desired now fresh))
    (stored clock).
Proof.
  intros Hid Hst now now' fresh. unfold after.
  destruct (decide (obStatus fresh = desired now fresh)) as [He|He];
    [rewrite (bool_decide_true (obStatus fresh = _)) by done|rewrite (bool_decide_false (obStatus fresh = _)) by done].
  - specialize (Hst id now now' fresh). cbv zeta in Hst. rewrite Hid in Hst.
    destruct fresh as [g s]. simpl in *. rewrite <-He in Hst. rewrite Hst. by rewrite bool_decide_true.
  - unfold stored_object. rewrite Hst. by rewrite bool_decide_true.
Qed.

Lemma stored_id (l : list Condition) : stored_condition id <$> l = l.
Proof. rewrite <-(list_fmap_id l) at 2. apply list_fmap_ext. by intros i [] _. Qed.

Lemma stored_slice_id s : stored_conditions id s = s.
Proof. destruct s as [l|]; [|done]. simpl. by rewrite stored_id. Qed.

Lemma slice_fmap_id {A} (f : A → A) (s : Slice A) : (∀ x, f x = x) → slice_map f s = s.
Proof.
  intros Hf. destruct s as [l|]; [|done]. simpl. f_equal.
  rewrite <-(list_fmap_id l) at 2. apply list_fmap_ext. by intros.
Qed.

Lemma class_settles {texts : StatusTexts} bundle clock : settles (class_update bundle) (class_stored clock).
Proof.
  apply (settles_deep (class_desired bundle) class_stored).
  - intros []. unfold class_stored. simpl. by rewrite stored_slice_id.
  - intros f now now' fresh. cbv zeta. unfold class_desired, class_stored, stored_conditions, slice_map.
    cbn [csConditions csFeatures obStatus obGeneration elems default from_option id]. f_equal. f_equal.
    apply merge_settled. unfold class_conditions. case_match; simpl; repeat constructor; set_solver.
Qed.

Lemma appended_fmap {A B} (f : A → B) l : slice_map f (appended l) = appended (f <$> l).
Proof. by destruct l. Qed.

Lemma elems_appended {A} (l : list A) : elems (appended l) = l.
Proof. by destruct l. Qed.

(** What the writer of Gateway statuses relies on. *)
Definition input_ok (input : gatewayStatusInput) : Prop :=
  cdType (giAccepted input) = "Accepted" ∧ cdType (giProgrammed input) = "Programmed" ∧
  cdType (giResolvedRefs input) = "ResolvedRefs" ∧
  NoDup ((λ l, lsName (lsSpec l)) <$> own_listeners (giListeners input)).

Lemma merge_types now existing desired : cdType <$> mergeConditions now existing desired = cdType <$> desired.
Proof.
  unfold mergeConditions. rewrite <-list_fmap_compose. apply list_fmap_ext.
  intros i c _. apply same_type, merge_condition_same.
Qed.

Lemma secure_conditions now generation existing input :
  cdType (giAccepted input) = "Accepted" → cdType (giProgrammed input) = "Programmed" →
  cdType (giResolvedRefs input) = "ResolvedRefs" → giInsecureFallback input = false →
  gateway_status_conditions now generation existing input =
    mergeConditions now existing [giAccepted input; giProgrammed input; giResolvedRefs input].
Proof.
  intros Ha Hp Hr Hi. unfold gateway_status_conditions. rewrite Hi.
  apply list_filter_all. rewrite list.Forall_forall. intros c Hc.
  assert (Ht : cdType c ∈ cdType <$> mergeConditions now existing
            [giAccepted input; giProgrammed input; giResolvedRefs input]) by (by apply list_elem_of_fmap_2).
  rewrite merge_types in Ht. simpl in Ht. rewrite Ha, Hp, Hr in Ht.
  by apply elem_of_cons in Ht as [->|[->|[->|[]%elem_of_nil]%elem_of_cons]%elem_of_cons].
Qed.

Lemma existing_conditions_stored clock now existing conditions (ls : list listenerState) l :
  NoDup ((λ l, lsName (lsSpec l)) <$> ls) → l ∈ ls →
  existing_conditions (lsName (lsSpec l))
    (listener_stored clock <$> ((λ l, listener_status now existing (conditions l) l) <$> ls)) =
  stored_condition clock <$> mergeConditions now (existing_conditions (lsName (lsSpec l)) existing) (conditions l).
Proof.
  intros Hnd [i Hi]%list_elem_of_lookup. unfold existing_conditions at 1.
  erewrite (find_nth _ _ i).
  2: { by rewrite !list_lookup_fmap, Hi. }
  2: { done. }
  - done.
  - intros j y. rewrite !list_lookup_fmap. destruct (ls !! j) as [l'|] eqn:Hj; [|done].
    simpl. intros [= <-] Hn. simpl in Hn.
    eapply (NoDup_lookup _ _ _ (lsName (lsSpec l)) Hnd); rewrite list_lookup_fmap.
    + rewrite Hj. simpl. by f_equal.
    + by rewrite Hi.
Qed.

Lemma listener_conditions_types generation acked l :
  cdType <$> listener_conditions generation acked l = ["Accepted"; "ResolvedRefs"; "Programmed"].
Proof. unfold listener_conditions. simpl. by case_match. Qed.

Lemma gateway_settles input clock :
  input_ok input → giInsecureFallback input = false →
  settles (gateway_update input) (gateway_stored clock).
Proof.
  intros Hok Hsec. apply (settles_deep (gateway_desired input) gateway_stored).
  { intros []. unfold gateway_stored. simpl. rewrite stored_slice_id, slice_fmap_id; [done|].
    intros []. unfold listener_stored. simpl. by rewrite stored_slice_id. }
  intros f now now' fresh. cbv zeta. unfold gateway_desired, gateway_stored.
  cbn [gsAddresses gsConditions gsListeners gsAttachedListenerSets obStatus obGeneration].
  rewrite !secure_conditions by (done || apply Hok). f_equal.
  - unfold stored_conditions, slice_map. cbn [elems default from_option id]. f_equal.
    apply merge_settled. destruct Hok as (Ha & Hp & Hr & _). simpl. rewrite Ha, Hp, Hr.
    repeat constructor; set_solver.
  - rewrite appended_fmap, elems_appended. f_equal.
    destruct Hok as (_ & _ & _ & Hnd). apply list_eq. intros i. rewrite !list_lookup_fmap.
    destruct (_ !! i) as [l|] eqn:Hl; [|done]. apply list_elem_of_lookup_2 in Hl.
    cbn [fmap option_fmap option_map]. unfold listener_status at 1.
    rewrite existing_conditions_stored by done. unfold listener_stored, listener_status.
    cbn [lsaName lsaSupportedKinds lsaAttachedRoutes lsaConditions].
    f_equal. unfold stored_conditions, slice_map. f_equal. f_equal.
    apply merge_settled. rewrite listener_conditions_types. repeat constructor; set_solver.
  - by destruct (giAttachedListenerSets input).
Qed.

(** The parents of a route: equal references have equal outcomes. *)
Definition refs_agree (ours : list RouteParentStatus) : Prop :=
  ∀ p q, p ∈ ours → q ∈ ours → rpParentRef p = rpParentRef q → p = q.

Definition ours_ok (controllerName : string) (ours : list RouteParentStatus) : Prop :=
  ∀ p, p ∈ ours → rpControllerName p = controllerName ∧ NoDup (cdType <$> elems (rpConditions p)).

Definition foreign_parents (controllerName : string) (l : list RouteParentStatus) : list RouteParentStatus :=
  filter (λ p, rpControllerName p ≠ controllerName) l.

Definition route_desired (controllerName : string) (ours : list RouteParentStatus) (now : Z)
    (fresh : Object (Slice RouteParentStatus)) : Slice RouteParentStatus :=
  appended (foreign_parents controllerName (elems (obStatus fresh)) ++
            (merge_parent now controllerName (elems (obStatus fresh)) <$> ours)).

Lemma foreign_parents_idem c l : foreign_parents c (foreign_parents c l) = foreign_parents c l.
Proof.
  apply list_filter_all. rewrite list.Forall_forall. intros p Hp. by apply list_elem_of_filter in Hp as [? _].
Qed.

Lemma foreign_parents_fmap c f l :
  (∀ p, rpControllerName (f p) = rpControllerName p) →
  foreign_parents c (f <$> l) = f <$> foreign_parents c l.
Proof.
  intros Hf. unfold foreign_parents. induction l as [|p l IH]; [done|]. rewrite fmap_cons, !list.filter_cons.
  rewrite Hf. case_decide; rewrite ?fmap_cons; by rewrite IH.
Qed.

Lemma foreign_parents_ours c ours :
  (∀ p, p ∈ ours → rpControllerName p = c) → foreign_parents c ours = [].
Proof. intros H. apply filter_none. rewrite list.Forall_forall. intros p Hp Hn. by apply Hn, H. Qed.

(** What a route update leaves of other controllers' entries. *)
Lemma route_desired_foreign c ours now fresh :
  ours_ok c ours →
  foreign_parents c (elems (route_desired c ours now fresh)) = foreign_parents c (elems (obStatus fresh)).
Proof.
  intros Hok. unfold route_desired. rewrite elems_appended. unfold foreign_parents at 1. rewrite list.filter_app.
  fold (foreign_parents c (foreign_parents c (elems (obStatus fresh)))).
  fold (foreign_parents c (merge_parent now c (elems (obStatus fresh)) <$> ours)).
  rewrite foreign_parents_idem, (foreign_parents_ours c (_ <$> _)), app_nil_r; [done|].
  intros p (q & -> & Hq)%list_elem_of_fmap. exact (proj1 (Hok q Hq)).
Qed.

Lemma find_foreign_app c ref l1 l2 :
  (∀ p, p ∈ l1 → rpControllerName p ≠ c) → existing_parent c ref (l1 ++ l2) = existing_parent c ref l2.
Proof.
  intros H. unfold existing_parent. induction l1 as [|p l1 IH]; [done|]. simpl.
  rewrite decide_False by (intros [? _]; by apply (H p); [left|]).
  specialize (IH (λ q Hq, H q (list_elem_of_further _ _ _ Hq))).
  destruct (list_find _ (l1 ++ l2)) as [[]|], (list_find _ l2) as [[]|]; simpl in *; done.
Qed.

Lemma find_ours c clock now existing ours p :
  ours_ok c ours → refs_agree ours → p ∈ ours →
  existing_parent c (rpParentRef p) (parent_stored clock <$> (merge_parent now c existing <$> ours)) =
  stored_condition clock <$>
    mergeConditions now (existing_parent c (rpParentRef p) existing) (elems (rpConditions p)).
Proof.
  intros Hok Hag Hp. unfold existing_parent at 1.
  destruct (list_find _ _) as [[i q]|] eqn:Hf.
  - apply list_find_Some in Hf as (Hi & [_ Hr] & _).
    apply list_elem_of_lookup_2 in Hi as Hq. apply list_elem_of_fmap in Hq as (q' & -> & Hq).
    apply list_elem_of_fmap in Hq as (q & -> & Hq). simpl in Hr. by rewrite <-(Hag q p).
  - exfalso. eapply list_find_None in Hf. rewrite list.Forall_forall in Hf.
    apply (Hf (parent_stored clock (merge_parent now c existing p))).
    + by apply list_elem_of_fmap_2, list_elem_of_fmap_2.
    + split; [exact (proj1 (Hok p Hp))|done].
Qed.

Lemma route_desired_stable c ours :
  ours_ok c ours → refs_agree ours →
  ∀ clock now now' fresh, let s := parents_stored clock (route_desired c ours now fresh) in
    route_desired c ours now' (mkObject (obGeneration fresh) s) = s.
Proof.
  intros Hok Hag clock now now' fresh. cbv zeta. unfold parents_stored, route_desired at 2 3.
  rewrite appended_fmap. unfold route_desired. cbn [obStatus]. rewrite elems_appended, fmap_app.
  set (F := foreign_parents c (elems (obStatus fresh))). set (O := merge_parent now c (elems (obStatus fresh)) <$> ours).
  f_equal. f_equal.
  - unfold foreign_parents. rewrite list.filter_app. fold (foreign_parents c (parent_stored clock <$> F)).
    fold (foreign_parents c (parent_stored clock <$> O)). rewrite !foreign_parents_fmap by done.
    unfold F at 1. rewrite foreign_parents_idem, (foreign_parents_ours c O), app_nil_r; [done|].
    intros p (q & -> & Hq)%list_elem_of_fmap. exact (proj1 (Hok q Hq)).
  - subst O. apply list_eq. intros i. rewrite !list_lookup_fmap.
    destruct (ours !! i) as [p|] eqn:Hp; [|done]. apply list_elem_of_lookup_2 in Hp.
    cbn [fmap option_fmap option_map]. f_equal. unfold merge_parent at 1.
    rewrite find_foreign_app, find_ours by (first [done|intros q (q' & -> & Hq)%list_elem_of_fmap;
      by apply list_elem_of_filter in Hq as [? _]]).
    unfold parent_stored, merge_parent. cbn [rpParentRef rpControllerName rpConditions]. f_equal.
    unfold stored_conditions, slice_map. f_equal. apply merge_settled. exact (proj2 (Hok p Hp)).
Qed.

Lemma route_settles c ours clock :
  ours_ok c ours → refs_agree ours → settles (route_update c ours) (parents_stored clock).
Proof.
  intros Hok Hag.
  pose proof (settles_deep (route_desired c ours) parents_stored clock) as Hs. unfold settles in *.
  intros now now' fresh.
  assert (Hu : ∀ n o, route_update c ours n o =
    if (obStatus o == route_desired c ours n o) then None else Some (route_desired c ours n o)).
  { intros n o. unfold route_update, mergeParentStatuses. cbv zeta.
    change (appended _) with (route_desired c ours n o) at 1 2. by case_bool_decide. }
  rewrite Hu. unfold after. rewrite Hu. apply Hs; clear Hs Hu now now' fresh.
  - intros s. apply slice_fmap_id. intros []. unfold parent_stored. simpl. by rewrite stored_slice_id.
  - apply route_desired_stable; done.
Qed.

(** Statuses compared without their times: the comparison is the equality
    of shapes. *)
Lemma settles_shape {S T} (eqb : S → S → bool) (shape : S → T) (desired : Z → Object S → S) (stored : S → S) :
  (∀ a b, eqb a b = true ↔ shape a = shape b) → (∀ s, shape (stored s) = shape s) →
  (∀ now now' fresh s, shape s = shape (desired now fresh) →
     shape (desired now' (mkObject (obGeneration fresh) s)) = shape s) →
  settles (λ now fresh, if eqb (obStatus fresh) (desired now fresh) then None else Some (desired now fresh))
    stored.
Proof.
  intros Heq Hst Hd now now' fresh. unfold after.
  destruct (eqb (obStatus fresh) (desired now fresh)) eqn:He.
  - apply Heq in He. specialize (Hd now now' fresh _ He). destruct fresh as [g s]. simpl in *.
    by rewrite (proj2 (Heq _ _) (eq_sym Hd)).
  - unfold stored_object. simpl. rewrite (proj2 (Heq _ _)); [done|]. symmetry. by apply (Hd now now' fresh).
Qed.

Definition untimed (s : Slice Condition) : list Condition := at_time 0 <$> elems s.

Lemma conditionsEqual_shape x y : conditionsEqual x y = true ↔ untimed x = untimed y.
Proof. apply all_pairs_shape, same_condition_spec. Qed.

Lemma untimed_stored clock s : untimed (stored_conditions clock s) = untimed s.
Proof. destruct s as [l|]; [|done]. unfold untimed. simpl. by rewrite stored_same. Qed.

Lemma untimed_merge now existing desired :
  untimed (Some (mergeConditions now existing desired)) = at_time 0 <$> desired.
Proof. apply mergeConditions_same. Qed.

Definition listener_shape (x : ListenerStatus) : string * Z * list Condition * list string :=
  (lsaName x, lsaAttachedRoutes x, untimed (lsaConditions x), gkKind <$> elems (lsaSupportedKinds x)).

Definition set_shape (s : ListenerSetStatus) := (untimed (stConditions s), listener_shape <$> elems (stListeners s)).

Lemma set_shape_spec a b : listenerSetStatusEqual a b = true ↔ set_shape a = set_shape b.
Proof.
  unfold listenerSetStatusEqual, set_shape. rewrite andb_true_iff, conditionsEqual_shape.
  rewrite (all_pairs_shape _ listener_shape).
  - split; [intros [-> ->]; done|by intros [= -> ->]].
  - intros x y. unfold listener_shape. rewrite !andb_true_iff, bool_decide_eq_true, Z.eqb_eq, conditionsEqual_shape.
    rewrite (all_pairs_shape _ gkKind) by (intros; apply bool_decide_eq_true).
    split; [intros [[[-> ->] ->] ->]; done|by intros [= -> -> -> ->]].
Qed.

Lemma set_settles state listeners acked clock :
  settles (set_update state listeners acked) (set_stored clock).
Proof.
  eapply (settles_shape _ set_shape (λ now fresh, _)); [apply set_shape_spec| |].
  - intros [c l]. unfold set_shape, set_stored. simpl. rewrite untimed_stored. f_equal.
    destruct l as [l|]; [|done]. simpl. rewrite <-list_fmap_compose. apply list_fmap_ext.
    intros i [] _. unfold listener_shape. simpl. by rewrite untimed_stored.
  - intros now now' fresh s ->. unfold set_shape. cbn [stConditions stListeners obGeneration].
    rewrite !untimed_merge, !elems_appended. f_equal. rewrite <-!list_fmap_compose. apply list_fmap_ext.
    intros i l _. cbn [compose]. unfold compose, listener_shape, listener_status.
    cbn [lsaName lsaAttachedRoutes lsaConditions lsaSupportedKinds]. by rewrite !untimed_merge.
Qed.

Definition ancestor_shape (a : PolicyAncestorStatus) : string * string * string * list Condition :=
  (prName (anRef a), default "" (prNamespace (anRef a)), anControllerName a, untimed (anConditions a)).

Lemma ancestors_shape_spec a b : ancestorsEqual a b = true ↔ ancestor_shape <$> a = ancestor_shape <$> b.
Proof.
  apply all_pairs_shape. intros x y. unfold ancestor_shape, ancestorRefMatches.
  rewrite !andb_true_iff, !bool_decide_eq_true, conditionsEqual_shape.
  split; [intros [[[-> ->] ->] ->]; done|by intros [= -> -> -> ->]].
Qed.

Lemma take_filter_stable {A} (P : A → Prop) `{!∀ x, Decision (P x)} n (F O : list A) :
  Forall P F → Forall (λ x, ¬ P x) O → take n (filter P (take n (F ++ O)) ++ O) = take n (F ++ O).
Proof.
  intros HF HO.
  assert (Hf : filter P (take n (F ++ O)) = take n F).
  { rewrite take_app, list.filter_app, list_filter_all, filter_none, app_nil_r by (by apply Forall_take). done. }
  rewrite Hf. destruct (decide (n ≤ length F)) as [Hn|Hn].
  - rewrite !take_app_le by (rewrite ?length_take; lia). rewrite take_take. f_equal. lia.
  - by rewrite (take_ge F n) by lia.
Qed.

Lemma filter_shape {A T} (P : A → Prop) (Q : T → Prop) `{!∀ x, Decision (P x), !∀ x, Decision (Q x)}
    (shape : A → T) (l : list A) :
  (∀ x, P x ↔ Q (shape x)) → shape <$> filter P l = filter Q (shape <$> l).
Proof.
  intros Hpq. induction l as [|x l IH]; [done|]. rewrite fmap_cons, !list.filter_cons.
  specialize (Hpq x). repeat case_decide; try tauto; rewrite ?fmap_cons; by rewrite IH.
Qed.

Definition ours_shape (c : string) (state : backendTLSPolicyState) : list (string * string * string * list Condition) :=
  (λ ref, (prName ref, default "" (prNamespace ref), c, at_time 0 <$> policy_conditions state)) <$>
    ancestor_refs state.

Lemma policy_settles c state clock :
  settles (policy_update c state) (fmap (ancestor_stored clock)).
Proof.
  eapply (settles_shape _ (fmap ancestor_shape) (λ now fresh, _)); [apply ancestors_shape_spec| |].
  - intros l. rewrite <-list_fmap_compose. apply list_fmap_ext. intros i [] _.
    unfold compose, ancestor_shape. simpl. by rewrite untimed_stored.
  - intros now now' fresh s Hs. cbn [obStatus].
    assert (Hd : ∀ now existing,
      ancestor_shape <$> take 16 (filter (λ a, anControllerName a ≠ c) existing ++
        ((λ ref, mkAncestor ref c (Some (mergeConditions now (existing_ancestor c ref existing)
           (policy_conditions state)))) <$> ancestor_refs state)) =
      take 16 (filter (λ t, t.1.2 ≠ c) (ancestor_shape <$> existing) ++ ours_shape c state)).
    { intros n ex. rewrite fmap_take, fmap_app. f_equal. f_equal; [by apply filter_shape|].
      rewrite <-list_fmap_compose. apply list_fmap_ext. intros i ref _. unfold compose, ancestor_shape.
      cbn [anRef anControllerName anConditions]. by rewrite untimed_merge. }
    rewrite Hd in Hs |- *. rewrite Hs. apply take_filter_stable; rewrite list.Forall_forall.
    + intros t Ht. by apply list_elem_of_filter in Ht as [? _].
    + intros t (ref & -> & _)%list_elem_of_fmap Hn. by apply Hn.
Qed.

(** ** Lemmas: gateway conditions *)

Lemma programmed_iff gw paramsErr addresses acked validListeners invalidOwn :
  conditionTrue (gatewayConditions gw paramsErr addresses acked validListeners invalidOwn).2 = true ↔
  paramsErr = None ∧ gaUnsupportedType addresses = false ∧ gaUnusable addresses = [] ∧
  validListeners ≠ 0%Z ∧ acked = true.
Proof.
  unfold gatewayConditions, programmed_condition. cbv zeta.
  destruct paramsErr; [by split; [|intros [? _]]|].
  destruct (gaUnsupportedType addresses); [by split; [|intros (_ & ? & _)]|]. cbn [snd].
  destruct (gaUnusable addresses) as [|a l]; [|by split; [|intros (_ & _ & ? & _)]]. simpl.
  destruct (Z.eqb_spec validListeners 0); [split; [done|naive_solver]|].
  destruct acked; simpl; split; [naive_solver| done |done|naive_solver].
Qed.

Definition static_entry (addr : GatewaySpecAddress) : bool :=
  match saType addr with Some t => t == IPAddressType | None => true end && (saValue addr != "").

Lemma addresses_step_spec ips addrs r :
  let r' := fold_left (address_step ips) addrs r in
  let values := saValue <$> filter (λ a, static_entry a = true) addrs in
  gaStatic r' = gaStatic r ++ values ∧
  gaUnusable r' = gaUnusable r ++ filter (λ v, v ∉ ips) values ∧
  gaUnsupportedType r' = gaUnsupportedType r ||
    existsb (λ a, match saType a with Some t => t != IPAddressType | None => false end) addrs.
Proof.
  revert r. induction addrs as [|a addrs IH]; intros r; cbn zeta; simpl fold_left.
  { simpl. rewrite !app_nil_r, orb_false_r. done. }
  destruct (IH (address_step ips r a)) as (H1 & H2 & H3). rewrite H1, H2, H3. clear IH H1 H2 H3.
  rewrite list.filter_cons. unfold address_step, static_entry. simpl existsb.
  destruct (saType a) as [t|]; [destruct (decide (t = IPAddressType)) as [->|Ht]|];
    rewrite ?(bool_decide_true (IPAddressType = _)), ?(bool_decide_false (t = _)) by done; simpl;
    try (case_bool_decide as Hv; simpl; [done|]); rewrite ?orb_true_r, ?orb_false_r; try done.
  all: rewrite ?fmap_cons, ?list.filter_cons, <-?(assoc_L app); simpl.
  all: case_decide as Hin; [rewrite (bool_decide_false (saValue a ∈ ips)) by done|
    rewrite (bool_decide_true (saValue a ∈ ips)) by done];
    rewrite <-?(assoc_L app); done.
Qed.

Lemma elem_of_node_ips acks ip :
  ip ∈ node_ips acks ↔ ip ≠ "" ∧ ∃ name pod, asPods acks !! name = Some pod ∧ paHealthy pod = true ∧ paHostIP pod = ip.
Proof.
  unfold node_ips.
  assert (H : ∀ pods acc, ip ∈ fold_left (λ ips pod, if paHealthy pod && (paHostIP pod != "")
      then {[ paHostIP pod ]} ∪ ips else ips) pods (acc : gset string) ↔
    ip ∈ acc ∨ (ip ≠ "" ∧ ∃ pod, pod ∈ pods ∧ paHealthy pod = true ∧ paHostIP pod = ip)).
  { induction pods as [|p pods IH]; intros acc; simpl.
    - split; [by left|]. intros [?|(_ & ? & ?%elem_of_nil & _)]; done.
    - rewrite IH. destruct (paHealthy p) eqn:Hp; simpl; [case_bool_decide as Hi; simpl|].
      + split; [intros [?|(? & q & ? & ? & ?)]; [by left|right; split; [done|exists q; split; [by right|done]]]|].
        intros [?|(? & q & [->|?]%elem_of_cons & ? & ?)]; [by left|congruence|right; eauto].
      + rewrite elem_of_union, elem_of_singleton. split.
        * intros [[->|?]|(? & q & ? & ? & ?)]; [right|by left|right]; (split; [done|]);
            [exists p; split; [by left|done]|exists q; split; [by right|done]].
        * intros [?|(? & q & [->|?]%elem_of_cons & ? & ?)]; [by left; right|by left; left|right; eauto].
      + split; [intros [?|(? & q & ? & ? & ?)]; [by left|right; split; [done|exists q; split; [by right|done]]]|].
        intros [?|(? & q & [->|?]%elem_of_cons & ? & ?)]; [by left|congruence|right; eauto]. }
  rewrite H. rewrite elem_of_empty. split.
  - intros [[]|(Hn & pod & ((name & pod') & -> & Hin)%list_elem_of_fmap & ?)].
    apply elem_of_map_to_list in Hin. eauto.
  - intros (Hn & name & pod & Hin & ?). right. split; [done|]. exists pod. split; [|done].
    apply list_elem_of_fmap. exists (name, pod). by rewrite elem_of_map_to_list.
Qed.

(** ** Theorems *)

Lemma parentStatuses_ok outcomes c generation : ours_ok c (parentStatuses outcomes c generation).
Proof.
  intros p (o & -> & _)%list_elem_of_fmap. split; [done|]. simpl. repeat constructor; set_solver.
Qed.

(** C20: Every status writer is idempotent: what it stores makes it write
    nothing on the next pass, provided route outcomes with one parent reference
    agree and no listener of the Gateway allows an insecure fallback. *)
Theorem statuses_settle {texts : StatusTexts} clock bundle input set listeners acked c outcomes generation
    policy :
  settles (class_update bundle) (class_stored clock) ∧
  (input_ok input → giInsecureFallback input = false → settles (gateway_update input) (gateway_stored clock)) ∧
  settles (set_update set listeners acked) (set_stored clock) ∧
  (refs_agree (parentStatuses outcomes c generation) →
   settles (route_update c (parentStatuses outcomes c generation)) (parents_stored clock)) ∧
  settles (policy_update c policy) (fmap (ancestor_stored clock)).
Proof.
  split_and!.
  - apply class_settles.
  - apply gateway_settles.
  - apply set_settles.
  - apply route_settles, parentStatuses_ok.
  - apply policy_settles.
Qed.

(** A written Gateway status carries the Accepted, Programmed and ResolvedRefs
    conditions computed and, for the Gateway's own listeners in order, their
    names, attached route counts and conditions; with an insecure fallback the
    condition reporting it replaces the others. *)
Theorem gateway_status_reports input now fresh s :
  input_ok input → gateway_update input now fresh = Some s →
  (at_time 0 <$> elems (gsConditions s) =
    if giInsecureFallback input then [insecure_condition (obGeneration fresh)]
    else at_time 0 <$> [giAccepted input; giProgrammed input; giResolvedRefs input]) ∧
  (λ l, (lsaName l, lsaAttachedRoutes l, untimed (lsaConditions l))) <$> elems (gsListeners s) =
    (λ l, (lsName (lsSpec l), lsAttachedRoutes l,
           at_time 0 <$> listener_conditions (obGeneration fresh) (giGatewayAcked input) l)) <$>
      own_listeners (giListeners input).
Proof.
  intros Hok. unfold gateway_update. case_bool_decide; [done|]. intros [= <-].
  unfold gateway_desired. cbn [gsConditions gsListeners]. rewrite elems_appended. split.
  - cbn [elems default from_option id]. destruct (giInsecureFallback input) eqn:Hi.
    + unfold gateway_status_conditions. rewrite Hi. by rewrite mergeConditions_same.
    + rewrite secure_conditions by (done || apply Hok). apply mergeConditions_same.
  - rewrite <-list_fmap_compose. apply list_fmap_ext. intros i l _. unfold compose, listener_status.
    cbn [lsaName lsaAttachedRoutes lsaConditions]. by rewrite untimed_merge.
Qed.

(** The conditions a successful write leaves in the cluster, their times apart. *)
Lemma gateway_written input clock rounds key objects objects' :
  cdType (giAccepted input) = "Accepted" → cdType (giProgrammed input) = "Programmed" →
  cdType (giResolvedRefs input) = "ResolvedRefs" →
  write (gateway_update input) (gateway_stored clock) rounds key objects = (Ok tt, objects') →
  ∃ o, objects' !! key = Some o ∧
    untimed (gsConditions (obStatus o)) =
      if giInsecureFallback input then [insecure_condition (obGeneration o)]
      else at_time 0 <$> [giAccepted input; giProgrammed input; giResolvedRefs input].
Proof.
  intros Ha Hp Hr. unfold write.
  pose proof (retry_atomic (gateway_update input) (gateway_stored clock) DefaultRetry rounds (objects !! key)) as H.
  destruct (retryOnConflict _ _ _ _ _) as [r o]. intros [= -> <-].
  destruct H as (before & _ & i & fresh & -> & H). rewrite lookup_partial_alter_eq.
  set (now := rdNow (rounds i)) in *.
  assert (Hd : untimed (gsConditions (gateway_desired input now fresh)) =
    if giInsecureFallback input then [insecure_condition (obGeneration fresh)]
    else at_time 0 <$> [giAccepted input; giProgrammed input; giResolvedRefs input]).
  { unfold gateway_desired. cbn [gsConditions]. unfold untimed. cbn [elems default from_option id].
    destruct (giInsecureFallback input) eqn:Hi.
    - unfold gateway_status_conditions. rewrite Hi. by rewrite mergeConditions_same.
    - rewrite secure_conditions by done. apply mergeConditions_same. }
  unfold gateway_update in H. cbv zeta in H. case_bool_decide as He.
  - exists fresh. split; [done|]. rewrite He. exact Hd.
  - exists (stored_object (gateway_stored clock) fresh (gateway_desired input now fresh)). split; [done|].
    unfold stored_object, gateway_stored. cbn [obStatus obGeneration gsConditions].
    by rewrite untimed_stored.
Qed.

(** While a listener allows the fallback the status never settles: every
    pass of another second writes it anew. *)
Lemma insecure_never_settles input clock now now' fresh :
  giInsecureFallback input = true → input_ok input → clock now ≠ now' →
  gateway_update input now fresh ≠ None →
  gateway_update input now' (after (gateway_update input) (gateway_stored clock) now fresh) ≠ None.
Proof.
  intros Hi Hok Hn Hu. unfold after. destruct (gateway_update input now fresh) as [s|] eqn:Hs; [|done].
  clear Hu. unfold gateway_update in Hs. case_bool_decide; [done|]. injection Hs as <-.
  unfold gateway_update at 1. case_bool_decide as He; [exfalso|done].
  apply (f_equal gsConditions) in He. unfold stored_object, gateway_stored, gateway_desired in He.
  cbn [gsConditions obStatus obGeneration] in He. unfold stored_conditions, slice_map in He.
  apply (inj Some) in He. unfold gateway_status_conditions in He. rewrite Hi in He.
  assert (Hf : ∀ now existing, mergeConditions now
      (mergeConditions now existing [giAccepted input; giProgrammed input; giResolvedRefs input])
      [insecure_condition (obGeneration fresh)] = [at_time now (insecure_condition (obGeneration fresh))]).
  { intros n ex. unfold mergeConditions at 1. simpl. unfold merge_condition at 1.
    rewrite (proj2 (list_find_None _ _)); [done|]. rewrite list.Forall_forall. intros c Hc Ht.
    assert (Hm : cdType c ∈ cdType <$> mergeConditions n ex
      [giAccepted input; giProgrammed input; giResolvedRefs input]) by (by apply list_elem_of_fmap_2).
    destruct Hok as (Ha & Hp & Hr & _). rewrite merge_types, Ht in Hm. simpl in Hm. rewrite Ha, Hp, Hr in Hm.
    by apply elem_of_cons in Hm as [|[|[|[]%elem_of_nil]%elem_of_cons]%elem_of_cons]. }
  rewrite !Hf in He. simpl in He. unfold stored_condition, at_time in He. simpl in He.
  by injection He.
Qed.

(** Entries of other controllers. *)
Definition foreign_ancestors (c : string) (l : list PolicyAncestorStatus) : list PolicyAncestorStatus :=
  filter (λ a, anControllerName a ≠ c) l.

Lemma policy_update_foreign c state now fresh s :
  policy_update c state now fresh = Some s →
  foreign_ancestors c s = take 16 (foreign_ancestors c (obStatus fresh)).
Proof.
  unfold policy_update. cbv zeta. destruct (ancestorsEqual _ _); [done|]. intros [= <-].
  unfold foreign_ancestors.
  rewrite take_app, list.filter_app, list_filter_all, (filter_none _ (take _ (_ <$> _))), app_nil_r; [done| |].
  - apply Forall_take. rewrite list.Forall_forall. intros a (ref & -> & _)%list_elem_of_fmap Hn. by apply Hn.
  - apply Forall_take. rewrite list.Forall_forall. intros a Ha. by apply list_elem_of_filter in Ha as [? _].
Qed.

Lemma write_spec {S} (compute : Z → Object S → option S) stored rounds key objects :
  let '(r, objects') := write compute stored rounds key objects in
  (∀ key', key' ≠ key → objects' !! key' = objects !! key') ∧
  ∃ before, rtc (foreign rounds) (objects !! key) before ∧
    (objects' !! key = before ∨
     ∃ i fresh s, before = Some fresh ∧ compute (rdNow (rounds i)) fresh = Some s ∧
       objects' !! key = Some (stored_object stored fresh s)).
Proof.
  unfold write. pose proof (retry_atomic compute stored DefaultRetry rounds (objects !! key)) as H.
  destruct (retryOnConflict _ _ _ _ _) as [r o]. destruct H as (before & Hf & Hr). split.
  { intros key' Hk. by rewrite lookup_partial_alter_ne. }
  exists before. split; [done|]. rewrite lookup_partial_alter_eq.
  destruct r as [|e]; [|by left; subst]. destruct Hr as (i & fresh & Hb & Hc).
  destruct (compute (rdNow (rounds i)) fresh) as [s|] eqn:Hs; [right; eauto 10|by left; subst].
Qed.

(** C19: A status write of a route or a policy changes that object alone,
    computes from a state the server held at that moment (also after conflicts),
    and keeps the entries of every other controller in their order; a policy
    status holds the first sixteen of them. *)
Theorem status_writes_safe c outcomes generation state clock routeRounds policyRounds key routes policies :
  (let '(_, routes') := write (route_update c (parentStatuses outcomes c generation)) (parents_stored clock)
                          routeRounds key routes in
   (∀ key', key' ≠ key → routes' !! key' = routes !! key') ∧
   ∃ before, rtc (foreign routeRounds) (routes !! key) before ∧
     (routes' !! key = before ∨
      ∃ fresh s, before = Some fresh ∧
        routes' !! key = Some (mkObject (obGeneration fresh) (parents_stored clock s)) ∧
        foreign_parents c (elems s) = foreign_parents c (elems (obStatus fresh)))) ∧
  (let '(_, policies') := write (policy_update c state) (fmap (ancestor_stored clock)) policyRounds key policies in
   (∀ key', key' ≠ key → policies' !! key' = policies !! key') ∧
   ∃ before, rtc (foreign policyRounds) (policies !! key) before ∧
     (policies' !! key = before ∨
      ∃ fresh s, before = Some fresh ∧
        policies' !! key = Some (mkObject (obGeneration fresh) (ancestor_stored clock <$> s)) ∧
        foreign_ancestors c s = take 16 (foreign_ancestors c (obStatus fresh)))).
Proof.
  split.
  - pose proof (write_spec (route_update c (parentStatuses outcomes c generation)) (parents_stored clock)
      routeRounds key routes) as H. destruct (write _ _ _ _ _) as [r objects].
    destruct H as (Ho & before & Hf & H). split; [done|]. exists before. split; [done|].
    destruct H as [?|(i & fresh & s & ? & Hs & ->)]; [by left|right]. exists fresh, s. split_and!; [done..|].
    unfold route_update, mergeParentStatuses in Hs. cbv zeta in Hs. case_bool_decide; simplify_eq/=.
    apply (route_desired_foreign c _ _ fresh), parentStatuses_ok.
  - pose proof (write_spec (policy_update c state) (fmap (ancestor_stored clock)) policyRounds key policies) as H.
    destruct (write _ _ _ _ _) as [r objects].
    destruct H as (Ho & before & Hf & H). split; [done|]. exists before. split; [done|].
    destruct H as [?|(i & fresh & s & ? & Hs & ->)]; [by left|right]. exists fresh, s. split_and!; [done..|].
    by eapply policy_update_foreign.
Qed.

(** ** Examples *)

Definition ex_texts : StatusTexts := {| featureName _ := "Feature"; quoted s := s |}.

Definition ex_input (insecure : bool) : gatewayStatusInput :=
  mkStatusInput (condition "Accepted" ConditionTrue "Accepted" "Gateway is accepted" 1)
    (condition "Programmed" ConditionFalse "Pending" "" 1)
    (condition "ResolvedRefs" ConditionTrue "ResolvedRefs" "" 1) "10.96.0.1" ex_validated.1 false [] insecure None.

Lemma ex_input_ok insecure : input_ok (ex_input insecure).
Proof.
  split_and!; [done..|]. apply (bool_decide_unpack _). vm_compute. exact I.
Qed.

Definition ex_fresh : Object GatewayStatus := mkObject 1 (mkGatewayStatus None None None None).

Definition ex_outcome : routeParentOutcome :=
  mkOutcome (AttachedTCP (mkL4Route (ex_meta "shop" "db") [] [] []))
    (mkParentRef None None None "gw" None None) true "Accepted" true "ResolvedRefs" "" None ∅.

Lemma statuses_settle_witness :
  settles (gateway_update (ex_input false)) (gateway_stored id) ∧
  settles (route_update "krouter" (parentStatuses [ex_outcome] "krouter" 1)) (parents_stored id).
Proof.
  destruct (@statuses_settle ex_texts id "v1.6.0" (ex_input false) (mkSetState (ex_set "shop" "edge") true "Accepted")
    ex_validated.1 true "krouter" [ex_outcome] 1
    (mkPolicyState (mkBackendTLSPolicy (ex_meta "shop" "p") [] (mkPolicyValidation [] None "" []) ∅)
       None true "Accepted" true "ResolvedRefs" "" ∅)) as (_ & Hg & _ & Hr & _).
  split.
  - apply Hg; [apply ex_input_ok|reflexivity].
  - apply Hr. intros p q Hp%list_elem_of_singleton Hq%list_elem_of_singleton _. congruence.
Defined.

(** A Gateway with the fallback reports nothing else about itself. *)
Lemma gateway_status_reports_witness :
  ∃ s, gateway_update (ex_input true) 7 ex_fresh = Some s ∧
    at_time 0 <$> elems (gsConditions s) = [insecure_condition 1].
Proof.
  eexists. split; [vm_compute; reflexivity|].
  apply (gateway_status_reports (ex_input true) 7 ex_fresh).
  - apply ex_input_ok.
  - vm_compute. reflexivity.
Defined.

(** A route attached to a listener set makes the policy report on a Gateway
    of that set's name, which need not exist. *)
Example listener_set_ancestor :
  let o := mkOutcome (roRoute ex_outcome) (mkParentRef None (Some "ListenerSet") None "edge" None None)
             true "Accepted" true "ResolvedRefs" "" None ∅ in
  prKind (ancestor_ref o) = Some "Gateway" ∧ prName (ancestor_ref o) = "edge".
Proof. done. Qed.

End status.
