(* ===== verification/Frontend.v ===== *)
(** * The frontend of a Gateway

    Models [internal/lib/k8s/gatewayapi/frontend.go]: the Service that
    exposes the listeners of a Gateway and the EndpointSlice that mirrors the
    healthy data-plane pods behind it, created or brought up to date in an
    API server whose calls may fail. *)

From S2P Require Import Prelude GoStrings Compiled Build Ports GatewayTypes References Listeners Params Publish.
From stdpp Require Import options.

#[local] Open Scope nat_scope.

Module frontend.
Import gatewayv1 gatewayapi references listeners hclparams.

(** ** Ports *)

Definition ProtocolTCP := "TCP".
Definition ProtocolUDP := "UDP".

Record servicePort := mkPort {
  ptName : string;
  ptExternal : Z;
  ptInternal : Z;
  ptNodePort : Z;
  ptProtocol : string;
}.

(** [None] is the panic of slicing a short UID. *)
Definition frontendName (gw : Gateway) : option string :=
  let name := "krouter-" +:+ omName (gwMeta gw) in
  let name := if 54 <? len name then stake 54 name else name in
  let uid := omUID (gwMeta gw) in
  if len uid <? 8 then None else Some (name +:+ "-" +:+ stake 8 uid).

Definition protoSuffix (protocol : string) : string :=
  if (protocol == HTTPSProtocolType) then "https"
  else if (protocol == TCPProtocolType) then "tcp"
  else if (protocol == UDPProtocolType) then "udp"
  else "http".

Definition port_key (spec : Listener) : string :=
  "p" +:+ pretty (lsPort spec) +:+ "-" +:+ protoSuffix (lsProtocol spec).

Definition new_port (l : listenerState) : servicePort :=
  mkPort (port_key (lsSpec l)) (lsPort (lsSpec l)) (lsInternalPort l) 0
    (if (lsProtocol (lsSpec l) == UDPProtocolType) then ProtocolUDP else ProtocolTCP).

Definition with_node_port (requested : option Z) (p : servicePort) : servicePort :=
  match requested with
  | Some n => mkPort (ptName p) (ptExternal p) (ptInternal p) n (ptProtocol p)
  | None => p
  end.

(** The node port the parameters request for the Gateway's own listener. *)
Definition requested_node_port (service : ServiceBlock) (l : listenerState) : option Z :=
  match lsSet l with None => sbNodePorts service !! lsName (lsSpec l) | Some _ => None end.

(** The ports seen so far, by key, and the keys in order of appearance. *)
Definition port_step (service : ServiceBlock) (acc : gmap string servicePort * list string) (l : listenerState) :
    gmap string servicePort * list string :=
  if negb (valid l) then acc
  else
    let '(seen, order) := acc in
    let key := port_key (lsSpec l) in
    let '(port, order) := match seen !! key with
                          | Some port => (port, order)
                          | None => (new_port l, order ++ [key])
                          end in
    (<[key := with_node_port (requested_node_port service l) port]> seen, order).

Definition desiredServicePorts (listeners : list listenerState) (service : ServiceBlock) : list servicePort :=
  let '(seen, order) := fold_left (port_step service) listeners (∅, []) in
  omap (λ key, seen !! key) (sliceStable sless order).

(** ** Objects *)

Record OwnerReference := mkOwner {
  owAPIVersion : string;
  owKind : string;
  owName : string;
  owUID : string;
  owController : option bool;
}.

Inductive IntOrString := FromInt (port : Z) | FromString (name : string).
#[global] Instance IntOrString_eq_dec : EqDecision IntOrString.
Proof. solve_decision. Defined.

Record ServicePort := mkServicePort {
  spoName : string;
  spoProtocol : string;
  spoPort : Z;
  spoTargetPort : IntOrString;
  spoNodePort : Z;
}.

Record Service := mkService {
  svcUID : string;
  svcLabels : gmap string string;
  svcAnnotations : gmap string string;
  svcOwners : list OwnerReference;
  svcType : string;
  svcClusterIP : string;
  svcExternalTrafficPolicy : string;
  svcLoadBalancerClass : option string;
  svcSelector : gmap string string;
  svcPorts : list ServicePort;
}.

Record EndpointPort := mkEndpointPort {
  epName : option string;
  epProtocol : option string;
  epPort : option Z;
}.

Record Endpoint := mkEndpoint {
  enAddresses : list string;
  enNodeName : option string;
  enReady : option bool;
}.

Record EndpointSlice := mkEndpointSlice {
  eslLabels : gmap string string;
  eslOwners : list OwnerReference;
  eslAddressType : string;
  eslPorts : list EndpointPort;
  eslEndpoints : list Endpoint;
}.

(** The Services and EndpointSlices, by namespace and name. *)
Record Frontends := mkFrontends {
  frServices : gmap (string * string) Service;
  frSlices : gmap (string * string) EndpointSlice;
}.

(** ** The API server *)

Inductive Verb := GetService | CreateService | UpdateService | GetSlice | CreateSlice | UpdateSlice.
Inductive Error := NotFound | AlreadyExists | Failed (message : string).

Definition ServiceTypeClusterIP := "ClusterIP".
Definition ServiceTypeLoadBalancer := "LoadBalancer".

(** A Service as the server stores it: what the client set, and node ports
    where a type that has them leaves them open. *)
Record keeps (sent kept : Service) : Prop := {
  ke_labels : svcLabels kept = svcLabels sent;
  ke_annotations : svcAnnotations kept = svcAnnotations sent;
  ke_owners : svcOwners kept = svcOwners sent;
  ke_type : svcType kept = svcType sent;
  ke_policy : svcExternalTrafficPolicy kept = svcExternalTrafficPolicy sent;
  ke_selector : svcSelector kept = svcSelector sent;
  ke_ports : Forall2 (λ p q,
    spoName q = spoName p ∧ spoProtocol q = spoProtocol p ∧ spoPort q = spoPort p ∧
    spoTargetPort q = spoTargetPort p ∧
    (spoNodePort p ≠ 0%Z ∨ svcType sent = ServiceTypeClusterIP → spoNodePort q = spoNodePort p))
    (svcPorts sent) (svcPorts kept);
}.

(** Calls that fail, and what the server makes of a Service it creates or
    updates. *)
Class FrontendAPI := {
  fault : Verb → string → string → option string;
  onCreate : Service → Service;
  onUpdate : Service → Service → Service;
  onCreate_keeps : ∀ s, keeps s (onCreate s);
  onUpdate_keeps : ∀ old s, keeps s (onUpdate old s);
}.

Section frontend.
Context {api : FrontendAPI}.

Definition call {A} (verb : Verb) (namespace name : string) (r : result Error A) : result Error A :=
  match fault verb namespace name with Some message => Err (Failed message) | None => r end.

Definition put_service (namespace name : string) (s : Service) (st : Frontends) : Frontends :=
  mkFrontends (<[(namespace, name) := s]> (frServices st)) (frSlices st).
Definition put_slice (namespace name : string) (s : EndpointSlice) (st : Frontends) : Frontends :=
  mkFrontends (frServices st) (<[(namespace, name) := s]> (frSlices st)).

Definition getService (st : Frontends) (namespace name : string) : result Error Service :=
  call GetService namespace name (of_option NotFound (frServices st !! (namespace, name))).
Definition getSlice (st : Frontends) (namespace name : string) : result Error EndpointSlice :=
  call GetSlice namespace name (of_option NotFound (frSlices st !! (namespace, name))).

Definition createService (st : Frontends) (namespace name : string) (s : Service) :
    result Error Service * Frontends :=
  match call CreateService namespace name
          (guard_err (negb (bool_decide (is_Some (frServices st !! (namespace, name))))) AlreadyExists) with
  | Ok _ => (Ok (onCreate s), put_service namespace name (onCreate s) st)
  | Err e => (Err e, st)
  end.

Definition updateService (st : Frontends) (namespace name : string) (s : Service) :
    result Error Service * Frontends :=
  match call UpdateService namespace name (of_option NotFound (frServices st !! (namespace, name))) with
  | Ok old => (Ok (onUpdate old s), put_service namespace name (onUpdate old s) st)
  | Err e => (Err e, st)
  end.

Definition createSlice (st : Frontends) (namespace name : string) (s : EndpointSlice) :
    result Error unit * Frontends :=
  match call CreateSlice namespace name
          (guard_err (negb (bool_decide (is_Some (frSlices st !! (namespace, name))))) AlreadyExists) with
  | Ok _ => (Ok tt, put_slice namespace name s st)
  | Err e => (Err e, st)
  end.

Definition updateSlice (st : Frontends) (namespace name : string) (s : EndpointSlice) :
    result Error unit * Frontends :=
  match call UpdateSlice namespace name (of_option NotFound (frSlices st !! (namespace, name))) with
  | Ok _ => (Ok tt, put_slice namespace name s st)
  | Err e => (Err e, st)
  end.

(** ** The EndpointSlice *)

Definition LabelServiceName := "kubernetes.io/service-name".
Definition LabelManagedBy := "endpointslice.kubernetes.io/managed-by".
Definition AddressTypeIPv4 := "IPv4".

Definition endpoint_of (pod : PodAck) : Endpoint := mkEndpoint [paIP pod] (Some (paNodeName pod)) (Some true).

(** The healthy pods, in the order of their names. *)
Definition ready_endpoints (acks : AckState) : list Endpoint :=
  endpoint_of <$> filter (λ pod, paHealthy pod = true)
    (omap (λ name, asPods acks !! name) (compiled.sorted_keys (asPods acks))).

Definition desired_slice (w : world) (gw : Gateway) (name : string) (svc : Service) (ports : list servicePort) :
    EndpointSlice :=
  mkEndpointSlice
    (<[LabelManagedBy := compiled.EndpointSliceManagedBy]>
       (<[LabelServiceName := name]> (compiled.BaseLabels (omUID (gwMeta gw)))))
    [mkOwner "v1" "Service" name (svcUID svc) (Some true)] AddressTypeIPv4
    ((λ p, mkEndpointPort (Some (ptName p)) (Some (ptProtocol p)) (Some (ptInternal p))) <$> ports)
    (ready_endpoints (wAcks w)).

(** The lengths of the addresses agree before the first ones are compared,
    and a desired endpoint has one. *)
Definition endpointSliceEqual (a b : EndpointSlice) : bool :=
  publish.equalStringMaps (eslLabels a) (eslLabels b) &&
  (length (eslPorts a) =? length (eslPorts b)) && (length (eslEndpoints a) =? length (eslEndpoints b)) &&
  all_pairs (λ p q, (epName p == epName q) && (epPort p == epPort q)) (eslPorts a) (eslPorts b) &&
  all_pairs (λ e f, (length (enAddresses e) =? length (enAddresses f)) &&
      (head (enAddresses e) == head (enAddresses f)) && (enNodeName e == enNodeName f) &&
      (enReady e == enReady f)) (eslEndpoints a) (eslEndpoints b).

Definition ensureEndpointSlice (w : world) (gw : Gateway) (service : string) (svc : Service)
    (ports : list servicePort) (st : Frontends) : result Error unit * Frontends :=
  let namespace := omNamespace (gwMeta gw) in
  let name := service +:+ "-krouter" in
  let desired := desired_slice w gw service svc ports in
  match getSlice st namespace name with
  | Err NotFound => createSlice st namespace name desired
  | Err e => (Err e, st)
  | Ok existing =>
      if endpointSliceEqual existing desired then (Ok tt, st) else updateSlice st namespace name desired
  end.

(** ** The Service *)

Definition gateway_owner (gw : Gateway) : OwnerReference :=
  mkOwner "gateway.networking.k8s.io/v1" "Gateway" (omName (gwMeta gw)) (omUID (gwMeta gw)) (Some true).

(** User metadata first, krouter's own keys last. *)
Definition desired_annotations (gw : Gateway) (service : ServiceBlock) (portMapJSON : string) : gmap string string :=
  <[compiled.PortMapAnnotation := portMapJSON]>
    (sbAnnotations service ∪ match gwInfrastructure gw with Some i => giAnnotations i | None => ∅ end).

Definition GatewayNameLabel := "gateway.networking.k8s.io/gateway-name".

Definition desired_labels (gw : Gateway) : gmap string string :=
  <[GatewayNameLabel := omName (gwMeta gw)]>
    (compiled.BaseLabels (omUID (gwMeta gw)) ∪
     match gwInfrastructure gw with Some i => giLabels i | None => ∅ end).

(** A node port that is not requested stays the one the Service has. *)
Definition service_port (ty : string) (existing : list ServicePort) (p : servicePort) : ServicePort :=
  let nodePort :=
    if (ty == ServiceTypeClusterIP) then 0%Z
    else if (ptNodePort p =? 0)%Z
    then match list_find (λ current, spoName current = ptName p) existing with
         | Some (_, current) => spoNodePort current
         | None => 0%Z
         end
    else ptNodePort p in
  mkServicePort (ptName p) (ptProtocol p) (ptExternal p) (FromInt (ptInternal p)) nodePort.

Definition desired_policy (service : ServiceBlock) : string :=
  if (sbType service == ServiceTypeClusterIP) then "" else sbExternalTrafficPolicy service.

Definition desired_service (gw : Gateway) (service : ServiceBlock) (portMapJSON : string)
    (existing : list ServicePort) (ports : list servicePort) : Service :=
  mkService "" (desired_labels gw) (desired_annotations gw service portMapJSON) [gateway_owner gw]
    (sbType service) "" (desired_policy service)
    (if (sbType service == ServiceTypeLoadBalancer) then sbLoadBalancerClass service else None)
    ∅ (service_port (sbType service) existing <$> ports).

Definition servicePortsEqual (a b : list ServicePort) : bool :=
  (length a =? length b) &&
  all_pairs (λ p q, (spoName p == spoName q) && (spoPort p =? spoPort q)%Z &&
    (spoTargetPort p == spoTargetPort q) && (spoNodePort p =? spoNodePort q)%Z) a b.

Definition serviceEqual (a b : Service) : bool :=
  publish.equalStringMaps (svcLabels a) (svcLabels b) && publish.equalStringMaps (svcAnnotations a) (svcAnnotations b) &&
  (svcType a == svcType b) && (svcExternalTrafficPolicy a == svcExternalTrafficPolicy b) &&
  eqb (size (svcSelector a) =? 0) (size (svcSelector b) =? 0) &&
  servicePortsEqual (svcPorts a) (svcPorts b) && (length (svcOwners a) =? length (svcOwners b)).

(** The existing Service with the desired fields; the rest is left alone. *)
Definition updated_service (existing desired : Service) : Service :=
  mkService (svcUID existing) (svcLabels desired) (svcAnnotations desired) (svcOwners desired)
    (svcType desired) (svcClusterIP existing) (svcExternalTrafficPolicy desired)
    (svcLoadBalancerClass existing) ∅ (svcPorts desired).

(** The cluster IP is returned even when the EndpointSlice fails. *)
Definition finish (w : world) (gw : Gateway) (name : string) (ports : list servicePort) (svc : Service)
    (st : Frontends) : string * result Error unit * Frontends :=
  let '(r, st) := ensureEndpointSlice w gw name svc ports st in (svcClusterIP svc, r, st).

Definition ensure_named (w : world) (gw : Gateway) (name : string) (ports : list servicePort)
    (service : ServiceBlock) (portMapJSON : string) (st : Frontends) : string * result Error unit * Frontends :=
  let namespace := omNamespace (gwMeta gw) in
  match getService st namespace name with
  | Err NotFound =>
      match createService st namespace name (desired_service gw service portMapJSON [] ports) with
      | (Err e, st) => ("", Err e, st)
      | (Ok created, st) => finish w gw name ports created st
      end
  | Err e => ("", Err e, st)
  | Ok existing =>
      let updated := updated_service existing
        (desired_service gw service portMapJSON (svcPorts existing) ports) in
      if serviceEqual existing updated then finish w gw name ports updated st
      else match updateService st namespace name updated with
           | (Err e, st) => ("", Err e, st)
           | (Ok updated, st) => finish w gw name ports updated st
           end
  end.

Definition ensureFrontend (w : world) (gw : Gateway) (ports : list servicePort) (service : ServiceBlock)
    (portMapJSON : string) (st : Frontends) : option (string * result Error unit * Frontends) :=
  name ← frontendName gw; Some (ensure_named w gw name ports service portMapJSON st).

End frontend.

(** ** Lemmas: ports *)

Lemma pretty_no_dash (p : Z) : (0 ≤ p)%Z → has_byte "-" (pretty p) = false.
Proof. intros (Hd & _)%pretty_Z_digits. by apply (sforall_has_byte is_digit). Qed.

Lemma port_key_port (l1 l2 : Listener) :
  (0 ≤ lsPort l1)%Z → (0 ≤ lsPort l2)%Z → port_key l1 = port_key l2 → lsPort l1 = lsPort l2.
Proof.
  intros H1 H2 H. unfold port_key in H. apply (sapp_inj "p") in H.
  apply ports.cut_at in H as [H _]; [by apply (inj pretty) in H|by apply pretty_no_dash..].
Qed.

(** The port describes the group of the listener. *)
Definition describes (p : servicePort) (l : listenerState) : Prop :=
  ptName p = port_key (lsSpec l) ∧ ptExternal p = lsPort (lsSpec l) ∧ ptInternal p = lsInternalPort l ∧
  ptProtocol p = (if (lsProtocol (lsSpec l) == UDPProtocolType) then ProtocolUDP else ProtocolTCP).

(** A node port is requested by an own listener of the group. *)
Definition node_port_from (service : ServiceBlock) (ls : list listenerState) (p : servicePort) : Prop :=
  ptNodePort p = 0%Z ∨
  ∃ l, l ∈ ls ∧ valid l = true ∧ lsSet l = None ∧ port_key (lsSpec l) = ptName p ∧
       sbNodePorts service !! lsName (lsSpec l) = Some (ptNodePort p).

Record ports_ok (service : ServiceBlock) (ls : list listenerState) (seen : gmap string servicePort)
    (order : list string) : Prop := {
  po_nodup : NoDup order;
  po_dom : ∀ k, k ∈ order ↔ is_Some (seen !! k);
  po_listed : ∀ l, l ∈ ls → valid l = true → port_key (lsSpec l) ∈ order;
  po_sound : ∀ k p, seen !! k = Some p →
    ptName p = k ∧ (∃ l, l ∈ ls ∧ valid l = true ∧ describes p l) ∧ node_port_from service ls p;
}.

Lemma node_port_from_mono service ls ls' p : ls ⊆ ls' → node_port_from service ls p → node_port_from service ls' p.
Proof. intros Hs [?|(l & ? & ?)]; [by left|right; exists l; auto]. Qed.

Lemma describes_node_port p l n : describes p l → describes (with_node_port n p) l.
Proof. by destruct n, p. Qed.

Lemma port_step_ok service ls seen order l :
  ports_ok service ls seen order →
  let '(seen', order') := port_step service (seen, order) l in ports_ok service (ls ++ [l]) seen' order'.
Proof.
  intros [Hnd Hdom Hlist Hs]. unfold port_step. assert (Hsub : ls ⊆ ls ++ [l]) by set_solver.
  destruct (valid l) eqn:Hv; simpl.
  2: { split; [done|done| |].
       - intros x [?|He%list_elem_of_singleton]%elem_of_app ?; [by apply Hlist|congruence].
       - intros k p (Hn & (x & ? & ?) & Hp)%Hs. split; [done|]. split; [|by eapply node_port_from_mono].
         exists x. auto. }
  set (key := port_key (lsSpec l)).
  assert (Hport : ∀ p, ptName p = key → (∃ x, x ∈ ls ++ [l] ∧ valid x = true ∧ describes p x) →
      node_port_from service (ls ++ [l]) p → let q := with_node_port (requested_node_port service l) p in
      ptName q = key ∧ (∃ x, x ∈ ls ++ [l] ∧ valid x = true ∧ describes q x) ∧ node_port_from service (ls ++ [l]) q).
  { intros p Hn (x & ? & ? & ?) Hp. cbv zeta.
    assert (Hd : ∃ x, x ∈ ls ++ [l] ∧ valid x = true ∧ describes (with_node_port (requested_node_port service l) p) x)
      by (exists x; auto using describes_node_port).
    unfold requested_node_port in *. destruct (lsSet l) eqn:Hset; [done|].
    destruct (sbNodePorts service !! lsName (lsSpec l)) as [n|] eqn:Hnp; [|done]. split; [by destruct p|].
    split; [done|]. right. exists l. split; [set_solver|]. by destruct p. }
  destruct (seen !! key) as [port|] eqn:Hk.
  - split.
    + done.
    + intros k. rewrite Hdom. destruct (decide (k = key)) as [->|]; [|by rewrite lookup_insert_ne].
      rewrite lookup_insert_eq, Hk. split; eauto.
    + intros x [?|He%list_elem_of_singleton]%elem_of_app Hx; [by apply Hlist|]. subst x. apply Hdom. eauto.
    + intros k p. destruct (decide (k = key)) as [->|].
      * rewrite lookup_insert_eq. intros [= <-]. destruct (Hs key port Hk) as (Hn & (x & ? & ?) & Hp).
        apply Hport; [done|exists x; auto|by eapply node_port_from_mono].
      * rewrite lookup_insert_ne by done. intros (Hn & (x & ? & ?) & Hp)%Hs.
        split; [done|]. split; [exists x; auto|by eapply node_port_from_mono].
  - assert (Hni : key ∉ order) by (rewrite Hdom, Hk; by intros [? ?]). split.
    + apply list.NoDup_app. split; [done|]. split; [|apply NoDup_singleton]. intros x Hx He%list_elem_of_singleton. congruence.
    + intros k. rewrite elem_of_app, list_elem_of_singleton, Hdom.
      destruct (decide (k = key)) as [->|]; [rewrite lookup_insert_eq; split; eauto|].
      rewrite lookup_insert_ne by done. naive_solver.
    + intros x [?|He%list_elem_of_singleton]%elem_of_app Hx; apply elem_of_app; [left; by apply Hlist|right].
      subst x. by apply list_elem_of_singleton.
    + intros k p. destruct (decide (k = key)) as [->|].
      * rewrite lookup_insert_eq. intros [= <-]. apply Hport; [done| |by left].
        exists l. split; [set_solver|]. done.
      * rewrite lookup_insert_ne by done. intros (Hn & (x & ? & ?) & Hp)%Hs.
        split; [done|]. split; [exists x; auto|by eapply node_port_from_mono].
Qed.

Lemma port_steps_ok service ls rest seen order :
  ports_ok service ls seen order →
  let '(seen', order') := fold_left (port_step service) rest (seen, order) in
  ports_ok service (ls ++ rest) seen' order'.
Proof.
  revert ls seen order. induction rest as [|l rest IH]; intros ls seen order Hok; simpl.
  - by rewrite app_nil_r.
  - apply (port_step_ok _ _ _ _ l) in Hok. destruct (port_step _ _ _) as [seen' order'].
    apply IH in Hok. by rewrite <-(assoc_L app) in Hok.
Qed.

Lemma desiredServicePorts_ok ls service :
  ∃ seen order, ports_ok service ls seen order ∧
    desiredServicePorts ls service = omap (λ k, seen !! k) (sliceStable sless order).
Proof.
  unfold desiredServicePorts.
  assert (Hok : ports_ok service [] ∅ []).
  { split; [constructor| |set_solver|done]. intros k. rewrite lookup_empty, elem_of_nil.
    split; [done|by intros [? ?]]. }
  apply (port_steps_ok service [] ls) in Hok. destruct (fold_left _ _ _) as [seen order].
  exists seen, order. done.
Qed.

Lemma omap_names service ls (seen : gmap string servicePort) order (l : list string) :
  ports_ok service ls seen order → (∀ k, k ∈ l → k ∈ order) → ptName <$> omap (λ k, seen !! k) l = l.
Proof.
  intros Hok Hin. induction l as [|k l IH]; [done|]. simpl.
  destruct (proj1 (po_dom _ _ _ _ Hok k) (Hin k (list_elem_of_here _ _))) as [p Hp]. rewrite Hp. simpl.
  f_equal; [by apply (po_sound _ _ _ _ Hok)|]. apply IH. intros x Hx. apply Hin. by right.
Qed.

Lemma desired_names_NoDup ls service : NoDup (ptName <$> desiredServicePorts ls service).
Proof.
  destruct (desiredServicePorts_ok ls service) as (seen & order & Hok & ->).
  rewrite (omap_names service ls seen order); [|done|].
  - rewrite sliceStable_Permutation. apply Hok.
  - intros k. by rewrite sliceStable_Permutation.
Qed.

Lemma NoDup_fmap_on {A B} (f : A → B) (l : list A) :
  NoDup l → (∀ x y, x ∈ l → y ∈ l → f x = f y → x = y) → NoDup (f <$> l).
Proof.
  induction 1 as [|x l Hx Hnd IH]; intros Hinj; [constructor|]. rewrite fmap_cons. constructor.
  - intros (y & Hy & Hin)%list_elem_of_fmap. apply Hx. rewrite (Hinj x y); [done|left|by right|done].
  - apply IH. intros y z Hy Hz. apply Hinj; by right.
Qed.

Lemma elem_of_desired ls service p seen order :
  ports_ok service ls seen order →
  p ∈ omap (λ k, seen !! k) (sliceStable sless order) ↔ ∃ k, seen !! k = Some p.
Proof.
  intros Hok. rewrite list_elem_of_omap. split; [naive_solver|]. intros [k Hk]. exists k. split; [|done].
  rewrite sliceStable_Permutation. apply (po_dom _ _ _ _ Hok). eauto.
Qed.

(** Every valid listener is exposed on its external port, towards its
    internal one, by the one entry of that port. *)
Lemma exposed {k8s : Kubernetes} {libs : build.Libraries} w gw sets a ls a' service :
  ports.allocator_ok a → ports.range_ok a → validateListeners w gw sets a = (ls, a') →
  (∀ l, l ∈ ls → 0 ≤ lsPort (lsSpec l))%Z →
  let entries := desiredServicePorts ls service in
  NoDup (ptExternal <$> entries) ∧
  (∀ l, l ∈ ls → valid l = true → ∃ p, p ∈ entries ∧ describes p l) ∧
  (∀ p, p ∈ entries → (∃ l, l ∈ ls ∧ valid l = true ∧ describes p l) ∧ node_port_from service ls p).
Proof.
  intros Ha Hr Hv Hpos. cbv zeta. pose proof (desired_names_NoDup ls service) as Hnames.
  destruct (desiredServicePorts_ok ls service) as (seen & order & Hok & He). rewrite He in Hnames |- *.
  assert (Hdet : ∀ p l l', describes p l → l ∈ ls → l' ∈ ls → valid l = true → valid l' = true →
      lsPort (lsSpec l) = lsPort (lsSpec l') → describes p l').
  { intros p l l' (Hn & Hx & Hi & Ht) Hl Hl' Hvl Hvl' Hp.
    destruct (same_port_group w gw sets a ls a' l l') as [Hproto Hint]; [done..|].
    unfold describes, port_key. rewrite Hn, Hx, Hi, Ht. unfold port_key. by rewrite Hp, Hproto, Hint. }
  split_and!.
  - apply NoDup_fmap_on; [by apply NoDup_fmap_1 in Hnames|].
    intros p q Hp Hq Hpq. apply (elem_of_desired ls service) in Hp as [k Hk]; [|done].
    apply (elem_of_desired ls service) in Hq as [k' Hk']; [|done].
    destruct (po_sound _ _ _ _ Hok k p Hk) as (Hnp & (l & ? & ? & Dl) & _).
    destruct (po_sound _ _ _ _ Hok k' q Hk') as (Hnq & (l' & ? & ? & Dl') & _).
    assert (Hd : describes p l').
    { apply (Hdet p l l'); try done. destruct Dl as (_ & E & _), Dl' as (_ & E' & _). congruence. }
    destruct Hd as (E & _), Dl' as (E' & _). congruence.
  - intros l Hl Hvl. pose proof (po_listed _ _ _ _ Hok l Hl Hvl) as [p Hp]%(po_dom _ _ _ _ Hok).
    exists p. split; [apply (elem_of_desired ls service); eauto|].
    destruct (po_sound _ _ _ _ Hok _ p Hp) as (Hn & (l' & Hl' & Hvl' & Hd) & _).
    apply (Hdet p l' l); try done. destruct Hd as (E & _). apply port_key_port; [by apply Hpos..|congruence].
  - intros p [k Hk]%(elem_of_desired ls service); [|done]. by destruct (po_sound _ _ _ _ Hok k p Hk) as (_ & ? & ?).
Qed.

(** ** Lemmas: writes *)

Section writes.
Context {api : FrontendAPI}.

Lemma frontend_call_Ok {A} verb namespace name (r : result Error A) x : call verb namespace name r = Ok x → r = Ok x.
Proof. unfold call. by destruct (fault _ _ _). Qed.

Lemma createService_cases st namespace name s r st' :
  createService st namespace name s = (r, st') →
  (∃ e, r = Err e ∧ st' = st) ∨ (r = Ok (onCreate s) ∧ st' = put_service namespace name (onCreate s) st).
Proof. unfold createService. destruct (call _ _ _ _); intros [= <- <-]; eauto. Qed.

Lemma updateService_cases st namespace name s r st' :
  updateService st namespace name s = (r, st') →
  (∃ e, r = Err e ∧ st' = st) ∨
  (∃ old, r = Ok (onUpdate old s) ∧ st' = put_service namespace name (onUpdate old s) st).
Proof. unfold updateService. destruct (call _ _ _ _); intros [= <- <-]; eauto. Qed.

Lemma createSlice_cases st namespace name s r st' :
  createSlice st namespace name s = (r, st') →
  (∃ e, r = Err e ∧ st' = st) ∨ (r = Ok tt ∧ st' = put_slice namespace name s st).
Proof. unfold createSlice. destruct (call _ _ _ _); intros [= <- <-]; eauto. Qed.

Lemma updateSlice_cases st namespace name s r st' :
  updateSlice st namespace name s = (r, st') →
  (∃ e, r = Err e ∧ st' = st) ∨ (r = Ok tt ∧ st' = put_slice namespace name s st).
Proof. unfold updateSlice. destruct (call _ _ _ _); intros [= <- <-]; eauto. Qed.

Lemma all_pairs_refl {A} (f : A → A → bool) l : (∀ x, f x x = true) → all_pairs f l l = true.
Proof. intros Hf. induction l as [|x l IH]; [done|]. simpl. by rewrite Hf, IH. Qed.

Lemma endpointSliceEqual_refl s : endpointSliceEqual s s = true.
Proof.
  unfold endpointSliceEqual. rewrite publish.equalStringMaps_refl, !Nat.eqb_refl. simpl.
  rewrite !all_pairs_refl; [done| |]; intros x; by rewrite ?Nat.eqb_refl, !bool_decide_eqb_refl.
Qed.

(** What the slice of a frontend serves. *)
Definition serves (slice desired : EndpointSlice) : Prop :=
  eslEndpoints slice = eslEndpoints desired ∧
  (λ p, (epName p, epPort p)) <$> eslPorts slice = (λ p, (epName p, epPort p)) <$> eslPorts desired.

Lemma endpointSliceEqual_serves a b :
  Forall (λ e, length (enAddresses e) = 1) (eslEndpoints b) → endpointSliceEqual a b = true → serves a b.
Proof.
  intros Hone. unfold endpointSliceEqual. rewrite !andb_true_iff. intros [[_ Hp] He]. split.
  - apply all_pairs_Forall2 in He. induction He as [|e f es fs Hef _ IH]; [done|].
    apply list.Forall_cons in Hone as [Hf Hone]. f_equal; [|by apply IH]. bool_to_prop.
    destruct e as [[|x [|]] ? ?], f as [[|y [|]] ? ?]; simplify_eq/=; done.
  - apply (all_pairs_shape _ (λ p, (epName p, epPort p))) in Hp; [done|].
    intros x y. rewrite andb_true_iff, !bool_decide_eq_true. split; [intros [-> ->]; done|by intros [= -> ->]].
Qed.

Lemma desired_slice_one w gw name svc entries :
  Forall (λ e, length (enAddresses e) = 1) (eslEndpoints (desired_slice w gw name svc entries)).
Proof. apply list.Forall_forall. by intros e (pod & -> & _)%list_elem_of_fmap. Qed.

Lemma ensureEndpointSlice_spec w gw service svc entries st r st' :
  ensureEndpointSlice w gw service svc entries st = (r, st') →
  frServices st' = frServices st ∧
  (∀ key, key ≠ (omNamespace (gwMeta gw), service +:+ "-krouter") → frSlices st' !! key = frSlices st !! key) ∧
  (r = Ok tt → ∃ slice, frSlices st' !! (omNamespace (gwMeta gw), service +:+ "-krouter") = Some slice ∧
     serves slice (desired_slice w gw service svc entries) ∧
     (∀ svc', endpointSliceEqual slice (desired_slice w gw service svc' entries) = true) ∧
     (frSlices st !! (omNamespace (gwMeta gw), service +:+ "-krouter") = Some slice ∨
      slice = desired_slice w gw service svc entries)).
Proof.
  unfold ensureEndpointSlice. cbv zeta.
  assert (Hw : ∀ s, s = desired_slice w gw service svc entries → serves s s ∧
      (∀ svc', endpointSliceEqual s (desired_slice w gw service svc' entries) = true) ∧
      (frSlices st !! (omNamespace (gwMeta gw), service +:+ "-krouter") = Some s ∨
       s = desired_slice w gw service svc entries)).
  { intros s ->. split; [done|]. split; [|by right]. intros svc'. apply (endpointSliceEqual_refl (desired_slice w gw service svc' entries)). }
  destruct (getSlice _ _ _) as [existing|e] eqn:Hg.
  - apply frontend_call_Ok, of_option_Ok in Hg. destruct (endpointSliceEqual _ _) eqn:He.
    + intros [= <- <-]. split; [done|]. split; [done|]. intros _. exists existing. split; [done|].
      split; [eapply endpointSliceEqual_serves; [apply desired_slice_one|done]|]. split; [done|by left].
    + intros [(e & -> & ->)|[-> ->]]%updateSlice_cases; [done|]. split; [done|].
      split; [intros; cbn; by rewrite lookup_insert_ne|]. intros _. eexists. split; [apply lookup_insert_eq|]. by apply Hw.
  - destruct e; [|by intros [= <- <-]..].
    intros [(e & -> & ->)|[-> ->]]%createSlice_cases; [done|]. split; [done|].
    split; [intros; cbn; by rewrite lookup_insert_ne|]. intros _. eexists. split; [apply lookup_insert_eq|]. by apply Hw.
Qed.

(** The Service the engine sent carries the desired fields. *)
Record sent (gw : Gateway) (service : ServiceBlock) (json : string) (entries : list servicePort)
    (svc : Service) : Prop := {
  se_labels : svcLabels svc = desired_labels gw;
  se_annotations : svcAnnotations svc = desired_annotations gw service json;
  se_owners : svcOwners svc = [gateway_owner gw];
  se_type : svcType svc = sbType service;
  se_policy : svcExternalTrafficPolicy svc = desired_policy service;
  se_selector : svcSelector svc = ∅;
  se_ports : ∃ existing, svcPorts svc = service_port (sbType service) existing <$> entries;
}.

(** The Service is in place: it was up to date, or the server stored what
    was sent. *)
Definition in_place (gw : Gateway) (service : ServiceBlock) (json : string) (entries : list servicePort)
    (svc : Service) : Prop :=
  serviceEqual svc (updated_service svc (desired_service gw service json (svcPorts svc) entries)) = true ∨
  ∃ s, sent gw service json entries s ∧ keeps s svc.

Lemma desired_sent gw service json existing entries :
  sent gw service json entries (desired_service gw service json existing entries).
Proof. split; try done. by exists existing. Qed.

Lemma updated_sent gw service json existing entries svc :
  sent gw service json entries (updated_service svc (desired_service gw service json existing entries)).
Proof. split; try done. by exists existing. Qed.

Lemma ensure_named_Ok w gw name entries service json st address st' :
  ensure_named w gw name entries service json st = (address, Ok tt, st') →
  let key := (omNamespace (gwMeta gw), name) in
  ∃ svc arg st1,
    frServices st1 !! key = Some svc ∧ svcClusterIP arg = address ∧ svcClusterIP svc = address ∧
    in_place gw service json entries svc ∧
    ((frServices st !! key = Some svc ∧ st1 = st) ∨
     (∃ s, sent gw service json entries s ∧ keeps s svc) ∧ st1 = put_service key.1 key.2 svc st) ∧
    ensureEndpointSlice w gw name arg entries st1 = (Ok tt, st').
Proof.
  unfold ensure_named, finish. cbv zeta.
  destruct (getService _ _ _) as [existing|e] eqn:Hg.
  - apply frontend_call_Ok, of_option_Ok in Hg. destruct (serviceEqual _ _) eqn:He.
    + destruct (ensureEndpointSlice _ _ _ _ _ _) as [r st1] eqn:Hs. intros [= Ha -> ->].
      eexists existing, _, st. split_and!; [done|exact Ha|done|by left|by left|exact Hs].
    + destruct (updateService _ _ _ _) as [r st1] eqn:Hu.
      apply updateService_cases in Hu as [(e & -> & ->)|(old & -> & ->)]; [done|].
      destruct (ensureEndpointSlice _ _ _ _ _ _) as [r st2] eqn:Hs. intros [= Ha -> ->].
      pose proof (onUpdate_keeps old (updated_service existing
        (desired_service gw service json (svcPorts existing) entries))) as Hk.
      match type of Hs with ensureEndpointSlice _ _ _ ?svc _ ?st1 = _ => exists svc, svc, st1 end.
      split_and!; [apply lookup_insert_eq|exact Ha|exact Ha| | |exact Hs].
      * right. eexists. split; [apply updated_sent|exact Hk].
      * right. split; [|done]. eexists. split; [apply updated_sent|exact Hk].
  - destruct e; [|done..]. destruct (createService _ _ _ _) as [r st1] eqn:Hc.
    apply createService_cases in Hc as [(e & -> & ->)|(-> & ->)]; [done|].
    destruct (ensureEndpointSlice _ _ _ _ _ _) as [r st2] eqn:Hs. intros [= Ha -> ->].
    pose proof (onCreate_keeps (desired_service gw service json [] entries)) as Hk.
    match type of Hs with ensureEndpointSlice _ _ _ ?svc _ ?st1 = _ => exists svc, svc, st1 end.
    split_and!; [apply lookup_insert_eq|exact Ha|exact Ha| | |exact Hs].
    * right. eexists. split; [apply desired_sent|exact Hk].
    * right. split; [|done]. eexists. split; [apply desired_sent|exact Hk].
Qed.

(** Only the objects of the frontend change. *)
Lemma ensure_named_other w gw name entries service json st :
  let st' := (ensure_named w gw name entries service json st).2 in
  (∀ key, key ≠ (omNamespace (gwMeta gw), name) → frServices st' !! key = frServices st !! key) ∧
  (∀ key, key ≠ (omNamespace (gwMeta gw), name +:+ "-krouter") → frSlices st' !! key = frSlices st !! key).
Proof.
  cbv zeta. unfold ensure_named, finish. cbv zeta.
  assert (Hput : ∀ svc key, key ≠ (omNamespace (gwMeta gw), name) →
      frServices (put_service (omNamespace (gwMeta gw)) name svc st) !! key = frServices st !! key)
    by (intros; cbn; by rewrite lookup_insert_ne).
  assert (Hslice : ∀ arg st1, (∀ key, key ≠ (omNamespace (gwMeta gw), name) → frServices st1 !! key = frServices st !! key) →
      frSlices st1 = frSlices st →
      let '(r, st2) := ensureEndpointSlice w gw name arg entries st1 in
      (∀ key, key ≠ (omNamespace (gwMeta gw), name) → frServices st2 !! key = frServices st !! key) ∧
      (∀ key, key ≠ (omNamespace (gwMeta gw), name +:+ "-krouter") → frSlices st2 !! key = frSlices st !! key)).
  { intros arg st1 H1 H2. destruct (ensureEndpointSlice _ _ _ _ _ _) as [r st2] eqn:He.
    apply ensureEndpointSlice_spec in He as (-> & H3 & _). by rewrite <-H2. }
  destruct (getService _ _ _) as [existing|e].
  - destruct (serviceEqual _ _).
    + specialize (Hslice (updated_service existing (desired_service gw service json (svcPorts existing) entries)) st).
      destruct (ensureEndpointSlice _ _ _ _ _ _). by apply Hslice.
    + destruct (updateService _ _ _ _) as [r st1] eqn:Hu.
      apply updateService_cases in Hu as [(e & -> & ->)|(old & -> & ->)]; [done|].
      match goal with |- context [ensureEndpointSlice _ _ _ ?svc _ ?st1] => specialize (Hslice svc st1) end.
      destruct (ensureEndpointSlice _ _ _ _ _ _). apply Hslice; [apply Hput|done].
  - destruct e; [|done..]. destruct (createService _ _ _ _) as [r st1] eqn:Hc.
    apply createService_cases in Hc as [(e & -> & ->)|(-> & ->)]; [done|].
    match goal with |- context [ensureEndpointSlice _ _ _ ?svc _ ?st1] => specialize (Hslice svc st1) end.
    destruct (ensureEndpointSlice _ _ _ _ _ _). apply Hslice; [apply Hput|done].
Qed.

(** The stored port serves the entry. *)
Definition port_serves (ty : string) (p : servicePort) (q : ServicePort) : Prop :=
  spoName q = ptName p ∧ spoPort q = ptExternal p ∧ spoTargetPort q = FromInt (ptInternal p) ∧
  (ty ≠ ServiceTypeClusterIP → ptNodePort p ≠ 0%Z → spoNodePort q = ptNodePort p).

(** Empty entries of the metadata are the desired ones. *)
Definition clean (gw : Gateway) (service : ServiceBlock) (json : string) (svc : Service) : Prop :=
  (∀ k, svcLabels svc !! k = Some "" → is_Some (desired_labels gw !! k)) ∧
  (∀ k, svcAnnotations svc !! k = Some "" → is_Some (desired_annotations gw service json !! k)).

Lemma service_port_serves ty existing p : port_serves ty p (service_port ty existing p).
Proof.
  unfold port_serves, service_port. simpl. split_and!; [done..|]. intros Ht Hn.
  rewrite bool_decide_false by done. by rewrite (proj2 (Z.eqb_neq _ _) Hn).
Qed.

Lemma in_place_ports gw service json entries svc :
  in_place gw service json entries svc → Forall2 (port_serves (sbType service)) entries (svcPorts svc).
Proof.
  intros [He|(s & [_ _ _ _ _ _ [ex Hports]] & [_ _ _ _ _ _ Kports])].
  - unfold serviceEqual in He. rewrite !andb_true_iff in He. destruct He as [[_ Hports] _].
    unfold servicePortsEqual in Hports. apply andb_true_iff in Hports as [_ Hports].
    apply all_pairs_Forall2 in Hports. cbn [svcPorts updated_service desired_service] in Hports.
    rewrite Forall2_fmap_r in Hports. apply Forall2_flip. eapply list.Forall2_impl; [exact Hports|].
    intros q p H. unfold compose in H. rewrite !andb_true_iff, !bool_decide_eq_true, !Z.eqb_eq in H.
    destruct H as [[[H1 H2] H3] H4]. unfold port_serves. rewrite H1, H2, H3, H4. apply service_port_serves.
  - rewrite Hports, Forall2_fmap_l in Kports. eapply list.Forall2_impl; [exact Kports|].
    intros p q (N & _ & P & T & B). unfold port_serves. rewrite N, P, T. split_and!; [done..|].
    intros Hty Hn. destruct (service_port_serves (sbType service) ex p) as (_ & _ & _ & Hnp).
    rewrite B; [by apply Hnp|]. left. by rewrite Hnp.
Qed.

Lemma in_place_fields gw service json entries svc :
  in_place gw service json entries svc → clean gw service json svc →
  svcLabels svc = desired_labels gw ∧ svcAnnotations svc = desired_annotations gw service json ∧
  svcType svc = sbType service ∧ svcExternalTrafficPolicy svc = desired_policy service.
Proof.
  intros [He|(s & [Hl Ha Ho Ht Hp Hs _] & [Kl Ka _ Kt Kp _ _])] [Cl Ca].
  - unfold serviceEqual in He. rewrite !andb_true_iff in He. destruct He as [[[[[[Hl Ha] Ht] Hp] _] _] _].
    apply publish.equalStringMaps_sub in Hl; [|exact Cl]. apply publish.equalStringMaps_sub in Ha; [|exact Ca].
    by apply bool_decide_eq_true in Ht, Hp.
  - by rewrite Kl, Ka, Kt, Kp.
Qed.

End writes.

(** ** Theorems *)

Lemma elem_of_ready acks e :
  e ∈ ready_endpoints acks ↔
  ∃ name pod, asPods acks !! name = Some pod ∧ paHealthy pod = true ∧ e = endpoint_of pod.
Proof.
  unfold ready_endpoints. rewrite list_elem_of_fmap. split.
  - intros (pod & -> & [Hh (name & Hn & Hp)%list_elem_of_omap]%list_elem_of_filter). eauto 10.
  - intros (name & pod & Hp & Hh & ->). exists pod. split; [done|]. apply list_elem_of_filter. split; [done|].
    apply list_elem_of_omap. exists name. split; [|done]. apply compiled.elem_of_sorted_keys. eauto.
Qed.

(** The objects of a frontend that is in place. *)
Definition fronts (st : Frontends) (gw : Gateway) (address : string) (svc : Service) (slice : EndpointSlice) : Prop :=
  ∃ name, frontendName gw = Some name ∧
    frServices st !! (omNamespace (gwMeta gw), name) = Some svc ∧
    frSlices st !! (omNamespace (gwMeta gw), name +:+ "-krouter") = Some slice ∧ svcClusterIP svc = address.

(** The frontend found, if any, has no empty metadata of its own. *)
Definition frontend_clean (st : Frontends) (gw : Gateway) (service : ServiceBlock) (json : string) : Prop :=
  ∀ name svc, frontendName gw = Some name →
    frServices st !! (omNamespace (gwMeta gw), name) = Some svc → clean gw service json svc.

Section theorems.
Context {api : FrontendAPI}.

Lemma keeps_clean gw service json entries s svc :
  sent gw service json entries s → keeps s svc → clean gw service json svc.
Proof. intros [Hl Ha _ _ _ _ _] [Kl Ka _ _ _ _ _]. split; intros k; rewrite ?Kl, ?Ka, ?Hl, ?Ha; eauto. Qed.

Lemma ensureFrontend_Ok w gw entries service json st address st' :
  ensureFrontend w gw entries service json st = Some (address, Ok tt, st') →
  ∃ svc slice arg name, fronts st' gw address svc slice ∧ frontendName gw = Some name ∧
    in_place gw service json entries svc ∧
    (frServices st !! (omNamespace (gwMeta gw), name) = Some svc ∨
     ∃ s, sent gw service json entries s ∧ keeps s svc) ∧
    serves slice (desired_slice w gw name arg entries) ∧
    (frSlices st !! (omNamespace (gwMeta gw), name +:+ "-krouter") = Some slice ∨
     slice = desired_slice w gw name arg entries).
Proof.
  unfold ensureFrontend. destruct (frontendName gw) as [name|] eqn:Hn; [|done]. intros [= H].
  apply ensure_named_Ok in H as (svc & arg & st1 & Hsvc & _ & Hip & Hpl & Hst & Hs).
  destruct (ensureEndpointSlice_spec _ _ _ _ _ _ _ _ Hs) as (Hsv & _ & Hsl).
  destruct (Hsl eq_refl) as (slice & Hlk & Hserve & _ & Hsrc).
  exists svc, slice, arg, name. split_and!; [|done..| |done|].
  - exists name. rewrite Hsv. done.
  - destruct Hst as [[Hold _]|[? _]]; [by left|by right].
  - by destruct Hst as [[_ ->]|[_ ->]].
Qed.

(** The transport of a listener. *)
Definition transport (l : Listener) : string := if decide (lsProtocol l = "UDP") then "UDP" else "TCP".

(** A port of that name carries the protocol of the listeners it is named
    for. *)
Definition named_for (name protocol : string) : Prop :=
  ∀ l, (0 ≤ lsPort l)%Z → name = port_key l → protocol = transport l.

(** The frontend found, if any, is one this controller wrote as far as the
    fields go that it does not compare: the protocols of the ports, and the
    address type and the Service of the slice. *)
Definition laid_out (st : Frontends) (gw : Gateway) : Prop :=
  ∀ name, frontendName gw = Some name →
    (∀ svc q, frServices st !! (omNamespace (gwMeta gw), name) = Some svc → q ∈ svcPorts svc →
       named_for (spoName q) (spoProtocol q)) ∧
    (∀ slice, frSlices st !! (omNamespace (gwMeta gw), name +:+ "-krouter") = Some slice →
       eslAddressType slice = "IPv4" ∧ eslLabels slice !! LabelServiceName = Some name ∧
       ∀ e n, e ∈ eslPorts slice → epName e = Some n → ∃ proto, epProtocol e = Some proto ∧ named_for n proto).

Lemma port_key_transport (l1 l2 : Listener) :
  (0 ≤ lsPort l1)%Z → (0 ≤ lsPort l2)%Z → port_key l1 = port_key l2 → transport l1 = transport l2.
Proof.
  intros H1 H2 H. unfold port_key in H. apply (sapp_inj "p") in H.
  apply ports.cut_at in H as [_ H]; [|by apply pretty_no_dash..].
  unfold protoSuffix, HTTPSProtocolType, TCPProtocolType, UDPProtocolType in H. unfold transport.
  repeat case_bool_decide; repeat case_decide; simplify_eq/=; congruence.
Qed.

Lemma described_named p l :
  (0 ≤ lsPort (lsSpec l))%Z → describes p l → named_for (ptName p) (ptProtocol p).
Proof.
  intros Hp (Hn & _ & _ & Ht) l' Hp' Hk. rewrite Ht, <-(port_key_transport (lsSpec l) l'); [|done|done|congruence].
  unfold transport. by case_bool_decide; case_decide.
Qed.

(** Ensuring the frontend keeps it so. *)
Lemma laid_out_kept w gw entries service json st address st' :
  ensureFrontend w gw entries service json st = Some (address, Ok tt, st') →
  (∀ p, p ∈ entries → named_for (ptName p) (ptProtocol p)) → laid_out st gw → laid_out st' gw.
Proof.
  intros He Hent Hst name Hn. destruct (Hst name Hn) as [Hsv Hsl].
  destruct (ensureFrontend_Ok _ _ _ _ _ _ _ _ He) as
    (svc & slice & arg & name' & (name'' & Hn'' & Lsv & Lsl & _) & Hn' & _ & Hold & _ & Hsrc).
  rewrite Hn in Hn', Hn''. injection Hn' as <-. injection Hn'' as <-. split.
  - intros svc' q. rewrite Lsv. intros [= <-] Hq. destruct Hold as [Hold|(s & Hs & Hk)]; [by eapply Hsv|].
    destruct (se_ports _ _ _ _ _ Hs) as [ex Hports]. pose proof (ke_ports _ _ Hk) as Kp.
    rewrite Hports, Forall2_fmap_l in Kp. apply list_elem_of_lookup in Hq as [i Hq].
    destruct (Forall2_lookup_r _ _ _ _ _ Kp Hq) as (p & Hp & N & R & _). simpl in N, R. rewrite N, R.
    apply Hent. by eapply list_elem_of_lookup_2.
  - intros slice'. rewrite Lsl. intros [= <-]. destruct Hsrc as [Hold'| ->]; [by apply Hsl|].
    split; [done|]. split.
    + unfold desired_slice. cbn [eslLabels]. rewrite lookup_insert_ne by done. apply lookup_insert_eq.
    + intros e n (p & -> & Hp)%list_elem_of_fmap. cbn [epName epProtocol]. intros [= <-].
      exists (ptProtocol p). split; [done|by apply Hent].
Qed.

Lemma ready_length acks : length (ready_endpoints acks) ≤ size (asPods acks).
Proof.
  assert (Ho : ∀ l, length (omap (λ name, asPods acks !! name) l) ≤ length l).
  { unfold omap. induction l as [|x l IH]; simpl; [done|]. case_match; simpl; lia. }
  unfold ready_endpoints. rewrite length_fmap. etrans; [apply length_filter|]. etrans; [apply Ho|].
  unfold compiled.sorted_keys. by rewrite sliceStable_Permutation, length_fmap, length_map_to_list.
Qed.

(** C17: A frontend that was ensured without an error exposes the Gateway: its
    Service has one port per external port and transport, every valid listener's
    external port leads, over the listener's transport (UDP or TCP), to the
    listener's internal port on the endpoint slice, and the endpoints are
    exactly the healthy pods, ready and with their nodes. The healthy pods have
    IPv4 addresses and number at most a thousand, since the code writes one IPv4
    slice; an existing Service or slice carries the protocols, the address type
    and the service label this controller writes, which its comparisons ignore
    and which every pass keeps. *)
Theorem frontend_reaches_listeners {k8s : Kubernetes} {libs : build.Libraries} w gw sets a ls a' service json
    st address st' :
  ports.allocator_ok a → ports.range_ok a → validateListeners w gw sets a = (ls, a') →
  (∀ l, l ∈ ls → 0 ≤ lsPort (lsSpec l))%Z →
  ensureFrontend w gw (desiredServicePorts ls service) service json st = Some (address, Ok tt, st') →
  laid_out st gw →
  (∀ name pod, asPods (wAcks w) !! name = Some pod → paHealthy pod = true → has_byte ":" (paIP pod) = false) →
  size (asPods (wAcks w)) ≤ 1000 →
  ∃ svc slice, fronts st' gw address svc slice ∧ laid_out st' gw ∧
    NoDup (spoName <$> svcPorts svc) ∧ NoDup ((λ q, (spoPort q, spoProtocol q)) <$> svcPorts svc) ∧
    (∀ l, l ∈ ls → valid l = true → ∃ q e, q ∈ svcPorts svc ∧ e ∈ eslPorts slice ∧
       spoPort q = lsPort (lsSpec l) ∧ spoTargetPort q = FromInt (lsInternalPort l) ∧
       spoProtocol q = transport (lsSpec l) ∧
       epName e = Some (spoName q) ∧ epPort e = Some (lsInternalPort l) ∧
       epProtocol e = Some (transport (lsSpec l))) ∧
    (∀ e, e ∈ eslEndpoints slice ↔ ∃ name pod,
       asPods (wAcks w) !! name = Some pod ∧ paHealthy pod = true ∧
       e = mkEndpoint [paIP pod] (Some (paNodeName pod)) (Some true)) ∧
    (∀ e ip, e ∈ eslEndpoints slice → ip ∈ enAddresses e → has_byte ":" ip = false) ∧
    length (eslEndpoints slice) ≤ 1000.
Proof.
  intros Ha Hr Hv Hpos He Hlay Hip4 Hsize.
  destruct (exposed w gw sets a ls a' service Ha Hr Hv Hpos) as (Hext & Hall & Hsound).
  pose proof (desired_names_NoDup ls service) as Hnames.
  assert (Hnamed : ∀ p, p ∈ desiredServicePorts ls service → named_for (ptName p) (ptProtocol p)).
  { intros p Hp. destruct (Hsound p Hp) as [(l & Hl & _ & Hd) _]. by eapply described_named; [apply Hpos|]. }
  pose proof (laid_out_kept _ _ _ _ _ _ _ _ He Hnamed Hlay) as Hlay'.
  destruct (ensureFrontend_Ok _ _ _ _ _ _ _ _ He) as (svc & slice & arg & name & Hf & Hn & Hip & _ & [Hep Hpo] & _).
  pose proof (in_place_ports _ _ _ _ _ Hip) as Hports.
  assert (Hep' : eslEndpoints slice = ready_endpoints (wAcks w)) by done.
  exists svc, slice. split; [done|]. split; [done|].
  assert (Hmap : ∀ B (f : servicePort → B) (g : ServicePort → B),
      (∀ p q, port_serves (sbType service) p q → g q = f p) → g <$> svcPorts svc = f <$> desiredServicePorts ls service).
  { intros B f g Hfg. clear -Hports Hfg. induction Hports as [|p q ps qs Hpq _ IH]; [done|].
    rewrite !fmap_cons, IH. by rewrite (Hfg p q). }
  destruct Hf as (name' & Hn' & Lsv & Lsl & _). rewrite Hn in Hn'. injection Hn' as <-.
  destruct (Hlay' name Hn) as [Hsvc' Hslice']. destruct (Hslice' slice Lsl) as (_ & _ & Hproto).
  split_and!.
  - by rewrite (Hmap _ ptName spoName) by (intros p q H; apply H).
  - apply (NoDup_fmap_1 fst). rewrite <-list_fmap_compose.
    by rewrite (Hmap _ ptExternal (fst ∘ (λ q, (spoPort q, spoProtocol q)))) by (intros p q H; apply H).
  - intros l Hl Hvl. destruct (Hall l Hl Hvl) as (p & Hp & Hpn & Hx & Hi & _).
    apply list_elem_of_lookup in Hp as Hpi. destruct Hpi as [i Hpi].
    destruct (Forall2_lookup_l _ _ _ _ _ Hports Hpi) as (q & Hq & Qn & Qp & Qt & _).
    apply list_elem_of_lookup_2 in Hq.
    assert (Hin : (Some (ptName p), Some (ptInternal p)) ∈ (λ p, (epName p, epPort p)) <$> eslPorts slice).
    { rewrite Hpo. simpl. rewrite <-list_fmap_compose. apply list_elem_of_fmap. by exists p. }
    apply list_elem_of_fmap in Hin as (e & Ee & Hin). injection Ee as E1 E2.
    destruct (Hproto e (ptName p)) as (proto & Hep1 & Hproto'); [done..|].
    exists q, e. split_and!; [done|done|congruence|congruence| |congruence|congruence|].
    + eapply (Hsvc' svc q); [done..|by apply Hpos|congruence].
    + rewrite Hep1. f_equal. by apply Hproto'; [apply Hpos|].
  - intros e. rewrite Hep'. apply elem_of_ready.
  - intros e ip. rewrite Hep', elem_of_ready. intros (n & pod & Hp & Hh & ->) ->%list_elem_of_singleton. by eapply Hip4.
  - rewrite Hep'. pose proof (ready_length (wAcks w)). lia.
Qed.

(** The frontend Service carries the port map of the Gateway under the label the
    allocator looks for, so a restarted allocator reads from it what was
    persisted. *)
Theorem frontend_persists_ports {json : ports.PortMapJSON} w gw entries service alloc st address st' :
  let uid := omUID (gwMeta gw) in
  ensureFrontend w gw entries service (ports.PortMap alloc uid) st = Some (address, Ok tt, st') →
  frontend_clean st gw service (ports.PortMap alloc uid) →
  ∃ svc slice, fronts st' gw address svc slice ∧
    svcLabels svc !! compiled.LabelManagedBy = Some compiled.ManagedByValue ∧
    ∀ restarted, ports.note_service restarted (ports.mkK8sService (svcLabels svc) (svcAnnotations svc)) =
                 ports.note_service restarted (ports.service_of alloc uid).
Proof.
  cbv zeta. intros He Hc.
  destruct (ensureFrontend_Ok _ _ _ _ _ _ _ _ He) as (svc & slice & arg & name & Hf & Hn & Hip & Hold & _).
  assert (Hcl : clean gw service (ports.PortMap alloc (omUID (gwMeta gw))) svc).
  { destruct Hold as [?|(s & ? & ?)]; [by eapply Hc|by eapply keeps_clean]. }
  destruct (in_place_fields _ _ _ _ _ Hip Hcl) as (Hl & Ha & _).
  assert (Hlk : ∀ k v, compiled.BaseLabels (omUID (gwMeta gw)) !! k = Some v → k ≠ GatewayNameLabel →
      svcLabels svc !! k = Some v).
  { intros k v Hk Hne. rewrite Hl. unfold desired_labels. rewrite lookup_insert_ne by done.
    by apply lookup_union_Some_l. }
  exists svc, slice. split_and!; [done| |].
  - by apply Hlk.
  - intros al. unfold ports.note_service, ports.service_of. cbn [ports.ksLabels ports.ksAnnotations].
    rewrite (Hlk compiled.LabelGatewayUID (omUID (gwMeta gw))) by done.
    rewrite Ha. unfold desired_annotations. by rewrite lookup_insert_eq, !lookup_singleton_eq.
Qed.

(** The ports read back are the ports wanted next time. *)
Lemma ports_settled ty old entries (kept : list ServicePort) :
  NoDup (ptName <$> entries) →
  Forall2 (λ p q, spoName q = spoName p ∧ spoProtocol q = spoProtocol p ∧ spoPort q = spoPort p ∧
    spoTargetPort q = spoTargetPort p ∧
    (spoNodePort p ≠ 0%Z ∨ ty = ServiceTypeClusterIP → spoNodePort q = spoNodePort p))
    (service_port ty old <$> entries) kept →
  service_port ty kept <$> entries = kept.
Proof.
  intros Hnd Hk. rewrite Forall2_fmap_l in Hk. apply list_eq. intros i. rewrite list_lookup_fmap.
  destruct (entries !! i) as [p|] eqn:Hp; simpl.
  2: { symmetry. apply lookup_ge_None. rewrite <-(list.Forall2_length _ _ _ Hk). by apply lookup_ge_None. }
  destruct (Forall2_lookup_l _ _ _ _ _ Hk Hp) as (q & Hq & N & R & P & T & B). simpl in N, R, P, T, B. rewrite Hq. f_equal.
  destruct q as [qn qr qp qt qnp]. simpl in *. subst. unfold service_port. f_equal.
  destruct (decide (ty = ServiceTypeClusterIP)) as [->|Hty].
  { rewrite (bool_decide_true (ServiceTypeClusterIP = _)) in B |- * by done. symmetry. apply B. by right. }
  rewrite (bool_decide_false (ty = _)) in B |- * by done. destruct (Z.eqb_spec (ptNodePort p) 0) as [H0|H0].
  - rewrite (find_nth _ kept i _ Hq); [done|done|]. intros j q Hj Hname.
    destruct (Forall2_lookup_r _ _ _ _ _ Hk Hj) as (p' & Hp' & N' & _). simpl in N'.
    eapply (NoDup_lookup _ _ _ (ptName p) Hnd); rewrite list_lookup_fmap; [rewrite Hp'|by rewrite Hp].
    simpl. f_equal. congruence.
  - symmetry. apply B. by left.
Qed.

Lemma kept_service_equal gw service json entries s svc :
  NoDup (ptName <$> entries) → sent gw service json entries s → keeps s svc →
  serviceEqual svc (updated_service svc (desired_service gw service json (svcPorts svc) entries)) = true.
Proof.
  intros Hnd [Hl Ha Ho Ht Hp Hs [old Hports]] [Kl Ka Ko Kt Kp Ks Kports].
  rewrite Hports, Ht in Kports. apply ports_settled in Kports; [|done].
  unfold serviceEqual, servicePortsEqual, updated_service, desired_service.
  cbn [svcLabels svcAnnotations svcOwners svcType svcExternalTrafficPolicy svcSelector svcPorts].
  rewrite Kports, Kl, Ka, Kt, Kp, Ks, Ko, Hl, Ha, Ht, Hp, Hs, Ho.
  rewrite !publish.equalStringMaps_refl, !bool_decide_eqb_refl, !Nat.eqb_refl, all_pairs_refl; [done|].
  intros x. by rewrite !bool_decide_eqb_refl, !Z.eqb_refl.
Qed.

(** Ensuring a frontend a second time, with nothing changed in between, writes
    nothing. *)
Theorem frontend_settles w gw entries service json st address st' :
  NoDup (ptName <$> entries) →
  ensureFrontend w gw entries service json st = Some (address, Ok tt, st') →
  ∃ address' r, ensureFrontend w gw entries service json st' = Some (address', r, st').
Proof.
  unfold ensureFrontend. destruct (frontendName gw) as [name|] eqn:Hn; [|done]. intros Hnd [= H].
  apply ensure_named_Ok in H as (svc & arg & st1 & Hsvc & _ & _ & Hip & _ & Hs).
  destruct (ensureEndpointSlice_spec _ _ _ _ _ _ _ _ Hs) as (Hsv & _ & Hsl).
  destruct (Hsl eq_refl) as (slice & Hlk & _ & Heq & _).
  assert (He : serviceEqual svc (updated_service svc (desired_service gw service json (svcPorts svc) entries)) = true).
  { destruct Hip as [|(s & ? & ?)]; [done|by eapply kept_service_equal]. }
  unfold ensure_named. cbn [mbind option_bind]. cbv zeta. unfold getService, call.
  destruct (fault GetService _ _); [by eexists _, _|]. rewrite Hsv, Hsvc. cbn [of_option].
  rewrite He. unfold finish, ensureEndpointSlice, getSlice, call. cbv zeta.
  destruct (fault GetSlice _ _); [by eexists _, _|]. rewrite Hlk. cbn [of_option]. rewrite Heq. by eexists _, _.
Qed.

End theorems.

(** ** Examples *)

(** A server that gives every open node port the same number. *)
Definition ex_node_port (ty : string) (p : ServicePort) : ServicePort :=
  if (ty == ServiceTypeClusterIP) || negb (spoNodePort p =? 0)%Z then p
  else mkServicePort (spoName p) (spoProtocol p) (spoPort p) (spoTargetPort p) 30000.

Definition ex_store (s : Service) : Service :=
  mkService "svc-uid" (svcLabels s) (svcAnnotations s) (svcOwners s) (svcType s) "10.96.0.1"
    (svcExternalTrafficPolicy s) (svcLoadBalancerClass s) (svcSelector s)
    (ex_node_port (svcType s) <$> svcPorts s).

Lemma ex_store_keeps s : keeps s (ex_store s).
Proof.
  split; try done. unfold ex_store. cbn [svcPorts svcType]. apply Forall2_fmap_r, Forall_Forall2_diag, list.Forall_forall.
  intros p _. unfold compose, ex_node_port. destruct (decide (svcType s = ServiceTypeClusterIP)) as [Ht|Ht].
  - rewrite bool_decide_true by done. done.
  - rewrite bool_decide_false by done. destruct (Z.eqb_spec (spoNodePort p) 0); simpl; [|done].
    split_and!; try done. by intros [|].
Qed.

#[refine] Instance ex_api : FrontendAPI := {|
  fault _ _ _ := None;
  onCreate := ex_store;
  onUpdate _ := ex_store;
|}.
Proof.
  - apply ex_store_keeps.
  - intros _. apply ex_store_keeps.
Defined.

Definition ex_front_gw : Gateway :=
  mkGateway (mkObjectMeta "infra" "gw" "12345678-abcd" 100 1 ∅) "krouter" (gwListeners ex_listener_gw) []
    (Some (mkInfrastructure {[ compiled.LabelManagedBy := "me" ]} {[ "note" := "" ]} None))
    (gwTLS ex_listener_gw) None.

Definition ex_pods : AckState :=
  mkAckState (list_to_map [("a", mkPodAck true "10.1.0.1" "192.0.2.1" "n1" ∅);
                           ("b", mkPodAck false "10.1.0.2" "192.0.2.2" "n2" ∅)]).

Definition ex_front_world : world :=
  mkWorld [] [] [] [] [] [] [] [ex_grant] ∅ [] [] [] ∅ ∅ [] [] []
    (λ _ _, Err "none") (λ _ _, Err "none") ex_pods "v1.6.0".

Definition ex_front_listeners : list listenerState * ports.portAllocator :=
  let k8s := ex_cluster in let libs := build.ex_libs in
  validateListeners ex_front_world ex_front_gw [] ports.ex_allocator.

Definition ex_service : ServiceBlock := ServiceParams ex_parsed.

Definition ex_port_map : string := @ports.PortMap ports.ex_json ex_front_listeners.2 "12345678-abcd".

Definition ex_ensure (st : Frontends) : option (string * result Error unit * Frontends) :=
  ensureFrontend ex_front_world ex_front_gw (desiredServicePorts ex_front_listeners.1 ex_service) ex_service
    ex_port_map st.

Definition ex_frontends : Frontends :=
  match ex_ensure (mkFrontends ∅ ∅) with Some (_, _, st) => st | None => mkFrontends ∅ ∅ end.

Example ex_frontend_created :
  ex_ensure (mkFrontends ∅ ∅) = Some ("10.96.0.1", Ok tt, ex_frontends) ∧
  (λ s, (λ q, (spoName q, spoPort q, spoTargetPort q, spoNodePort q)) <$> svcPorts s) <$>
    frServices ex_frontends !! ("infra", "krouter-gw-12345678") = Some [("p443-https", 443, FromInt 10000, 30000)]%Z ∧
  (λ s, enAddresses <$> eslEndpoints s) <$>
    frSlices ex_frontends !! ("infra", "krouter-gw-12345678-krouter") = Some [["10.1.0.1"]].
Proof. vm_compute. done. Qed.

Lemma ex_ensured : ex_ensure (mkFrontends ∅ ∅) = Some ("10.96.0.1", Ok tt, ex_frontends).
Proof. vm_compute. reflexivity. Qed.

Lemma frontend_reaches_listeners_witness :
  ∃ svc slice, fronts ex_frontends ex_front_gw "10.96.0.1" svc slice ∧
    NoDup ((λ q, (spoPort q, spoProtocol q)) <$> svcPorts svc).
Proof.
  destruct (@frontend_reaches_listeners ex_api ex_cluster build.ex_libs ex_front_world ex_front_gw []
    ports.ex_allocator ex_front_listeners.1 ex_front_listeners.2 ex_service
    ex_port_map (mkFrontends ∅ ∅) "10.96.0.1" ex_frontends)
    as (svc & slice & Hf & _ & _ & Hp & _).
  - apply ex_pool_ok.
  - apply ex_pool_ok.
  - apply surjective_pairing.
  - apply list.Forall_forall. vm_compute. repeat constructor; discriminate.
  - exact ex_ensured.
  - intros name _. split; simpl; intros *; by rewrite lookup_empty.
  - intros name pod Hp%elem_of_map_to_list%list_elem_of_In Hh. vm_compute in Hp.
    destruct Hp as [Hp|[Hp|[]]]; injection Hp as <- <-; [reflexivity|discriminate Hh].
  - apply Nat.leb_le. vm_compute. reflexivity.
  - exists svc, slice. split; [exact Hf|exact Hp].
Defined.

Lemma frontend_persists_ports_witness :
  ∃ svc slice, fronts ex_frontends ex_front_gw "10.96.0.1" svc slice ∧
    svcLabels svc !! compiled.LabelManagedBy = Some compiled.ManagedByValue.
Proof.
  destruct (@frontend_persists_ports ex_api ports.ex_json ex_front_world ex_front_gw
    (desiredServicePorts ex_front_listeners.1 ex_service) ex_service ex_front_listeners.2 (mkFrontends ∅ ∅)
    "10.96.0.1" ex_frontends ex_ensured) as (svc & slice & Hf & Hl & _).
  - intros name svc _. simpl. by rewrite lookup_empty.
  - exists svc, slice. done.
Defined.

Lemma frontend_settles_witness : ∃ address r, ex_ensure ex_frontends = Some (address, r, ex_frontends).
Proof.
  apply (@frontend_settles ex_api ex_front_world ex_front_gw
    (desiredServicePorts ex_front_listeners.1 ex_service) ex_service
    ex_port_map (mkFrontends ∅ ∅) "10.96.0.1" ex_frontends).
  - apply desired_names_NoDup.
  - exact ex_ensured.
Defined.

End frontend.
