(* ===== verification/Topology.v ===== *)
(** * The topology projection

    Models [internal/lib/k8s/gatewayapi/topology.go]: what one pass of the
    engine shows of its Gateways, routes and backends, sorted and stamped
    with a content revision.

    The manifests shown beside each object and the JSON of the projection
    are parameters; so is the order in which Go visits the map of routes. *)

From S2P Require Import Prelude GoStrings Sha256 Compiled Build GatewayTypes Listeners Status.
From stdpp Require Import options.

#[local] Open Scope nat_scope.

Module topology.
Import gatewayv1 gatewayapi listeners status.

Record ListenerInfo := mkListenerInfo {
  liName : string;
  liPort : Z;
  liProtocol : string;
  liHostname : string;
  liInternalPort : Z;
  liValid : bool;
  liReason : string;
  liAttachedRoutes : Z;
}.

Record GatewayInfo := mkGatewayInfo {
  gnNamespace : string;
  gnName : string;
  gnUID : string;
  gnClass : string;
  gnAddress : string;
  gnGeneration : string;
  gnAccepted : bool;
  gnAcceptedReason : string;
  gnProgrammed : bool;
  gnProgrammedReason : string;
  gnYAML : string;
  gnListeners : list ListenerInfo;
}.

Record RouteParentInfo := mkRouteParentInfo {
  rnGatewayNamespace : string;
  rnGatewayName : string;
  rnGatewayUID : string;
  rnAccepted : bool;
  rnReason : string;
  rnRefsResolved : bool;
  rnRefsReason : string;
  rnRules : list compiled.Rule;
}.

Record RouteInfo := mkRouteInfo {
  riKind : string;
  riNamespace : string;
  riName : string;
  riUID : string;
  riHostnames : list string;
  riYAML : string;
  riParents : list RouteParentInfo;
}.

Record Topology := mkTopology {
  tpRevision : string;
  tpGateways : list GatewayInfo;
  tpRoutes : list RouteInfo;
  tpBackends : gmap string string;
}.

Definition EmptyTopology : Topology := mkTopology "empty" [] [] ∅.

Record topologyBuilder := mkBuilder {
  tbGateways : list GatewayInfo;
  tbRoutes : gmap string RouteInfo;
  tbServices : gmap string corev1.Service;
  tbBackends : gmap string string;
}.

Definition newTopologyBuilder (services : gmap string corev1.Service) : topologyBuilder :=
  mkBuilder [] ∅ services ∅.

(** [objectYAML] of each kind of object, [json.Marshal] of a topology, which
    leaves the manifests, the backends and, at the time of the call, the
    revision out, and the order of the map of routes. *)
Class Rendering := {
  gatewayYAML : Gateway → string;
  routeYAML : AttachedRoute → string;
  serviceYAML : corev1.Service → string;
  marshalTopology : list GatewayInfo → list RouteInfo → option string;
  visit : gmap string RouteInfo → list RouteInfo;
  visit_perm : ∀ m, visit m ≡ₚ (map_to_list m).*2;
}.

Section topology.
Context {rendering : Rendering} {srt : GoSort}.

Definition listener_info (l : listenerState) : ListenerInfo :=
  mkListenerInfo (lsName (lsSpec l)) (lsPort (lsSpec l)) (lsProtocol (lsSpec l))
    (default "" (lsHostname (lsSpec l))) (lsInternalPort l) (valid l)
    (if lsAccepted l && negb (lsRefsResolved l) then lsRefsReason l else lsAcceptedReason l)
    (lsAttachedRoutes l).

Definition gateway_info (gw : Gateway) (input : gatewayStatusInput) (generation : string) : GatewayInfo :=
  let meta := gwMeta gw in
  mkGatewayInfo (omNamespace meta) (omName meta) (omUID meta) (gwClassName gw) (giAddress input) generation
    (conditionTrue (giAccepted input)) (cdReason (giAccepted input))
    (conditionTrue (giProgrammed input)) (cdReason (giProgrammed input))
    (gatewayYAML gw) (listener_info <$> giListeners input).

Definition addGateway (gw : Gateway) (input : gatewayStatusInput) (generation : string) (b : topologyBuilder) :
    topologyBuilder :=
  mkBuilder (tbGateways b ++ [gateway_info gw input generation]) (tbRoutes b) (tbServices b) (tbBackends b).

Definition route_hostnames (route : AttachedRoute) : list string :=
  match route with
  | AttachedGRPC r => gpHostnames r
  | AttachedTLS r => l4Hostnames r
  | AttachedHTTP r => htHostnames r
  | AttachedTCP _ | AttachedUDP _ => []
  end.

Definition new_route_info (o : routeParentOutcome) : RouteInfo :=
  let meta := routeMeta o in
  mkRouteInfo (routeKind o) (omNamespace meta) (omName meta) (omUID meta) (route_hostnames (roRoute o))
    (routeYAML (roRoute o)) [].

Definition parent_info (gw : Gateway) (o : routeParentOutcome) : RouteParentInfo :=
  mkRouteParentInfo (omNamespace (gwMeta gw)) (omName (gwMeta gw)) (omUID (gwMeta gw))
    (roAccepted o) (roAcceptedReason o) (roRefsResolved o) (roRefsReason o)
    (default [] (compiled.rcRules <$> roConfig o)).

Definition with_parent (p : RouteParentInfo) (r : RouteInfo) : RouteInfo :=
  mkRouteInfo (riKind r) (riNamespace r) (riName r) (riUID r) (riHostnames r) (riYAML r) (riParents r ++ [p]).

(** The manifest of a backend's Service, empty when it is missing; the first
    one stays. *)
Definition add_backend (services : gmap string corev1.Service) (backends : gmap string string)
    (backend : compiled.Backend) : gmap string string :=
  let key := nsName (compiled.bNamespace backend) (compiled.bName backend) in
  match backends !! key with
  | Some _ => backends
  | None => <[key := match services !! key with Some svc => serviceYAML svc | None => "" end]> backends
  end.

Definition addRouteParent (gw : Gateway) (o : routeParentOutcome) (b : topologyBuilder) : topologyBuilder :=
  let key := outcomeKey (routeKind o) (omNamespace (routeMeta o)) (omName (routeMeta o)) in
  let info := default (new_route_info o) (tbRoutes b !! key) in
  let parent := parent_info gw o in
  mkBuilder (tbGateways b) (<[key := with_parent parent info]> (tbRoutes b)) (tbServices b)
    (fold_left (add_backend (tbServices b)) (rnRules parent ≫= compiled.ruBackends) (tbBackends b)).

Definition gateway_before (a z : GatewayInfo) : bool :=
  sless (nsName (gnNamespace a) (gnName a)) (nsName (gnNamespace z) (gnName z)).
Definition route_before (a z : RouteInfo) : bool :=
  sless (nsName (riNamespace a) (riName a)) (nsName (riNamespace z) (riName z)).

Definition finish (b : topologyBuilder) : Topology :=
  let gateways := sortSlice gateway_before (tbGateways b) in
  let routes := sortSlice route_before (visit (tbRoutes b)) in
  mkTopology (match marshalTopology gateways routes with
              | Some payload => compiled.ChecksumBytes payload
              | None => "unknown"
              end) gateways routes (tbBackends b).

End topology.

(** ** Lemmas *)

(** Distinct keys have one sorted order. *)
Lemma sorted_by_unique {A} (key : A → string) (l1 l2 : list A) :
  let less a b := sless (key a) (key b) in
  sorted_by less l1 → sorted_by less l2 → l1 ≡ₚ l2 → NoDup (key <$> l1) → l1 = l2.
Proof.
  cbv zeta. intros H1 H2 Hp Hnd. eapply StronglySorted_unique_strong; [|exact H1|exact H2|exact Hp].
  intros x y Hx Hy Hxy Hyx. rewrite <-Hp in Hy.
  assert (Hk : key x = key y) by (destruct (sless_trichotomy (key x) (key y)) as [?|[?|?]]; congruence).
  apply list_elem_of_lookup in Hx as [i Hi], Hy as [j Hj].
  assert (i = j); [|congruence].
  eapply (NoDup_lookup _ _ _ (key x) Hnd); rewrite list_lookup_fmap; [by rewrite Hi|by rewrite Hj, Hk].
Qed.

Definition gateway_key (g : GatewayInfo) : string := nsName (gnNamespace g) (gnName g).
Definition route_key (r : RouteInfo) : string := nsName (riNamespace r) (riName r).

#[global] Instance gateway_before_strict : StrictWeak gateway_before.
Proof. apply (strict_weak_proj gateway_key sless). apply _. Qed.
#[global] Instance route_before_strict : StrictWeak route_before.
Proof. apply (strict_weak_proj route_key sless). apply _. Qed.

(** One attachment of a pass. *)
Definition Attachment : Type := Gateway * routeParentOutcome.
Definition attachment_key (a : Attachment) : string :=
  outcomeKey (routeKind a.2) (omNamespace (routeMeta a.2)) (omName (routeMeta a.2)).

Section lemmas.
Context {rendering : Rendering}.

Definition add_attachments (os : list Attachment) (b : topologyBuilder) : topologyBuilder :=
  fold_left (λ b a, addRouteParent a.1 a.2 b) os b.

Definition parents_of (key : string) (os : list Attachment) : list RouteParentInfo :=
  (λ a : Attachment, parent_info a.1 a.2) <$> filter (λ a, attachment_key a = key) os.

Definition extend (r : RouteInfo) (ps : list RouteParentInfo) : RouteInfo :=
  mkRouteInfo (riKind r) (riNamespace r) (riName r) (riUID r) (riHostnames r) (riYAML r) (riParents r ++ ps).

Lemma add_attachments_routes os b key :
  tbRoutes (add_attachments os b) !! key =
    match tbRoutes b !! key with
    | Some r => Some (extend r (parents_of key os))
    | None => match filter (λ a, attachment_key a = key) os with
              | [] => None
              | a :: _ => Some (extend (new_route_info a.2) (parents_of key os))
              end
    end.
Proof.
  unfold parents_of. revert b. induction os as [|a os IH]; intros b; cbn [add_attachments fold_left].
  { destruct (tbRoutes b !! key) as [[]|]; [|done]. unfold extend. simpl. by rewrite app_nil_r. }
  fold (add_attachments os (addRouteParent a.1 a.2 b)). rewrite IH. cbn [tbRoutes addRouteParent].
  fold (attachment_key a). rewrite list.filter_cons. case_decide as Hk.
  - rewrite Hk, lookup_insert_eq, fmap_cons. destruct (tbRoutes b !! key) as [r|]; cbn [default from_option id].
    + unfold extend, with_parent. simpl. by rewrite <-(assoc_L app).
    + done.
  - by rewrite lookup_insert_ne.
Qed.

Lemma add_backends_lookup services bs backends key :
  fold_left (add_backend services) bs backends !! key =
    match backends !! key with
    | Some y => Some y
    | None => if bool_decide (Exists (λ b, nsName (compiled.bNamespace b) (compiled.bName b) = key) bs)
              then Some (match services !! key with Some svc => serviceYAML svc | None => "" end) else None
    end.
Proof.
  revert backends. induction bs as [|b bs IH]; intros backends; cbn [fold_left].
  { rewrite bool_decide_false by (by inversion 1). by destruct (backends !! key). }
  rewrite IH. unfold add_backend.
  destruct (decide (nsName (compiled.bNamespace b) (compiled.bName b) = key)) as [Hk|Hk].
  - rewrite Hk. destruct (backends !! key) as [y|] eqn:Hb; [by rewrite Hb|].
    rewrite lookup_insert_eq, bool_decide_true by by left. done.
  - assert (Hl : match backends !! nsName (compiled.bNamespace b) (compiled.bName b) with
        | Some _ => backends | None => <[nsName (compiled.bNamespace b) (compiled.bName b) :=
            match services !! nsName (compiled.bNamespace b) (compiled.bName b) with
            | Some svc => serviceYAML svc | None => "" end]> backends end !! key = backends !! key)
      by (destruct (backends !! _); [done|by rewrite lookup_insert_ne]).
    rewrite Hl. destruct (backends !! key); [done|].
    rewrite (bool_decide_ext _ (Exists (λ b, nsName (compiled.bNamespace b) (compiled.bName b) = key) (b :: bs)));
      [done|]. rewrite Exists_cons. tauto.
Qed.

End lemmas.

(** ** Theorems *)

(** The topology holds every reconciled Gateway and, once per route, every
    attachment outcome of that route in order. *)
Theorem topology_shows_attachments {rendering : Rendering} {srt : GoSort} services gateways os :
  let b := add_attachments os (newTopologyBuilder services) in
  let topo := finish (mkBuilder gateways (tbRoutes b) (tbServices b) (tbBackends b)) in
  tpGateways topo ≡ₚ gateways ∧
  (∀ a, a ∈ os → ∃ r, r ∈ tpRoutes topo ∧ outcomeKey (riKind r) (riNamespace r) (riName r) = attachment_key a ∧
     riParents r = parents_of (attachment_key a) os) ∧
  (∀ r, r ∈ tpRoutes topo → ∃ a, a ∈ os ∧ r = extend (new_route_info a.2) (parents_of (attachment_key a) os)) ∧
  NoDup ((λ r, outcomeKey (riKind r) (riNamespace r) (riName r)) <$> tpRoutes topo).
Proof.
  cbv zeta. set (b := add_attachments os (newTopologyBuilder services)).
  unfold finish. cbn [tpGateways tpRoutes tbGateways tbRoutes].
  assert (Hr : ∀ key, tbRoutes b !! key = match filter (λ a, attachment_key a = key) os with
      | [] => None | a :: _ => Some (extend (new_route_info a.2) (parents_of key os)) end).
  { intros key. unfold b. rewrite add_attachments_routes. cbn [newTopologyBuilder tbRoutes]. by rewrite lookup_empty. }
  assert (Hkey : ∀ key r, tbRoutes b !! key = Some r → ∃ a, a ∈ os ∧ attachment_key a = key ∧
      r = extend (new_route_info a.2) (parents_of key os)).
  { intros key r. rewrite Hr. destruct (filter _ _) as [|a l] eqn:Hf; [done|]. intros [= <-].
    assert (Ha : a ∈ filter (λ a, attachment_key a = key) os) by (rewrite Hf; left).
    apply list_elem_of_filter in Ha as [? ?]. exists a. done. }
  split_and!.
  - apply sortSlice_Permutation.
  - intros a Ha. assert (Hf : a ∈ filter (λ x, attachment_key x = attachment_key a) os)
      by (by apply list_elem_of_filter).
    specialize (Hr (attachment_key a)).
    destruct (filter (λ x, attachment_key x = attachment_key a) os) as [|a0 l] eqn:He; [by apply elem_of_nil in Hf|].
    eexists. split; [|split].
    + rewrite sortSlice_Permutation, visit_perm. apply list_elem_of_fmap. eexists (_, _). split; [|by apply elem_of_map_to_list, Hr].
      reflexivity.
    + assert (Ha0 : a0 ∈ filter (λ x, attachment_key x = attachment_key a) os) by (rewrite He; left).
      apply list_elem_of_filter in Ha0 as [Hk _]. exact Hk.
    + done.
  - intros r Hin. rewrite sortSlice_Permutation, visit_perm in Hin.
    apply list_elem_of_fmap in Hin as ([key r'] & -> & Hin). apply elem_of_map_to_list in Hin.
    apply Hkey in Hin as (a & Ha & <- & ->). by exists a.
  - rewrite sortSlice_Permutation, visit_perm. rewrite <-list_fmap_compose.
    rewrite (list_fmap_ext _ fst); [apply NoDup_fst_map_to_list|].
    intros i [key r] Hi. apply list_elem_of_lookup_2, elem_of_map_to_list, Hkey in Hi as (a & _ & <- & ->). done.
Qed.

(** When routes and gateways are told apart by namespace and name, the topology
    depends neither on the order of the map it is built from nor on the sort. *)
Theorem topology_deterministic (r1 r2 : Rendering) (s1 s2 : GoSort) b :
  @marshalTopology r1 = @marshalTopology r2 →
  NoDup (gateway_key <$> tbGateways b) → NoDup (route_key <$> (map_to_list (tbRoutes b)).*2) →
  @finish r1 s1 b = @finish r2 s2 b.
Proof.
  intros Hm Hg Hr. unfold finish. rewrite Hm.
  assert (Eg : @sortSlice s1 _ gateway_before (tbGateways b) = @sortSlice s2 _ gateway_before (tbGateways b)).
  { apply (sorted_by_unique gateway_key).
    - apply (@sortSlice_sorted s1). apply _.
    - apply (@sortSlice_sorted s2). apply _.
    - by rewrite !sortSlice_Permutation.
    - by rewrite sortSlice_Permutation. }
  assert (Er : @sortSlice s1 _ route_before (@visit r1 (tbRoutes b)) = @sortSlice s2 _ route_before (@visit r2 (tbRoutes b))).
  { apply (sorted_by_unique route_key).
    - apply (@sortSlice_sorted s1). apply _.
    - apply (@sortSlice_sorted s2). apply _.
    - by rewrite !sortSlice_Permutation, !visit_perm.
    - by rewrite sortSlice_Permutation, visit_perm. }
  by rewrite Eg, Er.
Qed.

(** ** Examples *)

Definition ex_marshal (gateways : list GatewayInfo) (routes : list RouteInfo) : option string :=
  Some (foldr (λ r t, riKind r +:+ " " +:+ t) "" routes).

#[refine] Instance ex_forward : Rendering := {|
  gatewayYAML _ := ""; routeYAML _ := ""; serviceYAML _ := ""; marshalTopology := ex_marshal;
  visit m := (map_to_list m).*2;
|}.
Proof. done. Defined.

#[refine] Instance ex_backward : Rendering := {|
  gatewayYAML _ := ""; routeYAML _ := ""; serviceYAML _ := ""; marshalTopology := ex_marshal;
  visit m := reverse (map_to_list m).*2;
|}.
Proof. intros m. apply reverse_Permutation. Defined.

Definition ex_shown (kind name : string) : RouteInfo := mkRouteInfo kind "shop" name "u" [] "" [].

Definition ex_builder (other : string) : topologyBuilder :=
  mkBuilder [] (list_to_map [("HTTPRoute:shop/web", ex_shown "HTTPRoute" "web");
                             ("GRPCRoute:shop/" +:+ other, ex_shown "GRPCRoute" other)]) ∅ ∅.

Lemma topology_deterministic_witness :
  @finish ex_forward stable_GoSort (ex_builder "api") = @finish ex_backward stable_GoSort (ex_builder "api").
Proof.
  apply topology_deterministic.
  - reflexivity.
  - apply (bool_decide_unpack _). vm_compute. exact I.
  - apply (bool_decide_unpack _). vm_compute. exact I.
Defined.

(** Routes of different kinds may share a name: their order, hence the
    revision, follows the order in which the map was visited. *)
Example same_name_flips_revision :
  tpRevision (@finish ex_forward stable_GoSort (ex_builder "web")) ≠
  tpRevision (@finish ex_backward stable_GoSort (ex_builder "web")).
Proof. vm_compute. discriminate. Qed.

End topology.
