(* ===== verification/Engine.v ===== *)
(** * The reconciliation engine

    Models [internal/lib/k8s/gatewayapi/engine.go]: the snapshot of the
    cluster, the parameters of a Gateway, the reconciliation of one Gateway
    and the pass over all of them, composed from the components of the
    control plane.  The state of a pass gathers what they write: generated
    objects, frontends, statuses, port assignments, attachment outcomes and
    the topology.  [None] is the panic of a Gateway whose UID is too short
    to name its frontend. *)

From S2P Require Import Prelude GoStrings NetIP Compiled Build Ports GatewayTypes References Listeners BackendTLS.
From S2P Require Import AuthDoc Extensions Compile Attach Params Publish Status Frontend Topology.
From stdpp Require Import options.

#[local] Open Scope nat_scope.

Module engine.
Import gatewayv1 gatewayapi references listeners backendtls attach hclparams publish status topology.

(** [config.Settings], as the engine reads it. *)
Record Settings := mkSettings {
  seControllerName : string;
  seInternalPortMin : Z;
  seInternalPortMax : Z;
}.

(** The order in which Go visits a set of names and the outcomes, and the
    default parameters, which decode. *)
Class EngineOrder {hcl : ParamsHCL} := {
  visitNames : gset string → list string;
  visitNames_elem : ∀ s x, x ∈ visitNames s ↔ x ∈ s;
  visitOutcomes : gmap string (list routeParentOutcome) → list (list routeParentOutcome);
  visitOutcomes_perm : ∀ m, visitOutcomes m ≡ₚ (map_to_list m).*2;
  decode_default : decodeInfra default_source = Ok (mkInfraParams 1 None None);
}.

(** ** Parameters *)

Section params.
Context {k8s : Kubernetes} {params : ParamsHCL} {texts : StatusTexts} {order : EngineOrder}.

Definition paramErrorText (e : ParamError) : string :=
  match e with
  | DecodeFailed message => message
  | hclparams.UnsupportedVersion version => "unsupported version " +:+ pretty version
  | UnsupportedAlgorithm algorithm => "unsupported load_balancing algorithm " +:+ quoted algorithm
  | UnsupportedServiceType ty => "unsupported service type " +:+ quoted ty
  | UnsupportedTrafficPolicy policy => "unsupported external_traffic_policy " +:+ quoted policy
  | InvalidTrustedProxiesEntry cidr => "invalid trusted_proxies entry " +:+ quoted cidr
  | UnnamedProxyListener => "proxy_protocol listeners must be named"
  | ProxyProtocolWithoutTrust => "proxy_protocol requires trusted_proxies"
  end.

(** The error is ignored: the default source decodes. *)
Definition default_params : InfraParams :=
  match ParseInfra default_source with Ok p => p | Err _ => mkInfraParams 0 None None end.

Definition loadInfraParams (gw : Gateway) : result string InfraParams :=
  match gwInfrastructure gw ≫= giParametersRef with
  | None => Ok default_params
  | Some ref =>
      if (lrKind ref != "ConfigMap") || (lrGroup ref != "")
      then Err "parametersRef must target a core ConfigMap"
      else match getConfigMap (omNamespace (gwMeta gw)) (lrName ref) with
           | Err _ => Err ("parameters ConfigMap " +:+ quoted (lrName ref) +:+ " not found")
           | Ok cm =>
               match corev1.cmData cm !! "krouter.hcl" with
               | None => Err ("parameters ConfigMap " +:+ quoted (lrName ref) +:+ " has no krouter.hcl key")
               | Some src => map_err (λ e, "invalid parameters: " +:+ paramErrorText e) (ParseInfra src)
               end
           end
  end.

Definition declared_listeners (gw : Gateway) : gmap string Listener :=
  fold_left (λ m l, <[lsName l := l]> m) (gwListeners gw) ∅.

Definition check_proxy_name (declared : gmap string Listener) (_ : unit) (name : string) : result string unit :=
  match declared !! name with
  | None => Err ("proxy_protocol names unknown listener " +:+ quoted name)
  | Some l => guard_err (lsProtocol l != UDPProtocolType) ("proxy_protocol names UDP listener " +:+ quoted name)
  end.

Definition proxy_group (l : Listener) : string := pretty (lsPort l) +:+ "/" +:+ lsProtocol l.

Definition check_proxy_group (required : gset string) (groups : gmap string bool) (l : Listener) :
    result string (gmap string bool) :=
  let wanted := bool_decide (lsName l ∈ required) in
  if match groups !! proxy_group l with Some seen => negb (eqb seen wanted) | None => false end
  then Err ("listeners sharing port " +:+ pretty (lsPort l) +:+ " disagree on proxy_protocol")
  else Ok (<[proxy_group l := wanted]> groups).

Definition validateProxyProtocol (gw : Gateway) (infra : InfraParams) : result string unit :=
  let required : gset string := list_to_set (ProxyListeners infra) in
  if (size required =? 0) then Ok tt
  else
    _ ← foldM (check_proxy_name (declared_listeners gw)) tt (visitNames required);
    _ ← foldM (check_proxy_group required) ∅ (gwListeners gw);
    Ok tt.

Definition gateway_params (gw : Gateway) : result string InfraParams :=
  infra ← loadInfraParams gw; _ ← validateProxyProtocol gw infra; Ok infra.

End params.

(** ** The snapshot *)

(** The lists of the API server at the start of a pass, and the annotations
    of the Gateway CRD. *)
Class ClusterLists := {
  listClasses : result ApiError (list GatewayClass);
  listGateways : result ApiError (list Gateway);
  listHTTPRoutes : result ApiError (list HTTPRoute);
  listGRPCRoutes : result ApiError (list GRPCRoute);
  listTCPRoutes : result ApiError (list L4Route);
  listTLSRoutes : result ApiError (list L4Route);
  listUDPRoutes : result ApiError (list L4Route);
  listBackendTLSPolicies : result ApiError (list BackendTLSPolicy);
  listListenerSets : result ApiError (list ListenerSet);
  listGrants : result ApiError (list ReferenceGrant);
  listNamespaces : result ApiError (list (string * gmap string string));
  listServices : result ApiError (list corev1.Service);
  listGeneratedCMs : result ApiError (list corev1.ConfigMap);
  listGeneratedSecrets : result ApiError (list corev1.Secret);
  gatewayCRD : result ApiError (gmap string string);
}.

(** Lists of kinds that may not be installed. *)
Definition if_installed {A} (r : result ApiError (list A)) : result ApiError (list A) :=
  match r with Err publish.NotFound => Ok [] | r => r end.

Section gather.
Context {k8s : Kubernetes} {lists : ClusterLists}.

(** The version, and what the engine caches of it. *)
Definition bundleVersion (cached : string) : string :=
  if (cached != "") then cached
  else match gatewayCRD with
       | Err _ => ""
       | Ok annotations => build.at_key annotations "gateway.networking.k8s.io/bundle-version"
       end.

Definition service_key (s : corev1.Service) : string :=
  nsName (omNamespace (corev1.svMeta s)) (omName (corev1.svMeta s)).

Definition gatherWorld (acks : AckState) (cached : string) : result ApiError world :=
  classes ← listClasses;
  gateways ← listGateways;
  routes ← listHTTPRoutes;
  grpcRoutes ← listGRPCRoutes;
  tcpRoutes ← if_installed listTCPRoutes;
  tlsRoutes ← if_installed listTLSRoutes;
  udpRoutes ← if_installed listUDPRoutes;
  policies ← if_installed listBackendTLSPolicies;
  sets ← if_installed listListenerSets;
  grants ← listGrants;
  namespaces ← listNamespaces;
  services ← listServices;
  cms ← listGeneratedCMs;
  secrets ← listGeneratedSecrets;
  Ok (mkWorld classes gateways routes grpcRoutes tcpRoutes tlsRoutes udpRoutes grants
        (fold_left (λ m ns, <[ns.1 := ns.2]> m) namespaces ∅) sets policies [] ∅
        (fold_left (λ m s, <[service_key s := s]> m) services ∅)
        (filter (λ s, build.at_key (omLabels (corev1.svMeta s)) compiled.LabelManagedBy = compiled.ManagedByValue)
           services)
        cms secrets getConfigMap getSecret acks (bundleVersion cached)).

End gather.

(** ** One Gateway *)

Record Pass := mkPass {
  enStore : Store;
  enFronts : frontend.Frontends;
  enStatuses : Statuses;
  enAllocator : ports.portAllocator;
  enOutcomes : gmap string (list routeParentOutcome);
  enTopology : topologyBuilder;
}.

Section engine.
Context {k8s : Kubernetes} {libs : build.Libraries} {srt : GoSort} {hcl : authdoc.HCL}.
Context {enc : extensions.Encoding} {params : ParamsHCL} {env : Environment} {api : frontend.FrontendAPI}.
Context {texts : StatusTexts} {server : StatusServer} {rendering : Rendering} {json : ports.PortMapJSON}.
Context {order : EngineOrder}.

Definition record_outcome (gw : Gateway) (acc : gmap string (list routeParentOutcome) * topologyBuilder)
    (o : routeParentOutcome) : gmap string (list routeParentOutcome) * topologyBuilder :=
  let key := outcomeKey (routeKind o) (omNamespace (routeMeta o)) (omName (routeMeta o)) in
  (<[key := default [] (acc.1 !! key) ++ [o]]> acc.1, addRouteParent gw o acc.2).

Definition resolved_refs (gw : Gateway) (cert : backendClientCert) : Condition :=
  condition "ResolvedRefs" (boolStatus (ccResolved cert)) (ccReason cert) (ccMessage cert)
    (omGeneration (gwMeta gw)).

Definition valid_count (ls : list listenerState) : Z := Z.of_nat (length (filter (λ l, valid l = true) ls)).
Definition invalid_own_count (ls : list listenerState) : Z :=
  Z.of_nat (length (filter (λ l, valid l = false ∧ lsSet l = None) ls)).

(** The accepted sets with a valid listener, counted in an [int32]. *)
Definition attached_sets (sets : list listenerSetState) (ls : list listenerState) : Z :=
  fold_left (λ n set,
    if ssAccepted set && existsb (λ l, owned_by (ssSet set) l && valid l) ls then int32_wrap (n + 1) else n)
    sets 0%Z.

Definition insecure (ls : list listenerState) : bool :=
  existsb (λ l, lsClientCAMode l == "AllowInsecureFallback") ls.

(** The report of a Gateway that is not served. *)
Definition refused_input (gw : Gateway) (paramsErr : option string) (addresses : gatewayAddresses)
    (cert : backendClientCert) : gatewayStatusInput :=
  let '(accepted, programmed) := gatewayConditions gw paramsErr addresses false 0 0 in
  mkStatusInput accepted programmed (resolved_refs gw cert) "" [] false [] false None.

Definition served_input (gw : Gateway) (addresses : gatewayAddresses) (cert : backendClientCert)
    (sets : list listenerSetState) (ls : list listenerState) (address : string) (acked : bool) :
    gatewayStatusInput :=
  let '(accepted, programmed) :=
    gatewayConditions gw None addresses acked (valid_count ls) (invalid_own_count ls) in
  mkStatusInput accepted programmed (resolved_refs gw cert) address ls acked
    (if (0 <? length (gaStatic addresses)) && (length (gaUnusable addresses) =? 0)
     then gaStatic addresses else [])
    (insecure ls)
    (match gwAllowedListeners gw with Some _ => Some (attached_sets sets ls) | None => None end).

(** The frontend, when there is a port to expose: its address, empty on
    errors. *)
Definition expose (w : world) (gw : Gateway) (infra : InfraParams) (ls : list listenerState)
    (allocator : ports.portAllocator) (st : frontend.Frontends) : option (string * frontend.Frontends) :=
  let entries := frontend.desiredServicePorts ls (ServiceParams infra) in
  if (0 <? length entries) then
    '(address, _, st) ← frontend.ensureFrontend w gw entries (ServiceParams infra)
                          (ports.PortMap allocator (omUID (gwMeta gw))) st;
    Some (address, st)
  else Some ("", st).

(** Everything but the report: the report to make, none when the
    publication failed. *)
Definition serve_gateway (w : world) (gw : Gateway) (infra : InfraParams) (addresses : gatewayAddresses)
    (cert : backendClientCert) (s : Pass) : option (Pass * option (gatewayStatusInput * string)) :=
  let sets := selectListenerSets w gw in
  let '(ls, allocator) := validateListeners w gw sets (enAllocator s) in
  let '(outcomes, ls) := attach_routes w gw sets ls in
  let '(recorded, topo) := fold_left (record_outcome gw) outcomes (enOutcomes s, enTopology s) in
  let '(r, store) := publishGeneration w gw infra ls outcomes cert (enStore s) in
  match r with
  | Err _ => Some (mkPass store (enFronts s) (enStatuses s) allocator recorded topo, None)
  | Ok generation =>
      '(address, fronts) ← expose w gw infra ls allocator (enFronts s);
      let acked := (0 <? valid_count ls)%Z && AllAcked (wAcks w) (omUID (gwMeta gw)) generation in
      let statuses := writeListenerSetStatuses sets ls acked (enStatuses s) in
      Some (mkPass store fronts statuses allocator recorded topo,
            Some (served_input gw addresses cert sets ls address acked, generation))
  end.

Definition reconcile (w : world) (gw : Gateway) (s : Pass) :
    option (Pass * option (gatewayStatusInput * string)) :=
  let addresses := validateGatewayAddresses w gw in
  let cert := resolveBackendClientCert w gw in
  match gateway_params gw with
  | Err message => Some (s, Some (refused_input gw (Some message) addresses cert, ""))
  | Ok infra =>
      if gaUnsupportedType addresses then Some (s, Some (refused_input gw None addresses cert, ""))
      else serve_gateway w gw infra addresses cert s
  end.

(** The topology entry and the status of the Gateway. *)
Definition report (gw : Gateway) (input : gatewayStatusInput) (generation : string) (s : Pass) : Pass :=
  mkPass (enStore s) (enFronts s) (writeGatewayStatus gw input (enStatuses s)) (enAllocator s) (enOutcomes s)
    (addGateway gw input generation (enTopology s)).

Definition reconcileGateway (w : world) (gw : Gateway) (s : Pass) : option Pass :=
  '(s, r) ← reconcile w gw s;
  Some (match r with Some (input, generation) => report gw input generation s | None => s end).

(** ** The pass *)

Definition owned_classes (settings : Settings) (w : world) : list string :=
  (λ c, omName (clMeta c)) <$> filter (λ c, clControllerName c = seControllerName settings) (wClasses w).

Definition owned_gateways (settings : Settings) (w : world) : list Gateway :=
  filter (λ gw, gwClassName gw ∈ owned_classes settings w) (wGateways w).

Definition k8s_service (s : corev1.Service) : ports.K8sService :=
  ports.mkK8sService (omLabels (corev1.svMeta s)) (corev1.svAnnotations s).

Definition reconcile_all (w : world) (gateways : list Gateway) (s : Pass) : option Pass :=
  fold_left (λ s gw, s ≫= reconcileGateway w gw) gateways (Some s).

Definition sync (settings : Settings) (w : world) (store : Store) (fronts : frontend.Frontends)
    (statuses : Statuses) : option (Pass * Topology) :=
  let statuses := fold_left (λ u name, writeClassStatus w name u) (owned_classes settings w) statuses in
  let allocator := ports.newPortAllocator (seInternalPortMin settings) (seInternalPortMax settings)
                     (k8s_service <$> wKrouterServices w) in
  let w := resolveBackendTLSPolicies w in
  let gateways := owned_gateways settings w in
  s ← reconcile_all w gateways (mkPass store fronts statuses allocator ∅ (newTopologyBuilder (wServices w)));
  let u := writeRouteStatuses w (seControllerName settings) (enOutcomes s) (enStatuses s) in
  let policies := collectBackendTLSAncestors w (visitOutcomes (enOutcomes s)) in
  let u := writeBackendTLSPolicyStatuses (seControllerName settings) policies u in
  let store := gcOrphans w (list_to_set ((λ gw, omUID (gwMeta gw)) <$> gateways)) (enStore s) in
  Some (mkPass store (enFronts s) u (enAllocator s) (enOutcomes s) (enTopology s), finish (enTopology s)).

(** [Sync]: no topology when the snapshot fails, and nothing is written.  The
    version stays cached. *)
Definition Sync {lists : ClusterLists} (settings : Settings) (acks : AckState) (cached : string) (store : Store)
    (fronts : frontend.Frontends) (statuses : Statuses) :
    option (Store * frontend.Frontends * Statuses * string * option Topology) :=
  match gatherWorld acks cached with
  | Err _ => Some (store, fronts, statuses, cached, None)
  | Ok w =>
      '(s, topo) ← sync settings w store fronts statuses;
      Some (enStore s, enFronts s, enStatuses s, wBundleVersion w, Some topo)
  end.

(** ** Lemmas *)

Lemma gateway_params_Ok gw infra :
  gateway_params gw = Ok infra ↔ loadInfraParams gw = Ok infra ∧ validateProxyProtocol gw infra = Ok tt.
Proof.
  unfold gateway_params. split.
  - intros (i & Hl & H)%bind_Ok. apply bind_Ok in H as ([] & Hv & H). by injection H as <-.
  - intros [-> Hv]. simpl. by rewrite Hv.
Qed.

(** The address of an entry can be served. *)
Definition address_usable (acks : AckState) (addr : GatewaySpecAddress) : Prop :=
  match saType addr with Some t => t = IPAddressType | None => True end ∧
  (saValue addr = "" ∨ ∃ name pod, asPods acks !! name = Some pod ∧ paHealthy pod = true ∧ paHostIP pod = saValue addr).

Lemma addresses_usable w gw :
  gaUnsupportedType (validateGatewayAddresses w gw) = false ∧ gaUnusable (validateGatewayAddresses w gw) = [] ↔
  ∀ addr, addr ∈ gwAddresses gw → address_usable (wAcks w) addr.
Proof.
  unfold validateGatewayAddresses.
  destruct (addresses_step_spec (node_ips (wAcks w)) (gwAddresses gw) (mkAddresses false [] [])) as (_ & Hu & Ht).
  rewrite Hu, Ht. clear Hu Ht. simpl. split.
  - intros [Ht Hu] addr Hin.
    assert (Hty : match saType addr with Some t => t = IPAddressType | None => True end).
    { destruct (saType addr) as [t|] eqn:Hty; [|done].
      apply not_true_iff_false in Ht. destruct (decide (t = IPAddressType)) as [|Hne]; [done|]. destruct Ht.
      apply existsb_exists. exists addr. split; [by apply list_elem_of_In|]. rewrite Hty. by rewrite bool_decide_false. }
    split; [done|]. destruct (decide (saValue addr = "")) as [|Hv]; [by left|right].
    destruct (decide (saValue addr ∈ node_ips (wAcks w))) as [Hn|Hn].
    { apply elem_of_node_ips in Hn as (_ & name & pod & ? & ? & ?). eauto. }
    exfalso. apply (elem_of_nil (saValue addr)). rewrite <-Hu. apply list_elem_of_filter. split; [done|].
    apply list_elem_of_fmap. exists addr. split; [done|]. apply list_elem_of_filter. split; [|done].
    unfold static_entry. rewrite (bool_decide_false (saValue addr = _)) by done. rewrite andb_true_r.
    destruct (saType addr); [by apply bool_decide_eq_true|done].
  - intros H. split.
    + apply not_true_iff_false. intros (addr & Hin & Hty)%existsb_exists. apply list_elem_of_In in Hin.
      destruct (H addr Hin) as [Ht _]. destruct (saType addr); [|done]. subst. by rewrite bool_decide_true in Hty.
    + apply filter_none, list.Forall_forall. intros v (addr & -> & [Hs Hin]%list_elem_of_filter)%list_elem_of_fmap Hn.
      destruct (H addr Hin) as [_ [Hv|(name & pod & ? & ? & Hip)]].
      * unfold static_entry in Hs. rewrite Hv in Hs. by rewrite andb_false_r in Hs.
      * apply Hn, elem_of_node_ips. split; [|by exists name, pod].
        intros Hv. unfold static_entry in Hs. rewrite Hv in Hs. by rewrite andb_false_r in Hs.
Qed.

Lemma valid_count_pos ls : valid_count ls ≠ 0%Z ↔ ∃ l, l ∈ ls ∧ valid l = true.
Proof.
  unfold valid_count. split.
  - intros H. destruct (filter (λ l, valid l = true) ls) as [|l rest] eqn:Hf; [done|].
    assert (Hin : l ∈ filter (λ l, valid l = true) ls) by (rewrite Hf; left).
    apply list_elem_of_filter in Hin as [? ?]. eauto.
  - intros (l & Hl & Hv) H0. assert (Hin : l ∈ filter (λ l, valid l = true) ls) by (by apply list_elem_of_filter).
    apply list_elem_of_lookup in Hin as [i Hi]. apply lookup_lt_Some in Hi. lia.
Qed.

(** How a served Gateway came to its report. *)
Lemma serve_gateway_report w gw infra addresses cert s s' input gen :
  serve_gateway w gw infra addresses cert s = Some (s', Some (input, gen)) →
  ∃ ls outcomes address,
    publishGeneration w gw infra ls outcomes cert (enStore s) = (Ok gen, enStore s') ∧
    input = served_input gw addresses cert (selectListenerSets w gw) ls address
      ((0 <? valid_count ls)%Z && AllAcked (wAcks w) (omUID (gwMeta gw)) gen).
Proof.
  unfold serve_gateway. cbv zeta.
  destruct (validateListeners _ _ _ _) as [ls0 allocator]. destruct (attach_routes _ _ _ _) as [outcomes ls].
  destruct (fold_left _ _ _) as [recorded topo]. destruct (publishGeneration _ _ _ _ _ _ _) as [r store] eqn:Hp.
  destruct r as [generation|e]; [|done]. destruct (expose _ _ _ _ _ _) as [[address fronts]|]; [|done].
  cbn [mbind option_bind]. intros [= <- <- <-]. exists ls, outcomes, address. done.
Qed.

Lemma check_names_Ok declared names :
  foldM (check_proxy_name declared) tt names = Ok tt ↔
  ∀ name, name ∈ names → ∃ l, declared !! name = Some l ∧ lsProtocol l ≠ UDPProtocolType.
Proof.
  induction names as [|n names IH]; cbn [foldM].
  { split; [by intros _ name ?%elem_of_nil|done]. }
  split.
  - intros ([] & Hn & H)%bind_Ok. intros name [->|Hin]%elem_of_cons; [|by apply IH].
    unfold check_proxy_name in Hn. destruct (declared !! n) as [l|]; [|done]. exists l. split; [done|].
    by apply guard_err_Ok, negb_true_iff, bool_decide_eq_false in Hn.
  - intros H. assert (Hn : check_proxy_name declared tt n = Ok tt).
    { unfold check_proxy_name. destruct (H n) as (l & -> & Hp); [left|]. by rewrite bool_decide_false. }
    rewrite Hn. cbn [mbind result_bind]. apply IH. intros name ?. apply H. by right.
Qed.

(** The groups seen so far hold what their listeners want. *)
Lemma check_groups_Ok required ls groups :
  (∃ groups', foldM (check_proxy_group required) groups ls = Ok groups') ↔
  (∀ l, l ∈ ls → ∀ b, groups !! proxy_group l = Some b → b = bool_decide (lsName l ∈ required)) ∧
  (∀ l1 l2, l1 ∈ ls → l2 ∈ ls → proxy_group l1 = proxy_group l2 → (lsName l1 ∈ required ↔ lsName l2 ∈ required)).
Proof.
  revert groups. induction ls as [|l ls IH]; intros groups; cbn [foldM].
  { split; [|by eauto]. intros _. split; [by intros l ?%elem_of_nil|by intros l1 l2 ?%elem_of_nil]. }
  set (wanted := bool_decide (lsName l ∈ required)).
  assert (Hstep : check_proxy_group required groups l =
    if match groups !! proxy_group l with Some seen => negb (eqb seen wanted) | None => false end
    then Err ("listeners sharing port " +:+ pretty (lsPort l) +:+ " disagree on proxy_protocol")
    else Ok (<[proxy_group l := wanted]> groups)) by done.
  rewrite Hstep. clear Hstep.
  destruct (match groups !! proxy_group l with Some seen => negb (eqb seen wanted) | None => false end) eqn:Hc.
  - split; [by intros [? ?]|]. intros [H _]. destruct (groups !! proxy_group l) as [seen|] eqn:Hs; [|done].
    rewrite (H l (list_elem_of_here _ _) seen Hs) in Hc. fold wanted in Hc. by rewrite eqb_reflx in Hc.
  - cbn [mbind result_bind]. rewrite IH. clear IH. split.
    + intros [H1 H2]. split.
      * intros x [->|Hx]%elem_of_cons b Hb; [rewrite Hb in Hc; by apply negb_false_iff, eqb_prop in Hc|].
        destruct (decide (proxy_group x = proxy_group l)) as [He|He].
        -- rewrite He in Hb. rewrite Hb in Hc. apply negb_false_iff, eqb_prop in Hc. subst b.
           apply (H1 x Hx). by rewrite He, lookup_insert_eq.
        -- apply (H1 x Hx). by rewrite lookup_insert_ne.
      * assert (Hl : ∀ x, x ∈ ls → proxy_group l = proxy_group x → (lsName l ∈ required ↔ lsName x ∈ required)).
        { intros x Hx He. specialize (H1 x Hx wanted). rewrite <-He, lookup_insert_eq in H1.
          specialize (H1 eq_refl). unfold wanted in H1. split; intros Hr.
          - apply (bool_decide_eq_true_1 _). rewrite <-H1. by apply bool_decide_eq_true_2.
          - apply (bool_decide_eq_true_1 _). rewrite H1. by apply bool_decide_eq_true_2. }
        intros x y [->|Hx]%elem_of_cons [->|Hy]%elem_of_cons He; [done|by apply Hl| |by apply H2].
        symmetry. by apply Hl.
    + intros [H1 H2]. split; [|intros x y Hx Hy; apply H2; by right].
      intros x Hx b. destruct (decide (proxy_group l = proxy_group x)) as [He|He].
      * rewrite He, lookup_insert_eq. intros [= <-]. unfold wanted. apply bool_decide_ext. apply H2; [left|by right|done].
      * rewrite lookup_insert_ne by done. apply H1. by right.
Qed.

Lemma proxy_group_inj l1 l2 :
  (0 ≤ lsPort l1)%Z → (0 ≤ lsPort l2)%Z →
  proxy_group l1 = proxy_group l2 ↔ lsPort l1 = lsPort l2 ∧ lsProtocol l1 = lsProtocol l2.
Proof.
  intros H1 H2. unfold proxy_group. split; [|intros [-> ->]; done].
  intros [H ->]%ports.cut_at; [by apply (inj pretty) in H|by apply ports.pretty_no_slash..].
Qed.

(** What the reconciliation of a Gateway leaves alone. *)
Record untouched (gateways : list Gateway) (s s' : Pass) : Prop := {
  un_classes : suClasses (enStatuses s') = suClasses (enStatuses s);
  un_routes : suRoutes (enStatuses s') = suRoutes (enStatuses s);
  un_policies : suPolicies (enStatuses s') = suPolicies (enStatuses s);
  un_gateways key : (∀ gw, gw ∈ gateways → nsName (omNamespace (gwMeta gw)) (omName (gwMeta gw)) ≠ key) →
    suGateways (enStatuses s') !! key = suGateways (enStatuses s) !! key;
  un_services key : (∀ gw name, gw ∈ gateways → frontend.frontendName gw = Some name →
      (omNamespace (gwMeta gw), name) ≠ key) →
    frontend.frServices (enFronts s') !! key = frontend.frServices (enFronts s) !! key;
  un_slices key : (∀ gw name, gw ∈ gateways → frontend.frontendName gw = Some name →
      (omNamespace (gwMeta gw), name +:+ "-krouter") ≠ key) →
    frontend.frSlices (enFronts s') !! key = frontend.frSlices (enFronts s) !! key;
}.

Lemma untouched_refl gateways s : untouched gateways s s.
Proof. by split. Qed.

Lemma untouched_trans gateways s1 s2 s3 :
  untouched gateways s1 s2 → untouched gateways s2 s3 → untouched gateways s1 s3.
Proof.
  intros [A1 A2 A3 A4 A5 A6] [B1 B2 B3 B4 B5 B6]. split; try congruence.
  - intros key H. by rewrite B4, A4.
  - intros key H. by rewrite B5, A5.
  - intros key H. by rewrite B6, A6.
Qed.

Lemma untouched_mono gateways gateways' s s' :
  gateways ⊆ gateways' → untouched gateways s s' → untouched gateways' s s'.
Proof. intros Hs [A1 A2 A3 A4 A5 A6]. split; auto. Qed.

Lemma write_other {S} (compute : Z → Object S → option S) stored rounds key objects key' :
  key ≠ key' → (write compute stored rounds key objects).2 !! key' = objects !! key'.
Proof.
  intros Hne. pose proof (write_spec compute stored rounds key objects) as H.
  destruct (write _ _ _ _ _) as [r o]. apply H. congruence.
Qed.

Lemma report_untouched gw input generation s : untouched [gw] s (report gw input generation s).
Proof.
  split; try done. intros key H. apply write_other. apply H. by apply list_elem_of_singleton.
Qed.

Lemma expose_untouched w gw infra ls allocator st address st' :
  expose w gw infra ls allocator st = Some (address, st') →
  (∀ key, (∀ name, frontend.frontendName gw = Some name → (omNamespace (gwMeta gw), name) ≠ key) →
     frontend.frServices st' !! key = frontend.frServices st !! key) ∧
  (∀ key, (∀ name, frontend.frontendName gw = Some name → (omNamespace (gwMeta gw), name +:+ "-krouter") ≠ key) →
     frontend.frSlices st' !! key = frontend.frSlices st !! key).
Proof.
  unfold expose. destruct (0 <? _); [|by intros [= <- <-]]. unfold frontend.ensureFrontend.
  destruct (frontend.frontendName gw) as [name|] eqn:Hn; [|done]. cbn [mbind option_bind].
  pose proof (frontend.ensure_named_other w gw name (frontend.desiredServicePorts ls (ServiceParams infra))
    (ServiceParams infra) (ports.PortMap allocator (omUID (gwMeta gw))) st) as [H1 H2].
  destruct (frontend.ensure_named _ _ _ _ _ _ _) as [[a r] st1]. intros [= <- <-]. cbn [snd] in H1, H2.
  split; intros key Hk; [apply H1|apply H2]; intros ->; by eapply Hk.
Qed.

Lemma serve_gateway_untouched w gw infra addresses cert s s' r :
  serve_gateway w gw infra addresses cert s = Some (s', r) → untouched [gw] s s'.
Proof.
  unfold serve_gateway. cbv zeta.
  destruct (validateListeners _ _ _ _) as [ls0 allocator]. destruct (attach_routes _ _ _ _) as [outcomes ls].
  destruct (fold_left _ _ _) as [recorded topo]. destruct (publishGeneration _ _ _ _ _ _ _) as [res store].
  destruct res as [generation|e]; [|by intros [= <- _]].
  destruct (expose _ _ _ _ _ _) as [[address fronts]|] eqn:He; [|done].
  cbn [mbind option_bind]. intros [= <- _]. apply expose_untouched in He as [H1 H2].
  split; try done; intros key Hk; [apply H1|apply H2]; intros name Hn; (eapply Hk; [by apply list_elem_of_singleton|done]).
Qed.

Lemma reconcileGateway_untouched w gw s s' : reconcileGateway w gw s = Some s' → untouched [gw] s s'.
Proof.
  unfold reconcileGateway. destruct (reconcile w gw s) as [[s1 r]|] eqn:Hr; [|done]. cbn [mbind option_bind].
  assert (H1 : untouched [gw] s s1).
  { unfold reconcile in Hr. cbv zeta in Hr. destruct (gateway_params gw) as [infra|e].
    - destruct (gaUnsupportedType _); [injection Hr as <- _; apply untouched_refl|by eapply serve_gateway_untouched].
    - injection Hr as <- _. apply untouched_refl. }
  intros [= <-]. destruct r as [[input generation]|]; [|done].
  eapply untouched_trans; [exact H1|apply report_untouched].
Qed.

Lemma fold_option_None {A B} (f : A → B → option B) l :
  fold_left (λ s x, s ≫= f x) l None = None.
Proof. induction l; done. Qed.

Lemma reconcile_all_untouched w gateways s s' :
  reconcile_all w gateways s = Some s' → untouched gateways s s'.
Proof.
  unfold reconcile_all. revert s. induction gateways as [|gw gateways IH]; intros s; cbn [fold_left].
  { intros [= <-]. apply untouched_refl. }
  cbn [mbind option_bind]. destruct (reconcileGateway w gw s) as [s1|] eqn:H1.
  - intros H. eapply untouched_trans.
    + eapply untouched_mono; [|by apply (reconcileGateway_untouched w)]. set_solver.
    + eapply untouched_mono; [|by apply IH]. set_solver.
  - intros H. by rewrite (fold_option_None (reconcileGateway w)) in H.
Qed.

Lemma class_statuses_other w names u name :
  name ∉ names → suClasses (fold_left (λ u name, writeClassStatus w name u) names u) !! name = suClasses u !! name.
Proof.
  revert u. induction names as [|n names IH]; intros u Hn; cbn [fold_left]; [done|].
  apply not_elem_of_cons in Hn as [Hne Hn]. rewrite IH by done. by apply write_other.
Qed.

Lemma class_statuses_gateways w names u :
  suGateways (fold_left (λ u name, writeClassStatus w name u) names u) = suGateways u.
Proof. revert u. induction names as [|n names IH]; intros u; cbn [fold_left]; [done|]. by rewrite IH. Qed.

(** ** Theorems *)

(** The object's status says so, of that generation of the Gateway. *)
Definition reports_programmed (generation : Z) (o : Object GatewayStatus) : Prop :=
  ∃ c, c ∈ elems (gsConditions (obStatus o)) ∧ cdType c = "Programmed" ∧ cdStatus c = ConditionTrue ∧
    cdObservedGeneration c = generation.

Definition status_key (gw : Gateway) : string := nsName (omNamespace (gwMeta gw)) (omName (gwMeta gw)).

(** The stored conditions report what the writer was given. *)
Lemma reported_iff input o generation :
  cdType (giAccepted input) = "Accepted" → cdType (giProgrammed input) = "Programmed" →
  cdType (giResolvedRefs input) = "ResolvedRefs" → cdObservedGeneration (giProgrammed input) = generation →
  untimed (gsConditions (obStatus o)) =
    (if giInsecureFallback input then [insecure_condition (obGeneration o)]
     else at_time 0 <$> [giAccepted input; giProgrammed input; giResolvedRefs input]) →
  reports_programmed generation o ↔
    conditionTrue (giProgrammed input) = true ∧ giInsecureFallback input = false.
Proof.
  intros Ha Hp Hr Hg Hc. unfold conditionTrue. rewrite bool_decide_eq_true. split.
  - intros (c & Hin & Ht & Hs & _). apply (list_elem_of_fmap_2 (at_time 0)) in Hin.
    unfold untimed in Hc. rewrite Hc in Hin. destruct (giInsecureFallback input).
    + apply list_elem_of_singleton, (f_equal cdType) in Hin. simpl in Hin. by rewrite Ht in Hin.
    + split; [|done]. simpl in Hin.
      apply elem_of_cons in Hin as [H|[H|[H|[]%elem_of_nil]%elem_of_cons]%elem_of_cons].
      * apply same_type in H. congruence.
      * injection H. congruence.
      * apply same_type in H. congruence.
  - intros [Hs Hi]. rewrite Hi in Hc.
    assert (Hin : at_time 0 (giProgrammed input) ∈ untimed (gsConditions (obStatus o))).
    { rewrite Hc. simpl. right. left. }
    apply list_elem_of_fmap in Hin as (c & He & Hin). exists c. injection He as H1 H2 _ _ H5.
    split; [done|]. split_and!; congruence.
Qed.

(** Everything it takes to serve the Gateway's generation [gen]. *)
Definition applied (w : world) (gw : Gateway) (ls : list listenerState) (gen : string) : Prop :=
  (∃ infra, gateway_params gw = Ok infra) ∧
  (∀ addr, addr ∈ gwAddresses gw → address_usable (wAcks w) addr) ∧
  (∃ l, l ∈ ls ∧ valid l = true) ∧
  (∃ name pod, asPods (wAcks w) !! name = Some pod ∧ paHealthy pod = true) ∧
  (∀ name pod, asPods (wAcks w) !! name = Some pod → paHealthy pod = true →
     ∃ ack, paGateways pod !! omUID (gwMeta gw) = Some ack ∧ gaAppliedGeneration ack = gen).

Lemma programmed_input w gw s s' input gen :
  reconcile w gw s = Some (s', Some (input, gen)) →
  (conditionTrue (giProgrammed input) = true ↔ applied w gw (giListeners input) gen) ∧
  (conditionTrue (giProgrammed input) = true → ∃ infra ls outcomes,
     publishGeneration w gw infra ls outcomes (resolveBackendClientCert w gw) (enStore s) = (Ok gen, enStore s')).
Proof.
  unfold reconcile, applied. cbv zeta. pose proof (addresses_usable w gw) as Haddr.
  destruct (gateway_params gw) as [infra|message] eqn:Hg.
  2: { intros [= <- <- <-]. unfold refused_input. simpl. split; [|done]. split; [done|].
       by intros (_ & _ & (l & ?%elem_of_nil & _) & _). }
  destruct (gaUnsupportedType (validateGatewayAddresses w gw)) eqn:Hu.
  { intros [= <- <- <-]. unfold refused_input, gatewayConditions. rewrite Hu. simpl. split; [|done]. split; [done|].
    by intros (_ & _ & (l & ?%elem_of_nil & _) & _). }
  intros (ls & outcomes & address & Hp & ->)%serve_gateway_report. unfold served_input.
  destruct (gatewayConditions _ _ _ _ _ _) as [accepted programmed] eqn:Hc.
  pose proof (programmed_iff gw None (validateGatewayAddresses w gw)
    ((0 <? valid_count ls)%Z && AllAcked (wAcks w) (omUID (gwMeta gw)) gen) (valid_count ls) (invalid_own_count ls)) as Hi.
  rewrite Hc in Hi. cbn [snd giProgrammed giListeners] in *. split; [|by eauto].
  rewrite Hi, andb_true_iff, AllAcked_true, <-Haddr, <-valid_count_pos.
  split; [intros (_ & _ & ? & ? & _ & ? & ?); by eauto 10|].
  intros (_ & [_ ?] & Hv & ? & ?). split_and!; try done. apply Z.ltb_lt. unfold valid_count in *. lia.
Qed.

(** What the reconciliation hands to the status writer. *)
Lemma input_shape w gw s s' input gen :
  reconcile w gw s = Some (s', Some (input, gen)) →
  cdType (giAccepted input) = "Accepted" ∧ cdType (giProgrammed input) = "Programmed" ∧
  cdType (giResolvedRefs input) = "ResolvedRefs" ∧
  cdObservedGeneration (giProgrammed input) = omGeneration (gwMeta gw) ∧
  (giInsecureFallback input = true ↔
   ∃ l, l ∈ giListeners input ∧ lsClientCAMode l = "AllowInsecureFallback").
Proof.
  assert (Hc : ∀ e a acked v i,
    let '(accepted, programmed) := gatewayConditions gw e a acked v i in
    cdType accepted = "Accepted" ∧ cdType programmed = "Programmed" ∧
    cdObservedGeneration programmed = omGeneration (gwMeta gw)).
  { intros. unfold gatewayConditions, accepted_condition, programmed_condition. cbv zeta.
    destruct e; [done|]. destruct (gaUnsupportedType a); [done|]. split_and!; by repeat case_match. }
  assert (Href : ∀ e, let input := refused_input gw e (validateGatewayAddresses w gw) (resolveBackendClientCert w gw) in
    cdType (giAccepted input) = "Accepted" ∧ cdType (giProgrammed input) = "Programmed" ∧
    cdType (giResolvedRefs input) = "ResolvedRefs" ∧
    cdObservedGeneration (giProgrammed input) = omGeneration (gwMeta gw) ∧
    (giInsecureFallback input = true ↔
     ∃ l, l ∈ giListeners input ∧ lsClientCAMode l = "AllowInsecureFallback")).
  { intros e. unfold refused_input. specialize (Hc e (validateGatewayAddresses w gw) false 0%Z 0%Z).
    destruct (gatewayConditions _ _ _ _ _ _) as [a p]. destruct Hc as (? & ? & ?). split_and!; [done..|].
    split; [done|]. by intros (l & ?%elem_of_nil & _). }
  unfold reconcile. cbv zeta. destruct (gateway_params gw) as [infra|message]; [|by intros [= <- <- <-]].
  destruct (gaUnsupportedType _); [by intros [= <- <- <-]|].
  intros (ls & outcomes & address & _ & ->)%serve_gateway_report. unfold served_input.
  specialize (Hc None (validateGatewayAddresses w gw)
    ((0 <? valid_count ls)%Z && AllAcked (wAcks w) (omUID (gwMeta gw)) gen) (valid_count ls) (invalid_own_count ls)).
  destruct (gatewayConditions _ _ _ _ _ _) as [a p]. destruct Hc as (? & ? & ?). split_and!; [done..|].
  cbn [giInsecureFallback giListeners]. unfold insecure. rewrite existsb_exists. split.
  - intros (l & ?%list_elem_of_In & ?%bool_decide_eq_true). by exists l.
  - intros (l & ? & ?). exists l. split; [by apply list_elem_of_In|by apply bool_decide_eq_true].
Qed.

(** C15: When the status write of a reconciled Gateway succeeds, the stored
    object says Programmed for the generation of the Gateway read exactly when
    its parameters are valid, its addresses usable, some listener is valid,
    there is a healthy data plane, every healthy pod of which acknowledged the
    generation just published, and no listener allows an insecure fallback (with
    one the code drops the condition); and it then says so of a generation whose
    publication succeeded. *)
Theorem programmed_means_applied w gw s s' input gen objects :
  reconcile w gw s = Some (s', Some (input, gen)) →
  write (gateway_update input) (gateway_stored clock) (gatewayRounds (status_key gw)) (status_key gw)
    (suGateways (enStatuses s')) = (Ok tt, objects) →
  ∃ o, suGateways (enStatuses (report gw input gen s')) !! status_key gw = Some o ∧
    (reports_programmed (omGeneration (gwMeta gw)) o ↔
       applied w gw (giListeners input) gen ∧
       ∀ l, l ∈ giListeners input → lsClientCAMode l ≠ "AllowInsecureFallback") ∧
    (reports_programmed (omGeneration (gwMeta gw)) o → ∃ infra ls outcomes,
       publishGeneration w gw infra ls outcomes (resolveBackendClientCert w gw) (enStore s) = (Ok gen, enStore s')).
Proof.
  intros Hrec Hw. destruct (programmed_input _ _ _ _ _ _ Hrec) as [Hiff Hpub].
  destruct (input_shape _ _ _ _ _ _ Hrec) as (Ha & Hp & Hr & Hg & Hins).
  destruct (gateway_written _ _ _ _ _ _ Ha Hp Hr Hw) as (o & Ho & Hc). exists o.
  assert (Hrep : reports_programmed (omGeneration (gwMeta gw)) o ↔
    conditionTrue (giProgrammed input) = true ∧ giInsecureFallback input = false).
  { apply reported_iff; done. }
  split.
  { unfold report, writeGatewayStatus, status_key in *. cbn [enStatuses suGateways]. by rewrite Hw. }
  split.
  - rewrite Hrep, Hiff. apply and_iff_compat_l. rewrite <-not_true_iff_false, Hins. naive_solver.
  - rewrite Hrep. intros [? _]. by apply Hpub.
Qed.

(** The PROXY protocol parameter is accepted exactly when every name is a
    declared listener that is not UDP and listeners of one port and protocol
    agree. *)
Theorem proxy_protocol_checked gw infra :
  (∀ l, l ∈ gwListeners gw → 0 ≤ lsPort l)%Z →
  validateProxyProtocol gw infra = Ok tt ↔
  (∀ name, name ∈ ProxyListeners infra →
     ∃ l, declared_listeners gw !! name = Some l ∧ lsProtocol l ≠ UDPProtocolType) ∧
  (∀ l1 l2, l1 ∈ gwListeners gw → l2 ∈ gwListeners gw →
     lsPort l1 = lsPort l2 → lsProtocol l1 = lsProtocol l2 →
     (lsName l1 ∈ ProxyListeners infra ↔ lsName l2 ∈ ProxyListeners infra)).
Proof.
  intros Hpos. unfold validateProxyProtocol. cbv zeta. set (required := list_to_set (ProxyListeners infra) : gset string).
  assert (Hr : ∀ x, x ∈ required ↔ x ∈ ProxyListeners infra) by (intros x; apply elem_of_list_to_set).
  destruct (size required =? 0) eqn:Hs.
  { apply Nat.eqb_eq, size_empty_inv in Hs. assert (Hn : ∀ x, x ∉ ProxyListeners infra).
    { intros x Hx%Hr. by apply Hs in Hx. }
    split; [|done]. intros _. split; [by intros x ?%Hn|]. intros l1 l2 _ _ _ _. split; by intros ?%Hn. }
  assert (Hgroup : ∀ l1 l2, l1 ∈ gwListeners gw → l2 ∈ gwListeners gw →
      (proxy_group l1 = proxy_group l2 ↔ lsPort l1 = lsPort l2 ∧ lsProtocol l1 = lsProtocol l2)).
  { intros l1 l2 H1 H2. apply proxy_group_inj; by apply Hpos. }
  pose proof (check_groups_Ok required (gwListeners gw) ∅) as Hg.
  split.
  - intros ([] & Hn & H)%bind_Ok. apply bind_Ok in H as (groups & Hgs & _).
    destruct (proj1 Hg (ex_intro _ groups Hgs)) as [_ H2]. split.
    + intros name Hin. apply (proj1 (check_names_Ok _ _) Hn). by apply visitNames_elem, Hr.
    + intros l1 l2 I1 I2 P1 P2. rewrite <-!Hr. apply H2; [done..|]. by apply Hgroup.
  - intros [H1 H2]. rewrite (proj2 (check_names_Ok _ (visitNames required))).
    2: { intros name Hin. by apply H1, Hr, visitNames_elem. }
    cbn [mbind result_bind]. destruct (proj2 Hg) as [groups ->]; [|done]. split.
    + intros l _ b. by rewrite lookup_empty.
    + intros l1 l2 I1 I2 [P1 P2]%Hgroup; [|done..]. rewrite !Hr. by apply H2.
Qed.

(** No class of that name asks for this controller. *)
Definition foreign_class (settings : Settings) (w : world) (name : string) : Prop :=
  ∀ c, c ∈ wClasses w → omName (clMeta c) = name → clControllerName c ≠ seControllerName settings.

Lemma owned_not_foreign settings w name : name ∈ owned_classes settings w → ¬ foreign_class settings w name.
Proof.
  intros (c & -> & [Hc Hin]%list_elem_of_filter)%list_elem_of_fmap Hf. by apply (Hf c).
Qed.

(** C16: A pass never changes the status of a GatewayClass when no class of that
    name in the snapshot names this controller, the status of a Gateway whose
    class is such a one, or a Service that is not the frontend of a Gateway of a
    class of this controller. *)
Theorem foreign_objects_untouched settings w store fronts statuses s topo :
  sync settings w store fronts statuses = Some (s, topo) →
  (∀ name, foreign_class settings w name → suClasses (enStatuses s) !! name = suClasses statuses !! name) ∧
  (∀ key, (∀ gw, gw ∈ wGateways w → status_key gw = key → foreign_class settings w (gwClassName gw)) →
     suGateways (enStatuses s) !! key = suGateways statuses !! key) ∧
  (∀ key, (∀ gw name, gw ∈ wGateways w → frontend.frontendName gw = Some name →
       (omNamespace (gwMeta gw), name) = key → foreign_class settings w (gwClassName gw)) →
     frontend.frServices (enFronts s) !! key = frontend.frServices fronts !! key).
Proof.
  unfold sync. cbv zeta. set (w' := resolveBackendTLSPolicies w).
  assert (Hw : owned_gateways settings w' = filter (λ gw, gwClassName gw ∈ owned_classes settings w) (wGateways w)).
  { unfold w', owned_gateways, owned_classes, resolveBackendTLSPolicies. by destruct (fold_left _ _ _) as [[??]?]. }
  destruct (reconcile_all _ _ _) as [s1|] eqn:Hr; [|done]. cbn [mbind option_bind]. intros [= <- _].
  apply reconcile_all_untouched in Hr as [H1 _ _ H4 H5 _]. cbn [enStatuses enFronts suClasses suGateways] in *.
  unfold writeBackendTLSPolicyStatuses, writeRouteStatuses. cbn [suClasses suGateways].
  split_and!.
  - intros name Hn. rewrite H1. apply class_statuses_other. by intros ?%owned_not_foreign.
  - intros key Hk. rewrite H4; [by rewrite class_statuses_gateways|]. rewrite Hw.
    intros gw [Ho%owned_not_foreign ?]%list_elem_of_filter He. by apply Ho, Hk.
  - intros key Hk. apply H5. rewrite Hw. intros gw name [Ho%owned_not_foreign ?]%list_elem_of_filter Hn He.
    by eapply Ho, Hk.
Qed.

End engine.

(** ** Examples *)

Definition ex_quiet {S} : Round S := mkRound 7 id None None None.

Definition ex_server : StatusServer := {|
  classRounds _ _ := ex_quiet; gatewayRounds _ _ := ex_quiet; setRounds _ _ := ex_quiet;
  routeRounds _ _ := ex_quiet; policyRounds _ _ := ex_quiet; clock := id;
|}.

Definition ex_default_hcl : ParamsHCL := {|
  decodeClass _ := Ok (mkClassParams 1 None);
  decodeInfra src := if bool_decide (src = default_source) then Ok (mkInfraParams 1 None None) else Err "bad";
|}.

#[refine] Instance ex_order : @EngineOrder ex_default_hcl := {|
  visitNames := elements;
  visitOutcomes m := (map_to_list m).*2;
|}.
Proof.
  - intros s x. apply elem_of_elements.
  - done.
  - reflexivity.
Defined.

Definition ex_sync_world (acks : AckState) : world :=
  mkWorld [mkGatewayClass (ex_meta "" "krouter") "link-society.com/krouter"; mkGatewayClass (ex_meta "" "other") "acme"]
    [frontend.ex_front_gw] [] [] [] [] [] [ex_grant] ∅ [] [] [] ∅ ∅ [] [] []
    (λ _ _, Err "none") (λ _ _, Err "none") acks "v1.6.0".

Definition ex_pass : Pass :=
  mkPass (mkStore ∅ ∅) (frontend.mkFrontends ∅ ∅) 
    (mkStatuses ∅ {[ status_key frontend.ex_front_gw := mkObject 1 (mkGatewayStatus None None None None) ]} ∅ ∅ ∅)
    ports.ex_allocator ∅ (newTopologyBuilder ∅).

Definition ex_reconcile (acks : AckState) : option (Pass * option (gatewayStatusInput * string)) :=
  @reconcile ex_cluster build.ex_libs stable_GoSort authdoc.ex_hcl extensions.ex_enc ex_default_hcl (ex_env no_faults)
    frontend.ex_api ex_texts ex_server ex_forward ports.ex_json ex_order
    (ex_sync_world acks) frontend.ex_front_gw ex_pass.

Definition ex_gen : string :=
  Eval vm_compute in match ex_reconcile EmptyAckState with Some (_, Some (_, gen)) => gen | _ => "" end.

Definition ex_acked : AckState :=
  mkAckState {[ "a" := mkPodAck true "10.1.0.1" "192.0.2.1" "n1"
                         {[ "12345678-abcd" := mkGatewayAck ex_gen ex_gen "" ]} ]}.

Definition ex_write (input : gatewayStatusInput) (s : Pass) :=
  write (gateway_update input) (gateway_stored (@clock ex_server))
    (@gatewayRounds ex_server (status_key frontend.ex_front_gw)) (status_key frontend.ex_front_gw)
    (suGateways (enStatuses s)).

(** The stored status says Programmed once the pod acknowledged, and only on
    a valid listener. *)
Lemma programmed_means_applied_witness :
  ∃ o l, reports_programmed 1 o ∧ valid l = true ∧ lsPort (lsSpec l) = 443%Z.
Proof.
  assert (Hp : match ex_reconcile ex_acked with
               | Some (s', Some (input, _)) =>
                   forallb (λ l, (lsPort (lsSpec l) =? 443)%Z) (giListeners input) &&
                   match ex_write input s' with
                   | (Ok _, objects) =>
                       match objects !! status_key frontend.ex_front_gw with
                       | Some o => existsb (λ c, (cdType c == "Programmed") && (cdStatus c == ConditionTrue) &&
                                      (cdObservedGeneration c =? 1)%Z) (elems (gsConditions (obStatus o)))
                       | None => false end
                   | _ => false end
               | _ => false end = true) by (vm_compute; reflexivity).
  destruct (ex_reconcile ex_acked) as [[s' [[input gen]|]]|] eqn:Hr; [|done..].
  apply andb_true_iff in Hp as [Hl Hp]. destruct (ex_write input s') as [[[]|] objects] eqn:Hw; [|done].
  destruct (@programmed_means_applied ex_cluster build.ex_libs stable_GoSort authdoc.ex_hcl extensions.ex_enc
    ex_default_hcl (ex_env no_faults) frontend.ex_api ex_texts ex_server ex_forward ports.ex_json ex_order
    (ex_sync_world ex_acked) frontend.ex_front_gw ex_pass s' input gen objects Hr Hw) as (o & Ho & [H _] & _).
  unfold report, writeGatewayStatus in Ho. cbn [enStatuses suGateways] in Ho.
  change (((ex_write input s').2) !! status_key frontend.ex_front_gw = Some o) in Ho.
  rewrite Hw in Ho. cbn [snd] in Ho. rewrite Ho in Hp.
  assert (Ho1 : reports_programmed (omGeneration (gwMeta frontend.ex_front_gw)) o).
  { clear -Hp. apply existsb_exists in Hp as (c & Hc%list_elem_of_In & [[Ht Hs]%andb_true_iff Hg]%andb_true_iff).
    exists c. split; [exact Hc|]. split; [by apply bool_decide_eq_true in Ht|].
    split; [by apply bool_decide_eq_true in Hs|]. apply Z.eqb_eq in Hg. exact Hg. }
  destruct (H Ho1) as ((_ & _ & (l & Hin & Hv) & _) & _). exists o, l.
  split; [exact Ho1|]. split; [exact Hv|].
  rewrite forallb_forall in Hl. apply Z.eqb_eq, Hl. by apply list_elem_of_In.
Defined.

Definition ex_proxied (names : list string) : InfraParams :=
  mkInfraParams 1 None (Some (mkClientIP ["10.0.0.0/8"] (Some (mkProxyProtocol names)))).

(** Both listeners share port 443: naming one of them is refused. *)
Lemma proxy_protocol_checked_witness :
  @validateProxyProtocol ex_default_hcl ex_texts ex_order ex_listener_gw (ex_proxied ["web"; "api"]) = Ok tt ∧
  @validateProxyProtocol ex_default_hcl ex_texts ex_order ex_listener_gw (ex_proxied ["web"]) ≠ Ok tt.
Proof.
  split; [vm_compute; reflexivity|].
  rewrite (@proxy_protocol_checked ex_default_hcl ex_texts ex_order ex_listener_gw (ex_proxied ["web"])).
  - intros [_ H].
    assert (Hin : "api" ∈ ["web"]).
    { apply (H (ex_https "web" "www.example.com" (Some "certs")) (ex_https "api" "api.example.com" (Some "certs")));
        try reflexivity; [left|right; left|left]. }
    by apply list_elem_of_singleton in Hin.
  - apply list.Forall_forall. vm_compute. repeat constructor; discriminate.
Defined.

Definition ex_settings : Settings := mkSettings "link-society.com/krouter" 10000 10002.

Definition ex_sync : option (Pass * Topology) :=
  @sync ex_cluster build.ex_libs stable_GoSort authdoc.ex_hcl extensions.ex_enc ex_default_hcl (ex_env no_faults)
    frontend.ex_api ex_texts ex_server ex_forward ports.ex_json ex_order ex_settings (ex_sync_world ex_acked)
    (mkStore ∅ ∅) (frontend.mkFrontends ∅ ∅) (mkStatuses {[ "other" := mkObject 1 (mkClassStatus None None) ]} ∅ ∅ ∅ ∅).

Lemma ex_synced : ∃ s topo, ex_sync = Some (s, topo).
Proof.
  assert (H : match ex_sync with Some _ => true | None => false end = true) by (vm_compute; reflexivity).
  revert H. generalize ex_sync. intros [[s topo]|]; [eauto|discriminate].
Qed.

(** The class of another controller keeps its status. *)
Lemma foreign_objects_untouched_witness :
  ∃ s topo, ex_sync = Some (s, topo) ∧
    suClasses (enStatuses s) !! "other" = Some (mkObject 1 (mkClassStatus None None)).
Proof.
  destruct ex_synced as (s & topo & Hs). exists s, topo. split; [exact Hs|].
  destruct (@foreign_objects_untouched ex_cluster build.ex_libs stable_GoSort authdoc.ex_hcl extensions.ex_enc
    ex_default_hcl (ex_env no_faults) frontend.ex_api ex_texts ex_server ex_forward ports.ex_json ex_order
    ex_settings (ex_sync_world ex_acked) (mkStore ∅ ∅) (frontend.mkFrontends ∅ ∅)
    (mkStatuses {[ "other" := mkObject 1 (mkClassStatus None None) ]} ∅ ∅ ∅ ∅) s topo Hs) as (Hc & _).
  rewrite Hc; [reflexivity|]. clear. intros c Hin Hn.
  apply elem_of_cons in Hin as [->|Hin]; [discriminate Hn|].
  apply elem_of_cons in Hin as [->|[]%elem_of_nil]. intros He. discriminate He.
Defined.

End engine.
