(* ===== verification/Base64.v ===== *)
(** * Base64 without padding

    [base64.RawURLEncoding] of the Go standard library: the encoding of
    tokens, keys and sealed cookies.  Decoding skips line ends and, like
    Go's non-strict decoder, ignores the bits of the last character that
    reach no byte. *)

From S2P Require Import Prelude GoStrings.
From stdpp Require Import options.

#[local] Open Scope Z_scope.

Module base64.

(** ** The alphabet of RFC 4648, section 5 *)

Definition digit (v : Z) : ascii :=
  byte_of (if v <? 26 then 65 + v else if v <? 52 then 71 + v else if v <? 62 then v - 4
           else if v =? 62 then 45 else 95).

Definition value (c : ascii) : option Z :=
  let b := byte_val c in
  if is_upper c then Some (b - 65) else if is_lower c then Some (b - 71)
  else if is_digit c then Some (b + 4) else if b =? 45 then Some 62
  else if b =? 95 then Some 63 else None.

(** ** Groups of six bits *)

Fixpoint sextets (l : list Z) : list Z :=
  match l with
  | a :: b :: c :: l =>
      a `div` 4 :: a `mod` 4 * 16 + b `div` 16 :: b `mod` 16 * 4 + c `div` 64 :: c `mod` 64 :: sextets l
  | [a; b] => [a `div` 4; a `mod` 4 * 16 + b `div` 16; b `mod` 16 * 4]
  | [a] => [a `div` 4; a `mod` 4 * 16]
  | [] => []
  end.

Fixpoint octets (l : list Z) : option (list Z) :=
  match l with
  | a :: b :: c :: d :: l =>
      (λ r, a * 4 + b `div` 16 :: b `mod` 16 * 16 + c `div` 4 :: c `mod` 4 * 64 + d :: r) <$> octets l
  | [a; b; c] => Some [a * 4 + b `div` 16; b `mod` 16 * 16 + c `div` 4]
  | [a; b] => Some [a * 4 + b `div` 16]
  | [_] => None
  | [] => Some []
  end.

Definition encode (s : string) : string := bytes (byte_val <$> (digit <$> sextets (byte_vals s))).

Definition line_end (c : ascii) : bool := (byte_val c =? 10) || (byte_val c =? 13).

Fixpoint values (s : string) : option (list Z) :=
  match s with
  | EmptyString => Some []
  | String c s => if line_end c then values s else v ← value c; l ← values s; Some (v :: l)
  end.

Definition decode (s : string) : option string := l ← values s; bytes <$> octets l.

(** ** The round trip *)

Lemma value_digit v : 0 ≤ v < 64 → value (digit v) = Some v ∧ line_end (digit v) = false.
Proof.
  intros Hv.
  assert (Forall (λ v, value (digit v) = Some v ∧ line_end (digit v) = false) (seqZ 0 64)) as H.
  { apply (bool_decide_unpack _). vm_compute. exact I. }
  rewrite Forall_forall in H. apply H. apply list_elem_of_In, elem_of_seqZ. lia.
Qed.

(** Lists by threes, and what is left. *)
Lemma list_ind3 {A} (P : list A → Prop) :
  P [] → (∀ a, P [a]) → (∀ a b, P [a; b]) → (∀ a b c l, P l → P (a :: b :: c :: l)) → ∀ l, P l.
Proof.
  intros H0 H1 H2 H3 l. induction l as [l IH] using (induction_ltof1 _ length).
  unfold ltof in IH. destruct l as [|a [|b [|c l]]]; try done. apply H3, IH. simpl. lia.
Qed.

Lemma byte_vals_range s : Forall (λ z, 0 ≤ z < 256) (byte_vals s).
Proof. induction s; constructor; [apply byte_val_range|done]. Qed.

Lemma bytes_byte_vals s : bytes (byte_vals s) = s.
Proof. induction s as [|c s IH]; [done|]. cbn [byte_vals bytes foldr]. rewrite byte_of_val. by f_equal. Qed.

Lemma sextets_range l : Forall (λ z, 0 ≤ z < 256) l → Forall (λ z, 0 ≤ z < 64) (sextets l).
Proof.
  induction l as [|a|a b|a b c l IH] using list_ind3; intros H;
    repeat match goal with H : Forall _ (_ :: _) |- _ => apply Forall_cons_iff in H as [? ?] end; simpl;
    repeat (apply Forall_cons_iff; split; [Z.div_mod_to_equations; lia|]);
    try apply Forall_nil; try by apply IH.
Qed.

Lemma octets_sextets l : Forall (λ z, 0 ≤ z < 256) l → octets (sextets l) = Some l.
Proof.
  induction l as [|a|a b|a b c l IH] using list_ind3; intros H;
    repeat match goal with H : Forall _ (_ :: _) |- _ => apply Forall_cons_iff in H as [? ?] end; simpl;
    rewrite ?IH by done; simpl; repeat f_equal; Z.div_mod_to_equations; lia.
Qed.

Lemma values_digits l :
  Forall (λ z, 0 ≤ z < 64) l → values (bytes (byte_val <$> (digit <$> l))) = Some l.
Proof.
  induction 1 as [|v l Hv _ IH]; [done|]. cbn [fmap list_fmap bytes foldr values].
  rewrite byte_of_val. destruct (value_digit v Hv) as [-> ->]. unfold bytes in IH.
  simpl in IH |- *. by rewrite IH.
Qed.

Lemma decode_encode s : decode (encode s) = Some s.
Proof.
  unfold decode, encode. rewrite values_digits by apply sextets_range, byte_vals_range.
  simpl. rewrite octets_sextets by apply byte_vals_range. simpl. by rewrite bytes_byte_vals.
Qed.

Lemma encode_nonempty s : s ≠ "" → encode s ≠ "".
Proof. intros Hs He. pose proof (decode_encode s) as H. rewrite He in H. by injection H. Qed.

#[global] Instance encode_inj : Inj (=) (=) encode.
Proof. intros s t H. apply (inj Some). by rewrite <-!decode_encode, H. Qed.

Example rfc4648_vectors :
  encode <$> ["f"; "fo"; "foo"; "foob"; "fooba"; "foobar"] =
  ["Zg"; "Zm8"; "Zm9v"; "Zm9vYg"; "Zm9vYmE"; "Zm9vYmFy"].
Proof. vm_compute. reflexivity. Qed.

End base64.
