(* ===== verification/Jwt.v ===== *)
(** * Bearer tokens

    Models [internal/extensions/auth/jwt.go]: the validation of compact
    JWTs, the cache of the issuer's keys with its refresh policy, key and
    algorithm parsing, and the rendering of claims.

    The outside world answers the [n]-th call of a provider by [answer n];
    signature primitives, digests and JSON decoding are classes.  Provider
    functions run in a monad whose state (the provider and the number of
    calls made) survives errors. *)

From S2P Require Import Prelude GoStrings Compiled Tables Auth Base64.
From stdpp Require Import options.

#[local] Open Scope Z_scope.

(** ** The network *)

Module web.

Inductive Call :=
  | Get (url : string)
  | Post (url : string) (form : gmap string (list string)).

(** An answer; a body of [None] could not be read to its end. *)
Inductive Reply :=
  | Unreachable
  | Answered (status : Z) (body : option string).

Class Web := { answer : nat → Call → Reply }.

(** [io.LimitReader(body, 1<<20)]. *)
Definition limit (body : string) : string :=
  if (N.of_nat (len body) <=? 1048576)%N then body else stake (N.to_nat 1048576) body.
#[global] Opaque limit.

(** A provider's method: an error or a value, and the state either way. *)
Definition Act (S A : Type) : Type := S → result auth.AuthError A * S.

#[global] Instance act_ret {S} : MRet (Act S) := λ A a s, (Ok a, s).
#[global] Instance act_bind {S} : MBind (Act S) := λ A B f m s,
  match m s with (Ok a, s) => f a s | (Err e, s) => (Err e, s) end.

Definition lift {S A} (r : result auth.AuthError A) : Act S A := λ s, (r, s).
Definition get {S} : Act S S := λ s, (Ok s, s).
Definition modify {S} (f : S → S) : Act S unit := λ s, (Ok tt, f s).
Definition fail {S A} (e : auth.AuthError) : Act S A := λ s, (Err e, s).

Lemma act_bind_Ok {S A B} (m : Act S A) (f : A → Act S B) s b s' :
  (m ≫= f) s = (Ok b, s') ↔ ∃ a s1, m s = (Ok a, s1) ∧ f a s1 = (Ok b, s').
Proof. unfold mbind, act_bind. destruct (m s) as [[a|e] s1]; naive_solver. Qed.

(** A property of states every method keeps is kept by their composition. *)
Lemma act_bind_keeps {S A B} (P : S → Prop) (m : Act S A) (f : A → Act S B) s :
  P (m s).2 → (∀ a s1, m s = (Ok a, s1) → P s1 → P (f a s1).2) → P ((m ≫= f) s).2.
Proof. unfold mbind, act_bind. destruct (m s) as [[a|e] s1]; naive_solver. Qed.

End web.

Module jwt.
Import web auth.

(** ** Constants, in nanoseconds *)

Definition clockSkew : Z := 60 * 1000000000.
Definition jwksTTL : Z := 600 * 1000000000.
Definition jwksMissBackoff : Z := 30 * 1000000000.

(** ** Keys and algorithms *)

Inductive Hash := SHA256 | SHA384 | SHA512.
Inductive Curve := P256 | P384 | P521.
Inductive PublicKey :=
  | RSAKey (n e : Z)
  | ECKey (curve : Curve) (x y : Z).
Inductive Scheme := PKCS1v15 | PSS | ECDSA.

#[global] Instance Curve_eq_dec : EqDecision Curve.
Proof. solve_decision. Defined.
#[global] Instance PublicKey_eq_dec : EqDecision PublicKey.
Proof. solve_decision. Defined.

Definition bitSize (c : Curve) : Z :=
  match c with P256 => 256 | P384 => 384 | P521 => 521 end.

Class Signatures := {
  digest : Hash → string → string;
  rsaVerifyPKCS1v15 : Z → Z → Hash → string → string → bool;   (** modulus, exponent *)
  rsaVerifyPSS : Z → Z → Hash → string → string → bool;
  ecdsaVerify : Curve → Z → Z → string → Z → Z → bool;
}.

(** [big.Int.SetBytes]. *)
Definition setBytes (s : string) : Z := fold_left (λ acc b, acc * 256 + b) (byte_vals s) 0.

Definition curveFor (name : string) : option Curve :=
  if name == "P-256" then Some P256 else if name == "P-384" then Some P384
  else if name == "P-521" then Some P521 else None.

Definition algorithm (alg : string) : option (Hash * Scheme) :=
  if alg == "RS256" then Some (SHA256, PKCS1v15) else if alg == "RS384" then Some (SHA384, PKCS1v15)
  else if alg == "RS512" then Some (SHA512, PKCS1v15) else if alg == "PS256" then Some (SHA256, PSS)
  else if alg == "PS384" then Some (SHA384, PSS) else if alg == "PS512" then Some (SHA512, PSS)
  else if alg == "ES256" then Some (SHA256, ECDSA) else if alg == "ES384" then Some (SHA384, ECDSA)
  else if alg == "ES512" then Some (SHA512, ECDSA) else None.

Record jwkKey := mkJWK {
  jkKty : string; jkKid : string; jkUse : string;
  jkN : string; jkE : string;
  jkCrv : string; jkX : string; jkY : string;
}.

Definition parseJWK (key : jwkKey) : option PublicKey :=
  if jkKty key == "RSA" then
    n ← base64.decode (jkN key); e ← base64.decode (jkE key);
    Some (RSAKey (setBytes n) (int64_wrap (setBytes e)))
  else if jkKty key == "EC" then
    curve ← curveFor (jkCrv key); x ← base64.decode (jkX key); y ← base64.decode (jkY key);
    Some (ECKey curve (setBytes x) (setBytes y))
  else None.

(** [verifyRSAPKCS1], [verifyRSAPSS] and [verifyECDSA]. *)
Definition verify {sigs : Signatures} (scheme : Scheme) (key : PublicKey) (hash : Hash)
    (hashed signature : string) : bool :=
  match scheme, key with
  | PKCS1v15, RSAKey n e => rsaVerifyPKCS1v15 n e hash hashed signature
  | PSS, RSAKey n e => rsaVerifyPSS n e hash hashed signature
  | ECDSA, ECKey curve x y =>
      let size := Z.to_nat ((bitSize curve + 7) `div` 8) in
      if bool_decide (len signature = 2 * size)%nat
      then ecdsaVerify curve x y hashed (setBytes (stake size signature)) (setBytes (sdrop size signature))
      else false
  | _, _ => false
  end.

(** ** Claims *)

(** [any] as [encoding/json] fills it, with [UseNumber]. *)
Inductive JSON :=
  | JNull
  | JBool (b : bool)
  | JNumber (text : string)
  | JString (s : string)
  | JArray (elements : list JSON)
  | JObject (fields : list (string * JSON)).

Fixpoint canonicalValues (value : JSON) : list string :=
  match value with
  | JString s => [s]
  | JBool b => [if b then "true" else "false"]
  | JNumber text => [text]
  | JArray elements => flat_map canonicalValues elements
  | _ => []
  end.

(** Claims whose rendering is nil are left out; a non-nil one has values. *)
Definition canonicalClaims (payload : gmap string JSON) : gmap string (list string) :=
  omap (λ value, match canonicalValues value with [] => None | values => Some values end) payload.

Class TokenJSON := {
  decodeHeader : string → option (string * string);      (** [alg] and [kid] *)
  decodeClaims : string → option (gmap string JSON);
  decodeJWKS : string → option (list jwkKey);
  decodeJWKSURI : string → option string;                (** of a discovery document *)
  numberSeconds : string → option Z;                     (** [Float64], converted to [int64] *)
}.

(** [time.Unix] counts seconds from year 1 in an [int64]; [Add] saturates.
    A [time.Time] here is the nanosecond count since 1970. *)
Definition unixToInternal : Z := 62135596800.
Definition timeUnix (seconds : Z) : Z :=
  (int64_wrap (int64_wrap seconds + unixToInternal) - unixToInternal) * 1000000000.
Definition maxTime : Z := (2 ^ 63 - 1 - unixToInternal) * 1000000000.

Definition numericDate {json : TokenJSON} (value : option JSON) : option Z :=
  match value with
  | Some (JNumber text) => timeUnix <$> numberSeconds text
  | _ => None
  end.

Section validator.
Context {web : Web} {json : TokenJSON} {sigs : Signatures}.

(** ** The validator and its cache *)

(** The zero [time.Time] is [None]. *)
Record JWTValidator := mkValidator {
  jvJWKSURL : string;
  jvKeys : option (gmap string (list PublicKey));
  jvFetchedAt : option Z;
  jvMissedAt : option Z;
}.

Definition NewJWTValidator (cfg : compiled.AuthJWT) : JWTValidator :=
  mkValidator (compiled.ajJWKSURL cfg) None None None.

Abbreviation V := (JWTValidator * nat)%type.

Definition elapsed (since : option Z) (now limit : Z) : bool :=
  match since with None => true | Some t => limit <? now - t end.

Definition fetchJSON (url : string) : Act V string := λ '(v, n),
  (match answer n (Get url) with
   | Answered status body =>
       if status =? 200 then of_option Unavailable (limit <$> body) else Err Unavailable
   | Unreachable => Err Unavailable
   end, (v, S n)).

Definition discovery_url (issuer : string) : string :=
  trimSuffix issuer "/" +:+ "/.well-known/openid-configuration".

Definition resolveJWKSURLLocked (cfg : compiled.AuthJWT) : Act V string :=
  s ← get;
  if jvJWKSURL s.1 != "" then mret (jvJWKSURL s.1)
  else
    document ← fetchJSON (discovery_url (compiled.ajIssuer cfg));
    url ← lift (of_option Unavailable (decodeJWKSURI document));
    if url == "" then fail Unavailable
    else modify (λ '(v, n), (mkValidator url (jvKeys v) (jvFetchedAt v) (jvMissedAt v), n)) ;; mret url.

(** One iteration over the keys of a set. *)
Definition add_key (keys : gmap string (list PublicKey)) (key : jwkKey) : gmap string (list PublicKey) :=
  if (jkUse key != "") && (jkUse key != "sig") then keys
  else match parseJWK key with
       | Some parsed => <[jkKid key := default [] (keys !! jkKid key) ++ [parsed]]> keys
       | None => keys
       end.

Definition fetchLocked (cfg : compiled.AuthJWT) (now : Z) : Act V unit :=
  url ← resolveJWKSURLLocked cfg;
  document ← fetchJSON url;
  set ← lift (of_option Unavailable (decodeJWKS document));
  let keys := fold_left add_key set ∅ in
  if bool_decide (keys = ∅) then fail Unavailable
  else modify (λ '(v, n), (mkValidator (jvJWKSURL v) (Some keys) (Some now) (jvMissedAt v), n)).

Definition lookupLocked (v : JWTValidator) (kid : string) : list PublicKey :=
  let keys := default ∅ (jvKeys v) in
  if kid != "" then default [] (keys !! kid) else concat (map_to_list keys).*2.

Definition refresh_stale (cfg : compiled.AuthJWT) (now : Z) : Act V unit :=
  s ← get;
  if bool_decide (jvKeys s.1 = None) || elapsed (jvFetchedAt s.1) now jwksTTL
  then fetchLocked cfg now else mret tt.

Definition candidates (kid : string) : Act V (list PublicKey) :=
  s ← get; mret (lookupLocked s.1 kid).

Definition refetch_missed (cfg : compiled.AuthJWT) (now : Z) : Act V unit :=
  s ← get;
  if elapsed (jvMissedAt s.1) now jwksMissBackoff then
    modify (λ '(v, n), (mkValidator (jvJWKSURL v) (jvKeys v) (jvFetchedAt v) (Some now), n)) ;;
    fetchLocked cfg now
  else fail BadCredentials.

Definition keysFor (cfg : compiled.AuthJWT) (now : Z) (kid : string) : Act V (list PublicKey) :=
  refresh_stale cfg now ;;
  keys ← candidates kid;
  if bool_decide (keys ≠ []) then mret keys
  else
    refetch_missed cfg now ;;
    keys ← candidates kid;
    if bool_decide (keys ≠ []) then mret keys else fail BadCredentials.

(** ** Validation *)

Definition single (claims : gmap string (list string)) (name value : string) : bool :=
  default [] (claims !! name) == [value].

Definition expired (payload : gmap string JSON) (now : Z) : bool :=
  match numericDate (payload !! "exp") with
  | None => true
  | Some exp => Z.min maxTime (exp + clockSkew) <? now
  end.

Definition premature (payload : gmap string JSON) (now : Z) : bool :=
  match numericDate (payload !! "nbf") with
  | None => false
  | Some nbf => now + clockSkew <? nbf
  end.

Definition validateClaims (cfg : compiled.AuthJWT) (now : Z) (payloadRaw : string) :
    result AuthError (gmap string (list string)) :=
  payload ← of_option BadCredentials (decodeClaims payloadRaw);
  let claims := canonicalClaims payload in
  guard_err (single claims "iss" (compiled.ajIssuer cfg)) BadCredentials;;
  guard_err (intersects (default [] (claims !! "aud")) (compiled.ajAudiences cfg)) BadCredentials;;
  guard_err (negb (expired payload now)) BadCredentials;;
  guard_err (negb (premature payload now)) BadCredentials;;
  Ok claims.

(** The three parts of a compact token. *)
Definition token_parts (token : string) : option (string * string * string) :=
  match splitOn "." token with [h; p; s] => Some (h, p, s) | _ => None end.

Definition Validate (cfg : compiled.AuthJWT) (now : Z) (token : string) : Act V (gmap string (list string)) :=
  parts ← lift (of_option BadCredentials (token_parts token));
  let '(h, p, s) := parts in
  headerRaw ← lift (of_option BadCredentials (base64.decode h));
  header ← lift (of_option BadCredentials (decodeHeader headerRaw));
  alg ← lift (of_option BadCredentials (algorithm header.1));
  payloadRaw ← lift (of_option BadCredentials (base64.decode p));
  signature ← lift (of_option BadCredentials (base64.decode s));
  keys ← keysFor cfg now header.2;
  let hashed := digest alg.1 (h +:+ "." +:+ p) in
  if existsb (λ key, verify alg.2 key alg.1 hashed signature) keys
  then lift (validateClaims cfg now payloadRaw)
  else fail BadCredentials.

End validator.

(** ** What the cache holds *)

Section cache.
Context {web : Web} {json : TokenJSON} {sigs : Signatures}.
Implicit Types (v : JWTValidator) (n m : nat).

(** [key] was listed for signing under [kid] in the document [url] returned
    to call [m]. *)
Definition served (url : string) (m : nat) (kid : string) (key : PublicKey) : Prop :=
  ∃ body set jwk, answer m (Get url) = Answered 200 (Some body) ∧ decodeJWKS (limit body) = Some set ∧
    jwk ∈ set ∧ (jkUse jwk = "" ∨ jkUse jwk = "sig") ∧ jkKid jwk = kid ∧ parseJWK jwk = Some key.

(** The configured key set, or the one the issuer's discovery document
    announced. *)
Definition announced (cfg : compiled.AuthJWT) (n : nat) (url : string) : Prop :=
  url ≠ "" ∧
  (url = compiled.ajJWKSURL cfg ∨
   compiled.ajJWKSURL cfg = "" ∧ ∃ m body, (m < n)%nat ∧
     answer m (Get (discovery_url (compiled.ajIssuer cfg))) = Answered 200 (Some body) ∧
     decodeJWKSURI (limit body) = Some url).

(** The cached keys are those of one document of the announced URL. *)
Definition cache_ok (cfg : compiled.AuthJWT) (s : JWTValidator * nat) : Prop :=
  (jvJWKSURL s.1 = "" ∧ compiled.ajJWKSURL cfg = "" ∨ announced cfg s.2 (jvJWKSURL s.1)) ∧
  (jvKeys s.1 = None ↔ jvFetchedAt s.1 = None) ∧
  ∀ keys kid key, jvKeys s.1 = Some keys → key ∈ default [] (keys !! kid) →
    announced cfg s.2 (jvJWKSURL s.1) ∧ ∃ m, (m < s.2)%nat ∧ served (jvJWKSURL s.1) m kid key.

Lemma announced_mono cfg n n' url : (n ≤ n')%nat → announced cfg n url → announced cfg n' url.
Proof. intros Hn [? [->|(? & m & body & ? & ?)]]; split; eauto 10 with lia. right. split; [done|].
  exists m, body. split; [lia|done]. Qed.

Lemma cache_ok_mono cfg v n n' : (n ≤ n')%nat → cache_ok cfg (v, n) → cache_ok cfg (v, n').
Proof.
  intros Hn (Hu & Hz & Hk). split_and!; simpl in *; [naive_solver eauto using announced_mono|done|].
  intros keys kid key H1 H2. destruct (Hk keys kid key H1 H2) as (Ha & m & Hm & Hs).
  split; [by eapply announced_mono|]. exists m. split; [lia|done].
Qed.

Lemma cache_ok_missed cfg v n t :
  cache_ok cfg (v, n) → cache_ok cfg (mkValidator (jvJWKSURL v) (jvKeys v) (jvFetchedAt v) t, n).
Proof. done. Qed.

Lemma fetchJSON_cases url v n r s :
  fetchJSON url (v, n) = (r, s) →
  s = (v, S n) ∧
  match r with
  | Ok doc => ∃ body, answer n (Get url) = Answered 200 (Some body) ∧ doc = limit body
  | Err e => e = Unavailable
  end.
Proof.
  unfold fetchJSON. intros [= <- <-]. split; [done|].
  destruct (answer n (Get url)) as [|status [body|]]; [done|..];
    (destruct (Z.eqb_spec status 200) as [->|]; simpl; [|done]); by try exists body.
Qed.

Lemma add_key_spec keys jwk kid key :
  key ∈ default [] (add_key keys jwk !! kid) ↔
  key ∈ default [] (keys !! kid) ∨
  (jkUse jwk = "" ∨ jkUse jwk = "sig") ∧ jkKid jwk = kid ∧ parseJWK jwk = Some key.
Proof.
  unfold add_key. destruct ((jkUse jwk != "") && (jkUse jwk != "sig")) eqn:Hu.
  { apply andb_true_iff in Hu as [H1%negb_true_iff%bool_decide_eq_false H2%negb_true_iff%bool_decide_eq_false].
    naive_solver. }
  assert (jkUse jwk = "" ∨ jkUse jwk = "sig") as Huse.
  { apply andb_false_iff in Hu as [H|H]; apply negb_false_iff, bool_decide_eq_true in H; auto. }
  destruct (parseJWK jwk) as [parsed|]; [|naive_solver].
  clear Hu. rewrite lookup_insert. case_decide as Hk.
  - subst kid. simpl. rewrite elem_of_app, list_elem_of_singleton. naive_solver.
  - split; [by left|]. intros [?|(_ & ? & _)]; done.
Qed.

Lemma add_keys_spec set keys kid key :
  key ∈ default [] (fold_left add_key set keys !! kid) ↔
  key ∈ default [] (keys !! kid) ∨
  ∃ jwk, jwk ∈ set ∧ (jkUse jwk = "" ∨ jkUse jwk = "sig") ∧ jkKid jwk = kid ∧ parseJWK jwk = Some key.
Proof.
  revert keys. induction set as [|jwk set IH]; intros keys; simpl.
  { split; [by left|]. intros [?|(? & []%elem_of_nil & _)]. done. }
  rewrite IH, add_key_spec. setoid_rewrite elem_of_cons. naive_solver.
Qed.

Lemma resolve_ok cfg v n r s :
  cache_ok cfg (v, n) → resolveJWKSURLLocked cfg (v, n) = (r, s) →
  cache_ok cfg s ∧ jvMissedAt s.1 = jvMissedAt v ∧ jvFetchedAt s.1 = jvFetchedAt v ∧ jvKeys s.1 = jvKeys v ∧
  (s.2 ≤ n + (if jvJWKSURL v == "" then 1 else 0))%nat ∧ (jvJWKSURL v ≠ "" → jvJWKSURL s.1 = jvJWKSURL v) ∧
  match r with
  | Ok url => announced cfg s.2 url ∧ jvJWKSURL s.1 = url
  | Err e => e = Unavailable
  end.
Proof.
  intros Hok. unfold resolveJWKSURLLocked. unfold mbind at 1, act_bind at 1. cbn [get fst].
  destruct (decide (jvJWKSURL v = "")) as [Hu|Hu].
  2:{ rewrite (bool_decide_eq_false_2 _ Hu). cbn [negb]. intros [= <- <-]. split_and!; try done; [simpl; lia|].
      destruct Hok as ([[He _]|Ha] & _); [by simpl in He|done]. }
  rewrite (bool_decide_eq_true_2 _ Hu). cbn [negb]. unfold mbind at 1, act_bind at 1.
  destruct (fetchJSON _ (v, n)) as [r1 s1] eqn:Hf. apply fetchJSON_cases in Hf as [-> Hdoc].
  assert (cache_ok cfg (v, S n)) as Hok' by (eapply cache_ok_mono; [|done]; lia).
  destruct r1 as [doc|e]; [|intros [= <- <-]; split_and!; try done; simpl; lia].
  destruct Hdoc as (body & Ha & ->).
  unfold mbind at 1, act_bind at 1. unfold lift.
  destruct (decodeJWKSURI (limit body)) as [url|] eqn:Hd; cbn [of_option].
  2:{ intros [= <- <-]. split_and!; try done; simpl; lia. }
  case_bool_decide as Hurl; [intros [= <- <-]; split_and!; try done; simpl; lia|].
  intros [= <- <-]. destruct Hok as ([[_ Hc]|[Hne _]] & Hz & Hk); [|simpl in Hne; congruence].
  assert (announced cfg (S n) url) as Hann.
  { split; [done|]. right. split; [done|]. exists n, body. split_and!; [lia|done..]. }
  clear Hd Ha.
  split_and!; simpl; [|reflexivity|reflexivity|reflexivity|lia|congruence|done|done].
  split_and!; simpl; [by right|exact Hz|]. intros keys kid key H1 H2. destruct (Hk keys kid key H1 H2) as [[Hne _] _].
  by simpl in Hne.
Qed.

(** What one fetch does to the state, and what it sends. *)
Lemma fetchLocked_ok cfg now v n r s :
  cache_ok cfg (v, n) → fetchLocked cfg now (v, n) = (r, s) →
  cache_ok cfg s ∧ jvMissedAt s.1 = jvMissedAt v ∧
  (s.2 ≤ n + (if jvJWKSURL v == "" then 1 else 0) + 1)%nat ∧
  (jvJWKSURL v ≠ "" → jvJWKSURL s.1 = jvJWKSURL v) ∧
  match r with
  | Ok _ => jvFetchedAt s.1 = Some now ∧ jvJWKSURL s.1 ≠ ""
  | Err e => e = Unavailable ∧ jvFetchedAt s.1 = jvFetchedAt v ∧ jvKeys s.1 = jvKeys v
  end.
Proof.
  intros Hok. unfold fetchLocked. unfold mbind at 1, act_bind at 1.
  destruct (resolveJWKSURLLocked cfg (v, n)) as [r1 s1] eqn:Hr.
  apply resolve_ok in Hr as (Hok1 & Hm & Hf & Hk & Hn & Hu & Hurl); [|done].
  destruct s1 as [v1 n1]. simpl in *.
  destruct r1 as [url|e]; [|intros [= <- <-]; simpl; split_and!; auto; lia].
  destruct Hurl as [Hann Hvu].
  unfold mbind at 1, act_bind at 1. destruct (fetchJSON url (v1, n1)) as [r2 s2] eqn:Hj.
  apply fetchJSON_cases in Hj as [-> Hdoc].
  assert (cache_ok cfg (v1, S n1)) as Hok2 by (eapply cache_ok_mono; [|done]; lia).
  destruct r2 as [doc|e]; [|intros [= <- <-]; simpl; split_and!; auto; lia].
  destruct Hdoc as (body & Ha & ->).
  unfold mbind at 1, act_bind at 1. unfold lift.
  destruct (decodeJWKS (limit body)) as [set|] eqn:Hd; cbn [of_option].
  2:{ intros [= <- <-]. simpl. split_and!; auto; lia. }
  cbv zeta. destruct (bool_decide (fold_left add_key set ∅ = ∅)); [intros [= <- <-]; simpl; split_and!; auto; lia|].
  intros [= <- <-]. simpl. destruct Hann as [Hne Hann']. rewrite Hvu in *.
  split_and!; auto; [|lia]. split_and!; simpl.
  - right. eapply announced_mono; [|by split]. lia.
  - done.
  - intros keys kid key [= <-] Hin. split; [eapply announced_mono; [|by split]; lia|].
    exists n1. split; [lia|].
    apply add_keys_spec in Hin as [Hin|(jwk & Hjwk)]; [by rewrite lookup_empty, elem_of_nil in Hin|].
    exists body, set, jwk. naive_solver.
Qed.

End cache.

(** ** The refresh rate *)

(** How many events at least [period] apart can still happen in
    [t .. t1] when the last one was at [last]. *)
Definition pot (last : option Z) (period t t1 : Z) : Z :=
  Z.max 0 (1 + (t1 - match last with None => t | Some f => Z.max t (f + period) end) `div` period).

Lemma pot_event last period t now t1 :
  0 < period → t ≤ now ≤ t1 → elapsed last now period = true →
  1 + pot (Some now) period now t1 ≤ pot last period t t1.
Proof.
  intros Hp Ht He. unfold pot, elapsed in *.
  rewrite (Z.max_r now (now + period)) by lia.
  replace (t1 - (now + period)) with (t1 - now + (-1) * period) by lia. rewrite Z.div_add by lia.
  pose proof (Z.div_pos (t1 - now) period ltac:(lia) Hp).
  assert (∀ x, x ≤ now → (t1 - now) `div` period ≤ (t1 - x) `div` period) as Hm
    by (intros; apply Z.div_le_mono; lia).
  destruct last as [f|]; [apply Z.ltb_lt in He; specialize (Hm (Z.max t (f + period)) ltac:(lia))
                         |specialize (Hm t ltac:(lia))]; lia.
Qed.

Lemma pot_wait last period t now t1 :
  0 < period → t ≤ now → pot last period now t1 ≤ pot last period t t1.
Proof.
  intros Hp Ht. unfold pot. apply Z.max_le_compat_l, Zplus_le_compat_l, Z.div_le_mono; [lia|].
  destruct last; lia.
Qed.

Lemma pot_later last period now t1 :
  0 < period → (∀ f, last = Some f → f ≤ now) → pot (Some now) period now t1 ≤ pot last period now t1.
Proof.
  intros Hp Hf. unfold pot. apply Z.max_le_compat_l, Zplus_le_compat_l, Z.div_le_mono; [lia|].
  destruct last as [f|]; [specialize (Hf f eq_refl)|]; lia.
Qed.

Lemma pot_nonneg last period t t1 : 0 ≤ pot last period t t1.
Proof. unfold pot. lia. Qed.

Section rate.
Context {web : Web} {json : TokenJSON} {sigs : Signatures}.
Variables (cfg : compiled.AuthJWT) (t1 : Z).

Definition fetched_by (t : Z) (v : JWTValidator) : Prop := ∀ f, jvFetchedAt v = Some f → f ≤ t.

(** The requests a state can still send until [t1] while the endpoints work. *)
Definition budget (t : Z) (v : JWTValidator) : Z :=
  (if jvJWKSURL v == "" then 1 else 0) + pot (jvFetchedAt v) jwksTTL t t1 + pot (jvMissedAt v) jwksMissBackoff t t1.

Definition within (t now : Z) (s s' : JWTValidator * nat) : Prop :=
  Z.of_nat s'.2 + budget now s'.1 ≤ Z.of_nat s.2 + budget t s.1 ∧ fetched_by now s'.1.

Definition healthy : Prop := ∀ now s, cache_ok cfg s → (fetchLocked cfg now s).1 = Ok tt.

Lemma within_trans t u now s1 s2 s3 : within t u s1 s2 → within u now s2 s3 → within t now s1 s3.
Proof. intros [? ?] [? ?]. split; [lia|done]. Qed.

Lemma within_wait t now s : t ≤ now → fetched_by t s.1 → within t now s s.
Proof.
  intros Ht Hf. split; [|intros f Hs; specialize (Hf f Hs); lia]. unfold budget.
  pose proof (pot_wait (jvFetchedAt s.1) jwksTTL t now t1 ltac:(done) Ht).
  pose proof (pot_wait (jvMissedAt s.1) jwksMissBackoff t now t1 ltac:(done) Ht). lia.
Qed.

Lemma fetchLocked_by now v n r s :
  cache_ok cfg (v, n) → fetchLocked cfg now (v, n) = (r, s) → fetched_by now v → fetched_by now s.1.
Proof.
  intros Hok Hf Hby. apply fetchLocked_ok in Hf as (_ & _ & _ & _ & Hr); [|done].
  destruct r; [destruct Hr as [Hr _]; intros f; rewrite Hr; intros [= <-]; lia|].
  destruct Hr as (_ & Hr & _). intros f. rewrite Hr. apply Hby.
Qed.

Lemma refresh_stale_ok t now v n r s :
  cache_ok cfg (v, n) → refresh_stale cfg now (v, n) = (r, s) →
  cache_ok cfg s ∧ (fetched_by now v → fetched_by now s.1) ∧
  (r = Ok tt → elapsed (jvFetchedAt s.1) now jwksTTL = false) ∧
  (healthy → fetched_by t v → t ≤ now ≤ t1 → within t now (v, n) s).
Proof.
  intros Hok. unfold refresh_stale. unfold mbind, act_bind. cbn [get fst].
  destruct (_ || _) eqn:Hc.
  - intros Hf. assert (elapsed (jvFetchedAt v) now jwksTTL = true) as He.
    { apply orb_true_iff in Hc as [Hn%bool_decide_eq_true|]; [|done].
      destruct Hok as (_ & Hz & _). apply Hz in Hn. simpl in Hn. by rewrite Hn. }
    pose proof (λ H : healthy, eq_trans (f_equal fst (eq_sym Hf)) (H now (v, n) Hok)) as Hh. simpl in Hh.
    pose proof (fetchLocked_by _ _ _ _ _ Hok Hf) as Hby'.
    apply fetchLocked_ok in Hf as (Hok' & Hm & Hn & _ & Hr); [|done].
    split_and!; [done..| |].
    + intros ->. destruct Hr as [-> _]. simpl. rewrite Z.sub_diag. done.
    + intros H Hby Ht. rewrite (Hh H) in Hr. destruct Hr as [Hfa Hu]. split; [|intros f; rewrite Hfa; intros [= <-]; lia].
      unfold budget. rewrite Hfa, Hm, (bool_decide_eq_false_2 _ Hu). simpl.
      pose proof (pot_event (jvFetchedAt v) jwksTTL t now t1 ltac:(done) Ht He).
      pose proof (pot_wait (jvMissedAt v) jwksMissBackoff t now t1 ltac:(done) ltac:(lia)).
      destruct (jvJWKSURL v == ""); lia.
  - apply orb_false_iff in Hc as [_ Hc]. intros [= <- <-]. split_and!; try done.
    intros _ Hby Ht. apply within_wait; [lia|done].
Qed.

Lemma refetch_missed_ok now v n r s :
  cache_ok cfg (v, n) → elapsed (jvFetchedAt v) now jwksTTL = false →
  refetch_missed cfg now (v, n) = (r, s) →
  cache_ok cfg s ∧ elapsed (jvFetchedAt s.1) now jwksTTL = false ∧ (fetched_by now v → fetched_by now s.1) ∧
  (healthy → fetched_by now v → now ≤ t1 → within now now (v, n) s).
Proof.
  intros Hok Hfresh. unfold refetch_missed. unfold mbind, act_bind. cbn [get fst].
  destruct (elapsed (jvMissedAt v) _ _) eqn:He.
  2:{ intros [= <- <-]. split_and!; [done..|]. intros _ Hby _. by apply within_wait. }
  cbn [modify]. intros Hf.
  pose proof (λ H : healthy, eq_trans (f_equal fst (eq_sym Hf)) (H now _ (cache_ok_missed _ _ _ (Some now) Hok))) as Hh. simpl in Hh.
  pose proof (fetchLocked_by _ _ _ _ _ (cache_ok_missed _ _ _ (Some now) Hok) Hf) as Hby'.
  apply fetchLocked_ok in Hf as (Hok' & Hm & Hn & _ & Hr); [|by apply cache_ok_missed].
  split_and!; [done| |exact Hby'|].
  - destruct r as [?|?]; [destruct Hr as [-> _]; simpl; by rewrite Z.sub_diag|].
    by destruct Hr as (_ & -> & _).
  - intros H Hby Ht. rewrite (Hh H) in Hr. destruct Hr as [Hfa Hu]. split; [|intros f; rewrite Hfa; intros [= <-]; lia].
    unfold budget. rewrite Hfa, Hm, (bool_decide_eq_false_2 _ Hu). simpl in *.
    pose proof (pot_event (jvMissedAt v) jwksMissBackoff now now t1 ltac:(done) ltac:(lia) He).
    pose proof (pot_later (jvFetchedAt v) jwksTTL now t1 ltac:(done) Hby).
    destruct (jvJWKSURL v == ""); lia.
Qed.

(** Keys are handed out from a fresh cache, and requests stay within the budget. *)
Lemma keysFor_ok t now kid v n r s :
  cache_ok cfg (v, n) → keysFor cfg now kid (v, n) = (r, s) →
  cache_ok cfg s ∧
  (∀ keys, r = Ok keys → keys = lookupLocked s.1 kid ∧ elapsed (jvFetchedAt s.1) now jwksTTL = false) ∧
  (fetched_by now v → fetched_by now s.1) ∧
  (healthy → fetched_by t v → t ≤ now ≤ t1 → within t now (v, n) s).
Proof.
  intros Hok. unfold keysFor. unfold mbind at 1, act_bind at 1.
  destruct (refresh_stale cfg now (v, n)) as [r1 [v1 n1]] eqn:H1.
  apply (refresh_stale_ok t) in H1 as (Hok1 & Hb1 & Hf1 & Hw1); [|done].
  destruct r1 as [[]|e]; [|by intros [= <- <-]]. specialize (Hf1 eq_refl). simpl in Hf1.
  unfold mbind at 1, act_bind at 1. unfold candidates at 1. unfold mbind at 1, act_bind at 1. cbn [get fst].
  unfold mret at 1, act_ret at 1.
  destruct (bool_decide (lookupLocked v1 kid ≠ [])); [intros [= <- <-]; split_and!; naive_solver|].
  unfold mbind at 1, act_bind at 1.
  destruct (refetch_missed cfg now (v1, n1)) as [r2 [v2 n2]] eqn:H2.
  apply refetch_missed_ok in H2 as (Hok2 & Hf2 & Hb2 & Hw2); [|done..].
  assert (healthy → fetched_by t v → t ≤ now ≤ t1 → within t now (v, n) (v2, n2)) as Hw.
  { intros H Hby Ht. pose proof (Hw1 H Hby Ht) as Hw. destruct Hw as [? Hby1]. eapply within_trans; [by split|].
    apply Hw2; [done..|lia]. }
  assert (fetched_by now v → fetched_by now v2) as Hb by (intros Hby; by apply Hb2, Hb1).
  destruct r2 as [[]|e]; [|by intros [= <- <-]].
  unfold mbind at 1, act_bind at 1. unfold candidates at 1. unfold mbind at 1, act_bind at 1. cbn [get fst].
  unfold mret at 1, act_ret at 1.
  destruct (bool_decide (lookupLocked v2 kid ≠ [])); intros [= <- <-]; split_and!; naive_solver.
Qed.

End rate.

(** ** Accepted tokens *)

Section accepted.
Context {web : Web} {json : TokenJSON} {sigs : Signatures}.
Variable cfg : compiled.AuthJWT.

(** The states a validator goes through: calls in the order of time, other
    traffic in between. *)
Inductive reached : Z → JWTValidator * nat → Prop :=
  | reached_new t n : reached t (NewJWTValidator cfg, n)
  | reached_call t s now token v' n' n :
      reached t s → t ≤ now → (Validate cfg now token s).2 = (v', n') → (n' ≤ n)%nat → reached now (v', n).

Definition asymmetric : list string :=
  ["RS256"; "RS384"; "RS512"; "PS256"; "PS384"; "PS512"; "ES256"; "ES384"; "ES512"].

(** What accepting a token at [now] means, after [n] calls: it is signed
    with an asymmetric algorithm by a key the issuer's endpoint served, and
    its claims hold now. *)
Definition verified (now : Z) (n : nat) (token : string) (claims : gmap string (list string)) : Prop :=
  ∃ h p s headerRaw payloadRaw signature alg kid hash scheme payload,
    token = h +:+ "." +:+ p +:+ "." +:+ s ∧
    base64.decode h = Some headerRaw ∧ base64.decode p = Some payloadRaw ∧ base64.decode s = Some signature ∧
    decodeHeader headerRaw = Some (alg, kid) ∧ alg ∈ asymmetric ∧ algorithm alg = Some (hash, scheme) ∧
    (∃ url m kid' key, announced cfg n url ∧ (m < n)%nat ∧ served url m kid' key ∧ (kid = "" ∨ kid = kid') ∧
       verify scheme key hash (digest hash (h +:+ "." +:+ p)) signature = true) ∧
    decodeClaims payloadRaw = Some payload ∧ claims = canonicalClaims payload ∧
    claims !! "iss" = Some [compiled.ajIssuer cfg] ∧
    (∃ aud values, claims !! "aud" = Some values ∧ aud ∈ values ∧ aud ∈ compiled.ajAudiences cfg) ∧
    (∃ exp, numericDate (payload !! "exp") = Some exp ∧ now ≤ exp + clockSkew) ∧
    (∀ nbf, numericDate (payload !! "nbf") = Some nbf → nbf ≤ now + clockSkew).

Lemma algorithm_asymmetric alg hs : algorithm alg = Some hs → alg ∈ asymmetric.
Proof.
  unfold algorithm, asymmetric.
  repeat (case_bool_decide; [subst; intros _; repeat first [left; reflexivity|right]|]). done.
Qed.

Lemma token_parts_Some token h p s :
  token_parts token = Some (h, p, s) → token = h +:+ "." +:+ p +:+ "." +:+ s.
Proof.
  unfold token_parts. intros H. rewrite <-(join_splitOn "." token).
  destruct (splitOn "." token) as [|? [|? [|? [|]]]]; by simplify_eq.
Qed.

Lemma intersects_Some values allowed :
  intersects values allowed = true → ∃ v, v ∈ values ∧ v ∈ allowed.
Proof.
  unfold intersects. rewrite existsb_exists. intros (v & Hv%list_elem_of_In & (c & Hc & He)%existsb_exists).
  apply bool_decide_eq_true in He as ->. exists c. split; [done|]. by apply list_elem_of_In.
Qed.

Lemma lookup_list_Some (claims : gmap string (list string)) name v :
  v ∈ default [] (claims !! name) → ∃ values, claims !! name = Some values ∧ v ∈ values.
Proof. destruct (claims !! name); simpl; [eauto|]. by intros ?%elem_of_nil. Qed.

Lemma validateClaims_Ok now payloadRaw claims :
  validateClaims cfg now payloadRaw = Ok claims →
  ∃ payload, decodeClaims payloadRaw = Some payload ∧ claims = canonicalClaims payload ∧
    claims !! "iss" = Some [compiled.ajIssuer cfg] ∧
    (∃ aud values, claims !! "aud" = Some values ∧ aud ∈ values ∧ aud ∈ compiled.ajAudiences cfg) ∧
    (∃ exp, numericDate (payload !! "exp") = Some exp ∧ now ≤ exp + clockSkew) ∧
    (∀ nbf, numericDate (payload !! "nbf") = Some nbf → nbf ≤ now + clockSkew).
Proof.
  unfold validateClaims. intros (payload & Hp%of_option_Ok & H)%bind_Ok.
  apply bind_Ok in H as ([] & Hiss%guard_err_Ok & H). apply bind_Ok in H as ([] & Haud%guard_err_Ok & H).
  apply bind_Ok in H as ([] & Hexp%guard_err_Ok%negb_true_iff & H).
  apply bind_Ok in H as ([] & Hnbf%guard_err_Ok%negb_true_iff & [= <-]).
  exists payload. split_and!; [done|done| | | |].
  - apply bool_decide_eq_true in Hiss. destruct (canonicalClaims payload !! "iss"); simpl in Hiss; congruence.
  - apply intersects_Some in Haud as (aud & Ha & Hall).
    apply lookup_list_Some in Ha as (values & Hv & Hin). exists aud, values. done.
  - unfold expired in Hexp. destruct (numericDate (payload !! "exp")) as [exp|]; [|done].
    apply Z.ltb_ge in Hexp. exists exp. split; [done|lia].
  - intros nbf Hn. unfold premature in Hnbf. rewrite Hn in Hnbf. by apply Z.ltb_ge in Hnbf.
Qed.

(** Validation changes the cache by a key lookup at most. *)
Lemma Validate_state now token s :
  (Validate cfg now token s).2 = s ∨ ∃ kid, (Validate cfg now token s).2 = (keysFor cfg now kid s).2.
Proof.
  unfold Validate, lift, mbind, act_bind.
  destruct (token_parts token) as [[[h p] sg]|]; [|by left]. cbn [of_option].
  destruct (base64.decode h) as [headerRaw|]; [|by left]. cbn [of_option].
  destruct (decodeHeader headerRaw) as [header|]; [|by left]. cbn [of_option].
  destruct (algorithm header.1) as [alg|]; [|by left]. cbn [of_option].
  destruct (base64.decode p) as [payloadRaw|]; [|by left]. cbn [of_option].
  destruct (base64.decode sg) as [signature|]; [|by left]. cbn [of_option].
  right. exists header.2. destruct (keysFor cfg now header.2 s) as [[keys|e] s1]; [|done]. by destruct (existsb _ _).
Qed.

Lemma Validate_cache_ok now token s : cache_ok cfg s → cache_ok cfg (Validate cfg now token s).2.
Proof.
  intros Hok. destruct (Validate_state now token s) as [->|[kid ->]]; [done|]. destruct s as [v n].
  destruct (keysFor cfg now kid (v, n)) as [r s'] eqn:Hk.
  by apply (keysFor_ok cfg 0 0) in Hk as [? _].
Qed.

Lemma Validate_within t1 t now token s :
  cache_ok cfg s → healthy cfg → fetched_by t s.1 → t ≤ now ≤ t1 →
  within t1 t now s (Validate cfg now token s).2.
Proof.
  intros Hok Hh Hby Ht. destruct (Validate_state now token s) as [->|[kid ->]]; [apply within_wait; [lia|done]|].
  destruct s as [v n], (keysFor cfg now kid (v, n)) as [r s'] eqn:Hk.
  apply (keysFor_ok cfg t1 t) in Hk as (_ & _ & _ & Hw); [|done]. by apply Hw.
Qed.

Lemma new_cache_ok n : cache_ok cfg (NewJWTValidator cfg, n).
Proof.
  split_and!; simpl; [|done|done]. destruct (decide (compiled.ajJWKSURL cfg = "")); [by left|].
  right. split; [done|]. by left.
Qed.

Lemma reached_ok t s : reached t s → cache_ok cfg s ∧ fetched_by t s.1.
Proof.
  induction 1 as [t n|t s now token v' n' n _ [IH Hby] Ht Hv Hn]; [split; [apply new_cache_ok|done]|].
  pose proof (Validate_cache_ok now token s IH) as Hok. rewrite Hv in Hok. split; [by eapply cache_ok_mono|].
  destruct s as [v m], (Validate_state now token (v, m)) as [Hs|[kid Hs]].
  - rewrite Hv in Hs. injection Hs as -> ->. simpl in *. intros f Hf. specialize (Hby f Hf). lia.
  - destruct (keysFor cfg now kid (v, m)) as [r s1] eqn:Hk. rewrite Hv in Hs. simpl in Hs. subst s1.
    apply (keysFor_ok cfg 0 0) in Hk as (_ & _ & Hb & _); [|done]. apply Hb. intros f Hf. specialize (Hby f Hf). lia.
Qed.

Lemma accepted_token_verified t s now token claims s' :
  reached t s → Validate cfg now token s = (Ok claims, s') →
  verified now s'.2 token claims ∧ ∃ f, jvFetchedAt s'.1 = Some f ∧ now - f ≤ jwksTTL.
Proof.
  intros [Hok _]%reached_ok. unfold Validate.
  intros ([[h p] sg] & s1 & [= Hparts%of_option_Ok <-] & H)%act_bind_Ok.
  apply act_bind_Ok in H as (headerRaw & s1 & [= Hh%of_option_Ok <-] & H).
  apply act_bind_Ok in H as ([alg kid] & s1 & [= Hd%of_option_Ok <-] & H).
  apply act_bind_Ok in H as ([hash scheme] & s1 & [= Halg%of_option_Ok <-] & H).
  apply act_bind_Ok in H as (payloadRaw & s1 & [= Hp%of_option_Ok <-] & H).
  apply act_bind_Ok in H as (signature & s1 & [= Hsg%of_option_Ok <-] & H).
  apply act_bind_Ok in H as (keys & s1 & Hk & H). simpl in *.
  destruct s as [v n]. apply (keysFor_ok cfg 0 0) in Hk as (Hok1 & Hkeys & _); [|done].
  destruct (Hkeys keys eq_refl) as [-> Hfresh].
  destruct (existsb _ _) eqn:Hver; [|done]. injection H as Hc <-.
  apply validateClaims_Ok in Hc as (payload & Hc). split.
  2:{ unfold elapsed in Hfresh. destruct (jvFetchedAt s1.1) as [f|]; [|done].
      exists f. split; [done|]. by apply Z.ltb_ge in Hfresh. }
  exists h, p, sg, headerRaw, payloadRaw, signature, alg, kid, hash, scheme, payload.
  split_and!; try done; [by apply token_parts_Some|by eapply algorithm_asymmetric| |apply Hc..].
  apply existsb_exists in Hver as (key & Hin%list_elem_of_In & Hv).
  assert (∃ kid' keys, jvKeys s1.1 = Some keys ∧ key ∈ default [] (keys !! kid') ∧ (kid = "" ∨ kid = kid'))
    as (kid' & keys & Hks & Hin' & Hkid).
  { unfold lookupLocked in Hin. destruct (jvKeys s1.1) as [keys|]; simpl in Hin.
    2:{ rewrite lookup_empty, map_to_list_empty in Hin. by destruct (kid != ""); apply elem_of_nil in Hin. }
    destruct (decide (kid = "")) as [->|Hne]; simpl in Hin.
    - apply list_elem_of_In, in_concat in Hin as (l & Hl%list_elem_of_In & Hk1%list_elem_of_In).
      apply list_elem_of_fmap in Hl as ([kid' l'] & -> & Hl%elem_of_map_to_list). exists kid', keys.
      split_and!; [done|by rewrite Hl|by left].
    - rewrite (bool_decide_eq_false_2 _ Hne) in Hin. exists kid, keys. auto. }
  destruct Hok1 as (_ & _ & Hserved). destruct (Hserved keys kid' key Hks Hin') as (Hann & m & Hm & Hs).
  exists (jvJWKSURL s1.1), m, kid', key. done.
Qed.

(** A sequence of validations. *)
Definition run (calls : list (Z * string)) (s : JWTValidator * nat) : JWTValidator * nat :=
  fold_left (λ s '(now, token), (Validate cfg now token s).2) calls s.

Lemma run_within t1 calls t s :
  cache_ok cfg s → healthy cfg → fetched_by t s.1 → Sorted Z.le (t :: calls.*1) →
  Forall (λ c, c.1 ≤ t1) calls → t ≤ t1 → ∃ now, t ≤ now ∧ within t1 t now s (run calls s).
Proof.
  intros Hok Hh Hby Hs Hle. revert t s Hok Hby Hs.
  induction Hle as [|[now token] calls Hn _ IH]; intros t s Hok Hby Hs Ht; simpl.
  { exists t. split; [done|]. by apply within_wait. }
  inv Hs as [|? ? Hs' Hhd]. inv Hhd as [|? ? Htn]. simpl in *.
  pose proof (Validate_within t1 t now token s Hok Hh Hby ltac:(lia)) as Hw.
  destruct (IH now (Validate cfg now token s).2) as (last & Hl & Hw');
    [by apply Validate_cache_ok|apply Hw|done..|].
  exists last. split; [lia|]. by eapply within_trans.
Qed.

End accepted.

(** C32: While the issuer's endpoints answer, the JWKS refresh rate is bounded:
    whatever tokens arrive, the validations of an interval send at most three
    requests plus one for every full ten minutes and one for every full thirty
    seconds it spans. *)
Theorem jwks_refresh_bounded {web : Web} {json : TokenJSON} {sigs : Signatures} cfg t0 t1 s calls :
  healthy cfg → reached cfg t0 s → t0 ≤ t1 →
  Sorted Z.le (t0 :: calls.*1) → Forall (λ c, c.1 ≤ t1) calls →
  Z.of_nat (run cfg calls s).2 - Z.of_nat s.2 ≤
    3 + (t1 - t0) `div` jwksTTL + (t1 - t0) `div` jwksMissBackoff.
Proof.
  intros Hh Hr Ht Hs Hle. apply reached_ok in Hr as [Hok Hby].
  destruct (run_within cfg t1 calls t0 s Hok Hh Hby Hs Hle Ht) as (now & Hn & Hw & _).
  assert (∀ last period, 0 < period → pot last period t0 t1 ≤ 1 + (t1 - t0) `div` period) as Hpot.
  { intros last period Hp. unfold pot. pose proof (Z.div_pos (t1 - t0) period ltac:(lia) Hp).
    destruct last as [f|]; [|lia].
    pose proof (Z.div_le_mono (t1 - Z.max t0 (f + period)) (t1 - t0) period Hp ltac:(lia)). lia. }
  pose proof (Hpot (jvFetchedAt s.1) jwksTTL ltac:(done)). pose proof (Hpot (jvMissedAt s.1) jwksMissBackoff ltac:(done)).
  unfold budget in Hw. pose proof (pot_nonneg (jvFetchedAt (run cfg calls s).1) jwksTTL now t1).
  pose proof (pot_nonneg (jvMissedAt (run cfg calls s).1) jwksMissBackoff now t1).
  destruct (jvJWKSURL s.1 == ""), (jvJWKSURL (run cfg calls s).1 == ""); lia.
Qed.

(** ** A concrete issuer *)

(** An issuer with one key; a signature is the signed text itself. *)
Instance ex_signatures : Signatures := {|
  digest _ s := s;
  rsaVerifyPKCS1v15 _ _ _ hashed signature := hashed == signature;
  rsaVerifyPSS _ _ _ _ _ := false;
  ecdsaVerify _ _ _ _ _ _ := false;
|}.

Instance ex_token_json : TokenJSON := {|
  decodeHeader raw := match splitOn "/" raw with [alg; kid] => Some (alg, kid) | _ => None end;
  decodeClaims raw := match splitOn "/" raw with
    | [sub; exp] => Some {["sub" := JString sub; "iss" := JString "https://issuer";
                           "aud" := JArray [JString "web"; JString "app"]; "exp" := JNumber exp]}
    | _ => None end;
  decodeJWKS doc := if doc == "keys" then Some [mkJWK "RSA" "k1" "sig" "AQAB" "AQAB" "" "" ""; mkJWK "oct" "k2" "" "" "" "" "" ""] else None;
  decodeJWKSURI doc := if doc == "discovery" then Some "https://issuer/jwks" else None;
  numberSeconds := atoi;
|}.

Instance ex_web : Web := {|
  answer _ c := match c with
    | Get "https://issuer/jwks" => Answered 200 (Some "keys")
    | Get "https://issuer/.well-known/openid-configuration" => Answered 200 (Some "discovery")
    | _ => Unreachable
    end;
|}.

Definition ex_cfg : compiled.AuthJWT := compiled.mkAuthJWT "https://issuer" ["app"] "".
Definition ex_signed (alg kid sub exp : string) : string :=
  let text := base64.encode (alg +:+ "/" +:+ kid) +:+ "." +:+ base64.encode (sub +:+ "/" +:+ exp) in
  text +:+ "." +:+ base64.encode text.

(** Only a token signed by the known key with an asymmetric algorithm, and
    not expired by more than the skew, is accepted. *)
Example accepted_tokens :
  (λ c, match (Validate ex_cfg (1000 * 1000000000) c (NewJWTValidator ex_cfg, 0%nat)).1 with
        | Ok claims => claims !! "sub" | Err _ => None end) <$>
    [ex_signed "RS256" "k1" "alice" "2000"; ex_signed "RS256" "" "alice" "940"; ex_signed "RS256" "k1" "alice" "939";
     ex_signed "none" "k1" "alice" "2000"; ex_signed "HS256" "k2" "alice" "2000"; ex_signed "ES256" "k1" "alice" "2000";
     ex_signed "RS256" "k3" "alice" "2000"; "a.b"] =
  [Some ["alice"]; Some ["alice"]; None; None; None; None; None; None].
Proof. vm_compute. reflexivity. Qed.

Lemma ex_healthy : healthy ex_cfg.
Proof.
  intros now [v n] ([[Hu _]|[Hne [Hu|(_ & m & body & _ & Ha & Hd)]]] & _); simpl in *.
  - destruct v as [url keys f ms]. simpl in Hu. subst url. vm_compute. reflexivity.
  - done.
  - assert (body = "discovery") as -> by congruence.
    destruct v as [url keys f ms]. simpl in Hd. vm_compute in Hd. injection Hd as <-. vm_compute. reflexivity.
Qed.

(** Unknown key identifiers hammered for a minute: one request for the
    discovery document, one for the keys and two for the misses. *)
Definition ex_hammer : list (Z * string) :=
  (λ i, (i * 1000000000, ex_signed "RS256" "unknown" "mallory" "2000")) <$> seqZ 0 60.

Lemma jwks_refresh_bounded_witness :
  Z.of_nat (run ex_cfg ex_hammer (NewJWTValidator ex_cfg, 0%nat)).2 - 0 ≤
    3 + (59000000000 - 0) `div` jwksTTL + (59000000000 - 0) `div` jwksMissBackoff.
Proof.
  apply (jwks_refresh_bounded ex_cfg 0 59000000000 (NewJWTValidator ex_cfg, 0%nat) ex_hammer).
  - exact ex_healthy.
  - constructor.
  - lia.
  - apply (bool_decide_unpack _). vm_compute. exact I.
  - apply (bool_decide_unpack _). vm_compute. exact I.
Defined.

(** While the issuer is down nothing bounds the rate: every token sends a
    request, the backoff only applies to identifiers missing from a cache. *)
Example outage_refetches :
  let down : Web := {| answer _ _ := Unreachable |} in
  (run (web := down) ex_cfg ex_hammer (NewJWTValidator ex_cfg, 0%nat)).2 = length ex_hammer.
Proof. vm_compute. reflexivity. Qed.

End jwt.
