(* ===== verification/Ldap.v ===== *)
(** * Directory logins

    Models [internal/extensions/auth/ldap.go] up to its endpoint:
    search-then-bind over one connection.  The directory is a class: what it
    answers to an operation may depend on every operation before it, which
    the log of the connection records.  Escaping of filters is that of
    [go-ldap], of which RFC 4515 is assumed: the characters that structure a
    filter do not survive it. *)

From S2P Require Import Prelude GoStrings Compiled Auth Base64 Jwt.
From stdpp Require Import options.

#[local] Open Scope nat_scope.

Module ldap.
Import web auth.

(** ** The directory *)

(** An entry; [GetAttributeValues] by attribute name. *)
Record Entry := mkEntry { enDN : string; enValues : string → list string }.

Definition GetAttributeValue (e : Entry) (attribute : string) : string :=
  default "" (head (enValues e attribute)).

(** What is sent over a connection, in order.  [Dial] carries the server
    name to verify and the trusted roots. *)
Inductive Op :=
  | Dial (url serverName roots : string)
  | StartTLS
  | Bind (dn password : string)
  | Search (base : string) (sizeLimit : Z) (filter : string) (attributes : list string).

Inductive Failure := InvalidCredentials | Other.

Class Directory := {
  hostname : string → option string;               (** [url.Parse], then [Hostname] *)
  hasCertificate : string → bool;                  (** [AppendCertsFromPEM] *)
  respond : list Op → Op → result Failure (list Entry);
  escapeFilter : string → string;
}.

(** ** Filters *)

(** [strings.ReplaceAll] of a non-empty word. *)
Fixpoint replace_all (fuel : nat) (s old new : string) : string :=
  match fuel with
  | O => s
  | S fuel => match cut s old with
              | Some (before, after) => before +:+ new +:+ replace_all fuel after old new
              | None => s
              end
  end.
Definition replaceAll (s old new : string) : string := replace_all (len s) s old new.

(** The characters that structure a filter (RFC 4515). *)
Definition structural (c : ascii) : bool := has_byte c "()*" || (byte_val c =? 0)%Z.
Fixpoint skeleton (s : string) : string :=
  match s with
  | EmptyString => ""
  | String c s => if structural c then String c (skeleton s) else skeleton s
  end.

Class Escaping {dir : Directory} := { escape_safe s : skeleton (escapeFilter s) = "" }.

Section provider.
Context {dir : Directory}.

Record LDAPProvider := mkProvider { lpCfg : compiled.AuthLDAP; lpRoots : string }.

Inductive NewError := NoCertificate.

Definition NewLDAPProvider (cfg : compiled.AuthLDAP) : result NewError LDAPProvider :=
  if compiled.alCA cfg == "" then Ok (mkProvider cfg "")
  else if hasCertificate (compiled.alCA cfg) then Ok (mkProvider cfg (compiled.alCA cfg)) else Err NoCertificate.

Abbreviation Log := (list Op).

(** One operation: it is logged, whatever the directory answers. *)
Definition perform (op : Op) : Act Log (result Failure (list Entry)) := λ log,
  (Ok (respond log op), log ++ [op]).

(** An operation whose failure is an outage. *)
Definition require (op : Op) : Act Log (list Entry) :=
  r ← perform op; lift (map_err (λ _, Unavailable) r).

Definition connect (p : LDAPProvider) : Act Log unit :=
  server ← lift (of_option Unavailable (hostname (compiled.alURL (lpCfg p))));
  require (Dial (compiled.alURL (lpCfg p)) server (lpRoots p)) ;;
  if compiled.alStartTLS (lpCfg p) then require StartTLS ;; mret tt else mret tt.

Definition mergeValues (existing extra : list string) : list string :=
  fold_left (λ acc value, if bool_decide (value ∈ acc) then acc else acc ++ [value]) extra existing.

Definition group_filter (search : compiled.AuthGroupSearch) (userDN username : string) : string :=
  replaceAll (replaceAll (compiled.agFilter search) "{dn}" (escapeFilter userDN))
    "{username}" (escapeFilter username).

Definition searchGroups (search : compiled.AuthGroupSearch) (userDN username : string) : Act Log (list string) :=
  entries ← require (Search (compiled.agBaseDN search) 0 (group_filter search userDN username)
                       [compiled.agAttribute search]);
  mret (flat_map (λ e, enValues e (compiled.agAttribute search)) entries).

Definition user_filter (cfg : compiled.AuthLDAP) (username : string) : string :=
  replaceAll (compiled.alUserFilter cfg) "{username}" (escapeFilter username).

Definition attribute (cfg : compiled.AuthLDAP) (name : string) : string :=
  default "" (compiled.alAttributes cfg !! name).

(** The identity read from the entry, before the group search. *)
Definition entry_identity (cfg : compiled.AuthLDAP) (username : string) (entry : Entry) : Identity :=
  mkIdentity username
    (if attribute cfg "email" != "" then GetAttributeValue entry (attribute cfg "email") else "")
    (if attribute cfg "groups" != "" then enValues entry (attribute cfg "groups") else []) ∅.

Definition service_bind (cfg : compiled.AuthLDAP) : Op := Bind (compiled.alBindDN cfg) (compiled.alBindPassword cfg).

Definition user_search (cfg : compiled.AuthLDAP) (username : string) : Op :=
  Search (compiled.alUserBaseDN cfg) 2 (user_filter cfg username)
    ("dn" :: (map_to_list (compiled.alAttributes cfg)).*2).

Definition bind_user (entry : Entry) (password : string) : Act Log unit :=
  r ← perform (Bind (enDN entry) password);
  match r with
  | Ok _ => mret tt
  | Err InvalidCredentials => fail BadCredentials
  | Err Other => fail Unavailable
  end.

(** After the user bind, reads continue under the service account. *)
Definition read_identity (cfg : compiled.AuthLDAP) (username : string) (entry : Entry) : Act Log Identity :=
  require (service_bind cfg) ;;
  let identity := entry_identity cfg username entry in
  match compiled.alGroupSearch cfg with
  | None => mret identity
  | Some search =>
      groups ← searchGroups search (enDN entry) username;
      mret (mkIdentity (idUser identity) (idEmail identity) (mergeValues (idGroups identity) groups) ∅)
  end.

Definition Authenticate (p : LDAPProvider) (username password : string) : Act Log Identity :=
  let cfg := lpCfg p in
  if (username == "") || (password == "") then fail BadCredentials
  else
    connect p ;;
    require (service_bind cfg) ;;
    entries ← require (user_search cfg username);
    match entries with
    | [entry] => bind_user entry password ;; read_identity cfg username entry
    | _ => fail BadCredentials
    end.

End provider.

(** ** Filters keep their structure *)

Lemma skeleton_app s t : skeleton (s +:+ t) = skeleton s +:+ skeleton t.
Proof.
  induction s as [|c s IH]; [done|]. rewrite app_cons. cbn [skeleton]. rewrite IH. by destruct (structural c).
Qed.

Lemma skeleton_replaceAll s old new :
  skeleton old = "" → skeleton new = "" → skeleton (replaceAll s old new) = skeleton s.
Proof.
  intros Ho Hn. unfold replaceAll. generalize (len s) as fuel. intros fuel. revert s.
  induction fuel as [|fuel IH]; intros s; [done|]. cbn [replace_all].
  destruct (cut s old) as [[a b]|] eqn:Hc; [|done]. apply cut_Some in Hc as ->.
  by rewrite !skeleton_app, IH, Ho, Hn.
Qed.

(** ** Search, then bind *)

Section authenticate.
Context {dir : Directory}.

(** Every operation of a conversation succeeded. *)
Fixpoint succeeded (log ops : list Op) : Prop :=
  match ops with
  | [] => True
  | op :: ops => (∃ l, respond log op = Ok l) ∧ succeeded (log ++ [op]) ops
  end.

(** The conversation stopped with the first operation that failed. *)
Definition fails_at (log ops log' : list Op) : Prop :=
  ∃ done op rest e, ops = done ++ op :: rest ∧ succeeded log done ∧ respond (log ++ done) op = Err e ∧
    log' = log ++ done ++ [op].

(** The three parts of the conversation: the connection, upgraded before any
    credential when the configuration asks for it; the reads after the user's
    bind, back under the service account. *)
Definition greeting (p : LDAPProvider) (server : string) : list Op :=
  Dial (compiled.alURL (lpCfg p)) server (lpRoots p) :: (if compiled.alStartTLS (lpCfg p) then [StartTLS] else []).

Definition group_query (search : compiled.AuthGroupSearch) (entry : Entry) (username : string) : Op :=
  Search (compiled.agBaseDN search) 0 (group_filter search (enDN entry) username) [compiled.agAttribute search].

Definition reads (p : LDAPProvider) (username : string) (entry : Entry) : list Op :=
  service_bind (lpCfg p) ::
  match compiled.alGroupSearch (lpCfg p) with
  | Some search => [group_query search entry username]
  | None => []
  end.

(** The search for the user found this entry and no other. *)
Definition found (p : LDAPProvider) (log : list Op) (server username : string) (entry : Entry) : Prop :=
  hostname (compiled.alURL (lpCfg p)) = Some server ∧
  succeeded log (greeting p server ++ [service_bind (lpCfg p)]) ∧
  respond (log ++ greeting p server ++ [service_bind (lpCfg p)]) (user_search (lpCfg p) username) = Ok [entry].

Definition searched (p : LDAPProvider) (server username : string) : list Op :=
  greeting p server ++ [service_bind (lpCfg p); user_search (lpCfg p) username].

(** The groups the search found after those operations. *)
Definition groups_read (p : LDAPProvider) (log : list Op) (username : string) (entry : Entry) (groups : list string) :
    Prop :=
  match compiled.alGroupSearch (lpCfg p) with
  | None => groups = []
  | Some search => ∃ entries,
      respond (log ++ [service_bind (lpCfg p)]) (group_query search entry username) = Ok entries ∧
      groups = flat_map (λ e, enValues e (compiled.agAttribute search)) entries
  end.

(** How a login ends, and what was sent for it. *)
Inductive login (p : LDAPProvider) (log : list Op) (username password : string) :
    result AuthError Identity → list Op → Prop :=
  | l_empty : username = "" ∨ password = "" → login p log username password (Err BadCredentials) log
  | l_no_server :
      username ≠ "" → password ≠ "" → hostname (compiled.alURL (lpCfg p)) = None →
      login p log username password (Err Unavailable) log
  | l_before server log' :
      username ≠ "" → password ≠ "" → hostname (compiled.alURL (lpCfg p)) = Some server →
      fails_at log (searched p server username) log' →
      login p log username password (Err Unavailable) log'
  | l_not_one server entries :
      username ≠ "" → password ≠ "" → hostname (compiled.alURL (lpCfg p)) = Some server →
      succeeded log (greeting p server ++ [service_bind (lpCfg p)]) →
      respond (log ++ greeting p server ++ [service_bind (lpCfg p)]) (user_search (lpCfg p) username) = Ok entries →
      length entries ≠ 1 →
      login p log username password (Err BadCredentials) (log ++ searched p server username)
  | l_refused server entry :
      username ≠ "" → password ≠ "" → found p log server username entry →
      respond (log ++ searched p server username) (Bind (enDN entry) password) = Err InvalidCredentials →
      login p log username password (Err BadCredentials)
        (log ++ searched p server username ++ [Bind (enDN entry) password])
  | l_bind_failed server entry :
      username ≠ "" → password ≠ "" → found p log server username entry →
      respond (log ++ searched p server username) (Bind (enDN entry) password) = Err Other →
      login p log username password (Err Unavailable)
        (log ++ searched p server username ++ [Bind (enDN entry) password])
  | l_after server entry l log' :
      username ≠ "" → password ≠ "" → found p log server username entry →
      respond (log ++ searched p server username) (Bind (enDN entry) password) = Ok l →
      fails_at (log ++ searched p server username ++ [Bind (enDN entry) password]) (reads p username entry) log' →
      login p log username password (Err Unavailable) log'
  | l_authenticated server entry l groups :
      username ≠ "" → password ≠ "" → found p log server username entry →
      respond (log ++ searched p server username) (Bind (enDN entry) password) = Ok l →
      succeeded (log ++ searched p server username ++ [Bind (enDN entry) password]) (reads p username entry) →
      groups_read p (log ++ searched p server username ++ [Bind (enDN entry) password]) username entry groups →
      login p log username password
        (Ok (mkIdentity username (idEmail (entry_identity (lpCfg p) username entry))
               (mergeValues (idGroups (entry_identity (lpCfg p) username entry)) groups) ∅))
        (log ++ searched p server username ++ Bind (enDN entry) password :: reads p username entry).

Lemma require_cases op log r log' :
  require op log = (r, log') →
  log' = log ++ [op] ∧
  match r with Ok l => respond log op = Ok l | Err e => e = Unavailable ∧ ∃ f, respond log op = Err f end.
Proof.
  unfold require, mbind, act_bind, perform, lift. intros [= <- <-]. split; [done|].
  destruct (respond log op); simpl; eauto.
Qed.

Lemma bind_user_cases entry password log r log' :
  bind_user entry password log = (r, log') →
  log' = log ++ [Bind (enDN entry) password] ∧
  match r with
  | Ok _ => ∃ l, respond log (Bind (enDN entry) password) = Ok l
  | Err BadCredentials => respond log (Bind (enDN entry) password) = Err InvalidCredentials
  | Err Unavailable => respond log (Bind (enDN entry) password) = Err Other
  end.
Proof.
  unfold bind_user, mbind, act_bind, perform.
  destruct (respond log (Bind (enDN entry) password)) as [l|[]]; intros [= <- <-]; eauto.
Qed.

Lemma succeeded_app log ops1 ops2 :
  succeeded log (ops1 ++ ops2) ↔ succeeded log ops1 ∧ succeeded (log ++ ops1) ops2.
Proof.
  revert log. induction ops1 as [|op ops1 IH]; intros log; simpl; [by rewrite app_nil_r; naive_solver|].
  rewrite IH, <-app_assoc. naive_solver.
Qed.

Lemma fails_at_app log ops more log' : fails_at log ops log' → fails_at log (ops ++ more) log'.
Proof.
  intros (ok & op & rest & e & -> & ? & ? & ->). exists ok, op, (rest ++ more), e.
  split_and!; [by rewrite <-app_assoc|done..].
Qed.

(** The operation after those that succeeded failed. *)
Lemma fails_next log ok op rest e :
  succeeded log ok → respond (log ++ ok) op = Err e → fails_at log (ok ++ op :: rest) (log ++ ok ++ [op]).
Proof. intros ? ?. by exists ok, op, rest, e. Qed.

Lemma connect_cases p log r log' :
  connect p log = (r, log') →
  match r with
  | Ok _ => ∃ server, hostname (compiled.alURL (lpCfg p)) = Some server ∧ log' = log ++ greeting p server ∧
      succeeded log (greeting p server)
  | Err e => e = Unavailable ∧
      ((hostname (compiled.alURL (lpCfg p)) = None ∧ log' = log) ∨
       ∃ server, hostname (compiled.alURL (lpCfg p)) = Some server ∧ fails_at log (greeting p server) log')
  end.
Proof.
  unfold connect. unfold mbind at 1, act_bind at 1. unfold lift at 1.
  destruct (hostname _) as [server|] eqn:Hh; cbn [of_option]; [|intros [= <- <-]; by auto].
  unfold mbind at 1, act_bind at 1.
  destruct (require _ log) as [r1 log1] eqn:H1. apply require_cases in H1 as [-> H1].
  destruct r1 as [l|e].
  2:{ destruct H1 as [-> [f Hf]]. intros [= <- <-]. split; [done|]. right. exists server. split; [done|].
      apply (fails_next log [] _ _ f); [done|by rewrite app_nil_r]. }
  unfold greeting. destruct (compiled.alStartTLS (lpCfg p)) eqn:Ht.
  2:{ intros [= <- <-]. exists server. split_and!; [done..|]. simpl. eauto. }
  unfold mbind at 1, act_bind at 1.
  destruct (require _ _) as [r2 log2] eqn:H2. apply require_cases in H2 as [-> H2]. rewrite <-app_assoc.
  destruct r2 as [l2|e].
  - intros [= <- <-]. exists server. split_and!; [done..|]. simpl. eauto.
  - destruct H2 as [-> [f Hf]]. intros [= <- <-]. split; [done|]. right. exists server. split; [done|].
    apply (fails_next log [_] _ [] f); [simpl; eauto|done].
Qed.

Lemma read_identity_cases p username entry log r log' :
  read_identity (lpCfg p) username entry log = (r, log') →
  match r with
  | Ok identity => log' = log ++ reads p username entry ∧ succeeded log (reads p username entry) ∧ ∃ groups,
      groups_read p log username entry groups ∧
      identity = mkIdentity username (idEmail (entry_identity (lpCfg p) username entry))
        (mergeValues (idGroups (entry_identity (lpCfg p) username entry)) groups) ∅
  | Err e => e = Unavailable ∧ fails_at log (reads p username entry) log'
  end.
Proof.
  unfold read_identity, reads, groups_read. unfold mbind at 1, act_bind at 1.
  destruct (require _ log) as [r1 log1] eqn:H1. apply require_cases in H1 as [-> H1].
  destruct r1 as [l|e].
  2:{ destruct H1 as [-> [f Hf]]. intros [= <- <-]. split; [done|].
      apply (fails_next log [] _ _ f); [done|by rewrite app_nil_r]. }
  cbv zeta. destruct (compiled.alGroupSearch (lpCfg p)) as [search|].
  - unfold searchGroups. unfold mbind at 1, act_bind at 1. unfold mbind at 1, act_bind at 1.
    destruct (require _ _) as [r2 log2] eqn:H2. apply require_cases in H2 as [-> H2].
    rewrite <-app_assoc. destruct r2 as [l2|e].
    + intros [= <- <-]. split; [done|]. split; [simpl; eauto|]. by eexists; split; [by eexists|].
    + destruct H2 as [-> [f Hf]]. intros [= <- <-]. split; [done|].
      apply (fails_next log [_] _ [] f); [simpl; eauto|done].
  - intros [= <- <-]. split; [done|]. split; [simpl; eauto|]. by exists [].
Qed.

Lemma Authenticate_login p username password log r log' :
  Authenticate p username password log = (r, log') → login p log username password r log'.
Proof.
  unfold Authenticate. cbv zeta. destruct (_ || _) eqn:Hempty.
  { intros [= <- <-]. apply l_empty.
    apply orb_true_iff in Hempty as [?%bool_decide_eq_true|?%bool_decide_eq_true]; auto. }
  apply orb_false_iff in Hempty as [Hu%bool_decide_eq_false Hp%bool_decide_eq_false].
  unfold mbind at 1, act_bind at 1.
  destruct (connect p log) as [[[]|e] log0] eqn:H0; apply connect_cases in H0.
  2:{ destruct H0 as [-> [[Hh ->]|(server & Hh & Hf)]]; intros [= <- <-]; [by apply l_no_server|].
      apply (l_before _ _ _ _ server); [done..|]. by apply fails_at_app. }
  destruct H0 as (server & Hh & -> & Hg). unfold mbind at 1, act_bind at 1.
  destruct (require _ _) as [r1 l1] eqn:H1. apply require_cases in H1 as [-> H1].
  rewrite <-(app_assoc log (greeting p server)).
  destruct r1 as [x1|e].
  2:{ destruct H1 as [-> [f Hf]]. intros [= <- <-]. apply (l_before _ _ _ _ server); [done..|].
      exact (fails_next log (greeting p server) _ [user_search (lpCfg p) username] f Hg Hf). }
  assert (Hb : succeeded log (greeting p server ++ [service_bind (lpCfg p)])).
  { apply succeeded_app. split; [done|]. simpl. eauto. }
  unfold mbind at 1, act_bind at 1.
  destruct (require _ _) as [r2 l2] eqn:H2. apply require_cases in H2 as [-> H2].
  assert (Hs : ∀ ops, (log ++ greeting p server ++ [service_bind (lpCfg p)]) ++
      user_search (lpCfg p) username :: ops = log ++ searched p server username ++ ops).
  { intros ops. unfold searched. by rewrite <-!app_assoc. }
  destruct r2 as [entries|e].
  2:{ destruct H2 as [-> [f Hf]]. intros [= <- <-]. apply (l_before _ _ _ _ server); [done..|]. rewrite Hs, app_nil_r.
      assert (Heq : searched p server username =
        (greeting p server ++ [service_bind (lpCfg p)]) ++ [user_search (lpCfg p) username])
        by (unfold searched; by rewrite <-app_assoc).
      rewrite Heq.
      exact (fails_next log _ (user_search (lpCfg p) username) [] f Hb Hf). }
  rewrite Hs, app_nil_r. destruct entries as [|entry [|entry2 entries]].
  1,3: intros [= <- <-]; eapply (l_not_one _ _ _ _ server); [done..|exact H2|simpl; lia].
  assert (Hfound : found p log server username entry) by done.
  unfold mbind at 1, act_bind at 1.
  destruct (bind_user _ _ _) as [[[]|e] l3] eqn:H3; apply bind_user_cases in H3 as [-> H3]; rewrite <-app_assoc.
  2:{ intros [= <- <-]. destruct e; [by apply (l_bind_failed _ _ _ _ server)|by apply (l_refused _ _ _ _ server)]. }
  destruct H3 as [l H3]. intros H4%read_identity_cases. destruct r as [identity|e].
  - destruct H4 as (-> & Hok & groups & Hgr & ->). rewrite <-!app_assoc. by eapply l_authenticated.
  - destruct H4 as [-> Hf]. by eapply l_after.
Qed.


End authenticate.

(** ** A directory with two people *)

Fixpoint ex_escape (s : string) : string :=
  match s with
  | EmptyString => ""
  | String c s => (if structural c || (c == "\"%char) then "\2x" else String c "") +:+ ex_escape s
  end.

Definition ex_alice : Entry :=
  mkEntry "uid=alice,dc=example" (λ a, if a == "mail" then ["alice@example.com"] else if a == "memberOf" then ["ops"] else []).

Instance ex_directory : Directory := {|
  hostname url := cutPrefix url "ldaps://";
  hasCertificate _ := true;
  respond log op := match op with
    | Dial _ _ _ | StartTLS => Ok []
    | Bind dn password =>
        if (dn == "cn=krouter") && (password == "service") || (dn == "uid=alice,dc=example") && (password == "wonderland")
        then Ok [] else Err InvalidCredentials
    | Search base _ filter _ =>
        if last log StartTLS is Bind "cn=krouter" "service" then
          if filter == "(uid=alice)" then Ok [ex_alice]
          else if filter == "(member=uid=alice,dc=example)" then
            Ok [mkEntry "cn=dev" (λ _, ["dev"]); mkEntry "cn=ops" (λ _, ["ops"])]
          else if base == "dc=everyone" then Ok [ex_alice; ex_alice] else Ok []
        else Err Other
    end;
  escapeFilter := ex_escape;
|}.

Instance ex_escaping : Escaping.
Proof.
  constructor. intros s. simpl. induction s as [|c s IH]; [done|]. cbn [ex_escape].
  rewrite skeleton_app, IH. destruct (structural c) eqn:Hc; [done|]. destruct (c == "\"%char); [done|].
  cbn [orb skeleton]. by rewrite Hc.
Qed.

Definition ex_ldap_cfg : compiled.AuthLDAP :=
  compiled.mkAuthLDAP "ldaps://ldap" false "" "cn=krouter" "service" "dc=example" "(uid={username})" ""
    {["email" := "mail"; "groups" := "memberOf"]}
    (Some (compiled.mkAuthGroupSearch "dc=groups" "(member={dn})" "cn")) "".

(** The right password gives the identity with merged groups; a wrong one,
    an unknown name and an attempted injection are refused. *)
Example directory_logins :
  (λ '(u, pw), match (Authenticate (mkProvider ex_ldap_cfg "") u pw []).1 with
     | Ok i => Some (idUser i, idEmail i, idGroups i) | Err _ => None end) <$>
    [("alice", "wonderland"); ("alice", "looking-glass"); ("bob", "wonderland"); ("*", "wonderland"); ("alice", "")] =
  [Some ("alice", "alice@example.com", ["ops"; "dev"]); None; None; None; None].
Proof. vm_compute. reflexivity. Qed.

Definition ex_login : result AuthError Identity * list Op :=
  Authenticate (mkProvider ex_ldap_cfg "") "alice" "wonderland" [].

Definition ex_wrong : result AuthError Identity * list Op :=
  Authenticate (mkProvider ex_ldap_cfg "") "alice" "looking-glass" [].


End ldap.
