(* ===== verification/Oidc.v ===== *)
(** * OpenID Connect

    Models the provider of [internal/extensions/auth/oidc.go]: discovery with
    its cache, the token endpoint, sessions from ID tokens, refresh and
    logout.  ID tokens are validated by the bearer machinery of [Jwt]; the
    endpoints that drive the flow are in [Login]. *)

From S2P Require Import Prelude GoStrings Http Sha256 Compiled Tables Filters Auth ReverseProxy Base64 Jwt.
From stdpp Require Import options.

#[local] Open Scope Z_scope.

Module oidc.
Import web auth jwt.

Record oidcDiscovery := mkDiscovery {
  odAuthorizationEndpoint : string;
  odTokenEndpoint : string;
  odJWKSURI : string;
  odEndSessionEndpoint : string;
}.

Record oidcTokens := mkTokens {
  otAccessToken : string;
  otIDToken : string;
  otRefreshToken : string;
  otExpiresIn : Z;
}.

Class OidcJSON := {
  decodeDiscovery : string → option oidcDiscovery;
  decodeTokens : string → option oidcTokens;
}.

Definition requestOrigin (r : Request) : string :=
  (if rqTLS r is Some _ then "https" else "http") +:+ "://" +:+ rqHost r.

Section provider.
Context {web : Web} {json : TokenJSON} {sigs : Signatures} {docs : OidcJSON}.

(** The cached document comes with the time it was fetched at. *)
Record OIDCProvider := mkProvider {
  opDiscovery : option (oidcDiscovery * Z);
  opTokens : JWTValidator;
}.

(** ID tokens are bearer tokens for this client. *)
Definition token_config (cfg : compiled.AuthOIDC) : compiled.AuthJWT :=
  compiled.mkAuthJWT (compiled.aoIssuer cfg) [compiled.aoClientID cfg] "".

Definition NewOIDCProvider (cfg : compiled.AuthOIDC) : OIDCProvider :=
  mkProvider None (NewJWTValidator (token_config cfg)).

Abbreviation O := (OIDCProvider * nat)%type.

(** One call; [Ok] is an answer with status 200, its body limited. *)
Definition call (c : Call) : Act O string := λ '(p, n),
  (match answer n c with
   | Answered status body =>
       if status =? 200 then of_option Unavailable (limit <$> body) else Err Unavailable
   | Unreachable => Err Unavailable
   end, (p, S n)).

Definition fresh (p : OIDCProvider) (now : Z) : option oidcDiscovery :=
  '(discovery, fetchedAt) ← opDiscovery p;
  if now - fetchedAt <? jwksTTL then Some discovery else None.

Definition discover (cfg : compiled.AuthOIDC) (now : Z) : Act O oidcDiscovery :=
  s ← get;
  match fresh s.1 now with
  | Some discovery => mret discovery
  | None =>
      body ← call (Get (compiled.aoIssuer cfg +:+ "/.well-known/openid-configuration"));
      discovery ← lift (of_option Unavailable (decodeDiscovery body));
      if (odAuthorizationEndpoint discovery == "") || (odTokenEndpoint discovery == "") then fail Unavailable
      else modify (λ '(p, n), (mkProvider (Some (discovery, now)) (opTokens p), n)) ;; mret discovery
  end.

(** [p.tokens.Validate]. *)
Definition validate (cfg : compiled.AuthOIDC) (now : Z) (token : string) : Act O (gmap string (list string)) :=
  λ '(p, n), let '(r, (v, n)) := Validate (token_config cfg) now token (opTokens p, n) in
  (r, (mkProvider (opDiscovery p) v, n)).

(** The form with the client's credentials. *)
Definition client_form (cfg : compiled.AuthOIDC) (form : gmap string (list string)) : gmap string (list string) :=
  let form := <["client_id" := [compiled.aoClientID cfg]]> form in
  if compiled.aoClientSecret cfg != "" then <["client_secret" := [compiled.aoClientSecret cfg]]> form else form.

Definition exchange (cfg : compiled.AuthOIDC) (now : Z) (form : gmap string (list string)) : Act O oidcTokens :=
  discovery ← discover cfg now;
  body ← call (Post (odTokenEndpoint discovery) (client_form cfg form));
  tokens ← lift (of_option Unavailable (decodeTokens body));
  if otIDToken tokens == "" then fail Unavailable else mret tokens.

Definition first_claim (claims : gmap string (list string)) (name : string) : string :=
  default "" (head (default [] (claims !! name))).

Definition claims_identity (claims : gmap string (list string)) : Identity :=
  mkIdentity (first_claim claims "sub") (first_claim claims "email") (default [] (claims !! "groups")) claims.

Definition token_expiry (now : Z) (tokens : oidcTokens) : Z :=
  if 0 <? otExpiresIn tokens then int64_wrap (unix now + otExpiresIn tokens) else 0.

(** The session minted from validated claims; [None] is the nil dereference
    of a missing codec. *)
Definition session_of (e : Enforcer) (now : Z) (tokens : oidcTokens) (claims : gmap string (list string)) :
    option Session :=
  let extra := mkSession "" "" "" [] ∅ 0 0 (token_expiry now tokens) (otRefreshToken tokens) "" "" in
  with_extra extra <$> mintSession e "oidc" (claims_identity claims) now.

Definition sessionFromTokens (e : Enforcer) (cfg : compiled.AuthOIDC) (now : Z) (tokens : oidcTokens)
    (expectedNonce : string) : Act O (option Session) :=
  claims ← validate cfg now (otIDToken tokens);
  if (expectedNonce != "") && negb (single claims "nonce" expectedNonce) then fail BadCredentials
  else mret (session_of e now tokens claims).

Definition code_form (redirectURI code verifier : string) : gmap string (list string) :=
  {["grant_type" := ["authorization_code"]; "code" := [code]; "redirect_uri" := [redirectURI];
    "code_verifier" := [verifier]]}.

Definition refresh_form (token : string) : gmap string (list string) :=
  {["grant_type" := ["refresh_token"]; "refresh_token" := [token]]}.

Definition Refresh (cfg : compiled.AuthOIDC) (now : Z) (session : Session) : Act O Session :=
  tokens ← exchange cfg now (refresh_form (sRefreshToken session));
  let refreshToken := if otRefreshToken tokens == "" then sRefreshToken session else otRefreshToken tokens in
  claims ← validate cfg now (otIDToken tokens);
  mret (mkSession "oidc" (first_claim claims "sub") (first_claim claims "email") (default [] (claims !! "groups"))
          claims (sIssuedAt session) (sExpiresAt session) (token_expiry now tokens) refreshToken "" "").

Definition LogoutURL (cfg : compiled.AuthOIDC) (now : Z) (r : Request) : O → string * O := λ s,
  match discover cfg now s with
  | (Ok discovery, s) =>
      (if odEndSessionEndpoint discovery == "" then ""
       else odEndSessionEndpoint discovery +:+ "?" +:+ httputil.encode_values
              {["client_id" := [compiled.aoClientID cfg]; "post_logout_redirect_uri" := [requestOrigin r +:+ "/"]]}, s)
  | (Err _, s) => ("", s)
  end.

End provider.

(** ** Refreshed sessions *)

Section refresh.
Context {web : Web} {json : TokenJSON} {sigs : Signatures} {docs : OidcJSON}.
Variable cfg : compiled.AuthOIDC.

(** The providers whose ID token validator is in a state it can reach. *)
Definition tokens_reached (t : Z) (s : OIDCProvider * nat) : Prop :=
  reached (token_config cfg) t (opTokens s.1, s.2).

Lemma reached_mono jcfg t v n n' : reached jcfg t (v, n) → (n ≤ n')%nat → reached jcfg t (v, n').
Proof.
  intros H Hn. inv H as [|t0 s now token v' m k Hr Ht Hv Hk]; [constructor|].
  eapply reached_call; [done..|lia].
Qed.

(** Talking to the endpoints leaves the validator alone. *)
Lemma call_tokens c s r s' : call c s = (r, s') → s'.1 = s.1 ∧ s'.2 = S s.2.
Proof. destruct s as [p n]. unfold call. by intros [= <- <-]. Qed.

Lemma discover_tokens now s r s' :
  discover cfg now s = (r, s') → opTokens s'.1 = opTokens s.1 ∧ (s.2 ≤ s'.2)%nat.
Proof.
  unfold discover. unfold mbind at 1, act_bind at 1. cbn [get].
  destruct (fresh s.1 now); [by intros [= <- <-]|].
  unfold mbind at 1, act_bind at 1. destruct (call _ s) as [r1 [p1 n1]] eqn:Hc.
  apply call_tokens in Hc as [Hp Hn]. simpl in *. subst p1 n1.
  destruct r1 as [body|]; [|intros [= <- <-]; split; [done|simpl; lia]].
  unfold mbind at 1, act_bind at 1. unfold lift.
  destruct (decodeDiscovery body); cbn [of_option]; [|intros [= <- <-]; split; [done|simpl; lia]].
  destruct (_ || _); intros [= <- <-]; (split; [done|simpl; lia]).
Qed.

Lemma exchange_tokens now form s tokens s' :
  exchange cfg now form s = (Ok tokens, s') → opTokens s'.1 = opTokens s.1 ∧ (s.2 ≤ s'.2)%nat.
Proof.
  unfold exchange. intros (discovery & s1 & H1 & H)%act_bind_Ok. apply discover_tokens in H1 as [H1 Hn1].
  apply act_bind_Ok in H as (body & s2 & H2 & H). apply call_tokens in H2 as [H2 Hn2].
  apply act_bind_Ok in H as (toks & s3 & [= _ <-] & H).
  destruct (_ == ""); [done|]. injection H as _ <-. rewrite H2, H1. split; [done|lia].
Qed.

Lemma validate_verified t now token s claims s' :
  tokens_reached t s → validate cfg now token s = (Ok claims, s') →
  verified (token_config cfg) now s'.2 token claims.
Proof.
  destruct s as [p n]. intros Hr. unfold validate.
  destruct (Validate _ now token (opTokens p, n)) as [r [v m]] eqn:Hv. intros [= -> <-].
  by apply (accepted_token_verified (token_config cfg) t) in Hv as [? _].
Qed.

(** A refresh answers for the identity of a freshly verified ID token, and
    never beyond the session it replaces. *)
Lemma Refresh_verified t now session s refreshed s' :
  tokens_reached t s → Refresh cfg now session s = (Ok refreshed, s') →
  ∃ idToken claims, verified (token_config cfg) now s'.2 idToken claims ∧
    session_identity refreshed = claims_identity claims ∧
    sIssuedAt refreshed = sIssuedAt session ∧ sExpiresAt refreshed = sExpiresAt session.
Proof.
  intros Hr. unfold Refresh. intros (tokens & s1 & Hx & H)%act_bind_Ok. apply exchange_tokens in Hx as [Hp Hn].
  apply act_bind_Ok in H as (claims & s2 & Hv & [= <- <-]).
  exists (otIDToken tokens), claims. split_and!; [|done..].
  eapply validate_verified; [|exact Hv]. unfold tokens_reached. rewrite Hp. by eapply reached_mono.
Qed.

End refresh.

(** The claims of a refreshed session are not pruned to what the rules use,
    unlike those of the session a login mints. *)
Example refresh_keeps_claims {web : Web} {json : TokenJSON} {sigs : Signatures} {docs : OidcJSON}
    cfg now session s refreshed s' :
  Refresh cfg now session s = (Ok refreshed, s') →
  ∃ tokens s1 claims s2, validate cfg now (otIDToken tokens) s1 = (Ok claims, s2) ∧ sClaims refreshed = claims.
Proof.
  unfold Refresh. intros (tokens & s1 & _ & H)%act_bind_Ok.
  apply act_bind_Ok in H as (claims & s2 & Hv & [= <- <-]). by exists tokens, s1, claims, s2.
Qed.

End oidc.
