(* ===== verification/Saml.v ===== *)
(** * SAML 2.0

    Models the provider of [internal/extensions/auth/saml.go]: the cached
    metadata of the identity provider, the service provider of a request,
    identities from assertions, and the messages of single logout.  The
    [crewjam/saml] library, XML, DEFLATE and signatures are a class; the
    endpoints are in [Login]. *)

From S2P Require Import Prelude GoStrings Http Compiled Filters Auth ReverseProxy Base64 Jwt Oidc.
From stdpp Require Import options.

#[local] Open Scope Z_scope.

Module saml.
Import web auth jwt oidc.

(** ** Messages *)

Record Attribute := mkAttribute { atName : string; atFriendlyName : string; atValues : list string }.

(** What is read of a validated assertion: the NameID of its subject, the
    attribute statements, the session indexes of its authentication
    statements. *)
Record Assertion := mkAssertion {
  asNameID : option string;
  asAttributeStatements : list (list Attribute);
  asSessionIndexes : list string;
}.

(** An XML element by its tag, the children it is built from and the rest. *)
Record Element := mkElement { elTag : string; elChildren : list (string * string); elRest : string }.

(** The service provider of one request. *)
Record ServiceProvider (Metadata : Type) := mkSP {
  spEntityID : string;
  spKeyPEM : string;
  spCertPEM : string;
  spMetadataURL : string;
  spAcsURL : string;
  spSloURL : string;
  spIDPMetadata : Metadata;
}.
#[global] Arguments mkSP {_} _ _ _ _ _ _ _.
#[global] Arguments spEntityID {_} _.
#[global] Arguments spKeyPEM {_} _.
#[global] Arguments spAcsURL {_} _.
#[global] Arguments spIDPMetadata {_} _.

Class SamlLib := {
  Metadata : Type;
  keyPair : string → string → bool;                          (** certificate and key parse and sign *)
  parseMetadata : string → option Metadata;
  fetchMetadata : nat → string → option Metadata;            (** by the number of calls made *)
  ssoLocation : Metadata → string;
  sloLocation : Metadata → string;
  (** the identifier and the redirect of a fresh request; drawn from [nat] *)
  authnRequest : ServiceProvider Metadata → nat → string → option (string * option string);
  (** request form, accepted request identifiers, time *)
  parseResponse : ServiceProvider Metadata → gmap string (list string) → list string → Z → option Assertion;
  metadataDocument : ServiceProvider Metadata → option string;
  logoutRequest : ServiceProvider Metadata → string → string → string → option Element;   (** destination, NameID, index *)
  logoutResponse : ServiceProvider Metadata → string → string → option Element;
  encodeDeflated : Element → option string;                  (** DEFLATE, then base64 *)
  signString : string → string → option string;              (** [sp_key]; base64 of the signature *)
  splitQuery : string → option (string * string);            (** a URL before its query, and the query *)
  decodeStd : string → option string;                        (** [base64.StdEncoding] *)
  inflate : string → option string;                          (** at most 1 MiB *)
  logoutRequestID : string → option string;                  (** [xml.Unmarshal], then [ID] *)
}.

Definition signatureMethod : string := "http://www.w3.org/2001/04/xmldsig-more#rsa-sha256".

Section provider.
Context {lib : SamlLib}.

(** Inline metadata has no time of fetching. *)
Record SAMLProvider := mkProvider { smMetadata : option (Metadata * option Z) }.

Definition NewSAMLProvider (cfg : compiled.AuthSAML) : option SAMLProvider :=
  if negb (keyPair (compiled.asmSPCertPEM cfg) (compiled.asmSPKeyPEM cfg)) then None
  else if compiled.asmIDPMetadata cfg == "" then Some (mkProvider None)
  else (λ m, mkProvider (Some (m, None))) <$> parseMetadata (compiled.asmIDPMetadata cfg).

Abbreviation S := (SAMLProvider * nat)%type.

(** The cached metadata while it may be used without asking. *)
Definition current (cfg : compiled.AuthSAML) (p : SAMLProvider) (now : Z) : option Metadata :=
  '(metadata, fetchedAt) ← smMetadata p;
  let recent := match fetchedAt with Some t => now - t <? jwksTTL | None => false end in
  if (compiled.asmIDPMetadataURL cfg == "") || recent then Some metadata else None.

(** An outage keeps the document fetched before. *)
Definition idpMetadata (cfg : compiled.AuthSAML) (now : Z) : Act S Metadata := λ '(p, n),
  match current cfg p now with
  | Some metadata => (Ok metadata, (p, n))
  | None =>
      match fetchMetadata n (compiled.asmIDPMetadataURL cfg), smMetadata p with
      | Some metadata, _ => (Ok metadata, (mkProvider (Some (metadata, Some now)), Datatypes.S n))
      | None, Some (metadata, _) => (Ok metadata, (p, Datatypes.S n))
      | None, None => (Err Unavailable, (p, Datatypes.S n))
      end
  end.

Definition serviceProvider (cfg : compiled.AuthSAML) (now : Z) (r : Request) (prefix : string) :
    Act S (ServiceProvider Metadata) :=
  metadata ← idpMetadata cfg now;
  let origin := requestOrigin r in
  mret (mkSP (compiled.asmEntityID cfg) (compiled.asmSPKeyPEM cfg) (compiled.asmSPCertPEM cfg)
          (origin +:+ prefix +:+ "/saml/metadata") (origin +:+ prefix +:+ "/saml/acs")
          (origin +:+ prefix +:+ "/saml/slo") metadata).

(** ** Identities *)

(** An attribute counts under its name, or its friendly name without one. *)
Definition add_attribute (values : gmap string (list string)) (a : Attribute) : gmap string (list string) :=
  let name := if atName a == "" then atFriendlyName a else atName a in
  fold_left (λ values v, <[name := default [] (values !! name) ++ [v]]> values) (atValues a) values.

Definition attribute_values (statements : list (list Attribute)) : gmap string (list string) :=
  fold_left (λ values statement, fold_left add_attribute statement values) statements ∅.

Definition mapped (attributes : gmap string string) (values : gmap string (list string)) (name : string) :
    list string :=
  let attribute := default "" (attributes !! name) in
  if attribute != "" then default [] (values !! attribute) else [].

Definition identityFromAssertion (assertion : Assertion) (attributes : gmap string string) : Identity * Session :=
  let user := default "" (asNameID assertion) in
  let values := attribute_values (asAttributeStatements assertion) in
  let index := default "" (head (filter (λ i, i ≠ "") (asSessionIndexes assertion))) in
  (mkIdentity user (default "" (head (mapped attributes values "email"))) (mapped attributes values "groups") values,
   mkSession "" "" "" [] ∅ 0 0 0 "" user index).

(** ** Single logout *)

Definition without_signature (element : Element) : Element :=
  mkElement (elTag element) (filter (λ c, c.1 ≠ "Signature") (elChildren element)) (elRest element).

(** The query as transmitted is what is signed. *)
Definition signed_query (rawQuery param encoded relayState : string) : string :=
  (if rawQuery == "" then "" else rawQuery +:+ "&") +:+ param +:+ "=" +:+ queryEscape encoded +:+
  (if relayState == "" then "" else "&RelayState=" +:+ queryEscape relayState) +:+
  "&SigAlg=" +:+ queryEscape signatureMethod.

Definition signedRedirect (sp : ServiceProvider Metadata) (destination param : string) (element : Element)
    (relayState : string) : option string :=
  encoded ← encodeDeflated (without_signature element);
  '(base, rawQuery) ← splitQuery destination;
  let query := signed_query rawQuery param encoded relayState in
  signature ← signString (spKeyPEM sp) query;
  Some (base +:+ "?" +:+ query +:+ "&Signature=" +:+ queryEscape signature).

Definition parseLogoutRequest (encoded : string) (deflated : bool) : option string :=
  raw ← decodeStd encoded;
  raw ← if deflated then inflate raw else Some raw;
  id ← logoutRequestID raw;
  if id == "" then None else Some id.

(** The empty string when there is nowhere to go. *)
Definition LogoutURL (cfg : compiled.AuthSAML) (now : Z) (r : Request) (session : Session) (prefix : string) :
    S → string * S := λ s,
  if sNameID session == "" then ("", s)
  else match serviceProvider cfg now r prefix s with
       | (Ok sp, s) =>
           let destination := sloLocation (spIDPMetadata sp) in
           (if destination == "" then ""
            else default "" (request ← logoutRequest sp destination (sNameID session) (sSessionIndex session);
                             signedRedirect sp destination "SAMLRequest" request ""), s)
       | (Err _, s) => ("", s)
       end.

End provider.

End saml.
