(* ===== verification/Login.v ===== *)
(** * Login endpoints

    Models [internal/extensions/auth/endpoints.go] and [page.go], the state
    cookie of [session.go] and the endpoints of [oidc.go], [saml.go] and
    [ldap.go]: what the gateway answers itself under a reserved prefix.

    An endpoint returns the cookies it sets and an answer, rendered into an
    HTTP response by [render]; the providers' caches and connections are its
    state.  [crypto/rand] does not fail in the Go version used, so sealing
    and drawing tokens always succeed.  [None] is the nil dereference of a
    missing codec; an extension without one that would answer before it
    needs it is not told apart, since only extensions that mint sessions are
    asked. *)

From S2P Require Import Prelude GoStrings Http Sha256 Compiled Tables Filters Auth ReverseProxy.
From S2P Require Import Base64 Jwt Ldap Oidc Saml.
From stdpp Require Import options.

#[local] Open Scope Z_scope.

Module login.
Import web auth jwt.

(** ** The in-flight state cookie *)

Record State := mkState {
  stExtension : string;
  stReturnURL : string;
  stFormToken : string;
  stOIDCState : string;
  stOIDCNonce : string;
  stOIDCVerifier : string;
  stSAMLRequestID : string;
  stExpiresAt : Z;
}.

Definition StateLifetime : Z := 600 * 1000000000.

Definition state_safe (s : State) : bool :=
  forallb utf8 [stExtension s; stReturnURL s; stFormToken s; stOIDCState s; stOIDCNonce s; stOIDCVerifier s;
                stSAMLRequestID s] &&
  bool_decide (int64_wrap (stExpiresAt s) = stExpiresAt s).

(** [seal] and [open] at the type of states: key, context, nonce. *)
Class StateSealer := {
  sealState : string → string → nat → State → string;
  openState : string → string → string → option State;
  open_seal_state key context nonce state : state_safe state = true →
    openState key context (sealState key context nonce state) = Some state;
}.

Definition StateCookie (c : Codec) : string := "krouter_state_" +:+ cookieSuffix (cIdentity c).

Section state_cookie.
Context {states : StateSealer}.

Definition expiring (now : Z) (s : State) : State :=
  mkState (stExtension s) (stReturnURL s) (stFormToken s) (stOIDCState s) (stOIDCNonce s) (stOIDCVerifier s)
    (stSAMLRequestID s) (unix (now + StateLifetime)).

(** [SameSite=None] requires [Secure]: plain HTTP keeps [Lax]. *)
Definition SealState (c : Codec) (secure : bool) (now : Z) (nonce : nat) (s : State) (crossSite : bool) : SetCookie :=
  let k := cookie c secure (StateCookie c) (sealState (cKey c) "state" nonce (expiring now s)) StateLifetime in
  if crossSite && secure then mkSetCookie (ckName k) (ckValue k) (ckMaxAge k) true SameSiteNone else k.

Definition OpenState (c : Codec) (jar : Jar) (now : Z) : option State :=
  value ← jar !! StateCookie c;
  s ← openState (cKey c) "state" value;
  if stExpiresAt s <=? unix now then None else Some s.

Definition ClearState (c : Codec) (secure : bool) : SetCookie := expiredCookie secure (StateCookie c).

End state_cookie.

(** ** Forms *)

(** [mime.ParseMediaType], its parameters dropped. *)
Class Forms := { mediaType : string → option string }.

Definition maxFormSize : N := 10485760.

(** [Request.ParseForm]: the values of the body and those of body and URL;
    [None] is an error, of which the callers take no partial result. *)
Definition body_form {forms : Forms} (r : Request) : option (gmap string (list string)) :=
  if negb ((rqMethod r == "POST") || (rqMethod r == "PUT") || (rqMethod r == "PATCH")) then Some ∅
  else match rqBody r with
       | None => Some ∅
       | Some body =>
           let ct := hGet (rqHeader r) "Content-Type" in
           if ct == "" then Some ∅
           else kind ← mediaType ct;
                if kind == "application/x-www-form-urlencoded" then
                  if (maxFormSize <? N.of_nat (len body))%N || negb (httputil.query_clean body) then None
                  else Some (parseQuery body)
                else Some ∅
       end.

Definition ParseForm {forms : Forms} (r : Request) : option (gmap string (list string) * gmap string (list string)) :=
  post ← body_form r;
  if negb (httputil.query_clean (rqRawQuery r)) then None
  else Some (post, union_with (λ a b, Some (a ++ b)) post (parseQuery (rqRawQuery r))).

(** [url.Values.Get]. *)
Definition valueOf (values : gmap string (list string)) (key : string) : string :=
  default "" (head (default [] (values !! key))).
Definition queryGet (r : Request) (key : string) : string := valueOf (parseQuery (rqRawQuery r)) key.

(** ** Answers *)

Record loginProvider := mkLoginProvider { lgName : string; lgURL : string }.
Record loginForm := mkLoginForm { lfAction : string; lfToken : string }.
Record loginPageData := mkPage { lpProviders : list loginProvider; lpForm : option loginForm; lpFailure : bool }.

Inductive Answer :=
  | NotFound
  | Failed (message : string) (status : Z)
  | Found (target : string)
  | LoginPage (data : loginPageData)
  | Document (body : string).

(** The HTML of a page, and which URLs [url.Parse] accepts. *)
Class Pages := { pageHTML : loginPageData → string; urlParses : string → bool }.

Record Reply := mkReply { rpCookies : list SetCookie; rpAnswer : Answer }.

(** [http.Redirect] cleans the rooted paths it can parse. *)
Definition location {pages : Pages} (target : string) : string :=
  httputil.hexEscapeNonASCII
    (if urlParses target && hasPrefix target "/" then httputil.local_target target else target).

Definition page_status (data : loginPageData) : Z := if lpFailure data then 401 else 200.

Definition render {pages : Pages} (w : Response) (r : Request) (reply : Reply) : Z * Response :=
  let w := httputil.set_cookies w (rpCookies reply) in
  match rpAnswer reply with
  | NotFound => (404, httpError w "404 page not found" 404)
  | Failed message status => (status, httpError w message status)
  | Found target => (302, filters.httpRedirect w r (location target) 302)
  | LoginPage data =>
      let h := hSet (hSet (rsHeader w) "Content-Type" "text/html; charset=utf-8") "Cache-Control" "no-store" in
      (page_status data, rsWrite (writeHeader (rsSetHeader w h) (page_status data)) (pageHTML data))
  | Document body =>
      (200, rsWrite (rsSetHeader w (hSet (rsHeader w) "Content-Type" "application/samlmetadata+xml")) body)
  end.

(** ** Endpoints *)

(** The providers of an enforcer: caches, the log of directory operations
    and the number of calls made. *)
Record Live {lib : saml.SamlLib} := mkLive {
  lvOIDC : oidc.OIDCProvider;
  lvSAML : saml.SAMLProvider;
  lvDirectory : list ldap.Op;
  lvCalls : nat;
}.

(** What a request draws from outside: the time, random bytes, nonces. *)
Record Env := mkEnv { evNow : Z; evDraw : nat → string; evNonce : nat }.

(** [newFormToken] and [randomToken]: 24 random bytes, encoded. *)
Definition randomToken (env : Env) (i : nat) : string := base64.encode (evDraw env i).

Definition sanitizeReturnURL (raw : string) : string :=
  if (raw == "") || negb (hasPrefix raw "/") || hasPrefix raw "//" then "/" else raw.

Definition startURL (e : Enforcer) (provider : string) : string :=
  compiled.auPathPrefix (eCfg e) +:+ "/" +:+ provider +:+ "/start".

Definition displayName (configured fallback : string) : string :=
  if configured != "" then configured else fallback.

(** [renderLoginPageResult], as data. *)
Definition login_page (e : Enforcer) (token : string) (failure : bool) : loginPageData :=
  mkPage
    (match compiled.auOIDC (eCfg e) with
     | Some o => [mkLoginProvider (displayName (compiled.aoDisplayName o) "OpenID Connect") (startURL e "oidc")]
     | None => [] end ++
     match compiled.auSAML (eCfg e) with
     | Some s => [mkLoginProvider (displayName (compiled.asmDisplayName s) "SAML") (startURL e "saml")]
     | None => [] end)
    (match compiled.auLDAP (eCfg e) with
     | Some _ => Some (mkLoginForm (compiled.auPathPrefix (eCfg e) +:+ "/ldap/login") token)
     | None => None end)
    failure.

Definition unavailable : Answer := Failed "authentication provider unavailable" 503.
Definition internal_error : Answer := Failed "internal error" 500.

(** The digest behind a PKCE challenge. *)
Definition sha256Sum (s : string) : string :=
  let ws := words (sha_pad (byte_list s)) in
  foldr (λ w t, bytes [Z.shiftr w 24; Z.land (Z.shiftr w 16) 255; Z.land (Z.shiftr w 8) 255; Z.land w 255] +:+ t) ""
    (sha_blocks (length ws) H256 ws).

Section endpoints.
Context {sealer : Sealer} {states : StateSealer}.
Context {web : Web} {json : TokenJSON} {sigs : Signatures} {docs : oidc.OidcJSON}.
Context {lib : saml.SamlLib} {dir : ldap.Directory} {forms : Forms}.

Definition secure (r : Request) : bool := bool_decide (is_Some (rqTLS r)).
Definition jar_of (r : Request) : Jar := httputil.cookies_of (rqHeader r).

(** Running a provider on its part of the state. *)
Definition with_oidc {A} (f : oidc.OIDCProvider * nat → A * (oidc.OIDCProvider * nat)) (live : Live) : A * Live :=
  let '(a, (p, n)) := f (lvOIDC live, lvCalls live) in (a, mkLive _ p (lvSAML live) (lvDirectory live) n).
Definition with_saml {A} (f : saml.SAMLProvider * nat → A * (saml.SAMLProvider * nat)) (live : Live) : A * Live :=
  let '(a, (p, n)) := f (lvSAML live, lvCalls live) in (a, mkLive _ (lvOIDC live) p (lvDirectory live) n).
Definition with_ldap {A} (f : list ldap.Op → A * list ldap.Op) (live : Live) : A * Live :=
  let '(a, log) := f (lvDirectory live) in (a, mkLive _ (lvOIDC live) (lvSAML live) log (lvCalls live)).

Definition serveLogin (e : Enforcer) (codec : Codec) (env : Env) (r : Request) : Reply :=
  let token := randomToken env 0 in
  let state := mkState (compiled.auIdentity (eCfg e)) (sanitizeReturnURL (queryGet r "rd")) token "" "" "" "" 0 in
  let cookies := [SealState codec (secure r) (evNow env) (evNonce env) state false] in
  mkReply cookies
    match compiled.auLDAP (eCfg e), compiled.auOIDC (eCfg e), compiled.auSAML (eCfg e) with
    | None, Some _, None => Found (startURL e "oidc")
    | None, None, Some _ => Found (startURL e "saml")
    | _, _, _ => LoginPage (login_page e token false)
    end.

Definition serveLogout (e : Enforcer) (codec : Codec) (env : Env) (r : Request) (live : Live) : Reply * Live :=
  let session := OpenSession codec (jar_of r) (evNow env) in
  let cookies := ClearSession codec (secure r) (jar_of r) in
  let '(target, live) :=
    match session with
    | Some s =>
        if sProvider s == "saml" then
          match compiled.auSAML (eCfg e) with
          | Some cfg => with_saml (saml.LogoutURL cfg (evNow env) r s (compiled.auPathPrefix (eCfg e))) live
          | None => ("", live)
          end
        else if sProvider s == "oidc" then
          match compiled.auOIDC (eCfg e) with
          | Some cfg => with_oidc (oidc.LogoutURL cfg (evNow env) r) live
          | None => ("", live)
          end
        else ("", live)
    | None => ("", live)
    end in
  (mkReply cookies (Found (if target == "" then "/" else target)), live).

(** The state of this extension's login, if one is in flight. *)
Definition in_flight (e : Enforcer) (codec : Codec) (env : Env) (r : Request) : option State :=
  state ← OpenState codec (jar_of r) (evNow env);
  if stExtension state != compiled.auIdentity (eCfg e) then None else Some state.

(** The end of a login: the state is consumed and the session sealed. *)
Definition conclude (codec : Codec) (env : Env) (r : Request) (state : State) (session : Session) : Reply :=
  let cleared := ClearState codec (secure r) in
  match SealSession codec (secure r) (jar_of r) (evNonce env) session with
  | Ok cookies => mkReply (cleared :: cookies) (Found (sanitizeReturnURL (stReturnURL state)))
  | Err _ => mkReply [cleared] internal_error
  end.

(** *** OpenID Connect *)

Definition oidcRedirectURI (e : Enforcer) (r : Request) : string :=
  oidc.requestOrigin r +:+ compiled.auPathPrefix (eCfg e) +:+ "/oidc/callback".

Definition oidcScopes (cfg : compiled.AuthOIDC) : list string :=
  if 0 <? Z.of_nat (length (compiled.aoScopes cfg)) then compiled.aoScopes cfg else ["openid"].

Definition authorization_query (e : Enforcer) (cfg : compiled.AuthOIDC) (r : Request) (state : State) :
    gmap string (list string) :=
  {["response_type" := ["code"]; "client_id" := [compiled.aoClientID cfg];
    "redirect_uri" := [oidcRedirectURI e r]; "scope" := [joinWith " " (oidcScopes cfg)];
    "state" := [stOIDCState state]; "nonce" := [stOIDCNonce state];
    "code_challenge" := [base64.encode (sha256Sum (stOIDCVerifier state))]; "code_challenge_method" := ["S256"]]}.

Definition serveOIDCStart (e : Enforcer) (codec : Codec) (env : Env) (r : Request) (live : Live) : Reply * Live :=
  match compiled.auOIDC (eCfg e) with
  | None => (mkReply [] NotFound, live)
  | Some cfg =>
      match with_oidc (oidc.discover cfg (evNow env)) live with
      | (Err _, live) => (mkReply [] unavailable, live)
      | (Ok discovery, live) =>
          match in_flight e codec env r with
          | None => (mkReply [] (Found (LoginURL e "")), live)
          | Some s =>
              let state := mkState (stExtension s) (stReturnURL s) (stFormToken s) (randomToken env 0)
                             (randomToken env 1) (randomToken env 2) (stSAMLRequestID s) (stExpiresAt s) in
              (mkReply [SealState codec (secure r) (evNow env) (evNonce env) state false]
                 (Found (oidc.odAuthorizationEndpoint discovery +:+ "?" +:+
                         httputil.encode_values (authorization_query e cfg r state))), live)
          end
      end
  end.

(** [None]: the session could not be minted for want of a codec. *)
Definition serveOIDCCallback (e : Enforcer) (codec : Codec) (env : Env) (r : Request) (live : Live) :
    option Reply * Live :=
  match compiled.auOIDC (eCfg e) with
  | None => (Some (mkReply [] NotFound), live)
  | Some cfg =>
      match in_flight e codec env r with
      | None => (Some (mkReply [] (Failed "invalid login state" 400)), live)
      | Some state =>
          if (stOIDCState state == "") || (queryGet r "state" != stOIDCState state)
          then (Some (mkReply [] (Failed "invalid login state" 400)), live)
          else
            let code := queryGet r "code" in
            if code == "" then (Some (mkReply [] (Failed "missing authorization code" 400)), live)
            else
              let form := oidc.code_form (oidcRedirectURI e r) code (stOIDCVerifier state) in
              match with_oidc (oidc.exchange cfg (evNow env) form) live with
              | (Err _, live) => (Some (mkReply [] unavailable), live)
              | (Ok tokens, live) =>
                  match with_oidc (oidc.sessionFromTokens e cfg (evNow env) tokens (stOIDCNonce state)) live with
                  | (Err _, live) => (Some (mkReply [] (Failed "login failed" 400)), live)
                  | (Ok session, live) => (conclude codec env r state <$> session, live)
                  end
              end
      end
  end.

(** *** LDAP *)

Definition serveLDAPLogin (e : Enforcer) (codec : Codec) (env : Env) (r : Request) (live : Live) :
    option Reply * Live :=
  match compiled.auLDAP (eCfg e) with
  | None => (Some (mkReply [] NotFound), live)
  | Some cfg =>
      match ParseForm r with
      | None => (Some (mkReply [] (Failed "invalid form" 400)), live)
      | Some (post, _) =>
          match in_flight e codec env r with
          | None => (Some (mkReply [] (Failed "invalid login state" 403)), live)
          | Some state =>
              if (stFormToken state == "") || (valueOf post "token" != stFormToken state)
              then (Some (mkReply [] (Failed "invalid login state" 403)), live)
              else
                match with_ldap (ldap.Authenticate (ldap.mkProvider cfg (compiled.alCA cfg))
                                   (valueOf post "username") (valueOf post "password")) live with
                | (Err Unavailable, live) => (Some (mkReply [] unavailable), live)
                | (Err BadCredentials, live) =>
                    (Some (mkReply [] (LoginPage (login_page e (stFormToken state) true))), live)
                | (Ok identity, live) =>
                    (conclude codec env r state <$> mintSession e "ldap" identity (evNow env), live)
                end
          end
      end
  end.

(** *** SAML *)

(** The service provider every SAML endpoint starts with. *)
Definition with_sp (e : Enforcer) (env : Env) (r : Request) (live : Live)
    (body : compiled.AuthSAML → saml.ServiceProvider saml.Metadata → Reply) : Reply * Live :=
  match compiled.auSAML (eCfg e) with
  | None => (mkReply [] NotFound, live)
  | Some cfg =>
      match with_saml (saml.serviceProvider cfg (evNow env) r (compiled.auPathPrefix (eCfg e))) live with
      | (Err _, live) => (mkReply [] unavailable, live)
      | (Ok sp, live) => (body cfg sp, live)
      end
  end.

(** A request that cannot be turned into a redirect has its cookie set. *)
Definition serveSAMLStart (e : Enforcer) (codec : Codec) (env : Env) (r : Request) (live : Live) : Reply * Live :=
  with_sp e env r live (λ cfg sp,
    match in_flight e codec env r with
    | None => mkReply [] (Found (LoginURL e ""))
    | Some s =>
        match saml.authnRequest sp (evNonce env) (saml.ssoLocation (saml.spIDPMetadata sp)) with
        | None => mkReply [] unavailable
        | Some (id, target) =>
            let state := mkState (stExtension s) (stReturnURL s) (stFormToken s) (stOIDCState s) (stOIDCNonce s)
                           (stOIDCVerifier s) id (stExpiresAt s) in
            mkReply [SealState codec (secure r) (evNow env) (evNonce env) state true]
              match target with Some url => Found url | None => internal_error end
        end
    end).

(** [None]: no codec to mint with. *)
Definition serveSAMLACS (e : Enforcer) (codec : Codec) (env : Env) (r : Request) (live : Live) :
    option Reply * Live :=
  match compiled.auSAML (eCfg e) with
  | None => (Some (mkReply [] NotFound), live)
  | Some cfg =>
      match with_saml (saml.serviceProvider cfg (evNow env) r (compiled.auPathPrefix (eCfg e))) live with
      | (Err _, live) => (Some (mkReply [] unavailable), live)
      | (Ok sp, live) =>
          (match ParseForm r with
           | None => Some (mkReply [] (Failed "invalid form" 400))
           | Some (post, _) =>
               match in_flight e codec env r with
               | None => Some (mkReply [] (Failed "unsolicited saml response" 403))
               | Some state =>
                   if stSAMLRequestID state == "" then Some (mkReply [] (Failed "unsolicited saml response" 403))
                   else
                     match saml.parseResponse sp post [stSAMLRequestID state] (evNow env) with
                     | None => Some (mkReply [] (Failed "invalid saml response" 403))
                     | Some assertion =>
                         let '(identity, extra) :=
                           saml.identityFromAssertion assertion (compiled.asmAttributes cfg) in
                         (λ s, conclude codec env r state (with_extra extra s)) <$>
                           mintSession e "saml" identity (evNow env)
                     end
               end
           end, live)
      end
  end.

Definition serveSAMLMetadata (e : Enforcer) (env : Env) (r : Request) (live : Live) : Reply * Live :=
  with_sp e env r live (λ _ sp,
    mkReply [] match saml.metadataDocument sp with Some document => Document document | None => internal_error end).

Definition serveSAMLSLO (e : Enforcer) (codec : Codec) (env : Env) (r : Request) (live : Live) : Reply * Live :=
  with_sp e env r live (λ _ sp,
    match ParseForm r with
    | None => mkReply [] (Failed "invalid form" 400)
    | Some (_, form) =>
        if valueOf form "SAMLResponse" != "" then mkReply [] (Found "/")
        else
          let encoded := valueOf form "SAMLRequest" in
          if encoded == "" then mkReply [] (Failed "missing saml message" 400)
          else
            match saml.parseLogoutRequest encoded (rqMethod r == "GET") with
            | None => mkReply [] (Failed "invalid logout request" 400)
            | Some id =>
                let destination := saml.sloLocation (saml.spIDPMetadata sp) in
                mkReply (ClearSession codec (secure r) (jar_of r))
                  (if destination == "" then Found "/"
                   else match response ← saml.logoutResponse sp destination id;
                              saml.signedRedirect sp destination "SAMLResponse" response (valueOf form "RelayState") with
                        | Some target => Found target
                        | None => internal_error
                        end)
            end
    end).

(** *** Dispatch *)

(** The first candidate whose cookies the request carries. *)
Definition carries (env : Env) (r : Request) (e : Enforcer) : bool :=
  match eCodec e with
  | None => false
  | Some codec =>
      bool_decide (is_Some (OpenState codec (jar_of r) (evNow env))) ||
      bool_decide (is_Some (OpenSession codec (jar_of r) (evNow env)))
  end.

Definition pick (env : Env) (r : Request) (candidates : list (Enforcer * Live)) : option (Enforcer * Live) :=
  let ext := queryGet r "ext" in
  if ext != "" then head (filter (λ c, compiled.auIdentity (eCfg c.1) = ext) candidates)
  else match head (filter (λ c, carries env r c.1 = true) candidates), candidates with
       | Some c, _ => Some c
       | None, [c] => Some c
       | None, _ => None
       end.

Definition selectEndpoint (env : Env) (r : Request) (candidates : list (Enforcer * Live)) :
    option (Enforcer * Live * string) :=
  c ← pick env r candidates;
  Some (c, trimPrefix (rqPath r) (compiled.auPathPrefix (eCfg c.1))).

Definition total {A} (p : A * Live) : option A * Live := (Some p.1, p.2).

(** One endpoint of the chosen extension. *)
Definition dispatch (env : Env) (r : Request) (e : Enforcer) (codec : Codec) (live : Live) (endpoint : string) :
    option Reply * Live :=
  let get := rqMethod r == "GET" in
  let post := rqMethod r == "POST" in
  if (endpoint == "/login") && get then (Some (serveLogin e codec env r), live)
  else if (endpoint == "/logout") && get then total (serveLogout e codec env r live)
  else if (endpoint == "/oidc/start") && get then total (serveOIDCStart e codec env r live)
  else if (endpoint == "/oidc/callback") && get then serveOIDCCallback e codec env r live
  else if (endpoint == "/saml/start") && get then total (serveSAMLStart e codec env r live)
  else if (endpoint == "/saml/acs") && post then serveSAMLACS e codec env r live
  else if (endpoint == "/saml/metadata") && get then total (serveSAMLMetadata e env r live)
  else if endpoint == "/saml/slo" then total (serveSAMLSLO e codec env r live)
  else if (endpoint == "/ldap/login") && post then serveLDAPLogin e codec env r live
  else (Some (mkReply [] NotFound), live).

(** The reply and the state of the extension that gave it. *)
Definition ServeEndpoint (env : Env) (r : Request) (candidates : list (Enforcer * Live)) :
    option Reply * option Live :=
  match selectEndpoint env r candidates with
  | None => (Some (mkReply [] NotFound), None)
  | Some (e, live, endpoint) =>
      match eCodec e with
      | None => (None, None)
      | Some codec => let '(reply, live) := dispatch env r e codec live endpoint in (reply, Some live)
      end
  end.

End endpoints.

(** ** Who gets a session *)

Section sessions.
Context {sealer : Sealer} {states : StateSealer}.
Context {web : Web} {json : TokenJSON} {sigs : Signatures} {docs : oidc.OidcJSON}.
Context {lib : saml.SamlLib} {dir : ldap.Directory} {forms : Forms}.

Definition sets_session (reply : Reply) : Prop :=
  ∃ k, k ∈ rpCookies reply ∧ hasPrefix (ckName k) "krouter_auth_" = true ∧ 0 ≤ ckMaxAge k.

(** How a session comes about: the request answers the challenge of the
    in-flight state, and the provider vouches for the identity. *)
Inductive logged_in (e : Enforcer) (env : Env) (r : Request) (live : Live) (state : State) : Session → Prop :=
  | by_oidc cfg tokens live1 live2 claims s :
      compiled.auOIDC (eCfg e) = Some cfg →
      stOIDCState state ≠ "" → queryGet r "state" = stOIDCState state → queryGet r "code" ≠ "" →
      with_oidc (oidc.exchange cfg (evNow env)
        (oidc.code_form (oidcRedirectURI e r) (queryGet r "code") (stOIDCVerifier state))) live = (Ok tokens, live1) →
      with_oidc (oidc.validate cfg (evNow env) (oidc.otIDToken tokens)) live1 = (Ok claims, live2) →
      (stOIDCNonce state ≠ "" → claims !! "nonce" = Some [stOIDCNonce state]) →
      oidc.session_of e (evNow env) tokens claims = Some s →
      logged_in e env r live state s
  | by_saml cfg sp live1 form assertion s :
      compiled.auSAML (eCfg e) = Some cfg → stSAMLRequestID state ≠ "" →
      with_saml (saml.serviceProvider cfg (evNow env) r (compiled.auPathPrefix (eCfg e))) live = (Ok sp, live1) →
      body_form r = Some form →
      saml.parseResponse sp form [stSAMLRequestID state] (evNow env) = Some assertion →
      mintSession e "saml" (saml.identityFromAssertion assertion (compiled.asmAttributes cfg)).1 (evNow env) = Some s →
      logged_in e env r live state
        (with_extra (saml.identityFromAssertion assertion (compiled.asmAttributes cfg)).2 s)
  | by_ldap cfg live1 form identity s :
      compiled.auLDAP (eCfg e) = Some cfg → body_form r = Some form →
      stFormToken state ≠ "" → valueOf form "token" = stFormToken state →
      with_ldap (ldap.Authenticate (ldap.mkProvider cfg (compiled.alCA cfg))
        (valueOf form "username") (valueOf form "password")) live = (Ok identity, live1) →
      mintSession e "ldap" identity (evNow env) = Some s →
      logged_in e env r live state s.

Lemma state_cookie_not_session codec sec now nonce s cross :
  hasPrefix (ckName (SealState codec sec now nonce s cross)) "krouter_auth_" = false.
Proof. unfold SealState. by destruct (cross && sec). Qed.

Lemma no_cookies_no_session a : ¬ sets_session (mkReply [] a).
Proof. intros (k & []%elem_of_nil & _). Qed.

Lemma state_only_no_session codec sec now nonce s cross a :
  ¬ sets_session (mkReply [SealState codec sec now nonce s cross] a).
Proof.
  intros (k & Hk & Hp & _). apply list_elem_of_singleton in Hk as ->. by rewrite state_cookie_not_session in Hp.
Qed.

Lemma clear_session_no_session codec sec jar a : ¬ sets_session (mkReply (ClearSession codec sec jar) a).
Proof.
  intros (k & Hk & _ & Hage). unfold ClearSession, drop_stale in Hk. simpl in Hk.
  apply elem_of_cons in Hk as [->|Hk]; [simpl in Hage; lia|].
  apply list_elem_of_fmap in Hk as (i & -> & _). simpl in Hage. lia.
Qed.

#[local] Hint Resolve no_cookies_no_session state_only_no_session clear_session_no_session : core.

Lemma with_sp_no_session e env r live body reply live' :
  (∀ cfg sp, ¬ sets_session (body cfg sp)) → with_sp e env r live body = (reply, live') → ¬ sets_session reply.
Proof.
  intros Hb. unfold with_sp. repeat case_match; intros; simplify_eq; auto.
Qed.

Lemma ParseForm_body r post form : ParseForm r = Some (post, form) → body_form r = Some post.
Proof. unfold ParseForm. destruct (body_form r); simpl; [|done]. case_match; naive_solver. Qed.

Lemma in_flight_Some e codec env r state :
  in_flight e codec env r = Some state →
  OpenState codec (jar_of r) (evNow env) = Some state ∧ stExtension state = compiled.auIdentity (eCfg e).
Proof.
  unfold in_flight. destruct (OpenState _ _ _) as [s|]; [|done]. simpl.
  destruct (decide (stExtension s = compiled.auIdentity (eCfg e))) as [He|He].
  - rewrite (bool_decide_eq_true_2 _ He). by intros [= ->].
  - by rewrite (bool_decide_eq_false_2 _ He).
Qed.

(** The three endpoints that conclude a login. *)
Definition concludes (e : Enforcer) (codec : Codec) (env : Env) (r : Request) (live : Live) (reply : Reply) : Prop :=
  ∃ state session, in_flight e codec env r = Some state ∧ logged_in e env r live state session ∧
    reply = conclude codec env r state session.

Lemma serveOIDCCallback_cases e codec env r live reply live' :
  serveOIDCCallback e codec env r live = (Some reply, live') →
  ¬ sets_session reply ∨ concludes e codec env r live reply.
Proof.
  unfold serveOIDCCallback. destruct (compiled.auOIDC (eCfg e)) as [cfg|] eqn:Hcfg; [|intros [= <- _]; auto].
  destruct (in_flight e codec env r) as [state|] eqn:Hs; [|intros [= <- _]; auto].
  destruct (_ || _) eqn:Hstate; [intros [= <- _]; auto|].
  apply orb_false_iff in Hstate as [Hne%bool_decide_eq_false Heq%negb_false_iff%bool_decide_eq_true].
  case_bool_decide as Hcode; [intros [= <- _]; auto|].
  destruct (with_oidc (oidc.exchange _ _ _) live) as [[tokens|e1] live1] eqn:Hx; [|intros [= <- _]; auto].
  destruct (with_oidc (oidc.sessionFromTokens _ _ _ _ _) live1) as [[session|e2] live2] eqn:Ht; [|intros [= <- _]; auto].
  intros H. right. destruct session as [session|]; simpl in H; [|done]. injection H as <- _.
  exists state, session. split_and!; [done| |done].
  unfold with_oidc, oidc.sessionFromTokens in Ht.
  destruct (oidc.validate cfg (evNow env) (oidc.otIDToken tokens) (lvOIDC live1, lvCalls live1)) as [[claims|e3] [p n]] eqn:Hv.
  2:{ unfold mbind, act_bind in Ht. rewrite Hv in Ht. done. }
  unfold mbind, act_bind in Ht. rewrite Hv in Ht.
  destruct ((stOIDCNonce state != "") && _) eqn:Hn; [done|]. injection Ht as Ht _.
  eapply (by_oidc e env r live state cfg tokens live1 _ claims session); try done.
  - unfold with_oidc. by rewrite Hv.
  - intros Hnn. rewrite (bool_decide_eq_false_2 _ Hnn) in Hn. simpl in Hn. apply negb_false_iff in Hn.
    unfold single in Hn. apply bool_decide_eq_true in Hn. destruct (claims !! "nonce"); simpl in Hn; congruence.
Qed.

Lemma serveSAMLACS_cases e codec env r live reply live' :
  serveSAMLACS e codec env r live = (Some reply, live') →
  ¬ sets_session reply ∨ concludes e codec env r live reply.
Proof.
  unfold serveSAMLACS. destruct (compiled.auSAML (eCfg e)) as [cfg|] eqn:Hcfg; [|intros [= <- _]; auto].
  destruct (with_saml _ live) as [[sp|e1] live1] eqn:Hsp; [|intros [= <- _]; auto].
  destruct (ParseForm r) as [[post form]|] eqn:Hf; [|intros [= <- _]; auto]. apply ParseForm_body in Hf.
  destruct (in_flight e codec env r) as [state|] eqn:Hs; [|intros [= <- _]; auto].
  case_bool_decide as Hid; [intros [= <- _]; auto|].
  destruct (saml.parseResponse _ _ _ _) as [assertion|] eqn:Ha; [|intros [= <- _]; auto].
  destruct (saml.identityFromAssertion assertion _) as [identity extra] eqn:Hi.
  destruct (mintSession e "saml" identity (evNow env)) as [s|] eqn:Hm; [|done]. simpl. intros [= <- _].
  right. exists state, (with_extra extra s). split_and!; [done| |done].
  rewrite <-(f_equal snd Hi : _ = extra). eapply (by_saml e env r live state cfg sp); try done. by rewrite Hi.
Qed.

Lemma serveLDAPLogin_cases e codec env r live reply live' :
  serveLDAPLogin e codec env r live = (Some reply, live') →
  ¬ sets_session reply ∨ concludes e codec env r live reply.
Proof.
  unfold serveLDAPLogin. destruct (compiled.auLDAP (eCfg e)) as [cfg|] eqn:Hcfg; [|intros [= <- _]; auto].
  destruct (ParseForm r) as [[post form]|] eqn:Hf; [|intros [= <- _]; auto]. apply ParseForm_body in Hf.
  destruct (in_flight e codec env r) as [state|] eqn:Hs; [|intros [= <- _]; auto].
  destruct (_ || _) eqn:Htok; [intros [= <- _]; auto|].
  apply orb_false_iff in Htok as [Hne%bool_decide_eq_false Heq%negb_false_iff%bool_decide_eq_true].
  destruct (with_ldap _ live) as [[identity|[]] live1] eqn:Ha; [|intros [= <- _]; auto..].
  destruct (mintSession e "ldap" identity (evNow env)) as [s|] eqn:Hm; [|done]. simpl. intros [= <- _].
  right. exists state, s. split_and!; [done| |done]. by eapply (by_ldap e env r live state cfg).
Qed.

Lemma dispatch_cases env r e codec live endpoint reply live' :
  dispatch env r e codec live endpoint = (Some reply, live') →
  ¬ sets_session reply ∨ concludes e codec env r live reply.
Proof.
  unfold dispatch, total.
  destruct (_ && _); [intros [= <- _]; left; unfold serveLogin; auto|].
  destruct (_ && _).
  { intros [= <- _]. left. unfold serveLogout. case_match. simpl. auto. }
  destruct (_ && _).
  { intros [= <- _]. left. unfold serveOIDCStart. repeat case_match; simpl; auto. }
  destruct (_ && _); [apply serveOIDCCallback_cases|].
  destruct (_ && _).
  { intros [= <- _]. left. eapply with_sp_no_session; [|by apply surjective_pairing].
    intros cfg sp. simpl. repeat case_match; auto. }
  destruct (_ && _); [apply serveSAMLACS_cases|].
  destruct (_ && _).
  { intros [= <- _]. left. eapply with_sp_no_session; [|by apply surjective_pairing].
    intros cfg sp. apply no_cookies_no_session. }
  destruct (bool_decide (endpoint = "/saml/slo")).
  { intros [= <- _]. left. eapply with_sp_no_session; [|by apply surjective_pairing].
    intros cfg sp. simpl. repeat case_match; auto. }
  destruct (_ && _); [apply serveLDAPLogin_cases|]. intros [= <- _]. auto.
Qed.

Lemma pick_elem env r candidates c : pick env r candidates = Some c → c ∈ candidates.
Proof.
  assert (∀ (P : Enforcer * Live → Prop) `{∀ c, base.Decision (P c)}, head (filter P candidates) = Some c → c ∈ candidates) as Hh.
  { intros P ? H. apply head_Some_elem_of in H. by apply list_elem_of_filter in H as [_ ?]. }
  unfold pick. destruct (queryGet r "ext" != ""); [apply Hh|].
  destruct (head (filter _ candidates)) eqn:E; [intros [= <-]; by eapply Hh|].
  destruct candidates as [|? []]; intros; simplify_eq. left.
Qed.

End sessions.

(** The login endpoints hand out a session cookie only at the end of a login:
    the request carries the unexpired state cookie of that extension, an OpenID
    Connect callback repeats its state parameter and redeems the code for an ID
    token that verifies and carries the nonce, a SAML response answers the
    recorded request ID, and a directory form repeats the form token and names
    credentials the directory accepted. *)
Theorem ServeEndpoint_session {sealer : Sealer} {states : StateSealer}
    {web : Web} {json : TokenJSON} {sigs : Signatures} {docs : oidc.OidcJSON} {lib : saml.SamlLib}
    {dir : ldap.Directory} {forms : Forms} env r candidates reply live' :
  ServeEndpoint env r candidates = (Some reply, live') → sets_session reply →
  ∃ e live codec state session, (e, live) ∈ candidates ∧ eCodec e = Some codec ∧
    OpenState codec (jar_of r) (evNow env) = Some state ∧ stExtension state = compiled.auIdentity (eCfg e) ∧
    logged_in e env r live state session ∧ reply = conclude codec env r state session.
Proof.
  unfold ServeEndpoint, selectEndpoint. destruct (pick env r candidates) as [[e live]|] eqn:Hp; simpl.
  2:{ intros [= <- _] Hs. by apply no_cookies_no_session in Hs. }
  destruct (eCodec e) as [codec|] eqn:Hc; [|done].
  destruct (dispatch _ _ _ _ _ _) as [reply1 live1] eqn:Hd. intros [= -> _] Hs.
  apply dispatch_cases in Hd as [Hn|(state & session & Hst & Hl & ->)]; [done|].
  apply in_flight_Some in Hst as [? ?]. apply pick_elem in Hp.
  exists e, live, codec, state, session. done.
Qed.

(** ** A login runs to its end *)

Section flow.
Context {sealer : Sealer} {states : StateSealer}.
Context {web : Web} {json : TokenJSON} {sigs : Signatures} {docs : oidc.OidcJSON}.
Context {lib : saml.SamlLib} {dir : ldap.Directory} {forms : Forms}.

Lemma StateCookie_not_chunk c i : StateCookie c ≠ chunkName c i.
Proof. unfold StateCookie, chunkName, SessionCookie. destruct (i =? 0)%nat; by intros H. Qed.

Lemma SealState_cookie c sec now nonce s cross :
  ckName (SealState c sec now nonce s cross) = StateCookie c ∧
  ckValue (SealState c sec now nonce s cross) = sealState (cKey c) "state" nonce (expiring now s) ∧
  ckMaxAge (SealState c sec now nonce s cross) = 600.
Proof. unfold SealState. by destruct (cross && sec). Qed.

Lemma sealed_state_opens c sec now nonce s cross (jar : Jar) now' :
  state_safe (expiring now s) = true → unix now' < unix (now + StateLifetime) →
  OpenState c (fold_left store_cookie [SealState c sec now nonce s cross] jar) now' = Some (expiring now s).
Proof.
  intros Hsafe Hnow. destruct (SealState_cookie c sec now nonce s cross) as (Hn & Hv & Ha).
  unfold OpenState. cbn [fold_left]. unfold store_cookie. rewrite Ha, Hn, Hv. simpl.
  rewrite lookup_insert_eq. simpl. rewrite open_seal_state by done. simpl.
  by rewrite (proj2 (Z.leb_gt _ _)) by done.
Qed.

Lemma SealSession_jar c sec (jar jar' : Jar) nonce s :
  (∀ i, jar !! chunkName c i = jar' !! chunkName c i) →
  SealSession c sec jar nonce s = SealSession c sec jar' nonce s.
Proof.
  intros Hj. unfold SealSession. generalize (N.to_nat cookieChunkSize). intros size. cbv zeta. destruct (_ <? _)%nat; [done|]. do 2 f_equal.
  unfold drop_stale. f_equal. apply list_filter_iff. intros i. by rewrite Hj.
Qed.

Lemma store_other cookies (jar : Jar) name :
  (∀ k, k ∈ cookies → ckName k ≠ name) → fold_left store_cookie cookies jar !! name = jar !! name.
Proof.
  revert jar. induction cookies as [|k cookies IH]; intros jar Hn; [done|]. simpl.
  rewrite IH by (intros; apply Hn; by right). unfold store_cookie.
  destruct (_ <? _); [rewrite lookup_delete_ne|rewrite lookup_insert_ne]; try done; apply Hn; left.
Qed.

Lemma SealSession_names c sec jar nonce s cookies :
  SealSession c sec jar nonce s = Ok cookies → ∀ k, k ∈ cookies → ∃ i, ckName k = chunkName c i.
Proof.
  unfold SealSession. generalize (N.to_nat cookieChunkSize). intros size. cbv zeta.
  destruct (_ <? _)%nat; [done|]. intros H k. injection H as <-. rewrite elem_of_app. intros [Hk|Hk].
  - apply elem_of_zip_with in Hk as (i & part & -> & _). by exists i.
  - unfold drop_stale in Hk. apply list_elem_of_fmap in Hk as (i & -> & _). by exists i.
Qed.

(** What the browser holds after a concluded login. *)
Lemma concluded c env r state session cookies :
  SealSession c (secure r) (jar_of r) (evNonce env) session = Ok cookies →
  json_safe session = true → 0 ≤ cLifetime c →
  let jar := fold_left store_cookie (rpCookies (conclude c env r state session)) (jar_of r) in
  rpAnswer (conclude c env r state session) = Found (sanitizeReturnURL (stReturnURL state)) ∧
  (∀ now, unix now < sExpiresAt session → OpenSession c jar now = Some session) ∧ (∀ now, OpenState c jar now = None).
Proof.
  intros Hseal Hsafe Hlife. unfold conclude. rewrite Hseal. cbn [rpCookies rpAnswer fold_left]. split; [done|].
  assert (store_cookie (jar_of r) (ClearState c (secure r)) = delete (StateCookie c) (jar_of r)) as -> by done.
  rewrite (SealSession_jar c (secure r) _ (delete (StateCookie c) (jar_of r))) in Hseal
    by (intros i; by rewrite lookup_delete_ne by apply StateCookie_not_chunk).
  split; [intros now Hexp; by eapply session_roundtrip|].
  intros now. unfold OpenState. rewrite store_other; [by rewrite lookup_delete_eq|].
  intros k Hk He. eapply SealSession_names in Hk as [i Hi]; [|done]. eapply StateCookie_not_chunk. by rewrite <-He.
Qed.

(** A request for an endpoint of the extension. *)
Definition endpoint_request (e : Enforcer) (method endpoint : string) (r : Request) : Prop :=
  rqMethod r = method ∧ rqPath r = compiled.auPathPrefix (eCfg e) +:+ endpoint ∧
  (queryGet r "ext" = "" ∨ queryGet r "ext" = compiled.auIdentity (eCfg e)).

Lemma serve_single env r e codec live method endpoint :
  endpoint_request e method endpoint r → eCodec e = Some codec →
  ServeEndpoint env r [(e, live)] =
    let '(reply, live) := dispatch env r e codec live endpoint in (reply, Some live).
Proof.
  intros (_ & Hp & Hext) Hc. unfold ServeEndpoint, selectEndpoint.
  assert (pick env r [(e, live)] = Some (e, live)) as ->.
  { unfold pick. destruct Hext as [->| ->].
    - simpl. by destruct (head (filter _ [(e, live)])) as [c|] eqn:Hh;
        [apply head_Some_elem_of, list_elem_of_filter in Hh as [_ ->%list_elem_of_singleton]|].
    - case_bool_decide as Hid; simpl.
      + by destruct (head (filter _ [(e, live)])) as [c|] eqn:Hh;
          [apply head_Some_elem_of, list_elem_of_filter in Hh as [_ ->%list_elem_of_singleton]|].
      + rewrite filter_cons_True by done. done. }
  simpl. by rewrite Hc, Hp, trimPrefix_app.
Qed.

(** The state of a login that [serveLogin] seals, and the one
    [serveOIDCStart] makes of it. *)
Definition login_state (e : Enforcer) (env : Env) (r : Request) : State :=
  expiring (evNow env)
    (mkState (compiled.auIdentity (eCfg e)) (sanitizeReturnURL (queryGet r "rd")) (randomToken env 0) "" "" "" "" 0).

Definition oidc_state (env : Env) (s : State) : State :=
  expiring (evNow env)
    (mkState (stExtension s) (stReturnURL s) (stFormToken s) (randomToken env 0) (randomToken env 1)
       (randomToken env 2) (stSAMLRequestID s) (stExpiresAt s)).

Lemma randomToken_nonempty env i : evDraw env i ≠ "" → randomToken env i ≠ "".
Proof. apply base64.encode_nonempty. Qed.

Lemma session_of_expiry e codec now tokens claims s :
  eCodec e = Some codec → oidc.session_of e now tokens claims = Some s → sExpiresAt s = unix (now + cLifetime codec).
Proof.
  intros Hc. unfold oidc.session_of, mintSession. rewrite Hc. simpl. by intros [= <-].
Qed.

Lemma in_flight_open e codec env r s :
  OpenState codec (jar_of r) (evNow env) = Some s → stExtension s = compiled.auIdentity (eCfg e) →
  in_flight e codec env r = Some s.
Proof. intros Ho He. unfold in_flight. rewrite Ho. simpl. by rewrite (bool_decide_eq_true_2 _ He). Qed.

Lemma sanitize_idemp raw : sanitizeReturnURL (sanitizeReturnURL raw) = sanitizeReturnURL raw.
Proof.
  assert (∀ x, (x == "") || negb (hasPrefix x "/") || hasPrefix x "//" = false → sanitizeReturnURL x = x) as Hid
    by (intros x Hx; unfold sanitizeReturnURL; by rewrite Hx).
  unfold sanitizeReturnURL at 2 3. destruct (_ || _ || _) eqn:Hx; [done|by apply Hid].
Qed.

Lemma callback_concludes e cfg codec env r live live1 live2 state tokens claims session :
  compiled.auOIDC (eCfg e) = Some cfg → in_flight e codec env r = Some state →
  stOIDCState state ≠ "" → queryGet r "state" = stOIDCState state → queryGet r "code" ≠ "" →
  with_oidc (oidc.exchange cfg (evNow env)
    (oidc.code_form (oidcRedirectURI e r) (queryGet r "code") (stOIDCVerifier state))) live = (Ok tokens, live1) →
  with_oidc (oidc.validate cfg (evNow env) (oidc.otIDToken tokens)) live1 = (Ok claims, live2) →
  stOIDCNonce state = "" ∨ claims !! "nonce" = Some [stOIDCNonce state] →
  oidc.session_of e (evNow env) tokens claims = Some session →
  serveOIDCCallback e codec env r live = (Some (conclude codec env r state session), live2).
Proof.
  intros Ho Hf Hne Hq Hcode Hx Hv Hnonce Hs. unfold serveOIDCCallback. rewrite Ho, Hf, Hq.
  rewrite (bool_decide_eq_false_2 _ Hne), (bool_decide_eq_true_2 _ (eq_refl (stOIDCState state))). cbn [orb negb].
  rewrite (bool_decide_eq_false_2 _ Hcode), Hx.
  unfold with_oidc, oidc.sessionFromTokens, mbind, act_bind in *.
  destruct (oidc.validate cfg (evNow env) (oidc.otIDToken tokens) (lvOIDC live1, lvCalls live1)) as [rv [p n]].
  injection Hv as -> <-. assert ((stOIDCNonce state != "") && negb (single claims "nonce" (stOIDCNonce state)) = false) as ->.
  { destruct Hnonce as [->|Hn]; [done|]. unfold single. rewrite Hn. simpl.
    by rewrite (bool_decide_eq_true_2 _ (eq_refl [stOIDCNonce state])), andb_false_r. }
  by rewrite Hs.
Qed.

End flow.

(** C36: A login over OpenID Connect, as the only interactive provider,
    completes: the cookies the login page and the start endpoint set, carried
    back by the browser with the state parameter and a code within ten minutes
    each, let the callback redeem the code and answer with a redirect to the
    page first asked for and the cookies of the session minted, and the login
    state is used up; from then on, at every instant within the session's
    lifetime, any request carrying those session cookies opens that very
    session, and while the token lasts it is decided by it. The states and the
    session survive JSON, and the session fits the cookie budget. *)
Theorem oidc_login_completes {sealer : Sealer} {states : StateSealer}
    {web : Web} {json : TokenJSON} {sigs : Signatures} {docs : oidc.OidcJSON} {lib : saml.SamlLib}
    {dir : ldap.Directory} {forms : Forms}
    e cfg codec env1 env2 env3 r1 r2 r3 live1 live2 live3 live4 discovery tokens claims session cookies :
  eCodec e = Some codec → 0 ≤ cLifetime codec →
  compiled.auOIDC (eCfg e) = Some cfg → compiled.auSAML (eCfg e) = None → compiled.auLDAP (eCfg e) = None →
  (** the browser opens the login page, *)
  endpoint_request e "GET" "/login" r1 → state_safe (login_state e env1 r1) = true →
  (** follows the redirect within ten minutes, *)
  endpoint_request e "GET" "/oidc/start" r2 → unix (evNow env2) < unix (evNow env1 + StateLifetime) →
  jar_of r2 = fold_left store_cookie (rpCookies (serveLogin e codec env1 r1)) (jar_of r1) →
  with_oidc (oidc.discover cfg (evNow env2)) live1 = (Ok discovery, live2) →
  (∀ i, evDraw env2 i ≠ "") → state_safe (oidc_state env2 (login_state e env1 r1)) = true →
  (** and comes back with a code within another ten; *)
  endpoint_request e "GET" "/oidc/callback" r3 → unix (evNow env3) < unix (evNow env2 + StateLifetime) →
  jar_of r3 = fold_left store_cookie (rpCookies (serveOIDCStart e codec env2 r2 live1).1) (jar_of r2) →
  queryGet r3 "state" = randomToken env2 0 → queryGet r3 "code" ≠ "" →
  (** the provider redeems it for a token with the nonce. *)
  with_oidc (oidc.exchange cfg (evNow env3)
    (oidc.code_form (oidcRedirectURI e r3) (queryGet r3 "code") (randomToken env2 2))) live2 = (Ok tokens, live3) →
  with_oidc (oidc.validate cfg (evNow env3) (oidc.otIDToken tokens)) live3 = (Ok claims, live4) →
  claims !! "nonce" = Some [randomToken env2 1] →
  oidc.session_of e (evNow env3) tokens claims = Some session → json_safe session = true →
  SealSession codec (secure r3) (jar_of r3) (evNonce env3) session = Ok cookies →
  ∃ reply1 reply2 reply3,
    ServeEndpoint env1 r1 [(e, live1)] = (Some reply1, Some live1) ∧
    rpAnswer reply1 = Found (startURL e "oidc") ∧
    ServeEndpoint env2 r2 [(e, live1)] = (Some reply2, Some live2) ∧
    rpAnswer reply2 = Found (oidc.odAuthorizationEndpoint discovery +:+ "?" +:+ httputil.encode_values
      (authorization_query e cfg r2 (oidc_state env2 (login_state e env1 r1)))) ∧
    ServeEndpoint env3 r3 [(e, live2)] = (Some reply3, Some live4) ∧
    rpAnswer reply3 = Found (sanitizeReturnURL (queryGet r1 "rd")) ∧
    let jar := fold_left store_cookie (rpCookies reply3) (jar_of r3) in
    (∀ now, OpenState codec jar now = None) ∧
    ∀ now (carried : Jar),
      unix now < unix (evNow env3 + cLifetime codec) →
      (∀ i, carried !! chunkName codec i = jar !! chunkName codec i) →
      OpenSession codec carried now = Some session ∧
      (sTokenExpiresAt session = 0 ∨ unix now < sTokenExpiresAt session →
       ∀ (providers : Providers) r4 sec nonce g, (Evaluate e r4 sec carried now nonce g).2 =
         Decided (authorize e session (sProvider session)) []).
Proof.
  intros Hc Hlife Ho Hs Hl Hr1 Hsafe1 Hr2 Ht2 Hj2 Hdisc Hdraw Hsafe2 Hr3 Ht3 Hj3 Hq Hcode Hx Hv Hnonce Hses Hjson Hseal.
  (* the two states the browser carries *)
  assert (in_flight e codec env2 r2 = Some (login_state e env1 r1)) as Hf2.
  { apply in_flight_open; [|done]. rewrite Hj2. by apply sealed_state_opens. }
  assert (serveOIDCStart e codec env2 r2 live1 =
    (mkReply [SealState codec (secure r2) (evNow env2) (evNonce env2)
       (mkState (stExtension (login_state e env1 r1)) (stReturnURL (login_state e env1 r1))
          (stFormToken (login_state e env1 r1)) (randomToken env2 0) (randomToken env2 1) (randomToken env2 2)
          (stSAMLRequestID (login_state e env1 r1)) (stExpiresAt (login_state e env1 r1))) false]
       (Found (oidc.odAuthorizationEndpoint discovery +:+ "?" +:+ httputil.encode_values
          (authorization_query e cfg r2 (oidc_state env2 (login_state e env1 r1))))), live2)) as Hstart.
  { unfold serveOIDCStart. rewrite Ho, Hdisc, Hf2. done. }
  assert (in_flight e codec env3 r3 = Some (oidc_state env2 (login_state e env1 r1))) as Hf3.
  { apply in_flight_open; [|done]. rewrite Hj3, Hstart. by apply sealed_state_opens. }
  assert (serveOIDCCallback e codec env3 r3 live2 =
    (Some (conclude codec env3 r3 (oidc_state env2 (login_state e env1 r1)) session), live4)) as Hcb.
  { eapply callback_concludes; try done; [by apply randomToken_nonempty|by right]. }
  destruct (concluded codec env3 r3 (oidc_state env2 (login_state e env1 r1)) session cookies Hseal Hjson)
    as (Hans & Hopen & Hgone); [lia|].
  rewrite (session_of_expiry _ _ _ _ _ _ Hc Hses) in Hopen.
  exists (serveLogin e codec env1 r1), (serveOIDCStart e codec env2 r2 live1).1,
    (conclude codec env3 r3 (oidc_state env2 (login_state e env1 r1)) session).
  rewrite (serve_single env1 r1 e codec live1 "GET" "/login" Hr1 Hc).
  rewrite (serve_single env2 r2 e codec live1 "GET" "/oidc/start" Hr2 Hc).
  rewrite (serve_single env3 r3 e codec live2 "GET" "/oidc/callback" Hr3 Hc).
  destruct Hr1 as (Hm1 & _), Hr2 as (Hm2 & _), Hr3 as (Hm3 & _).
  unfold dispatch. rewrite Hm1, Hm2, Hm3. simpl. rewrite Hcb, Hstart. simpl.
  split_and!; try done; [unfold serveLogin; by rewrite Hl, Ho, Hs|..].
  - rewrite Hans. simpl. f_equal. apply sanitize_idemp.
  - intros now carried Hnow Hsame.
    assert (OpenSession codec carried now = Some session) as Hop.
    { rewrite <-(Hopen now Hnow). by apply shared_secret_shares_sessions. }
    split; [done|]. intros Ht providers r4 sec nonce g.
    exact (f_equal snd (Evaluate_session e codec r4 sec _ _ nonce g session Hc Hop Ht)).
Qed.

(** ** Extensions with a codec always answer *)

Section answers.
Context {sealer : Sealer} {states : StateSealer}.
Context {web : Web} {json : TokenJSON} {sigs : Signatures} {docs : oidc.OidcJSON}.
Context {lib : saml.SamlLib} {dir : ldap.Directory} {forms : Forms}.
Variables (e : Enforcer) (codec : Codec).
Hypothesis Hcodec : eCodec e = Some codec.

Lemma mintSession_total p i now : is_Some (mintSession e p i now).
Proof using Hcodec. unfold mintSession. rewrite Hcodec. by eexists. Qed.

Lemma sessionFromTokens_total cfg now tokens nonce s session s' :
  oidc.sessionFromTokens e cfg now tokens nonce s = (Ok session, s') → is_Some session.
Proof using Hcodec.
  unfold oidc.sessionFromTokens. intros (claims & s1 & _ & H)%act_bind_Ok.
  destruct (_ && _); [done|]. injection H as <- _. apply fmap_is_Some, mintSession_total.
Qed.

Lemma callback_answers env r live : is_Some (serveOIDCCallback e codec env r live).1.
Proof using Hcodec.
  unfold serveOIDCCallback. repeat (case_match; try by eexists).
  apply fmap_is_Some. match goal with H : with_oidc (oidc.sessionFromTokens _ _ _ _ _) _ = _ |- _ =>
    revert H; unfold with_oidc; destruct (oidc.sessionFromTokens _ _ _ _ _ _) as [? [? ?]] eqn:Hs; intros; simplify_eq;
    by eapply sessionFromTokens_total end.
Qed.

Lemma acs_answers env r live : is_Some (serveSAMLACS e codec env r live).1.
Proof using Hcodec. unfold serveSAMLACS. repeat (case_match; try by eexists). apply fmap_is_Some, mintSession_total. Qed.

Lemma ldap_login_answers env r live : is_Some (serveLDAPLogin e codec env r live).1.
Proof using Hcodec. unfold serveLDAPLogin. repeat (case_match; try by eexists). apply fmap_is_Some, mintSession_total. Qed.

Lemma dispatch_answers env r live endpoint : is_Some (dispatch env r e codec live endpoint).1.
Proof using Hcodec.
  unfold dispatch, total.
  repeat (case_match; [first [by eexists|apply callback_answers|apply acs_answers|apply ldap_login_answers]|]).
  by eexists.
Qed.

End answers.

Lemma endpoints_answer {sealer : Sealer} {states : StateSealer}
    {web : Web} {json : TokenJSON} {sigs : Signatures} {docs : oidc.OidcJSON} {lib : saml.SamlLib}
    {dir : ldap.Directory} {forms : Forms} env r candidates :
  (∀ c, c ∈ candidates → is_Some (eCodec c.1)) → is_Some (ServeEndpoint env r candidates).1.
Proof.
  intros Hc. unfold ServeEndpoint, selectEndpoint.
  destruct (pick env r candidates) as [[e live]|] eqn:Hp; simpl; [|by eexists].
  apply pick_elem, Hc in Hp as [codec Hcodec]. simpl in Hcodec. rewrite Hcodec.
  pose proof (dispatch_answers e codec Hcodec env r live (trimPrefix (rqPath r) (compiled.auPathPrefix (eCfg e)))) as Hd.
  by destruct (dispatch _ _ _ _ _ _).
Qed.

(** ** Where a login returns to *)

(** What a browser makes of a reference: tabs and line ends are dropped, and
    two slashes of either kind start an authority (URL standard, 4.4). *)
Fixpoint strip_controls (s : string) : string :=
  match s with
  | EmptyString => ""
  | String c s => if (byte_val c =? 9) || (byte_val c =? 10) || (byte_val c =? 13)
                  then strip_controls s else String c (strip_controls s)
  end.

Definition slash (c : ascii) : bool := (c == "/"%char) || (c == "\"%char).

Definition leaves_origin (reference : string) : bool :=
  match strip_controls reference with
  | String a (String b _) => slash a && slash b
  | _ => false
  end.

Definition browser_safe (s : string) : bool :=
  sforall (λ c, negb ((c == "\"%char) || (byte_val c =? 9) || (byte_val c =? 10) || (byte_val c =? 13))) s.

(** Without backslashes, tabs and line ends a return URL stays on the
    request's own authority. *)
Lemma return_url_stays raw : browser_safe raw = true → leaves_origin (sanitizeReturnURL raw) = false.
Proof.
  assert (∀ s, browser_safe s = true → strip_controls s = s) as Hstrip.
  { induction s as [|c s IH]; [done|]. unfold browser_safe. cbn [sforall strip_controls].
    intros [Hc Hs]%andb_true_iff. rewrite (IH Hs).
    apply negb_true_iff in Hc. rewrite <-!orb_assoc in Hc. apply orb_false_iff in Hc as [_ Hc]. by rewrite orb_assoc in Hc; rewrite Hc. }
  intros Hb. unfold sanitizeReturnURL. destruct (_ || _ || _) eqn:Hx; [done|].
  apply orb_false_iff in Hx as [Hx Hss]. unfold leaves_origin. rewrite Hstrip by done.
  destruct raw as [|a [|b raw]]; [done..|]. unfold browser_safe in Hb. cbn [sforall] in Hb.
  apply andb_true_iff in Hb as [_ Hb]. apply andb_true_iff in Hb as [Hb _].
  apply negb_true_iff in Hb. rewrite <-!orb_assoc in Hb. apply orb_false_iff in Hb as [Hb _].
  apply andb_false_iff. right. unfold slash. rewrite Hb, orb_false_r.
  apply orb_false_iff in Hx as [_ Hp%negb_false_iff]. apply bool_decide_eq_false. intros ->.
  unfold hasPrefix in *. cbn [String.prefix] in Hp, Hss.
  destruct (ascii_dec "/" a) as [<-|]; [|done]. destruct (ascii_dec "/" "/"); [|done]. by destruct raw.
Qed.

(** ** A login from end to end *)

Definition state_tuple (s : State) : list string * Z :=
  ([stExtension s; stReturnURL s; stFormToken s; stOIDCState s; stOIDCNonce s; stOIDCVerifier s; stSAMLRequestID s],
   stExpiresAt s).
Definition tuple_state (t : list string * Z) : option State :=
  match t with
  | ([a; b; c; d; e; f; g], x) => Some (mkState a b c d e f g x)
  | _ => None
  end.

#[refine] Instance ex_state_sealer : StateSealer := {|
  sealState key context _ s := key +:+ context +:+ pos_bits (encode (state_tuple s));
  openState key context value :=
    v ← cutPrefix value key; v ← cutPrefix v context; p ← bits_pos v; decode p ≫= tuple_state;
|}.
Proof.
  intros key context nonce s _. rewrite cutPrefix_app. simpl. rewrite cutPrefix_app. simpl.
  rewrite bits_pos_bits. simpl. rewrite decode_encode. by destruct s.
Defined.

(** The identity provider: one key, and one code worth a token for the
    nonce it was asked with. *)
Instance ex_login_json : TokenJSON := {|
  decodeHeader raw := if raw == "h" then Some ("RS256", "") else None;
  decodeClaims raw := match splitOn "/" raw with
    | [sub; nonce] => Some {["sub" := JString sub; "iss" := JString "https://idp"; "aud" := JString "krouter";
                             "exp" := JNumber "9000"; "nonce" := JString nonce]}
    | _ => None end;
  decodeJWKS doc := Some [mkJWK "RSA" "k1" "" "AQAB" "AQAB" "" "" ""];
  decodeJWKSURI doc := Some "https://idp/jwks";
  numberSeconds := atoi;
|}.

Definition ex_draw (i : nat) : string := String (ascii_of_nat (97 + i)) "----------------------".
Definition ex_id_token : string :=
  let text := base64.encode "h" +:+ "." +:+ base64.encode ("al/" +:+ base64.encode (ex_draw 1)) in
  text +:+ "." +:+ base64.encode text.

Instance ex_login_web : Web := {|
  answer _ c := match c with
    | Get _ => Answered 200 (Some "document")
    | Post "https://idp/token" form =>
        if (valueOf form "code" == "c0de") && (valueOf form "code_verifier" == base64.encode (ex_draw 2))
        then Answered 200 (Some ex_id_token) else Answered 400 None
    | Post _ _ => Unreachable
    end;
|}.

Instance ex_login_docs : oidc.OidcJSON := {|
  oidc.decodeDiscovery _ := Some (oidc.mkDiscovery "https://idp/auth" "https://idp/token" "https://idp/jwks" "");
  oidc.decodeTokens body := Some (oidc.mkTokens "" body "" 0);
|}.

Instance ex_saml_lib : saml.SamlLib := {|
  saml.Metadata := unit;
  saml.keyPair _ _ := true;
  saml.parseMetadata _ := Some tt;
  saml.fetchMetadata _ _ := None;
  saml.ssoLocation _ := "";
  saml.sloLocation _ := "";
  saml.authnRequest _ _ _ := None;
  saml.parseResponse _ _ _ _ := None;
  saml.metadataDocument _ := None;
  saml.logoutRequest _ _ _ _ := None;
  saml.logoutResponse _ _ _ := None;
  saml.encodeDeflated _ := None;
  saml.signString _ _ := None;
  saml.splitQuery _ := None;
  saml.decodeStd _ := None;
  saml.inflate _ := None;
  saml.logoutRequestID _ := None;
|}.

#[local] Existing Instance ldap.ex_directory.
Instance ex_forms : Forms := {| mediaType ct := Some ct |}.
Instance ex_pages : Pages := {| pageHTML _ := "<html>"; urlParses _ := true |}.

Definition ex_oidc_cfg : compiled.AuthOIDC := compiled.mkAuthOIDC "https://idp" "krouter" "" [] "".
Definition ex_extension (identity : string) : Enforcer :=
  mkEnforcer (compiled.mkAuth identity "/_auth" (Some (compiled.mkAuthSession "s" 3600000)) (Some ex_oidc_cfg) None None None [])
    (Some (mkCodec "k" identity 3600000000000)).
Definition ex_e : Enforcer := ex_extension "A".
Definition ex_codec_of (identity : string) : Codec := mkCodec "k" identity 3600000000000.
Definition ex_live : Live := mkLive _ (oidc.NewOIDCProvider ex_oidc_cfg) (saml.mkProvider None) [] 0%nat.
Definition ex_env (seconds : Z) : Env := mkEnv (seconds * 1000000000) ex_draw 0%nat.

(** A browser sends its cookies with a request. *)
Definition ex_browse (path query : string) (jar : Jar) : Request :=
  mkRequest "GET" path query "app.example.com"
    {["Cookie" := [joinWith "; " ((λ kv, kv.1 +:+ "=" +:+ kv.2) <$> map_to_list jar)]]} "192.0.2.1:999" (Some "app.example.com") None 0.

Definition ex_r1 : Request := ex_browse "/_auth/login" "ext=A&rd=%2Fapp" ∅.
Definition ex_jar2 : Jar := fold_left store_cookie (rpCookies (serveLogin ex_e (ex_codec_of "A") (ex_env 1000) ex_r1)) ∅.
Definition ex_r2 : Request := ex_browse "/_auth/oidc/start" "" ex_jar2.
Definition ex_jar3 : Jar :=
  fold_left store_cookie (rpCookies (serveOIDCStart ex_e (ex_codec_of "A") (ex_env 1010) ex_r2 ex_live).1) ex_jar2.
Definition ex_callback (jar : Jar) : Request :=
  ex_browse "/_auth/oidc/callback" ("code=c0de&state=" +:+ base64.encode (ex_draw 0)) jar.
Definition ex_r3 : Request := ex_callback ex_jar3.
Definition ex_live2 : Live := (with_oidc (oidc.discover ex_oidc_cfg 1010000000000) ex_live).2.
Definition ex_redeemed : result AuthError oidc.oidcTokens * Live :=
  with_oidc (oidc.exchange ex_oidc_cfg 1020000000000
    (oidc.code_form (oidcRedirectURI ex_e ex_r3) (queryGet ex_r3 "code") (randomToken (ex_env 1010) 2))) ex_live2.
Definition ex_tokens : oidc.oidcTokens := oidc.mkTokens "" ex_id_token "" 0.
Definition ex_validated : result AuthError (gmap string (list string)) * Live :=
  with_oidc (oidc.validate ex_oidc_cfg 1020000000000 ex_id_token) ex_redeemed.2.
Definition ex_claims : gmap string (list string) :=
  match ex_validated.1 with Ok claims => claims | Err _ => ∅ end.
Definition ex_minted : Session :=
  default (mkSession "" "" "" [] ∅ 0 0 0 "" "" "") (oidc.session_of ex_e 1020000000000 ex_tokens ex_claims).
Definition ex_sealed : list SetCookie :=
  match SealSession (ex_codec_of "A") true (jar_of ex_r3) 0 ex_minted with Ok cookies => cookies | Err _ => [] end.

Example minted_for_al : sUser ex_minted = "al" ∧ sExpiresAt ex_minted = 4620.
Proof. vm_compute. done. Qed.

Lemma oidc_login_completes_witness :
  ∃ reply1 reply2 reply3,
    ServeEndpoint (ex_env 1000) ex_r1 [(ex_e, ex_live)] = (Some reply1, Some ex_live) ∧
    rpAnswer reply1 = Found "/_auth/oidc/start" ∧
    ServeEndpoint (ex_env 1010) ex_r2 [(ex_e, ex_live)] = (Some reply2, Some ex_live2) ∧
    rpAnswer reply2 = Found ("https://idp/auth?" +:+ httputil.encode_values
      (authorization_query ex_e ex_oidc_cfg ex_r2 (oidc_state (ex_env 1010) (login_state ex_e (ex_env 1000) ex_r1)))) ∧
    ServeEndpoint (ex_env 1020) ex_r3 [(ex_e, ex_live2)] = (Some reply3, Some ex_validated.2) ∧
    rpAnswer reply3 = Found (sanitizeReturnURL (queryGet ex_r1 "rd")) ∧
    let jar := fold_left store_cookie (rpCookies reply3) (jar_of ex_r3) in
    (∀ now, OpenState (ex_codec_of "A") jar now = None) ∧
    ∀ now (carried : Jar),
      unix now < unix (1020000000000 + cLifetime (ex_codec_of "A")) →
      (∀ i, carried !! chunkName (ex_codec_of "A") i = jar !! chunkName (ex_codec_of "A") i) →
      OpenSession (ex_codec_of "A") carried now = Some ex_minted ∧
      (sTokenExpiresAt ex_minted = 0 ∨ unix now < sTokenExpiresAt ex_minted →
       ∀ (providers : Providers) r4 sec nonce g, (Evaluate ex_e r4 sec carried now nonce g).2 =
         Decided (authorize ex_e ex_minted (sProvider ex_minted)) []).
Proof.
  apply (oidc_login_completes ex_e ex_oidc_cfg (ex_codec_of "A") (ex_env 1000) (ex_env 1010) (ex_env 1020)
    ex_r1 ex_r2 ex_r3 ex_live ex_live2 ex_redeemed.2 ex_validated.2
    (oidc.mkDiscovery "https://idp/auth" "https://idp/token" "https://idp/jwks" "") ex_tokens ex_claims ex_minted ex_sealed).
  - reflexivity.
  - vm_compute. discriminate.
  - reflexivity.
  - reflexivity.
  - reflexivity.
  - split_and!; [reflexivity|reflexivity|right; vm_compute; reflexivity].
  - vm_compute. reflexivity.
  - split_and!; [reflexivity|reflexivity|left; vm_compute; reflexivity].
  - vm_compute. reflexivity.
  - vm_compute. reflexivity.
  - vm_compute. reflexivity.
  - intros i. simpl. unfold ex_draw. discriminate.
  - vm_compute. reflexivity.
  - split_and!; [reflexivity|reflexivity|left; vm_compute; reflexivity].
  - vm_compute. reflexivity.
  - vm_compute. reflexivity.
  - vm_compute. reflexivity.
  - vm_compute. discriminate.
  - vm_compute. reflexivity.
  - vm_compute. reflexivity.
  - vm_compute. reflexivity.
  - vm_compute. reflexivity.
  - vm_compute. reflexivity.
  - vm_compute. reflexivity.
Defined.

Definition ex_reply (r : Request) (candidates : list (Enforcer * Live)) : Reply :=
  default (mkReply [] NotFound) (ServeEndpoint (ex_env 1020) r candidates).1.

Lemma endpoint_session_example :
  ∃ e live codec state session, (e, live) ∈ [(ex_e, ex_live2)] ∧ eCodec e = Some codec ∧
    OpenState codec (jar_of ex_r3) 1020000000000 = Some state ∧ stExtension state = compiled.auIdentity (eCfg e) ∧
    logged_in e (ex_env 1020) ex_r3 live state session ∧
    ex_reply ex_r3 [(ex_e, ex_live2)] = conclude codec (ex_env 1020) ex_r3 state session.
Proof.
  apply (ServeEndpoint_session (ex_env 1020) ex_r3 [(ex_e, ex_live2)] (ex_reply ex_r3 [(ex_e, ex_live2)])
    (ServeEndpoint (ex_env 1020) ex_r3 [(ex_e, ex_live2)]).2).
  - vm_compute. reflexivity.
  - exists (default (expiredCookie true "") (rpCookies (ex_reply ex_r3 [(ex_e, ex_live2)]) !! 1%nat)).
    split; [apply (list_elem_of_lookup_2 _ 1%nat); vm_compute; reflexivity|].
    split; [vm_compute; reflexivity|vm_compute; discriminate].
Defined.

(** Two extensions under one prefix: the session of the first shadows the
    login in flight of the second, whose callback is refused. *)
Definition ex_session_cookies : Jar := fold_left store_cookie ex_sealed ∅.

Example session_shadows_login :
  let candidates := [(ex_extension "B", ex_live2); (ex_e, ex_live2)] in
  let jarB : Jar := match SealSession (ex_codec_of "B") true ∅ 0 ex_minted with
                | Ok cookies => fold_left store_cookie cookies ∅ | Err _ => ∅ end in
  rpAnswer (ex_reply (ex_callback ex_jar3) candidates) = Found "/app" ∧
  rpAnswer (ex_reply (ex_callback (ex_jar3 ∪ jarB)) candidates) = Failed "invalid login state" 400.
Proof. vm_compute. done. Qed.

(** A return URL that starts with a slash and a backslash passes the check,
    and a browser follows it to another authority. *)
Example backslash_leaves_origin :
  let login := serveLogin ex_e (ex_codec_of "A") (ex_env 1000)
                 (ex_browse "/_auth/login" "ext=A&rd=%2F%5Cevil.example" ∅) in
  let jar : Jar := fold_left store_cookie (rpCookies login) ∅ in
  stReturnURL <$> OpenState (ex_codec_of "A") jar 1000000000000 = Some "/\evil.example" ∧
  location (sanitizeReturnURL "/\evil.example") = "/\evil.example" ∧
  leaves_origin (location "/\evil.example") = true.
Proof. vm_compute. done. Qed.

End login.
