(* ===== verification/Sealing.v ===== *)
(** * Sealed cookies

    Models [seal] and [open] of [internal/extensions/auth/session.go]: JSON,
    authenticated encryption under the key derived from the session secret,
    and base64.  They implement the interfaces [auth.Sealer] and
    [login.StateSealer] the rest of the development is proved against.

    The cipher is a class.  AES-GCM is deterministic once its nonce is
    chosen, so a box that opens is the one sealing produces. *)

From S2P Require Import Prelude GoStrings Http Compiled Tables Auth Base64 Jwt Ldap Oidc Saml Login.
From stdpp Require Import options.

#[local] Open Scope nat_scope.

Module sealing.

(** [cipher.AEAD]: key, nonce, text or box, additional data. *)
Class AEAD := {
  NonceSize : nat;
  Seal : string → string → string → string → string;
  Open : string → string → string → string → option string;
  nonce_positive : 0 < NonceSize;
  open_box key nonce box context plain :
    len nonce = NonceSize → Open key nonce box context = Some plain ↔ box = Seal key nonce plain context;
}.

(** [encoding/json] at a type, for values that survive it; a value that
    decodes need not be one that was encoded. *)
Class Payload (A : Type) := {
  marshal : A → string;
  unmarshal : string → option A;
  marshals : A → bool;
  unmarshal_marshal a : marshals a = true → unmarshal (marshal a) = Some a;
}.

(** [crypto/rand], which does not fail and fills a nonce. *)
Class Nonces `{AEAD} := {
  randomNonce : nat → string;
  nonce_len n : len (randomNonce n) = NonceSize;
}.

Section codec.
Context {aead : AEAD} {nonces : Nonces} {A : Type} {payload : Payload A}.

Definition seal (key context : string) (nonce : nat) (value : A) : string :=
  let nonce := randomNonce nonce in
  base64.encode (nonce +:+ Seal key nonce (marshal value) context).

Definition open (key context value : string) : option A :=
  sealed ← base64.decode value;
  if len sealed <? NonceSize then None
  else
    let nonce := stake NonceSize sealed in
    let box := sdrop NonceSize sealed in
    plain ← Open key nonce box context;
    unmarshal plain.

(** What opens under a key and a context was sealed under both: the cookie
    decodes to a nonce and the box of the very text the value is read from. *)
Lemma opened_was_sealed key context value a :
  open key context value = Some a →
  ∃ nonce plain, base64.decode value = Some (nonce +:+ Seal key nonce plain context) ∧
    len nonce = NonceSize ∧ unmarshal plain = Some a.
Proof.
  unfold open. intros (sealed & Hd & H)%bind_Some. destruct (Nat.ltb_spec (len sealed) NonceSize) as [|Hl]; [done|].
  apply bind_Some in H as (plain & Ho & Hu).
  assert (len (stake NonceSize sealed) = NonceSize) as Hn by (rewrite len_stake; lia).
  apply (open_box _ _ _ _ _ Hn) in Ho. exists (stake NonceSize sealed), plain. by rewrite <-Ho, stake_sdrop.
Qed.

Lemma open_sealed key context nonce a :
  marshals a = true → open key context (seal key context nonce a) = Some a.
Proof.
  intros Ha. unfold open, seal. rewrite base64.decode_encode. simpl.
  pose proof (nonce_len nonce) as Hn. rewrite len_app.
  destruct (Nat.ltb_spec (len (randomNonce nonce) + len (Seal key (randomNonce nonce) (marshal a) context)) NonceSize); [lia|].
  rewrite <-Hn, stake_app, sdrop_app. rewrite (proj2 (open_box _ _ _ _ _ Hn) eq_refl). simpl.
  by apply unmarshal_marshal.
Qed.

Lemma seal_nonempty key context nonce a : seal key context nonce a ≠ "".
Proof.
  apply base64.encode_nonempty. intros H. apply (f_equal len) in H. rewrite len_app, nonce_len in H.
  pose proof nonce_positive. simpl in H. lia.
Qed.

End codec.

(** ** The cookies of an extension *)

Section cookies.
Context {aead : AEAD} {nonces : Nonces}.
Context {sessions : Payload auth.Session} {states : Payload login.State}.
Context (sessions_marshal : ∀ s, auth.json_safe s = true → marshals s = true).
Context (states_marshal : ∀ s, login.state_safe s = true → marshals s = true).

Definition session_sealer : auth.Sealer := {|
  auth.sealValue := seal;
  auth.openValue := open;
  auth.open_seal key context nonce s Hs := open_sealed key context nonce s (sessions_marshal s Hs);
  auth.seal_nonempty := seal_nonempty;
|}.

Definition state_sealer : login.StateSealer := {|
  login.sealState := seal;
  login.openState := open;
  login.open_seal_state key context nonce s Hs := open_sealed key context nonce s (states_marshal s Hs);
|}.

(** A session that opens is read from a text sealed under the key of its
    extension's secret for sessions, and a login state from one sealed for
    states. *)
Theorem sessions_are_sealed codec jar now s :
  auth.OpenSession (sealer := session_sealer) codec jar now = Some s →
  ∃ nonce plain, base64.decode (foldr String.append "" (auth.read_chunks codec jar 0 auth.maxCookieChunks)) =
      Some (nonce +:+ Seal (auth.cKey codec) nonce plain "session") ∧
    unmarshal plain = Some s ∧ (auth.unix now < auth.sExpiresAt s)%Z.
Proof.
  unfold auth.OpenSession. destruct (length _ =? 0); [done|]. intros (s' & Ho & H)%bind_Some.
  destruct (Z.leb_spec (auth.sExpiresAt s') (auth.unix now)); [done|]. injection H as ->.
  apply opened_was_sealed in Ho as (nonce & plain & ? & _ & ?). by exists nonce, plain.
Qed.

Theorem states_are_sealed codec jar now s :
  login.OpenState (states := state_sealer) codec jar now = Some s →
  ∃ value nonce plain, jar !! login.StateCookie codec = Some value ∧
    base64.decode value = Some (nonce +:+ Seal (auth.cKey codec) nonce plain "state") ∧
    unmarshal plain = Some s ∧ (auth.unix now < login.stExpiresAt s)%Z.
Proof.
  unfold login.OpenState. intros (value & Hv & (s' & Ho & H)%bind_Some)%bind_Some.
  destruct (Z.leb_spec (login.stExpiresAt s') (auth.unix now)); [done|]. injection H as ->.
  apply opened_was_sealed in Ho as (nonce & plain & ? & _ & ?). by exists value, nonce, plain.
Qed.

End cookies.

(** ** A concrete codec *)

(** A cipher that names its key, nonce and context in front of the text. *)
#[refine] Instance ex_aead : AEAD := {|
  NonceSize := 2;
  Seal key nonce plain context := key +:+ nonce +:+ context +:+ plain;
  Open key nonce box context := v ← cutPrefix box key; v ← cutPrefix v nonce; cutPrefix v context;
|}.
Proof.
  - lia.
  - assert (∀ s p t, cutPrefix s p = Some t ↔ s = p +:+ t) as Hcut.
    { intros s p t. split; [|intros ->; apply cutPrefix_app]. unfold cutPrefix.
      destruct (hasPrefix s p) eqn:E; [|done]. apply hasPrefix_spec in E as [u ->]. rewrite sdrop_app. by intros [= ->]. }
    intros key nonce box context plain _. split.
    + intros (v & ->%Hcut & (v' & ->%Hcut & ->%Hcut)%bind_Some)%bind_Some. done.
    + intros ->. rewrite cutPrefix_app. simpl. rewrite cutPrefix_app. simpl. apply cutPrefix_app.
Defined.

#[refine] Instance ex_nonces : Nonces := {| randomNonce n := if Nat.even n then "ab" else "cd" |}.
Proof. intros n. by destruct (Nat.even n). Defined.

#[refine] Instance ex_sessions : Payload auth.Session := {|
  marshal s := pos_bits (countable.encode (auth.session_tuple s));
  unmarshal v := p ← bits_pos v; auth.tuple_session <$> countable.decode p;
  marshals _ := true;
|}.
Proof. intros s _. rewrite bits_pos_bits. simpl. rewrite countable.decode_encode. by destruct s. Defined.

#[refine] Instance ex_states : Payload login.State := {|
  marshal s := pos_bits (countable.encode (login.state_tuple s));
  unmarshal v := p ← bits_pos v; countable.decode p ≫= login.tuple_state;
  marshals _ := true;
|}.
Proof. intros s _. rewrite bits_pos_bits. simpl. rewrite countable.decode_encode. by destruct s. Defined.

(** A cookie opens under its own key and context only, and not truncated. *)
Example opened :
  let value := seal "key" "session" 0 auth.ex_session in
  (λ v : option auth.Session, auth.sUser <$> v) <$>
    [open "key" "session" value; open "key" "state" value; open "other" "session" value;
     open "key" "session" (stake 3 value); open "key" "session" "!"] =
  [Some (auth.sUser auth.ex_session); None; None; None; None].
Proof. vm_compute. reflexivity. Qed.

End sealing.
