(* ===== verification/Datagrams.v ===== *)
(** * The datagram path

    Models [internal/lib/transports/udp/forwarder.go].  The receive loop of
    one listener and the relay goroutine of each flow run concurrently over
    the flow table; every access they make to shared state or to a socket is
    one step here, so that a schedule is a list of timed steps and the
    theorems hold for every interleaving.  What the network does (datagrams
    arriving, dials and writes failing, responses) and what the published
    routing state becomes are the inputs of the steps.

    The backend of a new flow comes from a [Picker], the interface the
    routing state implements with [PickUDP]. *)

From S2P Require Import Prelude GoStrings Http NetIP Compiled Tables Matching Balancing.
From stdpp Require Import options.

#[local] Open Scope Z_scope.
Import routing matching balancing.

Module udp.

(** [net.UDPAddr] and its text, the key of the flow table. *)
Record UDPAddr := mkUDPAddr { uaIP : Addr; uaPort : Z }.
Definition addrText (a : UDPAddr) : string :=
  match uaIP a with
  | V4 _ => addrString (uaIP a) +:+ ":" +:+ pretty (uaPort a)
  | V6 _ _ => "[" +:+ addrString (uaIP a) +:+ "]:" +:+ pretty (uaPort a)
  end.

(** 60 seconds and 64 KiB. *)
Definition idleTimeout : Z := 60 * 1000000000.
Definition maxDatagram : Z := 64 * 1024.

Definition clip (payload : string) : string :=
  if Z.of_nat (len payload) <=? maxDatagram then payload else stake (Z.to_nat maxDatagram) payload.
#[global] Opaque clip.

Class Picker (P : Type) := pickUDP : Z → P → result PickError L4Selection * P.

(** The goroutine of a flow: not spawned yet, blocked reading the backend,
    holding a response, about to account for one, returned, and gone after
    it removed the flow. *)
Inductive Relay :=
  | Unstarted | Relaying | Answering (payload : string) | Rearming (n : Z) | Closed | Retired.

Record flow := mkFlow {
  flClient : UDPAddr;
  flSelection : L4Selection;
  flStarted : Z;
  flOpen : bool;
  flDeadline : Z;
  flReceived : Z;
  flSent : Z;
  flRelay : Relay;
}.

Definition set_relay (r : Relay) (f : flow) : flow :=
  mkFlow (flClient f) (flSelection f) (flStarted f) (flOpen f) (flDeadline f) (flReceived f) (flSent f) r.
Definition close_upstream (f : flow) : flow :=
  mkFlow (flClient f) (flSelection f) (flStarted f) false (flDeadline f) (flReceived f) (flSent f) (flRelay f).
(** [SetReadDeadline]: an error, without effect, on a closed socket. *)
Definition set_deadline (now : Z) (f : flow) : flow :=
  mkFlow (flClient f) (flSelection f) (flStarted f) (flOpen f)
    (if flOpen f then now + idleTimeout else flDeadline f) (flReceived f) (flSent f) (flRelay f).
Definition add_received (n : Z) (f : flow) : flow :=
  mkFlow (flClient f) (flSelection f) (flStarted f) (flOpen f) (flDeadline f)
    (int64_wrap (flReceived f + n)) (flSent f) (flRelay f).
Definition add_sent (n : Z) (f : flow) : flow :=
  mkFlow (flClient f) (flSelection f) (flStarted f) (flOpen f) (flDeadline f)
    (flReceived f) (int64_wrap (flSent f + n)) (flRelay f).

(** Where the receive loop is. *)
Inductive Loop :=
  | Receiving
  | Looking (client : UDPAddr) (payload : string)
  | Picking (client : UDPAddr) (payload : string)
  | Dialing (client : UDPAddr) (payload : string) (sel : L4Selection)
  | Registering (client : UDPAddr) (payload : string) (id : nat)
  | Writing (client : UDPAddr) (payload : string) (id : nat)
  | Arming (id : nat) (n : Z)
  | Stopped
  | Crashed.

(** What happened, the latest first. *)
Inductive Entry :=
  | Received (client : UDPAddr) (payload : string)
  | Refused (client : UDPAddr)
  | Opened (id : nat) (client : UDPAddr) (sel : L4Selection)
  | Forwarded (id : nat) (client : UDPAddr) (payload : string)
  | Responded (id : nat) (payload : string)
  | Answered (id : nat) (client : UDPAddr) (payload : string)
  | Expired (id : nat) (received sent : Z).

Section forwarder.
Context {P : Type} {picker : Picker P} (port : Z).

(** One listener: the flow table [flows], the flow objects by address, the
    state the picker reads, and the history. *)
Record Serving := mkServing {
  svLoop : Loop;
  svTable : gmap string nat;
  svHeap : list flow;
  svPicker : P;
  svLog : list Entry;
}.

Definition goto (l : Loop) (s : Serving) : Serving :=
  mkServing l (svTable s) (svHeap s) (svPicker s) (svLog s).
Definition on_table (f : gmap string nat → gmap string nat) (s : Serving) : Serving :=
  mkServing (svLoop s) (f (svTable s)) (svHeap s) (svPicker s) (svLog s).
Definition on_heap (f : list flow → list flow) (s : Serving) : Serving :=
  mkServing (svLoop s) (svTable s) (f (svHeap s)) (svPicker s) (svLog s).
Definition with_picker (p : P) (s : Serving) : Serving :=
  mkServing (svLoop s) (svTable s) (svHeap s) p (svLog s).
Definition note (e : Entry) (s : Serving) : Serving :=
  mkServing (svLoop s) (svTable s) (svHeap s) (svPicker s) (e :: svLog s).

Definition serving (p : P) : Serving := mkServing Receiving ∅ [] p [].

(** *** The receive loop, [Serve] and [openFlow] *)

(** The deferred function: every upstream of the table is closed. *)
Definition close_all (s : Serving) : Serving :=
  on_heap (imap (λ id f, if decide (id ∈ (map_to_list (svTable s)).*2) then close_upstream f else f)) s.

(** [ReadFromUDP]: a datagram, or the listener was closed. *)
Definition receive (arrived : option (UDPAddr * string)) (s : Serving) : option Serving :=
  match svLoop s, arrived with
  | Receiving, Some (client, payload) =>
      Some (note (Received client (clip payload)) (goto (Looking client (clip payload)) s))
  | Receiving, None => Some (goto Stopped (close_all s))
  | _, _ => None
  end.

Definition lookup_flow (s : Serving) : option Serving :=
  match svLoop s with
  | Looking client payload =>
      Some (goto (match svTable s !! addrText client with
                  | Some id => Writing client payload id
                  | None => Picking client payload
                  end) s)
  | _ => None
  end.

Definition pick_backend (s : Serving) : option Serving :=
  match svLoop s with
  | Picking client payload =>
      let '(picked, p) := pickUDP port (svPicker s) in
      Some (match picked with
            | Ok sel => goto (Dialing client payload sel) (with_picker p s)
            | Err NoEndpoint => note (Refused client) (goto Receiving (with_picker p s))
            | Err IndexPanic => goto Crashed (with_picker p s)
            end)
  | _ => None
  end.

Definition dial (now : Z) (connected : bool) (s : Serving) : option Serving :=
  match svLoop s with
  | Dialing client payload sel =>
      Some (if connected then
              let fl := mkFlow client sel now true (now + idleTimeout) 0 0 Unstarted in
              note (Opened (length (svHeap s)) client sel)
                (goto (Registering client payload (length (svHeap s))) (on_heap (.++ [fl]) s))
            else note (Refused client) (goto Receiving s))
  | _ => None
  end.

Definition register (s : Serving) : option Serving :=
  match svLoop s with
  | Registering client payload id =>
      Some (goto (Writing client payload id)
              (on_table <[addrText client := id]> (on_heap (alter (set_relay Relaying) id) s)))
  | _ => None
  end.

Definition write (wrote : bool) (s : Serving) : option Serving :=
  match svLoop s with
  | Writing client payload id =>
      fl ← svHeap s !! id;
      Some (if flOpen fl && wrote
            then note (Forwarded id (flClient fl) payload) (goto (Arming id (Z.of_nat (len payload))) s)
            else goto Receiving s)
  | _ => None
  end.

Definition arm (now : Z) (s : Serving) : option Serving :=
  match svLoop s with
  | Arming id n => Some (goto Receiving (on_heap (alter (set_deadline now ∘ add_received n) id) s))
  | _ => None
  end.

(** *** The relay of one flow, [relayResponses] and the goroutine around it *)

Definition respond (id : nat) (payload : string) (s : Serving) : option Serving :=
  fl ← svHeap s !! id;
  match flRelay fl with
  | Relaying =>
      if flOpen fl then
        Some (note (Responded id (clip payload)) (on_heap (alter (set_relay (Answering (clip payload))) id) s))
      else None
  | _ => None
  end.

(** The loop's return: the upstream is closed by the deferred call. *)
Definition return_relay (id : nat) : Serving → Serving :=
  on_heap (alter (set_relay Closed ∘ close_upstream) id).

(** A read fails at the deadline, on a closed socket, or ([failed]) for
    another reason the network reports. *)
Definition read_error (now : Z) (failed : bool) (id : nat) (s : Serving) : option Serving :=
  fl ← svHeap s !! id;
  match flRelay fl with
  | Relaying =>
      if failed || negb (flOpen fl) || (flDeadline fl <=? now) then Some (return_relay id s) else None
  | _ => None
  end.

Definition closed_listener (s : Serving) : bool := match svLoop s with Stopped => true | _ => false end.

(** [WriteToUDP]: fails once the listener is closed. *)
Definition answer (wrote : bool) (id : nat) (s : Serving) : option Serving :=
  fl ← svHeap s !! id;
  match flRelay fl with
  | Answering payload =>
      Some (if wrote && negb (closed_listener s)
            then note (Answered id (flClient fl) payload)
                   (on_heap (alter (set_relay (Rearming (Z.of_nat (len payload)))) id) s)
            else return_relay id s)
  | _ => None
  end.

Definition rearm (now : Z) (id : nat) (s : Serving) : option Serving :=
  fl ← svHeap s !! id;
  match flRelay fl with
  | Rearming n => Some (on_heap (alter (set_relay Relaying ∘ set_deadline now ∘ add_sent n) id) s)
  | _ => None
  end.

Definition retire (id : nat) (s : Serving) : option Serving :=
  fl ← svHeap s !! id;
  match flRelay fl with
  | Closed =>
      Some (note (Expired id (flReceived fl) (flSent fl))
              (on_table (delete (addrText (flClient fl))) (on_heap (alter (set_relay Retired) id) s)))
  | _ => None
  end.

(** *** Schedules *)

Inductive Step :=
  | Receive (arrived : option (UDPAddr * string))
  | Lookup
  | PickBackend
  | Dial (connected : bool)
  | Register
  | Write (wrote : bool)
  | Arm
  | Respond (id : nat) (payload : string)
  | ReadError (failed : bool) (id : nat)
  | Answer (wrote : bool) (id : nat)
  | Rearm (id : nat)
  | Retire (id : nat)
  | Publish (p : P).

Definition step (now : Z) (ev : Step) (s : Serving) : option Serving :=
  match svLoop s, ev with
  | Crashed, _ => None
  | _, Receive arrived => receive arrived s
  | _, Lookup => lookup_flow s
  | _, PickBackend => pick_backend s
  | _, Dial connected => dial now connected s
  | _, Register => register s
  | _, Write wrote => write wrote s
  | _, Arm => arm now s
  | _, Respond id payload => respond id payload s
  | _, ReadError failed id => read_error now failed id s
  | _, Answer wrote id => answer wrote id s
  | _, Rearm id => rearm now id s
  | _, Retire id => retire id s
  | _, Publish p => Some (with_picker p s)
  end.

Fixpoint run (schedule : list (Z * Step)) (s : Serving) : option Serving :=
  match schedule with
  | [] => Some s
  | (now, ev) :: rest => step now ev s ≫= run rest
  end.

(** *** The same steps as rules *)

Inductive moves (now : Z) (s : Serving) : Step → Serving → Prop :=
  | m_received client payload :
      svLoop s = Receiving →
      moves now s (Receive (Some (client, payload)))
        (note (Received client (clip payload)) (goto (Looking client (clip payload)) s))
  | m_stopped :
      svLoop s = Receiving → moves now s (Receive None) (goto Stopped (close_all s))
  | m_found client payload id :
      svLoop s = Looking client payload → svTable s !! addrText client = Some id →
      moves now s Lookup (goto (Writing client payload id) s)
  | m_unknown client payload :
      svLoop s = Looking client payload → svTable s !! addrText client = None →
      moves now s Lookup (goto (Picking client payload) s)
  | m_picked client payload sel p :
      svLoop s = Picking client payload → pickUDP port (svPicker s) = (Ok sel, p) →
      moves now s PickBackend (goto (Dialing client payload sel) (with_picker p s))
  | m_refused client payload p :
      svLoop s = Picking client payload → pickUDP port (svPicker s) = (Err NoEndpoint, p) →
      moves now s PickBackend (note (Refused client) (goto Receiving (with_picker p s)))
  | m_crashed client payload p :
      svLoop s = Picking client payload → pickUDP port (svPicker s) = (Err IndexPanic, p) →
      moves now s PickBackend (goto Crashed (with_picker p s))
  | m_opened client payload sel fl :
      svLoop s = Dialing client payload sel →
      fl = mkFlow client sel now true (now + idleTimeout) 0 0 Unstarted →
      moves now s (Dial true)
        (note (Opened (length (svHeap s)) client sel)
           (goto (Registering client payload (length (svHeap s))) (on_heap (.++ [fl]) s)))
  | m_unreachable client payload sel :
      svLoop s = Dialing client payload sel →
      moves now s (Dial false) (note (Refused client) (goto Receiving s))
  | m_registered client payload id :
      svLoop s = Registering client payload id →
      moves now s Register
        (goto (Writing client payload id)
           (on_table <[addrText client := id]> (on_heap (alter (set_relay Relaying) id) s)))
  | m_forwarded client payload id fl :
      svLoop s = Writing client payload id → svHeap s !! id = Some fl → flOpen fl = true →
      moves now s (Write true)
        (note (Forwarded id (flClient fl) payload) (goto (Arming id (Z.of_nat (len payload))) s))
  | m_dropped client payload id fl wrote :
      svLoop s = Writing client payload id → svHeap s !! id = Some fl → flOpen fl && wrote = false →
      moves now s (Write wrote) (goto Receiving s)
  | m_armed id n :
      svLoop s = Arming id n →
      moves now s Arm (goto Receiving (on_heap (alter (set_deadline now ∘ add_received n) id) s))
  | m_responded id payload fl :
      svLoop s ≠ Crashed → svHeap s !! id = Some fl → flRelay fl = Relaying → flOpen fl = true →
      moves now s (Respond id payload)
        (note (Responded id (clip payload)) (on_heap (alter (set_relay (Answering (clip payload))) id) s))
  | m_read_failed id fl failed :
      svLoop s ≠ Crashed → svHeap s !! id = Some fl → flRelay fl = Relaying →
      failed || negb (flOpen fl) || (flDeadline fl <=? now) = true →
      moves now s (ReadError failed id) (return_relay id s)
  | m_answered id fl payload :
      svLoop s ≠ Crashed → svHeap s !! id = Some fl → flRelay fl = Answering payload →
      closed_listener s = false →
      moves now s (Answer true id)
        (note (Answered id (flClient fl) payload)
           (on_heap (alter (set_relay (Rearming (Z.of_nat (len payload)))) id) s))
  | m_unanswered id fl payload wrote :
      svLoop s ≠ Crashed → svHeap s !! id = Some fl → flRelay fl = Answering payload →
      wrote && negb (closed_listener s) = false →
      moves now s (Answer wrote id) (return_relay id s)
  | m_rearmed id fl n :
      svLoop s ≠ Crashed → svHeap s !! id = Some fl → flRelay fl = Rearming n →
      moves now s (Rearm id) (on_heap (alter (set_relay Relaying ∘ set_deadline now ∘ add_sent n) id) s)
  | m_retired id fl :
      svLoop s ≠ Crashed → svHeap s !! id = Some fl → flRelay fl = Closed →
      moves now s (Retire id)
        (note (Expired id (flReceived fl) (flSent fl))
           (on_table (delete (addrText (flClient fl))) (on_heap (alter (set_relay Retired) id) s)))
  | m_published p : svLoop s ≠ Crashed → moves now s (Publish p) (with_picker p s).

(** The function and the rules describe the same steps. *)
Lemma step_loop now ev s s' :
  svLoop s ≠ Crashed →
  step now ev s = Some s' ↔
  match ev with
  | Receive arrived => receive arrived s | Lookup => lookup_flow s | PickBackend => pick_backend s
  | Dial connected => dial now connected s | Register => register s | Write wrote => write wrote s
  | Arm => arm now s | Respond id payload => respond id payload s
  | ReadError failed id => read_error now failed id s | Answer wrote id => answer wrote id s
  | Rearm id => rearm now id s | Retire id => retire id s | Publish p => Some (with_picker p s)
  end = Some s'.
Proof. intros Hc. unfold step. destruct (svLoop s); by destruct ev. Qed.

Lemma step_moves now ev s s' : step now ev s = Some s' → moves now s ev s'.
Proof.
  intros Hstep. assert (svLoop s ≠ Crashed) as Hc by (intros Hx; unfold step in Hstep; by rewrite Hx in Hstep).
  apply (step_loop now ev s s' Hc) in Hstep.
  destruct ev as [[[client payload]|]| | |[]| |wrote| |id payload|failed id|wrote id|id|id|p];
    unfold receive, lookup_flow, pick_backend, dial, register, write, arm, respond, read_error, answer, rearm,
      retire, mbind, option_bind in Hstep;
    repeat (case_match; try done); simplify_eq/=;
    repeat match goal with H : _ && _ = true |- _ => apply andb_true_iff in H as [? ?]; simplify_eq/= end;
    try (by econstructor; eauto using negb_true_iff).
  by econstructor; eauto; apply negb_true_iff.
Qed.

Lemma moves_step now ev s s' : moves now s ev s' → step now ev s = Some s'.
Proof.
  intros Hm. assert (svLoop s ≠ Crashed) as Hc by (by destruct Hm; congruence).
  apply (step_loop now ev s s' Hc).
  destruct Hm; unfold receive, lookup_flow, pick_backend, dial, register, write, arm, respond, read_error, answer,
    rearm, retire; subst;
    repeat (match goal with H : ?x = _ |- context [?x] => rewrite H end; simpl); done.
Qed.

(** ** Invariant *)

Definition running (r : Relay) : Prop := r ≠ Unstarted ∧ r ≠ Retired.

Definition loop_ok (s : Serving) : Prop :=
  match svLoop s with
  | Picking client _ | Dialing client _ _ => svTable s !! addrText client = None
  | Registering client _ id =>
      svTable s !! addrText client = None ∧
      ∃ f, svHeap s !! id = Some f ∧ flClient f = client ∧ flRelay f = Unstarted
  | Writing client _ id =>
      ∃ f, svHeap s !! id = Some f ∧ addrText (flClient f) = addrText client ∧ flRelay f ≠ Unstarted
  | Arming id _ => is_Some (svHeap s !! id)
  | Stopped => ∀ id f, svHeap s !! id = Some f → flOpen f = false
  | _ => True
  end.

Record serving_ok (s : Serving) : Prop := {
  ok_table : ∀ k id, svTable s !! k = Some id →
    ∃ f, svHeap s !! id = Some f ∧ addrText (flClient f) = k ∧ running (flRelay f);
  ok_running : ∀ id f, svHeap s !! id = Some f → running (flRelay f) →
    svTable s !! addrText (flClient f) = Some id;
  ok_closed : ∀ id f, svHeap s !! id = Some f → flRelay f = Closed ∨ flRelay f = Retired → flOpen f = false;
  ok_unstarted : ∀ id f, svHeap s !! id = Some f → flRelay f = Unstarted →
    ∃ client payload, svLoop s = Registering client payload id;
  ok_loop : loop_ok s;
}.

Lemma lookup_alter_heap (g : flow → flow) id (h : list flow) i f' :
  alter g id h !! i = Some f' → ∃ f, h !! i = Some f ∧ f' = if decide (id = i) then g f else f.
Proof.
  rewrite list_lookup_alter. destruct (decide (id = i)) as [->|]; intros H; [|by exists f'].
  apply fmap_Some in H as (f & ? & ->). by exists f.
Qed.

Lemma alter_heap_lookup (g : flow → flow) id (h : list flow) i f :
  h !! i = Some f → alter g id h !! i = Some (if decide (id = i) then g f else f).
Proof. intros Hf. rewrite list_lookup_alter. destruct (decide (id = i)) as [->|]; by rewrite Hf. Qed.

Ltac heap_cases :=
  repeat match goal with
  | H : alter _ _ _ !! _ = Some _ |- _ => apply lookup_alter_heap in H as (? & ? & ->)
  | H : (_ ++ [_]) !! _ = Some _ |- _ => apply lookup_snoc_Some in H as [[? ?]|[? ?]]
  | _ => case_decide
  end.

(** An update of one flow that keeps its client and whether its relay runs
    keeps the invariant, when the loop's own condition survives. *)
Lemma serving_ok_alter g id s :
  serving_ok s →
  (∀ f, flClient (g f) = flClient f) →
  (∀ f, svHeap s !! id = Some f → (running (flRelay (g f)) ↔ running (flRelay f)) ∧
     (flRelay (g f) = Unstarted → flRelay f = Unstarted) ∧
     (flRelay (g f) = Closed ∨ flRelay (g f) = Retired → flOpen (g f) = false) ∧
     (flOpen f = false → flOpen (g f) = false) ∧ (flRelay f = Unstarted → flRelay (g f) = Unstarted)) →
  serving_ok (on_heap (alter g id) s).
Proof.
  intros [Ht Hr Hc Hu Hl] Hg Hok. split; simpl.
  - intros k i (f & Hf & <- & Hrun)%Ht. eexists. split; [by apply alter_heap_lookup|].
    case_decide; subst; [|done]. rewrite Hg. destruct (Hok f Hf) as (? & _). naive_solver.
  - intros i f' Hf'. heap_cases; subst; [|by apply Hr].
    rewrite Hg. intros Hrun. apply Hr; [done|]. by apply (Hok _ H).
  - intros i f' Hf'. heap_cases; subst; [by apply (Hok _ H)|by apply Hc with i].
  - intros i f' Hf'. heap_cases; subst; [|by apply Hu]. intros Hun. eapply Hu; [done|]. by apply (Hok _ H).
  - unfold loop_ok in *. simpl. destruct (svLoop s); try done.
    + destruct Hl as (? & f & Hf & Hcl & Hun). split; [done|]. eexists. split; [by apply alter_heap_lookup|].
      case_decide; subst; [|done]. rewrite Hg. split; [done|]. by apply (Hok _ Hf).
    + destruct Hl as (f & Hf & Hcl & Hun). eexists. split; [by apply alter_heap_lookup|].
      case_decide; subst; [|done]. rewrite Hg. split; [done|]. intros Hx. by apply Hun, (Hok _ Hf).
    + destruct Hl as [f Hf]. erewrite alter_heap_lookup by done. eauto.
    + intros i f' Hf'. heap_cases; subst; [|by eapply Hl]. apply (Hok _ H). by eapply Hl.
Qed.

Lemma serving_ok_note e s : serving_ok s → serving_ok (note e s).
Proof. by intros [? ? ? ? ?]. Qed.
Lemma serving_ok_picker p s : serving_ok s → serving_ok (with_picker p s).
Proof. by intros [? ? ? ? ?]. Qed.

Definition registering (l : Loop) : Prop := ∃ client payload id, l = Registering client payload id.

Lemma serving_ok_goto l s :
  serving_ok s → ¬ registering (svLoop s) → loop_ok (goto l s) → serving_ok (goto l s).
Proof.
  intros [Ht Hr Hc Hu Hl] Hreg Hok. split; simpl; try done.
  intros id f Hf Hun. destruct (Hu id f Hf Hun) as (client & payload & Hx). destruct Hreg. rewrite Hx. by do 3 eexists.
Qed.

Lemma close_all_lookup s id f' :
  svHeap (close_all s) !! id = Some f' →
  ∃ f, svHeap s !! id = Some f ∧ f' = if decide (id ∈ (map_to_list (svTable s)).*2) then close_upstream f else f.
Proof.
  unfold close_all, on_heap. simpl. rewrite list_lookup_imap. intros (f & Hf & ->)%fmap_Some. by exists f.
Qed.

Lemma table_values s k id : svTable s !! k = Some id → id ∈ (map_to_list (svTable s)).*2.
Proof. intros Hk. apply list_elem_of_fmap. exists (k, id). split; [done|]. by apply elem_of_map_to_list. Qed.

Lemma close_all_ok s : serving_ok s → svLoop s = Receiving → serving_ok (goto Stopped (close_all s)).
Proof.
  intros [Ht Hr Hc Hu Hl] Hloop. split.
  - intros k id Hk. destruct (Ht k id Hk) as (f & Hf & <- & Hrun).
    eexists. simpl. rewrite list_lookup_imap, Hf. simpl. split; [reflexivity|].
    destruct (decide _); exact (conj eq_refl Hrun).
  - intros id f' (f & Hf & ->)%close_all_lookup. destruct (decide _); exact (Hr id f Hf).
  - intros id f' (f & Hf & ->)%close_all_lookup. destruct (decide _); [done|exact (Hc id f Hf)].
  - intros id f' (f & Hf & ->)%close_all_lookup Hun.
    destruct (Hu id f Hf) as (client & payload & Hx); [by destruct (decide _)|]. by rewrite Hloop in Hx.
  - intros id f' (f & Hf & ->)%close_all_lookup. case_decide as Hin; [done|].
    destruct (flRelay f) eqn:Hrel; try (destruct Hin; apply (table_values s (addrText (flClient f))), Hr; [done|];
      unfold running; rewrite Hrel; done).
    + destruct (Hu id f Hf Hrel) as (client & payload & Hx). by rewrite Hloop in Hx.
    + apply (Hc id); auto.
Qed.

Ltac not_registering :=
  match goal with H : svLoop _ = _ |- _ => simpl; rewrite H; intros (? & ? & ? & ?); done end.

Lemma opened_ok client payload sel fl s :
  serving_ok s → svLoop s = Dialing client payload sel → flClient fl = client → flRelay fl = Unstarted →
  serving_ok (goto (Registering client payload (length (svHeap s))) (on_heap (.++ [fl]) s)).
Proof.
  intros [Ht Hr Hc Hu Hl] Hloop Hcl Hrel. unfold loop_ok in Hl. rewrite Hloop in Hl. split; simpl.
  - intros k id (f & Hf & H)%Ht. exists f. split; [by apply lookup_app_l_Some|done].
  - intros id f Hf. heap_cases; subst; [by apply Hr|]. by intros [? _].
  - intros id f Hf. heap_cases; subst; [exact (Hc _ _ H0)|]. rewrite Hrel. by intros [|].
  - intros id f Hf. heap_cases; subst; [|by do 2 eexists]. intros Hun.
    destruct (Hu id f) as (? & ? & Hx); [done..|]. by rewrite Hloop in Hx.
  - split; [done|]. eexists. split; [by apply list_lookup_middle|done].
Qed.

Lemma registered_ok client payload id s :
  serving_ok s → svLoop s = Registering client payload id →
  serving_ok (goto (Writing client payload id)
    (on_table <[addrText client := id]> (on_heap (alter (set_relay Relaying) id) s))).
Proof.
  intros [Ht Hr Hc Hu Hl] Hloop. unfold loop_ok in Hl. rewrite Hloop in Hl.
  destruct Hl as (Hnone & f0 & Hf0 & <- & Hun0). split; simpl.
  - intros k i [[<- <-]|[Hne Hk]]%lookup_insert_Some.
    + eexists. split; [by apply alter_heap_lookup|]. rewrite decide_True by done. done.
    + destruct (Ht k i Hk) as (f & Hf & Hkey & Hrun). eexists. split; [by apply alter_heap_lookup|].
      case_decide; subst; done.
  - intros i f' Hf'. heap_cases; subst; simplify_eq/=; [intros _; apply lookup_insert_eq|].
    intros Hrun. rewrite lookup_insert_ne; [by apply Hr|]. intros Heq.
    specialize (Hr _ _ H Hrun). congruence.
  - intros i f' Hf'. heap_cases; subst; [by intros [|]|exact (Hc _ _ H)].
  - intros i f' Hf'. heap_cases; subst; [done|]. intros Hun.
    destruct (Hu i _ H Hun) as (? & ? & Hx). congruence.
  - eexists. split; [by apply alter_heap_lookup|]. rewrite decide_True by done. done.
Qed.

Lemma retired_ok id fl s :
  serving_ok s → svHeap s !! id = Some fl → flRelay fl = Closed →
  serving_ok (on_table (delete (addrText (flClient fl))) (on_heap (alter (set_relay Retired) id) s)).
Proof.
  intros [Ht Hr Hc Hu Hl] Hf0 Hrel. split; simpl.
  - intros k i [Hne Hk]%lookup_delete_Some. destruct (Ht k i Hk) as (f & Hf & Hkey & Hrun).
    eexists. split; [by apply alter_heap_lookup|]. case_decide; subst; [|done]. congruence.
  - intros i f' Hf'. heap_cases; subst; [by intros [_ []]|]. intros Hrun.
    rewrite lookup_delete_ne; [by apply Hr|]. intros Heq. pose proof (Hr _ _ H Hrun) as H1.
    pose proof (Hr _ _ Hf0) as H2. rewrite Hrel, Heq in H2. specialize (H2 ltac:(done)). congruence.
  - intros i f' Hf'. heap_cases; subst; [|exact (Hc _ _ H)]. intros _. simplify_eq/=. eapply Hc; eauto.
  - intros i f' Hf'. heap_cases; subst; [done|]. exact (Hu _ _ H).
  - unfold loop_ok in *. simpl. destruct (svLoop s); try done.
    + rewrite lookup_delete_None. auto.
    + rewrite lookup_delete_None. auto.
    + destruct Hl as (? & f & Hf & ? & Hun). rewrite lookup_delete_None. split; [auto|].
      exists f. rewrite (alter_heap_lookup _ _ _ _ f) by done. rewrite decide_False; [done|]. congruence.
    + destruct Hl as (f & Hf & ? & Hun). eexists. split; [by apply alter_heap_lookup|]. by case_decide.
    + destruct Hl as [f Hf]. erewrite alter_heap_lookup by done. eauto.
    + intros i f' Hf'. heap_cases; subst; exact (Hl _ _ H).
Qed.

(** A relay that moves on, or returns and closes its upstream. *)
Lemma relay_ok g id fl s :
  serving_ok s → svHeap s !! id = Some fl → running (flRelay fl) → flRelay fl ≠ Closed →
  (∀ f, flClient (g f) = flClient f) → running (flRelay (g fl)) →
  (flRelay (g fl) = Closed → flOpen (g fl) = false) → (flOpen fl = false → flOpen (g fl) = false) →
  serving_ok (on_heap (alter g id) s).
Proof.
  intros Hok Hf Hrun Hnc Hg Hrun' Hcl Hop. apply serving_ok_alter; [done..|].
  intros f0 Hf0. simplify_eq. unfold running in *. naive_solver.
Qed.

Lemma moves_ok now ev s s' : moves now s ev s' → serving_ok s → serving_ok s'.
Proof.
  intros Hm Hok. pose proof (ok_loop s Hok) as Hl. unfold loop_ok in Hl.
  destruct Hm; try apply serving_ok_note; try (rewrite H in Hl);
    try (apply serving_ok_goto; [by try apply serving_ok_picker|not_registering|done]).
  - by apply close_all_ok.
  - apply serving_ok_goto; [done|not_registering|].
    destruct (ok_table s Hok _ _ H0) as (f & Hf & Hkey & [Hu _]). by exists f.
  - apply (opened_ok client payload sel); subst; done.
  - by apply registered_ok.
  - apply serving_ok_goto; [done|not_registering|by exists fl].
  - apply serving_ok_goto; [|not_registering|done]. apply serving_ok_alter; [done..|].
    intros f Hf. simpl. pose proof (ok_closed s Hok id f Hf). naive_solver.
  - apply (relay_ok _ id fl); unfold running; simpl; rewrite ?H1; done.
  - apply (relay_ok _ id fl); unfold running; simpl; rewrite ?H1; done.
  - apply (relay_ok _ id fl); unfold running; simpl; rewrite ?H1; done.
  - apply (relay_ok _ id fl); unfold running; simpl; rewrite ?H1; done.
  - apply (relay_ok _ id fl); unfold running; simpl; rewrite ?H1; done.
  - by apply retired_ok.
  - by apply serving_ok_picker.
Qed.

Lemma serving_ok_init p : serving_ok (serving p).
Proof. split; simpl; try done; intros; by simplify_map_eq. Qed.

(** ** History *)

Definition expired (id : nat) (log : list Entry) : Prop := ∃ received sent, Expired id received sent ∈ log.
Definition requests : list Entry → list (string * string) :=
  omap (λ e, match e with Received client payload => Some (addrText client, payload) | _ => None end).
Definition forwards : list Entry → list (string * string) :=
  omap (λ e, match e with Forwarded _ client payload => Some (addrText client, payload) | _ => None end).
Definition responses (id : nat) : list Entry → list string :=
  omap (λ e, match e with Responded i payload => if decide (i = id) then Some payload else None | _ => None end).
Definition answers (id : nat) : list Entry → list string :=
  omap (λ e, match e with Answered i _ payload => if decide (i = id) then Some payload else None | _ => None end).

#[local] Arguments responses : simpl never.
#[local] Arguments answers : simpl never.

(** What must have happened before an entry: a flow is opened for a client
    that sent something, on the picker's choice, when every earlier flow of
    that client has expired; datagrams and responses belong to a flow that
    is open, and leave for the client that opened it. *)
Definition explains (log : list Entry) (e : Entry) : Prop :=
  match e with
  | Opened id client sel =>
      (∃ payload, Received client payload ∈ log) ∧ (∃ p p', pickUDP port p = (Ok sel, p')) ∧
      ∀ id' client' sel', Opened id' client' sel' ∈ log →
        id' ≠ id ∧ (addrText client' = addrText client → expired id' log)
  | Forwarded id client _ | Answered id client _ => (∃ sel, Opened id client sel ∈ log) ∧ ¬ expired id log
  | Responded id _ | Expired id _ _ => (∃ client sel, Opened id client sel ∈ log) ∧ ¬ expired id log
  | Received _ _ | Refused _ => True
  end.

Fixpoint explained (log : list Entry) : Prop :=
  match log with [] => True | e :: log => explains log e ∧ explained log end.

Definition flow_ok (log : list Entry) (id : nat) (f : flow) : Prop :=
  Opened id (flClient f) (flSelection f) ∈ log ∧ (expired id log ↔ flRelay f = Retired) ∧
  match flRelay f with
  | Answering payload => (payload :: answers id log) `sublist_of` responses id log
  | _ => answers id log `sublist_of` responses id log
  end.

(** The datagram the loop holds. *)
Definition held (l : Loop) : option (UDPAddr * string) :=
  match l with
  | Looking client payload | Picking client payload | Dialing client payload _
  | Registering client payload _ | Writing client payload _ => Some (client, payload)
  | _ => None
  end.

Record log_ok (s : Serving) : Prop := {
  lo_flow : ∀ id f, svHeap s !! id = Some f → flow_ok (svLog s) id f;
  lo_known : ∀ id client sel, Opened id client sel ∈ svLog s →
    ∃ f, svHeap s !! id = Some f ∧ flClient f = client ∧ flSelection f = sel;
  lo_fresh : ∀ id, svHeap s !! id = None → ¬ expired id (svLog s) ∧ answers id (svLog s) = [];
  lo_held : match held (svLoop s) with
            | Some (client, payload) =>
                Received client payload ∈ svLog s ∧
                ((addrText client, payload) :: forwards (svLog s)) `sublist_of` requests (svLog s)
            | None => forwards (svLog s) `sublist_of` requests (svLog s)
            end;
  lo_picked : match svLoop s with
              | Dialing _ _ sel => ∃ p p', pickUDP port p = (Ok sel, p')
              | _ => True
              end;
  lo_explained : explained (svLog s);
}.

Lemma log_ok_init p : log_ok (serving p).
Proof.
  split; simpl; try done; [by intros ? ? ? ?%elem_of_nil|].
  intros id _. split; [|done]. by intros (? & ? & ?%elem_of_nil).
Qed.

Lemma expired_cons id e log :
  expired id (e :: log) ↔ (∃ received sent, e = Expired id received sent) ∨ expired id log.
Proof. unfold expired. setoid_rewrite elem_of_cons. naive_solver. Qed.

Definition elsewhere (id : nat) (e : Entry) : Prop :=
  match e with Responded i _ | Answered i _ _ | Expired i _ _ => i ≠ id | _ => True end.

Lemma expired_elsewhere id e log : elsewhere id e → expired id (e :: log) ↔ expired id log.
Proof. intros He. rewrite expired_cons. split; [|auto]. by intros [(? & ? & ->)|]. Qed.
Lemma answers_elsewhere id e log : elsewhere id e → answers id (e :: log) = answers id log.
Proof. unfold answers. destruct e; simpl; try done. intros. by rewrite decide_False by done. Qed.
Lemma responses_elsewhere id e log : elsewhere id e → responses id (e :: log) = responses id log.
Proof. unfold responses. destruct e; simpl; try done. intros. by rewrite decide_False by done. Qed.

Lemma flow_ok_elsewhere id e f log : elsewhere id e → flow_ok log id f → flow_ok (e :: log) id f.
Proof.
  intros He (Ho & Hx & Ha). unfold flow_ok. rewrite expired_elsewhere, answers_elsewhere, responses_elsewhere by done.
  split; [by apply list_elem_of_further|done].
Qed.

(** A step of the loop that opens no flow: at most one entry, about no relay. *)
Lemma log_ok_goto l s :
  log_ok s →
  match held l with
  | Some (client, payload) =>
      Received client payload ∈ svLog s ∧
      ((addrText client, payload) :: forwards (svLog s)) `sublist_of` requests (svLog s)
  | None => True
  end →
  match l with Dialing _ _ sel => ∃ p p', pickUDP port p = (Ok sel, p') | _ => True end →
  log_ok (goto l s).
Proof.
  intros [Hf Hk Hfr Hh Hp He] Hheld Hpick. split; simpl; try done.
  destruct (held l) as [[]|]; [done|]. destruct (held (svLoop s)) as [[]|]; [|done].
  etrans; [by apply sublist_cons|by apply Hh].
Qed.

Lemma log_ok_note e s :
  log_ok s → (∀ id, elsewhere id e) → explains (svLog s) e →
  match e with Opened _ _ _ | Forwarded _ _ _ => False | _ => True end → log_ok (note e s).
Proof.
  intros [Hf Hk Hfr Hh Hp He] Helse Hex Hkind. split; simpl; try done.
  - intros id f Hid. by apply flow_ok_elsewhere, Hf.
  - intros id client sel [<-|Hin]%elem_of_cons; [done|by apply Hk].
  - intros id Hid. rewrite expired_elsewhere, answers_elsewhere by done. by apply Hfr.
  - destruct (held (svLoop s)) as [[client payload]|].
    + destruct Hh as [H1 H2]. split; [by apply list_elem_of_further|]. destruct e; simpl; try done.
      by apply sublist_cons_r; left.
    + destruct e; simpl; try done. by apply sublist_cons_r; left.
Qed.

Lemma log_ok_received client payload s :
  log_ok s → svLoop s = Receiving →
  log_ok (note (Received client payload) (goto (Looking client payload) s)).
Proof.
  intros [Hf Hk Hfr Hh Hp He] Hloop. rewrite Hloop in Hh. split; simpl; try done.
  - intros id f Hid. by apply flow_ok_elsewhere, Hf.
  - intros id c sel [?|Hin]%elem_of_cons; [done|by apply Hk].
  - intros id Hid. rewrite expired_elsewhere, answers_elsewhere by done. by apply Hfr.
  - split; [by left|by apply sublist_skip].
Qed.

(** No flow of a client is left when the loop dials for it. *)
Lemma dialing_alone client payload sel id client' sel' s :
  serving_ok s → log_ok s → svLoop s = Dialing client payload sel → Opened id client' sel' ∈ svLog s →
  addrText client' = addrText client → expired id (svLog s).
Proof.
  intros Hok Hlog Hloop Hin Hkey. destruct (lo_known s Hlog _ _ _ Hin) as (f & Hf & <- & _).
  apply (lo_flow s Hlog id f Hf). pose proof (ok_loop s Hok) as Hl. unfold loop_ok in Hl. rewrite Hloop in Hl.
  destruct (flRelay f) eqn:Hrel; try done;
    try (pose proof (ok_running s Hok id f Hf) as Hr; rewrite Hrel, Hkey, Hl in Hr; by discriminate Hr).
  destruct (ok_unstarted s Hok id f Hf Hrel) as (? & ? & ?). congruence.
Qed.

Lemma log_ok_opened client payload sel fl s :
  serving_ok s → log_ok s → svLoop s = Dialing client payload sel →
  flClient fl = client → flSelection fl = sel → flRelay fl = Unstarted →
  log_ok (note (Opened (length (svHeap s)) client sel)
    (goto (Registering client payload (length (svHeap s))) (on_heap (.++ [fl]) s))).
Proof.
  intros Hok Hlog Hloop Hcl Hsel Hrel.
  pose proof (λ id c' sel', dialing_alone client payload sel id c' sel' s Hok Hlog Hloop) as Halone.
  destruct Hlog as [Hf Hk Hfr Hh Hp He]. rewrite Hloop in *. simpl in *. destruct Hh as [Hrec Hsub].
  assert (svHeap s !! length (svHeap s) = None) as Hnone by (by apply lookup_ge_None).
  split; simpl; try done.
  - intros id f Hid. heap_cases; subst; [by apply flow_ok_elsewhere, Hf|]. destruct (Hfr _ Hnone) as [Hx Ha].
    split; [by left|]. rewrite expired_elsewhere, answers_elsewhere, Ha, Hrel by done.
    split; [done|apply sublist_nil_l].
  - intros id c sel' [?|Hin]%elem_of_cons; simplify_eq.
    + exists fl. split; [by apply list_lookup_middle|done].
    + destruct (Hk _ _ _ Hin) as (f & ? & ?). exists f. split; [by apply lookup_app_l_Some|done].
  - intros id Hid. rewrite expired_elsewhere, answers_elsewhere by done. apply Hfr.
    apply lookup_ge_None in Hid. rewrite length_app in Hid. apply lookup_ge_None. lia.
  - split; [by apply list_elem_of_further|done].
  - split; [|done]. split; [by exists payload|]. split; [done|]. intros id' c' sel' Hin.
    split; [|by apply Halone with sel']. intros ->. destruct (Hk _ _ _ Hin) as (f & Hx & _). congruence.
Qed.

Lemma log_ok_forwarded client payload id fl n s :
  serving_ok s → log_ok s → svLoop s = Writing client payload id → svHeap s !! id = Some fl → flOpen fl = true →
  log_ok (note (Forwarded id (flClient fl) payload) (goto (Arming id n) s)).
Proof.
  intros Hok [Hf Hk Hfr Hh Hp He] Hloop Hfl Hopen. rewrite Hloop in *. simpl in *. destruct Hh as [Hrec Hsub].
  pose proof (ok_loop s Hok) as Hl. unfold loop_ok in Hl. rewrite Hloop in Hl. destruct Hl as (f0 & ? & Hkey & _).
  simplify_eq. destruct (Hf id fl Hfl) as (Ho & Hx & _).
  split; simpl; try done.
  - intros i f Hid. by apply flow_ok_elsewhere, Hf.
  - intros i c sel [?|Hin]%elem_of_cons; [done|by apply Hk].
  - intros i Hid. rewrite expired_elsewhere, answers_elsewhere by done. by apply Hfr.
  - by rewrite Hkey.
  - split; [|done]. split; [by eexists|]. rewrite Hx. intros Hr.
    pose proof (ok_closed s Hok id fl Hfl (or_intror Hr)). congruence.
Qed.

(** A step of a relay: entries about its own flow only. *)
Lemma log_ok_alter g id fl s :
  log_ok s → svHeap s !! id = Some fl → flClient (g fl) = flClient fl → flSelection (g fl) = flSelection fl →
  flow_ok (svLog s) id (g fl) → log_ok (on_heap (alter g id) s).
Proof.
  intros [Hf Hk Hfr Hh Hp He] Hfl Hcl Hsel Hok. split; simpl; try done.
  - intros i f' Hi. heap_cases; subst; simplify_eq; [done|by apply Hf].
  - intros i c sel (f & Hi & Hc & Hs)%Hk. eexists. split; [by apply alter_heap_lookup|].
    case_decide; subst; simplify_eq; by rewrite ?Hcl, ?Hsel.
  - intros i Hi. apply Hfr. rewrite list_lookup_alter in Hi. destruct (decide (id = i)) as [->|]; [|done].
    by rewrite Hfl in Hi.
Qed.

Lemma log_ok_relay g e id fl s :
  log_ok s → svHeap s !! id = Some fl → flClient (g fl) = flClient fl → flSelection (g fl) = flSelection fl →
  flow_ok (e :: svLog s) id (g fl) → explains (svLog s) e → (∀ i, i ≠ id → elsewhere i e) →
  match e with Responded _ _ | Answered _ _ _ | Expired _ _ _ => True | _ => False end →
  log_ok (note e (on_heap (alter g id) s)).
Proof.
  intros [Hf Hk Hfr Hh Hp He] Hfl Hcl Hsel Hok Hex Helse Hkind. split; simpl; try done.
  - intros i f' Hi. heap_cases; subst; simplify_eq; [done|]. apply flow_ok_elsewhere; auto.
  - intros i c sel [<-|(f & Hi & Hc & Hs)%Hk]%elem_of_cons; [done|].
    eexists. split; [by apply alter_heap_lookup|]. case_decide; subst; simplify_eq; by rewrite ?Hcl, ?Hsel.
  - intros i Hi. rewrite list_lookup_alter in Hi. destruct (decide (id = i)) as [->|]; [by rewrite Hfl in Hi|].
    rewrite expired_elsewhere, answers_elsewhere by auto. by apply Hfr.
  - destruct (held (svLoop s)) as [[client payload]|].
    + destruct Hh as [H1 H2]. split; [by apply list_elem_of_further|]. by destruct e.
    + by destruct e.
Qed.

Lemma log_ok_picker p s : log_ok s → log_ok (with_picker p s).
Proof. by intros [? ? ? ? ? ?]. Qed.
Lemma log_ok_table f s : log_ok s → log_ok (on_table f s).
Proof. by intros [? ? ? ? ? ?]. Qed.

Lemma log_ok_close_all s : log_ok s → log_ok (close_all s).
Proof.
  intros [Hf Hk Hfr Hh Hp He]. split; try done.
  - intros id f' (f & Hid & ->)%close_all_lookup. destruct (decide _); exact (Hf id f Hid).
  - intros id c sel (f & Hid & Hc & Hs)%Hk. eexists. simpl. rewrite list_lookup_imap, Hid. split; [reflexivity|].
    by destruct (decide _).
  - intros id Hid. apply Hfr. simpl in Hid. rewrite list_lookup_imap in Hid. by destruct (svHeap s !! id).
Qed.

(** A relay that goes on without answering. *)
Lemma flow_ok_quiet log id f f' :
  flow_ok log id f → flClient f' = flClient f → flSelection f' = flSelection f →
  (flRelay f' = Retired ↔ flRelay f = Retired) →
  match flRelay f' with Answering _ => flRelay f' = flRelay f | _ => True end → flow_ok log id f'.
Proof.
  intros (Ho & Hx & Ha) Hc Hs Hr Hq. split; [by rewrite Hc, Hs|]. split; [by rewrite Hx|].
  assert (answers id log `sublist_of` responses id log) as Hweak.
  { destruct (flRelay f); try done. etrans; [by apply sublist_cons|done]. }
  destruct (flRelay f'); try done. by rewrite <-Hq in Ha.
Qed.

Lemma flow_ok_responded log id f payload :
  flow_ok log id f → flRelay f = Relaying →
  flow_ok (Responded id payload :: log) id (set_relay (Answering payload) f).
Proof.
  intros (Ho & Hx & Ha) Hr. rewrite Hr in Hx, Ha. split; [by apply list_elem_of_further|].
  rewrite expired_cons, Hx. split; [naive_solver|]. simpl. unfold answers, responses. simpl.
  rewrite decide_True by done. by apply sublist_skip.
Qed.

Lemma flow_ok_answered log id f client payload n :
  flow_ok log id f → flRelay f = Answering payload →
  flow_ok (Answered id client payload :: log) id (set_relay (Rearming n) f).
Proof.
  intros (Ho & Hx & Ha) Hr. rewrite Hr in Hx, Ha. split; [by apply list_elem_of_further|].
  rewrite expired_cons, Hx. split; [naive_solver|]. simpl. unfold answers, responses in *. simpl.
  by rewrite decide_True by done.
Qed.

Lemma flow_ok_expired log id f received sent :
  flow_ok log id f → flRelay f = Closed → flow_ok (Expired id received sent :: log) id (set_relay Retired f).
Proof.
  intros (Ho & Hx & Ha) Hr. rewrite Hr in Hx, Ha. split; [by apply list_elem_of_further|].
  rewrite expired_cons. split; [naive_solver|]. done.
Qed.

Lemma moves_log_ok now ev s s' : moves now s ev s' → serving_ok s → log_ok s → log_ok s'.
Proof.
  intros Hm Hok Hlog. pose proof (lo_held s Hlog) as Hh. pose proof (lo_picked s Hlog) as Hp.
  pose proof (ok_loop s Hok) as Hl. unfold loop_ok in Hl. pose proof (lo_flow s Hlog) as Hf.
  assert (∀ id fl r, svHeap s !! id = Some fl → flRelay fl = r → r ≠ Retired →
    (∃ sel, Opened id (flClient fl) sel ∈ svLog s) ∧ ¬ expired id (svLog s)) as Hlive.
  { intros id fl r Hfl <- Hr. pose proof (Hf id fl Hfl) as (H1 & H2 & H3). split; [by eexists|]. by rewrite H2. }
  destruct Hm; try (rewrite H in Hh, Hp, Hl; simpl in Hh).
  - by apply log_ok_received.
  - by apply log_ok_goto, I; [apply log_ok_close_all|].
  - by apply log_ok_goto.
  - by apply log_ok_goto.
  - apply log_ok_goto; [by apply log_ok_picker|done|by do 2 eexists].
  - apply log_ok_note; [|done..]. by apply log_ok_goto; [apply log_ok_picker|..].
  - by apply log_ok_goto; [apply log_ok_picker|..].
  - apply log_ok_opened with (sel := sel); subst; done.
  - apply log_ok_note; [|done..]. by apply log_ok_goto.
  - destruct Hl as (_ & f & Hid & _ & Hr). apply log_ok_goto; [apply log_ok_table|done..].
    eapply log_ok_alter; [done..|]. eapply flow_ok_quiet; [by apply Hf|..]; simpl; rewrite ?Hr; done.
  - by eapply log_ok_forwarded.
  - by apply log_ok_goto.
  - destruct Hl as [f Hid]. apply log_ok_goto; [|done..].
    eapply log_ok_alter; [done..|]. eapply flow_ok_quiet; [by apply Hf|..]; simpl; try done. by destruct (flRelay f).
  - eapply log_ok_relay; [done..|by apply flow_ok_responded; [apply Hf|]| |naive_solver|done].
    destruct (Hlive _ _ _ H0 H1) as [[]]; [done|]. simpl. eauto.
  - eapply log_ok_alter; [done..|]. eapply flow_ok_quiet; [by apply Hf|..]; simpl; rewrite ?H1; done.
  - eapply log_ok_relay; [done..|by apply flow_ok_answered; [apply Hf|]| |naive_solver|done].
    by eapply Hlive.
  - eapply log_ok_alter; [done..|]. eapply flow_ok_quiet; [by apply Hf|..]; simpl; rewrite ?H1; done.
  - eapply log_ok_alter; [done..|]. eapply flow_ok_quiet; [by apply Hf|..]; simpl; rewrite ?H1; done.
  - apply (log_ok_relay _ _ _ fl (on_table _ s)); [by apply log_ok_table|done..|by apply flow_ok_expired; [apply Hf|]| |naive_solver|done].
    destruct (Hlive _ _ _ H0 H1) as [[]]; [done|]. simpl. eauto.
  - by apply log_ok_picker.
Qed.

Lemma run_flows_ok schedule s s' :
  run schedule s = Some s' → serving_ok s → log_ok s → serving_ok s' ∧ log_ok s'.
Proof.
  revert s. induction schedule as [|[now ev] rest IH]; intros s; simpl; [by intros [= <-]|].
  intros (s1 & H1%step_moves & H2)%bind_Some Hok Hlog. apply (IH s1); [done|by eapply moves_ok|by eapply moves_log_ok].
Qed.

Lemma reached_flows_ok p schedule s : run schedule (serving p) = Some s → serving_ok s ∧ log_ok s.
Proof. intros H. eapply run_flows_ok; [done|apply serving_ok_init|apply log_ok_init]. Qed.

(** *** A client keeps its flow *)

Definition quiet (id : nat) (t : Z) (e : Z * Step) : Prop :=
  t ≤ e.1 < t + idleTimeout ∧
  match e.2 with
  | Receive None => False
  | ReadError true i | Answer false i => i ≠ id
  | _ => True
  end.

Definition opened (k : string) : list Entry → list nat :=
  omap (λ e, match e with
             | Opened id client _ => if decide (addrText client = k) then Some id else None
             | _ => None
             end).

Definition pinned (k : string) (id : nat) (sel : L4Selection) (t : Z) (s : Serving) : Prop :=
  svTable s !! k = Some id ∧
  ∃ f, svHeap s !! id = Some f ∧ addrText (flClient f) = k ∧ flSelection f = sel ∧ flOpen f = true ∧
       t + idleTimeout ≤ flDeadline f.

Lemma pinned_alter g i k id sel t s :
  pinned k id sel t s →
  (∀ f, flClient (g f) = flClient f ∧ flSelection (g f) = flSelection f) →
  (∀ f, i = id → flOpen f = true → t + idleTimeout ≤ flDeadline f →
        flOpen (g f) = true ∧ t + idleTimeout ≤ flDeadline (g f)) →
  pinned k id sel t (on_heap (alter g i) s).
Proof.
  intros (Ht & f & Hf & Hk & Hs & Ho & Hd) Hg Hkeep. split; [done|].
  eexists. split; [by apply alter_heap_lookup|]. case_decide; [|done].
  destruct (Hg f) as [-> ->]. destruct (Hkeep f); done.
Qed.

Lemma moves_pinned now ev s s' k id sel t :
  moves now s ev s' → serving_ok s → quiet id t (now, ev) → pinned k id sel t s →
  pinned k id sel t s' ∧ opened k (svLog s') = opened k (svLog s).
Proof.
  intros Hm Hok [Ht Hev] Hpin. simpl in Ht, Hev. pose proof (ok_loop s Hok) as Hl. unfold loop_ok in Hl.
  assert (closed_listener s = false) as Hopen.
  { destruct Hpin as (_ & f & Hf & _ & _ & Ho & _). unfold closed_listener. destruct (svLoop s); try done.
    specialize (Hl _ _ Hf). congruence. }
  destruct Hm; try (rewrite H in Hl); try done;
    try (split; [|done]; apply pinned_alter; [done|done|]; intros f -> Ho Hd; simpl; rewrite ?Ho; done || lia).
  - split; [|simpl; destruct Hpin as [Hk _]; by rewrite decide_False by congruence].
    destruct Hpin as (Hk & f & Hf & Hrest). split; [done|]. exists f. split; [by apply lookup_app_l_Some|done].
  - split; [|done]. destruct Hpin as (Hk & f & Hf & Hrest). destruct Hl as (Hnone & f0 & Hf0 & Hcl & Hun). split.
    + simpl. rewrite lookup_insert_ne; [done|]. congruence.
    + eexists. split; [by apply alter_heap_lookup|]. by case_decide.
  - split; [|done]. destruct Hpin as (Hk & f & Hf & Hkey & Hsel & Ho & Hd).
    eapply pinned_alter; [by split; [|exists f]|done|]. intros f0 -> Ho0 Hd0. simplify_eq.
    rewrite Ho in H2. destruct failed; [done|]. simpl in H2. apply Z.leb_le in H2. lia.
  - split; [|done]. destruct wrote; [by rewrite Hopen in H2|]. apply pinned_alter; [done|done|].
    intros f -> . done.
  - split; [|done]. destruct Hpin as (Hk & f & Hf & Hkey & Hsel & Ho & Hd).
    assert (id0 ≠ id) as Hne by (intros ->; simplify_eq; pose proof (ok_closed s Hok _ _ H0 (or_introl H1)); congruence).
    split; simpl.
    + rewrite lookup_delete_ne; [done|]. intros Heq. apply Hne.
      assert (svTable s !! addrText (flClient fl) = Some id0) by (apply (ok_running s Hok); [done|by rewrite H1]).
      congruence.
    + eexists. split; [by apply alter_heap_lookup|]. by rewrite decide_False.
Qed.

Lemma run_pinned schedule s s' k id sel t :
  run schedule s = Some s' → serving_ok s → Forall (quiet id t) schedule → pinned k id sel t s →
  pinned k id sel t s' ∧ opened k (svLog s') = opened k (svLog s).
Proof.
  intros Hrun Hok Hq. revert s Hrun Hok. induction Hq as [|[now ev] rest He _ IH]; intros s; simpl.
  { by intros [= <-]. }
  intros (s1 & H1%step_moves & H2)%bind_Some Hok Hpin.
  destruct (moves_pinned now ev s s1 k id sel t) as [Hpin1 <-]; [done..|].
  apply IH; [done|by eapply moves_ok|done].
Qed.

(** The flow is used: the loop forwards a datagram on it, or its relay a
    response. *)
Definition uses (id : nat) (s : Serving) (ev : Step) : Prop :=
  match ev with
  | Write true => ∃ client payload f, svLoop s = Writing client payload id ∧ svHeap s !! id = Some f ∧ flOpen f = true
  | Answer true i => i = id ∧ closed_listener s = false ∧
      ∃ f payload, svHeap s !! id = Some f ∧ flRelay f = Answering payload
  | _ => False
  end.

(** The step that sets the deadline afterwards, and that it comes next. *)
Definition arming (ev : Step) (id : nat) : Step := match ev with Answer _ _ => Rearm id | _ => Arm end.
Definition arms_next (ev : Step) (id : nat) (s : Serving) : Prop :=
  match ev with
  | Answer _ _ => ∃ f n, svHeap s !! id = Some f ∧ flRelay f = Rearming n
  | _ => ∃ n, svLoop s = Arming id n
  end.

Lemma uses_arms id s ev now s' : uses id s ev → moves now s ev s' → arms_next ev id s'.
Proof.
  destruct ev as [| | | | |[]| | | |[] i| | |]; simpl; try done.
  - intros (client & payload & f & Hl & Hf & Ho) Hm. inversion Hm; subst.
    + match goal with H : svLoop s = Writing _ _ _ |- _ => rewrite Hl in H; injection H as <- <- <- end. by eexists.
    + match goal with H : svLoop s = Writing _ _ _ |- _ => rewrite Hl in H; injection H as <- <- <- end.
      match goal with H : svHeap s !! id = Some ?g |- _ => rewrite Hf in H; injection H as <- end.
      by rewrite Ho in *.
  - intros (-> & Hc & f & payload & Hf & Hr) Hm. inversion Hm; subst; simpl.
    + eexists _, _. split; [by apply alter_heap_lookup|]. by rewrite decide_True.
    + by rewrite Hc in *.
Qed.

Lemma loop_kept now ev s s' id n :
  moves now s ev s' → ev ≠ Arm → svLoop s = Arming id n → svLoop s' = Arming id n.
Proof. intros Hm Ha Hl. by destruct Hm; try congruence. Qed.

Lemma rearming_kept now ev s s' id f n :
  moves now s ev s' → serving_ok s → ev ≠ Rearm id → svHeap s !! id = Some f → flRelay f = Rearming n →
  ∃ f', svHeap s' !! id = Some f' ∧ flRelay f' = Rearming n.
Proof.
  intros Hm Hok Ha Hf Hr. pose proof (ok_loop s Hok) as Hl. unfold loop_ok in Hl.
  assert (Halter : ∀ g i, (i = id → flRelay (g f) = Rearming n) →
      ∃ f', alter g i (svHeap s) !! id = Some f' ∧ flRelay f' = Rearming n).
  { intros g i Hg. eexists. split; [by apply alter_heap_lookup|]. case_decide; [by apply Hg|done]. }
  destruct Hm; simpl; eauto; try (apply Halter; intros ->; simplify_eq/=; congruence).
  - rewrite list_lookup_imap, Hf. simpl. eexists. split; [done|]. by case_decide.
  - exists f. split; [by apply lookup_app_l_Some|done].
  - rewrite H in Hl. destruct Hl as (_ & f0 & Hf0 & _ & Hun). apply Halter. intros ->. simplify_eq. congruence.
Qed.

Lemma arms_next_kept ev id now ev' s s' :
  moves now s ev' s' → serving_ok s → ev' ≠ arming ev id → arms_next ev id s → arms_next ev id s'.
Proof.
  intros Hm Hok Ha. destruct ev; simpl in *; try (intros [n Hl]; exists n; by eapply loop_kept).
  intros (f & n & Hf & Hr). destruct (rearming_kept _ _ _ _ _ _ _ Hm Hok Ha Hf Hr) as (f' & ? & ?). eauto.
Qed.

Lemma run_arms_next ev id schedule s s' :
  run schedule s = Some s' → serving_ok s → arming ev id ∉ schedule.*2 → arms_next ev id s →
  serving_ok s' ∧ arms_next ev id s'.
Proof.
  revert s. induction schedule as [|[now ev'] rest IH]; intros s; simpl; [by intros [= <-]|].
  intros (s1 & H1%step_moves & H2)%bind_Some Hok [Hne Hn]%not_elem_of_cons Hnext.
  eapply IH; [done|by eapply moves_ok|done|]. eapply arms_next_kept; eauto.
Qed.

(** From then on the flow is pinned. *)
Lemma arming_pins ev id t s s' k f :
  moves t s (arming ev id) s' → serving_ok s → arms_next ev id s → svTable s !! k = Some id →
  svHeap s !! id = Some f → flOpen f = true →
  pinned k id (flSelection f) t s' ∧ opened k (svLog s') = opened k (svLog s).
Proof.
  intros Hm Hok Hnext Hk Hf Ho.
  assert (Hkey : addrText (flClient f) = k).
  { destruct (ok_table s Hok k id Hk) as (f0 & ? & ? & ?). by simplify_eq. }
  assert (Harm : ∀ g, flClient (g f) = flClient f ∧ flSelection (g f) = flSelection f ∧ flOpen (g f) = true ∧
      flDeadline (g f) = t + idleTimeout → pinned k id (flSelection f) t (on_heap (alter g id) s)).
  { intros g (Hc & Hs & Hop & Hd). split; [done|]. eexists. split; [by apply alter_heap_lookup|].
    rewrite decide_True by done. rewrite Hc, Hs, Hop, Hd. done. }
  destruct ev; simpl in *; inversion Hm; subst;
    try match goal with H : svLoop s = Arming _ _ |- _ =>
      destruct Hnext as [n' Hl]; rewrite Hl in H; injection H as <- <- end; (split; [|done]);
    first [apply (Harm (set_deadline t ∘ add_received _))|
           apply (Harm (set_relay Relaying ∘ set_deadline t ∘ add_sent _))]; simpl; by rewrite Ho.
Qed.

(** *** Draining a stopped listener *)

Definition work (f : flow) : nat :=
  match flRelay f with
  | Unstarted | Rearming _ => 3 | Relaying | Answering _ => 2 | Closed => 1 | Retired => 0
  end.
Definition total_work (s : Serving) : nat := sum_list_with work (svHeap s).

Definition published (e : Z * Step) : Prop := match e.2 with Publish _ => True | _ => False end.

Lemma sum_alter (g : flow → flow) id h f :
  h !! id = Some f → (work (g f) < work f)%nat →
  (sum_list_with work (alter g id h) < sum_list_with work h)%nat.
Proof.
  revert id. induction h as [|f0 h IH]; intros [|id] Hf Hw; simplify_eq/=; [lia|].
  specialize (IH id Hf Hw). lia.
Qed.

Lemma moves_drain now ev s s' :
  moves now s ev s' → serving_ok s → svLoop s = Stopped → ¬ published (now, ev) →
  svLoop s' = Stopped ∧ (total_work s' < total_work s)%nat.
Proof.
  intros Hm Hok Hl Hp. pose proof (ok_loop s Hok) as Hcl. unfold loop_ok in Hcl. rewrite Hl in Hcl.
  destruct Hm; try congruence.
  - specialize (Hcl _ _ H0). congruence.
  - split; [done|]. eapply sum_alter; [done|]. unfold work. simpl. rewrite H1. lia.
  - unfold closed_listener in H2. by rewrite Hl in H2.
  - split; [done|]. eapply sum_alter; [done|]. unfold work. simpl. rewrite H1. lia.
  - split; [done|]. eapply sum_alter; [done|]. unfold work. simpl. rewrite H1. lia.
  - split; [done|]. eapply sum_alter; [done|]. unfold work. simpl. rewrite H1. lia.
  - by destruct Hp.
Qed.

Lemma run_drain schedule s s' :
  run schedule s = Some s' → serving_ok s → svLoop s = Stopped → Forall (λ e, ¬ published e) schedule →
  serving_ok s' ∧ svLoop s' = Stopped ∧ (length schedule + total_work s' ≤ total_work s)%nat.
Proof.
  intros Hrun Hok Hl Hq. revert s Hrun Hok Hl. induction Hq as [|[now ev] rest He _ IH]; intros s; simpl.
  { by intros [= <-]. }
  intros (s1 & H1%step_moves & H2)%bind_Some Hok Hl. destruct (moves_drain _ _ _ _ H1 Hok Hl He) as [Hl1 Hw].
  destruct (IH s1 H2) as (? & ? & ?); [by eapply moves_ok|done|]. split_and!; [done..|lia].
Qed.

(** As long as a flow is registered after the stop, its relay can move. *)
Lemma drain_progress k id s :
  serving_ok s → svLoop s = Stopped → svTable s !! k = Some id →
  ∃ ev s', ¬ published (0, ev) ∧ step 0 ev s = Some s'.
Proof.
  intros Hok Hl (f & Hf & _ & Hrun)%(ok_table s Hok). pose proof (ok_loop s Hok) as Hcl. unfold loop_ok in Hcl.
  rewrite Hl in Hcl. specialize (Hcl _ _ Hf). assert (svLoop s ≠ Crashed) as Hc by congruence.
  destruct (flRelay f) eqn:Hr.
  - by destruct Hrun.
  - exists (ReadError false id). eexists. split; [by intros []|]. apply moves_step. eapply m_read_failed; [done..|]. by rewrite Hcl.
  - exists (Answer false id). eexists. split; [by intros []|]. apply moves_step. by eapply m_unanswered.
  - exists (Rearm id). eexists. split; [by intros []|]. apply moves_step. by eapply m_rearmed.
  - exists (Retire id). eexists. split; [by intros []|]. apply moves_step. by eapply m_retired.
  - by destruct Hrun.
Qed.

Lemma total_work_bound s : (total_work s ≤ 3 * length (svHeap s))%nat.
Proof.
  unfold total_work. induction (svHeap s) as [|f h IH]; simpl; [lia|].
  assert (work f ≤ 3)%nat by (unfold work; destruct (flRelay f); lia). lia.
Qed.

End forwarder.

(** The routing state as the picker: tables, endpoints and counters. *)
#[global] Instance routing_picker `{!GoSort} : Picker (Tables * EndpointsIndex * Store) :=
  λ port p, let '(tables, idx, counters) := p in
            let '(picked, counters) := PickUDP tables port idx counters in (picked, (tables, idx, counters)).

(** With it, a flow's backend is a ready endpoint of the port's route. *)
Lemma routing_picker_ready `{!GoSort} port tables idx counters sel p' :
  pickUDP port (tables, idx, counters) = (Ok sel, p') →
  ∃ table route rule b e, Port tables port = Some table ∧ ptUDP table = true ∧
    l4Route table = Some route ∧ head (rtRules route) = Some rule ∧ b ∈ ruBackends rule ∧ bkValid b = true ∧
    e ∈ Endpoints idx (bkNamespace b) (bkName b) (bkPort b) ∧
    sel = mkL4Selection (endpoint_text e) (ptGatewayName table) (Key route) (backend_text b).
Proof.
  unfold pickUDP, routing_picker. destruct (PickUDP _ _ _ _) as [r s'] eqn:Hp. intros [= -> <-].
  by apply l4_pick_ready in Hp.
Qed.

(** C26: In every interleaving of the receive loop and the relays of a UDP
    listener: a flow is opened for a client only after every earlier flow of
    that client has expired, on a backend the picker chose; datagrams reach a
    backend, per client, in order, unchanged and at most once; and what a
    backend answers goes to the client that opened the flow and to nobody else,
    in order and at most once. *)
Theorem udp_datagrams_relayed {P} {picker : Picker P} port p schedule s :
  run port schedule (serving p) = Some s →
  explained port (svLog s) ∧
  forwards (svLog s) `sublist_of` requests (svLog s) ∧
  ∀ id, answers id (svLog s) `sublist_of` responses id (svLog s).
Proof.
  intros [Hok Hlog]%reached_flows_ok. split; [by apply lo_explained|]. split.
  - pose proof (lo_held _ s Hlog) as Hh. destruct (held (svLoop s)) as [[]|]; [|done].
    etrans; [by apply sublist_cons|by apply Hh].
  - intros id. destruct (svHeap s !! id) as [f|] eqn:Hf.
    + destruct (lo_flow _ s Hlog id f Hf) as (_ & _ & Ha). destruct (flRelay f); try done.
      etrans; [by apply sublist_cons|done].
    + destruct (lo_fresh _ s Hlog id Hf) as [_ ->]. apply sublist_nil_l.
Qed.

(** C30: After every datagram forwarded on a UDP flow and every response relayed
    to its client, the next thing that goroutine does is to renew the flow's
    deadline; from the instant it does, the client keeps its flow and backend
    for sixty seconds in every schedule without a socket error on that flow or a
    stop of the listener, whatever is published meanwhile, and no second flow is
    opened for it. Reading the clock and setting the deadline are one step;
    between use and renewal the old deadline still counts. *)
Theorem udp_client_pinned {P} {picker : Picker P} port p before s0 id used now s1 :
  run port before (serving p) = Some s0 → uses id s0 used → step port now used s0 = Some s1 →
  ∀ meanwhile s2, run port meanwhile s1 = Some s2 → arming used id ∉ meanwhile.*2 →
    arms_next used id s2 ∧
    ∀ t s3 k f schedule s4,
      step port t (arming used id) s2 = Some s3 →
      svTable s2 !! k = Some id → svHeap s2 !! id = Some f → flOpen f = true →
      Forall (quiet id t) schedule → run port schedule s3 = Some s4 →
      svTable s4 !! k = Some id ∧
      (∃ f', svHeap s4 !! id = Some f' ∧ flSelection f' = flSelection f ∧ flOpen f' = true) ∧
      opened k (svLog s4) = opened k (svLog s2).
Proof.
  intros [Hok Hlog]%reached_flows_ok Huse Hstep%step_moves meanwhile s2 Hmid Hni.
  pose proof (uses_arms _ _ _ _ _ _ Huse Hstep) as Hnext.
  destruct (run_arms_next _ _ _ _ _ _ Hmid (moves_ok _ _ _ _ _ Hstep Hok) Hni Hnext) as [Hok2 Hnext2].
  split; [done|]. intros t s3 k f schedule s4 Harm%step_moves Hk Hf Ho Hq Hrun.
  destruct (arming_pins _ _ _ _ _ _ _ _ Harm Hok2 Hnext2 Hk Hf Ho) as [Hpin <-].
  destruct (run_pinned _ _ _ _ _ _ _ _ Hrun (moves_ok _ _ _ _ _ Harm Hok2) Hq Hpin)
    as [(H1 & f' & H2 & _ & H3 & H4 & _) H5].
  split; [done|]. split; [|done]. by exists f'.
Qed.

(** C37: After a UDP listener is closed every upstream socket is closed, the
    relays take at most three more steps each, and none of them can be left
    waiting: as long as a flow is in the table one of them can move. *)
Theorem udp_stop_drains {P} {picker : Picker P} port p before s schedule s' :
  run port before (serving p) = Some s → svLoop s = Stopped →
  Forall (λ e, ¬ published e) schedule → run port schedule s = Some s' →
  (length schedule ≤ 3 * length (svHeap s))%nat ∧
  (∀ id f, svHeap s' !! id = Some f → flOpen f = false) ∧
  (svTable s' = ∅ ∨ ∃ ev s'', ¬ published (0, ev) ∧ step port 0 ev s' = Some s'').
Proof.
  intros [Hok Hlog]%reached_flows_ok Hl Hq Hrun.
  destruct (run_drain _ _ _ _ Hrun Hok Hl Hq) as (Hok' & Hl' & Hw). pose proof (total_work_bound s).
  split; [lia|]. split.
  - pose proof (ok_loop s' Hok') as Hcl. unfold loop_ok in Hcl. by rewrite Hl' in Hcl.
  - destruct (decide (svTable s' = ∅)) as [|(k & id & Hk)%map_choose]; [by left|right].
    by eapply drain_progress.
Qed.

(** ** A concrete listener *)

Definition ex_udp_tables : Tables :=
  mkTables {[ 53 := mkPortTable "uid" "gw" false false true false false
    [ex_listener 10 "dns" "" [ex_route "r" [] [ex_wrr]]] None ]} ∅.
Definition ex_P : Type := Tables * EndpointsIndex * Store.
Definition ex_udp_picker : ex_P := (ex_udp_tables, ex_index, ∅).
Definition ex_alice : UDPAddr := mkUDPAddr (V4 167772161) 4000.
Definition ex_bob : UDPAddr := mkUDPAddr (V6 1 "") 4000.
Definition ex_second (n : Z) : Z := n * 1000000000.

(** Alice opens a flow and gets an answer, then Bob opens his. *)
Definition ex_open (t : Z) (client : UDPAddr) (payload : string) : list (Z * Step (P := ex_P)) :=
  (λ ev, (ex_second t, ev)) <$>
    [Receive (Some (client, payload)); Lookup; PickBackend; Dial true; Register; Write true; Arm].
#[global] Instance ex_P_picker : Picker ex_P := routing_picker.
Definition ex_talk : list (Z * Step (P := ex_P)) :=
  ex_open 0 ex_alice "q1" ++
  ((λ ev, (ex_second 1, ev)) <$> [Respond 0 "a1"; Answer true 0; Rearm 0]) ++
  ex_open 2 ex_bob "q2".
Definition ex_serving : option (Serving (P := ex_P)) := run 53 ex_talk (serving ex_udp_picker).
(** Alice's second datagram, half a minute later. *)
Definition ex_again : list (Z * Step (P := ex_P)) :=
  (λ ev, (ex_second 30, ev)) <$> [Receive (Some (ex_alice, "q3")); Lookup; Write true; Arm].
Definition ex_stop : list (Z * Step (P := ex_P)) :=
  (λ ev, (ex_second 40, ev)) <$>
    [Receive None; ReadError false 0; Retire 0; ReadError false 1; Retire 1].

Example served_flows :
  (s ← ex_serving; Some (rev (svLog s))) =
    Some [Received ex_alice "q1";
          Opened 0 ex_alice (mkL4Selection "10.0.0.1:8080" "gw" "default/r" "default/a:80");
          Forwarded 0 ex_alice "q1"; Responded 0 "a1"; Answered 0 ex_alice "a1";
          Received ex_bob "q2";
          Opened 1 ex_bob (mkL4Selection "10.0.0.2:8080" "gw" "default/r" "default/a:80");
          Forwarded 1 ex_bob "q2"] ∧
  (s ← ex_serving; s ← run 53 ex_stop s; Some (svTable s, take 2 (svLog s))) =
    Some (∅, [Expired 1 2 0; Expired 0 2 2]).
Proof. split; vm_compute; reflexivity. Qed.

Definition ex_s : Serving (P := ex_P) := default (serving ex_udp_picker) ex_serving.
Definition ex_stopped : Serving (P := ex_P) := default ex_s (run 53 (take 1 ex_stop) ex_s).

Lemma ex_s_reached : run 53 ex_talk (serving ex_udp_picker) = Some ex_s.
Proof. vm_compute. reflexivity. Qed.
Lemma ex_stopped_reached : run 53 (ex_talk ++ take 1 ex_stop) (serving ex_udp_picker) = Some ex_stopped.
Proof. vm_compute. reflexivity. Qed.

Lemma udp_datagrams_relayed_witness :
  explained 53 (svLog ex_s) ∧ forwards (svLog ex_s) `sublist_of` requests (svLog ex_s) ∧
  ∀ id, answers id (svLog ex_s) `sublist_of` responses id (svLog ex_s).
Proof. exact (udp_datagrams_relayed 53 ex_udp_picker ex_talk ex_s ex_s_reached). Defined.

(** Alice's datagram of the first second pins her to her flow and backend,
    and so does the answer she got. *)
Definition ex_before : Serving (P := ex_P) := default ex_s (run 53 (take 8 ex_talk) (serving ex_udp_picker)).
Definition ex_later : list (Z * Step (P := ex_P)) := drop 10 ex_talk ++ ex_again.
Definition ex_answered : Serving (P := ex_P) := default ex_s (run 53 (take 9 ex_talk) (serving ex_udp_picker)).
Definition ex_rearmed : Serving (P := ex_P) := default ex_s (run 53 (take 10 ex_talk) (serving ex_udp_picker)).

Lemma udp_client_pinned_witness :
  ∃ s', run 53 ex_later ex_rearmed = Some s' ∧ svTable s' !! "10.0.0.1:4000" = Some 0%nat ∧
        opened "10.0.0.1:4000" (svLog s') = [0%nat].
Proof.
  destruct (run 53 ex_later ex_rearmed) as [s'|] eqn:Hrun.
  2: { assert (H : match run 53 ex_later ex_rearmed with Some _ => true | None => false end = true)
         by (vm_compute; reflexivity). rewrite Hrun in H. discriminate H. }
  exists s'. split; [reflexivity|].
  destruct (udp_client_pinned 53 ex_udp_picker (take 8 ex_talk) ex_before 0 (Answer true 0) (ex_second 1) ex_answered)
    with (meanwhile := @nil (Z * Step (P := ex_P))) (s2 := ex_answered) as [_ Hpin].
  - vm_compute. reflexivity.
  - simpl. split; [reflexivity|]. split; [vm_compute; reflexivity|]. eexists _, "a1". split; vm_compute; reflexivity.
  - vm_compute. reflexivity.
  - reflexivity.
  - apply not_elem_of_nil.
  - destruct (Hpin (ex_second 1) ex_rearmed "10.0.0.1:4000"
      (default (mkFlow ex_alice (mkL4Selection "" "" "" "") 0 false 0 0 0 Unstarted) (svHeap ex_answered !! 0%nat))
      ex_later s') as (H1 & _ & H2).
    + vm_compute. reflexivity.
    + vm_compute. reflexivity.
    + vm_compute. reflexivity.
    + vm_compute. reflexivity.
    + repeat constructor; vm_compute; try done; discriminate.
    + exact Hrun.
    + split; [exact H1|]. rewrite H2. vm_compute. reflexivity.
Defined.

Lemma udp_stop_drains_witness :
  ∃ s', run 53 (drop 1 ex_stop) ex_stopped = Some s' ∧
    (length (drop 1 ex_stop) ≤ 3 * length (svHeap ex_stopped))%nat ∧
    (svTable s' = ∅ ∨ ∃ ev s'', ¬ published (0, ev) ∧ step 53 0 ev s' = Some s'').
Proof.
  eexists. split; [vm_compute; reflexivity|].
  edestruct (udp_stop_drains 53 ex_udp_picker (ex_talk ++ take 1 ex_stop) ex_stopped (drop 1 ex_stop)) as (H1 & _ & H2).
  - exact ex_stopped_reached.
  - vm_compute. reflexivity.
  - repeat constructor; by intros [].
  - vm_compute. reflexivity.
  - split; [exact H1|exact H2].
Defined.

End udp.
