(* ===== verification/Streams.v ===== *)
(** * The raw stream path

    Models [internal/lib/transports/tcp/forwarder.go]: one accepted
    connection is matched to a backend and spliced with it.

    The two copy loops of [Splice] run concurrently; a schedule is a list of
    their reads, writes and closes, with the sizes the network chose.  What a
    peer sends is the string it sends before it closes its side. *)

From S2P Require Import Prelude GoStrings Http Compiled Tables Matching Balancing.
From stdpp Require Import options.

#[local] Open Scope nat_scope.
Import routing matching balancing.

Module tcp.

(** [*net.TCPConn] can close one side; the connections that wrap it (PROXY
    protocol listeners, [tls.Conn]) are closed as a whole by [closeWrite]. *)
Inductive ConnKind := TCPConn | Wrapped.

(** *** One copy loop, [io.Copy] followed by [closeWrite] *)

Inductive CopyState := Reading | Writing (chunk : string) | Closing | Done.

Record Half := mkHalf {
  hfInput : string;
  hfState : CopyState;
  hfOutput : string;
  hfCount : Z;
  hfFailed : bool;
}.

Definition half (input : string) : Half := mkHalf input Reading "" 0 false.

Inductive Act := DoRead (n : nat) | FailRead | DoWrite (n : nat) | DoClose.

Definition half_step (open : bool) (a : Act) (h : Half) : option Half :=
  match hfState h, a with
  | Reading, DoRead n =>
      if negb open then None
      else if (hfInput h == "") then
        if (n =? 0) then Some (mkHalf (hfInput h) Closing (hfOutput h) (hfCount h) (hfFailed h)) else None
      else if (0 <? n) && (n <=? len (hfInput h)) then
        Some (mkHalf (sdrop n (hfInput h)) (Writing (stake n (hfInput h))) (hfOutput h) (hfCount h) (hfFailed h))
      else None
  | Reading, FailRead => Some (mkHalf (hfInput h) Closing (hfOutput h) (hfCount h) true)
  | Writing chunk, DoWrite n =>
      if n <=? len chunk then
        Some (mkHalf (hfInput h) (if n =? len chunk then Reading else Closing) (hfOutput h +:+ stake n chunk)
                (int64_wrap (hfCount h + Z.of_nat n)) (hfFailed h || negb (n =? len chunk)))
      else None
  | Closing, DoClose => Some (mkHalf (hfInput h) Done (hfOutput h) (hfCount h) (hfFailed h))
  | _, _ => None
  end.

(** *** Both directions, [Splice] *)

Record Spliced := mkSpliced {
  spUpload : Half;
  spDownload : Half;
  spOpen : bool;
}.

Inductive Dir := Upload | Download.

Definition splice (client backend : string) : Spliced := mkSpliced (half client) (half backend) true.

(** The download's [closeWrite] closes a wrapped downstream for reads too. *)
Definition splice_step (kind : ConnKind) (e : Dir * Act) (s : Spliced) : option Spliced :=
  match e.1 with
  | Upload => h ← half_step (spOpen s) e.2 (spUpload s); Some (mkSpliced h (spDownload s) (spOpen s))
  | Download =>
      h ← half_step true e.2 (spDownload s);
      Some (mkSpliced (spUpload s) h
              (match e.2, kind with DoClose, Wrapped => false | _, _ => spOpen s end))
  end.

Fixpoint run (kind : ConnKind) (schedule : list (Dir * Act)) (s : Spliced) : option Spliced :=
  match schedule with
  | [] => Some s
  | e :: rest => splice_step kind e s ≫= run kind rest
  end.

Definition finished (s : Spliced) : bool :=
  match hfState (spUpload s), hfState (spDownload s) with Done, Done => true | _, _ => false end.

(** *** [Serve] *)

Class Picker (P : Type) := pickTCP : Z → P → result PickError L4Selection * P.

#[global] Instance routing_picker `{!GoSort} : Picker (Tables * EndpointsIndex * Store) :=
  λ port p, let '(tables, idx, counters) := p in
            let '(picked, counters) := PickTCP tables port idx counters in (picked, (tables, idx, counters)).

(** How a connection ended; [Cut] is a schedule that is not a whole run. *)
Inductive Outcome (S : Type) :=
  | Refused
  | Panicked
  | DialFailed (sel : S)
  | ReplayFailed (sel : S)
  | Forwarded (sel : S) (toBackend toClient : string) (received sent : Z)
  | Cut.
Arguments Refused {S}.
Arguments Panicked {S}.
Arguments DialFailed {S}.
Arguments ReplayFailed {S}.
Arguments Forwarded {S}.
Arguments Cut {S}.

Definition conclude {S} (kind : ConnKind) (schedule : list (Dir * Act)) (sel : S) (prefix : string)
    (client backend : string) : Outcome S :=
  match run kind schedule (splice client backend) with
  | Some s =>
      if finished s then
        Forwarded sel (prefix +:+ hfOutput (spUpload s)) (hfOutput (spDownload s))
          (int64_wrap (hfCount (spUpload s) + Z.of_nat (len prefix))) (hfCount (spDownload s))
      else Cut
  | None => Cut
  end.

Definition Serve {P} {picker : Picker P} (kind : ConnKind) (port : Z) (p : P) (dialed : bool)
    (schedule : list (Dir * Act)) (client backend : string) : Outcome L4Selection * P :=
  let '(picked, p) := pickTCP port p in
  (match picked with
   | Err NoEndpoint => Refused
   | Err IndexPanic => Panicked
   | Ok sel => if negb dialed then DialFailed sel
               else conclude kind schedule sel "" client backend
   end, p).

(** ** What a copy loop delivers *)

Definition pending (h : Half) : string := match hfState h with Writing chunk => chunk | _ => "" end.

(** Bytes leave in the order they came; a loop that has not failed holds or
    has delivered all it read, and stops only at the end of the input. *)
Record half_ok (input : string) (h : Half) : Prop := {
  ho_prefix : ∃ rest, input = hfOutput h +:+ rest;
  ho_count : hfCount h = int64_wrap (Z.of_nat (len (hfOutput h)));
  ho_all : hfFailed h = false → input = hfOutput h +:+ pending h +:+ hfInput h;
  ho_failed : hfFailed h = true → hfState h = Closing ∨ hfState h = Done;
  ho_end : hfFailed h = false → hfState h = Closing ∨ hfState h = Done → hfInput h = "";
}.

Lemma half_ok_init input : half_ok input (half input).
Proof. split; simpl; try done; [by exists input|by intros _ []]. Qed.

Lemma half_step_ok input open a h h' : half_step open a h = Some h' → half_ok input h → half_ok input h'.
Proof.
  intros Hstep [Hpre Hcnt Hall Hfail Hend]. unfold half_step in Hstep.
  destruct (hfState h) as [|chunk| |] eqn:Hst; destruct a as [n| |n|]; try done; unfold pending in Hall; rewrite Hst in Hall.
  - destruct open; [|done]. simpl in Hstep. destruct (_ == _) eqn:Heq.
    + destruct (n =? 0); [|done]. simplify_eq. apply bool_decide_eq_true in Heq. split; simpl; try done; auto.
    + destruct (_ && _); [|done]. simplify_eq.
      split; simpl; try done; [|by intros Hf; apply Hfail in Hf as []|by intros _ []].
      intros Hf. unfold pending. simpl. rewrite stake_sdrop. by apply Hall.
  - simplify_eq. split; simpl; try done. auto.
  - assert (hfFailed h = false) as Hf by (destruct (hfFailed h); [by destruct Hfail|done]).
    destruct (n <=? len chunk) eqn:Hn; [|done]. apply Nat.leb_le in Hn. simplify_eq. specialize (Hall Hf).
    assert (input = (hfOutput h +:+ stake n chunk) +:+ (sdrop n chunk +:+ hfInput h)) as Hin.
    { rewrite Hall, <-sapp_assoc. f_equal. by rewrite sapp_assoc, stake_sdrop. }
    split; simpl.
    + by eexists.
    + rewrite len_app, len_stake, Hcnt, int64_wrap_add_l. f_equal. lia.
    + rewrite Hf. destruct (n =? len chunk) eqn:Hfull; [|done]. apply Nat.eqb_eq in Hfull. intros _.
      unfold pending. simpl. rewrite Hin, Hfull. pose proof (sdrop_app chunk "") as Hd. rewrite app_empty_r in Hd. by rewrite Hd.
    + destruct (n =? len chunk); [|by auto]. rewrite Hf. done.
    + destruct (n =? len chunk); [by intros _ []|]. by rewrite orb_true_r.
  - simplify_eq. split; simpl; try done; auto.
Qed.

(** ** Termination *)

Definition half_work (h : Half) : nat :=
  match hfState h with
  | Reading => 2 * len (hfInput h) + 2 | Writing _ => 2 * len (hfInput h) + 3 | Closing => 1 | Done => 0
  end.
Definition work (s : Spliced) : nat := half_work (spUpload s) + half_work (spDownload s).

Lemma half_step_work open a h h' : half_step open a h = Some h' → half_work h' < half_work h.
Proof.
  unfold half_step, half_work. destruct (hfState h) as [|chunk| |]; destruct a as [n| |n|]; try done.
  - destruct open; [|done]. simpl. destruct (_ == _); [destruct (n =? 0); [|done]; intros [= <-]; simpl; lia|].
    destruct (_ && _) eqn:Hn; [|done]. apply andb_true_iff in Hn as [?%Nat.ltb_lt ?%Nat.leb_le].
    intros [= <-]. simpl. rewrite len_sdrop. lia.
  - intros [= <-]. simpl. lia.
  - destruct (n <=? _); [|done]. intros [= <-]. simpl. destruct (n =? _); lia.
  - intros [= <-]. simpl. lia.
Qed.

(** A loop that is not done can go on, without failing while its source is open. *)
Lemma half_progress h :
  hfState h ≠ Done → ∃ a h', half_step true a h = Some h' ∧ hfFailed h' = hfFailed h.
Proof.
  unfold half_step. destruct (hfState h) as [|chunk| |]; intros Hd.
  - destruct (hfInput h == "") eqn:He.
    + exists (DoRead 0). by eexists.
    + exists (DoRead (len (hfInput h))). cbn [negb]. rewrite Nat.leb_refl, andb_true_r.
      apply bool_decide_eq_false in He. destruct (hfInput h); [done|]. simpl. by eexists.
  - exists (DoWrite (len chunk)). simpl. rewrite Nat.leb_refl, Nat.eqb_refl. eexists. split; [done|].
    simpl. by rewrite orb_false_r.
  - exists DoClose. by eexists.
  - done.
Qed.

Lemma splice_step_cases kind e s s' :
  splice_step kind e s = Some s' →
  (∃ h, half_step (spOpen s) e.2 (spUpload s) = Some h ∧ e.1 = Upload ∧ s' = mkSpliced h (spDownload s) (spOpen s)) ∨
  (∃ h open, half_step true e.2 (spDownload s) = Some h ∧ e.1 = Download ∧ s' = mkSpliced (spUpload s) h open ∧
     (kind = TCPConn → open = spOpen s)).
Proof.
  unfold splice_step. destruct e as [[] a]; simpl.
  - intros (h & ? & [= <-])%bind_Some. left. by exists h.
  - intros (h & ? & [= <-])%bind_Some. right. exists h. eexists. split_and!; [done..|]. intros ->. by destruct a.
Qed.

Lemma run_spliced kind schedule client backend s s' :
  run kind schedule s = Some s' → half_ok client (spUpload s) → half_ok backend (spDownload s) →
  half_ok client (spUpload s') ∧ half_ok backend (spDownload s') ∧ length schedule + work s' ≤ work s ∧
  (kind = TCPConn → spOpen s' = spOpen s).
Proof.
  revert s. induction schedule as [|e rest IH]; intros s; simpl; [by intros [= <-]|].
  intros (s1 & H1 & H2)%bind_Some Hu Hd.
  apply splice_step_cases in H1 as [(h & H & _ & ->)|(h & open & H & _ & -> & Hk)];
    pose proof (half_step_work _ _ _ _ H); unfold work in *; simpl in *.
  - destruct (IH _ H2) as (? & ? & ? & ?); simpl; [by eapply half_step_ok|done|]. simpl in *. split_and!; [done..|lia|done].
  - destruct (IH _ H2) as (? & ? & ? & Hopen); simpl; [done|by eapply half_step_ok|]. simpl in *.
    split_and!; [done..|lia|]. intros Hx. by rewrite Hopen, Hk.
Qed.

Lemma run_halves kind schedule client backend s :
  run kind schedule (splice client backend) = Some s →
  (∃ rest, client = hfOutput (spUpload s) +:+ rest) ∧
  (∃ rest, backend = hfOutput (spDownload s) +:+ rest) ∧
  hfCount (spUpload s) = int64_wrap (Z.of_nat (len (hfOutput (spUpload s)))) ∧
  hfCount (spDownload s) = int64_wrap (Z.of_nat (len (hfOutput (spDownload s)))) ∧
  (hfState (spUpload s) = Done → hfFailed (spUpload s) = false → hfOutput (spUpload s) = client) ∧
  (hfState (spDownload s) = Done → hfFailed (spDownload s) = false → hfOutput (spDownload s) = backend).
Proof.
  intros Hrun. destruct (run_spliced kind schedule client backend _ _ Hrun) as (Hu & Hd & _);
    [apply half_ok_init..|].
  assert (∀ input h, half_ok input h → hfState h = Done → hfFailed h = false → hfOutput h = input) as Hall.
  { intros input h [? ? Ha ? He] Hst Hf. specialize (Ha Hf). rewrite (He Hf) in Ha by auto. unfold pending in Ha.
    by rewrite Hst, !app_empty_r in Ha. }
  split_and!; [by apply ho_prefix|by apply ho_prefix|by eapply ho_count|by eapply ho_count|by apply Hall|by apply Hall].
Qed.

(** The copy loops of a spliced connection take a bounded number of steps, never
    wait for each other, and with plain TCP connections can always go on without
    failing. *)
Theorem splice_terminates kind schedule client backend s :
  run kind schedule (splice client backend) = Some s →
  length schedule ≤ 2 * (len client + len backend) + 4 ∧
  (finished s = true ∨ ∃ e s', splice_step kind e s = Some s' ∧
     (kind = TCPConn → hfFailed (spUpload s') = hfFailed (spUpload s) ∧
                       hfFailed (spDownload s') = hfFailed (spDownload s))).
Proof.
  intros Hrun. destruct (run_spliced kind schedule client backend _ _ Hrun) as (Hu & Hd & Hw & Hopen);
    [apply half_ok_init..|]. unfold work at 2, half_work in Hw. simpl in Hw. split; [lia|]. simpl in Hopen.
  assert (hfState (spDownload s) = Done ∨ hfState (spDownload s) ≠ Done) as [HdD|HdD]
    by (destruct (hfState (spDownload s)); auto; by right).
  2: { right. destruct (half_progress (spDownload s) HdD) as (a & h & Ha & Hf). exists (Download, a).
       unfold splice_step. simpl. rewrite Ha. simpl. eexists. by split. }
  unfold finished. rewrite HdD. destruct (hfState (spUpload s)) eqn:HuS; [| | |by left]; right.
  all: destruct (spOpen s) eqn:Hop;
    [destruct (half_progress (spUpload s)) as (a & h & Ha & Hf); [by rewrite HuS|]; exists (Upload, a);
     unfold splice_step; simpl; rewrite Hop, Ha; eexists; by split|].
  - exists (Upload, FailRead). unfold splice_step, half_step. simpl. rewrite HuS. eexists. split; [done|].
    intros Hk. by specialize (Hopen Hk).
  - exists (Upload, DoWrite (len chunk)). unfold splice_step, half_step. simpl. rewrite HuS, Nat.leb_refl.
    eexists. split; [done|]. intros Hk. by specialize (Hopen Hk).
  - exists (Upload, DoClose). unfold splice_step, half_step. simpl. rewrite HuS. eexists. split; [done|].
    intros Hk. by specialize (Hopen Hk).
Qed.

(** What a finished connection delivered. *)
Lemma conclude_Forwarded {S} kind schedule (sel sel' : S) prefix client backend up down received sent :
  conclude kind schedule sel prefix client backend = Forwarded sel' up down received sent →
  ∃ s, run kind schedule (splice client backend) = Some s ∧ sel' = sel ∧
    up = prefix +:+ hfOutput (spUpload s) ∧ down = hfOutput (spDownload s) ∧
    received = int64_wrap (Z.of_nat (len up)) ∧ sent = int64_wrap (Z.of_nat (len down)) ∧
    (∃ rest, client = hfOutput (spUpload s) +:+ rest) ∧ (∃ rest, backend = down +:+ rest) ∧
    (hfFailed (spUpload s) = false → up = prefix +:+ client) ∧
    (hfFailed (spDownload s) = false → down = backend).
Proof.
  unfold conclude. destruct (run kind schedule _) as [s|] eqn:Hrun; [|done].
  destruct (finished s) eqn:Hf; [|done]. intros [= <- <- <- <- <-]. exists s.
  assert (hfState (spUpload s) = Done ∧ hfState (spDownload s) = Done) as [Hu Hd].
  { unfold finished in Hf. destruct (hfState (spUpload s)); try done. by destruct (hfState (spDownload s)). }
  destruct (run_halves kind schedule client backend s Hrun) as (H1 & H2 & H3 & H4 & H5 & H6).
  split_and!; try done.
  - rewrite H3, int64_wrap_add_l, len_app. f_equal. lia.
  - intros Hx. by rewrite H5.
  - auto.
Qed.

(** C40: A forwarded TCP connection went to the endpoint picked for its port;
    each side received a prefix of what the other sent, all of it unless that
    copy loop failed; and the byte counts reported are those of the bytes
    delivered. *)
Theorem tcp_bytes_forwarded {P} {picker : Picker P} kind port p p' dialed schedule client backend sel up down received sent :
  Serve kind port p dialed schedule client backend = (Forwarded sel up down received sent, p') →
  pickTCP port p = (Ok sel, p') ∧
  (∃ rest, client = up +:+ rest) ∧ (∃ rest, backend = down +:+ rest) ∧
  received = int64_wrap (Z.of_nat (len up)) ∧ sent = int64_wrap (Z.of_nat (len down)) ∧
  ∃ s, run kind schedule (splice client backend) = Some s ∧
       (hfFailed (spUpload s) = false → up = client) ∧ (hfFailed (spDownload s) = false → down = backend).
Proof.
  unfold Serve. destruct (pickTCP port p) as [[sel0|[]] p0]; try done. destruct dialed; [|done]. simpl.
  intros [= H <-]. apply conclude_Forwarded in H as (s & Hrun & -> & -> & -> & H1 & H2 & H3 & H4 & H5 & H6).
  split_and!; try done. by exists s.
Qed.

(** ** Concrete connections *)

Definition ex_exchange : list (Dir * Act) :=
  [(Upload, DoRead 2); (Download, DoRead 3); (Upload, DoWrite 2); (Upload, DoRead 2); (Download, DoWrite 3);
   (Upload, DoWrite 2); (Upload, DoRead 0); (Upload, DoClose); (Download, DoRead 0); (Download, DoClose)].

Example exchange :
  conclude TCPConn ex_exchange () "" "ping" "pon" = Forwarded () "ping" "pon" 4 3.
Proof. vm_compute. reflexivity. Qed.

Definition ex_tcp_state : Tables * EndpointsIndex * Store :=
  (mkTables {[ 5432%Z := mkPortTable "uid" "gw" false true false false false
     [ex_listener 10 "sql" "" [ex_route "r" [] [ex_wrr]]] None ]} ∅, ex_index, ∅).
Definition ex_tcp_selection : L4Selection := mkL4Selection "10.0.0.1:8080" "gw" "default/r" "default/a:80".

Lemma tcp_bytes_forwarded_witness :
  pickTCP 5432 ex_tcp_state = (Ok ex_tcp_selection, (Serve TCPConn 5432 ex_tcp_state true ex_exchange "ping" "pon").2) ∧
  ∃ s, run TCPConn ex_exchange (splice "ping" "pon") = Some s ∧ (hfFailed (spUpload s) = false → "ping" = "ping").
Proof.
  edestruct (tcp_bytes_forwarded TCPConn 5432 ex_tcp_state
    (Serve TCPConn 5432 ex_tcp_state true ex_exchange "ping" "pon").2 true ex_exchange "ping" "pon"
    ex_tcp_selection "ping" "pon" 4 3) as (H1 & _ & _ & _ & _ & s & H2 & H3 & _).
  - vm_compute. reflexivity.
  - split; [exact H1|]. exists s. split; [exact H2|exact H3].
Defined.

Lemma splice_terminates_witness :
  length ex_exchange ≤ 2 * (len "ping" + len "pon") + 4 ∧
  (finished (default (splice "" "") (run TCPConn ex_exchange (splice "ping" "pon"))) = true ∨
   ∃ e s', splice_step TCPConn e (default (splice "" "") (run TCPConn ex_exchange (splice "ping" "pon"))) = Some s').
Proof.
  destruct (splice_terminates TCPConn ex_exchange "ping" "pon"
    (default (splice "" "") (run TCPConn ex_exchange (splice "ping" "pon")))) as [H1 [H2|(e & s' & H2 & _)]].
  - vm_compute. reflexivity.
  - split; [exact H1|]. by left.
  - split; [exact H1|]. right. by exists e, s'.
Defined.

(** A backend that finishes first: a [TCPConn] still drains the client, a
    wrapped connection can only fail, and what the client had left is lost. *)
Definition ex_backend_first : list (Dir * Act) :=
  [(Download, DoRead 3); (Download, DoWrite 3); (Download, DoRead 0); (Upload, DoRead 2); (Upload, DoWrite 2);
   (Download, DoClose)].

Example wrapped_upload_truncated :
  (s ← run TCPConn ex_backend_first (splice "ping" "pon"); splice_step TCPConn (Upload, DoRead 2) s) ≠ None ∧
  (∀ n, (s ← run Wrapped ex_backend_first (splice "ping" "pon"); splice_step Wrapped (Upload, DoRead n) s) = None) ∧
  conclude Wrapped (ex_backend_first ++ [(Upload, FailRead); (Upload, DoClose)]) () "" "ping" "pon" =
    Forwarded () "pi" "pon" 2 3.
Proof. split_and!; [vm_compute; discriminate|reflexivity|vm_compute; reflexivity]. Qed.

End tcp.
