(* ===== verification/TlsStreams.v ===== *)
(** * The TLS stream path

    Models [internal/lib/transports/tls/forwarder.go] and [peek.go]: the
    ClientHello is read for its server name, and the connection is spliced
    with the backend of that name, still encrypted or after a session with
    the listener's certificate. *)

From S2P Require Import Prelude GoStrings Http Compiled Tables Matching Balancing Streams.
From stdpp Require Import options.

#[local] Open Scope nat_scope.
Import routing matching balancing.

Module tls.
Import tcp.

(** The ClientHello parser of [crypto/tls], by what it asks of the
    connection: another read, whose bytes it continues with (none at the end
    of the stream or past the deadline), the parsed server name, or an error
    before the hello was complete. *)
Inductive Parser :=
  | Need (continue : string → Parser)
  | Hello (serverName : string)
  | Bad.

Class TLSServer := {
  clientHello : Parser;
  (** The server side of a session over a client's bytes: whether the
      handshake with a certificate succeeds, and the plaintext. *)
  accepts : Certificate → string → bool;
  plaintext : Certificate → string → string;
}.

(** [Handshake] over the read-only connection: the sizes are those of the
    reads the network serves in time; the [TeeReader] records every byte. *)
Fixpoint handshake (p : Parser) (sizes : list nat) (recorded stream : string) : option string * string * string :=
  match p with
  | Need continue =>
      let n := match sizes with [] => 0 | n :: _ => 1 `max` n end in
      handshake (continue (stake n stream)) (tail sizes) (recorded +:+ stake n stream) (sdrop n stream)
  | Hello serverName => (Some serverName, recorded, stream)
  | Bad => (None, recorded, stream)
  end.

Definition peekClientHello {tls : TLSServer} (sizes : list nat) (stream : string) :
    option string * string * string := handshake clientHello sizes "" stream.

Class Picker (P : Type) := pickTLS : Z → string → P → result PickError TLSSelection * P.

#[global] Instance routing_picker `{!GoSort} : Picker (Tables * EndpointsIndex * Store) :=
  λ port sni p, let '(tables, idx, counters) := p in
                let '(picked, counters) := PickTLS tables port sni idx counters in
                (picked, (tables, idx, counters)).

(** What the network does to one connection. *)
Record Network := mkNetwork {
  nwSizes : list nat;
  nwDialed : bool;
  nwReplayed : bool;
  nwSchedule : list (Dir * Act);
  nwBackend : string;
}.

Definition forward (kind : ConnKind) (net : Network) (sel : TLSSelection) (prefix stream : string) :
    Outcome TLSSelection :=
  if negb (nwDialed net) then DialFailed sel
  else if (prefix != "") && negb (nwReplayed net) then ReplayFailed sel
  else conclude kind (nwSchedule net) sel prefix stream (nwBackend net).

(** The session reads the recorded bytes, then the connection; a [tls.Conn]
    is not a [TCPConn]. *)
Definition serveTerminated {tls : TLSServer} (net : Network) (sel : TLSSelection) (recorded stream : string) :
    Outcome TLSSelection :=
  match tsCertificate sel with
  | None => Refused
  | Some cert =>
      if accepts cert (recorded +:+ stream)
      then forward Wrapped net sel "" (plaintext cert (recorded +:+ stream))
      else Refused
  end.

Definition Serve {P} {picker : Picker P} {tls : TLSServer} (kind : ConnKind) (port : Z) (p : P) (net : Network)
    (client : string) : Outcome TLSSelection * P :=
  match peekClientHello (nwSizes net) client with
  | (None, _, _) => (Refused, p)
  | (Some sni, recorded, stream) =>
      let '(picked, p) := pickTLS port sni p in
      (match picked with
       | Err NoEndpoint => Refused
       | Err IndexPanic => Panicked
       | Ok sel => if tsTerminate sel then serveTerminated net sel recorded stream
                   else forward kind net sel recorded stream
       end, p)
  end.

(** ** The bytes peeked at are not lost *)

Lemma handshake_records p sizes recorded stream sni recorded' stream' :
  handshake p sizes recorded stream = (sni, recorded', stream') → recorded +:+ stream = recorded' +:+ stream'.
Proof.
  revert sizes recorded stream. induction p as [k IH|s|]; intros sizes recorded stream; simpl; [|by intros [= <- <- <-]..].
  intros <-%IH. by rewrite <-sapp_assoc, stake_sdrop.
Qed.

Lemma forward_Forwarded kind net sel sel' prefix stream up down received sent :
  forward kind net sel prefix stream = Forwarded sel' up down received sent →
  conclude kind (nwSchedule net) sel prefix stream (nwBackend net) = Forwarded sel' up down received sent.
Proof. unfold forward. destruct (nwDialed net); [|done]. simpl. by destruct (_ && _). Qed.

(** C27: Peeking at the ClientHello loses nothing: a forwarded TLS connection
    went to the endpoint picked for the server name of its hello, a passthrough
    backend receives the client's bytes from the very first one (all of them
    unless the copy failed), and a terminated session is run over the client's
    exact bytes with the listener's certificate and its plaintext is what the
    backend receives. *)
Theorem tls_stream_exact {P} {picker : Picker P} {tls : TLSServer} kind port p p' net client sel up down received sent :
  Serve kind port p net client = (Forwarded sel up down received sent, p') →
  ∃ sni hello stream s, peekClientHello (nwSizes net) client = (Some sni, hello, stream) ∧
    client = hello +:+ stream ∧ pickTLS port sni p = (Ok sel, p') ∧
    (∃ rest, nwBackend net = down +:+ rest) ∧
    if tsTerminate sel then
      ∃ cert, tsCertificate sel = Some cert ∧ accepts cert client = true ∧
        run Wrapped (nwSchedule net) (splice (plaintext cert client) (nwBackend net)) = Some s ∧
        (∃ rest, plaintext cert client = up +:+ rest) ∧
        (hfFailed (spUpload s) = false → up = plaintext cert client)
    else
      run kind (nwSchedule net) (splice stream (nwBackend net)) = Some s ∧
      (∃ rest, client = up +:+ rest) ∧ (∃ rest, up = hello +:+ rest) ∧
      (hfFailed (spUpload s) = false → up = client).
Proof.
  unfold Serve. destruct (peekClientHello (nwSizes net) client) as [[[sni|] hello] stream] eqn:Hpeek; [|done].
  pose proof (handshake_records _ _ _ _ _ _ _ Hpeek) as Hclient. rewrite app_empty_l in Hclient.
  destruct (pickTLS port sni p) as [[sel0|[]] p0] eqn:Hpick; try done. intros [= H <-].
  destruct (tsTerminate sel0) eqn:Hterm.
  - unfold serveTerminated in H. destruct (tsCertificate sel0) as [cert|] eqn:Hcert; [|done].
    rewrite <-Hclient in H. destruct (accepts cert client) eqn:Hacc; [|done].
    apply forward_Forwarded, conclude_Forwarded in H as (s & Hrun & -> & -> & -> & _ & _ & H3 & H4 & H5 & _).
    exists sni, hello, stream, s. rewrite Hterm. split_and!; try done. by exists cert.
  - apply forward_Forwarded, conclude_Forwarded in H as (s & Hrun & -> & -> & -> & _ & _ & [rest H3] & H4 & H5 & _).
    exists sni, hello, stream, s. rewrite Hterm. split_and!; try done.
    + exists rest. rewrite Hclient, H3. by rewrite sapp_assoc.
    + by eexists.
    + intros Hf. by rewrite H5, Hclient.
Qed.

(** ** Concrete connections *)

(** A toy hello: the name up to the first [;]. *)
Fixpoint ex_parse (fuel : nat) (seen : string) : Parser :=
  match fuel with
  | 0 => Bad
  | S fuel => Need (λ chunk,
      match cut (seen +:+ chunk) ";" with
      | Some (name, _) => Hello name
      | None => if (chunk == "") then Bad else ex_parse fuel (seen +:+ chunk)
      end)
  end.
Instance ex_tls : TLSServer := {|
  clientHello := ex_parse 10 "";
  accepts cert stream := (certPem cert != "");
  plaintext cert stream := stake 4 stream;
|}.

Definition ex_net : Network :=
  mkNetwork [6; 14] true true
    [(Upload, DoRead 4); (Upload, DoWrite 4); (Upload, DoRead 0); (Upload, DoClose);
     (Download, DoRead 2); (Download, DoWrite 2); (Download, DoRead 0); (Download, DoClose)] "ok".
Definition ex_tls_state : Tables * EndpointsIndex * Store := (ex_tls_tables, ex_index, ∅).

(** The hello is read in two pieces with some of what follows, and the
    backend still receives the client's bytes from the first one; another
    name, or no name in time, reaches no backend. *)
Example passthrough :
  (Serve TCPConn 443 ex_tls_state ex_net "a.example.com;abcdefdata").1 =
    Forwarded ex_tls_selection "a.example.com;abcdefdata" "ok" 24 2 ∧
  (Serve TCPConn 443 ex_tls_state ex_net "a.example.org;abcdefdata").1 = Refused ∧
  (Serve TCPConn 443 ex_tls_state (mkNetwork [6] true true [] "") "a.example.com;abcdefdata").1 = Refused.
Proof. split_and!; vm_compute; reflexivity. Qed.

Lemma tls_stream_exact_witness :
  ∃ sni hello stream s, peekClientHello (nwSizes ex_net) "a.example.com;abcdefdata" = (Some sni, hello, stream) ∧
    "a.example.com;abcdefdata" = hello +:+ stream ∧
    run TCPConn (nwSchedule ex_net) (splice stream "ok") = Some s.
Proof.
  edestruct (tls_stream_exact TCPConn 443 ex_tls_state
    (Serve TCPConn 443 ex_tls_state ex_net "a.example.com;abcdefdata").2 ex_net "a.example.com;abcdefdata"
    ex_tls_selection "a.example.com;abcdefdata" "ok" 24 2) as (sni & hello & stream & s & H1 & H2 & _ & _ & H3).
  - vm_compute. reflexivity.
  - exists sni, hello, stream, s. split; [exact H1|]. split; [exact H2|]. exact (proj1 H3).
Defined.

End tls.
