(* ===== verification/ControlPlane.v ===== *)
(** * The control-plane process

    Models [internal/config/config.go], the workers of
    [internal/app/controlplane] and the readiness body they read from the
    data plane ([State.Readyz] of
    [internal/lib/transports/http/routing/types.go]).

    The poller and the reconciler share the acknowledgement snapshot; the
    process is the state machine of their passes, whose inputs are what the
    Kubernetes API lists and what the data-plane pods answer. *)

From S2P Require Import Prelude GoStrings NetIP Sha256 Compiled Tables Build DataPlane Process Ports GatewayTypes References Listeners.
From S2P Require Import BackendTLS AuthDoc Extensions Compile Attach Params Publish Status Frontend Topology Engine.
From stdpp Require Import options.

#[local] Open Scope Z_scope.

(** ** Settings *)

Module config.

Inductive Level := LevelDebug | LevelInfo | LevelWarn | LevelError.

Record Settings := mkSettings {
  stMode : string;
  stControllerName : string;
  stSystemNamespace : string;
  stInternalPortMin : Z;
  stInternalPortMax : Z;
  stManagementPort : Z;
  stDashboardPort : Z;
  stLogLevel : Level;
}.

Inductive LoadError :=
  | InvalidInt (key : string)
  | InvalidPortRange (low high : Z)
  | InvalidLogLevel (level : string).

(** [os.Getenv]: the empty string when unset. *)
Definition Env : Type := string → string.

Definition envOr (env : Env) (key fallback : string) : string :=
  if (env key != "") then env key else fallback.

Definition envInt (env : Env) (key : string) (fallback : Z) : result LoadError Z :=
  if (env key == "") then Ok fallback else of_option (InvalidInt key) (atoi (env key)).

Definition logLevel (level : string) : option Level :=
  if (level == "debug") then Some LevelDebug
  else if (level == "info") then Some LevelInfo
  else if (level == "warn") then Some LevelWarn
  else if (level == "error") then Some LevelError
  else None.

Definition Load (env : Env) : result LoadError Settings :=
  low ← envInt env "KROUTER_INTERNAL_PORT_MIN" 10000;
  high ← envInt env "KROUTER_INTERNAL_PORT_MAX" 29999;
  management ← envInt env "KROUTER_MANAGEMENT_PORT" 9090;
  dashboard ← envInt env "KROUTER_DASHBOARD_PORT" 8080;
  _ ← guard_err (low <=? high) (InvalidPortRange low high);
  let name := envOr env "KROUTER_LOG_LEVEL" "info" in
  level ← of_option (InvalidLogLevel name) (logLevel name);
  Ok (mkSettings (env "KROUTER_MODE") (envOr env "KROUTER_CONTROLLER_NAME" "link-society.com/krouter")
        (envOr env "KROUTER_SYSTEM_NAMESPACE" "krouter-system") low high management dashboard level).

(** *** Start-up *)

Definition ModeControlPlane : string := "controlplane".
Definition ModeDataPlane : string := "dataplane".

(** The root actor a process runs. *)
Inductive Plane := ControlPlaneModule | DataPlaneModule.

(** [wiring.New]: the module of the configured mode. *)
Definition New (cfg : Settings) : option Plane :=
  if (stMode cfg == ModeControlPlane) then Some ControlPlaneModule
  else if (stMode cfg == ModeDataPlane) then Some DataPlaneModule
  else None.

(** [main]: the plane run, or the exit status. *)
Definition main (env : Env) : result Z (Settings * Plane) :=
  match Load env with
  | Err _ => Err 64
  | Ok cfg => match New cfg with None => Err 64 | Some plane => Ok (cfg, plane) end
  end.

(** A process runs a plane exactly when its environment is valid and names
    one, and exits with [EX_USAGE] otherwise. *)
Lemma main_runs env :
  (∃ cfg, Load env = Ok cfg ∧ env "KROUTER_MODE" ∈ [ModeControlPlane; ModeDataPlane] ∧
     ∃ plane, main env = Ok (cfg, plane) ∧
       (plane = ControlPlaneModule ↔ env "KROUTER_MODE" = ModeControlPlane)) ∨
  ((∀ cfg, Load env = Ok cfg → env "KROUTER_MODE" ∉ [ModeControlPlane; ModeDataPlane]) ∧ main env = Err 64).
Proof.
  unfold main. destruct (Load env) as [cfg|e] eqn:Hl; [|right; by split].
  assert (stMode cfg = env "KROUTER_MODE") as Hm.
  { unfold Load in Hl. repeat (apply bind_Ok in Hl as (? & _ & Hl)). by injection Hl as <-. }
  unfold New. rewrite Hm. case_bool_decide as H1; [|case_bool_decide as H2].
  - left. exists cfg. split; [done|]. split; [rewrite H1; left|]. by eexists.
  - left. exists cfg. split; [done|]. split; [rewrite H2; right; left|]. eexists. split; [done|]. by split.
  - right. split; [|done]. intros ? [= <-] Hin. rewrite !elem_of_cons, elem_of_nil in Hin. tauto.
Qed.

(** The part the engine reads. *)
Definition engine_settings (s : Settings) : engine.Settings :=
  engine.mkSettings (stControllerName s) (stInternalPortMin s) (stInternalPortMax s).

(** Accepted settings have a range of ports in order, inside [int], and a
    variable that is not a number is refused by name. *)
Lemma loaded_range env s :
  Load env = Ok s →
  -(2 ^ 63) ≤ stInternalPortMin s ≤ stInternalPortMax s ∧ stInternalPortMax s < 2 ^ 63 ∧
  stControllerName s ≠ "" ∧ stSystemNamespace s ≠ "".
Proof.
  assert (∀ key fallback v, -(2 ^ 63) ≤ fallback < 2 ^ 63 → envInt env key fallback = Ok v → -(2 ^ 63) ≤ v < 2 ^ 63) as Hint.
  { intros key fallback v Hf. unfold envInt. case_bool_decide; [by intros [= <-]|].
    destruct (atoi (env key)) as [x|] eqn:Hx; [|done]. intros [= <-]. by apply atoi_range in Hx. }
  assert (∀ key fallback, fallback ≠ "" → envOr env key fallback ≠ "") as Hor.
  { intros key fallback Hf. unfold envOr. case_bool_decide; simpl; congruence. }
  unfold Load. intros (low & Hlow & H)%bind_Ok. apply bind_Ok in H as (high & Hhigh & H).
  apply bind_Ok in H as (m & _ & H). apply bind_Ok in H as (d & _ & H). apply bind_Ok in H as ([] & Hg & H).
  apply bind_Ok in H as (level & _ & H). injection H as <-. simpl.
  apply Hint in Hlow, Hhigh; [|done..]. unfold guard_err in Hg. destruct (low <=? high) eqn:Hle; [|done].
  apply Z.leb_le in Hle. split_and!; try lia; by apply Hor.
Qed.

(** The range is not bounded by what a port can be. *)
Example port_range_unchecked :
  (λ s, (stInternalPortMin s, stInternalPortMax s)) <$>
    Load (λ key, if (key == "KROUTER_INTERNAL_PORT_MAX") then "70000" else "") = Ok (10000, 70000).
Proof. vm_compute. reflexivity. Qed.

End config.

(** ** The acknowledgement poller *)

Module ackpoller.
Import routing gatewayapi.

Definition PodRunning : string := "Running".
Definition PodReady : string := "Ready".
Definition ConditionTrue : string := "True".

(** The fields of a pod the poller reads; conditions as type and status. *)
Record Pod := mkPod {
  pdName : string;
  pdPhase : string;
  pdPodIP : string;
  pdHostIP : string;
  pdNodeName : string;
  pdConditions : list (string * string);
}.

Definition podIsReady (pod : Pod) : bool :=
  if (pdPhase pod != PodRunning) || (pdPodIP pod == "") then false
  else match list_find (λ c, c.1 = PodReady) (pdConditions pod) with
       | Some (_, c) => (c.2 == ConditionTrue)
       | None => false
       end.

(** The readiness body as JSON, written by the data plane and read here. *)
Definition ack_of (st : GatewayStatus) : GatewayAck :=
  mkGatewayAck (gsDesiredGeneration st) (gsAppliedGeneration st) (default "" (gsLastError st)).

Class ReadinessJSON := {
  encodeReady : bool → gmap string GatewayStatus → string;
  decodeReady : string → option (bool * gmap string GatewayAck);
  decode_encode_ready ready statuses :
    decodeReady (encodeReady ready statuses) = Some (ready, ack_of <$> statuses);
}.

Section poller.
Context {json : ReadinessJSON}.

(** [State.Readyz] of the data plane. *)
Definition Readyz (s : State) : string * Z := (encodeReady true (stStatuses s), 200).

Definition readyz_url (ip : string) (port : Z) : string := "http://" +:+ ip +:+ ":" +:+ pretty port +:+ "/readyz".

(** [fetch]; [get] is the answer of an HTTP request, whatever its status. *)
Definition fetch (get : string → option string) (port : Z) (ip : string) : option (gmap string GatewayAck) :=
  body ← get (readyz_url ip port);
  '(ready, gateways) ← decodeReady body;
  if ready : bool then Some gateways else None.

Definition pod_ack (get : string → option string) (port : Z) (pod : Pod) : PodAck :=
  let silent := mkPodAck false (pdPodIP pod) (pdHostIP pod) (pdNodeName pod) ∅ in
  if podIsReady pod then
    match fetch get port (pdPodIP pod) with
    | Some gateways => mkPodAck true (pdPodIP pod) (pdHostIP pod) (pdNodeName pod) gateways
    | None => silent
    end
  else silent.

(** [poll]: a failed listing publishes nothing. *)
Definition poll (port : Z) (listing : option (list Pod)) (get : string → option string) (out : AckState) : AckState :=
  match listing with
  | None => out
  | Some pods => mkAckState (fold_left (λ m pod, <[pdName pod := pod_ack get port pod]> m) pods ∅)
  end.

Lemma fold_insert_lookup {A} (f : Pod → A) pods (m : gmap string A) name :
  NoDup (pdName <$> pods) →
  fold_left (λ m pod, <[pdName pod := f pod]> m) pods m !! name =
    match list_find (λ pod, pdName pod = name) pods with Some (_, pod) => Some (f pod) | None => m !! name end.
Proof.
  revert m. induction pods as [|pod pods IH]; intros m; [done|]. intros [Hnin Hnd]%list.NoDup_cons. simpl.
  rewrite IH by done. case_decide as Hp; simpl.
  - destruct (list_find _ pods) as [[i pod']|] eqn:Hf; simpl.
    + apply list_find_Some in Hf as (Hi & Hn & _). destruct Hnin. rewrite Hp, <-Hn.
      apply list_elem_of_fmap. exists pod'. split; [done|]. by eapply list_elem_of_lookup_2.
    + by rewrite Hp, lookup_insert_eq.
  - destruct (list_find _ pods) as [[i pod']|] eqn:Hf; simpl; [done|]. by rewrite lookup_insert_ne.
Qed.

(** A healthy entry is a ready pod that answered, and its gateways are the
    answer. *)
Lemma poll_healthy port pods get out name ack :
  NoDup (pdName <$> pods) → asPods (poll port (Some pods) get out) !! name = Some ack → paHealthy ack = true →
  ∃ pod, pod ∈ pods ∧ pdName pod = name ∧ podIsReady pod = true ∧ fetch get port (pdPodIP pod) = Some (paGateways ack).
Proof.
  intros Hnd. simpl. rewrite fold_insert_lookup by done.
  destruct (list_find _ pods) as [[i pod]|] eqn:Hf; [|by rewrite lookup_empty]. intros [= <-].
  apply list_find_Some in Hf as (Hi & Hn & _). unfold pod_ack. destruct (podIsReady pod) eqn:Hr; [|done].
  destruct (fetch get port (pdPodIP pod)) as [gs|] eqn:Hg; [|done]. intros _. exists pod.
  split; [by eapply list_elem_of_lookup_2|done].
Qed.

Lemma poll_answered port pods get out pod gateways :
  NoDup (pdName <$> pods) → pod ∈ pods → podIsReady pod = true → fetch get port (pdPodIP pod) = Some gateways →
  asPods (poll port (Some pods) get out) !! pdName pod =
    Some (mkPodAck true (pdPodIP pod) (pdHostIP pod) (pdNodeName pod) gateways).
Proof.
  intros Hnd Hin Hr Hf. simpl. rewrite fold_insert_lookup by done.
  destruct (list_find (λ p, pdName p = pdName pod) pods) as [[i pod']|] eqn:Hl.
  - apply list_find_Some in Hl as (Hi & Hn & _).
    assert (pod' = pod) as ->; [|by unfold pod_ack; rewrite Hr, Hf].
    apply list_elem_of_lookup in Hin as [j Hj].
    assert (i = j) as ->; [|congruence].
    eapply (NoDup_lookup (pdName <$> pods)); [done|..]; rewrite list_lookup_fmap; [by rewrite Hi|rewrite Hj; simpl; congruence].
  - apply list_find_None in Hl. rewrite Forall_forall in Hl. apply list_elem_of_In in Hin. by destruct (Hl pod Hin).
Qed.

End poller.
End ackpoller.

(** ** The process *)

Module controlplane.
Import gatewayv1 gatewayapi references listeners backendtls attach hclparams publish status topology engine ackpoller.

Section process.
Context {k8s : Kubernetes} {libs : build.Libraries} {srt : GoSort} {hcl : authdoc.HCL}.
Context {enc : extensions.Encoding} {params : hclparams.ParamsHCL} {env : publish.Environment} {api : frontend.FrontendAPI}.
Context {texts : StatusTexts} {server : StatusServer} {rendering : Rendering} {pjson : ports.PortMapJSON}.
Context {order : EngineOrder} {json : ReadinessJSON}.

(** The snapshots the workers share, and what the reconciler writes. *)
Record Process := mkProcess {
  cpAcks : AckState;
  cpTopology : Topology;
  cpVersion : string;
  cpStore : publish.Store;
  cpFronts : frontend.Frontends;
  cpStatuses : Statuses;
}.

Definition booted (store : publish.Store) (fronts : frontend.Frontends) (statuses : Statuses) : Process :=
  mkProcess EmptyAckState EmptyTopology "" store fronts statuses.

(** One pass of either worker. *)
Inductive Event :=
  | Poll (listing : option (list Pod)) (get : string → option string)
  | Reconcile (lists : ClusterLists).

Definition step (settings : config.Settings) (e : Event) (p : Process) : option Process :=
  match e with
  | Poll listing get =>
      Some (mkProcess (poll (config.stManagementPort settings) listing get (cpAcks p)) (cpTopology p) (cpVersion p)
              (cpStore p) (cpFronts p) (cpStatuses p))
  | Reconcile lists =>
      '(store, fronts, statuses, version, topo) ←
        Sync (lists := lists) (config.engine_settings settings) (cpAcks p) (cpVersion p) (cpStore p) (cpFronts p)
          (cpStatuses p);
      Some (mkProcess (cpAcks p) (default (cpTopology p) topo) version store fronts statuses)
  end.

Fixpoint run (settings : config.Settings) (events : list Event) (p : Process) : option Process :=
  match events with [] => Some p | e :: rest => step settings e p ≫= run settings rest end.

(** *** What the data plane acknowledges *)

Section acknowledgements.
Context {mail : dataplane.Mailbox}.
Context (decodeManifest : string → result string compiled.Manifest) (errorText : build.BuildError → string).

Definition acknowledged (w : loader.worker) : Prop :=
  ∀ uid st, routing.stStatuses (loader.wState w) !! uid = Some st → routing.gsAppliedGeneration st ≠ "" →
    ∃ t, loader.wApplied w !! uid = Some t ∧ routing.gtGeneration t = routing.gsAppliedGeneration st.

(** The same of the maps of a pass. *)
Definition acknowledged_pass (p : loader.pass) : Prop :=
  ∀ uid st, loader.paStatuses p !! uid = Some st → routing.gsAppliedGeneration st ≠ "" →
    ∃ t, loader.paApplied p !! uid = Some t ∧ routing.gtGeneration t = routing.gsAppliedGeneration st.

Lemma acknowledged_insert p uid t st next :
  acknowledged_pass p → routing.gsAppliedGeneration st = routing.gtGeneration t →
  acknowledged_pass (loader.mkPass (<[uid := t]> (loader.paApplied p)) (<[uid := st]> (loader.paStatuses p)) next).
Proof.
  intros Hp Ht u st'. simpl. rewrite !lookup_insert. case_decide; [intros [= <-] _; by exists t|apply Hp].
Qed.

Lemma acknowledged_rejected w uid d e p next :
  acknowledged w → acknowledged_pass p → loader.paApplied p !! uid = None →
  acknowledged_pass (loader.rejected w uid d e p next).
Proof.
  intros Hw Hp Hn. unfold loader.rejected. destruct (loader.wApplied w !! uid) as [t|] eqn:Ht.
  - by apply acknowledged_insert.
  - intros u st. simpl. rewrite lookup_insert. case_decide; [|apply Hp]. subst u. intros [= <-]. simpl.
    destruct (routing.stStatuses (loader.wState w) !! uid) as [prev|] eqn:Hprev; [|done].
    intros Hne. destruct (Hw uid prev Hprev Hne) as (t & ? & _). congruence.
Qed.

Lemma acknowledged_load_cm w raw p cm :
  acknowledged w → acknowledged_pass p →
  (∀ uid, loader.manifest_uid cm = Some uid → loader.paApplied p !! uid = None) →
  acknowledged_pass (loader.load_cm decodeManifest errorText w raw p cm).
Proof.
  intros Hw Hp Hfresh. unfold loader.load_cm. destruct (loader.manifest_uid cm) as [uid|]; [|done].
  specialize (Hfresh uid eq_refl). destruct (decodeManifest _) as [m|e]; [|by apply acknowledged_rejected].
  unfold loader.load_manifest.
  destruct (loader.wApplied w !! uid) as [t|] eqn:Ht; [case_bool_decide|];
    try (destruct (build.LoadGeneration _ _ _ _ _) as [[t' n]|e] eqn:Hl; [|by apply acknowledged_rejected]);
    apply acknowledged_insert; simpl; try done; symmetry; by eapply loader.LoadGeneration_generation.
Qed.

Lemma acknowledged_reachable w : loader.reachable decodeManifest errorText w → acknowledged w.
Proof.
  intros Hr. unfold loader.reachable in Hr. remember loader.initial as w0 eqn:Hw0.
  assert (acknowledged w0) as H0 by (subst; intros uid st; simpl; by rewrite lookup_empty). clear Hw0.
  induction Hr as [w|w w1 w2 Hs _ IH]; [done|]. apply IH. destruct Hs as [raw ord gateways _ Hnd _].
  enough (acknowledged_pass (loader.rebuild_pass decodeManifest errorText w raw ord)) by done.
  unfold loader.rebuild_pass. clear IH gateways.
  induction ord as [|cm ord IHo] using rev_ind; [intros uid st; simpl; by rewrite lookup_empty|].
  rewrite fold_left_app. simpl. apply acknowledged_load_cm; [done|..].
  - apply IHo. rewrite omap_app in Hnd. by apply list.NoDup_app in Hnd as (? & _).
  - intros uid Hu. rewrite loader.load_cms_other; [apply lookup_empty|].
    apply loader.omap_uid_notin. by eapply loader.omap_snoc_NoDup.
Qed.

(** A poll whose pods have distinct names and whose answers come from
    data-plane processes, at any moment of their runs. *)
Definition honest (e : Event) : Prop :=
  match e with
  | Poll (Some pods) get =>
      NoDup (pdName <$> pods) ∧
      ∀ url body, get url = Some body →
        ∃ raws dp, dataplane.reached decodeManifest errorText raws dp ∧ Forall dataplane.distinct raws ∧
          body = (Readyz (dataplane.prState dp)).1
  | _ => True
  end.

End acknowledgements.

(** The acknowledgements are those of a poll. *)
Lemma acks_polled settings events p p' :
  run settings events p = Some p' →
  cpAcks p' = cpAcks p ∨
  ∃ pods get out, Poll (Some pods) get ∈ events ∧ cpAcks p' = poll (config.stManagementPort settings) (Some pods) get out.
Proof.
  revert p. induction events as [|e events IH]; intros p; simpl; [intros [= <-]; by left|].
  intros (p1 & H1 & H2)%bind_Some. destruct (IH p1 H2) as [Heq|(pods & get & out & Hin & Heq)].
  2: { right. exists pods, get, out. split; [by right|done]. }
  destruct e as [[pods|] get|lists]; simpl in H1.
  - injection H1 as <-. right. exists pods, get, (cpAcks p). split; [by left|]. by rewrite Heq.
  - injection H1 as <-. by left.
  - apply bind_Some in H1 as ([[[[? ?] ?] ?] ?] & _ & [= <-]). by left.
Qed.

(** A Gateway reported programmed was published, and every pod with a
    healthy acknowledgement names its generation. *)
Lemma reconcile_programmed w gw s s' input gen :
  reconcile w gw s = Some (s', Some (input, gen)) → conditionTrue (giProgrammed input) = true →
  gen ≠ "" ∧ AllAcked (wAcks w) (omUID (gwMeta gw)) gen = true.
Proof.
  unfold reconcile. cbv zeta. destruct (gateway_params gw) as [infra|message]; [|by intros [= <- <- <-]].
  destruct (gaUnsupportedType (validateGatewayAddresses w gw)) eqn:Hu.
  { intros [= <- <- <-]. unfold refused_input, gatewayConditions. by rewrite Hu. }
  intros (ls & outcomes & address & Hp & ->)%serve_gateway_report. unfold served_input.
  destruct (gatewayConditions _ _ _ _ _ _) as [accepted programmed] eqn:Hc. cbn [giProgrammed]. intros Ht.
  assert (conditionTrue (gatewayConditions gw None (validateGatewayAddresses w gw)
    ((0 <? valid_count ls)%Z && AllAcked (wAcks w) (omUID (gwMeta gw)) gen) (valid_count ls) (invalid_own_count ls)).2 = true)
    as (_ & _ & _ & _ & [_ Ha]%andb_true_iff)%programmed_iff by (by rewrite Hc).
  split; [|done]. assert (∃ p, gen = generation_of p) as [p ->].
  { eexists. unfold publishGeneration in Hp. repeat (case_match; try done). by simplify_eq. }
  intros Hx. apply (f_equal len) in Hx. unfold generation_of, compiled.GenerationID in Hx.
  rewrite len_stake, len_sha256_hex in Hx. done.
Qed.

Definition answers (port : Z) (get : string → option string) (pod : Pod) : Prop :=
  podIsReady pod = true ∧ is_Some (fetch get port (pdPodIP pod)).

Lemma answer_serves {mail : dataplane.Mailbox} decodeManifest errorText pods get port pod uid gen ack :
  honest decodeManifest errorText (Poll (Some pods) get) →
  fetch get port (pdPodIP pod) = Some (paGateways ack) →
  (∃ a, paGateways ack !! uid = Some a ∧ gaAppliedGeneration a = gen) → gen ≠ "" →
  ∃ raws dp, dataplane.reached decodeManifest errorText raws dp ∧
    get (readyz_url (pdPodIP pod) port) = Some (Readyz (dataplane.prState dp)).1 ∧
    dataplane.serves decodeManifest errorText raws dp uid gen.
Proof.
  intros [_ Hget] Hf (a & Ha & Hgen) Hne. unfold fetch in Hf.
  apply bind_Some in Hf as (body & Hb & Hf). destruct (Hget _ _ Hb) as (raws & dp & Hr & Hdist & ->).
  unfold Readyz in Hf. simpl in Hf. rewrite decode_encode_ready in Hf. simpl in Hf. injection Hf as Hg.
  rewrite <-Hg, lookup_fmap in Ha. apply fmap_Some in Ha as (st & Hst & ->). simpl in Hgen.
  destruct (dataplane.acknowledged_state _ _ raws dp Hr) as (done & w & Hpre & Hl & Hs & Hserved).
  rewrite Hs in Hst. assert (Forall dataplane.distinct done) as Hdone by (destruct Hpre as [? ->]; by apply Forall_app in Hdist as [? _]).
  destruct (acknowledged_reachable _ _ w (dataplane.loads_reachable _ _ _ _ Hl Hdone) uid st Hst) as (t & Ht & Hx); [congruence|].
  exists raws, dp. split; [done|]. split; [done|]. exists done, w, t. split_and!; [done..|congruence|done].
Qed.

End process.

(** C18: In the control-plane process, when the engine reports a Gateway as
    programmed at a generation, some poll of the data-plane pods explains it: at
    least one ready pod answered, and behind every ready pod that answered is a
    data-plane process, at whatever moment of its run, that has loaded, verified
    and applied that very generation for the Gateway and serves the tables it
    was merged into, or those of the next configuration already. *)
Theorem programmed_is_served {k8s : Kubernetes} {libs : build.Libraries} {srt : GoSort} {hcl : authdoc.HCL}
    {enc : extensions.Encoding} {params : ParamsHCL} {env : Environment} {api : frontend.FrontendAPI}
    {texts : StatusTexts} {server : StatusServer} {rendering : Rendering} {pjson : ports.PortMapJSON}
    {order : EngineOrder} {json : ReadinessJSON} {mail : dataplane.Mailbox}
    decodeManifest errorText settings store fronts statuses events p w gw s s' input gen :
  run settings events (booted store fronts statuses) = Some p →
  Forall (honest decodeManifest errorText) events →
  wAcks w = cpAcks p → reconcile w gw s = Some (s', Some (input, gen)) →
  conditionTrue (giProgrammed input) = true →
  ∃ pods get, Poll (Some pods) get ∈ events ∧
    (∃ pod, pod ∈ pods ∧ answers (config.stManagementPort settings) get pod) ∧
    ∀ pod, pod ∈ pods → answers (config.stManagementPort settings) get pod →
      ∃ raws dp, dataplane.reached decodeManifest errorText raws dp ∧
        get (readyz_url (pdPodIP pod) (config.stManagementPort settings)) = Some (Readyz (dataplane.prState dp)).1 ∧
        dataplane.serves decodeManifest errorText raws dp (omUID (gwMeta gw)) gen.
Proof.
  intros Hrun Hhon Hw Hrec Hprog. destruct (reconcile_programmed w gw s s' input gen Hrec Hprog) as [Hne Hall].
  rewrite AllAcked_true, Hw in Hall. destruct Hall as [(name & pod & Hpod & Hh) Hall].
  destruct (acks_polled settings events _ p Hrun) as [Heq|(pods & get & out & Hin & Heq)].
  { rewrite Heq in Hpod. simpl in Hpod. by rewrite lookup_empty in Hpod. }
  assert (honest decodeManifest errorText (Poll (Some pods) get)) as Hhonest.
  { rewrite Forall_forall in Hhon. by apply Hhon, list_elem_of_In. }
  pose proof Hhonest as [Hnd _]. exists pods, get. split; [done|]. rewrite Heq in Hpod, Hall. split.
  - destruct (poll_healthy _ _ _ _ _ _ Hnd Hpod Hh) as (pd & ? & _ & ? & Hf). exists pd. split; [done|]. split; [done|].
    by eexists.
  - intros pd Hpd [Hr [gateways Hf]]. pose proof (poll_answered _ _ _ out _ _ Hnd Hpd Hr Hf) as Hack.
    eapply answer_serves; [done| |by apply (Hall _ _ Hack)|done]. done.
Qed.

(** ** A concrete cluster *)

Definition ack_tuple (st : routing.GatewayStatus) : string * string * string :=
  (routing.gsDesiredGeneration st, routing.gsAppliedGeneration st, default "" (routing.gsLastError st)).
Definition tuple_ack (t : string * string * string) : GatewayAck := mkGatewayAck t.1.1 t.1.2 t.2.

#[refine] Instance ex_ready_json : ReadinessJSON := {|
  encodeReady ready statuses := pos_bits (encode (ready, ack_tuple <$> statuses));
  decodeReady body :=
    (λ x : bool * gmap string (string * string * string), (x.1, tuple_ack <$> x.2)) <$> (bits_pos body ≫= decode);
|}.
Proof.
  intros ready statuses. rewrite bits_pos_bits. simpl. rewrite countable.decode_encode. simpl.
  do 2 f_equal. rewrite <-map_fmap_compose. by apply map_fmap_ext.
Defined.

(** A data plane that loaded the generation the engine publishes. *)
Definition ex_uid : string := "12345678-abcd".
Definition ex_served_manifest : compiled.Manifest :=
  compiled.mkManifest ex_uid ex_gen "" (compiled.mfObjects build.ex_manifest).
Definition ex_served_decode : string → result string compiled.Manifest :=
  build.decode_one "MANIFEST" ex_served_manifest.
Definition ex_owned (labels : gmap string string) : gmap string string := <[compiled.LabelGatewayUID := ex_uid]> labels.
Definition ex_served_raw : configwatcher.RawConfig :=
  configwatcher.mkRawConfig
    (<["manifest" := build.mkConfigMap
          (ex_owned {[ compiled.LabelRole := compiled.RoleManifest ]}) {[ compiled.ManifestKey := "MANIFEST" ]}]>
       ((λ cm, build.mkConfigMap (ex_owned (build.cmLabels cm)) (build.cmData cm)) <$> build.ex_configmaps))
    {[ "tls" := build.mkSecret (ex_owned (build.scLabels build.ex_secret)) (build.scData build.ex_secret) ]}.
Definition ex_dataplane : dataplane.Process (mail := dataplane.ex_mailbox) :=
  dataplane.ex_acknowledged (libs := build.ex_libs) ex_served_decode loader.ex_text ex_served_raw.
Definition ex_polled_raws : list configwatcher.RawConfig := (dataplane.ex_polled ex_served_raw).1.

Lemma ex_dataplane_reached :
  dataplane.reached (libs := build.ex_libs) ex_served_decode loader.ex_text ex_polled_raws ex_dataplane.
Proof.
  apply (dataplane.ex_acknowledged_reached (libs := build.ex_libs) ex_served_decode loader.ex_text ex_served_raw);
    vm_compute; reflexivity.
Qed.

Lemma ex_polled_distinct : Forall dataplane.distinct ex_polled_raws.
Proof.
  assert (ex_polled_raws = [ex_served_raw]) as -> by (vm_compute; reflexivity).
  apply Forall_singleton. unfold dataplane.distinct. apply (bool_decide_unpack _). vm_compute. exact I.
Qed.

Definition ex_pods : list Pod :=
  [mkPod "a" "Running" "10.1.0.1" "192.0.2.1" "n1" [("Initialized", "True"); ("Ready", "True")];
   mkPod "b" "Pending" "" "192.0.2.2" "n2" []].
Definition ex_get (url : string) : option string :=
  if (url == "http://10.1.0.1:9090/readyz") then Some (Readyz (dataplane.prState ex_dataplane)).1 else None.

Example polled :
  poll 9090 (Some ex_pods) ex_get EmptyAckState =
    mkAckState (<["b" := mkPodAck false "" "192.0.2.2" "n2" ∅]> (asPods ex_acked)).
Proof. vm_compute. reflexivity. Qed.

Definition ex_settings : config.Settings :=
  config.mkSettings "controlplane" "link-society.com/krouter" "krouter-system" 10000 29999 9090 8080 config.LevelInfo.
Definition ex_booted : Process := booted (enStore ex_pass) (enFronts ex_pass) (enStatuses ex_pass).

Lemma programmed_is_served_witness :
  ∃ pods get, Poll (Some pods) get ∈ [Poll (Some ex_pods) ex_get] ∧
    ∃ raws dp, dataplane.reached (libs := build.ex_libs) (mail := dataplane.ex_mailbox) ex_served_decode loader.ex_text raws dp ∧
      dataplane.serves (libs := build.ex_libs) ex_served_decode loader.ex_text raws dp ex_uid ex_gen.
Proof.
  assert (Hp : match ex_reconcile (poll 9090 (Some ex_pods) ex_get EmptyAckState) with
               | Some (_, Some (input, gen)) => conditionTrue (giProgrammed input) && (gen == ex_gen) | _ => false end = true)
    by (vm_compute; reflexivity).
  destruct (ex_reconcile (poll 9090 (Some ex_pods) ex_get EmptyAckState)) as [[s' [[input gen]|]]|] eqn:Hr; [|done..].
  apply andb_true_iff in Hp as [Hp ->%bool_decide_eq_true].
  destruct (@programmed_is_served ex_cluster build.ex_libs stable_GoSort authdoc.ex_hcl extensions.ex_enc
    ex_default_hcl (ex_env no_faults) frontend.ex_api ex_texts ex_server ex_forward ports.ex_json ex_order ex_ready_json dataplane.ex_mailbox
    ex_served_decode loader.ex_text ex_settings (enStore ex_pass) (enFronts ex_pass) (enStatuses ex_pass)
    [Poll (Some ex_pods) ex_get]
    (mkProcess (poll 9090 (Some ex_pods) ex_get EmptyAckState) EmptyTopology "" (enStore ex_pass) (enFronts ex_pass)
       (enStatuses ex_pass))
    (ex_sync_world (poll 9090 (Some ex_pods) ex_get EmptyAckState)) frontend.ex_front_gw ex_pass s' input ex_gen)
    as (pods & get & Hin & (pod & Hpod & Ha) & Hserved).
  - reflexivity.
  - constructor; [|constructor]. split.
    + apply (bool_decide_unpack _). vm_compute. exact I.
    + intros url body. unfold ex_get. case_bool_decide; [|discriminate]. intros Hbody%(inj Some).
      exists ex_polled_raws, ex_dataplane.
      split; [exact ex_dataplane_reached|]. split; [exact ex_polled_distinct|exact (eq_sym Hbody)].
  - reflexivity.
  - exact Hr.
  - exact Hp.
  - exists pods, get. split; [exact Hin|]. destruct (Hserved pod Hpod Ha) as (raws & dp & H1 & _ & H2).
    exists raws, dp. split; [exact H1|exact H2].
Defined.

End controlplane.
