(* ===== verification/EndToEnd.v ===== *)
(** * From publication to acknowledgement

    The path of a generation through both planes: [publishGeneration] writes
    it ([Publish]), a data-plane process lists, loads and acknowledges it
    ([Process]), and the control plane's poll reads the acknowledgement
    ([ControlPlane]). *)

From S2P Require Import Prelude GoStrings NetIP Sha256 Compiled Tables Build DataPlane Process Ports GatewayTypes References Listeners.
From S2P Require Import BackendTLS AuthDoc Extensions Compile Attach Params Publish Engine ControlPlane.
From stdpp Require Import options.

#[local] Open Scope Z_scope.

Module endtoend.
Import gatewayv1 gatewayapi references listeners backendtls attach hclparams publish ackpoller.

(** A listing of the objects of a store.  The watcher selects them by the
    managed-by label, which every object of the store is taken to carry, as
    those the publisher writes do. *)
Definition lists (st : Store) (raw : configwatcher.RawConfig) : Prop :=
  configwatcher.rwConfigMaps raw = stCMs st ∧ configwatcher.rwSecrets raw = stSecrets st ∧ dataplane.distinct raw.

Section acknowledgement.
Context {env : Environment} {libs : build.Libraries} {json : ReadinessJSON} {mail : dataplane.Mailbox}.
Context (decodeManifest : string → result string compiled.Manifest) (errorText : build.BuildError → string).

(** A data-plane process whose last configuration is a listing of [st] and
    that has caught up with it. *)
Definition took (st : Store) (p : dataplane.Process) : Prop :=
  ∃ raws raw, lists st raw ∧ dataplane.reached decodeManifest errorText (raws ++ [raw]) p ∧ dataplane.caught_up p.

Lemma took_acknowledges st uid m p :
  committed st uid m → uid ≠ "" → decodeManifest (marshalManifest m) = Ok m →
  (∀ previous next, ∃ t, build.LoadGeneration m (stCMs st) (stSecrets st) previous next = Ok t) →
  took st p →
  routing.stStatuses (dataplane.prState p) !! uid =
    Some (routing.mkGatewayStatus (compiled.mfGeneration m) (compiled.mfGeneration m) None).
Proof.
  intros (cm & Hcm & Hdata & Hrole & Huid) Hne Hdec Hload (raws & raw & (Hcms & Hsec & Hdist) & Hr & Hc).
  eapply dataplane.taken; [exact Hr|done|done|by rewrite Hcms|..].
  - unfold loader.manifest_uid. rewrite Hrole, bool_decide_eq_true_2 by done. simpl.
    by rewrite Huid, bool_decide_eq_false_2.
  - rewrite Hdata. unfold build.at_key, manifest_data. rewrite lookup_singleton_eq. exact Hdec.
  - by rewrite Hcms, Hsec.
Qed.

(** A poll whose ready pods, at least one, are all served by processes with
    one status of a Gateway counts as acknowledged by all. *)
Lemma poll_all_acked port pods get out uid gen :
  NoDup (pdName <$> pods) → (∃ pod, pod ∈ pods ∧ podIsReady pod = true) →
  (∀ pod, pod ∈ pods → podIsReady pod = true → ∃ s st,
     get (readyz_url (pdPodIP pod) port) = Some (Readyz s).1 ∧ routing.stStatuses s !! uid = Some st ∧
     routing.gsAppliedGeneration st = gen) →
  AllAcked (poll port (Some pods) get out) uid gen = true.
Proof.
  intros Hnd (pod0 & Hin0 & Hready0) Hall.
  assert (∀ pod, pod ∈ pods → podIsReady pod = true → ∃ gateways ack,
    fetch get port (pdPodIP pod) = Some gateways ∧ gateways !! uid = Some ack ∧ gaAppliedGeneration ack = gen) as Hf.
  { intros pod Hin Hr. destruct (Hall pod Hin Hr) as (s & st & Hg & Hs & Ha).
    exists (ack_of <$> routing.stStatuses s), (ack_of st). split; [|by rewrite lookup_fmap, Hs].
    unfold fetch. rewrite Hg. simpl. by rewrite decode_encode_ready. }
  rewrite AllAcked_true. split.
  - destruct (Hf pod0 Hin0 Hready0) as (gateways & ack & Hg & _).
    eexists (pdName pod0), _. split; [by eapply poll_answered|done].
  - intros name ack Ha Hh. destruct (poll_healthy _ _ _ _ _ _ Hnd Ha Hh) as (pod & Hin & _ & Hr & Hg).
    destruct (Hf pod Hin Hr) as (gateways & a & Hg' & Hlook & Hgen'). rewrite Hg in Hg'. injection Hg' as ->. by exists a.
Qed.

End acknowledgement.

(** C3: What the control plane publishes the data plane takes and acknowledges:
    when a Gateway's validated listeners, attached routes, parsed parameters and
    backend certificate are published without an error, every data-plane process
    that caught up with a listing of the resulting objects, whatever it loaded
    before and however its actors interleave, reports the new generation as
    desired and applied without an error, and once every ready pod, at least
    one, is served by such a process the next poll counts the generation as
    acknowledged by all; provided names, labels and contents agreed before, JSON
    returns the payloads and a bundle the control plane accepts is one the data
    plane can use. *)
Theorem published_is_acknowledged {env : Environment} {k8s : Kubernetes} {libs : build.Libraries} {hcl : authdoc.HCL}
    {enc : extensions.Encoding} {params : ParamsHCL} {json : ReadinessJSON} {mail : dataplane.Mailbox}
    decodeManifest errorText w gw sets a src infra st gen st' pods get port out :
  let ls := (validateListeners w gw sets a).1 in
  let '(outcomes, counted) := attach_routes w gw sets ls in
  let cert := resolveBackendClientCert w gw in
  let uid := omUID (gwMeta gw) in
  let p := publication gw infra counted outcomes cert in
  ports.allocator_ok a → ports.range_ok a → ParseInfra src = Ok infra →
  (∀ pem, validCAPem pem = true → build.appendCertsFromPEM pem = true) →
  consistent w uid p st → decodes p → uid ≠ "" →
  (∀ m, committed st' uid m → decodeManifest (marshalManifest m) = Ok m) →
  publishGeneration w gw infra counted outcomes cert st = (Ok gen, st') →
  NoDup (pdName <$> pods) → (∃ pod, pod ∈ pods ∧ podIsReady pod = true) →
  (∀ pod, pod ∈ pods → podIsReady pod = true → ∃ dp, took decodeManifest errorText st' dp ∧
     get (readyz_url (pdPodIP pod) port) = Some (Readyz (dataplane.prState dp)).1) →
  (∀ dp, took decodeManifest errorText st' dp →
     routing.stStatuses (dataplane.prState dp) !! uid = Some (routing.mkGatewayStatus gen gen None)) ∧
  AllAcked (poll port (Some pods) get out) uid gen = true.
Proof.
  cbn zeta. pose proof (published_generation_loads w gw sets a src infra st gen st') as Hpub. cbn zeta in Hpub.
  destruct (attach_routes _ _ _ _) as [outcomes counted].
  intros Ha Hr Hparse Hpem Hco Hde Hne Hdec Hpublish Hnd Hsome Hall.
  destruct (Hpub Ha Hr Hparse Hpem Hco Hde Hpublish) as (m & Hm & Hgen & Hload).
  assert (∀ dp, took decodeManifest errorText st' dp →
    routing.stStatuses (dataplane.prState dp) !! omUID (gwMeta gw) = Some (routing.mkGatewayStatus gen gen None)) as Hst.
  { intros dp Hdp. rewrite <-Hgen. eapply took_acknowledges; [done|done|by apply Hdec| |done]. intros previous next.
    destruct (Hload previous next) as (t & n & Ht & _). by eexists. }
  split; [done|]. apply poll_all_acked; [done..|]. intros pod Hin Hready.
  destruct (Hall pod Hin Hready) as (dp & Hdp & Hget). exists (dataplane.prState dp). eexists.
  split; [done|]. split; [by apply Hst|done].
Qed.

(** ** A concrete publication *)

Definition manifest_tuple (m : compiled.Manifest) : string * string * string * list (string * string * string) :=
  (compiled.mfGatewayUID m, compiled.mfGeneration m, compiled.mfPrevious m,
   (λ o, (compiled.orKind o, compiled.orName o, compiled.orChecksum o)) <$> compiled.mfObjects m).
Definition tuple_manifest (t : string * string * string * list (string * string * string)) : compiled.Manifest :=
  compiled.mkManifest t.1.1.1 t.1.1.2 t.1.2 ((λ o, compiled.mkObjectRef o.1.1 o.1.2 o.2) <$> t.2).

Definition ex_environment : Environment := {|
  fault := no_faults;
  marshalGateway := marshalGateway (Environment := ex_env no_faults);
  marshalRoute := marshalRoute (Environment := ex_env no_faults);
  marshalManifest m := pos_bits (countable.encode (manifest_tuple m));
  unmarshalManifest _ := Err "opaque";
  iterate m := map_to_list m;
  iterate_perm m := reflexivity _;
|}.
Definition ex_decode (s : string) : result string compiled.Manifest :=
  of_option "invalid" (p ← bits_pos s; tuple_manifest <$> countable.decode p).

Lemma ex_decode_manifest m : ex_decode (marshalManifest (Environment := ex_environment) m) = Ok m.
Proof.
  unfold ex_decode. simpl. rewrite bits_pos_bits. simpl. rewrite countable.decode_encode. simpl.
  destruct m as [uid gen prev objects]. unfold tuple_manifest. simpl. do 2 f_equal.
  rewrite <-list_fmap_compose. rewrite <-(list_fmap_id objects) at 2. apply list_fmap_ext. by intros i [].
Qed.

Definition ex_written : result ApiError string * Store :=
  publishGeneration (env := ex_environment) ex_pub_world ex_listener_gw ex_parsed (ex_attach ex_libs).2 (ex_attach ex_libs).1
    (ex_cert ex_libs) (mkStore ∅ ∅).
Definition ex_gen : string := match ex_written.1 with Ok g => g | Err _ => "" end.
Definition ex_listing : configwatcher.RawConfig :=
  configwatcher.mkRawConfig (stCMs ex_written.2) (stSecrets ex_written.2).
Definition ex_dp : dataplane.Process (mail := dataplane.ex_mailbox) :=
  dataplane.ex_acknowledged (libs := ex_libs) ex_decode loader.ex_text ex_listing.

Lemma ex_took : took (libs := ex_libs) (mail := dataplane.ex_mailbox) ex_decode loader.ex_text ex_written.2 ex_dp.
Proof.
  exists [], ex_listing. split; [|split].
  - split; [reflexivity|]. split; [reflexivity|]. unfold dataplane.distinct. apply (bool_decide_unpack _). vm_compute. exact I.
  - assert ([] ++ [ex_listing] = (dataplane.ex_polled ex_listing).1) as -> by (vm_compute; reflexivity).
    apply (dataplane.ex_acknowledged_reached (libs := ex_libs)); vm_compute; reflexivity.
  - split; [vm_compute; reflexivity|vm_compute; exact I].
Qed.

Definition ex_pod : Pod := mkPod "a" "Running" "10.1.0.1" "192.0.2.1" "n1" [("Ready", "True")].

Lemma published_is_acknowledged_witness :
  let json := controlplane.ex_ready_json in
  ex_gen ≠ "" ∧ AllAcked (poll 9090 (Some [ex_pod]) (λ _, Some (Readyz (dataplane.prState ex_dp)).1) EmptyAckState) "gw-uid" ex_gen = true.
Proof.
  intros json. split; [vm_compute; discriminate|].
  pose proof (@published_is_acknowledged ex_environment ex_cluster ex_libs authdoc.ex_hcl extensions.ex_enc ex_params json
    dataplane.ex_mailbox ex_decode loader.ex_text ex_pub_world ex_listener_gw [] ports.ex_allocator "proxy" ex_parsed
    (mkStore ∅ ∅) ex_gen ex_written.2 [ex_pod] (λ _, Some (Readyz (dataplane.prState ex_dp)).1) 9090 EmptyAckState) as H.
  cbv zeta in H. rewrite (surjective_pairing (attach_routes _ _ _ _)) in H.
  apply H; clear H.
  - apply ex_pool_ok.
  - apply ex_pool_ok.
  - vm_compute. reflexivity.
  - exact ex_pem_appends.
  - apply ex_consistent.
  - destruct ex_decodes as [Hg Hr]. split; [exact Hg|exact Hr].
  - discriminate.
  - intros m _. exact (ex_decode_manifest m).
  - vm_compute. reflexivity.
  - apply NoDup_singleton.
  - exists ex_pod. split; [left|reflexivity].
  - intros pod _ _. exists ex_dp. split; [exact ex_took|reflexivity].
Defined.

End endtoend.
