(* ===== verification/Dashboard.v ===== *)
(** * The dashboard

    Models [internal/dashboard]: the tables, tiles and graph computed from a
    topology snapshot ([model.go], [graph.go]), the manifest endpoints
    ([yaml.go]) and the notification stream ([sse.go]).  The HTML templates
    that render them are left out. *)

From S2P Require Import Prelude GoStrings Compiled Build GatewayTypes Listeners Status Topology.
From stdpp Require Import options.

#[local] Open Scope nat_scope.

Module dashboard.
Import topology.

(** ** Tables and tiles *)

Record Page := mkPage { pgTitle : string; pgActive : string; pgPath : string; pgRevision : string }.

Definition pageChrome (title active path : string) (topo : Topology) : Page :=
  mkPage title active path (tpRevision topo).

Definition tileState (healthy total : nat) : string :=
  if total =? 0 then ""
  else if healthy =? total then "is-success"
  else if healthy =? 0 then "is-danger"
  else "is-warning".

Record routeRow := mkRouteRow {
  rrKind : string;
  rrNamespace : string;
  rrName : string;
  rrUID : string;
  rrHostnames : string;
  rrGateway : string;
  rrAccepted : bool;
  rrReason : string;
  rrRefsResolved : bool;
  rrRefsReason : string;
  rrRateLimit : bool;
  rrWAF : bool;
  rrAuth : bool;
}.

Definition limited (rule : compiled.Rule) : bool := match compiled.ruRateLimit rule with Some _ => true | None => false end.
Definition firewalled (rule : compiled.Rule) : bool := (compiled.ruWAF rule != "").
Definition authenticated (rule : compiled.Rule) : bool := (compiled.ruAuth rule != "").

Definition route_row (route : RouteInfo) (parent : RouteParentInfo) : routeRow :=
  mkRouteRow (riKind route) (riNamespace route) (riName route) (riUID route) (joinWith ", " (riHostnames route))
    (rnGatewayNamespace parent +:+ "/" +:+ rnGatewayName parent) (rnAccepted parent) (rnReason parent)
    (rnRefsResolved parent) (rnRefsReason parent)
    (existsb limited (rnRules parent)) (existsb firewalled (rnRules parent)) (existsb authenticated (rnRules parent)).

Definition buildRouteRows (topo : Topology) : list routeRow :=
  route ← tpRoutes topo; route_row route <$> riParents route.

Record backendRow := mkBackendRow {
  brNamespace : string;
  brName : string;
  brPort : Z;
  brRoutes : nat;
  brValid : bool;
  brReason : string;
  brHasYAML : bool;
}.

(** [aggregate]: a row and the routes seen. *)
Record aggregate := mkAggregate { agRow : backendRow; agRoutes : gset string }.

Definition backend_key (b : compiled.Backend) : string :=
  compiled.bNamespace b +:+ "/" +:+ compiled.bName b +:+ ":" +:+ pretty (compiled.bPort b).
Definition service_key (b : compiled.Backend) : string := compiled.bNamespace b +:+ "/" +:+ compiled.bName b.
Definition route_name (route : RouteInfo) : string := riNamespace route +:+ "/" +:+ riName route.
Definition manifest_of (topo : Topology) (b : compiled.Backend) : string := default "" (tpBackends topo !! service_key b).

(** Every reference to a backend, in the order of the four loops. *)
Definition references (topo : Topology) : list (RouteInfo * RouteParentInfo * compiled.Backend) :=
  route ← tpRoutes topo; parent ← riParents route; rule ← rnRules parent;
  backend ← compiled.ruBackends rule; [(route, parent, backend)].

Definition new_aggregate (topo : Topology) (b : compiled.Backend) : aggregate :=
  mkAggregate (mkBackendRow (compiled.bNamespace b) (compiled.bName b) (compiled.bPort b) 0 false ""
                 (manifest_of topo b != "")) ∅.

Definition refer (routeKey : string) (b : compiled.Backend) (a : aggregate) : aggregate :=
  let row := agRow a in
  mkAggregate
    (if compiled.bValid b then
       mkBackendRow (brNamespace row) (brName row) (brPort row) (brRoutes row) true (brReason row) (brHasYAML row)
     else if (brReason row == "") then
       mkBackendRow (brNamespace row) (brName row) (brPort row) (brRoutes row) (brValid row)
         (compiled.bInvalidReason b) (brHasYAML row)
     else row)
    ({[ routeKey ]} ∪ agRoutes a).

Definition aggregate_step (topo : Topology) (byKey : gmap string aggregate)
    (r : RouteInfo * RouteParentInfo * compiled.Backend) : gmap string aggregate :=
  let b := r.2 in
  <[backend_key b :=
      refer (route_name r.1.1) b (default (new_aggregate topo b) (byKey !! backend_key b))]> byKey.

Definition aggregates (topo : Topology) : gmap string aggregate :=
  fold_left (aggregate_step topo) (references topo) ∅.

Definition finish_row (a : aggregate) : backendRow :=
  let row := agRow a in
  mkBackendRow (brNamespace row) (brName row) (brPort row) (size (agRoutes a)) (brValid row) (brReason row)
    (brHasYAML row).

Definition buildBackendRows (topo : Topology) : list backendRow :=
  omap (λ key, finish_row <$> aggregates topo !! key) (compiled.sorted_keys (aggregates topo)).

Record statsData := mkStats {
  sdGateways : nat;
  sdGatewaysProgrammed : nat;
  sdRoutes : nat;
  sdRoutesAccepted : nat;
  sdBackends : nat;
  sdBackendsValid : nat;
}.

Definition healthy_parent (p : RouteParentInfo) : bool := rnAccepted p && rnRefsResolved p.
Definition healthy_route (route : RouteInfo) : bool :=
  (0 <? length (riParents route)) && forallb healthy_parent (riParents route).

Definition buildStats (topo : Topology) : statsData :=
  let backends := buildBackendRows topo in
  mkStats (length (tpGateways topo)) (length (filter (λ gw, gnProgrammed gw = true) (tpGateways topo)))
    (length (tpRoutes topo)) (length (filter (λ r, healthy_route r = true) (tpRoutes topo)))
    (length backends) (length (filter (λ b, brValid b = true) backends)).

Record statTile := mkTile { tlLabel : string; tlValue : string; tlDetail : string; tlState : string }.

Definition tile (label detail : string) (healthy total : nat) : statTile :=
  mkTile label (pretty healthy +:+ " / " +:+ pretty total) detail (tileState healthy total).

Definition buildTiles (topo : Topology) : list statTile :=
  let stats := buildStats topo in
  [tile "Gateways" "programmed" (sdGatewaysProgrammed stats) (sdGateways stats);
   tile "Routes" "attachments healthy" (sdRoutesAccepted stats) (sdRoutes stats);
   tile "Backends" "resolved" (sdBackendsValid stats) (sdBackends stats)].

(** ** The graph *)

Record graphBadge := mkBadge { gbIcon : string; gbLabel : string }.

Record graphNode := mkNode {
  nodeID : string;
  nodeKind : string;
  nodeNamespace : string;
  nodeTitle : string;
  nodeLines : list string;
  nodeOK : bool;
  nodeBadges : list graphBadge;
  nodeYAMLPath : string;
}.

Record graphLink := mkLink { linkSource : string; linkTarget : string; linkOK : bool }.

Record graphData := mkGraph {
  grRevision : string;
  grNodes : list graphNode;
  grLinks : list graphLink;
}.

(** The graph under construction with its two [seen] sets. *)
Record building := mkBuilding { bgGraph : graphData; bgNodes : gset string; bgLinks : gset string }.

Definition addNode (node : graphNode) (b : building) : building :=
  if decide (nodeID node ∈ bgNodes b) then b
  else let g := bgGraph b in
       mkBuilding (mkGraph (grRevision g) (grNodes g ++ [node]) (grLinks g))
         ({[ nodeID node ]} ∪ bgNodes b) (bgLinks b).

(** The arrow of the link key, in UTF-8. *)
Definition arrow : string := bytes [0xE2; 0x86; 0x92]%Z.
Definition link_key (link : graphLink) : string := linkSource link +:+ arrow +:+ linkTarget link.

Definition addLink (link : graphLink) (b : building) : building :=
  if decide (link_key link ∈ bgLinks b) then b
  else let g := bgGraph b in
       mkBuilding (mkGraph (grRevision g) (grNodes g) (grLinks g ++ [link])) (bgNodes b)
         ({[ link_key link ]} ∪ bgLinks b).

Definition routeExtensions (route : RouteInfo) : bool * bool * bool :=
  let rules := riParents route ≫= rnRules in
  (existsb limited rules, existsb firewalled rules, existsb authenticated rules).

Definition routeBadges (route : RouteInfo) : list graphBadge :=
  let '(rateLimit, waf, auth) := routeExtensions route in
  (if rateLimit then [mkBadge (bytes [0xE2; 0x8F; 0xB3]%Z) "Rate limiting"] else []) ++
  (if waf then [mkBadge (bytes [0xF0; 0x9F; 0x9B; 0xA1; 0xEF; 0xB8; 0x8F]%Z) "Web application firewall"] else []) ++
  (if auth then [mkBadge (bytes [0xF0; 0x9F; 0x91; 0xA4]%Z) "Authentication"] else []).

Definition listener_line (l : ListenerInfo) : string :=
  liProtocol l +:+ " :" +:+ pretty (liPort l) +:+
  (if (liHostname l != "") then " " +:+ liHostname l else "") +:+
  (if liValid l then "" else " (" +:+ liReason l +:+ ")").

Definition gateway_id (uid : string) : string := "gw:" +:+ uid.
Definition route_id (uid : string) : string := "rt:" +:+ uid.
Definition backend_id (b : compiled.Backend) : string := "be:" +:+ backend_key b.

Definition gateway_node (gw : GatewayInfo) : graphNode :=
  mkNode (gateway_id (gnUID gw)) "Gateway" (gnNamespace gw) (gnNamespace gw +:+ "/" +:+ gnName gw)
    (["class " +:+ gnClass gw] ++ (if (gnAddress gw != "") then [gnAddress gw] else []) ++
     (listener_line <$> gnListeners gw) ++
     (if gnProgrammed gw then [] else ["not programmed: " +:+ gnProgrammedReason gw]))
    (gnProgrammed gw) [] ("/api/yaml/gateway/" +:+ gnUID gw).

Definition parent_reasons (p : RouteParentInfo) : list string :=
  (if negb (rnAccepted p) && (rnReason p != "") then [rnReason p] else []) ++
  (if negb (rnRefsResolved p) && (rnRefsReason p != "") then [rnRefsReason p] else []).

Definition route_node (route : RouteInfo) : graphNode :=
  let rules := foldr (λ p n, length (rnRules p) `max` n) 0 (riParents route) in
  mkNode (route_id (riUID route)) (riKind route) (riNamespace route) (route_name route)
    ([riKind route] ++ (match riHostnames route with [] => [] | hs => [joinWith ", " hs] end) ++
     [pretty rules +:+ " rule(s)"] ++ (riParents route ≫= parent_reasons))
    (healthy_route route) (routeBadges route) ("/api/yaml/route/" +:+ riUID route).

Definition backend_node (topo : Topology) (b : compiled.Backend) : graphNode :=
  mkNode (backend_id b) "Service" (compiled.bNamespace b) (service_key b)
    (("port " +:+ pretty (compiled.bPort b)) ::
     (if negb (compiled.bValid b) && (compiled.bInvalidReason b != "") then [compiled.bInvalidReason b] else []))
    (compiled.bValid b) []
    (if (manifest_of topo b != "")
     then "/api/yaml/backend/" +:+ compiled.bNamespace b +:+ "/" +:+ compiled.bName b else "").

Definition parent_link (route : RouteInfo) (p : RouteParentInfo) : graphLink :=
  mkLink (gateway_id (rnGatewayUID p)) (route_id (riUID route)) (healthy_parent p).
Definition backend_link (route : RouteInfo) (b : compiled.Backend) : graphLink :=
  mkLink (route_id (riUID route)) (backend_id b) (compiled.bValid b).

Definition add_backend_to (topo : Topology) (route : RouteInfo) (g : building) (b : compiled.Backend) : building :=
  addLink (backend_link route b) (addNode (backend_node topo b) g).
Definition add_parent (topo : Topology) (route : RouteInfo) (g : building) (p : RouteParentInfo) : building :=
  fold_left (add_backend_to topo route) (rnRules p ≫= compiled.ruBackends) (addLink (parent_link route p) g).
Definition add_route (topo : Topology) (g : building) (route : RouteInfo) : building :=
  fold_left (add_parent topo route) (riParents route) (addNode (route_node route) g).

Definition empty_graph (topo : Topology) : building := mkBuilding (mkGraph (tpRevision topo) [] []) ∅ ∅.

Definition buildGraph (topo : Topology) : graphData :=
  bgGraph (fold_left (add_route topo) (tpRoutes topo)
             (fold_left (λ g gw, addNode (gateway_node gw) g) (tpGateways topo) (empty_graph topo))).

(** ** Manifests and notifications *)

(** The manifest a path parameter selects; [None] is 404. *)
Definition yamlGateway (topo : Topology) (uid : string) : option string :=
  gnYAML <$> head (filter (λ gw, gnUID gw = uid ∧ gnYAML gw ≠ "") (tpGateways topo)).
Definition yamlRoute (topo : Topology) (uid : string) : option string :=
  riYAML <$> head (filter (λ r, riUID r = uid ∧ riYAML r ≠ "") (tpRoutes topo)).
Definition yamlBackend (topo : Topology) (namespace name : string) : option string :=
  match tpBackends topo !! (namespace +:+ "/" +:+ name) with
  | Some manifest => if (manifest != "") then Some manifest else None
  | None => None
  end.

(** A tick of [events]: the last revision sent, and the event if any. *)
Definition tick (last : string) (topo : Topology) : string * option string :=
  if (tpRevision topo == last) then (last, None) else (tpRevision topo, Some (tpRevision topo)).

(** The events of a stream opened on a snapshot, over the snapshots its
    ticks see. *)
Fixpoint stream (last : string) (seen : list Topology) : list string :=
  match seen with
  | [] => []
  | topo :: rest => let '(last, event) := tick last topo in option_list event ++ stream last rest
  end.
Definition events (opened : Topology) (seen : list Topology) : list string := stream (tpRevision opened) seen.

(** ** The graph as a sequence of additions *)

Inductive item := INode (n : graphNode) | ILink (l : graphLink).

Definition add_item (b : building) (i : item) : building :=
  match i with INode n => addNode n b | ILink l => addLink l b end.

Definition backend_items (topo : Topology) (route : RouteInfo) (b : compiled.Backend) : list item :=
  [INode (backend_node topo b); ILink (backend_link route b)].
Definition parent_items (topo : Topology) (route : RouteInfo) (p : RouteParentInfo) : list item :=
  ILink (parent_link route p) :: ((rnRules p ≫= compiled.ruBackends) ≫= backend_items topo route).
Definition route_items (topo : Topology) (route : RouteInfo) : list item :=
  INode (route_node route) :: (riParents route ≫= parent_items topo route).
Definition items (topo : Topology) : list item :=
  ((INode ∘ gateway_node) <$> tpGateways topo) ++ (tpRoutes topo ≫= route_items topo).

Lemma fold_items {A B} (f : B → A → B) (g : A → list item) (h : B → building) (l : list A) b :
  (∀ b a, h (f b a) = fold_left add_item (g a) (h b)) →
  h (fold_left f l b) = fold_left add_item (l ≫= g) (h b).
Proof.
  intros Hf. revert b. induction l as [|a l IH]; intros b; [done|]. cbn [fold_left mbind list_bind].
  by rewrite IH, fold_left_app, Hf.
Qed.

Lemma buildGraph_items topo : buildGraph topo = bgGraph (fold_left add_item (items topo) (empty_graph topo)).
Proof.
  unfold buildGraph, items. rewrite fold_left_app. f_equal.
  assert (∀ b, fold_left (λ g gw, addNode (gateway_node gw) g) (tpGateways topo) b =
    fold_left add_item ((INode ∘ gateway_node) <$> tpGateways topo) b) as ->.
  { induction (tpGateways topo) as [|gw l IH]; intros b; [done|]. simpl. by rewrite IH. }
  apply (fold_items (add_route topo) (route_items topo) id). intros b route. unfold add_route, route_items. simpl.
  apply (fold_items (add_parent topo route) (parent_items topo route) id). intros b' p.
  unfold add_parent, parent_items. simpl.
  by apply (fold_items (add_backend_to topo route) (backend_items topo route) id).
Qed.

Definition nodes_of (l : list item) : list graphNode := omap (λ i, match i with INode n => Some n | _ => None end) l.
Definition links_of (l : list item) : list graphLink := omap (λ i, match i with ILink l => Some l | _ => None end) l.

(** Each identifier and each link key once, those of the items and no other. *)
Record graph_ok (l : list item) (b : building) : Prop := {
  go_nodes : ∀ id, id ∈ bgNodes b ↔ id ∈ nodeID <$> grNodes (bgGraph b);
  go_links : ∀ k, k ∈ bgLinks b ↔ k ∈ link_key <$> grLinks (bgGraph b);
  go_node_once : NoDup (nodeID <$> grNodes (bgGraph b));
  go_link_once : NoDup (link_key <$> grLinks (bgGraph b));
  go_node_ids : ∀ id, id ∈ nodeID <$> grNodes (bgGraph b) ↔ id ∈ nodeID <$> nodes_of l;
  go_link_keys : ∀ k, k ∈ link_key <$> grLinks (bgGraph b) ↔ k ∈ link_key <$> links_of l;
  go_node_from : ∀ n, n ∈ grNodes (bgGraph b) → n ∈ nodes_of l;
  go_link_from : ∀ k, k ∈ grLinks (bgGraph b) → k ∈ links_of l;
}.

Lemma NoDup_snoc_notin {A} (l : list A) x : NoDup l → x ∉ l → NoDup (l ++ [x]).
Proof.
  intros Hl Hx. apply list.NoDup_app. split; [done|]. split; [|by apply NoDup_singleton].
  intros y Hy ->%list_elem_of_singleton. done.
Qed.

Lemma graph_ok_add l b i : graph_ok l b → graph_ok (l ++ [i]) (add_item b i).
Proof.
  intros [H1 H2 H3 H4 H5 H6 H7 H8]. unfold nodes_of, links_of in *.
  destruct i as [n|k]; simpl; unfold addNode, addLink; case_decide as Hin; split; simpl;
    unfold nodes_of, links_of; rewrite ?omap_app; simpl; rewrite ?app_nil_r, ?fmap_app; simpl; try done;
    try (apply NoDup_snoc_notin; [done|]; first [rewrite <-H1|rewrite <-H2]; done);
    intros x; rewrite ?elem_of_union, ?elem_of_singleton, ?elem_of_app, ?list_elem_of_singleton; try naive_solver.
Qed.

Lemma graph_ok_items topo : graph_ok (items topo) (fold_left add_item (items topo) (empty_graph topo)).
Proof.
  induction (items topo) as [|i l IH] using rev_ind.
  - split; simpl; try done; try apply NoDup_nil_2; intros x; set_solver.
  - rewrite fold_left_app. simpl. by apply graph_ok_add.
Qed.

Lemma elem_of_references topo route p b :
  (route, p, b) ∈ references topo ↔
  route ∈ tpRoutes topo ∧ p ∈ riParents route ∧ ∃ rule, rule ∈ rnRules p ∧ b ∈ compiled.ruBackends rule.
Proof.
  unfold references. rewrite list_elem_of_bind. split.
  - intros (r & H & Hr). apply list_elem_of_bind in H as (q & H & Hq). apply list_elem_of_bind in H as (rule & H & Hrule).
    apply list_elem_of_bind in H as (b' & H & Hb). apply list_elem_of_singleton in H as [= -> -> ->]. eauto.
  - intros (Hr & Hp & rule & Hrule & Hb). exists route. split; [|done]. apply list_elem_of_bind. exists p. split; [|done].
    apply list_elem_of_bind. exists rule. split; [|done]. apply list_elem_of_bind. exists b. split; [|done].
    by apply list_elem_of_singleton.
Qed.

Lemma elem_of_items topo i :
  i ∈ items topo ↔
  (∃ gw, gw ∈ tpGateways topo ∧ i = INode (gateway_node gw)) ∨
  (∃ route, route ∈ tpRoutes topo ∧ i = INode (route_node route)) ∨
  (∃ route p, route ∈ tpRoutes topo ∧ p ∈ riParents route ∧ i = ILink (parent_link route p)) ∨
  (∃ route p b, (route, p, b) ∈ references topo ∧ i ∈ backend_items topo route b).
Proof.
  unfold items. rewrite elem_of_app, list_elem_of_fmap, list_elem_of_bind. setoid_rewrite elem_of_references.
  split.
  - intros [(gw & -> & Hg)|(route & H & Hr)]; [by left; eauto|right].
    apply elem_of_cons in H as [->|H]; [by left; eauto|right].
    apply list_elem_of_bind in H as (p & H & Hp). apply elem_of_cons in H as [->|H]; [by left; eauto|right].
    apply list_elem_of_bind in H as (b & H & Hb). apply list_elem_of_bind in Hb as (rule & Hb & Hrule).
    exists route, p, b. eauto 10.
  - intros [(gw & Hg & ->)|[(route & Hr & ->)|[(route & p & Hr & Hp & ->)|(route & p & b & (Hr & Hp & rule & Hrule & Hb) & Hi)]]].
    + left. by exists gw.
    + right. exists route. split; [by left|done].
    + right. exists route. split; [|done]. right. apply list_elem_of_bind. exists p. split; [by left|done].
    + right. exists route. split; [|done]. right. apply list_elem_of_bind. exists p. split; [|done]. right.
      apply list_elem_of_bind. exists b. split; [done|]. apply list_elem_of_bind. by exists rule.
Qed.

Lemma elem_of_nodes topo n :
  n ∈ nodes_of (items topo) ↔
  (∃ gw, gw ∈ tpGateways topo ∧ n = gateway_node gw) ∨ (∃ route, route ∈ tpRoutes topo ∧ n = route_node route) ∨
  (∃ route p b, (route, p, b) ∈ references topo ∧ n = backend_node topo b).
Proof.
  unfold nodes_of. rewrite list_elem_of_omap. setoid_rewrite elem_of_items. unfold backend_items.
  setoid_rewrite elem_of_cons. setoid_rewrite list_elem_of_singleton. split.
  - intros ([n'|] & H & Hx); [|done]. injection Hx as ->. naive_solver.
  - intros H. exists (INode n). split; [|done]. naive_solver.
Qed.

Lemma elem_of_links topo k :
  k ∈ links_of (items topo) ↔
  (∃ route p, route ∈ tpRoutes topo ∧ p ∈ riParents route ∧ k = parent_link route p) ∨
  (∃ route p b, (route, p, b) ∈ references topo ∧ k = backend_link route b).
Proof.
  unfold links_of. rewrite list_elem_of_omap. setoid_rewrite elem_of_items. unfold backend_items.
  setoid_rewrite elem_of_cons. setoid_rewrite list_elem_of_singleton. split.
  - intros ([|k'] & H & Hx); [done|]. injection Hx as ->. naive_solver.
  - intros H. exists (ILink k). split; [|done]. naive_solver.
Qed.

Definition node_ids (g : graphData) : list string := nodeID <$> grNodes g.
Definition link_keys (g : graphData) : list string := link_key <$> grLinks g.

(** The graph shows the topology: identifiers and links are unique, every link
    joins two boxes, every Gateway, route, attachment and backend reference is
    there, and nothing else. *)
Theorem graph_shows_topology topo :
  (∀ route p, route ∈ tpRoutes topo → p ∈ riParents route → ∃ gw, gw ∈ tpGateways topo ∧ gnUID gw = rnGatewayUID p) →
  let g := buildGraph topo in
  NoDup (node_ids g) ∧ NoDup (link_keys g) ∧
  (∀ l, l ∈ grLinks g → linkSource l ∈ node_ids g ∧ linkTarget l ∈ node_ids g) ∧
  (∀ gw, gw ∈ tpGateways topo → gateway_id (gnUID gw) ∈ node_ids g) ∧
  (∀ route, route ∈ tpRoutes topo → route_id (riUID route) ∈ node_ids g) ∧
  (∀ route p, route ∈ tpRoutes topo → p ∈ riParents route → link_key (parent_link route p) ∈ link_keys g) ∧
  (∀ route p b, (route, p, b) ∈ references topo →
     backend_id b ∈ node_ids g ∧ link_key (backend_link route b) ∈ link_keys g) ∧
  (∀ n, n ∈ grNodes g → (∃ gw, gw ∈ tpGateways topo ∧ n = gateway_node gw) ∨
     (∃ route, route ∈ tpRoutes topo ∧ n = route_node route) ∨
     (∃ route p b, (route, p, b) ∈ references topo ∧ n = backend_node topo b)).
Proof.
  intros Hgw g. subst g. rewrite buildGraph_items. destruct (graph_ok_items topo) as [_ _ H3 H4 H5 H6 H7 H8].
  unfold node_ids, link_keys.
  assert (∀ n, n ∈ nodes_of (items topo) →
    nodeID n ∈ nodeID <$> grNodes (bgGraph (fold_left add_item (items topo) (empty_graph topo)))) as Hnode.
  { intros n Hn. apply H5. by apply list_elem_of_fmap_2. }
  assert (∀ k, k ∈ links_of (items topo) →
    link_key k ∈ link_key <$> grLinks (bgGraph (fold_left add_item (items topo) (empty_graph topo)))) as Hlink.
  { intros k Hk. apply H6. by apply list_elem_of_fmap_2. }
  split_and!; [done|done|..].
  - intros l [(route & p & Hr & Hp & ->)|(route & p & b & Hb & ->)]%H8%elem_of_links; simpl.
    + destruct (Hgw route p Hr Hp) as (gw & Hin & <-). split; [apply (Hnode (gateway_node gw))|apply (Hnode (route_node route))];
        rewrite elem_of_nodes; eauto 10.
    + split; [apply (Hnode (route_node route))|apply (Hnode (backend_node topo b))]; rewrite elem_of_nodes; [|by eauto 10].
      apply elem_of_references in Hb as (? & _). eauto 10.
  - intros gw Hin. apply (Hnode (gateway_node gw)). rewrite elem_of_nodes. eauto.
  - intros route Hin. apply (Hnode (route_node route)). rewrite elem_of_nodes. eauto.
  - intros route p Hr Hp. apply Hlink. rewrite elem_of_links. eauto 10.
  - intros route p b Hb. split; [apply (Hnode (backend_node topo b))|apply Hlink]; rewrite ?elem_of_nodes, ?elem_of_links; eauto 10.
  - intros n Hn%H7. by apply elem_of_nodes.
Qed.

(** ** The backends table *)

Abbreviation Reference := (RouteInfo * RouteParentInfo * compiled.Backend)%type.

Definition of_key (key : string) (r : Reference) : Prop := backend_key r.2 = key.
#[global] Instance of_key_dec key r : Decision (of_key key r) := decide (_ = _).

Definition refer_all (refs : list Reference) (a : aggregate) : aggregate :=
  fold_left (λ a r, refer (route_name r.1.1) r.2 a) refs a.

(** What the loops gather about one backend. *)
Lemma aggregates_lookup topo refs key :
  fold_left (aggregate_step topo) refs ∅ !! key =
    match filter (of_key key) refs with
    | [] => None
    | r :: rest => Some (refer_all (r :: rest) (new_aggregate topo r.2))
    end.
Proof.
  induction refs as [|r refs IH] using rev_ind; [done|].
  rewrite fold_left_app, list.filter_app. cbn [fold_left]. unfold aggregate_step at 1.
  destruct (decide (of_key key r)) as [Hk|Hk].
  - rewrite Hk, lookup_insert_eq, IH. rewrite (filter_cons_True _ r []) by done. rewrite filter_nil.
    destruct (filter (of_key key) refs) as [|r0 rest]; [done|]. simpl. unfold refer_all. by rewrite fold_left_app.
  - rewrite lookup_insert_ne by done. rewrite (filter_cons_False _ r []) by done. by rewrite filter_nil, app_nil_r.
Qed.

Lemma refer_all_row refs a :
  agRoutes (refer_all refs a) = list_to_set ((λ r, route_name r.1.1) <$> refs) ∪ agRoutes a ∧
  (brValid (agRow (refer_all refs a)) = true ↔
     brValid (agRow a) = true ∨ Exists (λ r, compiled.bValid r.2 = true) refs) ∧
  brNamespace (agRow (refer_all refs a)) = brNamespace (agRow a) ∧
  brName (agRow (refer_all refs a)) = brName (agRow a) ∧ brPort (agRow (refer_all refs a)) = brPort (agRow a) ∧
  brHasYAML (agRow (refer_all refs a)) = brHasYAML (agRow a).
Proof.
  revert a. induction refs as [|r refs IH]; intros a.
  - simpl. split_and!; try done; [set_solver|]. rewrite Exists_nil. naive_solver.
  - change (refer_all (r :: refs) a) with (refer_all refs (refer (route_name r.1.1) r.2 a)).
    destruct (IH (refer (route_name r.1.1) r.2 a)) as (-> & -> & -> & -> & -> & ->). rewrite Exists_cons. simpl.
    destruct (compiled.bValid r.2) eqn:Hb; [|destruct (_ == _)]; simpl; split_and!; try done; try set_solver; naive_solver.
Qed.

Definition row_key (row : backendRow) : string :=
  brNamespace row +:+ "/" +:+ brName row +:+ ":" +:+ pretty (brPort row).

Lemma aggregate_row topo key a :
  aggregates topo !! key = Some a →
  row_key (finish_row a) = key ∧
  (∃ r, r ∈ references topo ∧ of_key key r) ∧
  agRoutes a = list_to_set ((λ r, route_name r.1.1) <$> filter (of_key key) (references topo)) ∧
  (brValid (agRow a) = true ↔ ∃ r, r ∈ references topo ∧ of_key key r ∧ compiled.bValid r.2 = true).
Proof.
  unfold aggregates. rewrite aggregates_lookup. destruct (filter _ _) as [|r rest] eqn:Hf; [done|]. intros [= <-].
  assert (∀ x, x ∈ r :: rest ↔ of_key key x ∧ x ∈ references topo) as Hin.
  { intros x. by rewrite <-Hf, list_elem_of_filter. }
  destruct (refer_all_row (r :: rest) (new_aggregate topo r.2)) as (Hr & Hv & Hn & Hm & Hp & _).
  destruct (proj1 (Hin r)) as [Hk Href]; [by left|]. unfold row_key. simpl in *. split_and!.
  - rewrite Hn, Hm, Hp. exact Hk.
  - by exists r.
  - rewrite Hr. set_solver.
  - rewrite Hv, list.Exists_exists. setoid_rewrite Hin. simpl. naive_solver.
Qed.

(** The backends table has one row per referenced Service port, in key order,
    resolved when some reference is, with the number of routes by name that
    reference it. *)
Theorem backend_rows_exact topo :
  (row_key <$> buildBackendRows topo) = compiled.sorted_keys (aggregates topo) ∧
  (∀ key, key ∈ row_key <$> buildBackendRows topo ↔ ∃ r, r ∈ references topo ∧ backend_key r.2 = key) ∧
  ∀ row, row ∈ buildBackendRows topo →
    (brValid row = true ↔ ∃ r, r ∈ references topo ∧ backend_key r.2 = row_key row ∧ compiled.bValid r.2 = true) ∧
    brRoutes row = size (list_to_set (C := gset string)
      ((λ r : Reference, route_name r.1.1) <$> filter (λ r, backend_key r.2 = row_key row) (references topo))).
Proof.
  assert ((row_key <$> buildBackendRows topo) = compiled.sorted_keys (aggregates topo)) as Hkeys.
  { unfold buildBackendRows.
    assert (∀ key, key ∈ compiled.sorted_keys (aggregates topo) → is_Some (aggregates topo !! key)) as Hin
      by (intros key; apply compiled.elem_of_sorted_keys).
    induction (compiled.sorted_keys (aggregates topo)) as [|key keys IH]; [done|]. simpl.
    destruct (Hin key) as [a Ha]; [by left|]. rewrite Ha. simpl.
    f_equal; [by apply (aggregate_row topo)|]. apply IH. intros k Hk. apply Hin. by right. }
  split; [done|]. split.
  - intros key. rewrite Hkeys, compiled.elem_of_sorted_keys. split.
    + intros [a Ha]. by apply aggregate_row in Ha as (_ & ? & _).
    + intros (r & Hr & Hk). unfold aggregates. rewrite aggregates_lookup. destruct (filter _ _) as [|x l] eqn:Hf; [|done].
      assert (r ∈ filter (of_key key) (references topo)) as Hin by (by apply list_elem_of_filter). rewrite Hf in Hin.
      by apply elem_of_nil in Hin.
  - intros row Hrow. unfold buildBackendRows in Hrow. apply list_elem_of_omap in Hrow as (key & Hkey & Hrow).
    apply fmap_Some in Hrow as (a & Ha & ->). destruct (aggregate_row topo key a Ha) as (-> & _ & Hroutes & Hv).
    split; [exact Hv|]. simpl. by rewrite Hroutes.
Qed.

(** ** Manifest links and notifications *)

(** A backend's box links to a manifest exactly when it is served. *)
Lemma backend_manifest_served topo b :
  nodeYAMLPath (backend_node topo b) ≠ "" ↔
  is_Some (yamlBackend topo (compiled.bNamespace b) (compiled.bName b)).
Proof.
  simpl. unfold manifest_of, yamlBackend, service_key. destruct (tpBackends topo !! _) as [m|]; simpl.
  - destruct (decide (m = "")) as [->|Hm]; [by split; [|intros []]|]. rewrite bool_decide_eq_false_2 by done. done.
  - by split; [|intros []].
Qed.

Lemma stream_last last seen :
  list.last (last :: stream last seen) = Some (default last (tpRevision <$> list.last seen)).
Proof.
  revert last. induction seen as [|topo seen IH]; intros last; [done|].
  assert (default last (tpRevision <$> list.last (topo :: seen)) =
    default (tpRevision topo) (tpRevision <$> list.last seen)) as ->.
  { destruct (list.last seen) as [x|] eqn:Hl; rewrite last_cons, Hl; done. }
  cbn [stream]. unfold tick. case_bool_decide as Hr; cbn [option_list app].
  - by rewrite Hr, <-IH.
  - rewrite last_cons. change (option_list (Some (tpRevision topo)) ++ stream (tpRevision topo) seen)
      with (tpRevision topo :: stream (tpRevision topo) seen). by rewrite IH.
Qed.

(** The notification stream never repeats a revision and its last event is the
    revision of the last snapshot seen. *)
Theorem events_keep_up opened seen :
  list.last (tpRevision opened :: events opened seen) = Some (tpRevision (default opened (list.last seen))) ∧
  ∀ i a b, (tpRevision opened :: events opened seen) !! i = Some a →
           (tpRevision opened :: events opened seen) !! S i = Some b → a ≠ b.
Proof.
  unfold events. split.
  - rewrite stream_last. by destruct (list.last seen).
  - generalize (tpRevision opened) as last. induction seen as [|topo seen IH]; intros last i a b; [by destruct i|].
    cbn [stream]. unfold tick. case_bool_decide as Hr; simpl; [apply IH|].
    destruct i as [|i]; [|apply IH]. simpl. intros [= <-] [= <-]. congruence.
Qed.

(** ** A concrete topology *)

Definition ex_dash_backend (valid : bool) : compiled.Backend :=
  compiled.mkBackend "shop" "cart" 80 1 valid (if valid then "" else "BackendNotFound") "" [] None.
Definition ex_dash_rule (valid : bool) (waf : string) : compiled.Rule :=
  compiled.mkRule [] [] [ex_dash_backend valid] 0 0 None waf false "".
Definition ex_dash_route (kind uid : string) (rules : list compiled.Rule) : RouteInfo :=
  mkRouteInfo kind "shop" "web" uid ["www.example.com"] "kind: Route"
    [mkRouteParentInfo "infra" "gw" "g1" true "Accepted" true "ResolvedRefs" rules].
Definition ex_topology : Topology :=
  mkTopology "r1"
    [mkGatewayInfo "infra" "gw" "g1" "krouter" "192.0.2.1" "0123" true "Accepted" false "Pending" "kind: Gateway"
       [mkListenerInfo "web" 443 "HTTPS" "www.example.com" 10000 true "Accepted" 2]]
    [ex_dash_route "HTTPRoute" "u1" [ex_dash_rule false "rules"]; ex_dash_route "GRPCRoute" "u2" [ex_dash_rule true ""]]
    {[ "shop/cart" := "kind: Service" ]}.

(** Two routes of the same name and different kinds reference one backend:
    the table counts one route and takes the backend for resolved, the box of
    the graph keeps the first reference. *)
Example shown :
  buildBackendRows ex_topology = [mkBackendRow "shop" "cart" 80 1 true "BackendNotFound" true] ∧
  (λ n, (nodeID n, nodeOK n)) <$> grNodes (buildGraph ex_topology) =
    [("gw:g1", false); ("rt:u1", true); ("be:shop/cart:80", false); ("rt:u2", true)] ∧
  (λ l, (linkSource l, linkTarget l, linkOK l)) <$> grLinks (buildGraph ex_topology) =
    [("gw:g1", "rt:u1", true); ("rt:u1", "be:shop/cart:80", false);
     ("gw:g1", "rt:u2", true); ("rt:u2", "be:shop/cart:80", true)] ∧
  (λ t, (tlValue t, tlState t)) <$> buildTiles ex_topology =
    [("0 / 1", "is-danger"); ("2 / 2", "is-success"); ("1 / 1", "is-success")].
Proof. split_and!; vm_compute; reflexivity. Qed.

(** A page rendered before a change and a stream opened after it: the page
    is out of date and no event says so. *)
Example missed_revision :
  let stale := mkTopology "r0" [] [] ∅ in
  pgRevision (pageChrome "Overview" "overview" "/" stale) ≠ tpRevision ex_topology ∧
  events ex_topology (replicate 60 ex_topology) = [] ∧
  events stale [ex_topology; ex_topology] = ["r1"].
Proof. split_and!; [discriminate|vm_compute; reflexivity..]. Qed.

Lemma graph_shows_topology_witness :
  NoDup (node_ids (buildGraph ex_topology)) ∧ gateway_id "g1" ∈ node_ids (buildGraph ex_topology).
Proof.
  destruct (graph_shows_topology ex_topology) as (H1 & _ & _ & H2 & _).
  - intros route p Hr Hp. exists (mkGatewayInfo "infra" "gw" "g1" "krouter" "192.0.2.1" "0123" true "Accepted" false
      "Pending" "kind: Gateway" [mkListenerInfo "web" 443 "HTTPS" "www.example.com" 10000 true "Accepted" 2]).
    split; [left|]. repeat (apply elem_of_cons in Hr as [->|Hr]; [|]); try (by apply elem_of_nil in Hr);
      apply list_elem_of_singleton in Hp as ->; reflexivity.
  - split; [exact H1|]. apply (H2 (mkGatewayInfo "infra" "gw" "g1" "krouter" "192.0.2.1" "0123" true "Accepted" false
      "Pending" "kind: Gateway" [mkListenerInfo "web" 443 "HTTPS" "www.example.com" 10000 true "Accepted" 2])). left.
Defined.

End dashboard.
