(* ===== verification/DashboardServer.v ===== *)
(** * The dashboard's server

    Models [internal/dashboard/dashboard.go] and its handlers in [graph.go],
    [yaml.go] and [sse.go]: which page answers which request, through the
    patterns registered with [http.ServeMux], and what it writes.  Templates,
    JSON encoding and the embedded files are a class. *)

From S2P Require Import Prelude GoStrings Http Compiled Topology Dashboard.
From stdpp Require Import options.

#[local] Open Scope nat_scope.

(** ** [http.ServeMux] *)

Module mux.

(** [url.PathUnescape], and the segment itself where it fails. *)
Fixpoint unescape (s : string) : option string :=
  match s with
  | EmptyString => Some ""
  | String "%" r =>
      match r with
      | String a (String b r') =>
          x ← hex_value a; y ← hex_value b; t ← unescape r'; Some (String (byte_of (16 * x + y)) t)
      | _ => None
      end
  | String c r => t ← unescape r; Some (String c t)
  end.
Definition pathUnescape (s : string) : string := default s (unescape s).

(** [path.Clean] of a rooted path, by segments. *)
Definition clean_step (acc : list string) (seg : string) : list string :=
  if (seg == "") || (seg == ".") then acc
  else if (seg == "..") then removelast acc
  else acc ++ [seg].

Definition cleanPath (p : string) : string :=
  let p := if hasPrefix p "/" then p else "/" +:+ p in
  let np := "/" +:+ joinWith "/" (fold_left clean_step (splitOn "/" p) []) in
  if hasSuffix p "/" && (np != "/") then np +:+ "/" else np.

(** The segments of a pattern: a literal, [{name}], the slash of [{$}] and
    the rest after a trailing slash. *)
Inductive segment := Lit (s : string) | Wild | Slash | Rest.

(** The path below a node, as the segments left to match. *)
Fixpoint match_segments (pattern : list segment) (path : list string) : option (list string) :=
  match pattern, path with
  | [], [] => Some []
  | Rest :: _, _ :: _ => Some []
  | Lit s :: pattern, seg :: path =>
      if (pathUnescape seg == s) then match_segments pattern path else None
  | Slash :: pattern, [""] => match_segments pattern []
  | Wild :: pattern, seg :: path =>
      if (seg == "") && (match path with [] => true | _ => false end) then None
      else cons (pathUnescape seg) <$> match_segments pattern path
  | _, _ => None
  end.

(** The segments of a rooted path: what follows each slash. *)
Definition segments (path : string) : list string := tail (splitOn "/" path).

(** No path matches both patterns. *)
Fixpoint apart (p q : list segment) : bool :=
  match p, q with
  | Lit s :: p, Lit s' :: q => (s != s') || apart p q
  | Lit _ :: p, Wild :: q | Wild :: p, Lit _ :: q | Wild :: p, Wild :: q => apart p q
  | Slash :: _, Lit s :: _ | Lit s :: _, Slash :: _ => (s != "")
  | Slash :: _, Wild :: _ | Wild :: _, Slash :: _ => true
  | [], _ :: _ | _ :: _, [] => true
  | _, _ => false
  end.

Lemma match_cons x pattern seg path :
  is_Some (match_segments (x :: pattern) (seg :: path)) →
  match x with
  | Lit s => pathUnescape seg = s ∧ is_Some (match_segments pattern path)
  | Wild => (seg ≠ "" ∨ path ≠ []) ∧ is_Some (match_segments pattern path)
  | Slash => seg = "" ∧ path = []
  | Rest => True
  end.
Proof.
  destruct x; simpl; [by case_bool_decide; [|intros [? ?]]| | |done].
  - destruct (bool_decide (seg = "") && _) eqn:E; [by intros [? ?]|]. rewrite fmap_is_Some. split; [|done].
    apply andb_false_iff in E as [E|E]; [left; by apply bool_decide_eq_false in E|right; by destruct path].
  - destruct seg; [|by intros [? ?]]. by destruct path; [|intros [? ?]].
Qed.

Lemma match_nil x pattern : match_segments (x :: pattern) [] = None.
Proof. by destruct x. Qed.

Lemma apart_sound p q path :
  apart p q = true → is_Some (match_segments p path) → is_Some (match_segments q path) → False.
Proof.
  revert q path. induction p as [|x p IH]; intros [|y q] [|seg path]; rewrite ?match_nil;
    try (by intros ? [? ?] [? ?]); [done..|].
  intros Ha Hx%match_cons Hy%match_cons.
  destruct x, y; simpl in Ha; try done; destruct Hx as [H1 H2]; try destruct Hy as [H3 H4]; try by eapply IH.
  - apply orb_true_iff in Ha as [Ha|Ha]; [|by eapply IH]. apply negb_true_iff, bool_decide_eq_false in Ha. congruence.
  - subst. by apply negb_true_iff, bool_decide_eq_false in Ha.
  - subst. by destruct H1.
  - subst. by apply negb_true_iff, bool_decide_eq_false in Ha.
  - subst. by destruct H3.
Qed.

(** *** Plain paths *)

(** A segment that needs no escaping and means nothing to [path.Clean]. *)
Definition plain (s : string) : bool :=
  (s != "") && (s != ".") && (s != "..") && negb (has_byte "/" s) && negb (has_byte "%" s).

Definition path_of (segs : list string) : string := "/" +:+ joinWith "/" segs.

Lemma plain_spec s :
  plain s = true → s ≠ "" ∧ s ≠ "." ∧ s ≠ ".." ∧ has_byte "/" s = false ∧ has_byte "%" s = false.
Proof.
  unfold plain. rewrite !andb_true_iff, !negb_true_iff, !bool_decide_eq_false. tauto.
Qed.

Lemma pathUnescape_plain s : has_byte "%" s = false → pathUnescape s = s.
Proof.
  intros H. unfold pathUnescape. enough (unescape s = Some s) as -> by done.
  induction s as [|c s IH]; [done|]. simpl in H. apply orb_false_iff in H as [Hc Hs].
  apply bool_decide_eq_false in Hc. specialize (IH Hs).
  destruct c as [[] [] [] [] [] [] [] []]; try (by destruct Hc); cbn [unescape]; by rewrite IH.
Qed.

Lemma splitOn_path segs : segs ≠ [] → Forall (λ s, plain s = true) segs → splitOn "/" (path_of segs) = "" :: segs.
Proof.
  intros Hne Hp. unfold path_of. change ("/" +:+ joinWith "/" segs) with ("" +:+ String "/" (joinWith "/" segs)).
  rewrite splitOn_app by done. f_equal. induction Hp as [|s segs Hs Hp IH]; [done|].
  apply plain_spec in Hs as (_ & _ & _ & Hs & _). destruct segs as [|s' segs]; [by apply splitOn_single|].
  rewrite joinWith_cons by done. rewrite splitOn_app_sep by done. by rewrite IH.
Qed.

Lemma segments_path segs : segs ≠ [] → Forall (λ s, plain s = true) segs → segments (path_of segs) = segs.
Proof. intros. unfold segments. by rewrite splitOn_path. Qed.

Lemma path_no_slash segs : segs ≠ [] → Forall (λ s, plain s = true) segs → hasSuffix (path_of segs) "/" = false.
Proof.
  intros Hne Hp. destruct (hasSuffix _ _) eqn:E; [|done]. apply hasSuffix_spec in E as [t Ht].
  pose proof (splitOn_path segs Hne Hp) as Hs. rewrite Ht, splitOn_snoc in Hs by done.
  apply (f_equal list.last) in Hs. rewrite last_snoc in Hs. rewrite last_cons in Hs.
  destruct (list.last segs) as [s|] eqn:E; [|by apply last_None in E]. simplify_eq.
  rewrite Forall_forall in Hp. apply last_Some_elem_of, list_elem_of_In, Hp in E. done.
Qed.

Lemma clean_plain segs acc :
  Forall (λ s, plain s = true) segs → fold_left clean_step segs acc = acc ++ segs.
Proof.
  intros Hp. revert acc. induction Hp as [|s segs Hs _ IH]; intros acc; [by rewrite app_nil_r|]. simpl.
  apply plain_spec in Hs as (H1 & H2 & H3 & _). unfold clean_step at 2.
  rewrite !bool_decide_eq_false_2 by done. simpl. by rewrite IH, <-app_assoc.
Qed.

Lemma cleanPath_plain segs : segs ≠ [] → Forall (λ s, plain s = true) segs → cleanPath (path_of segs) = path_of segs.
Proof.
  intros Hne Hp. unfold cleanPath. change (hasPrefix (path_of segs) "/") with (hasPrefix ("/" +:+ joinWith "/" segs) "/").
  rewrite hasPrefix_app, splitOn_path, path_no_slash by done. simpl. by rewrite clean_plain.
Qed.

End mux.

(** ** The handler *)

Module webui.
Import topology dashboard mux.

Inductive Route :=
  | Static | Overview | Gateways | Routes | Backends | Graph | YamlGateway | YamlRoute | YamlBackend | Events.

(** The patterns of [NewHandler], all registered for [GET]. *)
Definition patterns : list (list segment * Route) :=
  [([Lit "static"; Rest], Static);
   ([Slash], Overview);
   ([Lit "gateways"], Gateways);
   ([Lit "routes"], Routes);
   ([Lit "backends"], Backends);
   ([Lit "api"; Lit "graph"], Graph);
   ([Lit "api"; Lit "yaml"; Lit "gateway"; Wild], YamlGateway);
   ([Lit "api"; Lit "yaml"; Lit "route"; Wild], YamlRoute);
   ([Lit "api"; Lit "yaml"; Lit "backend"; Wild; Wild], YamlBackend);
   ([Lit "events"], Events)].

(** A request: [URL.Path], [URL.EscapedPath()] and the [HX-Request] header. *)
Record WebRequest := mkWebRequest {
  wqMethod : string;
  wqPath : string;
  wqEscaped : string;
  wqQuery : string;
  wqHeader : Header;
}.

Definition lookup_route (path : string) : option (Route * list string) :=
  head (omap (λ pr : list segment * Route, pair pr.2 <$> match_segments pr.1 (segments path)) patterns).

(** [exactMatch]: only the trailing slash of [/static/] matches more than
    itself. *)
Definition exact (found : option (Route * list string)) (path : string) : bool :=
  match found with
  | None => false
  | Some (Static, _) => length (segments path) =? 2
  | Some _ => true
  end.

Inductive Found :=
  | Handled (route : Route) (values : list string)
  | Moved (path query : string)          (** 301 *)
  | NotAllowed                           (** 405, [Allow: GET, HEAD] *)
  | NotFound
  | BadRequest.                          (** the request URI [*] *)

Definition readable (method : string) : bool := (method == "GET") || (method == "HEAD").

(** [ServeMux.findHandler] over these patterns. *)
Definition findHandler (r : WebRequest) : Found :=
  if (wqEscaped r == "*") then BadRequest
  else
    let path := if (wqMethod r == "CONNECT") then wqEscaped r else cleanPath (wqEscaped r) in
    let at_path p := if readable (wqMethod r) then lookup_route p else None in
    if negb (exact (at_path path) path) && negb (hasSuffix path "/") && (path != "") &&
       exact (at_path (path +:+ "/")) (path +:+ "/")
    then Moved (cleanPath (wqPath r) +:+ "/") (wqQuery r)
    else if (path != wqEscaped r) then Moved path (wqQuery r)
    else
      match at_path path with
      | Some (route, values) => Handled route values
      | None =>
          if bool_decide (is_Some (lookup_route path)) || bool_decide (is_Some (lookup_route (path +:+ "/")))
          then NotAllowed else NotFound
      end.

(** What a page shows. *)
Inductive PageData :=
  | overviewData (page : Page) (tiles : list statTile)
  | gatewaysData (page : Page) (gateways : list GatewayInfo)
  | routesData (page : Page) (routes : list routeRow)
  | backendsData (page : Page) (backends : list backendRow).

Class Assets := {
  (** [ExecuteTemplate] of a page at a root; [None] is an error *)
  executeTemplate : string → string → PageData → option string;
  marshalGraph : graphData → option string;
  serveFile : WebRequest → Response → Response;
  (** [http.RedirectHandler] to a path and query, 301 *)
  movedTo : WebRequest → string → string → Response → Response;
}.

Section handler.
Context {assets : Assets}.

Definition rendered_root (r : WebRequest) : string :=
  if (hGet (wqHeader r) "HX-Request" == "true") then "content" else "base".

Definition write_as (contentType body : string) (w : Response) : Response :=
  rsWrite (rsSetHeader w (hSet (rsHeader w) "Content-Type" contentType)) body.

Definition render (w : Response) (r : WebRequest) (page : string) (data : PageData) : Response :=
  match executeTemplate page (rendered_root r) data with
  | None => httpError w "internal error" 500
  | Some html => write_as "text/html; charset=utf-8" html w
  end.

Definition overview (topo : Topology) (w : Response) (r : WebRequest) : Response :=
  render w r "overview" (overviewData (pageChrome "Overview" "overview" "/" topo) (buildTiles topo)).
Definition gateways (topo : Topology) (w : Response) (r : WebRequest) : Response :=
  render w r "gateways" (gatewaysData (pageChrome "Gateways" "gateways" "/gateways" topo) (tpGateways topo)).
Definition routes (topo : Topology) (w : Response) (r : WebRequest) : Response :=
  render w r "routes" (routesData (pageChrome "Routes" "routes" "/routes" topo) (buildRouteRows topo)).
Definition backends (topo : Topology) (w : Response) (r : WebRequest) : Response :=
  render w r "backends" (backendsData (pageChrome "Backends" "backends" "/backends" topo) (buildBackendRows topo)).

Definition graph (topo : Topology) (w : Response) : Response :=
  match marshalGraph (buildGraph topo) with
  | None => httpError w "internal error" 500
  | Some payload => write_as "application/json" payload w
  end.

Definition writeYAML (manifest : option string) (w : Response) : Response :=
  match manifest with
  | Some manifest => write_as "text/plain; charset=utf-8" manifest w
  | None => httpError w "404 page not found" 404
  end.

(** [events] up to its loop, on a connection that can be flushed; the loop
    is [dashboard.events]. *)
Definition connected (w : Response) : Response :=
  let h := hSet (rsHeader w) "Content-Type" "text/event-stream" in
  let h := hSet (hSet h "Cache-Control" "no-cache") "Connection" "keep-alive" in
  rsWrite (rsSetHeader w h) (": connected" +:+ newline +:+ newline).

Definition serve_route (topo : Topology) (w : Response) (r : WebRequest) (route : Route) (values : list string) : Response :=
  match route, values with
  | Static, _ => serveFile r w
  | Overview, _ => overview topo w r
  | Gateways, _ => gateways topo w r
  | Routes, _ => routes topo w r
  | Backends, _ => backends topo w r
  | Graph, _ => graph topo w
  | YamlGateway, uid :: _ => writeYAML (yamlGateway topo uid) w
  | YamlRoute, uid :: _ => writeYAML (yamlRoute topo uid) w
  | YamlBackend, namespace :: name :: _ => writeYAML (yamlBackend topo namespace name) w
  | Events, _ => connected w
  | YamlGateway, _ | YamlRoute, _ | YamlBackend, _ => w
  end.

(** [ServeHTTP] of the handler [NewHandler] returns. *)
Definition ServeHTTP (topo : Topology) (w : Response) (r : WebRequest) : Response :=
  match findHandler r with
  | Handled route values => serve_route topo w r route values
  | Moved path query => movedTo r path query w
  | NotAllowed => httpError (rsSetHeader w (hSet (rsHeader w) "Allow" "GET, HEAD")) "Method Not Allowed" 405
  | NotFound => httpError w "404 page not found" 404
  | BadRequest => writeHeader w 400
  end.

(** ** Properties *)

(** At most one pattern matches a path, so the order of registration does
    not matter. *)
Lemma patterns_apart : ForallPairs (λ p q : list segment * Route, p.2 = q.2 ∨ apart p.1 q.1 = true) patterns.
Proof.
  intros p q Hp Hq. unfold patterns in Hp, Hq. simpl in Hp, Hq.
  repeat (destruct Hp as [<-|Hp]; [repeat (destruct Hq as [<-|Hq]; [first [by left|by right]|]); done|]). done.
Qed.

Theorem one_handler path p q :
  p ∈ patterns → q ∈ patterns → is_Some (match_segments p.1 (segments path)) →
  is_Some (match_segments q.1 (segments path)) → p.2 = q.2.
Proof.
  intros Hp%list_elem_of_In Hq%list_elem_of_In Hmp Hmq. destruct (patterns_apart p q Hp Hq) as [?|Ha]; [done|].
  by destruct (apart_sound _ _ _ Ha Hmp Hmq).
Qed.

(** A path of plain segments is answered as it is. *)
Lemma findHandler_plain r segs route values :
  segs ≠ [] → Forall (λ s, plain s = true) segs → wqMethod r = "GET" → wqEscaped r = path_of segs →
  lookup_route (path_of segs) = Some (route, values) → route ≠ Static → findHandler r = Handled route values.
Proof.
  intros Hne Hp Hm He Hl Hs. unfold findHandler. rewrite He, Hm.
  rewrite (bool_decide_eq_false_2 (path_of segs = "*")) by done. simpl.
  rewrite cleanPath_plain by done. unfold readable. simpl. rewrite Hl.
  assert (exact (Some (route, values)) (path_of segs) = true) as -> by (by destruct route). simpl.
  by rewrite bool_decide_eq_true_2.
Qed.

Lemma lookup_path segs : segs ≠ [] → Forall (λ s, plain s = true) segs →
  lookup_route (path_of segs) =
    head (omap (λ pr : list segment * Route, pair pr.2 <$> match_segments pr.1 segs) patterns).
Proof. intros. unfold lookup_route. by rewrite segments_path. Qed.

Lemma yaml_gateway_path uid : plain uid = true →
  lookup_route (path_of ["api"; "yaml"; "gateway"; uid]) = Some (YamlGateway, [uid]).
Proof.
  intros Hu. rewrite lookup_path; [|done|by repeat constructor]. apply plain_spec in Hu as (Hne & _ & _ & _ & Hpc).
  simpl. rewrite (bool_decide_eq_false_2 _ Hne). simpl. by rewrite pathUnescape_plain.
Qed.

Lemma yaml_route_path uid : plain uid = true →
  lookup_route (path_of ["api"; "yaml"; "route"; uid]) = Some (YamlRoute, [uid]).
Proof.
  intros Hu. rewrite lookup_path; [|done|by repeat constructor]. apply plain_spec in Hu as (Hne & _ & _ & _ & Hpc).
  simpl. rewrite (bool_decide_eq_false_2 _ Hne). simpl. by rewrite pathUnescape_plain.
Qed.

Lemma yaml_backend_path namespace name : plain namespace = true → plain name = true →
  lookup_route (path_of ["api"; "yaml"; "backend"; namespace; name]) = Some (YamlBackend, [namespace; name]).
Proof.
  intros Hs Hn. rewrite lookup_path; [|done|by repeat constructor].
  apply plain_spec in Hs as (Hs1 & _ & _ & _ & Hs2), Hn as (Hn1 & _ & _ & _ & Hn2).
  simpl. rewrite (bool_decide_eq_false_2 _ Hs1), (bool_decide_eq_false_2 _ Hn1). simpl. by rewrite !pathUnescape_plain.
Qed.

Definition get (path : string) : WebRequest := mkWebRequest "GET" path path "" ∅.

Lemma find_unique {A} (P : A → Prop) `{∀ x, Decision (P x)} (f : A → string) (l : list A) x :
  NoDup (f <$> l) → x ∈ l → P x → (∀ y, P y → f y = f x) → head (filter P l) = Some x.
Proof.
  intros Hnd Hx HP Hu. induction l as [|y l IH]; [by apply elem_of_nil in Hx|].
  rewrite fmap_cons, list.NoDup_cons in Hnd. destruct Hnd as [Hy Hnd]. rewrite filter_cons. case_decide as Hd.
  - simpl. f_equal. apply elem_of_cons in Hx as [->|Hx]; [done|]. destruct Hy.
    rewrite (Hu y Hd). by apply list_elem_of_fmap_2.
  - apply elem_of_cons in Hx as [->|Hx]; [done|by apply IH].
Qed.

(** Every manifest the dashboard links to is served under its link: a
    request for the link of a Gateway, a route or a backend in the graph
    answers with that object's manifest. *)
Theorem manifest_links_resolve topo w :
  NoDup (gnUID <$> tpGateways topo) → NoDup (riUID <$> tpRoutes topo) →
  (∀ gw, gw ∈ tpGateways topo → plain (gnUID gw) = true → gnYAML gw ≠ "" →
     ServeHTTP topo w (get (nodeYAMLPath (gateway_node gw))) = writeYAML (Some (gnYAML gw)) w) ∧
  (∀ route, route ∈ tpRoutes topo → plain (riUID route) = true → riYAML route ≠ "" →
     ServeHTTP topo w (get (nodeYAMLPath (route_node route))) = writeYAML (Some (riYAML route)) w) ∧
  (∀ b, plain (compiled.bNamespace b) = true → plain (compiled.bName b) = true →
     nodeYAMLPath (backend_node topo b) ≠ "" →
     ServeHTTP topo w (get (nodeYAMLPath (backend_node topo b))) = writeYAML (Some (manifest_of topo b)) w).
Proof.
  intros Hg Hr. split; [|split].
  - intros gw Hin Hp Hy. unfold ServeHTTP.
    rewrite (findHandler_plain _ _ _ _) with (5 := yaml_gateway_path _ Hp); try done; [|by repeat constructor].
    simpl. unfold yamlGateway. rewrite (find_unique _ gnUID _ gw); try done. naive_solver.
  - intros route Hin Hp Hy. unfold ServeHTTP.
    rewrite (findHandler_plain _ _ _ _) with (5 := yaml_route_path _ Hp); try done; [|by repeat constructor].
    simpl. unfold yamlRoute. rewrite (find_unique _ riUID _ route); try done. naive_solver.
  - intros b Hs Hn Hy. unfold ServeHTTP. simpl in Hy.
    destruct (bool_decide (manifest_of topo b = "")) eqn:Hm; simpl in Hy; [done|].
    rewrite (findHandler_plain _ ["api"; "yaml"; "backend"; compiled.bNamespace b; compiled.bName b] YamlBackend
      [compiled.bNamespace b; compiled.bName b]); try done.
    + simpl. unfold yamlBackend. unfold manifest_of, service_key in *. destruct (tpBackends topo !! _); simpl in *; [|done].
      by rewrite Hm.
    + by repeat constructor.
    + simpl. by rewrite Hm.
    + by apply yaml_backend_path.
Qed.

(** The dashboard only reads: a request with another method than GET or HEAD
    reaches no page, and is answered the same whatever the cluster holds. *)
Theorem dashboard_read_only topo topo' w r :
  readable (wqMethod r) = false → ServeHTTP topo w r = ServeHTTP topo' w r.
Proof.
  intros Hm. unfold ServeHTTP. assert (∀ route values, findHandler r ≠ Handled route values) as Hn.
  { intros route values. unfold findHandler. rewrite Hm. by repeat case_match. }
  destruct (findHandler r) as [route values| | | |]; [by destruct (Hn route values)|done..].
Qed.

End handler.

(** ** A concrete dashboard *)

Instance ex_assets : Assets := {|
  executeTemplate page root _ := Some (root +:+ ":" +:+ page);
  marshalGraph g := Some (grRevision g);
  serveFile _ w := w;
  movedTo _ path _ w := rsSetHeader w (hSet (rsHeader w) "Location" path);
|}.

(** A page, its refresh, the graph, and the manifests of an unknown and a
    known backend. *)
Example answered :
  (λ ph : string * Header, let w := ServeHTTP ex_topology newResponse (mkWebRequest "GET" ph.1 ph.1 "" ph.2) in
     (rsStatus w, rsBody w)) <$>
    [("/routes", ∅); ("/routes", {["Hx-Request" := ["true"]]}); ("/api/graph", ∅);
     ("/api/yaml/backend/shop/none", ∅); ("/api/yaml/backend/shop/cart", ∅)] =
  [(Some 200%Z, "base:routes"); (Some 200%Z, "content:routes"); (Some 200%Z, "r1");
   (Some 404%Z, "404 page not found" +:+ newline); (Some 200%Z, "kind: Service")].
Proof. vm_compute. reflexivity. Qed.

Example found :
  (λ mp : string * string, findHandler (mkWebRequest mp.1 mp.2 mp.2 "" ∅)) <$>
    [("GET", "/"); ("HEAD", "/gateways"); ("GET", "/gateways/"); ("GET", "/static"); ("GET", "/static/graph.js");
     ("GET", "/api//yaml/../graph"); ("POST", "/routes"); ("GET", "/api/yaml/backend/ns"); ("GET", "/api/yaml/backend/a%2Fb/c");
     ("DELETE", "/x")] =
  [Handled Overview []; Handled Gateways []; NotFound; Moved "/static/" ""; Handled Static [];
   Moved "/api/graph" ""; NotAllowed; NotFound; Handled YamlBackend ["a/b"; "c"]; NotFound].
Proof. vm_compute. reflexivity. Qed.

End webui.
