(* ===== verification/Servers.v ===== *)
(** * Listener actors

    Models the child actors of [internal/app/dataplane/listeners]
    ([tcpserver], [tlsserver], [udpserver], [portserver]) and the management
    server ([internal/app/mgmt]): binding, accepting and the bounded drain of
    [Stop].  What they do with a connection is [Streams], [Datagrams] and
    [Handler]. *)

From S2P Require Import Prelude GoStrings Http Compiled Tables Matching Balancing Datagrams Streams.
From stdpp Require Import options.

#[local] Open Scope Z_scope.

Module servers.

(** 30 seconds, and 5 for the management server. *)
Definition drainTimeout : Z := 30 * 1000000000.
Definition shutdownTimeout : Z := 5 * 1000000000.

(** The listener of a stream port: PROXY protocol wraps every connection. *)
Definition accepted_kind (trusted : bool) : tcp.ConnKind := if trusted then tcp.Wrapped else tcp.TCPConn.

(** *** Stream servers *)

Inductive Phase := Bound | Accepting | Stopping (deadline : Z) | Returned (drained : bool).

Record Server := mkServer {
  seConfig : Z * tcp.ConnKind;
  sePhase : Phase;
  seActive : gset nat;
  seNext : nat;
}.

Definition New (port : Z) (trusted bound : bool) : option Server :=
  if bound then Some (mkServer (port, accepted_kind trusted) Bound ∅ 0) else None.

Definition Start (s : Server) : option Server :=
  match sePhase s with
  | Bound => Some (mkServer (seConfig s) Accepting (seActive s) (seNext s))
  | _ => None
  end.

(** A connection of the loop: [active.Go] counts it until it was served. *)
Definition accept (s : Server) : option Server :=
  match sePhase s with
  | Accepting => Some (mkServer (seConfig s) Accepting ({[ seNext s ]} ∪ seActive s) (S (seNext s)))
  | _ => None
  end.
Definition served (conn : nat) (s : Server) : option Server :=
  if decide (conn ∈ seActive s)
  then Some (mkServer (seConfig s) (sePhase s) (seActive s ∖ {[ conn ]}) (seNext s)) else None.

(** [Stop] closes the listener, then waits for the connections or the timer. *)
Definition stop (now : Z) (s : Server) : option Server :=
  match sePhase s with
  | Accepting => Some (mkServer (seConfig s) (Stopping (now + drainTimeout)) (seActive s) (seNext s))
  | _ => None
  end.
Definition drained (s : Server) : option Server :=
  match sePhase s with
  | Stopping _ =>
      if decide (seActive s = ∅) then Some (mkServer (seConfig s) (Returned true) (seActive s) (seNext s)) else None
  | _ => None
  end.
Definition timed_out (now : Z) (s : Server) : option Server :=
  match sePhase s with
  | Stopping deadline =>
      if deadline <=? now then Some (mkServer (seConfig s) (Returned false) (seActive s) (seNext s)) else None
  | _ => None
  end.

Inductive Event := Accept | Served (conn : nat) | Stop | Drained | TimedOut.

Definition step (now : Z) (e : Event) (s : Server) : option Server :=
  match e with
  | Accept => accept s
  | Served conn => served conn s
  | Stop => stop now s
  | Drained => drained s
  | TimedOut => timed_out now s
  end.

Fixpoint run (events : list (Z * Event)) (s : Server) : option Server :=
  match events with [] => Some s | (now, e) :: rest => step now e s ≫= run rest end.

(** The datagram server waits for its receive loop only. *)
Definition udp_stop_waits {P} (s : udp.Serving (P := P)) : bool :=
  match udp.svLoop s with udp.Stopped => false | udp.Crashed => false | _ => true end.

(** *** The HTTP server *)

Record HTTPServer := mkHTTPServer {
  hsPort : Z;
  hsTLS : bool;
  hsHTTP1 : bool;
  hsHTTP2 : bool;
  hsUnencryptedHTTP2 : bool;
  hsKind : tcp.ConnKind;
}.
Definition NewHTTP (port : Z) (withTLS trusted bound : bool) : option HTTPServer :=
  if bound then Some (mkHTTPServer port withTLS true true (negb withTLS) (accepted_kind trusted)) else None.

(** *** The management server *)

Inductive MgmtReply := JSONReply (status : Z) (body : string) | MetricsReply | NotFoundReply.

Definition quote : string := String "034" "".
Definition alive : string := "{" +:+ quote +:+ "alive" +:+ quote +:+ ":true}".

Definition manage (ready : string * Z) (path : string) : MgmtReply :=
  if (path == "/livez") then JSONReply 200 alive
  else if (path == "/readyz") then JSONReply ready.2 ready.1
  else if (path == "/metrics") then MetricsReply
  else NotFoundReply.

(** ** Draining *)

Definition stopping (s : Server) : bool := match sePhase s with Stopping _ | Returned _ => true | _ => false end.

Lemma step_stopping now e s s' :
  step now e s = Some s' → stopping s = true →
  stopping s' = true ∧ seActive s' ⊆ seActive s ∧ seNext s' = seNext s ∧ e ≠ Accept ∧ e ≠ Stop ∧
  (sePhase s' = sePhase s ∨ ∃ deadline, sePhase s = Stopping deadline ∧
     ((sePhase s' = Returned true ∧ seActive s = ∅) ∨ (sePhase s' = Returned false ∧ deadline ≤ now))).
Proof.
  unfold stopping. destruct e; simpl.
  - unfold accept. by destruct (sePhase s).
  - unfold served. case_decide; [|done]. intros [= <-] Hs. simpl. split_and!; try done; [set_solver|by left].
  - unfold stop. by destruct (sePhase s).
  - unfold drained. destruct (sePhase s) as [| |deadline|] eqn:Hp; try done. case_decide; [|done]. intros [= <-] _.
    simpl. split_and!; try done. right. exists deadline. auto.
  - unfold timed_out. destruct (sePhase s) as [| |deadline|] eqn:Hp; try done. destruct (deadline <=? now) eqn:Hd; [|done].
    intros [= <-] _. simpl. split_and!; try done. right. exists deadline. apply Z.leb_le in Hd. auto.
Qed.

Lemma run_stopping events s s' deadline :
  run events s = Some s' → stopping s = true →
  (∀ d, sePhase s = Stopping d → d = deadline) → (∀ drained, sePhase s ≠ Returned drained) →
  seActive s' ⊆ seActive s ∧ seNext s' = seNext s ∧
  (sePhase s' = Stopping deadline ∨ (sePhase s' = Returned true) ∨
   (sePhase s' = Returned false ∧ ∃ now, (now, TimedOut) ∈ events ∧ deadline ≤ now)).
Proof.
  revert s. induction events as [|[now e] events IH]; intros s; simpl.
  { intros [= <-] Hs Hd Hr. split; [done|]. split; [done|]. left. unfold stopping in Hs.
    destruct (sePhase s) as [| |d|x] eqn:Hp; try done; [by rewrite (Hd d)|by destruct (Hr x)]. }
  intros (s1 & H1 & H2)%bind_Some Hs Hd Hr.
  destruct (step_stopping now e s s1 H1 Hs) as (Hs1 & Hsub & Hnext & Hacc & Hstop & [Hph|(d & Hp & Hret)]).
  - destruct (IH s1 H2) as (HA & HN & HP); [done|by rewrite Hph|by rewrite Hph|].
    split; [set_solver|]. split; [congruence|]. destruct HP as [?|[?|(? & t & Hin & ?)]]; [by left|by right; left|].
    right; right. split; [done|]. exists t. split; [by right|done].
  - assert (d = deadline) as -> by auto.
    assert (∀ ev x, run ev x = Some s' → (∃ b, sePhase x = Returned b) →
      seActive s' ⊆ seActive x ∧ seNext s' = seNext x ∧ sePhase s' = sePhase x) as Hdone.
    { clear. induction ev as [|[t ev] rest IH]; intros x; simpl; [by intros [= <-]|].
      intros (x1 & Hx & Hrest)%bind_Some [b Hb].
      destruct (step_stopping t ev x x1 Hx) as (_ & ? & ? & _ & _ & [Hph|(d & ? & _)]); [by unfold stopping; rewrite Hb| |congruence].
      destruct (IH x1 Hrest) as (? & ? & ?); [exists b; congruence|]. split; [set_solver|]. split; congruence. }
    destruct (Hdone events s1 H2) as (HA & HN & HP); [by destruct Hret as [[? _]|[? _]]; eauto|].
    split; [set_solver|]. split; [congruence|]. right. destruct Hret as [[Hx _]|[Hx Ht]]; [left; congruence|right].
    split; [congruence|]. exists now. split; [|done]. destruct e; simpl in H1; try done; try (by left).
    + unfold served in H1. case_decide; [|done]. injection H1 as <-. simpl in Hx. by destruct (Hr false).
    + unfold drained in H1. rewrite Hp in H1. case_decide; [|done]. injection H1 as <-. done.
Qed.

(** Stopping a listener accepts no further connection, returns at once when the
    connections have ended and at the latest after thirty seconds. *)
Theorem stop_bounded now events s s0 s' :
  stop now s = Some s0 → run events s0 = Some s' →
  seActive s' ⊆ seActive s ∧ seNext s' = seNext s ∧
  (sePhase s' = Stopping (now + drainTimeout) →
     (seActive s' = ∅ → is_Some (drained s')) ∧ ∀ t, now + drainTimeout ≤ t → is_Some (timed_out t s')) ∧
  (sePhase s' = Returned false → ∃ t, (t, TimedOut) ∈ events ∧ now + drainTimeout ≤ t).
Proof.
  unfold stop. destruct (sePhase s) eqn:Hp; try done. intros [= <-] Hrun.
  destruct (run_stopping events _ s' (now + drainTimeout) Hrun) as (HA & HN & HP); simpl in *; [done|by intros d [= <-]|done|].
  split; [done|]. split; [done|]. split.
  - intros Hs. unfold drained, timed_out. rewrite Hs. split; [intros ->; by rewrite decide_True|].
    intros t Ht. apply Z.leb_le in Ht. by rewrite Ht.
  - intros Hf. destruct HP as [?|[?|[_ ?]]]; [congruence..|done].
Qed.

Definition ex_server : Server := mkServer (5432, accepted_kind true) Accepting {[ 0%nat; 1%nat ]} 2.

(** One connection ends in time, the other outlasts the drain. *)
Lemma stop_bounded_witness :
  ∃ s0 s', stop 0 ex_server = Some s0 ∧ run [(1, Served 0); (drainTimeout, TimedOut)] s0 = Some s' ∧
    seActive s' = {[ 1%nat ]} ∧ ∃ t, (t, TimedOut) ∈ [(1, Served 0); (drainTimeout, TimedOut)] ∧ 0 + drainTimeout ≤ t.
Proof.
  eexists _, _. split; [reflexivity|]. split; [vm_compute; reflexivity|]. split; [reflexivity|].
  eapply (stop_bounded 0 [(1, Served 0); (drainTimeout, TimedOut)] ex_server); [reflexivity|vm_compute; reflexivity|reflexivity].
Defined.

End servers.
