(* ===== verification/Gateway.v ===== *)
(** * The request path with its identity providers

    [Handler] serves requests against an interface to the identity providers
    and to the reserved endpoints; this file plugs in the providers of
    [Providers] and the endpoints of [Login], the way [proxy.Handler] calls
    [auth.Enforcer] and [auth.ServeEndpoint], and composes the guarantees. *)

From S2P Require Import Prelude GoStrings Http Sha256 Compiled Tables Matching Balancing RateLimit Filters Auth Waf ReverseProxy Handler.
From S2P Require Import Base64 Jwt Ldap Oidc Saml Login Sealing Providers.
From Stdlib Require Import QArith.QArith_base.
From stdpp Require Import options.

#[local] Close Scope Q_scope.
#[local] Open Scope Z_scope.
Import routing matching balancing ratelimiting filters proxy.

Module gateway.

(** ** Reserved endpoints *)

Section reserved.
Context {sealer : auth.Sealer} {states : login.StateSealer}.
Context {web : web.Web} {json : jwt.TokenJSON} {sigs : jwt.Signatures} {docs : oidc.OidcJSON}.
Context {lib : saml.SamlLib} {dir : ldap.Directory} {forms : login.Forms} {pages : login.Pages}.
(** The live providers of each extension, and random bytes. *)
Context (outside : Outside) (lives : Enforcer → login.Live) (draw : nat → string).

Definition endpoint_env : login.Env := login.mkEnv now draw nonce.

Definition candidates_of (enforcers : list Enforcer) : list (auth.Enforcer * login.Live) :=
  (λ e, (auth.NewEnforcer (enCfg e), lives e)) <$> enforcers.

(** [auth.ServeEndpoint]; an extension without a session panics, which
    [has_session] excludes. *)
Definition serve_login (w : Response) (r : Request) (enforcers : list Enforcer) : Z * Response :=
  match (login.ServeEndpoint endpoint_env r (candidates_of enforcers)).1 with
  | Some reply => login.render w r reply
  | None => (0, w)
  end.

Definition has_session (e : Enforcer) : Prop := is_Some (compiled.auSession (enCfg e)).

(** The outside world with the login endpoints in place. *)
Definition with_login : Outside := {|
  now := now;
  nonce := nonce;
  drawBelow := drawBelow;
  exchange := exchange;
  switchProtocols := switchProtocols;
  serveEndpoint := serve_login;
  switch_status := switch_status;
  exchange_reads_body := exchange_reads_body;
|}.

Lemma candidates_answer r enforcers :
  Forall has_session enforcers → is_Some (login.ServeEndpoint endpoint_env r (candidates_of enforcers)).1.
Proof.
  intros Hs. apply login.endpoints_answer. intros c Hc.
  apply list_elem_of_fmap in Hc as (e & -> & He). simpl.
  rewrite Forall_forall in Hs. apply list_elem_of_In in He. destruct (Hs e He) as [s Hse].
  rewrite Hse. by eexists.
Qed.

End reserved.

(** ** Properties *)

(** C23: A request under a reserved prefix is answered by the login endpoints
    and never forwarded, its logged status is that of their answer, and they
    hand out a session cookie only at the end of a login with an extension of
    that host: the request carries the unexpired state cookie of that extension,
    an OpenID Connect callback repeats its state parameter and redeems the code
    for an ID token that verifies and carries the nonce, a SAML response answers
    the recorded request ID, and a directory form repeats the form token and
    names credentials the directory accepted. *)
Theorem session_needs_login {F : Type} {float : FloatOps F} {sort : GoSort} {sealer : auth.Sealer}
    {states : login.StateSealer} {providers : auth.Providers} {web : web.Web} {json : jwt.TokenJSON}
    {sigs : jwt.Signatures} {docs : oidc.OidcJSON} {lib : saml.SamlLib} {dir : ldap.Directory}
    {forms : login.Forms} {pages : login.Pages} {coraza : waf.Coraza} {line : waf.RequestLine}
    (outside : Outside) (lives : Enforcer → login.Live) (draw : nat → string)
    st r port withTLS (w : World (F := F)) w' o :
  let host := hostOnly (rqHost r) in
  let enforcers := AuthEndpoint (stTables st) port host (rqPath r) in
  Serve (outside := with_login outside lives draw) st r port withTLS w = (w', o) →
  (∀ sn, withTLS = true → rqTLS r = Some sn → Misdirected (stTables st) port sn host = false) →
  enforcers ≠ [] → Forall has_session enforcers →
  wSent w' = wSent w ∧
  ∃ reply live', login.ServeEndpoint (endpoint_env outside draw) r (candidates_of lives enforcers) = (Some reply, live') ∧
    wResponse w' = (login.render (wResponse w) r reply).2 ∧
    (∃ access, o = Some (Some access) ∧ acStatus access = (login.render (wResponse w) r reply).1) ∧
    (login.sets_session reply →
     ∃ e codec state session, e ∈ enforcers ∧ auth.eCodec (auth.NewEnforcer (enCfg e)) = Some codec ∧
       login.OpenState codec (login.jar_of r) now = Some state ∧
       login.stExtension state = compiled.auIdentity (enCfg e) ∧
       login.logged_in (auth.NewEnforcer (enCfg e)) (endpoint_env outside draw) r (lives e) state session ∧
       reply = login.conclude codec (endpoint_env outside draw) r state session).
Proof.
  intros host enforcers Hserve Hmis Hne Hses.
  destruct (candidates_answer outside lives draw r enforcers Hses) as [reply Hreply].
  destruct (login.ServeEndpoint _ _ _) as [reply' live'] eqn:Hend; simpl in Hreply; subst reply'.
  unfold Serve in Hserve. destruct (ClientIP _ _ _) as [clientIP trusted].
  replace (match rqTLS r with Some sn => _ | None => false end) with false in Hserve.
  2:{ destruct (rqTLS r) as [sn|]; [|done]. destruct withTLS; [|done]. symmetry. by apply (Hmis sn). }
  fold host in Hserve. fold enforcers in Hserve.
  assert (negb (length enforcers =? 0)%nat = true) as Hlen by (by destruct enforcers).
  rewrite Hlen in Hserve. revert Hserve. unfold mbind, M_bind, respond_with. simpl.
  unfold serve_login. rewrite Hend. simpl. destruct (login.render (wResponse w) r reply) as [status resp] eqn:Hr.
  intros [= <- <-]. split; [done|]. exists reply, live'. rewrite Hr. split_and!; [done..|by eexists|].
  intros Hset. destruct (login.ServeEndpoint_session _ _ _ _ _ Hend Hset) as (e & live & codec & state & session & Hc & H).
  apply list_elem_of_fmap in Hc as (e' & [= -> ->] & He). by exists e', codec, state, session.
Qed.

(** The request's cookies hold a session that was sealed under the session
    secret of the extension and has not expired: their concatenation is the
    base64 of a nonce and of the box of the session's text under the key the
    secret derives. *)
Definition sealed_session {aead : sealing.AEAD} {sessions : sealing.Payload auth.Session}
    (cfg : compiled.Auth) (jar : auth.Jar) (at_ : Z) (s : auth.Session) : Prop :=
  ∃ ses nonce plain, compiled.auSession cfg = Some ses ∧
    base64.decode (foldr String.append ""
      (auth.read_chunks (auth.NewCodec (compiled.auIdentity cfg) ses) jar 0 auth.maxCookieChunks)) =
      Some (nonce +:+ sealing.Seal (sha256_hex (compiled.asSecret ses)) nonce plain "session") ∧
    sealing.unmarshal plain = Some s ∧ auth.unix at_ < auth.sExpiresAt s.

Lemma carried_sealed {aead : sealing.AEAD} {nonces : sealing.Nonces} {sessions : sealing.Payload auth.Session}
    marshal_ok cfg jar at_ s :
  authn.carried (sealer := sealing.session_sealer marshal_ok) (auth.NewEnforcer cfg) jar at_ s →
  sealed_session cfg jar at_ s.
Proof.
  intros (codec & Hc & Ho). unfold auth.NewEnforcer in Hc. cbn [auth.eCodec] in Hc.
  apply fmap_Some in Hc as (ses & Hses & ->).
  destruct (sealing.sessions_are_sealed _ _ _ _ _ Ho) as (nonce & plain & H).
  exists ses, nonce, plain. split; [done|exact H].
Qed.

(** C21: With the real providers, every request sent upstream from a rule behind
    an enforcer belongs to an authentic session whose identity satisfies every
    authorization rule: an unexpired cookie sealed under the session secret of
    the extension (which extensions with one secret share), a cookie refreshed
    against a freshly verified ID token, a bearer token whose signature verifies
    under a key the issuer served and whose issuer, audience and times hold, or
    a directory login that searched, found one entry and bound with the
    presented password; and its identity headers are those of that session, less
    those the client's Connection header names, as the operator's request header
    modifiers then edit them. *)
Theorem forwarded_is_authentic {F : Type} {float : FloatOps F} {sort : GoSort} {aead : sealing.AEAD}
    {nonces : sealing.Nonces} {sessions : sealing.Payload auth.Session}
    {text : authn.RequestText} {web : web.Web} {json : jwt.TokenJSON} {sigs : jwt.Signatures}
    {docs : oidc.OidcJSON} {dir : ldap.Directory} {coraza : waf.Coraza} {line : waf.RequestLine}
    {outside : Outside} (marshal_ok : ∀ s, auth.json_safe s = true → sealing.marshals s = true)
    (live : authn.Live) t st r port withTLS (w : World (F := F)) w' o s rule l route e :
  limits_answer st r port →
  Serve (sealer := sealing.session_sealer marshal_ok) (providers := authn.live_providers now live)
    st r port withTLS w = (w', o) → s ∈ sent_between w w' →
  Match (stTables st) port (hostOnly (rqHost r)) r = Some (rule, l, route) → ruAuthEnforcer rule = Some e →
  authn.live_ok (auth.NewEnforcer (enCfg e)) t live →
  ∃ session,
    authn.authentic (auth.NewEnforcer (enCfg e)) (with_header (auth.strip_identity (rqHeader r)) r)
      (sealed_session (enCfg e) (httputil.cookies_of (rqHeader r)) now) now live session ∧
    Forall (λ req, auth.satisfies (auth.session_identity session) req = true) (compiled.auAuthorization (enCfg e)) ∧
    ∀ k, k ∈ auth.identity_headers →
      hValues (rqHeader (seRequest s)) k =
        fold_left (edited k) (filters_of rule s)
          (if decide (k ∈ (canonicalKey <$> httputil.connection_names (rqHeader r))) then []
           else auth.injected (auth.session_identity session) k).
Proof.
  intros Hlim Hserve Hs Hm He Hlive.
  destruct (Serve_cleared _ _ _ _ _ _ _ _ Hlim Hserve Hs) as (rule' & r1 & Hc & Hsent & Ha).
  destruct Hc as ((l' & route' & Hm') & _). rewrite Hm in Hm'. injection Hm' as <- <- <-.
  destruct (Ha e He) as [identity Hauth].
  pose proof Hauth as (r' & d & cookies & Hev & Hallowed & Hid & Hr1).
  destruct (authn.allowed_is_authentic _ _ _ _ _ _ _ _ _ _ t live Hlive Hev Hallowed) as (session & Hs1 & Hid' & Hreq).
  exists session. rewrite Hid in Hid'. injection Hid' as ->.
  assert (r' = with_header (auth.strip_identity (rqHeader r)) r) as ->.
  { symmetry. exact (f_equal fst Hev). }
  split; [|split; [done|]].
  - eapply authn.authentic_mono; [|exact Hs1]. intros s0. apply carried_sealed.
  - intros k Hk. exact (sent_identity _ _ _ _ _ _ _ _ _ _ Hauth Hsent Hk).
Qed.

(** ** A concrete gateway *)

#[local] Existing Instances ldap.ex_directory jwt.ex_web jwt.ex_token_json jwt.ex_signatures authn.ex_docs authn.ex_text.
#[local] Open Scope nat_scope.

Definition ex_at (seconds : Z) : Outside := {|
  now := (seconds * 1000000000)%Z;
  nonce := 0;
  drawBelow := drawBelow (Outside := ex_outside);
  exchange := exchange (Outside := ex_outside);
  switchProtocols := switchProtocols (Outside := ex_outside);
  serveEndpoint := serveEndpoint (Outside := ex_outside);
  switch_status := switch_status (Outside := ex_outside);
  exchange_reads_body := exchange_reads_body (Outside := ex_outside);
|}.

(** One rule behind an enforcer. *)
Definition ex_rule (cfg : compiled.Auth) : RuleTable :=
  mkRuleTable 1 [] [] [mkBackendTable 2 "default" "a" 80 1 true false [] "" None false] [] None false 0 0 1
    None None (Some (mkEnforcer cfg)) false.
Definition ex_gateway (cfg : compiled.Auth) : State :=
  mkState (ex_tables [ex_listener 10 "l" "" [ex_route "r" [] [ex_rule cfg]]]) ∅ ex_index.

Definition ex_token_request : Request :=
  mkRequest "GET" "/app" "" "app.example.com"
    {["Authorization" := ["Bearer " +:+ jwt.ex_signed "RS256" "k1" "alice" "2000"]; "X-Auth-Request-User" := ["root"]]}
    "192.0.2.1:4000" (Some "app.example.com") None 0.

Definition ex_guard : compiled.Auth := auth.eCfg authn.ex_authn.
#[local] Existing Instances sealing.ex_aead sealing.ex_nonces sealing.ex_sessions.
Definition ex_marshals (s : auth.Session) (_ : auth.json_safe s = true) : sealing.marshals s = true := eq_refl.
Definition ex_forwarding : World (F := Q) * option (option Access) :=
  Serve (sealer := sealing.session_sealer ex_marshals) (outside := ex_at 1000)
    (providers := authn.live_providers 1000000000000 authn.ex_live)
    (ex_gateway ex_guard) ex_token_request 443 true ex_world.
Definition ex_forwarded : Sent :=
  default (mkSent true ex_mirror PlainTransport "" "" ex_token_request) (head (wSent ex_forwarding.1)).

Example forwarded_user : hValues (rqHeader (seRequest ex_forwarded)) auth.HeaderUser = ["alice"].
Proof. vm_compute. reflexivity. Qed.

Lemma forwarded_is_authentic_witness :
  ∃ session,
    authn.authentic (auth.NewEnforcer ex_guard)
      (with_header (auth.strip_identity (rqHeader ex_token_request)) ex_token_request)
      (sealed_session ex_guard (httputil.cookies_of (rqHeader ex_token_request)) 1000000000000)
      1000000000000 authn.ex_live session ∧
    hValues (rqHeader (seRequest ex_forwarded)) auth.HeaderUser = auth.injected (auth.session_identity session) auth.HeaderUser.
Proof.
  destruct (forwarded_is_authentic (outside := ex_at 1000) ex_marshals authn.ex_live 0 (ex_gateway ex_guard) ex_token_request
    443 true ex_world ex_forwarding.1 ex_forwarding.2 ex_forwarded (ex_rule ex_guard)
    (ex_listener 10 "l" "" [ex_route "r" [] [ex_rule ex_guard]]) (ex_route "r" [] [ex_rule ex_guard]) (mkEnforcer ex_guard))
    as (session & H1 & _ & H2).
  - intros rule l route cfg Hm. assert (rule = ex_rule ex_guard) as -> by (revert Hm; vm_compute; congruence). discriminate.
  - apply surjective_pairing.
  - apply (list_elem_of_lookup_2 _ 0). vm_compute. reflexivity.
  - vm_compute. reflexivity.
  - reflexivity.
  - split; [intros cfg [= <-]; constructor|discriminate].
  - exists session. split; [exact H1|]. rewrite H2.
    + rewrite decide_False; [reflexivity|]. vm_compute. by intros ?%elem_of_nil.
    + left.
Defined.

(** A browser logs in over OpenID Connect. *)
#[local] Existing Instances login.ex_state_sealer login.ex_login_json login.ex_login_web login.ex_login_docs.
#[local] Existing Instances login.ex_saml_lib login.ex_forms login.ex_pages.

Definition ex_portal : compiled.Auth := auth.eCfg login.ex_e.
Definition ex_keep (seconds : Z) (live : login.Live) (r : Request) : auth.Jar :=
  let reply := (login.ServeEndpoint (login.ex_env seconds) r [(auth.NewEnforcer ex_portal, live)]).1 in
  fold_left auth.store_cookie (from_option login.rpCookies [] reply) (login.jar_of r).
Definition ex_start : Request := login.ex_browse "/_auth/oidc/start" "" (ex_keep 1000 login.ex_live login.ex_r1).
Definition ex_back : Request := login.ex_callback (ex_keep 1010 login.ex_live ex_start).
Definition ex_lives (e : Enforcer) : login.Live := login.ex_live2.

Definition ex_login : World (F := Q) * option (option Access) :=
  Serve (outside := with_login (ex_at 1020) ex_lives login.ex_draw) (ex_gateway ex_portal) ex_back 443 true ex_world.
Definition ex_login_reply : login.Reply :=
  default (login.mkReply [] login.NotFound)
    (login.ServeEndpoint (endpoint_env (ex_at 1020) login.ex_draw) ex_back (candidates_of ex_lives [mkEnforcer ex_portal])).1.

Example logged_in_response :
  rsStatus (wResponse ex_login.1) = Some 302%Z ∧ wSent ex_login.1 = [] ∧
  hValues (rsHeader (wResponse ex_login.1)) "Location" = ["/app"].
Proof. vm_compute. done. Qed.

Lemma session_needs_login_witness :
  wSent ex_login.1 = [] ∧
  ∃ codec state session,
    login.OpenState codec (login.jar_of ex_back) 1020000000000 = Some state ∧
    login.logged_in (auth.NewEnforcer ex_portal) (endpoint_env (ex_at 1020) login.ex_draw) ex_back login.ex_live2 state session ∧
    ex_login_reply = login.conclude codec (endpoint_env (ex_at 1020) login.ex_draw) ex_back state session.
Proof.
  destruct (session_needs_login (providers := ex_auth_providers) (ex_at 1020) ex_lives login.ex_draw (ex_gateway ex_portal)
    ex_back 443 true ex_world ex_login.1 ex_login.2) as (Hs & reply & live' & Hr & _ & _ & H).
  - apply surjective_pairing.
  - intros sn _ [= <-]. vm_compute. reflexivity.
  - vm_compute. discriminate.
  - vm_compute. repeat constructor. by eexists.
  - split; [exact Hs|].
    assert (reply = ex_login_reply) as ->.
    { apply (f_equal (λ x, x.1)) in Hr. cbn [fst] in Hr. apply (inj Some). rewrite <- Hr. vm_compute. reflexivity. }
    destruct H as (e & codec & state & session & He & _ & Ho & _ & Hl & Hc).
    + exists (default (auth.expiredCookie true "") (login.rpCookies ex_login_reply !! 1)).
      split; [apply (list_elem_of_lookup_2 _ 1); vm_compute; reflexivity|].
      split; [vm_compute; reflexivity|vm_compute; discriminate].
    + assert (e = mkEnforcer ex_portal) as ->.
      { vm_compute in He. apply list_elem_of_singleton in He. rewrite He. vm_compute. reflexivity. }
      exists codec, state, session. split_and!; [exact Ho|exact Hl|exact Hc].
Defined.

End gateway.
